(* ===== verification/_CoqProject ===== *)
-Q . S2P
Prelude.v
Bytes.v
Cbor.v
Crypto.v
Ids.v
Envelope.v
Toy.v
Hpke.v
Card.v
Records.v
Join.v
HostFrame.v
BTree.v
HomeState.v
Home.v
MailboxLemmas.v
HomeInv.v
HomeRun.v
HomeProps.v
TokenProps.v
SweepProps.v
Federation.v
FedProps.v
S2s.v
Group.v
GroupStep.v
GroupInv.v
GroupProps.v
PgDb.v
Pg.v
PgLoad.v
PgCover.v
PgPersist.v
PgTx.v
PgTouch.v
PgJournal.v
PgGroups.v
PgRows.v
PgRestore.v
PgRestoreGroups.v
HomeTyped.v
PgProcess.v
PgRun.v
PgProps.v
PgGaps.v
Turn.v
Http.v
HttpTyped.v
HttpRun.v
HttpProps.v
CoreErr.v
AppMsg.v
Privacy.v
Contacts.v
SignalStore.v
Install.v
ToySignal.v
InstallProps.v
ClientState.v
Origin.v
Session.v
SessionOps.v
SessionServer.v
SessionProps.v
SessionContacts.v
SessionCalls.v
Vault.v
VaultProps.v
MlsLib.v
ToyMls.v
ClientGroup.v
ClientGroupStore.v
ClientGroupInv.v
ClientGroupRun.v
ClientGroupProps.v
Audio.v
Call.v
FfiInbox.v
FfiClient.v
FfiProps.v
