(* ===== verification/Prelude.v ===== *)
(** * A verification development of the Nemo messenger

    Nemo (crates under [src/crates/]) is a federated messenger. A client seals a
    padded _inner envelope_ to the recipient's _home server_ and hands it, inside
    an _outer envelope_, to its own server; the servers forward it over pinned
    links; the home server opens it, checks the delivery capability it carries and
    stores it in the recipient's mailbox, from which the owner fetches and
    acknowledges with signed requests. Groups live on a _group stream host_, which
    orders the members' appends and fans them out as envelopes to their home
    servers; what the members say is MLS, which the clients run themselves. The
    client keeps its keys, sessions, groups and conversations in an encrypted
    vault, and an object with a lock offers all of it to the user interface.

    The development covers the wire format ([nemo-wire]), the server
    ([nemo-server]: state machines, federation, HTTP interface, persistence), the
    client ([nemo-core]: messages, contacts, installation, session, vault, groups,
    calls and audio) and the client object of the bindings ([nemo-ffi]).

    ** How the code is modelled

    - Machine integers are [N] with the wrap-around or saturation of the operation
      written out ([u64_add], [saturating_add], ...): a plain [+] of the release
      build wraps. Audio samples are [Z] with the range of [i16]; [f32] and [f64]
      are the binary formats of [SpecFloat]. Bytes are [Byte.byte], [[u8; N]] is a
      list with its length ([arr]), a [String] a valid UTF-8 list ([rstring]), a
      [HashMap] is a [gmap], a [BTreeMap] an ordered association list; where the
      order in which a [HashMap] is iterated can be seen, it is a parameter.
    - [Result] is [result]; a [&mut self] method is an action [stM S E A], which
      returns the state in both outcomes, because Rust keeps the mutations made
      before an error. Functions on two servers run on the pair of states.
    - Locks: a handler of the server is a program of locked sections, and the
      sections of concurrent requests interleave ([HttpRun]). The flags a call
      shares with the media library may change before every load and during every
      await ([Call]). The exported methods of the client object hold its lock.
    - Postconditions are stated with [post m s Q] and computed by [wp]; a method
      that keeps a predicate [preserves] it, and [walk] proves that for the
      methods that do not touch what the predicate looks at.
    - Random draws, clocks, the outcome of the network, of the disk and of the
      database are arguments, or fields of the world an action runs on.

    Code outside the repository is a class; the documented behaviour a theorem
    needs is a second class of laws, inhabited by a concrete instance on which the
    witnesses run: [Crypto]/[CryptoLaws] (Ed25519, SHA-256, HPKE, base64; [Toy]),
    [TurnLib] (HMAC), [Axum]/[AxumLaws] (routing and header conversion),
    [SignalTypes], [SignalOps], [Bip39] (libsignal, word lists; [ToySignal]),
    [OpenMls], [MlsLib]/[MlsLibLaws] (OpenMLS; [ToyMls]), [HomeTransport] and
    [Platform] (HTTP client, clock, random source), [Argon] (Argon2), [MediaLib]
    and [MediaClock] (webrtc-rs), [Opus]/[OpusLaws] and [AudioProcessor],
    [FfiPlatform] and [HttpBuild] (environment and HTTP client construction).
    [SessionServer] instantiates [HomeTransport] with the model of the server's
    own router, so that client and server are run against each other.

    ** Files

    - [Prelude]: results, the method monad, record update, integers, tactics,
      hint databases, list lemmas. [Bytes]: arrays, big-endian integers, UTF-8,
      and the error types of the wire and server crates.
    - Wire crate, one definition per function with the round trips and signature
      properties of each object: [Cbor] ([cbor.rs]), [Crypto] and [Toy], [Ids]
      ([ids.rs], [sign.rs]), [Envelope] ([envelope.rs]), [Hpke] ([hpke.rs]),
      [Card] ([card.rs]), [Records] ([revocation.rs], [prekey.rs],
      [discovery.rs]), [Join] ([join.rs]), [HostFrame] ([hostframe.rs]).
    - Home server ([home.rs]): [BTree], [HomeState], [Home]; [MailboxLemmas],
      [HomeInv]: its invariant; [HomeRun]: operations and runs; [HomeTyped]: field
      ranges; [HomeProps], [TokenProps], [SweepProps]: what the service promises.
    - Federation: [Federation] ([federation.rs]), [FedProps]; [S2s] ([s2s.rs]):
      framing, the locked sections of a connection, the dialer's loop.
    - Group host ([group.rs]): [Group]; [GroupStep]: membership as a state machine
      and the refinement of every method to it; [GroupInv], [GroupProps].
    - Persistence ([pg.rs], [identity.rs]): [PgDb] the tables and statements, [Pg]
      writing, [PgLoad] reading and start-up; [PgCover], [PgTouch], [PgJournal],
      [PgGroups]: every method journals what it changes; [PgPersist], [PgTx]: what
      a transaction writes; [PgRows], [PgRestore], [PgRestoreGroups]: what a
      restart reads; [PgProcess], [PgRun]: the process with its crashes;
      [PgProps], [PgGaps].
    - HTTP interface: [Turn] ([turn.rs]), [Http] ([http.rs]), [HttpTyped],
      [HttpRun], [HttpProps].
    - Client: [CoreErr] ([error.rs]), [AppMsg] ([app.rs]), [Privacy]
      ([privacy.rs], [mailbox.rs]), [Contacts] ([discovery.rs], [attachment.rs]),
      [SignalStore] ([store.rs]), [Install] ([identity.rs], [bundle.rs]),
      [ToySignal], [InstallProps], [Origin] ([tor.rs] and addresses), [ClientState],
      [Session], [SessionOps] ([home.rs]), [SessionServer], [SessionProps],
      [SessionContacts], [SessionCalls]; [Vault] ([vault.rs], [device_bind.rs]),
      [VaultProps]; [MlsLib], [ToyMls], [ClientGroup], [ClientGroupStore]
      ([group.rs]), [ClientGroupInv], [ClientGroupRun], [ClientGroupProps].
    - Calls: [Audio] ([audio.rs]), [Call] ([call.rs]).
    - Bindings ([nemo-ffi/src/lib.rs]): [FfiInbox], the conversations as an
      abstract data type, the _shelf_; [FfiClient], the client object, which joins
      session, groups, vault and call; [FfiProps].

    ** What the theorems show

    - Wire format: encoding and decoding are inverse for CBOR, envelopes, cards,
      records, join objects, frames; the CBOR reader is total; padding picks the
      smallest bucket; signatures are domain separated and cover what they claim;
      what is sealed to a server opens there and nowhere else.
    - Home server: an invariant of every reachable state; an append stores once;
      fetch is complete and in order; acknowledged mail is not delivered again; an
      owner request is accepted once; a share token delivers once and reserves one
      prekey; contact capabilities are rate limited; revocation is final; the two
      sweeps agree and spare capabilities in use.
    - Federation: frames once and in order, bounded windows, delivery on a
      synchronised link, a pump pass that settles every due row, a dialer that
      drains its destination.
    - Groups on the host: methods refine the membership machine; streams are
      gapless and accounted; appends reach exactly the live members; join objects
      are single use; a removed member stays out.
    - Persistence and HTTP: after a crash at any moment the process resumes the
      memory of the last save that committed; a save over a working link succeeds;
      an answered mutation whose save succeeded is durable; requests in progress
      refine sequences of operations of the two components.
    - Client: polling against the server's handlers returns the unexpired rows
      above the cursor; contacts stay certified by their pinned keys and pins do
      not go back; signed answers are authentic; a vault returns what was last
      saved and opens with its own key only; a group's invariant, the rules by
      which its members change, and its survival in the vault.
    - Calls: set-up and waiting return in time, candidates are signalled once and
      in order, a wrong answer changes nothing; audio queues and frames stay
      within their bounds.
    - Client object: every exported call changes the conversations only by steps
      of the shelf; a new message is above every mark; no row holds the mailbox up
      for long; a deletion stands when its broadcast fails; conversations survive
      a restart.
    - Deviations: theorems that exhibit behaviour the code does not intend, among
      them a failed append that stays in the stream, a link that drops rows as
      delivered, an interrupted first start that cannot be repaired, a batch lost
      by one failed post, a contact that ends somebody else's call, an address
      that leaves the client unusable.

    ** Bounds and fuel

    The CBOR reader gets one unit of fuel more than it has input bytes
    ([Cbor.cbor_decode_total] shows that it never runs out); eviction gets the
    number of rows; the pump loop gets the length of the queue
    ([FedProps.pump_settles_due_rows]); publishing prekeys gets as many rounds as
    a full stock has, which is never used up
    ([SessionCalls.restock_publish_stocks_up]); the waiting loops of a call get
    their time limit over the 50 ms of a pause, and
    [Call.call_setup_ends] shows that the clock stops them first; cutting samples
    into frames gets the length of the input. Theorems about runs assume fewer
    than [2^64] operations, so that sequence numbers do not wrap, and where random
    identifiers must be distinct, that the draws of the run do not collide.

    ** Not modelled

    TLS ([tls.rs]), sockets and the SOCKS connection; the start-up binaries; the
    opening of the database pool and the migrations; [HttpHome] beyond its address
    check and the WebSocket that [wait_wakeup] waits on; scheduling of the threads
    the client object starts, which appear as single turns, and what other threads
    do while [start_call] and [answer_call] release the lock; desktop audio
    devices; the Kotlin application, deployment and documentation. These are I/O
    and calls of libraries around the modelled code. *)

From stdpp Require Export base tactics option list gmap countable strings.
From Stdlib Require Export NArith Lia ZifyBool ZifyN ZifyNat.

#[global] Open Scope N_scope.

(** ** Results *)

(** Rust's [Result<A, E>]. *)
Inductive result (E A : Type) : Type :=
| Ok (a : A)
| Err (e : E).
Arguments Ok {E A} _.
Arguments Err {E A} _.

#[global] Instance result_ret {E} : MRet (result E) := fun A a => Ok a.
#[global] Instance result_bind {E} : MBind (result E) :=
  fun A B f m => match m with Ok a => f a | Err e => Err e end.
#[global] Instance result_fmap {E} : FMap (result E) :=
  fun A B f m => match m with Ok a => Ok (f a) | Err e => Err e end.

(** [Option::ok_or]. *)
Definition ok_or {E A} (o : option A) (e : E) : result E A :=
  match o with Some a => Ok a | None => Err e end.

(** [Result::map_err], also the conversion that the question-mark operator
    inserts when the error types differ. *)
Definition map_err {E F A} (f : E -> F) (m : result E A) : result F A :=
  match m with Ok a => Ok a | Err e => Err (f e) end.

(** [if c { return Err(e) }] as a unit result. *)
Definition ensure {E} (c : bool) (e : E) : result E unit :=
  if c then Ok tt else Err e.

Definition is_ok {E A} (m : result E A) : bool :=
  match m with Ok _ => true | Err _ => false end.

(** [Result::ok]. *)
Definition ok {E A} (m : result E A) : option A :=
  match m with Ok a => Some a | Err _ => None end.

(** ** Methods with [&mut self]

    A Rust method that takes [&mut self] and returns a [Result] keeps the
    mutations it made before it returned [Err]: the final state is part of the
    outcome in both cases. *)
Definition stM (S E A : Type) : Type := S -> S * result E A.

#[global] Instance stM_ret {S E} : MRet (stM S E) := fun A a s => (s, Ok a).
#[global] Instance stM_bind {S E} : MBind (stM S E) :=
  fun A B f m s => match m s with
                   | (s', Ok a) => f a s'
                   | (s', Err e) => (s', Err e)
                   end.

Section Methods.
Context {S E : Type}.

(** The current state. *)
Definition get : stM S E S := fun s => (s, Ok s).

(** Assignment to parts of [self]. *)
Definition modify (f : S -> S) : stM S E unit := fun s => (f s, Ok tt).

(** [return Err(e)]. *)
Definition throw {A} (e : E) : stM S E A := fun s => (s, Err e).

(** A fallible expression that does not touch the state. *)
Definition lift {A} (r : result E A) : stM S E A := fun s => (s, r).

(** A read of [self]. *)
Definition gets {A} (f : S -> A) : stM S E A := fun s => (s, Ok (f s)).

(** [if c { body }] for a body without a value. *)
Definition when (c : bool) (m : stM S E unit) : stM S E unit :=
  if c then m else mret tt.

(** [for x in xs { body }]. *)
Fixpoint for_each {A} (xs : list A) (body : A -> stM S E unit) : stM S E unit :=
  match xs with
  | [] => mret tt
  | x :: xs => body x ;; for_each xs body
  end.
End Methods.

(** ** Functional record update *)

(** [Field p] carries the update function of the record field [p];
    the instances are generated from the eta-expansion of the record. *)
Class Field {R T : Type} (p : R -> T) := upd : (T -> T) -> R -> R.

Ltac derive_field eta p :=
  let f := fresh "f" in let r := fresh "r" in
  intros f r;
  let e := eval cbv beta delta [eta] in (eta r) in
  let e := eval pattern (p r) in e in
  lazymatch e with
  | ?g _ => let t := eval cbv beta in (g (f (p r))) in exact t
  end.

Declare Scope record_scope.
Delimit Scope record_scope with rec.
#[global] Open Scope record_scope.
Notation "r <| p ::= f |>" := (upd (p := p) f r)
  (at level 1, left associativity, p constr) : record_scope.
Notation "r <| p := v |>" := (upd (p := p) (fun _ => v) r)
  (at level 1, left associativity, p constr) : record_scope.

(** ** Machine integers

    [u8], [u32], [u64] and [usize] are naturals below the width's bound; the
    plain [+] of the release build wraps, the [saturating_*] methods clamp. *)
Definition U8_MAX : N := 2 ^ 8 - 1.
Definition U16_MAX : N := 2 ^ 16 - 1.
Definition U32_MAX : N := 2 ^ 32 - 1.
Definition U64_MAX : N := 2 ^ 64 - 1.

Definition u64_add (a b : N) : N := (a + b) mod 2 ^ 64.
Definition saturating_add (a b : N) : N := N.min (a + b) U64_MAX.
Definition saturating_sub (a b : N) : N := a - b.
Definition saturating_mul (a b : N) : N := N.min (a * b) U64_MAX.

(** [u32::try_from] and [usize::try_from] (64-bit target). *)
Definition u32_try_from (n : N) : option N := if n <=? U32_MAX then Some n else None.
Definition usize_try_from (n : N) : option N := if n <=? U64_MAX then Some n else None.

(** [Vec::len]. *)
Definition lenN {A} (l : list A) : N := N.of_nat (length l).

(** Slices [l[..n]] and [l[n..]]; the code guards every slice, so the
    out-of-range panic has no counterpart. *)
Definition takeN {A} (n : N) (l : list A) : list A := take (N.to_nat n) l.
Definition dropN {A} (n : N) (l : list A) : list A := drop (N.to_nat n) l.

(** [Vec::resize]: truncates or extends with copies of [x]. *)
Definition resize {A} (n : N) (x : A) (l : list A) : list A :=
  takeN n l ++ replicate (N.to_nat (n - lenN l)) x.

(** ** Tactics *)

(** Splits a successful or failed sequence of binds in hypothesis [H]. *)
Ltac case_result H :=
  repeat match type of H with
  | context [match ?x with Ok _ => _ | Err _ => _ end] =>
      let E := fresh "E" in destruct x eqn:E; simplify_eq/=
  end.

(** Case analysis on the boolean guards of the code. *)
Ltac case_cond :=
  match goal with
  | |- context [if ?b then _ else _] => let E := fresh "G" in destruct b eqn:E
  | H : context [if ?b then _ else _] |- _ => let E := fresh "G" in destruct b eqn:E
  end.

Ltac unfold_int :=
  unfold u64_add, saturating_add, saturating_sub, saturating_mul, lenN,
    U8_MAX, U16_MAX, U32_MAX, U64_MAX in *.

(** Linear arithmetic after the machine-integer operations are unfolded. *)
Ltac ilia := unfold_int; lia.

(** ** Laws of the monads *)

(** Injectivity that leaves the values as they are written. *)
Lemma Ok_inj {E A} (a b : A) : @Ok E A a = Ok b -> a = b.
Proof. congruence. Qed.

Lemma result_bind_ok {E A B} (m : result E A) (k : A -> result E B) b :
  (m ≫= k) = Ok b -> exists a, m = Ok a /\ k a = Ok b.
Proof. destruct m; cbn; [eauto | discriminate]. Qed.

Lemma stM_bind_ok {S E A B} (m : stM S E A) (k : A -> stM S E B) s s' b :
  (m ≫= k) s = (s', Ok b) -> exists s1 a, m s = (s1, Ok a) /\ k a s1 = (s', Ok b).
Proof.
  unfold mbind, stM_bind. destruct (m s) as [s1 [a|e]]; [eauto | discriminate].
Qed.

Lemma stM_bind_cases {S E A B} (m : stM S E A) (k : A -> stM S E B) s s' r :
  (m ≫= k) s = (s', r) ->
  (exists s1 a, m s = (s1, Ok a) /\ k a s1 = (s', r)) \/
  (exists e, m s = (s', Err e) /\ r = Err e).
Proof.
  unfold mbind, stM_bind. destruct (m s) as [s1 [a|e]]; intros; simplify_eq; eauto.
Qed.

(** ** Postconditions of methods *)

(** [Q] holds of the result of the call and of the state after it, whether the
    call succeeds or fails. *)
Definition post {S E A} (m : stM S E A) (s : S) (Q : result E A -> S -> Prop) : Prop :=
  Q (m s).2 (m s).1.

(** [I] survives the call on every branch. *)
Definition preserves {S E A} (I : S -> Prop) (m : stM S E A) : Prop :=
  forall s, I s -> post m s (fun _ => I).

Create HintDb pres discriminated.
Create HintDb walk discriminated.
Create Rewrite HintDb wp.

Section Posts.
Context {S E : Type}.
Implicit Types (I : S -> Prop) (s : S).

Lemma post_bind {A B} (m : stM S E A) (k : A -> stM S E B) s Q :
  post (m ≫= k) s Q =
  post m s (fun r s1 => match r with Ok a => post (k a) s1 Q | Err e => Q (Err e) s1 end).
Proof. unfold post, mbind, stM_bind. by destruct (m s) as [s1 [a|e]]. Qed.

Lemma post_ret {A} (a : A) s Q : post (mret a : stM S E A) s Q = Q (Ok a) s.
Proof. done. Qed.

Lemma post_get s Q : post (get : stM S E S) s Q = Q (Ok s) s.
Proof. done. Qed.

Lemma post_gets {A} (f : S -> A) s Q : post (gets f : stM S E A) s Q = Q (Ok (f s)) s.
Proof. done. Qed.

Lemma post_throw {A} e s Q : post (throw e : stM S E A) s Q = Q (Err e) s.
Proof. done. Qed.

Lemma post_lift {A} (m : result E A) s Q : post (lift m) s Q = Q m s.
Proof. done. Qed.

Lemma post_modify f s Q : post (modify f : stM S E unit) s Q = Q (Ok tt) (f s).
Proof. done. Qed.

Lemma post_when c (m : stM S E unit) s Q :
  post (when c m) s Q = if c then post m s Q else Q (Ok tt) s.
Proof. by destruct c. Qed.

Lemma post_if {A} (c : bool) (m n : stM S E A) s Q :
  post (if c then m else n) s Q = if c then post m s Q else post n s Q.
Proof. by destruct c. Qed.

Lemma post_conseq {A} (m : stM S E A) s (P Q : result E A -> S -> Prop) :
  post m s P -> (forall r s1, P r s1 -> Q r s1) -> post m s Q.
Proof. unfold post. auto. Qed.

Lemma post_and {A} (m : stM S E A) s (P Q : result E A -> S -> Prop) :
  post m s P -> post m s Q -> post m s (fun r s1 => P r s1 /\ Q r s1).
Proof. unfold post. auto. Qed.

Lemma post_run {A} (m : stM S E A) s s' r Q : post m s Q -> m s = (s', r) -> Q r s'.
Proof. unfold post. intros H Hr. by rewrite Hr in H. Qed.

Lemma preserves_post {A} I (m : stM S E A) s : preserves I m -> I s -> post m s (fun _ => I).
Proof. auto. Qed.

Lemma preserves_modify I f : (forall s, I s -> I (f s)) -> preserves I (modify f : stM S E unit).
Proof. intros Hf s HI. rewrite post_modify. auto. Qed.

Lemma preserves_bind {A B} I (m : stM S E A) (k : A -> stM S E B) :
  preserves I m -> (forall a, preserves I (k a)) -> preserves I (m ≫= k).
Proof.
  intros Hm Hk s HI. rewrite post_bind. eapply post_conseq; [by apply Hm|].
  intros [a|e] s1 HI1; [by apply Hk | done].
Qed.

Lemma preserves_get I : preserves I (get : stM S E S).
Proof. by intros s HI. Qed.

Lemma preserves_ret {A} I (a : A) : preserves I (mret a : stM S E A).
Proof. by intros s HI. Qed.

Lemma preserves_throw {A} I e : preserves I (throw e : stM S E A).
Proof. by intros s HI. Qed.

Lemma preserves_lift {A} I (r : result E A) : preserves I (lift r : stM S E A).
Proof. by intros s HI. Qed.

Lemma preserves_when I c (m : stM S E unit) : preserves I m -> preserves I (when c m).
Proof. intros Hm s HI. rewrite post_when. destruct c; [by apply Hm | done]. Qed.

Lemma preserves_for_each {A} I (xs : list A) (body : A -> stM S E unit) :
  (forall x, preserves I (body x)) -> preserves I (for_each xs body).
Proof.
  intros Hb. induction xs as [|x xs IH]; cbn; [by intros s HI|].
  apply preserves_bind; [apply Hb | intros _; exact IH].
Qed.
End Posts.

#[export] Hint Rewrite @post_bind @post_ret @post_get @post_gets @post_throw @post_lift
  @post_modify @post_when @post_if : wp.
#[export] Hint Resolve preserves_bind preserves_modify preserves_for_each : pres.
#[export] Hint Resolve preserves_get preserves_ret preserves_throw preserves_lift : walk.

(** Walks the body of a method that keeps an invariant: reads keep it, a write
    that does not touch what it looks at keeps it by computation, and [known]
    solves the calls of other methods. *)
Ltac walk known :=
  repeat match goal with
  | |- preserves _ (_ ≫= _) => apply preserves_bind; [|intros ?]
  | |- preserves _ (when _ _) => apply preserves_when
  | |- preserves _ (modify _) => apply preserves_modify; let H := fresh in intros ? H; exact H
  | |- preserves _ (let _ := _ in _) => cbv zeta
  | |- preserves _ (if ?c then _ else _) => destruct c
  | |- preserves _ (match ?o with _ => _ end) => destruct o
  | |- preserves _ _ => solve [auto with walk | known]
  end.

(** Computes the postcondition of a method's body up to its branches. *)
Ltac wp := autorewrite with wp; cbv beta iota.

(** [wp], splitting on every branch of the code. *)
Ltac wp_cases :=
  repeat (wp; match goal with
  | |- context [match ?x with _ => _ end] => first [is_var x; destruct x | let E := fresh "G" in destruct x eqn:E]
  end); wp.

(** ** Integers *)

Lemma u64_add_small a b : a + b <= U64_MAX -> u64_add a b = a + b.
Proof. unfold u64_add, U64_MAX. intros. apply N.mod_small. lia. Qed.

(** ** Lists *)

Lemma lenN_app {A} (l k : list A) : lenN (l ++ k) = lenN l + lenN k.
Proof. unfold lenN. rewrite length_app. lia. Qed.

Lemma lenN_nil {A} : lenN (@nil A) = 0.
Proof. reflexivity. Qed.

Lemma lenN_cons {A} (x : A) l : lenN (x :: l) = 1 + lenN l.
Proof. unfold lenN. cbn [length]. lia. Qed.

Lemma lenN_takeN {A} n (l : list A) : lenN (takeN n l) = N.min n (lenN l).
Proof. unfold lenN, takeN. rewrite length_take. lia. Qed.

Lemma lenN_dropN {A} n (l : list A) : lenN (dropN n l) = lenN l - n.
Proof. unfold lenN, dropN. rewrite length_drop. lia. Qed.

Lemma lenN_replicate {A} (x : A) n : lenN (replicate (N.to_nat n) x) = n.
Proof. unfold lenN. rewrite length_replicate. lia. Qed.

Lemma takeN_app_exact {A} n (l k : list A) : lenN l = n -> takeN n (l ++ k) = l.
Proof. intros <-. unfold takeN, lenN. apply take_app_length'. lia. Qed.

Lemma dropN_app_exact {A} n (l k : list A) : lenN l = n -> dropN n (l ++ k) = k.
Proof. intros <-. unfold dropN, lenN. apply drop_app_length'. lia. Qed.

Lemma takeN_ge {A} n (l : list A) : lenN l <= n -> takeN n l = l.
Proof. unfold takeN, lenN. intros. apply take_ge. lia. Qed.

Lemma dropN_ge {A} n (l : list A) : lenN l <= n -> dropN n l = [].
Proof. unfold dropN, lenN. intros. apply drop_ge. lia. Qed.

Lemma takeN_dropN {A} n (l : list A) : takeN n l ++ dropN n l = l.
Proof. apply take_drop. Qed.

Lemma dropN_dropN {A} n m (l : list A) : dropN n (dropN m l) = dropN (m + n) l.
Proof. unfold dropN. rewrite drop_drop. f_equal. lia. Qed.

Lemma lenN_resize {A} n (x : A) l : lenN (resize n x l) = n.
Proof. unfold resize. rewrite lenN_app, lenN_takeN, lenN_replicate. lia. Qed.

Lemma resize_extend {A} n (x : A) l :
  lenN l <= n -> resize n x l = l ++ replicate (N.to_nat (n - lenN l)) x.
Proof. intros. unfold resize. by rewrite takeN_ge. Qed.

Lemma takeN_app_le {A} n (l k : list A) : n <= lenN l -> takeN n (l ++ k) = takeN n l.
Proof. unfold takeN, lenN. intros. apply take_app_le. lia. Qed.

Lemma dropN_app_le {A} n (l k : list A) : n <= lenN l -> dropN n (l ++ k) = dropN n l ++ k.
Proof. unfold dropN, lenN. intros. apply drop_app_le. lia. Qed.

Lemma takeN_cons {A} n (x : A) l : takeN (1 + n) (x :: l) = x :: takeN n l.
Proof. unfold takeN. by replace (N.to_nat (1 + n)) with (S (N.to_nat n)) by lia. Qed.

Lemma dropN_cons {A} n (x : A) l : dropN (1 + n) (x :: l) = dropN n l.
Proof. unfold dropN. by replace (N.to_nat (1 + n)) with (S (N.to_nat n)) by lia. Qed.

Lemma filter_none {A} (f : A -> bool) l : (forall x, In x l -> f x = false) -> List.filter f l = [].
Proof.
  induction l as [|x l IH]; intros Hf; cbn; [done|].
  rewrite (Hf x) by (by left). apply IH. intros y Hy. apply Hf. by right.
Qed.

Lemma filter_all {A} (f : A -> bool) l : (forall x, In x l -> f x = true) -> List.filter f l = l.
Proof.
  induction l as [|x l IH]; intros Hf; cbn; [done|].
  rewrite (Hf x) by (by left). f_equal. apply IH. intros y Hy. apply Hf. by right.
Qed.

Create Rewrite HintDb len.
#[export] Hint Rewrite @lenN_app @lenN_nil @lenN_cons @lenN_takeN @lenN_dropN @lenN_replicate
  @lenN_resize : len.

(** Arithmetic on list lengths. *)
Ltac len_lia := autorewrite with len in *; ilia.
