(* ===== verification/Bytes.v ===== *)
(** * Bytes, fixed arrays and strings

    The parts of the Rust language and standard library that the wire format
    rests on: [u8] and [Vec<u8>], big-endian integers, [[u8; N]] and UTF-8
    strings ([str::from_utf8] accepts exactly the well-formed sequences of the
    Unicode table). *)

From Stdlib Require Export Strings.Byte.
From Stdlib Require Strings.String.
From S2P Require Export Prelude.

Notation bytes := (list byte).

#[global] Arguments Byte.eqb _ _ : simpl never.
#[global] Arguments Byte.to_N _ : simpl never.

(** ** Bytes *)

#[global] Instance byte_eq_decision : EqDecision byte := Byte.byte_eq_dec.

#[global] Program Instance byte_countable : Countable byte :=
  inj_countable Byte.to_N Byte.of_N _.
Next Obligation. apply Byte.of_to_N. Qed.

(** [n as u8]. *)
Definition byte_of_N (n : N) : byte := default x00 (Byte.of_N (n mod 256)).
#[global] Arguments byte_of_N _ : simpl never.

Definition byte_le (a b : byte) : bool := Byte.to_N a <=? Byte.to_N b.

(** Membership in an inclusive range pattern [lo..=hi]. *)
Definition in_range (lo b hi : byte) : bool := byte_le lo b && byte_le b hi.

(** [to_be_bytes] of a [k]-byte integer. *)
Fixpoint be_bytes (k : nat) (n : N) : bytes :=
  match k with
  | O => []
  | S k => be_bytes k (n / 256) ++ [byte_of_N n]
  end.

(** [from_be_bytes]. *)
Definition from_be (l : bytes) : N :=
  foldl (fun acc b => acc * 256 + Byte.to_N b) 0 l.

(** ** Fixed-size arrays *)

(** [[u8; n]]. *)
Definition arr (n : N) : Type := { l : bytes | (lenN l =? n) = true }.

Definition to_vec {n} (a : arr n) : bytes := `a.

(** [slice.try_into()] at type [[u8; n]]. *)
Definition try_into (n : N) (l : bytes) : option (arr n) :=
  match bool_dec (lenN l =? n) true with
  | left H => Some (exist _ l H)
  | right _ => None
  end.

Lemma repeat_len n (b : byte) : (lenN (replicate (N.to_nat n) b) =? n) = true.
Proof. apply N.eqb_eq, lenN_replicate. Qed.

(** [[b; n]]. *)
Definition arr_repeat (n : N) (b : byte) : arr n :=
  match bool_dec (lenN (replicate (N.to_nat n) b) =? n) true with
  | left H => exist _ (replicate (N.to_nat n) b) H
  | right H => False_rect _ (H (repeat_len n b))
  end.

#[global] Instance arr_eq_decision n : EqDecision (arr n) := _.
#[global] Instance arr_countable n : Countable (arr n) := _.

(** ** Strings *)

Definition cont_byte (b : byte) : bool := in_range x80 b xbf.

(** Second byte of a three-byte sequence. *)
Definition utf8_second3 (b0 b1 : byte) : bool :=
  if in_range xe0 b0 xe0 then in_range xa0 b1 xbf
  else if in_range xed b0 xed then in_range x80 b1 x9f
  else cont_byte b1.

(** Second byte of a four-byte sequence. *)
Definition utf8_second4 (b0 b1 : byte) : bool :=
  if in_range xf0 b0 xf0 then in_range x90 b1 xbf
  else if in_range xf4 b0 xf4 then in_range x80 b1 x8f
  else cont_byte b1.

Fixpoint utf8_valid (l : bytes) : bool :=
  match l with
  | [] => true
  | b0 :: r0 =>
      if byte_le b0 x7f then utf8_valid r0
      else match r0 with
      | [] => false
      | b1 :: r1 =>
          if in_range xc2 b0 xdf then cont_byte b1 && utf8_valid r1
          else match r1 with
          | [] => false
          | b2 :: r2 =>
              if in_range xe0 b0 xef
              then utf8_second3 b0 b1 && cont_byte b2 && utf8_valid r2
              else match r2 with
              | [] => false
              | b3 :: r3 =>
                  in_range xf0 b0 xf4 && utf8_second4 b0 b1 && cont_byte b2 && cont_byte b3
                  && utf8_valid r3
              end
          end
      end
  end.

(** [String] and [&str]: byte sequences that are valid UTF-8. *)
Definition rstring : Type := { l : bytes | utf8_valid l = true }.

Definition as_bytes (s : rstring) : bytes := `s.

(** [str::from_utf8]. *)
Definition from_utf8 (l : bytes) : option rstring :=
  match bool_dec (utf8_valid l) true with
  | left H => Some (exist _ l H)
  | right _ => None
  end.

#[global] Instance rstring_eq_decision : EqDecision rstring := _.

(** A string literal of the source. *)
Notation lit s := (exist (fun l => utf8_valid l = true) (String.list_byte_of_string s%string) eq_refl : rstring).

(** [str::is_ascii]. *)
Definition is_ascii (l : bytes) : bool := forallb (fun b => byte_le b x7f) l.

(** [str::contains] for an ASCII character. *)
Definition contains (b : byte) (l : bytes) : bool := existsb (Byte.eqb b) l.

(** The lexicographic order of byte strings. *)
Fixpoint bytes_compare (a b : bytes) : comparison :=
  match a, b with
  | [], [] => Eq
  | [], _ => Lt
  | _, [] => Gt
  | x :: a, y :: b =>
      match Byte.to_N x ?= Byte.to_N y with
      | Eq => bytes_compare a b
      | c => c
      end
  end.

(** ** Lemmas on bytes *)

Lemma to_N_lt b : Byte.to_N b < 256.
Proof. pose proof (Byte.to_N_bounded b). lia. Qed.

Lemma to_N_inj a b : Byte.to_N a = Byte.to_N b -> a = b.
Proof.
  intros H. pose proof (Byte.of_to_N a) as Ha. rewrite H, Byte.of_to_N in Ha. congruence.
Qed.

Lemma to_N_byte_of_N n : Byte.to_N (byte_of_N n) = n mod 256.
Proof.
  unfold byte_of_N. assert (n mod 256 < 256) as Hlt by (apply N.mod_lt; lia).
  destruct (Byte.of_N (n mod 256)) as [b|] eqn:E; cbn.
  - by apply Byte.to_of_N.
  - apply Byte.of_N_None_iff in E. lia.
Qed.

Lemma byte_of_N_to_N b : byte_of_N (Byte.to_N b) = b.
Proof.
  apply to_N_inj. rewrite to_N_byte_of_N. apply N.mod_small, to_N_lt.
Qed.

Lemma from_be_app l b : from_be (l ++ [b]) = from_be l * 256 + Byte.to_N b.
Proof. unfold from_be. by rewrite foldl_app. Qed.

Lemma length_be_bytes k n : length (be_bytes k n) = k.
Proof. revert n; induction k as [|k IH]; intros; cbn; [done|]. rewrite length_app, IH; cbn; lia. Qed.

Lemma lenN_be_bytes k n : lenN (be_bytes k n) = N.of_nat k.
Proof. unfold lenN. by rewrite length_be_bytes. Qed.

Lemma from_be_bytes_mod k n : from_be (be_bytes k n) = n mod 256 ^ N.of_nat k.
Proof.
  revert n; induction k as [|k IH]; intros n.
  - cbn. by rewrite N.mod_1_r.
  - cbn [be_bytes]. rewrite from_be_app, IH, to_N_byte_of_N.
    rewrite Nat2N.inj_succ, N.pow_succ_r'.
    assert (256 ^ N.of_nat k <> 0) by (apply N.pow_nonzero; lia).
    rewrite N.Div0.mod_mul_r by lia. lia.
Qed.

Lemma from_be_bytes k n : n < 256 ^ N.of_nat k -> from_be (be_bytes k n) = n.
Proof. intros. rewrite from_be_bytes_mod. by apply N.mod_small. Qed.

Lemma from_be_bound l : from_be l < 256 ^ lenN l.
Proof.
  induction l as [|b l IH] using rev_ind; [cbn; lia|].
  rewrite from_be_app, lenN_app. change (lenN [b]) with 1.
  rewrite N.add_1_r, N.pow_succ_r'. pose proof (to_N_lt b). lia.
Qed.

Lemma be_bytes_from_be l : be_bytes (length l) (from_be l) = l.
Proof.
  induction l as [|b l IH] using rev_ind; [done|].
  rewrite length_app, Nat.add_1_r. cbn [be_bytes]. rewrite from_be_app.
  pose proof (to_N_lt b).
  replace ((from_be l * 256 + Byte.to_N b) / 256) with (from_be l)
    by (rewrite N.div_add_l by lia; rewrite (N.div_small (Byte.to_N b)) by lia; lia).
  rewrite IH. f_equal. f_equal. apply to_N_inj. rewrite to_N_byte_of_N.
  rewrite N.add_comm, N.Div0.mod_add. by apply N.mod_small.
Qed.

(** ** Lemmas on arrays *)

Lemma arr_len {n} (a : arr n) : lenN (to_vec a) = n.
Proof. destruct a as [l H]. cbn. by apply N.eqb_eq. Qed.

Lemma arr_eq {n} (a b : arr n) : to_vec a = to_vec b -> a = b.
Proof. intros. by apply (sig_eq_pi _). Qed.

Lemma try_into_to_vec {n} (a : arr n) : try_into n (to_vec a) = Some a.
Proof.
  unfold try_into. pose proof (arr_len a) as H. apply N.eqb_eq in H.
  destruct (bool_dec _ true) as [H'|]; [|contradiction].
  f_equal. by apply arr_eq.
Qed.

Lemma try_into_Some n l a : try_into n l = Some a -> to_vec a = l.
Proof. unfold try_into. destruct (bool_dec _ true); intros; by simplify_eq. Qed.

Lemma try_into_is_Some n l : is_Some (try_into n l) <-> lenN l = n.
Proof.
  unfold try_into. destruct (bool_dec _ true) as [H|H].
  - pose proof (proj1 (N.eqb_eq _ _) H). split; eauto.
  - split; [by intros [? ?] | intros HH]. by apply N.eqb_eq in HH.
Qed.

(** ** Lemmas on strings *)

Lemma rstring_eq (s t : rstring) : as_bytes s = as_bytes t -> s = t.
Proof. intros. by apply (sig_eq_pi _). Qed.

Lemma from_utf8_as_bytes (s : rstring) : from_utf8 (as_bytes s) = Some s.
Proof.
  unfold from_utf8. destruct s as [l H] eqn:E; cbn.
  destruct (bool_dec _ true) as [H'|]; [|contradiction].
  f_equal. by apply rstring_eq.
Qed.

Lemma from_utf8_Some l s : from_utf8 l = Some s -> as_bytes s = l.
Proof. unfold from_utf8. destruct (bool_dec _ true); intros; by simplify_eq. Qed.

Lemma utf8_valid_app_len n l k :
  (length l <= n)%nat -> utf8_valid l = true -> utf8_valid (l ++ k) = utf8_valid k.
Proof.
  revert l; induction n as [|n IH]; intros l Hn Hl.
  { destruct l; [done | cbn in Hn; lia]. }
  destruct l as [|b0 r0]; [done|]. cbn in Hl |- *.
  destruct (byte_le b0 x7f); [apply IH; [cbn in Hn; lia | done]|].
  destruct r0 as [|b1 r1]; [done|]. cbn in Hl |- *.
  destruct (in_range xc2 b0 xdf).
  { apply andb_true_iff in Hl as [-> Hl]. apply IH; [cbn in Hn; lia | done]. }
  destruct r1 as [|b2 r2]; [done|]. cbn in Hl |- *.
  destruct (in_range xe0 b0 xef).
  { rewrite !andb_true_iff in Hl. destruct Hl as [[-> ->] Hl].
    apply IH; [cbn in Hn; lia | done]. }
  destruct r2 as [|b3 r3]; [done|]. cbn.
  rewrite !andb_true_iff in Hl. destruct Hl as [[[[-> ->] ->] ->] Hl].
  apply IH; [cbn in Hn; lia | done].
Qed.

Lemma utf8_valid_app l k :
  utf8_valid l = true -> utf8_valid (l ++ k) = utf8_valid k.
Proof. by apply (utf8_valid_app_len (length l)). Qed.

Lemma utf8_ascii l : is_ascii l = true -> utf8_valid l = true.
Proof.
  induction l as [|b l IH]; cbn; [done|].
  intros [-> Hl]%andb_true_iff. auto.
Qed.

Lemma utf8_valid_cat (a b : rstring) : utf8_valid (as_bytes a ++ as_bytes b) = true.
Proof. rewrite utf8_valid_app; [exact (proj2_sig b) | exact (proj2_sig a)]. Qed.

(** Concatenation of strings, as [format!] does it. *)
Definition str_cat (a b : rstring) : rstring :=
  exist _ (as_bytes a ++ as_bytes b) (utf8_valid_cat a b).

Fixpoint strip_bytes (p l : bytes) : option bytes :=
  match p, l with
  | [], _ => Some l
  | a :: p, b :: l => if Byte.eqb a b then strip_bytes p l else None
  | _ :: _, [] => None
  end.

(** [str::strip_prefix]; what follows a string prefix of a string is a string,
    so [from_utf8] only rebuilds the type. *)
Definition strip_prefix (p s : rstring) : option rstring :=
  strip_bytes (as_bytes p) (as_bytes s) ≫= from_utf8.

Lemma strip_bytes_app p l : strip_bytes p (p ++ l) = Some l.
Proof. induction p as [|b p IH]; cbn; [done|]. by rewrite Byte.byte_dec_lb. Qed.

Lemma strip_bytes_Some p l r : strip_bytes p l = Some r -> l = p ++ r.
Proof.
  revert l; induction p as [|a p IH]; intros [|b l]; cbn; intros; simplify_eq; [done..|].
  case_cond; [|done]. apply Byte.byte_dec_bl in G. subst b. f_equal. auto.
Qed.

Lemma strip_prefix_cat p s : strip_prefix p (str_cat p s) = Some s.
Proof. unfold strip_prefix. cbn. rewrite strip_bytes_app. cbn. apply from_utf8_as_bytes. Qed.

(** The rebuilt suffix is always a string. *)
Lemma strip_prefix_spec p s r : strip_bytes (as_bytes p) (as_bytes s) = Some r -> is_Some (from_utf8 r).
Proof.
  intros Hs%strip_bytes_Some. pose proof (proj2_sig s) as Hv. cbn in Hv.
  change (`s) with (as_bytes s) in Hv. rewrite Hs, utf8_valid_app in Hv by exact (proj2_sig p).
  unfold from_utf8. destruct (bool_dec _ _); [by eexists | congruence].
Qed.

#[export] Hint Rewrite @arr_len lenN_be_bytes : len.

(** * Error types

    [nemo-wire/src/error.rs] and [nemo-server/src/error.rs]. The display
    strings of the variants carry no behaviour and are left out; the message of
    [Cbor], [Hpke] and [Uri] is kept, it tells the branch that failed. *)

Notation message_text := String.string.

(** [nemo_wire::WireError]. *)
Inductive WireError : Type :=
| UnknownVersion (v : N)
| Cbor (msg : message_text)
| Length (expected got : N)
| Signature
| ServerIdMismatch
| BindingExpired
| BadHost
| CardTooLarge
| BadRevocationStatus
| NoBucket
| BadEnvelope
| Hpke (msg : message_text)
| UnknownMessageType (v : N)
| UnknownTtl (v : N)
| Uri (msg : message_text).

(** [nemo_server::ServerError]. *)
Inductive ServerError : Type :=
| Wire (e : WireError)
| Denied
| OwnerAuth
| AlreadyRegistered
| FetchLimit
| NotPinned
| PeerRefused
| CounterGap
| HelloMismatch
| OutboundExpired.

Notation wresult := (result WireError).
Notation sresult := (result ServerError).

#[global] Instance wire_error_eq_decision : EqDecision WireError.
Proof. solve_decision. Defined.

#[global] Instance server_error_eq_decision : EqDecision ServerError.
Proof. solve_decision. Defined.
