(* ===== verification/Cbor.v ===== *)
(** * Canonical CBOR

    [nemo-wire/src/cbor.rs]: definite-length CBOR with unsigned-integer map
    keys. The writer is [encode], the reader [decode]; the reader's recursion
    over the input is bounded by fuel, and [decode] supplies one unit more than
    the number of input bytes, which is always enough ([read_value_fuel]). *)

From S2P Require Export Bytes.

#[local] Set Warnings "-register-all".

(** [cbor::Value]. *)
Inductive Value : Type :=
| Uint (n : N)
| Bytes (b : bytes)
| Text (s : rstring)
| Array (items : list Value)
| Map (pairs : list (N * Value)).

(** ** Writer *)

(** [sort_by_key(|a| a.0)]: a stable sort by key. *)
Fixpoint insert_by_key {A} (x : N * A) (l : list (N * A)) : list (N * A) :=
  match l with
  | [] => [x]
  | y :: l' => if x.1 <=? y.1 then x :: l else y :: insert_by_key x l'
  end.

Definition sort_by_key {A} (l : list (N * A)) : list (N * A) :=
  foldr insert_by_key [] l.

(** [write_head]; the bytes are appended to the output. *)
Definition write_head (major n : N) : bytes :=
  if n <? 24 then [byte_of_N (N.lor (N.shiftl major 5) n)]
  else if n <=? U8_MAX then
    [byte_of_N (N.lor (N.shiftl major 5) 24); byte_of_N n]
  else if n <=? U16_MAX then
    byte_of_N (N.lor (N.shiftl major 5) 25) :: be_bytes 2 n
  else if n <=? U32_MAX then
    byte_of_N (N.lor (N.shiftl major 5) 26) :: be_bytes 4 n
  else
    byte_of_N (N.lor (N.shiftl major 5) 27) :: be_bytes 8 n.

(** [write_value]. The source sorts the pairs and then writes each value; here
    each value is written first and the written pairs are sorted, which is the
    same because the sort only looks at keys ([write_value_map]). *)
Fixpoint write_value (v : Value) : bytes :=
  match v with
  | Uint n => write_head 0 n
  | Bytes b => write_head 2 (lenN b) ++ b
  | Text s => write_head 3 (lenN (as_bytes s)) ++ as_bytes s
  | Array items => write_head 4 (lenN items) ++ concat (map write_value items)
  | Map pairs =>
      let written := map (fun kv => (kv.1, write_value kv.2)) pairs in
      write_head 5 (lenN pairs)
        ++ concat (map (fun kb => write_head 0 kb.1 ++ kb.2) (sort_by_key written))
  end.

Definition encode (v : Value) : bytes := write_value v.
#[global] Arguments encode _ : simpl never.

(** ** Reader *)

Definition read_head (input : bytes) : wresult (N * N * bytes) :=
  match input with
  | [] => Err (Cbor "empty")
  | first :: rest =>
      let major := N.shiftr (Byte.to_N first) 5 in
      let ai := N.land (Byte.to_N first) 31 in
      if ai <=? 23 then Ok (major, ai, rest)
      else if ai =? 24 then
        match rest with
        | [] => Err (Cbor "truncated u8")
        | b :: rest' => Ok (major, Byte.to_N b, rest')
        end
      else if ai =? 25 then
        if lenN rest <? 2 then Err (Cbor "truncated u16")
        else Ok (major, from_be (takeN 2 rest), dropN 2 rest)
      else if ai =? 26 then
        if lenN rest <? 4 then Err (Cbor "truncated u32")
        else Ok (major, from_be (takeN 4 rest), dropN 4 rest)
      else if ai =? 27 then
        if lenN rest <? 8 then Err (Cbor "truncated u64")
        else Ok (major, from_be (takeN 8 rest), dropN 8 rest)
      else Err (Cbor "indefinite or reserved additional info")
  end.

(** A reader that may run out of fuel. *)
Notation reader := (bytes -> option (wresult (Value * bytes))).

(** The loop over array items. *)
Fixpoint read_items (rd : reader) (count : nat) (rest : bytes)
    : option (wresult (list Value * bytes)) :=
  match count with
  | O => Some (Ok ([], rest))
  | S count =>
      match rd rest with
      | None => None
      | Some (Err e) => Some (Err e)
      | Some (Ok (v, r)) =>
          match read_items rd count r with
          | Some (Ok (vs, r')) => Some (Ok (v :: vs, r'))
          | other => other
          end
      end
  end.

(** The loop over map entries, with [last_key]. *)
Fixpoint read_pairs (rd : reader) (count : nat) (last_key : option N) (rest : bytes)
    : option (wresult (list (N * Value) * bytes)) :=
  match count with
  | O => Some (Ok ([], rest))
  | S count =>
      match rd rest with
      | None => None
      | Some (Err e) => Some (Err e)
      | Some (Ok (Uint key, r)) =>
          if match last_key with Some prev => key <=? prev | None => false end
          then Some (Err (Cbor "map keys not strictly increasing"))
          else
            match rd r with
            | None => None
            | Some (Err e) => Some (Err e)
            | Some (Ok (v, r)) =>
                match read_pairs rd count (Some key) r with
                | Some (Ok (kvs, r')) => Some (Ok ((key, v) :: kvs, r'))
                | other => other
                end
            end
      | Some (Ok (_, _)) => Some (Err (Cbor "map key must be uint"))
      end
  end.

Fixpoint read_value (fuel : nat) (input : bytes) : option (wresult (Value * bytes)) :=
  match fuel with
  | O => None
  | S fuel =>
      match read_head input with
      | Err e => Some (Err e)
      | Ok (major, n, rest) =>
          if major =? 0 then Some (Ok (Uint n, rest))
          else if major =? 2 then
            Some match usize_try_from n with
            | None => Err (Cbor "bstr too large")
            | Some n =>
                if lenN rest <? n then Err (Cbor "truncated bstr")
                else Ok (Bytes (takeN n rest), dropN n rest)
            end
          else if major =? 3 then
            Some match usize_try_from n with
            | None => Err (Cbor "tstr too large")
            | Some n =>
                if lenN rest <? n then Err (Cbor "truncated tstr")
                else match from_utf8 (takeN n rest) with
                | None => Err (Cbor "tstr not utf-8")
                | Some s => Ok (Text s, dropN n rest)
                end
            end
          else if major =? 4 then
            match usize_try_from n with
            | None => Some (Err (Cbor "array too large"))
            | Some count =>
                if lenN rest <? count then Some (Err (Cbor "array too large"))
                else match read_items (read_value fuel) (N.to_nat count) rest with
                | Some (Ok (items, rest)) => Some (Ok (Array items, rest))
                | Some (Err e) => Some (Err e)
                | None => None
                end
            end
          else if major =? 5 then
            match usize_try_from n with
            | None => Some (Err (Cbor "map too large"))
            | Some count =>
                if lenN rest <? count then Some (Err (Cbor "map too large"))
                else match read_pairs (read_value fuel) (N.to_nat count) None rest with
                | Some (Ok (pairs, rest)) => Some (Ok (Map pairs, rest))
                | Some (Err e) => Some (Err e)
                | None => None
                end
            end
          else Some (Err (Cbor "unsupported major type"))
      end
  end.

Definition decode (input : bytes) : wresult Value :=
  match read_value (S (length input)) input with
  | Some (Ok (v, [])) => Ok v
  | Some (Ok (_, _ :: _)) => Err (Cbor "trailing bytes")
  | Some (Err e) => Err e
  | None => Err (Cbor "out of fuel")
  end.

(** ** Accessors *)

Definition map_get_opt (m : list (N * Value)) (key : N) : option Value :=
  snd <$> List.find (fun kv => kv.1 =? key) m.

Definition map_get (m : list (N * Value)) (key : N) : wresult Value :=
  ok_or (map_get_opt m key) (Cbor "missing map key").

Definition expect_bytes (v : Value) : wresult bytes :=
  match v with Bytes b => Ok b | _ => Err (Cbor "expected bstr") end.

Definition expect_text (v : Value) : wresult rstring :=
  match v with Text s => Ok s | _ => Err (Cbor "expected tstr") end.

Definition expect_uint (v : Value) : wresult N :=
  match v with Uint n => Ok n | _ => Err (Cbor "expected uint") end.

Definition expect_map (v : Value) : wresult (list (N * Value)) :=
  match v with Map m => Ok m | _ => Err (Cbor "expected map") end.

Definition expect_array (v : Value) : wresult (list Value) :=
  match v with Array a => Ok a | _ => Err (Cbor "expected array") end.

(** ** Well-formed values

    A value of the Rust type: integers fit [u64], lengths fit [usize]; a map's
    keys are strictly increasing, which is what the reader demands. *)
Fixpoint increasing (last : option N) (keys : list N) : bool :=
  match keys with
  | [] => true
  | k :: keys =>
      match last with Some prev => prev <? k | None => true end && increasing (Some k) keys
  end.

Fixpoint wf_value (v : Value) : bool :=
  match v with
  | Uint n => n <=? U64_MAX
  | Bytes b => lenN b <=? U64_MAX
  | Text s => lenN (as_bytes s) <=? U64_MAX
  | Array items => (lenN items <=? U64_MAX) && forallb wf_value items
  | Map pairs =>
      (lenN pairs <=? U64_MAX) && increasing None (map fst pairs)
        && forallb (fun kv => (kv.1 <=? U64_MAX) && wf_value kv.2) pairs
  end.

(** Induction over values with hypotheses for the elements. *)
Lemma Value_nested_ind (P : Value -> Prop)
    (Huint : forall n, P (Uint n)) (Hbytes : forall b, P (Bytes b)) (Htext : forall s, P (Text s))
    (Harray : forall items, Forall P items -> P (Array items))
    (Hmap : forall pairs, Forall (fun kv => P kv.2) pairs -> P (Map pairs)) v : P v.
Proof.
  revert v. fix IH 1. intros [n|b|s|items|pairs].
  - apply Huint.
  - apply Hbytes.
  - apply Htext.
  - apply Harray. induction items as [|v items IHi]; constructor; [apply IH | exact IHi].
  - apply Hmap. induction pairs as [|[k v] pairs IHp]; constructor; [apply IH | exact IHp].
Qed.

(** ** Heads *)

Definition head_byte_ok (major n : N) : bool :=
  let b := Byte.to_N (byte_of_N (N.lor (N.shiftl major 5) n)) in
  (N.shiftr b 5 =? major) && (N.land b 31 =? n).

Lemma head_byte_all :
  forallb (fun m => forallb (fun n => head_byte_ok (N.of_nat m) (N.of_nat n)) (seq 0 32)) (seq 0 8)
  = true.
Proof. vm_compute. reflexivity. Qed.

(** The first byte of a head splits back into major type and additional info. *)
Lemma head_byte_split major n :
  major < 8 -> n < 32 ->
  let b := Byte.to_N (byte_of_N (N.lor (N.shiftl major 5) n)) in
  N.shiftr b 5 = major /\ N.land b 31 = n.
Proof.
  intros Hm Hn. pose proof head_byte_all as H.
  rewrite forallb_forall in H. specialize (H (N.to_nat major)).
  rewrite in_seq in H. specialize (H ltac:(lia)).
  rewrite forallb_forall in H. specialize (H (N.to_nat n)).
  rewrite in_seq in H. specialize (H ltac:(lia)).
  rewrite !N2Nat.id in H. unfold head_byte_ok in H.
  apply andb_true_iff in H as [H1%N.eqb_eq H2%N.eqb_eq]. auto.
Qed.

Lemma read_write_head major n r :
  major < 8 -> n <= U64_MAX -> read_head (write_head major n ++ r) = Ok (major, n, r).
Proof.
  intros Hm Hn. unfold write_head, read_head.
  destruct (N.ltb_spec n 24).
  { cbn -[byte_of_N N.lor N.shiftl N.shiftr N.land].
    destruct (head_byte_split major n) as [-> ->]; [lia..|].
    destruct (N.leb_spec n 23); [done | lia]. }
  destruct (N.leb_spec n U8_MAX).
  { cbn -[byte_of_N N.lor N.shiftl N.shiftr N.land].
    destruct (head_byte_split major 24) as [-> ->]; [lia..|]. cbn -[byte_of_N].
    rewrite to_N_byte_of_N, N.mod_small by ilia. done. }
  destruct (N.leb_spec n U16_MAX).
  { cbn -[byte_of_N N.lor N.shiftl N.shiftr N.land be_bytes].
    destruct (head_byte_split major 25) as [-> ->]; [lia..|]. cbn -[byte_of_N be_bytes].
    rewrite takeN_app_exact, dropN_app_exact, lenN_app, lenN_be_bytes by apply lenN_be_bytes.
    destruct (N.ltb_spec (N.of_nat 2 + lenN r) 2); [lia|].
    rewrite from_be_bytes; [done | cbn; ilia]. }
  destruct (N.leb_spec n U32_MAX).
  { cbn -[byte_of_N N.lor N.shiftl N.shiftr N.land be_bytes].
    destruct (head_byte_split major 26) as [-> ->]; [lia..|]. cbn -[byte_of_N be_bytes].
    rewrite takeN_app_exact, dropN_app_exact, lenN_app, lenN_be_bytes by apply lenN_be_bytes.
    destruct (N.ltb_spec (N.of_nat 4 + lenN r) 4); [lia|].
    rewrite from_be_bytes; [done | cbn; ilia]. }
  cbn -[byte_of_N N.lor N.shiftl N.shiftr N.land be_bytes].
  destruct (head_byte_split major 27) as [-> ->]; [lia..|]. cbn -[byte_of_N be_bytes].
  rewrite takeN_app_exact, dropN_app_exact, lenN_app, lenN_be_bytes by apply lenN_be_bytes.
  destruct (N.ltb_spec (N.of_nat 8 + lenN r) 8); [lia|].
  rewrite from_be_bytes; [done | cbn; ilia].
Qed.

Lemma write_head_nonempty major n : (1 <= length (write_head major n))%nat.
Proof. unfold write_head. repeat case_cond; cbn; lia. Qed.

(** What [read_head] leaves is a proper suffix, and what it reads fits [u64]. *)
Lemma read_head_ok input major n rest :
  read_head input = Ok (major, n, rest) ->
  (length rest < length input)%nat /\ n <= U64_MAX.
Proof.
  unfold read_head. destruct input as [|first input]; [discriminate|].
  assert (forall k, k <= 8 -> from_be (takeN k input) <= U64_MAX) as Hbe.
  { intros k Hk. pose proof (from_be_bound (takeN k input)) as H.
    assert (256 ^ lenN (takeN k input) <= 256 ^ 8).
    { apply N.pow_le_mono_r; [lia|]. len_lia. }
    replace (256 ^ 8) with (U64_MAX + 1) in * by reflexivity. lia. }
  repeat case_cond; try discriminate.
  - intros; simplify_eq/=. apply N.leb_le in G. split; [lia | ilia].
  - destruct input; intros; simplify_eq/=. split; [lia|].
    match goal with |- Byte.to_N ?b <= _ => pose proof (to_N_lt b) end. ilia.
  - intros; simplify_eq/=. unfold dropN. rewrite length_drop. split; [lia | by apply Hbe].
  - intros; simplify_eq/=. unfold dropN. rewrite length_drop. split; [lia | by apply Hbe].
  - intros; simplify_eq/=. unfold dropN. rewrite length_drop. split; [lia | by apply Hbe].
Qed.

(** ** Sorting *)

Lemma insert_by_key_map {A B} (f : A -> B) x (l : list (N * A)) :
  insert_by_key (x.1, f x.2) (map (fun kv => (kv.1, f kv.2)) l)
  = map (fun kv => (kv.1, f kv.2)) (insert_by_key x l).
Proof. induction l as [|y l IH]; cbn; [done|]. case_cond; cbn; by rewrite ?IH. Qed.

Lemma sort_by_key_map {A B} (f : A -> B) (l : list (N * A)) :
  sort_by_key (map (fun kv => (kv.1, f kv.2)) l) = map (fun kv => (kv.1, f kv.2)) (sort_by_key l).
Proof.
  induction l as [|x l IH]; cbn; [done|]. change (foldr insert_by_key [] ?l) with (sort_by_key l) in *.
  by rewrite IH, insert_by_key_map.
Qed.

(** The source's shape of the map branch: sort the pairs, then write each. *)
Lemma write_value_map pairs :
  write_value (Map pairs) =
  write_head 5 (lenN (sort_by_key pairs))
    ++ concat (map (fun kv => write_head 0 kv.1 ++ write_value kv.2) (sort_by_key pairs)).
Proof.
  cbn [write_value]. rewrite sort_by_key_map, map_map. cbn.
  assert (length (sort_by_key pairs) = length pairs) as Hlen.
  { assert (forall x (l : list (N * Value)), length (insert_by_key x l) = S (length l)) as Hi.
    { intros x l; induction l; cbn; [done|]. case_cond; cbn; by rewrite ?IHl. }
    induction pairs as [|x l IH]; cbn; [done|]. rewrite Hi. by f_equal. }
  unfold lenN. by rewrite Hlen.
Qed.

Lemma sort_by_key_increasing {A} (l : list (N * A)) last :
  increasing last (map fst l) = true -> sort_by_key l = l.
Proof.
  revert last; induction l as [|x l IH]; intros last; [done|].
  cbn. intros [_ H]%andb_true_iff. change (foldr insert_by_key [] l) with (sort_by_key l).
  rewrite (IH _ H). destruct l as [|y l]; [done|]. cbn in H |- *.
  apply andb_true_iff in H as [H _]. case_cond; [done|]. lia.
Qed.

(** ** The reader inverts the writer *)

Lemma write_value_nonempty v : (1 <= length (write_value v))%nat.
Proof.
  destruct v; cbn -[write_head]; rewrite ?length_app;
    match goal with |- context [write_head ?m ?n] => pose proof (write_head_nonempty m n) end; lia.
Qed.

Lemma concat_write_length {A} (f : A -> bytes) l :
  (forall x, 1 <= length (f x))%nat -> (length l <= length (concat (map f l)))%nat.
Proof.
  intros Hf. induction l as [|x l IH]; cbn; [lia|]. rewrite length_app. specialize (Hf x). lia.
Qed.

Lemma concat_elem_length {A} (f : A -> bytes) x l :
  In x l -> (length (f x) <= length (concat (map f l)))%nat.
Proof.
  induction l as [|y l IH]; cbn; [done|]. rewrite length_app. intros [->|H]; [lia|].
  specialize (IH H). lia.
Qed.

Lemma read_items_written rd items r :
  (forall v, In v items -> forall r, rd (write_value v ++ r) = Some (Ok (v, r))) ->
  read_items rd (length items) (concat (map write_value items) ++ r) = Some (Ok (items, r)).
Proof.
  induction items as [|v items IH]; intros Hrd; cbn; [done|].
  rewrite <- app_assoc, Hrd by (by left). rewrite IH by (intros; apply Hrd; by right). done.
Qed.

Definition write_pair (kv : N * Value) : bytes := write_head 0 kv.1 ++ write_value kv.2.

Lemma read_pairs_written rd pairs last r :
  (forall kv, In kv pairs -> forall r, rd (write_head 0 kv.1 ++ r) = Some (Ok (Uint kv.1, r))) ->
  (forall kv, In kv pairs -> forall r, rd (write_value kv.2 ++ r) = Some (Ok (kv.2, r))) ->
  increasing last (map fst pairs) = true ->
  read_pairs rd (length pairs) last (concat (map write_pair pairs) ++ r) = Some (Ok (pairs, r)).
Proof.
  revert last; induction pairs as [|[k v] pairs IH]; intros last Hk Hv Hinc; cbn; [done|].
  unfold write_pair at 1; cbn. rewrite <- !app_assoc.
  rewrite (Hk (k, v)) by (by left). cbn in Hinc |- *. apply andb_true_iff in Hinc as [Hlast Hinc].
  destruct last as [prev|]; [destruct (N.leb_spec k prev); [lia|]|].
  all: rewrite (Hv (k, v)) by (by left); rewrite IH; auto; intros; (apply Hk || apply Hv); by right.
Qed.

Lemma read_write_uint fuel n r :
  n <= U64_MAX -> read_value (S fuel) (write_head 0 n ++ r) = Some (Ok (Uint n, r)).
Proof. intros. cbn [read_value]. by rewrite read_write_head by (done || lia). Qed.

Lemma read_write_value v :
  wf_value v = true -> forall fuel r, (length (write_value v) < fuel)%nat ->
  read_value fuel (write_value v ++ r) = Some (Ok (v, r)).
Proof.
  induction v as [n|b|s|items IH|pairs IH] using Value_nested_ind; intros Hwf [|fuel] r Hfuel;
    try lia; cbn [wf_value] in Hwf; rewrite ?andb_true_iff in Hwf.
  - apply N.leb_le in Hwf. by apply read_write_uint.
  - apply N.leb_le in Hwf. cbn [read_value write_value]. rewrite <- app_assoc.
    rewrite read_write_head by (done || lia). cbn. unfold usize_try_from.
    destruct (N.leb_spec (lenN b) U64_MAX); [|lia].
    destruct (N.ltb_spec (lenN (b ++ r)) (lenN b)); [len_lia|].
    by rewrite takeN_app_exact, dropN_app_exact.
  - apply N.leb_le in Hwf. cbn [read_value write_value]. rewrite <- app_assoc.
    rewrite read_write_head by (done || lia). cbn. unfold usize_try_from.
    destruct (N.leb_spec (lenN (as_bytes s)) U64_MAX); [|lia].
    destruct (N.ltb_spec (lenN (as_bytes s ++ r)) (lenN (as_bytes s))); [len_lia|].
    by rewrite takeN_app_exact, dropN_app_exact, from_utf8_as_bytes by done.
  - destruct Hwf as [Hlen%N.leb_le Hall]. cbn [read_value write_value] in *.
    rewrite <- app_assoc, read_write_head by (done || lia). cbn -[read_value]. unfold usize_try_from.
    destruct (N.leb_spec (lenN items) U64_MAX); [|lia].
    pose proof (concat_write_length write_value items write_value_nonempty) as Hge.
    destruct (N.ltb_spec (lenN (concat (map write_value items) ++ r)) (lenN items)); [len_lia|].
    unfold lenN at 1. rewrite Nat2N.id, read_items_written; [done|].
    intros v Hin r'. rewrite Forall_forall in IH. rewrite forallb_forall in Hall.
    apply IH; [by apply list_elem_of_In | by apply Hall |].
    pose proof (concat_elem_length write_value v items Hin).
    pose proof (write_head_nonempty 4 (lenN items)). rewrite length_app in Hfuel. lia.
  - destruct Hwf as [[Hlen%N.leb_le Hinc] Hall].
    rewrite write_value_map in *. rewrite (sort_by_key_increasing _ _ Hinc) in *.
    cbn [read_value]. rewrite <- app_assoc, read_write_head by (done || lia).
    cbn -[read_value]. unfold usize_try_from.
    destruct (N.leb_spec (lenN pairs) U64_MAX); [|lia].
    change (fun kv : N * Value => write_head 0 kv.1 ++ write_value kv.2) with write_pair in *.
    assert (forall kv, 1 <= length (write_pair kv))%nat as Hne.
    { intros kv. unfold write_pair. rewrite length_app.
      pose proof (write_head_nonempty 0 kv.1). lia. }
    pose proof (concat_write_length write_pair pairs Hne).
    destruct (N.ltb_spec (lenN (concat (map write_pair pairs) ++ r)) (lenN pairs)); [len_lia|].
    unfold lenN at 1. rewrite Nat2N.id.
    pose proof (write_head_nonempty 5 (lenN pairs)) as Hh. rewrite length_app in Hfuel.
    rewrite forallb_forall in Hall. rewrite Forall_forall in IH.
    rewrite read_pairs_written; [done | | | done]; intros kv Hin r';
      pose proof (concat_elem_length write_pair kv pairs Hin) as Hel;
      unfold write_pair at 1 in Hel; rewrite length_app in Hel;
      specialize (Hall kv Hin); apply andb_true_iff in Hall as [Hk%N.leb_le Hv].
    + destruct fuel as [|fuel]; [lia|]. by apply read_write_uint.
    + pose proof (write_head_nonempty 0 kv.1). apply IH; [by apply list_elem_of_In | done | lia].
Qed.

Lemma decode_encode_wf v : wf_value v = true -> decode (encode v) = Ok v.
Proof.
  intros Hwf. unfold decode, encode.
  rewrite <- (app_nil_r (write_value v)) at 2. by rewrite read_write_value by (done || lia).
Qed.

(** ** Fuel is enough, and what is read is well formed *)

(** A reader bounded by [b] answers on every shorter input with a proper
    suffix and a value satisfying [Q]. *)
Definition total_below (b : nat) (Q : Value -> Prop) (rd : reader) : Prop :=
  forall input, (length input < b)%nat ->
  exists res, rd input = Some res /\
    forall v r, res = Ok (v, r) -> (length r < length input)%nat /\ Q v.

Lemma read_items_total b Q rd count rest :
  total_below b Q rd -> (length rest < b)%nat ->
  exists res, read_items rd count rest = Some res /\
    forall vs r, res = Ok (vs, r) ->
      (length r <= length rest)%nat /\ Forall Q vs /\ length vs = count.
Proof.
  intros Hrd. revert rest; induction count as [|count IH]; intros rest Hlen; cbn.
  { eexists; split; [done|]. intros; simplify_eq. auto. }
  destruct (Hrd rest Hlen) as ([[v r]|e] & -> & Hok); [|by eexists].
  destruct (Hok v r eq_refl) as [Hr Hq].
  destruct (IH r) as ([[vs r']|e] & -> & Hok'); [lia | |by eexists].
  eexists; split; [done|]. intros; simplify_eq.
  destruct (Hok' vs r0 eq_refl) as (? & ? & <-). split_and!; [lia | by constructor | done].
Qed.

Definition pair_ok (Q : Value -> Prop) (kv : N * Value) : Prop := Q (Uint kv.1) /\ Q kv.2.

Lemma read_pairs_total b Q rd count last rest :
  total_below b Q rd -> (length rest < b)%nat ->
  exists res, read_pairs rd count last rest = Some res /\
    forall kvs r, res = Ok (kvs, r) ->
      (length r <= length rest)%nat /\ Forall (pair_ok Q) kvs /\ length kvs = count
      /\ increasing last (map fst kvs) = true.
Proof.
  intros Hrd. revert last rest; induction count as [|count IH]; intros last rest Hlen; cbn.
  { eexists; split; [done|]. intros; simplify_eq. auto. }
  destruct (Hrd rest Hlen) as ([[kv r]|e] & -> & Hok); [|by eexists].
  destruct (Hok kv r eq_refl) as [Hr Hq].
  destruct kv as [key| | | |]; try by eexists.
  destruct (match last with Some prev => key <=? prev | None => false end) eqn:Hlast; [by eexists|].
  destruct (Hrd r) as ([[v r1]|e] & -> & Hok1); [lia | |by eexists].
  destruct (Hok1 v r1 eq_refl) as [Hr1 Hq1].
  destruct (IH (Some key) r1) as ([[kvs r']|e] & -> & Hok'); [lia | |by eexists].
  eexists; split; [done|]. intros; simplify_eq.
  destruct (Hok' kvs r0 eq_refl) as (? & ? & <- & Hinc).
  split_and!; [lia | by constructor | done |]. cbn. rewrite Hinc, andb_true_r.
  destruct last; [lia | done].
Qed.

Lemma read_value_total fuel : total_below fuel (fun v => wf_value v = true) (read_value fuel).
Proof.
  induction fuel as [|fuel IH]; intros input Hlen; [lia|]. cbn [read_value].
  destruct (read_head input) as [[[major n] rest]|e] eqn:Hhead; [|by eexists].
  destruct (read_head_ok _ _ _ _ Hhead) as [Hrest Hn].
  assert (usize_try_from n = Some n) as ->
    by (unfold usize_try_from; destruct (N.leb_spec n U64_MAX); [done | lia]).
  destruct (major =? 0).
  { eexists; split; [done|]. intros; simplify_eq; cbn. split; [lia | by apply N.leb_le]. }
  destruct (major =? 2).
  { eexists; split; [done|]. intros v r Hv. case_cond; [done|]. simplify_eq; cbn.
    unfold dropN; rewrite length_drop. split; [lia|]. apply N.leb_le. len_lia. }
  destruct (major =? 3).
  { eexists; split; [done|]. intros v r Hv. case_cond; [done|].
    destruct (from_utf8 _) as [t|] eqn:Ht; simplify_eq; cbn. apply from_utf8_Some in Ht.
    unfold dropN; rewrite length_drop. split; [lia|]. apply N.leb_le. rewrite Ht. len_lia. }
  destruct (major =? 4).
  { case_cond; [by eexists|].
    destruct (read_items_total fuel _ _ (N.to_nat n) rest IH) as ([[vs r]|e] & -> & Hok);
      [lia| |by eexists].
    eexists; split; [done|]. intros; simplify_eq; cbn.
    destruct (Hok vs r0 eq_refl) as (? & Hall & Hcount). split; [lia|].
    rewrite (proj2 (N.leb_le _ _)) by (unfold lenN; lia). cbn.
    by apply forallb_forall, List.Forall_forall. }
  destruct (major =? 5); [|by eexists].
  case_cond; [by eexists|].
  destruct (read_pairs_total fuel _ _ (N.to_nat n) None rest IH) as ([[kvs r]|e] & -> & Hok);
    [lia| |by eexists].
  eexists; split; [done|]. intros; simplify_eq; cbn.
  destruct (Hok kvs r0 eq_refl) as (? & Hall & Hcount & ->). split; [lia|].
  rewrite (proj2 (N.leb_le _ _)) by (unfold lenN; lia). cbn.
  apply forallb_forall. rewrite List.Forall_forall in Hall. intros kv Hin.
  destruct (Hall kv Hin) as [Hk Hv]. cbn in Hk. by rewrite Hk, Hv.
Qed.

(** Fuel above the input length is never exhausted. *)
Lemma read_value_fuel fuel input :
  (length input < fuel)%nat -> is_Some (read_value fuel input).
Proof. intros H. destruct (read_value_total fuel input H) as (res & -> & _). by eexists. Qed.

Lemma decode_ok_inv input v :
  decode input = Ok v -> read_value (S (length input)) input = Some (Ok (v, [])).
Proof.
  unfold decode. destruct (read_value _ _) as [[[v' [|]]|]|]; intros; by simplify_eq.
Qed.

Lemma decode_ok_wf input v : decode input = Ok v -> wf_value v = true.
Proof.
  intros H%decode_ok_inv.
  destruct (read_value_total (S (length input)) input) as (res & Hres & Hok); [lia|].
  rewrite H in Hres. simplify_eq. by apply (Hok v []).
Qed.

(** ** Properties *)

(** C38. Reading what was written gives the value back: for every well-formed
    value (keys in increasing order, as every map of the protocol is built)
    [decode (encode v)] is [Ok v]. *)
Theorem cbor_roundtrip v : wf_value v = true -> decode (encode v) = Ok v.
Proof. apply decode_encode_wf. Qed.

Example cbor_roundtrip_witness :
  decode (encode (Map [(0, Uint 1); (1, Bytes [x01; x02]); (300, Array [Text (lit "relay"); Uint 70000])]))
  = Ok (Map [(0, Uint 1); (1, Bytes [x01; x02]); (300, Array [Text (lit "relay"); Uint 70000])]).
Proof. apply cbor_roundtrip. vm_compute. reflexivity. Defined.

(** The reader is total and yields only well-formed values: on any input
    the recursion ends within the supplied fuel, and a value it accepts has
    strictly increasing map keys and in-range integers, so it re-encodes to
    bytes that decode to the same value. *)
Theorem cbor_decode_total input :
  is_Some (read_value (S (length input)) input) /\
  forall v, decode input = Ok v -> wf_value v = true /\ decode (encode v) = Ok v.
Proof.
  split; [apply read_value_fuel; lia|]. intros v H.
  pose proof (decode_ok_wf _ _ H). auto using decode_encode_wf.
Qed.

(** [d] one-element arrays around a value. *)
Fixpoint nest (d : nat) (v : Value) : Value :=
  match d with O => v | S d => Array [nest d v] end.

Lemma write_value_nest d : write_value (nest d (Uint 0)) = replicate d x81 ++ [x00].
Proof.
  induction d as [|d IH]; [reflexivity|]. cbn [nest write_value map concat replicate].
  rewrite IH, app_nil_r. reflexivity.
Qed.

Lemma wf_nest d : wf_value (nest d (Uint 0)) = true.
Proof. induction d as [|d IH]; [done|]. cbn in *. by rewrite IH. Qed.

(** There is no nesting limit: [d] bytes [0x81] and a zero are accepted as
    an array nested [d] deep, for every [d], so the depth of the reader's
    recursion is bounded only by the size of the request body. *)
Theorem cbor_nesting_unbounded d :
  decode (replicate d x81 ++ [x00]) = Ok (nest d (Uint 0)).
Proof. rewrite <- write_value_nest. apply decode_encode_wf, wf_nest. Qed.
