(* ===== verification/Crypto.v ===== *)
(** * Third-party cryptography as parameters

    The crates that the code only calls ([ed25519_dalek], [sha2], [hpke],
    [base64]) are fields of a class; nothing is assumed about them beyond the
    documented behaviour collected in [CryptoLaws]. Randomness drawn by a call
    ([rand::rng()]) is an explicit argument of the model. *)

From S2P Require Export Bytes.

Notation KEY_LEN := 32.
Notation ID_LEN := 32.
Notation SIG_LEN := 64.

(** A 32-byte key, identifier or token, and an Ed25519 signature. *)
Notation key := (arr 32).
Notation sig64 := (arr 64).

Class Crypto := {
  (* ed25519_dalek *)
  SigningKey : Type;
  VerifyingKey : Type;
  ed_sign : SigningKey -> bytes -> sig64;
  ed_verify : VerifyingKey -> bytes -> sig64 -> bool;
  sk_from_bytes : key -> SigningKey;
  sk_to_bytes : SigningKey -> key;
  verifying_key : SigningKey -> VerifyingKey;
  vk_from_bytes : key -> option VerifyingKey;
  vk_to_bytes : VerifyingKey -> key;
  (* sha2 *)
  sha256_digest : bytes -> key;
  (* hpke: DHKEM(X25519), HKDF-SHA256, ChaCha20Poly1305 *)
  HpkePublic : Type;
  HpkePrivate : Type;
  HpkeEncapped : Type;
  hpke_gen : key -> key * key;                           (* seed to (secret, public) *)
  hpke_pk_from_bytes : key -> option HpkePublic;
  hpke_sk_from_bytes : key -> option HpkePrivate;
  hpke_enc_from_bytes : bytes -> option HpkeEncapped;
  single_shot_seal : HpkePublic -> bytes -> bytes -> bytes -> key -> option (key * bytes);
  single_shot_open : HpkePrivate -> HpkeEncapped -> bytes -> bytes -> bytes -> option bytes;
  (* base64, URL_SAFE_NO_PAD *)
  b64_encode : bytes -> rstring;
  b64_decode : rstring -> option bytes
}.

(** [single_shot_seal pk info plaintext aad seed] and
    [single_shot_open sk enc info ciphertext aad]. *)
Class CryptoLaws `{Crypto} := {
  (* a signature verifies under the key that made it *)
  ed_sign_verify sk m : ed_verify (verifying_key sk) m (ed_sign sk m) = true;
  (* key encodings are canonical *)
  sk_bytes_roundtrip sk : sk_from_bytes (sk_to_bytes sk) = sk;
  vk_bytes_roundtrip pk : vk_from_bytes (vk_to_bytes pk) = Some pk;
  vk_bytes_inv b pk : vk_from_bytes b = Some pk -> vk_to_bytes pk = b;
  (* RFC 9180: the holder of the secret opens what was sealed to its public key *)
  hpke_open_sealed seed sk pk p info pt aad rnd enc ct :
    hpke_gen seed = (sk, pk) -> hpke_pk_from_bytes pk = Some p ->
    single_shot_seal p info pt aad rnd = Some (enc, ct) ->
    exists s e, hpke_sk_from_bytes sk = Some s /\ hpke_enc_from_bytes (to_vec enc) = Some e
                /\ single_shot_open s e info ct aad = Some pt;
  (* the AEAD tag adds 16 bytes *)
  hpke_ct_len p info pt aad rnd enc ct :
    single_shot_seal p info pt aad rnd = Some (enc, ct) -> lenN ct = lenN pt + 16;
  b64_roundtrip b : b64_decode (b64_encode b) = Some b
}.
