(* ===== verification/Ids.v ===== *)
(** * Identifiers and signatures

    [nemo-wire/src/ids.rs] (hashes, hex, fixed-size copies) and
    [nemo-wire/src/sign.rs] (domain-separated Ed25519). *)

From S2P Require Export Crypto Cbor.

Definition PROTOCOL_VERSION : N := 1.

Notation IdentityId := key (only parsing).
Notation ServerId := key (only parsing).

(** ** Hex *)

Definition HEX : bytes := String.list_byte_of_string "0123456789abcdef".

(** [HEX[i] as char]; the index is a nibble. *)
Definition hex_digit (i : N) : byte := nth (N.to_nat i) HEX x00.

Fixpoint hex_encode (l : bytes) : bytes :=
  match l with
  | [] => []
  | b :: l =>
      hex_digit (N.shiftr (Byte.to_N b) 4) :: hex_digit (N.land (Byte.to_N b) 15) :: hex_encode l
  end.

(** [u8::is_ascii_hexdigit]. *)
Definition is_ascii_hexdigit (b : byte) : bool :=
  in_range x30 b x39 || in_range x61 b x66 || in_range x41 b x46.

Definition hex_nibble (b : byte) : wresult N :=
  if in_range x30 b x39 then Ok (Byte.to_N b - 48)
  else if in_range x61 b x66 then Ok (Byte.to_N b - 97 + 10)
  else if in_range x41 b x46 then Ok (Byte.to_N b - 65 + 10)
  else Err (Length 1 0).

(** The [step_by(2)] loop of [from_hex]. *)
Fixpoint hex_pairs (l : bytes) : wresult bytes :=
  match l with
  | b0 :: b1 :: l =>
      hi ← hex_nibble b0;
      lo ← hex_nibble b1;
      out ← hex_pairs l;
      Ok (byte_of_N (N.lor (N.shiftl hi 4) lo) :: out)
  | _ => Ok []
  end.

Definition from_hex (s : rstring) : wresult bytes :=
  let b := as_bytes s in
  if negb (lenN b mod 2 =? 0) || negb (forallb is_ascii_hexdigit b)
  then Err (Length (lenN b / 2) (lenN b))
  else hex_pairs b.

(** [copy_fixed]. *)
Definition copy_fixed (n : N) (l : bytes) : wresult (arr n) :=
  ok_or (try_into n l) (Length n (lenN l)).

Definition parse_identity_id (s : rstring) : wresult key :=
  b ← from_hex s; copy_fixed ID_LEN b.

(** [slice.chunks(n)]; the fuel is the slice length. *)
Fixpoint chunks (fuel : nat) (n : N) (l : bytes) : list bytes :=
  match fuel, l with
  | S fuel, _ :: _ => takeN n l :: chunks fuel n (dropN n l)
  | _, _ => []
  end.

(** [join(" ")]. *)
Fixpoint join_space (ls : list bytes) : bytes :=
  match ls with
  | [] => []
  | [l] => l
  | l :: ls => l ++ x20 :: join_space ls
  end.

Definition fingerprint (id : key) : bytes :=
  let hex := hex_encode (to_vec id) in join_space (chunks (length hex) 8 hex).

(** ** Lemmas on hex *)

Definition hex_byte_ok (b : byte) : bool :=
  match hex_nibble (hex_digit (N.shiftr (Byte.to_N b) 4)),
        hex_nibble (hex_digit (N.land (Byte.to_N b) 15)) with
  | Ok hi, Ok lo => bool_decide (byte_of_N (N.lor (N.shiftl hi 4) lo) = b)
  | _, _ => false
  end
  && is_ascii_hexdigit (hex_digit (N.shiftr (Byte.to_N b) 4))
  && is_ascii_hexdigit (hex_digit (N.land (Byte.to_N b) 15)).

Lemma hex_byte_all b : hex_byte_ok b = true.
Proof. by destruct b. Qed.

Lemma hex_byte_spec b :
  exists hi lo, hex_nibble (hex_digit (N.shiftr (Byte.to_N b) 4)) = Ok hi
    /\ hex_nibble (hex_digit (N.land (Byte.to_N b) 15)) = Ok lo
    /\ byte_of_N (N.lor (N.shiftl hi 4) lo) = b.
Proof.
  pose proof (hex_byte_all b) as H. unfold hex_byte_ok in H.
  rewrite !andb_true_iff in H. destruct H as [[H _] _].
  destruct (hex_nibble _) as [hi|]; [|done]. destruct (hex_nibble _) as [lo|]; [|done].
  apply bool_decide_eq_true in H. eauto.
Qed.

Lemma hex_encode_digits l : forallb is_ascii_hexdigit (hex_encode l) = true.
Proof.
  induction l as [|b l IH]; [done|]. cbn -[is_ascii_hexdigit hex_digit].
  pose proof (hex_byte_all b) as H. unfold hex_byte_ok in H.
  rewrite !andb_true_iff in H. destruct H as [[_ ->] ->]. by rewrite IH.
Qed.

Lemma hexdigit_ascii b : is_ascii_hexdigit b = true -> byte_le b x7f = true.
Proof. by destruct b. Qed.

Lemma hex_encode_utf8 l : utf8_valid (hex_encode l) = true.
Proof.
  apply utf8_ascii. unfold is_ascii. rewrite forallb_forall. intros b Hb.
  apply hexdigit_ascii. pose proof (hex_encode_digits l) as H.
  rewrite forallb_forall in H. auto.
Qed.

(** [ids::to_hex]. *)
Definition to_hex (l : bytes) : rstring := exist _ (hex_encode l) (hex_encode_utf8 l).

Lemma length_hex_encode l : length (hex_encode l) = (2 * length l)%nat.
Proof. induction l as [|b l IH]; cbn; lia. Qed.

Lemma hex_pairs_encode l : hex_pairs (hex_encode l) = Ok l.
Proof.
  induction l as [|b l IH]; [done|]. cbn -[hex_digit hex_nibble].
  destruct (hex_byte_spec b) as (hi & lo & -> & -> & Hb). cbn -[byte_of_N].
  rewrite IH. cbn -[byte_of_N]. by rewrite Hb.
Qed.

Lemma from_to_hex l : from_hex (to_hex l) = Ok l.
Proof.
  unfold from_hex. cbn [to_hex as_bytes proj1_sig]. rewrite hex_encode_digits.
  assert (lenN (hex_encode l) mod 2 = 0) as ->.
  { unfold lenN. rewrite length_hex_encode. rewrite Nat2N.inj_mul, N.mul_comm.
    apply N.Div0.mod_mul. }
  apply hex_pairs_encode.
Qed.

Lemma copy_fixed_to_vec {n} (a : arr n) : copy_fixed n (to_vec a) = Ok a.
Proof. unfold copy_fixed. by rewrite try_into_to_vec. Qed.

Lemma copy_fixed_ok n l a : copy_fixed n l = Ok a -> to_vec a = l.
Proof.
  unfold copy_fixed. destruct (try_into n l) eqn:E; intros; simplify_eq/=.
  by apply try_into_Some in E.
Qed.

Lemma copy_fixed_len n l : lenN l = n -> exists a, copy_fixed n l = Ok a /\ to_vec a = l.
Proof.
  intros H. destruct (proj2 (try_into_is_Some n l) H) as [a Ha].
  exists a. unfold copy_fixed. rewrite Ha. split; [done | by apply try_into_Some in Ha].
Qed.

Create Rewrite HintDb wire.
#[export] Hint Rewrite @copy_fixed_to_vec : wire.

(** Removing the separators from grouped text gives the text back. *)
Definition unspaced (l : bytes) : bytes := List.filter (fun b => negb (Byte.eqb b x20)) l.

Lemma unspaced_app l k : unspaced (l ++ k) = unspaced l ++ unspaced k.
Proof. apply List.filter_app. Qed.

Lemma unspaced_hex l : forallb is_ascii_hexdigit l = true -> unspaced l = l.
Proof.
  induction l as [|b l IH]; cbn; [done|]. intros [Hb Hl]%andb_true_iff.
  assert (Byte.eqb b x20 = false) as -> by (destruct b; done). cbn. f_equal. auto.
Qed.

Lemma unspaced_join ls : unspaced (join_space ls) = unspaced (concat ls).
Proof.
  induction ls as [|l [|l' ls] IH]; [done | cbn; by rewrite app_nil_r |].
  change (join_space (l :: l' :: ls)) with (l ++ x20 :: join_space (l' :: ls)).
  change (concat (l :: l' :: ls)) with (l ++ concat (l' :: ls)).
  rewrite !unspaced_app. f_equal. exact IH.
Qed.

Lemma concat_chunks fuel n l :
  0 < n -> (length l <= fuel)%nat -> concat (chunks fuel n l) = l.
Proof.
  intros Hn. revert l; induction fuel as [|fuel IH]; intros l Hl.
  { destruct l; [done | cbn in Hl; lia]. }
  destruct l as [|b l]; [done|]. cbn [chunks concat].
  rewrite IH; [apply takeN_dropN|]. unfold dropN. rewrite length_drop. cbn in *. lia.
Qed.

Lemma fingerprint_unspaced id : unspaced (fingerprint id) = hex_encode (to_vec id).
Proof.
  unfold fingerprint. rewrite unspaced_join, concat_chunks by lia.
  apply unspaced_hex, hex_encode_digits.
Qed.

(** ** Hashes *)

Section Hashes.
Context `{Crypto}.

Definition sha256 (l : bytes) : key := sha256_digest l.

Definition identity_id (identity_public_key : key) : key := sha256 (to_vec identity_public_key).

Definition server_id (server_hpke_public_key : key) : key := sha256 (to_vec server_hpke_public_key).
End Hashes.

(** Two different inputs with the same digest: what an attacker would have to
    find where the protocol relies on the hash. *)
Definition collision `{Crypto} : Prop := exists x y, x <> y /\ sha256 x = sha256 y.

Lemma sha256_inj_or_collision `{Crypto} x y : sha256 x = sha256 y -> x = y \/ collision.
Proof. intros Heq. destruct (decide (x = y)); [by left | right; by exists x, y]. Qed.

(** ** Domain-separated signatures *)

Module Sign.
Definition CONTEXT_PREFIX : bytes := String.list_byte_of_string "nemo-v1/".

Definition HOME_SERVER_BINDING : rstring := lit "home-server-binding".
Definition PREKEY : rstring := lit "prekey".
Definition REVOCATION : rstring := lit "revocation".
Definition GROUP_INVITE : rstring := lit "group-invite".
Definition GROUP_ADMIT : rstring := lit "group-admit".
Definition INVITEE_PROOF : rstring := lit "invitee-proof".
Definition REMOVE_SIDECAR : rstring := lit "remove-sidecar".
Definition SIGNING_KEY_REPLACE : rstring := lit "signing-key-replace".
Definition SERVER_BUNDLE : rstring := lit "server-bundle".
Definition SERVER_SIGN_ROTATE : rstring := lit "server-sign-rotate".
Definition MAILBOX_OWNER : rstring := lit "mailbox-owner".
Definition CAPABILITY_INTRO : rstring := lit "capability-intro".
Definition SERVER_RESPONSE : rstring := lit "server-response".

(** The contexts declared in [sign.rs]. *)
Definition contexts : list rstring :=
  [HOME_SERVER_BINDING; PREKEY; REVOCATION; GROUP_INVITE; GROUP_ADMIT; INVITEE_PROOF;
   REMOVE_SIDECAR; SIGNING_KEY_REPLACE; SERVER_BUNDLE; SERVER_SIGN_ROTATE; MAILBOX_OWNER;
   CAPABILITY_INTRO; SERVER_RESPONSE].

Definition message (context : rstring) (payload : bytes) : wresult bytes :=
  let c := as_bytes context in
  if (lenN c =? 0) || contains x2f c || negb (is_ascii c)
  then Err (Cbor "invalid signature context")
  else Ok (CONTEXT_PREFIX ++ c ++ x00 :: payload).

Section WithCrypto.
Context `{Crypto}.

Definition sign (sk : SigningKey) (context : rstring) (payload : bytes) : wresult sig64 :=
  msg ← message context payload; Ok (ed_sign sk msg).

Definition verify (pk : VerifyingKey) (context : rstring) (payload : bytes) (signature : sig64)
    : wresult unit :=
  msg ← message context payload;
  if ed_verify pk msg signature then Ok tt else Err Signature.
End WithCrypto.

(** ** Lemmas *)

Definition contexts_ok : bool :=
  forallb (fun c => negb (lenN (as_bytes c) =? 0) && negb (contains x2f (as_bytes c))
                    && is_ascii (as_bytes c) && negb (contains x00 (as_bytes c))) contexts.

Lemma contexts_valid : contexts_ok = true.
Proof. vm_compute. reflexivity. Qed.

Lemma context_spec c :
  c ∈ contexts -> (forall p, message c p = Ok (CONTEXT_PREFIX ++ as_bytes c ++ x00 :: p))
                  /\ contains x00 (as_bytes c) = false.
Proof.
  intros Hc. pose proof contexts_valid as H. unfold contexts_ok in H.
  rewrite forallb_forall in H. specialize (H c (proj1 (list_elem_of_In _ _) Hc)).
  rewrite !andb_true_iff, !negb_true_iff in H. destruct H as [[[H1 H2] H3] H4].
  split; [|done]. intros p. unfold message. by rewrite H1, H2, H3.
Qed.

(** Splitting at the first separator is unambiguous. *)
Lemma split_at_first (b : byte) l1 l2 p1 p2 :
  contains b l1 = false -> contains b l2 = false ->
  l1 ++ b :: p1 = l2 ++ b :: p2 -> l1 = l2 /\ p1 = p2.
Proof.
  revert l2; induction l1 as [|a l1 IH]; intros [|c l2] H1 H2 Heq; cbn in *; simplify_eq/=.
  - done.
  - exfalso. assert (Byte.eqb c c = true) by by apply Byte.byte_dec_lb.
    by rewrite orb_false_iff in H2; destruct H2; congruence.
  - exfalso. assert (Byte.eqb b b = true) by by apply Byte.byte_dec_lb.
    by rewrite orb_false_iff in H1; destruct H1; congruence.
  - rewrite orb_false_iff in H1, H2. destruct H1, H2.
    destruct (IH l2) as [-> ->]; done.
Qed.

Lemma message_contexts_inj c1 c2 p1 p2 m :
  c1 ∈ contexts -> c2 ∈ contexts ->
  message c1 p1 = Ok m -> message c2 p2 = Ok m -> c1 = c2 /\ p1 = p2.
Proof.
  intros H1 H2. destruct (context_spec _ H1) as [-> Hn1], (context_spec _ H2) as [-> Hn2].
  intros E1 E2. rewrite <- E2 in E1. injection E1 as E1.
  destruct (split_at_first _ _ _ _ _ Hn1 Hn2 E1) as [Hc ->].
  split; [by apply rstring_eq | done].
Qed.

Lemma binding_context : HOME_SERVER_BINDING ∈ contexts.
Proof. apply (bool_decide_unpack _). vm_compute. exact I. Qed.

Lemma owner_context : MAILBOX_OWNER ∈ contexts.
Proof. apply (bool_decide_unpack _). vm_compute. exact I. Qed.

Section Lemmas.
Context `{CryptoLaws}.

Lemma sign_verify sk context payload s :
  sign sk context payload = Ok s -> verify (verifying_key sk) context payload s = Ok tt.
Proof.
  unfold sign, verify. destruct (message context payload) as [m|]; [|done].
  cbn. intros; simplify_eq. by rewrite ed_sign_verify.
Qed.
End Lemmas.
End Sign.

(** ** Properties *)

(** Hex is a bijection onto what the parser accepts for identifiers:
    [from_hex (to_hex b)] returns [b], [parse_identity_id] inverts [to_hex] on a
    32-byte id, and the grouped fingerprint shows the same digits. *)
Theorem hex_roundtrip (b : bytes) (id : key) :
  from_hex (to_hex b) = Ok b /\
  parse_identity_id (to_hex (to_vec id)) = Ok id /\
  unspaced (fingerprint id) = as_bytes (to_hex (to_vec id)).
Proof.
  split_and!; [apply from_to_hex | | apply fingerprint_unspaced].
  unfold parse_identity_id. rewrite from_to_hex. cbn. apply copy_fixed_to_vec.
Qed.

(** Domain separation: for the declared contexts, the signed byte string
    determines the context and the payload, so a signature made for one
    protocol object is not a signature over another. *)
Theorem signature_domain_separation c1 c2 p1 p2 m :
  c1 ∈ Sign.contexts -> c2 ∈ Sign.contexts ->
  Sign.message c1 p1 = Ok m -> Sign.message c2 p2 = Ok m -> c1 = c2 /\ p1 = p2.
Proof. apply Sign.message_contexts_inj. Qed.

Example signature_domain_separation_witness :
  Sign.REVOCATION = Sign.REVOCATION /\ [x01] = [x01].
Proof.
  eapply (signature_domain_separation Sign.REVOCATION Sign.REVOCATION [x01] [x01]).
  - apply (bool_decide_unpack _). vm_compute. exact I.
  - apply (bool_decide_unpack _). vm_compute. exact I.
  - reflexivity.
  - reflexivity.
Defined.
