(* ===== verification/Envelope.v ===== *)
(** * Padded envelopes

    [nemo-wire/src/envelope.rs]: the padded message (bucketed body), the inner
    envelope (what the recipient's home server stores) and the outer envelope
    (what the sender's server forwards). *)

From S2P Require Export Ids.

Definition T1 : N := 1024.
Definition T2 : N := 4096.
Definition T3 : N := 16384.
Definition A1 : N := 262144.
Definition A2 : N := 1048576.
Definition A3 : N := 4194304.
Definition A4 : N := 16777216.

Definition INNER_TEXT_OUTER : N := 20480.
Definition A1_OUTER : N := 266240.
Definition A2_OUTER : N := 1052672.
Definition A3_OUTER : N := 4202496.
Definition A4_OUTER : N := 16781312.

Definition TEXT_INNER : list N := [T1; T2; T3].
Definition ATTACH_INNER : list N := [A1; A2; A3; A4].

(** [bytes[i]]; every use is behind a length guard. *)
Definition idx (i : N) (l : bytes) : byte := default x00 (l !! N.to_nat i).

Definition all_zero (l : bytes) : bool := forallb (Byte.eqb x00) l.

(** ** Message types *)

Inductive MessageType : Type :=
| DoubleRatchet | MlsApp | AttachmentDr | RemoveBundleType | SigningKeyReplaceType
| AttachmentReserveType | RevocationStatementType | MlsHandshake.

#[global] Instance message_type_eq_decision : EqDecision MessageType.
Proof. solve_decision. Defined.

(** [type_ as u8]. *)
Definition type_byte (t : MessageType) : byte :=
  match t with
  | DoubleRatchet => x01
  | MlsApp => x02
  | AttachmentDr => x03
  | RemoveBundleType => x10
  | SigningKeyReplaceType => x11
  | AttachmentReserveType => x12
  | RevocationStatementType => x13
  | MlsHandshake => x14
  end.

(** [MessageType::from_u8]. *)
Definition type_from_u8 (v : byte) : wresult MessageType :=
  match v with
  | x01 => Ok DoubleRatchet
  | x02 => Ok MlsApp
  | x03 => Ok AttachmentDr
  | x10 => Ok RemoveBundleType
  | x11 => Ok SigningKeyReplaceType
  | x12 => Ok AttachmentReserveType
  | x13 => Ok RevocationStatementType
  | x14 => Ok MlsHandshake
  | other => Err (UnknownMessageType (Byte.to_N other))
  end.

Definition is_attachment (t : MessageType) : bool :=
  match t with AttachmentDr => true | _ => false end.

(** ** Time-to-live buckets *)

Record TtlBucket : Type := mk_ttl { ttl_u8 : byte }.

Definition TTL_DEFAULT : TtlBucket := mk_ttl x00.
Definition TTL_SECONDS_60 : TtlBucket := mk_ttl x01.
Definition TTL_HOUR : TtlBucket := mk_ttl x02.
Definition TTL_DAY : TtlBucket := mk_ttl x03.

(** [TtlBucket::from_u8]. *)
Definition ttl_from_u8 (v : byte) : wresult TtlBucket :=
  if Byte.to_N v <=? 3 then Ok (mk_ttl v) else Err (UnknownTtl (Byte.to_N v)).

Definition ttl_secs (t : TtlBucket) : option N :=
  match ttl_u8 t with
  | x01 => Some 60
  | x02 => Some 3600
  | x03 => Some 86400
  | _ => None
  end.

(** ** Padded messages *)

Record PaddedMessage : Type := mk_padded {
  type_ : MessageType;
  body : bytes;
  inner_len : N
}.

Definition buckets (t : MessageType) : list N :=
  if is_attachment t then ATTACH_INNER else TEXT_INNER.

Definition pad (t : MessageType) (b : bytes) : wresult PaddedMessage :=
  let header_and_body := 2 + lenN b in
  n ← ok_or (List.find (fun k => header_and_body <=? k) (buckets t)) NoBucket;
  Ok (mk_padded t b n).

(** [PaddedMessage::encode]. *)
Definition encode_msg (m : PaddedMessage) : bytes :=
  resize (inner_len m) x00 (byte_of_N PROTOCOL_VERSION :: type_byte (type_ m) :: body m).

(** [PaddedMessage::decode]. *)
Definition decode_msg (l : bytes) : wresult PaddedMessage :=
  if lenN l <? 2 then Err BadEnvelope
  else if negb (Byte.to_N (idx 0 l) =? PROTOCOL_VERSION) then
    Err (UnknownVersion (Byte.to_N (idx 0 l)))
  else
    t ← type_from_u8 (idx 1 l);
    if negb (existsb (N.eqb (lenN l)) (buckets t)) then Err BadEnvelope
    else Ok (mk_padded t (dropN 2 l) (lenN l)).

(** ** Inner envelopes *)

Record InnerEnvelope : Type := mk_inner {
  delivery_capability : key;
  ttl_bucket : TtlBucket;
  idempotency_token : key;
  padded_message : PaddedMessage
}.

Definition header_len : N := 1 + KEY_LEN + 1 + KEY_LEN.

Definition outer_len (e : InnerEnvelope) : N :=
  if is_attachment (type_ (padded_message e)) then
    let n := inner_len (padded_message e) in
    if n =? A1 then A1_OUTER
    else if n =? A2 then A2_OUTER
    else if n =? A3 then A3_OUTER
    else if n =? A4 then A4_OUTER
    else INNER_TEXT_OUTER
  else INNER_TEXT_OUTER.

(** The unpadded bytes: version, capability, ttl, idempotency token, message. *)
Definition inner_bytes (e : InnerEnvelope) : bytes :=
  byte_of_N PROTOCOL_VERSION :: to_vec (delivery_capability e)
    ++ ttl_u8 (ttl_bucket e) :: to_vec (idempotency_token e)
    ++ encode_msg (padded_message e).

Definition encode_padded (e : InnerEnvelope) : wresult bytes :=
  let out := inner_bytes e in
  let outer := outer_len e in
  if outer <? lenN out then Err NoBucket else Ok (resize outer x00 out).

(** The inner bucket of a decoded envelope, from the outer length. *)
Definition recover_len (total : N) (rest : bytes) : wresult N :=
  if total =? INNER_TEXT_OUTER then
    ok_or (List.find (fun n => (n <=? lenN rest) && all_zero (dropN n rest)) TEXT_INNER) BadEnvelope
  else if total =? A1_OUTER then Ok A1
  else if total =? A2_OUTER then Ok A2
  else if total =? A3_OUTER then Ok A3
  else if total =? A4_OUTER then Ok A4
  else Err BadEnvelope.

Definition decode_padded (l : bytes) : wresult InnerEnvelope :=
  if lenN l <? header_len + 2 then Err BadEnvelope
  else if negb (Byte.to_N (idx 0 l) =? PROTOCOL_VERSION) then
    Err (UnknownVersion (Byte.to_N (idx 0 l)))
  else
    cap ← copy_fixed KEY_LEN (takeN KEY_LEN (dropN 1 l));
    ttl ← ttl_from_u8 (idx (1 + KEY_LEN) l);
    tok ← copy_fixed KEY_LEN (takeN KEY_LEN (dropN (1 + KEY_LEN + 1) l));
    let rest := dropN header_len l in
    n ← recover_len (lenN l) rest;
    if lenN rest <? n then Err BadEnvelope
    else
      msg ← decode_msg (takeN n rest);
      Ok (mk_inner cap ttl tok msg).

(** ** Outer envelopes *)

Record OuterEnvelope : Type := mk_outer {
  destination_server_id : key;
  hpke_ciphertext : bytes
}.

(** [OuterEnvelope::encode]; the length is cast with [as u32]. *)
Definition encode_outer (o : OuterEnvelope) : bytes :=
  byte_of_N PROTOCOL_VERSION :: to_vec (destination_server_id o)
    ++ be_bytes 4 (lenN (hpke_ciphertext o) mod 2 ^ 32) ++ hpke_ciphertext o.

(** [OuterEnvelope::decode]. *)
Definition decode_outer (l : bytes) : wresult OuterEnvelope :=
  if lenN l <? 1 + KEY_LEN + 4 then Err BadEnvelope
  else if negb (Byte.to_N (idx 0 l) =? PROTOCOL_VERSION) then
    Err (UnknownVersion (Byte.to_N (idx 0 l)))
  else
    dest ← copy_fixed KEY_LEN (takeN KEY_LEN (dropN 1 l));
    let n := from_be (takeN 4 (dropN (1 + KEY_LEN) l)) in
    let rest := dropN (1 + KEY_LEN + 4) l in
    if negb (lenN rest =? n) then Err (Length n (lenN rest))
    else Ok (mk_outer dest rest).

(** ** Lemmas *)

Lemma version_byte : Byte.to_N (byte_of_N PROTOCOL_VERSION) = PROTOCOL_VERSION.
Proof. reflexivity. Qed.

Lemma type_from_u8_byte t : type_from_u8 (type_byte t) = Ok t.
Proof. by destruct t. Qed.

Lemma type_from_u8_ok b t : type_from_u8 b = Ok t -> type_byte t = b.
Proof. by destruct b; intros; simplify_eq/=. Qed.

Lemma all_zero_replicate n : all_zero (replicate n x00) = true.
Proof. induction n; cbn; auto. Qed.

Lemma all_zero_spec l : all_zero l = true -> l = replicate (length l) x00.
Proof.
  induction l as [|b l IH]; cbn; [done|]. intros [Hb Hl]%andb_true_iff.
  apply Byte.byte_dec_bl in Hb. subst b. f_equal. auto.
Qed.

Lemma idx_app_cons i a b l : lenN a = i -> idx i (a ++ b :: l) = b.
Proof.
  intros <-. unfold idx, lenN. rewrite Nat2N.id.
  rewrite lookup_app_r by lia. by rewrite Nat.sub_diag.
Qed.

Lemma bucket_mem t n : existsb (N.eqb n) (buckets t) = true <-> n ∈ buckets t.
Proof.
  rewrite existsb_exists, list_elem_of_In. split.
  - intros (x & Hin & ->%N.eqb_eq). done.
  - intros Hin. exists n. split; [done | apply N.eqb_refl].
Qed.

Lemma buckets_range t n : n ∈ buckets t -> 2 <= n.
Proof.
  unfold buckets, ATTACH_INNER, TEXT_INNER, A1, A2, A3, A4, T1, T2, T3.
  destruct (is_attachment t); rewrite !elem_of_cons, elem_of_nil; lia.
Qed.

(** Messages as [pad] and [decode_msg] build them. *)
Definition msg_ok (m : PaddedMessage) : Prop :=
  inner_len m ∈ buckets (type_ m) /\ 2 + lenN (body m) <= inner_len m.

Lemma find_bucket t need n :
  List.find (fun k => need <=? k) (buckets t) = Some n ->
  n ∈ buckets t /\ need <= n /\ forall k, k ∈ buckets t -> need <= k -> n <= k.
Proof.
  unfold buckets, ATTACH_INNER, TEXT_INNER, A1, A2, A3, A4, T1, T2, T3.
  destruct (is_attachment t); cbn [List.find]; repeat case_cond; intros; simplify_eq;
    (split_and!; [set_solver | lia | intros k; rewrite !elem_of_cons, elem_of_nil; lia]).
Qed.

Lemma pad_ok t b m :
  pad t b = Ok m -> type_ m = t /\ body m = b /\ msg_ok m /\
  forall k, k ∈ buckets t -> 2 + lenN b <= k -> inner_len m <= k.
Proof.
  unfold pad, msg_ok. destruct (List.find _ _) as [n|] eqn:Hf; [|done]. cbn.
  intros; simplify_eq; cbn. destruct (find_bucket _ _ _ Hf) as (? & ? & ?). auto.
Qed.

Lemma encode_msg_len m : lenN (encode_msg m) = inner_len m.
Proof. apply lenN_resize. Qed.

Lemma encode_msg_ok m :
  msg_ok m ->
  encode_msg m = byte_of_N PROTOCOL_VERSION :: type_byte (type_ m) :: body m
                   ++ replicate (N.to_nat (inner_len m - (2 + lenN (body m)))) x00.
Proof.
  intros [_ Hlen]. unfold encode_msg. rewrite resize_extend by len_lia.
  cbn [app]. do 4 f_equal. len_lia.
Qed.

Lemma decode_msg_ok l m :
  decode_msg l = Ok m ->
  msg_ok m /\ encode_msg m = l /\ lenN l = inner_len m /\ body m = dropN 2 l.
Proof.
  unfold decode_msg. destruct (N.ltb_spec (lenN l) 2); [done|].
  destruct l as [|b0 [|b1 l]]; [len_lia.. |].
  change (idx 0 (b0 :: b1 :: l)) with b0. change (idx 1 (b0 :: b1 :: l)) with b1.
  change (dropN 2 (b0 :: b1 :: l)) with l.
  destruct (N.eqb_spec (Byte.to_N b0) PROTOCOL_VERSION) as [Hv|]; [|done].
  cbn. destruct (type_from_u8 b1) as [t|] eqn:Ht; [|done]. cbn.
  destruct (existsb _ _) eqn:Hb; [|done]. cbn. intros; simplify_eq.
  apply bucket_mem in Hb.
  assert (msg_ok (mk_padded t l (lenN (b0 :: b1 :: l)))) as Hok.
  { split; [done | cbn; len_lia]. }
  split_and!; [done | | done | done].
  rewrite encode_msg_ok by done. cbn. apply type_from_u8_ok in Ht. rewrite Ht.
  replace (byte_of_N PROTOCOL_VERSION) with b0
    by (apply to_N_inj; by rewrite version_byte).
  rewrite lenN_cons, lenN_cons. replace (N.to_nat _) with 0%nat by lia. by rewrite app_nil_r.
Qed.

Lemma decode_encode_msg m :
  msg_ok m ->
  decode_msg (encode_msg m) =
    Ok (mk_padded (type_ m)
          (body m ++ replicate (N.to_nat (inner_len m - (2 + lenN (body m)))) x00) (inner_len m)).
Proof.
  intros Hok. pose proof (encode_msg_len m) as Hlen.
  pose proof (proj2 (bucket_mem _ _) (proj1 Hok)) as Hb. pose proof (proj2 Hok).
  unfold decode_msg. rewrite Hlen. rewrite (encode_msg_ok m Hok).
  destruct (N.ltb_spec (inner_len m) 2); [lia|]. cbn -[byte_of_N].
  change (dropN 2 (?a :: ?b :: ?l)) with l.
  change (idx 1 (?a :: ?b :: ?l)) with b. rewrite type_from_u8_byte. cbn.
  by rewrite Hb.
Qed.

(** The outer class always has room for the header and the bucket. *)
Lemma outer_len_room e :
  msg_ok (padded_message e) -> header_len + inner_len (padded_message e) <= outer_len e.
Proof.
  intros [Hb _]. unfold outer_len, buckets in *. destruct (is_attachment _).
  - unfold ATTACH_INNER in Hb. rewrite !elem_of_cons, elem_of_nil in Hb.
    destruct Hb as [->|[->|[->|[->|[]]]]]; vm_compute; discriminate.
  - unfold TEXT_INNER in Hb. rewrite !elem_of_cons, elem_of_nil in Hb.
    destruct Hb as [->|[->|[->|[]]]]; vm_compute; discriminate.
Qed.

Lemma inner_bytes_len e : lenN (inner_bytes e) = header_len + inner_len (padded_message e).
Proof.
  unfold inner_bytes, header_len.
  rewrite lenN_cons, lenN_app, lenN_cons, lenN_app, !arr_len, encode_msg_len. lia.
Qed.

Lemma encode_padded_ok e :
  msg_ok (padded_message e) ->
  encode_padded e = Ok (inner_bytes e
    ++ replicate (N.to_nat (outer_len e - (header_len + inner_len (padded_message e)))) x00).
Proof.
  intros Hok. pose proof (outer_len_room e Hok). unfold encode_padded.
  rewrite inner_bytes_len. destruct (N.ltb_spec (outer_len e) (header_len + inner_len (padded_message e)));
    [lia|]. rewrite resize_extend by (rewrite inner_bytes_len; lia). by rewrite inner_bytes_len.
Qed.

Lemma encode_padded_len e l :
  encode_padded e = Ok l -> lenN l = outer_len e.
Proof. unfold encode_padded. case_cond; intros; simplify_eq. apply lenN_resize. Qed.

(** The parts of an inner envelope, read off its bytes. *)
Lemma inner_parse e tail :
  let l := inner_bytes e ++ tail in
  lenN l = header_len + inner_len (padded_message e) + lenN tail
  /\ Byte.to_N (idx 0 l) = PROTOCOL_VERSION
  /\ copy_fixed KEY_LEN (takeN KEY_LEN (dropN 1 l)) = Ok (delivery_capability e)
  /\ idx (1 + KEY_LEN) l = ttl_u8 (ttl_bucket e)
  /\ copy_fixed KEY_LEN (takeN KEY_LEN (dropN (1 + KEY_LEN + 1) l)) = Ok (idempotency_token e)
  /\ dropN header_len l = encode_msg (padded_message e) ++ tail.
Proof.
  intros l. subst l. split; [rewrite lenN_app, inner_bytes_len; lia|].
  unfold inner_bytes.
  set (cap := delivery_capability e). set (tok := idempotency_token e).
  set (t := ttl_u8 (ttl_bucket e)). set (msg := encode_msg (padded_message e)).
  split; [apply version_byte|]. cbn [app].
  replace ((to_vec cap ++ t :: to_vec tok ++ msg) ++ tail)
    with (to_vec cap ++ t :: to_vec tok ++ msg ++ tail) by by rewrite <- !app_assoc; cbn; rewrite <- app_assoc.
  set (v := byte_of_N PROTOCOL_VERSION).
  assert (forall k x, dropN (1 + k) (v :: x) = dropN k x) as Hd.
  { intros k x. unfold dropN. by replace (N.to_nat (1 + k)) with (S (N.to_nat k)) by lia. }
  assert (forall k x, idx (1 + k) (v :: x) = idx k x) as Hi.
  { intros k x. unfold idx. by replace (N.to_nat (1 + k)) with (S (N.to_nat k)) by lia. }
  split_and!.
  - change 1 with (1 + 0) at 1. rewrite Hd. change (dropN 0 ?x) with x.
    rewrite takeN_app_exact by apply arr_len. apply copy_fixed_to_vec.
  - rewrite Hi. by rewrite idx_app_cons by apply arr_len.
  - rewrite <- N.add_assoc, Hd. rewrite <- dropN_dropN, dropN_app_exact by apply arr_len.
    change (dropN 1 (?a :: ?x)) with x.
    rewrite takeN_app_exact by apply arr_len. apply copy_fixed_to_vec.
  - unfold header_len. rewrite <- !N.add_assoc, Hd. rewrite <- dropN_dropN.
    rewrite dropN_app_exact by apply arr_len. rewrite <- dropN_dropN.
    change (dropN 1 (?a :: ?x)) with x. by rewrite dropN_app_exact by apply arr_len.
Qed.

(** Decoding is determined by the recovered bucket. *)
Lemma decode_inner_bytes e tail n :
  (Byte.to_N (ttl_u8 (ttl_bucket e)) <= 3) -> 2 <= inner_len (padded_message e) ->
  let rest := encode_msg (padded_message e) ++ tail in
  recover_len (header_len + lenN rest) rest = Ok n -> n <= lenN rest ->
  decode_padded (inner_bytes e ++ tail) =
    (m ← decode_msg (takeN n rest);
     Ok (mk_inner (delivery_capability e) (ttl_bucket e) (idempotency_token e) m)).
Proof.
  intros Httl H2 rest Hrec Hn. destruct (inner_parse e tail) as (Hl & Hv & Hc & Ht & Hk & Hr).
  fold rest in Hr. assert (lenN rest = inner_len (padded_message e) + lenN tail) as Hrl.
  { unfold rest. by rewrite lenN_app, encode_msg_len. }
  assert (lenN (inner_bytes e ++ tail) = header_len + lenN rest) as HL by lia.
  unfold decode_padded. rewrite HL, Hv, Hc, Ht, Hk, Hr, Hrec. cbn [mbind result_bind].
  destruct (N.ltb_spec (header_len + lenN rest) (header_len + 2)); [lia|]. rewrite N.eqb_refl.
  unfold ttl_from_u8. destruct (N.leb_spec (Byte.to_N (ttl_u8 (ttl_bucket e))) 3); [|lia].
  cbn [negb]. destruct (N.ltb_spec (lenN rest) n); [lia|].
  by destruct (ttl_bucket e).
Qed.

Lemma all_zero_app l k : all_zero (l ++ k) = all_zero l && all_zero k.
Proof. apply forallb_app. Qed.

(** For a text envelope the recovered bucket is the smallest whose tail is zero. *)
Lemma recover_text x k :
  lenN x ∈ TEXT_INNER ->
  exists n, recover_len INNER_TEXT_OUTER (x ++ replicate k x00) = Ok n
    /\ n ∈ TEXT_INNER /\ n <= lenN x /\ all_zero (dropN n x) = true.
Proof.
  intros Hx. unfold recover_len. rewrite N.eqb_refl.
  set (z := replicate k x00).
  assert (forall n, n <= lenN x -> all_zero (dropN n (x ++ z)) = all_zero (dropN n x)) as Hz.
  { intros n Hn. rewrite dropN_app_le, all_zero_app by done.
    unfold z. by rewrite all_zero_replicate, andb_true_r. }
  assert (all_zero (dropN (lenN x) x) = true) as Hself by by rewrite dropN_ge.
  assert (lenN x <= lenN (x ++ z)) as Hle by (rewrite lenN_app; lia).
  unfold TEXT_INNER in *. rewrite !elem_of_cons, elem_of_nil in Hx. cbn [List.find].
  assert (T1 < T2 /\ T2 < T3) as [Ho1 Ho2] by (vm_compute; auto).
  destruct Hx as [Hx|[Hx|[Hx|[]]]]; rewrite Hx in *.
  all: rewrite (proj2 (N.leb_le T1 _)) by lia; rewrite Hz by lia; cbn [andb].
  all: destruct (all_zero (dropN T1 x)) eqn:E1;
    [exists T1; split_and!; [done | set_solver | lia | done]|]; [congruence || idtac..].
  all: rewrite (proj2 (N.leb_le T2 _)) by lia; rewrite Hz by lia; cbn [andb].
  all: destruct (all_zero (dropN T2 x)) eqn:E2;
    [exists T2; split_and!; [done | set_solver | lia | done]|]; [congruence || idtac..].
  rewrite (proj2 (N.leb_le T3 _)) by lia; rewrite Hz, Hself by lia.
  exists T3; split_and!; [done | set_solver | lia | done].
Qed.

(** Decoding the first [n] bytes of an encoded text message. *)
Lemma decode_msg_prefix m n :
  msg_ok m -> is_attachment (type_ m) = false -> n ∈ TEXT_INNER -> n <= inner_len m ->
  exists b, decode_msg (takeN n (encode_msg m)) = Ok (mk_padded (type_ m) b n)
    /\ b ++ dropN n (encode_msg m)
        = body m ++ replicate (N.to_nat (inner_len m - (2 + lenN (body m)))) x00.
Proof.
  intros Hok Hatt Hn Hle. assert (2 <= n) as H2.
  { apply (buckets_range (type_ m)). unfold buckets. by rewrite Hatt. }
  pose proof (encode_msg_len m) as Hlen. rewrite (encode_msg_ok m Hok) in *.
  set (pb := body m ++ _) in *. set (v := byte_of_N PROTOCOL_VERSION) in *.
  replace n with (1 + (1 + (n - 2))) by lia. rewrite !takeN_cons, !dropN_cons.
  exists (takeN (n - 2) pb). split; [|apply takeN_dropN].
  assert (lenN (v :: type_byte (type_ m) :: takeN (n - 2) pb) = n) as Hl.
  { rewrite !lenN_cons, lenN_takeN in *. lia. }
  unfold decode_msg. rewrite Hl. destruct (N.ltb_spec n 2); [lia|].
  change (idx 1 (?a :: ?b :: ?l)) with b. change (dropN 2 (?a :: ?b :: ?l)) with l.
  rewrite type_from_u8_byte. cbn -[existsb].
  rewrite (proj2 (bucket_mem _ _)) by (unfold buckets; by rewrite Hatt).
  cbn. by replace (1 + (1 + (n - 2))) with n by lia.
Qed.

(** What a padded message becomes on the other side: the same type, and a body
    that differs only in trailing zeros. *)
Definition same_padded (m m' : PaddedMessage) : Prop :=
  type_ m' = type_ m /\ inner_len m' <= inner_len m /\
  body m' ++ replicate (N.to_nat (inner_len m - inner_len m')) x00
  = body m ++ replicate (N.to_nat (inner_len m - (2 + lenN (body m)))) x00.

Lemma decode_encode_padded e l :
  msg_ok (padded_message e) -> Byte.to_N (ttl_u8 (ttl_bucket e)) <= 3 ->
  encode_padded e = Ok l ->
  exists m', decode_padded l
      = Ok (mk_inner (delivery_capability e) (ttl_bucket e) (idempotency_token e) m')
    /\ same_padded (padded_message e) m'.
Proof.
  intros Hok Httl Henc. pose proof (encode_padded_len _ _ Henc) as Hl.
  pose proof (outer_len_room e Hok) as Hroom.
  rewrite (encode_padded_ok e Hok) in Henc.
  match type of Henc with Ok ?x = _ => assert (l = x) as -> by congruence end.
  set (m := padded_message e) in *. set (k := N.to_nat (outer_len e - _)) in *.
  pose proof (encode_msg_len m) as Hm.
  assert (2 <= inner_len m) as H2 by exact (buckets_range _ _ (proj1 Hok)).
  assert (header_len + lenN (encode_msg m ++ replicate k x00) = outer_len e) as Htot.
  { rewrite lenN_app, inner_bytes_len in Hl. rewrite lenN_app, Hm. fold m in Hl. lia. }
  destruct (is_attachment (type_ m)) eqn:Hatt.
  - assert (recover_len (outer_len e) (encode_msg m ++ replicate k x00) = Ok (inner_len m)) as Hrec.
    { pose proof (proj1 Hok) as Hb. unfold buckets in Hb. rewrite Hatt in Hb. unfold ATTACH_INNER in Hb.
      unfold outer_len, recover_len. fold m. rewrite Hatt.
      rewrite !elem_of_cons, elem_of_nil in Hb. by destruct Hb as [->|[->|[->|[->|[]]]]]. }
    rewrite (decode_inner_bytes e (replicate k x00) (inner_len m)) by (fold m; rewrite ?Htot, ?lenN_app; done || lia).
    fold m. rewrite takeN_app_exact, (decode_encode_msg m Hok) by done. cbn.
    eexists; split; [done|]. unfold same_padded; cbn. split_and!; [done | lia |].
    by rewrite N.sub_diag, app_nil_r.
  - assert (outer_len e = INNER_TEXT_OUTER) as Hout by (unfold outer_len; fold m; by rewrite Hatt).
    pose proof (proj1 Hok) as Hb. unfold buckets in Hb. rewrite Hatt, <- Hm in Hb.
    destruct (recover_text (encode_msg m) k Hb) as (n & Hrec & Hn & Hle & Hzero).
    rewrite Hm in Hle.
    rewrite (decode_inner_bytes e (replicate k x00) n)
      by (fold m; rewrite ?Htot, ?Hout, ?lenN_app; done || lia).
    fold m. rewrite takeN_app_le by lia.
    destruct (decode_msg_prefix m n Hok Hatt Hn Hle) as (b & -> & Hbody). cbn.
    eexists; split; [done|]. unfold same_padded; cbn. split_and!; [done | done |].
    rewrite <- Hbody. f_equal. rewrite (all_zero_spec _ Hzero). f_equal.
    unfold lenN, dropN in *. rewrite length_drop. lia.
Qed.

(** A body that does not end in a zero byte keeps its bucket. *)
Lemma same_padded_exact t b c m m' :
  pad t (b ++ [c]) = Ok m -> c <> x00 -> inner_len m' ∈ buckets t -> same_padded m m' ->
  lenN (body m') = inner_len m' - 2 -> inner_len m' = inner_len m.
Proof.
  intros Hpad Hc Hb (Ht & Hle & Heq) Hlen.
  destruct (pad_ok _ _ _ Hpad) as (<- & Hbody & Hok & Hmin). rewrite Hbody in *.
  destruct (N.lt_ge_cases (inner_len m') (2 + lenN (b ++ [c]))) as [Hlt|Hge].
  2: { specialize (Hmin _ Hb Hge). lia. }
  exfalso. apply Hc. pose proof (buckets_range _ _ Hb) as H2.
  assert ((body m' ++ replicate (N.to_nat (inner_len m - inner_len m')) x00) !! length b = Some x00) as Hz.
  { rewrite lookup_app_r by (unfold lenN in *; rewrite length_app in Hlt; cbn in Hlt; lia).
    apply lookup_replicate_2. destruct Hok as [_ Hm]. rewrite Hbody in Hm.
    unfold lenN in *. rewrite length_app in *. cbn in *. lia. }
  rewrite Heq in Hz. rewrite <- app_assoc in Hz. rewrite lookup_app_r in Hz by lia.
  rewrite Nat.sub_diag in Hz. cbn in Hz. congruence.
Qed.

Lemma dropN_idx i l : i < lenN l -> dropN i l = idx i l :: dropN (1 + i) l.
Proof.
  unfold dropN, idx, lenN. intros Hi.
  destruct (lookup_lt_is_Some_2 l (N.to_nat i)) as [b Hb]; [lia|].
  rewrite Hb. cbn. erewrite drop_S by exact Hb. f_equal. f_equal. lia.
Qed.

(** The field layout of any input long enough to hold the header. *)
Lemma header_layout l :
  header_len <= lenN l ->
  l = idx 0 l :: takeN KEY_LEN (dropN 1 l)
        ++ idx (1 + KEY_LEN) l :: takeN KEY_LEN (dropN (1 + KEY_LEN + 1) l) ++ dropN header_len l.
Proof.
  unfold header_len. intros Hl.
  assert (forall i, dropN i l = takeN KEY_LEN (dropN i l) ++ dropN (i + KEY_LEN) l) as Hs.
  { intros i. rewrite <- dropN_dropN. symmetry. apply takeN_dropN. }
  transitivity (dropN 0 l); [done|]. rewrite dropN_idx by lia. f_equal.
  change (1 + 0) with 1. rewrite (Hs 1) at 1. f_equal.
  change (1 + KEY_LEN) with 33. rewrite dropN_idx by lia. f_equal.
  change (1 + 33) with 34. rewrite (Hs 34) at 1. done.
Qed.

(** The bucket that [recover_len] finds, by outer class. *)
Lemma recover_len_ok total rest n t :
  recover_len total rest = Ok n -> n ∈ buckets t ->
  (is_attachment t = false /\ total = INNER_TEXT_OUTER /\ all_zero (dropN n rest) = true) \/
  (is_attachment t = true /\ total =
     (if n =? A1 then A1_OUTER else if n =? A2 then A2_OUTER
      else if n =? A3 then A3_OUTER else if n =? A4 then A4_OUTER else INNER_TEXT_OUTER)).
Proof.
  unfold recover_len, buckets. destruct (N.eqb_spec total INNER_TEXT_OUTER) as [->|].
  { destruct (List.find _ _) as [k|] eqn:Hf; cbn; intros; simplify_eq.
    apply List.find_some in Hf as [Hin [_ Hz]%andb_true_iff].
    destruct (is_attachment t); [exfalso|by left].
    unfold ATTACH_INNER in *; rewrite !elem_of_cons, elem_of_nil in *.
    apply list_elem_of_In in Hin. unfold TEXT_INNER in Hin; rewrite !elem_of_cons, elem_of_nil in Hin.
    unfold A1, A2, A3, A4, T1, T2, T3 in *. lia. }
  assert (forall a, In a ATTACH_INNER -> a ∉ TEXT_INNER) as Hdis.
  { unfold ATTACH_INNER, TEXT_INNER, A1, A2, A3, A4, T1, T2, T3. intros a Ha.
    rewrite !elem_of_cons, elem_of_nil. cbn in Ha. lia. }
  repeat case_cond; intros; simplify_eq;
    repeat match goal with H : (_ =? _) = true |- _ => apply N.eqb_eq in H end; subst;
    destruct (is_attachment t);
    first [ right; by split
          | exfalso; match goal with H : ?a ∈ TEXT_INNER |- _ =>
              apply (Hdis a); [cbn; tauto | exact H] end ].
Qed.

Lemma decode_padded_inv l e :
  decode_padded l = Ok e ->
  exists n, lenN l >= header_len + 2 /\ recover_len (lenN l) (dropN header_len l) = Ok n
    /\ n <= lenN (dropN header_len l)
    /\ inner_len (padded_message e) = n /\ msg_ok (padded_message e)
    /\ Byte.to_N (ttl_u8 (ttl_bucket e)) <= 3
    /\ inner_bytes e ++ dropN n (dropN header_len l) = l.
Proof.
  unfold decode_padded. destruct (N.ltb_spec (lenN l) (header_len + 2)); [done|].
  destruct (N.eqb_spec (Byte.to_N (idx 0 l)) PROTOCOL_VERSION) as [Hv|]; [|done]. cbn [negb].
  intros (cap & Hcap & Hd)%result_bind_ok. apply result_bind_ok in Hd as (ttl & Httl & Hd).
  apply result_bind_ok in Hd as (tok & Htok & Hd). apply result_bind_ok in Hd as (n & Hrec & Hd).
  destruct (N.ltb_spec (lenN (dropN header_len l)) n); [done|].
  apply result_bind_ok in Hd as (m & Hm & Hd). injection Hd as <-.
  destruct (decode_msg_ok _ _ Hm) as (Hok & Henc & Hl & _).
  apply copy_fixed_ok in Hcap, Htok. unfold ttl_from_u8 in Httl.
  destruct (N.leb_spec (Byte.to_N (idx (1 + KEY_LEN) l)) 3); [|done]. injection Httl as <-.
  exists n. cbn [padded_message ttl_bucket ttl_u8]. rewrite lenN_takeN in Hl.
  split_and!; [lia | done | lia | lia | done | done |].
  unfold inner_bytes. cbn [padded_message ttl_bucket ttl_u8 delivery_capability idempotency_token].
  rewrite Hcap, Htok, Henc.
  replace (byte_of_N PROTOCOL_VERSION) with (idx 0 l)
    by (apply to_N_inj; by rewrite version_byte).
  rewrite (header_layout l) at 7 by lia. cbn [app]. f_equal. rewrite <- app_assoc. f_equal.
  cbn [app]. f_equal. rewrite <- app_assoc. f_equal. apply takeN_dropN.
Qed.

(** Re-encoding a decoded envelope gives the same bytes; for an attachment the
    outer padding must be zero, which the decoder does not check. *)
Lemma encode_decode_padded l e :
  decode_padded l = Ok e ->
  is_attachment (type_ (padded_message e)) = false \/
    all_zero (dropN (header_len + inner_len (padded_message e)) l) = true ->
  encode_padded e = Ok l.
Proof.
  intros Hd Htail. destruct (decode_padded_inv _ _ Hd) as (n & Hl & Hrec & Hn & <- & Hok & _ & Hsplit).
  rewrite (encode_padded_ok e Hok). set (m := padded_message e) in *.
  set (rest := dropN header_len l) in *.
  assert (lenN l = header_len + lenN rest) as Hlen by (unfold rest; rewrite lenN_dropN; lia).
  destruct (recover_len_ok _ _ _ (type_ m) Hrec (proj1 Hok)) as [(Hatt & Htot & Hz)|[Hatt Htot]].
  - assert (outer_len e = lenN l) as -> by (unfold outer_len; fold m; by rewrite Hatt).
    f_equal. rewrite <- Hsplit at 2. f_equal. rewrite (all_zero_spec _ Hz). f_equal.
    unfold lenN, dropN in *. rewrite length_drop. lia.
  - assert (outer_len e = lenN l) as -> by (unfold outer_len; fold m; rewrite Hatt; by rewrite Htot).
    destruct Htail as [Hf|Hz]; [fold m in Hf; congruence|].
    rewrite <- dropN_dropN in Hz. fold rest in Hz.
    f_equal. rewrite <- Hsplit at 2. f_equal. rewrite (all_zero_spec _ Hz). f_equal.
    unfold lenN, dropN in *. rewrite length_drop. lia.
Qed.

(** Bucket recovery looks at the padding of text envelopes only. *)
Lemma recover_len_rest total r1 r2 n :
  recover_len total r1 = Ok n -> total <> INNER_TEXT_OUTER -> recover_len total r2 = Ok n.
Proof. unfold recover_len. intros Hr Hne%N.eqb_neq. by rewrite Hne in *. Qed.

(** A decoded envelope can be stored: its encoding decodes to itself. *)
Lemma decode_padded_stable l e :
  decode_padded l = Ok e -> exists l', encode_padded e = Ok l' /\ decode_padded l' = Ok e.
Proof.
  intros Hd. destruct (is_attachment (type_ (padded_message e))) eqn:Hatt.
  2: { exists l. split; [|done]. apply encode_decode_padded; [done | by left]. }
  destruct (decode_padded_inv _ _ Hd) as (n & Hl & Hrec & Hn & Hlen & Hok & Httl & Hsplit).
  assert (decode_msg (encode_msg (padded_message e)) = Ok (padded_message e)) as Hmsg.
  { clear - Hd. revert Hd. unfold decode_padded. do 2 (case_cond; [done|]).
    intros (cap & _ & Hd)%result_bind_ok. apply result_bind_ok in Hd as (ttl & _ & Hd).
    apply result_bind_ok in Hd as (tok & _ & Hd). apply result_bind_ok in Hd as (n & _ & Hd).
    case_cond; [done|]. apply result_bind_ok in Hd as (m & Hm & Hd). injection Hd as <-. cbn.
    by destruct (decode_msg_ok _ _ Hm) as (_ & -> & _). }
  destruct (recover_len_ok _ _ _ (type_ (padded_message e)) Hrec) as [[? _]|[_ Htot]];
    [rewrite <- Hlen; apply Hok | congruence |].
  eexists. split; [by apply encode_padded_ok|].
  set (k := N.to_nat (outer_len e - _)). pose proof (encode_msg_len (padded_message e)) as Hm.
  assert (lenN l = outer_len e) as Ho by (unfold outer_len; by rewrite Hatt, Hlen).
  assert (header_len + lenN (encode_msg (padded_message e) ++ replicate k x00) = lenN l) as HL.
  { rewrite lenN_app, Hm. assert (lenN (replicate k x00) = N.of_nat k) as -> by (unfold lenN; by rewrite length_replicate).
    unfold k. pose proof (outer_len_room e Hok). lia. }
  rewrite (decode_inner_bytes e _ n).
  - rewrite <- Hlen, <- Hm, takeN_app_exact by done. rewrite Hmsg. by destruct e.
  - done.
  - exact (buckets_range _ _ (proj1 Hok)).
  - rewrite HL. apply (recover_len_rest _ _ _ _ Hrec).
    destruct Hok as [Hb _]. rewrite Hlen in Hb. unfold buckets in Hb. rewrite Hatt in Hb.
    unfold ATTACH_INNER in Hb. rewrite !elem_of_cons, elem_of_nil in Hb. rewrite Htot.
    destruct Hb as [->|[->|[->|[->|[]]]]]; vm_compute; discriminate.
  - rewrite lenN_app, Hm. lia.
Qed.

Lemma decode_encode_outer o :
  lenN (hpke_ciphertext o) <= U32_MAX -> decode_outer (encode_outer o) = Ok o.
Proof.
  intros Hlen. unfold decode_outer, encode_outer.
  set (v := byte_of_N PROTOCOL_VERSION). set (d := destination_server_id o).
  set (ct := hpke_ciphertext o) in *. set (n4 := be_bytes 4 _).
  assert (lenN n4 = 4) as Hn4 by apply lenN_be_bytes.
  assert (lenN (v :: to_vec d ++ n4 ++ ct) = 37 + lenN ct) as ->.
  { rewrite lenN_cons, !lenN_app, arr_len, Hn4. lia. }
  destruct (N.ltb_spec (37 + lenN ct) (1 + KEY_LEN + 4)); [lia|].
  change (idx 0 (v :: ?x)) with v. unfold v at 1. rewrite version_byte, N.eqb_refl. cbn [negb].
  change (dropN 1 (v :: ?x)) with x. rewrite takeN_app_exact by apply arr_len.
  rewrite copy_fixed_to_vec. cbn [mbind result_bind].
  rewrite <- N.add_assoc, !dropN_cons.
  rewrite <- (dropN_dropN 4 KEY_LEN), (dropN_app_exact KEY_LEN) by apply arr_len.
  rewrite takeN_app_exact, dropN_app_exact by done. unfold n4.
  rewrite from_be_bytes by (apply N.mod_lt; done).
  rewrite N.mod_small by ilia. rewrite N.eqb_refl. cbn. by destruct o.
Qed.

(** ** Properties *)

(** A padded message fits its bucket exactly and the bucket is the smallest
    that holds version, type and body; [pad] fails only when no bucket does. *)
Theorem pad_smallest_bucket t b :
  match pad t b with
  | Ok m => lenN (encode_msg m) = inner_len m /\ inner_len m ∈ buckets t
            /\ 2 + lenN b <= inner_len m
            /\ (forall k, k ∈ buckets t -> 2 + lenN b <= k -> inner_len m <= k)
  | Err e => e = NoBucket /\ (forall k, k ∈ buckets t -> k < 2 + lenN b)
  end.
Proof.
  destruct (pad t b) as [m|e] eqn:Hp.
  - destruct (pad_ok _ _ _ Hp) as (<- & <- & [Hb Hle] & Hmin).
    auto using encode_msg_len.
  - unfold pad in Hp. destruct (List.find _ _) as [n|] eqn:Hf; [done|].
    cbn in Hp. injection Hp as <-. split; [done|]. intros k Hk.
    apply list_elem_of_In in Hk. pose proof (List.find_none _ _ Hf k Hk) as Hlt. cbn in Hlt. lia.
Qed.

(** Sealing an inner envelope loses nothing: encoding always succeeds with
    the fixed length of the outer class, and decoding returns the same
    capability, ttl, idempotency token and type, with a body that differs only
    in trailing zeros; a body that does not end in a zero byte keeps its
    bucket. *)
Theorem inner_envelope_roundtrip cap ttl tok t b m :
  pad t b = Ok m -> Byte.to_N (ttl_u8 ttl) <= 3 ->
  let e := mk_inner cap ttl tok m in
  exists l m', encode_padded e = Ok l /\ lenN l = outer_len e
    /\ decode_padded l = Ok (mk_inner cap ttl tok m') /\ same_padded m m'
    /\ (forall b' c, b = b' ++ [c] -> c <> x00 -> inner_len m' = inner_len m).
Proof.
  intros Hpad Httl e. destruct (pad_ok _ _ _ Hpad) as (Ht & Hb & Hok & _).
  assert (exists l, encode_padded e = Ok l) as [l Hl].
  { eexists. by apply (encode_padded_ok e). }
  destruct (decode_encode_padded e l Hok Httl Hl) as (m' & Hdec & Hsame).
  change (padded_message e) with m in Hsame.
  exists l, m'. split_and!; [done | by apply encode_padded_len | done | done |].
  intros b' c -> Hc. destruct (decode_padded_inv _ _ Hdec) as (n & _ & _ & _ & _ & Hok' & _ & _).
  cbn in Hok'. destruct Hsame as (Ht' & Hle & Heq).
  eapply same_padded_exact; [exact Hpad | done | | | ].
  - rewrite <- Ht, <- Ht'. apply (proj1 Hok').
  - by split_and!.
  - assert (lenN (body m') + (inner_len m - inner_len m')
            = lenN (body m) + (inner_len m - (2 + lenN (body m)))) as Hlen.
    { apply (f_equal lenN) in Heq. by rewrite !lenN_app, !lenN_replicate in Heq. }
    destruct Hok as [_ Hm]. destruct Hok' as [_ Hm']. cbn in Hm, Hm'. lia.
Qed.

Example inner_envelope_roundtrip_witness :
  exists l m', encode_padded (mk_inner (arr_repeat 32 x11) TTL_HOUR (arr_repeat 32 x22)
                               (mk_padded DoubleRatchet [x07; x08] T1)) = Ok l
    /\ inner_len m' = T1
    /\ decode_padded l = Ok (mk_inner (arr_repeat 32 x11) TTL_HOUR (arr_repeat 32 x22) m').
Proof.
  destruct (inner_envelope_roundtrip (arr_repeat 32 x11) TTL_HOUR (arr_repeat 32 x22)
              DoubleRatchet [x07; x08] (mk_padded DoubleRatchet [x07; x08] T1))
    as (l & m' & Hl & _ & Hd & _ & Hx); [reflexivity | vm_compute; discriminate |].
  exists l, m'. split; [exact Hl|]. split; [|exact Hd].
  apply (Hx [x07] x08); [reflexivity | discriminate].
Defined.

(** The bucket is not recovered from the zero tail alone: a 1023-byte
    ciphertext whose last byte is zero is padded to T2, and the decoder reads it
    as T1 and drops that last byte. *)
Theorem text_bucket_truncates_zero_tail :
  let b := replicate 1022 x41 ++ [x00] in
  let envelope := mk_inner (arr_repeat 32 x01) TTL_DEFAULT (arr_repeat 32 x02) in
  exists m l e, pad DoubleRatchet b = Ok m /\ inner_len m = T2
    /\ encode_padded (envelope m) = Ok l /\ decode_padded l = Ok e
    /\ inner_len (padded_message e) = T1
    /\ lenN (body (padded_message e)) = lenN b - 1.
Proof.
  intros b envelope. set (m := mk_padded DoubleRatchet b T2).
  assert (Hp : pad DoubleRatchet b = Ok m) by (vm_compute; reflexivity).
  assert (Hr : match encode_padded (envelope m) ≫= decode_padded with
               | Ok e => (inner_len (padded_message e) =? T1)
                         && (lenN (body (padded_message e)) =? lenN b - 1)
               | Err _ => false
               end = true) by (vm_compute; reflexivity).
  destruct (encode_padded (envelope m)) as [l|] eqn:El; cbn in Hr; [|discriminate].
  destruct (decode_padded l) as [e|] eqn:Ed; [|discriminate].
  apply andb_prop in Hr as [H1%N.eqb_eq H2%N.eqb_eq].
  exists m, l, e. split_and!; try done.
Qed.

(** The server gives back what was sealed: re-encoding a decoded text
    envelope is the identity on bytes, so the copy fetched by the owner is the
    plaintext the sender sealed. For attachments the same holds when the outer
    padding is zero. *)
Theorem inner_envelope_reencode l e :
  decode_padded l = Ok e ->
  is_attachment (type_ (padded_message e)) = false \/
    all_zero (dropN (header_len + inner_len (padded_message e)) l) = true ->
  encode_padded e = Ok l.
Proof. apply encode_decode_padded. Qed.

(** A text envelope as it is sealed. *)
Definition sample_text_envelope : bytes :=
  byte_of_N PROTOCOL_VERSION :: replicate 32 x05 ++ x02 :: replicate 32 x06
    ++ x01 :: x01 :: replicate 300 x09 ++ replicate (N.to_nat 20112) x00.

Example inner_envelope_reencode_witness :
  exists e, decode_padded sample_text_envelope = Ok e
    /\ encode_padded e = Ok sample_text_envelope.
Proof.
  exists (match decode_padded sample_text_envelope with
          | Ok e => e
          | Err _ => mk_inner (arr_repeat 32 x00) TTL_DEFAULT (arr_repeat 32 x00)
                       (mk_padded MlsApp [] 0)
          end).
  split; [vm_compute; reflexivity|].
  apply (inner_envelope_reencode sample_text_envelope); [vm_compute; reflexivity|].
  left. vm_compute. reflexivity.
Defined.

(** An outer envelope survives the hop for every ciphertext whose length
    fits the 32-bit length field. *)
Theorem outer_envelope_roundtrip o :
  lenN (hpke_ciphertext o) <= U32_MAX -> decode_outer (encode_outer o) = Ok o.
Proof. apply decode_encode_outer. Qed.

Example outer_envelope_roundtrip_witness :
  decode_outer (encode_outer (mk_outer (arr_repeat 32 x09) [x01; x02; x03]))
  = Ok (mk_outer (arr_repeat 32 x09) [x01; x02; x03]).
Proof. apply outer_envelope_roundtrip. vm_compute. discriminate. Defined.
