(* ===== verification/Toy.v ===== *)
(** * A concrete instance of the cryptographic interface

    Transparent stand-ins that satisfy [CryptoLaws]: they show that the laws can
    hold together, and they let the witnesses run the protocol on concrete
    bytes. Nothing here is secure, and no theorem depends on it. *)

From S2P Require Export Ids.

(** The fixed array with the given bytes. *)
Definition mk_arr (n : N) (l : bytes) : arr n := default (arr_repeat n x00) (try_into n l).

Lemma mk_arr_vec n l : lenN l = n -> to_vec (mk_arr n l) = l.
Proof.
  intros H. unfold mk_arr. destruct (proj2 (try_into_is_Some n l) H) as [a Ha].
  rewrite Ha. by apply try_into_Some in Ha.
Qed.

Module Toy.
(** A polynomial hash, 32 bytes wide. *)
Definition digest (l : bytes) : key :=
  let mask := N.ones 256 in
  mk_arr 32 (be_bytes 32 (foldl (fun acc b => N.land (acc * 257 + Byte.to_N b + 1) mask) 7 l)).

Definition sign_bytes (sk : key) (m : bytes) : sig64 :=
  mk_arr 64 (to_vec sk ++ to_vec (digest m)).

Definition tag (pk enc : key) (info aad : bytes) : bytes :=
  takeN 16 (to_vec (digest (to_vec pk ++ to_vec enc ++ info ++ aad))).

Definition open (sk enc : key) (info ct aad : bytes) : option bytes :=
  let n := lenN ct - 16 in
  if bool_decide (dropN n ct = tag sk enc info aad) then Some (takeN n ct) else None.

#[local] Instance toy : Crypto := {|
  SigningKey := key;
  VerifyingKey := key;
  ed_sign := sign_bytes;
  ed_verify pk m s := bool_decide (s = sign_bytes pk m);
  sk_from_bytes k := k;
  sk_to_bytes k := k;
  verifying_key k := k;
  vk_from_bytes k := Some k;
  vk_to_bytes k := k;
  sha256_digest := digest;
  HpkePublic := key;
  HpkePrivate := key;
  HpkeEncapped := key;
  hpke_gen seed := (seed, seed);
  hpke_pk_from_bytes k := Some k;
  hpke_sk_from_bytes k := Some k;
  hpke_enc_from_bytes b := try_into 32 b;
  single_shot_seal pk info pt aad rnd := Some (rnd, pt ++ tag pk rnd info aad);
  single_shot_open := open;
  b64_encode := to_hex;
  b64_decode s := ok (from_hex s)
|}.

Lemma lenN_tag pk enc info aad : lenN (tag pk enc info aad) = 16.
Proof. unfold tag. rewrite lenN_takeN, arr_len. lia. Qed.

Lemma open_sealed sk enc info pt aad :
  open sk enc info (pt ++ tag sk enc info aad) aad = Some pt.
Proof.
  unfold open. rewrite lenN_app, lenN_tag.
  replace (lenN pt + 16 - 16) with (lenN pt) by lia.
  rewrite dropN_app_exact, takeN_app_exact by done. by rewrite bool_decide_eq_true_2.
Qed.

#[local] Instance toy_laws : CryptoLaws.
Proof.
  split; cbn.
  - intros. by apply bool_decide_eq_true_2.
  - done.
  - done.
  - intros; by simplify_eq.
  - intros seed sk pk p info pt aad rnd enc ct Hg Hp Hs. simplify_eq.
    exists p, enc. split_and!; [done | apply try_into_to_vec | apply open_sealed].
  - intros p info pt aad rnd enc ct Hs. simplify_eq. by rewrite lenN_app, lenN_tag.
  - intros b. by rewrite from_to_hex.
Qed.
End Toy.
