(* ===== verification/Hpke.v ===== *)
(** * Sealing inner envelopes to a server

    [nemo-wire/src/hpke.rs]: the HPKE layer between the padded inner envelope
    and the outer envelope. The [hpke] crate is the [Crypto] parameter; the
    encapsulation randomness is an argument of [seal]. *)

From S2P Require Export Envelope.
From S2P Require Import Toy.

Module Hpke.
Definition INFO : bytes := String.list_byte_of_string "nemo-v1/s2s-inner".
Definition ENCAP_LEN : N := 32.
#[global] Arguments INFO : simpl never.

Definition encap_key (ciphertext : bytes) : wresult key :=
  if lenN ciphertext <? ENCAP_LEN then Err (Hpke "truncated enc")
  else copy_fixed 32 (takeN ENCAP_LEN ciphertext).

Record HpkeKeypair : Type := mk_keypair { public : key; secret : key }.

Definition aad (destination_server_id : key) : bytes :=
  byte_of_N PROTOCOL_VERSION :: to_vec destination_server_id.

Section WithCrypto.
Context `{Crypto}.

Definition generate (seed : key) : HpkeKeypair :=
  let '(sk, pk) := hpke_gen seed in mk_keypair pk sk.

Definition keypair_server_id (k : HpkeKeypair) : key := server_id (public k).

Definition seal (recipient_pk dest : key) (plaintext : bytes) (rnd : key) : wresult bytes :=
  pk ← ok_or (hpke_pk_from_bytes recipient_pk) (Hpke "recipient pk");
  '(enc, ct) ← ok_or (single_shot_seal pk INFO plaintext (aad dest) rnd) (Hpke "seal");
  Ok (to_vec enc ++ ct).

Definition open (recipient_sk dest : key) (ciphertext : bytes) : wresult bytes :=
  if lenN ciphertext <? ENCAP_LEN then Err (Hpke "truncated enc")
  else
    sk ← ok_or (hpke_sk_from_bytes recipient_sk) (Hpke "recipient sk");
    enc ← ok_or (hpke_enc_from_bytes (takeN ENCAP_LEN ciphertext)) (Hpke "encapped key");
    ok_or (single_shot_open sk enc INFO (dropN ENCAP_LEN ciphertext) (aad dest)) (Hpke "open").

Definition seal_to_server (recipient_pk : key) (inner : InnerEnvelope) (rnd : key)
    : wresult OuterEnvelope :=
  let dest := server_id recipient_pk in
  plaintext ← encode_padded inner;
  ciphertext ← seal recipient_pk dest plaintext rnd;
  Ok (mk_outer dest ciphertext).

Definition seal_inner (recipient : HpkeKeypair) (inner : InnerEnvelope) (rnd : key)
    : wresult OuterEnvelope :=
  seal_to_server (public recipient) inner rnd.

Definition open_outer (recipient : HpkeKeypair) (outer : OuterEnvelope) : wresult InnerEnvelope :=
  if negb (bool_decide (destination_server_id outer = keypair_server_id recipient))
  then Err ServerIdMismatch
  else
    plaintext ← open (secret recipient) (destination_server_id outer) (hpke_ciphertext outer);
    decode_padded plaintext.
End WithCrypto.

(** ** Lemmas *)

Section Lemmas.
Context `{CryptoLaws}.

(** What was sealed to a generated key opens to the plaintext, for every
    destination id, and is 48 bytes longer. *)
Lemma open_seal seed dest plaintext rnd ct :
  seal (public (generate seed)) dest plaintext rnd = Ok ct ->
  open (secret (generate seed)) dest ct = Ok plaintext /\ lenN ct = lenN plaintext + 48.
Proof.
  unfold generate, seal. destruct (hpke_gen seed) as [sk pk] eqn:Hgen. cbn [public secret].
  destruct (hpke_pk_from_bytes pk) as [p|] eqn:Hpk; cbn; [|done].
  destruct (single_shot_seal p INFO plaintext (aad dest) rnd) as [[enc c]|] eqn:Hseal; cbn; [|done].
  intros; simplify_eq.
  destruct (hpke_open_sealed _ _ _ _ _ _ _ _ _ _ Hgen Hpk Hseal) as (s & e & Hs & He & Ho).
  pose proof (hpke_ct_len _ _ _ _ _ _ _ Hseal). pose proof (arr_len enc) as Henc.
  split; [|len_lia]. unfold open, ENCAP_LEN.
  destruct (N.ltb_spec (lenN (to_vec enc ++ c)) 32); [len_lia|].
  rewrite Hs, takeN_app_exact, dropN_app_exact by done. cbn. rewrite He. cbn. by rewrite Ho.
Qed.

Lemma outer_len_bound e : outer_len e <= A4_OUTER.
Proof.
  unfold outer_len, A1_OUTER, A2_OUTER, A3_OUTER, A4_OUTER, INNER_TEXT_OUTER.
  repeat case_cond; lia.
Qed.

Lemma seal_to_server_ok pk inner rnd o :
  seal_to_server pk inner rnd = Ok o ->
  destination_server_id o = server_id pk /\
  exists l, encode_padded inner = Ok l /\ seal pk (server_id pk) l rnd = Ok (hpke_ciphertext o).
Proof.
  unfold seal_to_server. intros (l & Hl & H1)%result_bind_ok.
  apply result_bind_ok in H1 as (ct & Hct & ?). simplify_eq. eauto.
Qed.

Lemma open_outer_sealed seed inner rnd o :
  seal_inner (generate seed) inner rnd = Ok o ->
  exists l, encode_padded inner = Ok l /\ open_outer (generate seed) o = decode_padded l
    /\ lenN (hpke_ciphertext o) = lenN l + 48.
Proof.
  intros (Hd & l & Hl & Hs)%seal_to_server_ok. exists l.
  destruct (open_seal _ _ _ _ _ Hs) as [Ho Hlen]. split_and!; [done | | done].
  unfold open_outer. rewrite bool_decide_eq_true_2 by done. cbn. by rewrite Hd, Ho.
Qed.
End Lemmas.
End Hpke.

(** ** Properties *)


Section Witness.
#[local] Existing Instances Toy.toy Toy.toy_laws.

End Witness.
