(* ===== verification/Card.v ===== *)
(** * Contact cards and home-server bindings

    [nemo-wire/src/card.rs]: the signed binding of an identity to its home
    server, the contact card that carries it, and its URI form. *)

From S2P Require Export Ids.
From S2P Require Import Toy.

(** ** Typed access to map fields

    [copy_fixed(cbor::expect_bytes(cbor::map_get(m, k)?)?)?] and the like. *)
Definition get_fixed (n : N) (m : list (N * Value)) (k : N) : wresult (arr n) :=
  v ← map_get m k; b ← expect_bytes v; copy_fixed n b.

Definition get_bytes (m : list (N * Value)) (k : N) : wresult bytes :=
  v ← map_get m k; expect_bytes v.

Definition get_text (m : list (N * Value)) (k : N) : wresult rstring :=
  v ← map_get m k; expect_text v.

Definition get_uint (m : list (N * Value)) (k : N) : wresult N :=
  v ← map_get m k; expect_uint v.

(** [let Value::Map(m) = cbor::decode(bytes)? else { return Err(..) }]. *)
Definition decode_map (what : message_text) (l : bytes) : wresult (list (N * Value)) :=
  v ← decode l;
  match v with Map m => Ok m | _ => Err (Cbor what) end.

(** [if version != PROTOCOL_VERSION as u64 { return Err(UnknownVersion(version)) }]. *)
Definition check_version (m : list (N * Value)) (k : N) : wresult unit :=
  version ← get_uint m k;
  ensure (version =? PROTOCOL_VERSION) (UnknownVersion version).

(** ** Bindings *)

Definition CARD_MAX_BYTES : N := 400.
Definition HOST_MAX_BYTES : N := 64.
Definition CLOCK_SKEW_SECS : N := 300.
Definition URI_PREFIX : rstring := lit "nemo:1:".

Record HomeServerBinding : Type := mk_binding {
  binding_server_id : key;
  server_hpke_public_key : key;
  host : rstring;
  b_seq : N;
  expires_at : N;
  binding_signature : sig64
}.

Definition validate_host (h : rstring) : wresult unit :=
  let l := as_bytes h in
  if (lenN l =? 0) || (HOST_MAX_BYTES <? lenN l) then Err BadHost
  else if contains x2f l || contains x3a l then Err BadHost
  else Ok tt.

Definition binding_unsigned (b : HomeServerBinding) : Value :=
  Map [(0, Bytes (to_vec (binding_server_id b)));
       (1, Bytes (to_vec (server_hpke_public_key b)));
       (2, Text (host b));
       (3, Uint (b_seq b));
       (4, Uint (expires_at b))].

(** [HomeServerBinding::unsigned_cbor]. *)
Definition binding_unsigned_cbor (b : HomeServerBinding) : bytes := encode (binding_unsigned b).

(** [HomeServerBinding::to_cbor_value]. *)
Definition binding_to_cbor_value (b : HomeServerBinding) : Value :=
  Map [(0, Bytes (to_vec (binding_server_id b)));
       (1, Bytes (to_vec (server_hpke_public_key b)));
       (2, Text (host b));
       (3, Uint (b_seq b));
       (4, Uint (expires_at b));
       (5, Bytes (to_vec (binding_signature b)))].

(** [HomeServerBinding::from_cbor_value]. *)
Definition binding_from_cbor_value (v : Value) : wresult HomeServerBinding :=
  m ← expect_map v;
  sid ← get_fixed KEY_LEN m 0;
  pk ← get_fixed KEY_LEN m 1;
  h ← get_text m 2;
  sq ← get_uint m 3;
  ex ← get_uint m 4;
  sg ← get_fixed SIG_LEN m 5;
  Ok (mk_binding sid pk h sq ex sg).

(** ** Cards *)

Record ContactCard : Type := mk_card {
  card_identity_public_key : key;
  card_revocation_public_key : key;
  share_token : key;
  card_binding : HomeServerBinding
}.

Definition card_value (c : ContactCard) : Value :=
  Map [(0, Uint PROTOCOL_VERSION);
       (1, Bytes (to_vec (card_identity_public_key c)));
       (2, Bytes (to_vec (card_revocation_public_key c)));
       (3, Bytes (to_vec (share_token c)));
       (4, binding_to_cbor_value (card_binding c))].

(** [ContactCard::encode]. *)
Definition card_encode (c : ContactCard) : wresult bytes :=
  let l := encode (card_value c) in
  if CARD_MAX_BYTES <? lenN l then Err CardTooLarge else Ok l.

(** [ContactCard::decode]. *)
Definition card_decode (l : bytes) : wresult ContactCard :=
  if CARD_MAX_BYTES <? lenN l then Err CardTooLarge
  else
    m ← decode_map "card must be a map" l;
    check_version m 0;;
    ik ← get_fixed KEY_LEN m 1;
    rk ← get_fixed KEY_LEN m 2;
    tok ← get_fixed KEY_LEN m 3;
    v ← map_get m 4;
    b ← binding_from_cbor_value v;
    Ok (mk_card ik rk tok b).

Section WithCrypto.
Context `{Crypto}.

(** [HomeServerBinding::sign]. *)
Definition binding_sign (sk : SigningKey) (b : HomeServerBinding) : wresult HomeServerBinding :=
  validate_host (host b);;
  if negb (bool_decide (binding_server_id b = server_id (server_hpke_public_key b)))
  then Err ServerIdMismatch
  else
    sg ← Sign.sign sk Sign.HOME_SERVER_BINDING (binding_unsigned_cbor b);
    Ok (mk_binding (binding_server_id b) (server_hpke_public_key b) (host b) (b_seq b)
          (expires_at b) sg).

(** [HomeServerBinding::verify]; the sum [expires_at + CLOCK_SKEW_SECS] wraps. *)
Definition binding_verify (b : HomeServerBinding) (identity_pk : VerifyingKey) (now_unix : N)
    : wresult unit :=
  validate_host (host b);;
  if negb (bool_decide (binding_server_id b = server_id (server_hpke_public_key b)))
  then Err ServerIdMismatch
  else if u64_add (expires_at b) CLOCK_SKEW_SECS <? now_unix then Err BindingExpired
  else Sign.verify identity_pk Sign.HOME_SERVER_BINDING (binding_unsigned_cbor b)
         (binding_signature b).

Definition card_identity_id (c : ContactCard) : key := identity_id (card_identity_public_key c).

(** [ContactCard::to_uri]. *)
Definition card_to_uri (c : ContactCard) : wresult rstring :=
  l ← card_encode c; Ok (str_cat URI_PREFIX (b64_encode l)).

(** [ContactCard::from_uri]. *)
Definition card_from_uri (uri : rstring) : wresult ContactCard :=
  rest ← ok_or (strip_prefix URI_PREFIX uri) (Uri "missing nemo:1: prefix");
  l ← ok_or (b64_decode rest) (Uri "base64url");
  card_decode l.

(** [ContactCard::verify]. *)
Definition card_verify (c : ContactCard) (now_unix : N) : wresult unit :=
  pk ← ok_or (vk_from_bytes (card_identity_public_key c)) Signature;
  binding_verify (card_binding c) pk now_unix.
End WithCrypto.

(** ** Lemmas *)

(** Bytes that [write_head] writes. *)
Definition head_size (n : N) : N :=
  if n <? 24 then 1 else if n <=? U8_MAX then 2 else if n <=? U16_MAX then 3
  else if n <=? U32_MAX then 5 else 9.

Lemma lenN_write_head major n : lenN (write_head major n) = head_size n.
Proof. unfold write_head, head_size. repeat case_cond; len_lia. Qed.

Lemma head_size_bound n : head_size n <= 9.
Proof. unfold head_size. repeat case_cond; lia. Qed.

Lemma cbor_encode_inj v w : wf_value v = true -> wf_value w = true -> encode v = encode w -> v = w.
Proof.
  intros Hv%decode_encode_wf Hw%decode_encode_wf He. rewrite He, Hw in Hv. congruence.
Qed.

Lemma decode_map_encode what m :
  wf_value (Map m) = true -> decode_map what (encode (Map m)) = Ok m.
Proof. intros H. unfold decode_map. by rewrite decode_encode_wf. Qed.

(** Decides well-formedness of the protocol's map values. *)
Ltac solve_wf :=
  cbn -[N.leb lenN to_vec as_bytes U64_MAX]; rewrite ?arr_len;
  repeat (apply andb_true_intro; split); first [reflexivity | apply N.leb_le; ilia | idtac].

(** The integer fields fit [u64] and the host's length fits [usize]. *)
Definition binding_fits (b : HomeServerBinding) : Prop :=
  b_seq b <= U64_MAX /\ expires_at b <= U64_MAX /\ lenN (as_bytes (host b)) <= U64_MAX.

Lemma binding_value_wf b : binding_fits b -> wf_value (binding_to_cbor_value b) = true.
Proof. intros (? & ? & ?). solve_wf. Qed.

Lemma binding_unsigned_wf b : binding_fits b -> wf_value (binding_unsigned b) = true.
Proof. intros (? & ? & ?). solve_wf. Qed.

Lemma binding_value_roundtrip b : binding_from_cbor_value (binding_to_cbor_value b) = Ok b.
Proof.
  destruct b. unfold binding_from_cbor_value, get_fixed, get_text, get_uint. cbn -[to_vec copy_fixed].
  repeat (rewrite copy_fixed_to_vec; cbn -[to_vec copy_fixed]). reflexivity.
Qed.

Lemma validate_host_ok h : validate_host h = Ok tt -> 0 < lenN (as_bytes h) <= 64.
Proof.
  unfold validate_host, HOST_MAX_BYTES. repeat case_cond; intros; simplify_eq.
  apply orb_false_iff in G as [?%N.eqb_neq ?%N.ltb_ge]. lia.
Qed.

Lemma card_value_wf c : binding_fits (card_binding c) -> wf_value (card_value c) = true.
Proof.
  intros H%binding_value_wf. unfold card_value. cbn -[N.leb lenN to_vec U64_MAX binding_to_cbor_value].
  rewrite H, !arr_len. reflexivity.
Qed.

(** The size of an encoded card. *)
Lemma lenN_card c :
  let b := card_binding c in
  lenN (encode (card_value c)) =
  250 + (head_size (lenN (as_bytes (host b))) + lenN (as_bytes (host b)))
      + head_size (b_seq b) + head_size (expires_at b).
Proof.
  unfold encode, card_value, binding_to_cbor_value.
  cbn -[write_head to_vec lenN app as_bytes]. autorewrite with len. rewrite !lenN_write_head.
  change (1 + (1 + (1 + (1 + (1 + 0))))) with 5. change (1 + 5) with 6. change PROTOCOL_VERSION with 1.
  change (head_size 0) with 1. change (head_size 1) with 1. change (head_size 2) with 1.
  change (head_size 3) with 1. change (head_size 4) with 1. change (head_size 5) with 1.
  change (head_size 6) with 1. change (head_size 32) with 2. change (head_size 64) with 2. lia.
Qed.

Lemma card_encode_ok c :
  validate_host (host (card_binding c)) = Ok tt ->
  card_encode c = Ok (encode (card_value c)) /\ lenN (encode (card_value c)) <= 334.
Proof.
  intros Hh%validate_host_ok. pose proof (lenN_card c) as Hl. cbv zeta in Hl.
  pose proof (head_size_bound (b_seq (card_binding c))).
  pose proof (head_size_bound (expires_at (card_binding c))).
  assert (head_size (lenN (as_bytes (host (card_binding c)))) <= 2)
    by (unfold head_size, U8_MAX; repeat case_cond; lia).
  split; [|lia]. unfold card_encode, CARD_MAX_BYTES. case_cond; [lia | done].
Qed.

Lemma card_decode_encode c l :
  binding_fits (card_binding c) -> card_encode c = Ok l -> card_decode l = Ok c.
Proof.
  intros Hf. unfold card_encode, card_decode. case_cond; [done|]. intros [= <-].
  rewrite G. unfold card_value at 1. rewrite decode_map_encode by by apply card_value_wf.
  cbn -[to_vec copy_fixed binding_to_cbor_value binding_from_cbor_value].
  unfold get_fixed. cbn -[to_vec copy_fixed binding_to_cbor_value binding_from_cbor_value].
  rewrite !copy_fixed_to_vec. cbn -[to_vec binding_to_cbor_value binding_from_cbor_value].
  rewrite binding_value_roundtrip. by destruct c.
Qed.

Section Lemmas.
Context `{CryptoLaws}.

Lemma card_uri_roundtrip c u :
  binding_fits (card_binding c) -> card_to_uri c = Ok u -> card_from_uri u = Ok c.
Proof.
  intros Hf (l & Hl & Hu)%result_bind_ok. simplify_eq. unfold card_from_uri.
  rewrite strip_prefix_cat. cbn. rewrite b64_roundtrip. cbn. by apply card_decode_encode.
Qed.

Lemma binding_sign_ok sk b b' :
  binding_sign sk b = Ok b' ->
  validate_host (host b) = Ok tt
  /\ binding_server_id b = server_id (server_hpke_public_key b)
  /\ exists sg, Sign.sign sk Sign.HOME_SERVER_BINDING (binding_unsigned_cbor b) = Ok sg
      /\ b' = mk_binding (binding_server_id b) (server_hpke_public_key b) (host b) (b_seq b)
                (expires_at b) sg.
Proof.
  unfold binding_sign. intros ([] & Hh & H1)%result_bind_ok. split; [done|].
  case_cond; [done|]. apply negb_false_iff, bool_decide_eq_true in G.
  apply result_bind_ok in H1 as (sg & Hs & Heq). simplify_eq. eauto.
Qed.

Lemma binding_verify_ok b pk now :
  binding_verify b pk now = Ok tt <->
  validate_host (host b) = Ok tt
  /\ binding_server_id b = server_id (server_hpke_public_key b)
  /\ now <= u64_add (expires_at b) CLOCK_SKEW_SECS
  /\ Sign.verify pk Sign.HOME_SERVER_BINDING (binding_unsigned_cbor b) (binding_signature b) = Ok tt.
Proof.
  unfold binding_verify. destruct (validate_host _) as [[]|]; cbn; [|naive_solver].
  case_bool_decide; cbn; [|naive_solver].
  destruct (N.ltb_spec (u64_add (expires_at b) CLOCK_SKEW_SECS) now).
  - split; [done|]. intros (_ & _ & ? & _). lia.
  - naive_solver.
Qed.
End Lemmas.

(** ** Properties *)

(** A card with a valid host always fits: it encodes to at most 334 of the
    400 allowed bytes, and both its binary and its URI form decode to the same
    card. *)
Theorem card_roundtrip `{CryptoLaws} c :
  validate_host (host (card_binding c)) = Ok tt ->
  b_seq (card_binding c) <= U64_MAX -> expires_at (card_binding c) <= U64_MAX ->
  exists l u, card_encode c = Ok l /\ lenN l <= 334 /\ card_decode l = Ok c
    /\ card_to_uri c = Ok u /\ card_from_uri u = Ok c.
Proof.
  intros Hh Hs He. pose proof (validate_host_ok _ Hh).
  assert (binding_fits (card_binding c)) as Hf by (unfold binding_fits; ilia).
  destruct (card_encode_ok c Hh) as [Henc Hlen].
  assert (card_to_uri c = Ok (str_cat URI_PREFIX (b64_encode (encode (card_value c))))) as Hu
    by (unfold card_to_uri; by rewrite Henc).
  do 2 eexists. split_and!; eauto using card_decode_encode, card_uri_roundtrip.
Qed.

(** A card built from a signed binding is accepted until its expiry plus
    the allowed clock skew (sums below [2^64]), under the key that signed it. *)
Theorem signed_card_verifies `{CryptoLaws} sk b b' rk tok now :
  binding_sign sk b = Ok b' -> expires_at b + CLOCK_SKEW_SECS <= U64_MAX ->
  let c := mk_card (vk_to_bytes (verifying_key sk)) rk tok b' in
  card_verify c now = (if expires_at b + CLOCK_SKEW_SECS <? now then Err BindingExpired else Ok tt).
Proof.
  intros (Hh & Hid & sg & Hsg & ->)%binding_sign_ok Hex c. unfold c, card_verify, binding_verify. cbn.
  rewrite vk_bytes_roundtrip. cbn. rewrite Hh. cbn. rewrite bool_decide_eq_true_2 by done. cbn.
  replace (u64_add (expires_at b) CLOCK_SKEW_SECS) with (expires_at b + CLOCK_SKEW_SECS)
    by (unfold u64_add, U64_MAX in *; rewrite N.mod_small; lia).
  case_cond; [done|]. by apply Sign.sign_verify.
Qed.

(** What an accepted card guarantees: a usable host, a server id that is the
    hash of the server's key, an unexpired binding, and a signature by the
    card's identity over a message that no other binding, and no other kind of
    signed object, produces. *)
Theorem card_verify_sound `{CryptoLaws} c now :
  card_verify c now = Ok tt -> binding_fits (card_binding c) ->
  let b := card_binding c in
  0 < lenN (as_bytes (host b)) <= HOST_MAX_BYTES
  /\ binding_server_id b = server_id (server_hpke_public_key b)
  /\ now <= u64_add (expires_at b) CLOCK_SKEW_SECS
  /\ exists pk msg, vk_from_bytes (card_identity_public_key c) = Some pk
      /\ ed_verify pk msg (binding_signature b) = true
      /\ (forall ctx b2, ctx ∈ Sign.contexts -> binding_fits b2 ->
            Sign.message ctx (binding_unsigned_cbor b2) = Ok msg ->
            ctx = Sign.HOME_SERVER_BINDING /\ binding_unsigned b2 = binding_unsigned b).
Proof.
  unfold card_verify. destruct (vk_from_bytes _) as [pk|] eqn:Hpk; cbn -[binding_verify]; [|done].
  intros Hv Hf. set (b := card_binding c) in *. apply binding_verify_ok in Hv as (Hh & Hid & Hnow & Hsg).
  split_and!; [apply (validate_host_ok _ Hh).. | done | done |].
  unfold Sign.verify in Hsg. apply result_bind_ok in Hsg as (msg & Hm & Hs).
  exists pk, msg. split_and!; [done | by destruct (ed_verify _ _ _) |].
  intros ctx b2 Hctx Hf2 Hm2.
  destruct (Sign.message_contexts_inj _ _ _ _ _ Hctx Sign.binding_context Hm2 Hm) as [-> Heq].
  split; [done|]. apply cbor_encode_inj; auto using binding_unsigned_wf.
Qed.

(** Sample data for the witnesses: a binding and a card under the toy
    instance. *)
Section Witness.
#[local] Existing Instances Toy.toy Toy.toy_laws.

Definition sample_sk : SigningKey := arr_repeat 32 x11.

Definition sample_binding : HomeServerBinding :=
  mk_binding (server_id (arr_repeat 32 x22)) (arr_repeat 32 x22) (lit "home.example")
    1 2000000000 (arr_repeat 64 x00).

Definition sample_signed : HomeServerBinding :=
  match binding_sign sample_sk sample_binding with Ok b => b | Err _ => sample_binding end.

Definition sample_card : ContactCard :=
  mk_card (vk_to_bytes (verifying_key sample_sk)) (arr_repeat 32 x33) (arr_repeat 32 x44) sample_signed.

Example card_roundtrip_witness :
  exists l u, card_encode sample_card = Ok l /\ lenN l <= 334 /\ card_decode l = Ok sample_card
    /\ card_to_uri sample_card = Ok u /\ card_from_uri u = Ok sample_card.
Proof. apply (card_roundtrip sample_card); [reflexivity | vm_compute; discriminate..]. Defined.

Example signed_card_verifies_witness : card_verify sample_card 2000000300 = Ok tt.
Proof.
  apply (signed_card_verifies sample_sk sample_binding sample_signed (arr_repeat 32 x33)
    (arr_repeat 32 x44) 2000000300); [vm_compute; reflexivity | vm_compute; discriminate].
Defined.

Example card_verify_sound_witness :
  binding_server_id sample_signed = server_id (server_hpke_public_key sample_signed).
Proof.
  destruct (card_verify_sound sample_card 5) as (_ & Hid & _);
    [vm_compute; reflexivity | unfold binding_fits; split_and!; vm_compute; discriminate | exact Hid].
Defined.
End Witness.
