(* ===== verification/Records.v ===== *)
(** * Signed records of the discovery service

    [nemo-wire/src/revocation.rs], [prekey.rs] and [discovery.rs]: the
    revocation statement, the signed prekey and the discovery row that carries
    a binding and an optional revocation. *)

From S2P Require Export Card.
From S2P Require Import Toy.

(** ** Revocation statements *)

Record RevocationStatement : Type := mk_revocation {
  revoked_identity_id : key;
  coarse_timestamp : N;
  revocation_signature : sig64
}.

Definition revocation_unsigned (s : RevocationStatement) : Value :=
  Map [(0, Uint PROTOCOL_VERSION);
       (1, Bytes (to_vec (revoked_identity_id s)));
       (2, Text (lit "revoked"));
       (3, Uint (coarse_timestamp s))].

Definition revocation_unsigned_cbor (s : RevocationStatement) : bytes :=
  encode (revocation_unsigned s).

Definition revocation_value (s : RevocationStatement) : Value :=
  Map [(0, Uint PROTOCOL_VERSION);
       (1, Bytes (to_vec (revoked_identity_id s)));
       (2, Text (lit "revoked"));
       (3, Uint (coarse_timestamp s));
       (4, Bytes (to_vec (revocation_signature s)))].

(** [RevocationStatement::encode]. *)
Definition revocation_encode (s : RevocationStatement) : bytes := encode (revocation_value s).

(** [RevocationStatement::decode]. *)
Definition revocation_decode (l : bytes) : wresult RevocationStatement :=
  m ← decode_map "revocation must be a map" l;
  check_version m 0;;
  status ← get_text m 2;
  ensure (bool_decide (as_bytes status = as_bytes (lit "revoked"))) BadRevocationStatus;;
  id ← get_fixed ID_LEN m 1;
  ts ← get_uint m 3;
  sg ← get_fixed SIG_LEN m 4;
  Ok (mk_revocation id ts sg).

(** ** Signed prekeys *)

Record SignedPrekey : Type := mk_prekey {
  prekey_identity_public_key : key;
  prekey_id : N;
  libsignal_prekey : bytes;
  prekey_signature : sig64
}.

Definition prekey_unsigned (p : SignedPrekey) : Value :=
  Map [(0, Uint PROTOCOL_VERSION);
       (1, Bytes (to_vec (prekey_identity_public_key p)));
       (2, Uint (prekey_id p));
       (3, Bytes (libsignal_prekey p))].

Definition prekey_unsigned_cbor (p : SignedPrekey) : bytes := encode (prekey_unsigned p).

Definition prekey_value (p : SignedPrekey) : Value :=
  Map [(0, Uint PROTOCOL_VERSION);
       (1, Bytes (to_vec (prekey_identity_public_key p)));
       (2, Uint (prekey_id p));
       (3, Bytes (libsignal_prekey p));
       (4, Bytes (to_vec (prekey_signature p)))].

(** [SignedPrekey::encode]. *)
Definition prekey_encode (p : SignedPrekey) : bytes := encode (prekey_value p).

(** [SignedPrekey::decode]. *)
Definition prekey_decode (l : bytes) : wresult SignedPrekey :=
  m ← decode_map "prekey must be a map" l;
  check_version m 0;;
  ik ← get_fixed KEY_LEN m 1;
  pid ← get_uint m 2;
  blob ← get_bytes m 3;
  sg ← get_fixed SIG_LEN m 4;
  Ok (mk_prekey ik pid blob sg).

(** ** Discovery rows *)

Record DiscoveryRecord : Type := mk_discovery {
  disc_identity_public_key : key;
  disc_revocation_public_key : key;
  disc_binding : HomeServerBinding;
  disc_revocation : option RevocationStatement
}.

Definition discovery_value (d : DiscoveryRecord) : Value :=
  Map ([(0, Uint PROTOCOL_VERSION);
        (1, Bytes (to_vec (disc_identity_public_key d)));
        (2, Bytes (to_vec (disc_revocation_public_key d)));
        (3, binding_to_cbor_value (disc_binding d))]
       ++ match disc_revocation d with
          | Some stmt => [(4, Bytes (revocation_encode stmt))]
          | None => []
          end).

(** [DiscoveryRecord::encode]. *)
Definition discovery_encode (d : DiscoveryRecord) : bytes := encode (discovery_value d).

(** [DiscoveryRecord::decode]. *)
Definition discovery_decode (l : bytes) : wresult DiscoveryRecord :=
  m ← decode_map "discovery must be a map" l;
  check_version m 0;;
  rev ← match map_get_opt m 4 with
        | Some v => b ← expect_bytes v; s ← revocation_decode b; Ok (Some s)
        | None => Ok None
        end;
  ik ← get_fixed KEY_LEN m 1;
  rk ← get_fixed KEY_LEN m 2;
  v ← map_get m 3;
  b ← binding_from_cbor_value v;
  Ok (mk_discovery ik rk b rev).

Section WithCrypto.
Context `{Crypto}.

(** [RevocationStatement::sign]. *)
Definition revocation_sign (revocation_sk : SigningKey) (id : key) (ts : N)
    : wresult RevocationStatement :=
  let stmt := mk_revocation id ts (arr_repeat 64 x00) in
  sg ← Sign.sign revocation_sk Sign.REVOCATION (revocation_unsigned_cbor stmt);
  Ok (mk_revocation id ts sg).

(** [RevocationStatement::verify]. *)
Definition revocation_verify (s : RevocationStatement) (revocation_pk : VerifyingKey) : wresult unit :=
  Sign.verify revocation_pk Sign.REVOCATION (revocation_unsigned_cbor s) (revocation_signature s).

(** [RevocationStatement::verifying_key]. *)
Definition revocation_verifying_key (revocation_public_key : key) : wresult VerifyingKey :=
  ok_or (vk_from_bytes revocation_public_key) Signature.

(** [SignedPrekey::sign]. *)
Definition prekey_sign (identity_sk : SigningKey) (pid : N) (blob : bytes) : wresult SignedPrekey :=
  let ik := vk_to_bytes (verifying_key identity_sk) in
  let p := mk_prekey ik pid blob (arr_repeat 64 x00) in
  sg ← Sign.sign identity_sk Sign.PREKEY (prekey_unsigned_cbor p);
  Ok (mk_prekey ik pid blob sg).

(** [SignedPrekey::verify]. *)
Definition prekey_verify (p : SignedPrekey) (pinned_identity : VerifyingKey) : wresult unit :=
  if negb (bool_decide (prekey_identity_public_key p = vk_to_bytes pinned_identity))
  then Err Signature
  else Sign.verify pinned_identity Sign.PREKEY (prekey_unsigned_cbor p) (prekey_signature p).
End WithCrypto.

(** ** Lemmas *)

Lemma revocation_value_wf s : coarse_timestamp s <= U64_MAX -> wf_value (revocation_value s) = true.
Proof. intros. solve_wf. Qed.

Lemma prekey_value_wf p :
  prekey_id p <= U64_MAX -> lenN (libsignal_prekey p) <= U64_MAX -> wf_value (prekey_value p) = true.
Proof. intros. solve_wf. Qed.

(** Evaluates the field reads of a decoder on a map of the protocol. *)
Ltac read_fields :=
  unfold check_version, get_fixed, get_bytes, get_text, get_uint;
  cbn -[to_vec copy_fixed binding_to_cbor_value binding_from_cbor_value revocation_decode revocation_encode];
  rewrite ?copy_fixed_to_vec;
  cbn -[to_vec copy_fixed binding_to_cbor_value binding_from_cbor_value revocation_decode revocation_encode].

Lemma revocation_decode_encode s :
  coarse_timestamp s <= U64_MAX -> revocation_decode (revocation_encode s) = Ok s.
Proof.
  intros H%revocation_value_wf. unfold revocation_decode, revocation_encode.
  unfold revocation_value in *. rewrite decode_map_encode by done. read_fields. by destruct s.
Qed.

Lemma prekey_decode_encode p :
  prekey_id p <= U64_MAX -> lenN (libsignal_prekey p) <= U64_MAX ->
  prekey_decode (prekey_encode p) = Ok p.
Proof.
  intros Hi Hl. pose proof (prekey_value_wf _ Hi Hl). unfold prekey_decode, prekey_encode.
  unfold prekey_value in *. rewrite decode_map_encode by done. read_fields. by destruct p.
Qed.

Lemma lenN_revocation_encode s : lenN (revocation_encode s) <= 200.
Proof.
  unfold revocation_encode, encode, revocation_value.
  cbn -[write_head to_vec lenN app]. autorewrite with len. rewrite !lenN_write_head.
  pose proof (head_size_bound (coarse_timestamp s)).
  repeat match goal with
  | |- context [head_size ?n] =>
      lazymatch n with coarse_timestamp _ => fail | _ =>
        let v := eval vm_compute in (head_size n) in
        lazymatch v with Npos _ => change (head_size n) with v end end
  end. cbn [lenN length]. ilia.
Qed.

Lemma discovery_value_wf d :
  binding_fits (disc_binding d) -> wf_value (discovery_value d) = true.
Proof.
  intros H%binding_value_wf. unfold discovery_value.
  destruct (disc_revocation d) as [s|];
    cbn -[N.leb lenN to_vec U64_MAX binding_to_cbor_value revocation_encode]; rewrite H, !arr_len.
  - assert (lenN (revocation_encode s) <=? U64_MAX = true) as ->
      by (pose proof (lenN_revocation_encode s); apply N.leb_le; ilia). reflexivity.
  - reflexivity.
Qed.

Lemma discovery_decode_encode d :
  binding_fits (disc_binding d) ->
  (forall s, disc_revocation d = Some s -> coarse_timestamp s <= U64_MAX) ->
  discovery_decode (discovery_encode d) = Ok d.
Proof.
  intros Hb Hs. pose proof (discovery_value_wf d Hb) as Hwf.
  unfold discovery_decode, discovery_encode. unfold discovery_value in *.
  rewrite decode_map_encode by done. destruct d as [ik rk b [s|]].
  - read_fields. rewrite revocation_decode_encode by by apply Hs. cbn -[to_vec binding_to_cbor_value
      binding_from_cbor_value]. by rewrite binding_value_roundtrip.
  - read_fields. by rewrite binding_value_roundtrip.
Qed.

(** ** Properties *)

(** Discovery rows survive the wire, with and without a revocation: the
    client decodes exactly the keys, binding and statement that the server
    stored. *)
Theorem discovery_record_roundtrip d :
  binding_fits (disc_binding d) ->
  (forall s, disc_revocation d = Some s -> coarse_timestamp s <= U64_MAX) ->
  discovery_decode (discovery_encode d) = Ok d.
Proof. apply discovery_decode_encode. Qed.

Example discovery_record_roundtrip_witness :
  discovery_decode (discovery_encode
    (mk_discovery (arr_repeat 32 x01) (arr_repeat 32 x02) sample_signed
       (Some (mk_revocation (arr_repeat 32 x03) 1700000000 (arr_repeat 64 x04)))))
  = Ok (mk_discovery (arr_repeat 32 x01) (arr_repeat 32 x02) sample_signed
         (Some (mk_revocation (arr_repeat 32 x03) 1700000000 (arr_repeat 64 x04)))).
Proof.
  apply discovery_record_roundtrip.
  - unfold binding_fits. split_and!; vm_compute; discriminate.
  - intros s [= <-]. vm_compute. discriminate.
Defined.

(** Signed records: a revocation or a prekey that a key signed survives the
    wire and verifies under that key, and a prekey is refused with [Signature]
    when it is pinned to any other identity. *)
Theorem signed_records_verify `{CryptoLaws} sk id ts pid blob s p :
  ts <= U64_MAX -> pid <= U64_MAX -> lenN blob <= U64_MAX ->
  revocation_sign sk id ts = Ok s -> prekey_sign sk pid blob = Ok p ->
  revocation_decode (revocation_encode s) = Ok s
  /\ revocation_verify s (verifying_key sk) = Ok tt
  /\ prekey_decode (prekey_encode p) = Ok p
  /\ (forall pinned, prekey_verify p pinned =
        if bool_decide (vk_to_bytes pinned = vk_to_bytes (verifying_key sk))
        then Ok tt else Err Signature).
Proof.
  intros Ht Hp Hb (sg & Hs & Heq)%result_bind_ok (sg' & Hs' & Heq')%result_bind_ok. simplify_eq.
  split_and!; [by apply revocation_decode_encode | by apply Sign.sign_verify
    | by apply prekey_decode_encode |].
  intros pinned. unfold prekey_verify. cbn.
  destruct (decide (vk_to_bytes pinned = vk_to_bytes (verifying_key sk))) as [Heq|Hne].
  - rewrite !bool_decide_eq_true_2 by done. cbn.
    assert (pinned = verifying_key sk) as ->
      by (pose proof (vk_bytes_roundtrip pinned); rewrite Heq, vk_bytes_roundtrip in *; congruence).
    by apply Sign.sign_verify.
  - by rewrite !bool_decide_eq_false_2 by congruence.
Qed.

Section Witness.
#[local] Existing Instances Toy.toy Toy.toy_laws.

Example signed_records_verify_witness :
  exists s, revocation_sign sample_sk (arr_repeat 32 x05) 7 = Ok s
            /\ revocation_decode (revocation_encode s) = Ok s.
Proof.
  eexists. split; [reflexivity|].
  eapply (signed_records_verify sample_sk (arr_repeat 32 x05) 7 9 [x01]);
    [vm_compute; discriminate.. | reflexivity | reflexivity].
Defined.
End Witness.
