(* ===== verification/Join.v ===== *)
(** * Group invites, admits and invitee proofs

    [nemo-wire/src/join.rs] (ADR-0018): the signed objects of the join flow and
    the admitter's check of a bound invite. *)

From S2P Require Export Records.
From S2P Require Import Toy.

Definition INTRO_TTL_5_MIN : N := 5 * 60.
Definition INTRO_TTL_30_MIN : N := 30 * 60.
Definition INTRO_TTL_1_HOUR : N := 60 * 60.

Definition allowed_intro_ttl (ttl : N) : bool :=
  (ttl =? INTRO_TTL_5_MIN) || (ttl =? INTRO_TTL_30_MIN) || (ttl =? INTRO_TTL_1_HOUR).

Record GroupInvite : Type := mk_invite {
  invite_group_id : key;
  invite_nonce : key;
  invite_ttl_secs : N;
  invite_binding : option key;
  invite_salt : option key;
  invite_signature : sig64
}.

(** [GroupInvite::payload_map]. *)
Definition invite_payload_map (i : GroupInvite) : list (N * Value) :=
  [(0, Uint PROTOCOL_VERSION);
   (1, Bytes (to_vec (invite_group_id i)));
   (2, Bytes (to_vec (invite_nonce i)));
   (3, Uint (invite_ttl_secs i))]
  ++ match invite_binding i with Some b => [(4, Bytes (to_vec b))] | None => [] end
  ++ match invite_salt i with Some s => [(5, Bytes (to_vec s))] | None => [] end.

(** [GroupInvite::payload]. *)
Definition invite_payload (i : GroupInvite) : bytes := encode (Map (invite_payload_map i)).

(** [GroupInvite::encode]. *)
Definition invite_encode (i : GroupInvite) : bytes :=
  encode (Map (invite_payload_map i ++ [(6, Bytes (to_vec (invite_signature i)))])).

(** An optional fixed-size field. *)
Definition get_fixed_opt (n : N) (m : list (N * Value)) (k : N) : wresult (option (arr n)) :=
  match map_get_opt m k with
  | Some v => b ← expect_bytes v; a ← copy_fixed n b; Ok (Some a)
  | None => Ok None
  end.

(** [GroupInvite::decode]. *)
Definition invite_decode (l : bytes) : wresult GroupInvite :=
  m ← decode_map "group-invite must be a map" l;
  check_version m 0;;
  gid ← get_fixed KEY_LEN m 1;
  nonce ← get_fixed KEY_LEN m 2;
  ttl ← get_uint m 3;
  bind ← get_fixed_opt KEY_LEN m 4;
  salt ← get_fixed_opt KEY_LEN m 5;
  sg ← get_fixed SIG_LEN m 6;
  Ok (mk_invite gid nonce ttl bind salt sg).

Record GroupAdmit : Type := mk_admit {
  admit_group_id : key;
  admit_pending_id : key;
  admit_signature : sig64
}.

Definition admit_payload_map (group_id pending_id : key) : list (N * Value) :=
  [(0, Uint PROTOCOL_VERSION);
   (1, Bytes (to_vec group_id));
   (2, Bytes (to_vec pending_id));
   (3, Text (lit "admit"))].

(** [GroupAdmit::payload]. *)
Definition admit_payload (group_id pending_id : key) : bytes :=
  encode (Map (admit_payload_map group_id pending_id)).

(** [GroupAdmit::encode]. *)
Definition admit_encode (a : GroupAdmit) : bytes :=
  encode (Map (admit_payload_map (admit_group_id a) (admit_pending_id a)
               ++ [(4, Bytes (to_vec (admit_signature a)))])).

(** [GroupAdmit::decode]. *)
Definition admit_decode (l : bytes) : wresult GroupAdmit :=
  m ← decode_map "group-admit must be a map" l;
  check_version m 0;;
  s ← get_text m 3;
  ensure (bool_decide (as_bytes s = as_bytes (lit "admit"))) (Cbor "expected admit");;
  gid ← get_fixed KEY_LEN m 1;
  pid ← get_fixed KEY_LEN m 2;
  sg ← get_fixed SIG_LEN m 4;
  Ok (mk_admit gid pid sg).

Record InviteeProof : Type := mk_proof {
  proof_group_id : key;
  proof_pending_id : key;
  proof_signature : sig64
}.

Definition proof_payload_map (group_id pending_id : key) : list (N * Value) :=
  [(0, Uint PROTOCOL_VERSION);
   (1, Bytes (to_vec group_id));
   (2, Bytes (to_vec pending_id))].

(** [InviteeProof::payload]. *)
Definition proof_payload (group_id pending_id : key) : bytes :=
  encode (Map (proof_payload_map group_id pending_id)).

(** [InviteeProof::encode]. *)
Definition proof_encode (p : InviteeProof) : bytes :=
  encode (Map (proof_payload_map (proof_group_id p) (proof_pending_id p)
               ++ [(3, Bytes (to_vec (proof_signature p)))])).

(** [InviteeProof::decode]. *)
Definition proof_decode (l : bytes) : wresult InviteeProof :=
  m ← decode_map "invitee-proof must be a map" l;
  check_version m 0;;
  gid ← get_fixed KEY_LEN m 1;
  pid ← get_fixed KEY_LEN m 2;
  sg ← get_fixed SIG_LEN m 3;
  Ok (mk_proof gid pid sg).

Section WithCrypto.
Context `{Crypto}.

Definition invitee_binding (identity_public_key salt : key) : key :=
  sha256 (to_vec identity_public_key ++ to_vec salt).

(** [GroupInvite::sign]. *)
Definition invite_sign (member_sk : SigningKey) (group_id nonce : key) (ttl : N)
    (bind : option (key * key)) : wresult GroupInvite :=
  if negb (allowed_intro_ttl ttl) then Err (Cbor "intro ttl must be 5m, 30m, or 1h")
  else
    let i := mk_invite group_id nonce ttl (fst <$> bind) (snd <$> bind) (arr_repeat 64 x00) in
    sg ← Sign.sign member_sk Sign.GROUP_INVITE (invite_payload i);
    Ok (mk_invite group_id nonce ttl (fst <$> bind) (snd <$> bind) sg).

(** [GroupInvite::verify]. *)
Definition invite_verify (i : GroupInvite) (member_pk : VerifyingKey) : wresult unit :=
  if negb (allowed_intro_ttl (invite_ttl_secs i)) then Err (Cbor "intro ttl must be 5m, 30m, or 1h")
  else if negb (Bool.eqb (bool_decide (is_Some (invite_binding i))) (bool_decide (is_Some (invite_salt i))))
  then Err (Cbor "bound invite needs binding and salt")
  else Sign.verify member_pk Sign.GROUP_INVITE (invite_payload i) (invite_signature i).

(** [GroupAdmit::sign]. *)
Definition admit_sign (member_sk : SigningKey) (group_id pending_id : key) : wresult GroupAdmit :=
  sg ← Sign.sign member_sk Sign.GROUP_ADMIT (admit_payload group_id pending_id);
  Ok (mk_admit group_id pending_id sg).

(** [GroupAdmit::verify]. *)
Definition admit_verify (a : GroupAdmit) (member_pk : VerifyingKey) : wresult unit :=
  Sign.verify member_pk Sign.GROUP_ADMIT (admit_payload (admit_group_id a) (admit_pending_id a))
    (admit_signature a).

(** [InviteeProof::sign]. *)
Definition proof_sign (identity_sk : SigningKey) (group_id pending_id : key) : wresult InviteeProof :=
  sg ← Sign.sign identity_sk Sign.INVITEE_PROOF (proof_payload group_id pending_id);
  Ok (mk_proof group_id pending_id sg).

(** [InviteeProof::verify]. *)
Definition proof_verify (p : InviteeProof) (identity_pk : VerifyingKey) : wresult unit :=
  Sign.verify identity_pk Sign.INVITEE_PROOF
    (proof_payload (proof_group_id p) (proof_pending_id p)) (proof_signature p).

Definition verify_bound_invite (invite : GroupInvite) (proof : InviteeProof)
    (identity_pk : VerifyingKey) : wresult unit :=
  match invite_binding invite, invite_salt invite with
  | Some want, Some salt =>
      if negb (bool_decide (proof_group_id proof = invite_group_id invite))
      then Err (Cbor "proof group_id mismatch")
      else
        proof_verify proof identity_pk;;
        let got := invitee_binding (vk_to_bytes identity_pk) salt in
        ensure (bool_decide (got = want)) Signature
  | _, _ => Err (Cbor "invite is not bound")
  end.
End WithCrypto.

(** ** Lemmas *)

Lemma invite_wf i :
  invite_ttl_secs i <= U64_MAX ->
  wf_value (Map (invite_payload_map i ++ [(6, Bytes (to_vec (invite_signature i)))])) = true.
Proof.
  intros Ht%N.leb_le. unfold invite_payload_map. destruct (invite_binding i), (invite_salt i);
    cbn -[N.leb lenN to_vec U64_MAX]; rewrite Ht, !arr_len; reflexivity.
Qed.

Lemma invite_decode_encode i :
  invite_ttl_secs i <= U64_MAX -> invite_decode (invite_encode i) = Ok i.
Proof.
  intros H%invite_wf. unfold invite_decode, invite_encode. unfold invite_payload_map in *.
  rewrite decode_map_encode by done. destruct i as [gid nonce ttl [b|] [s|] sg];
    read_fields; unfold get_fixed_opt; cbn -[to_vec copy_fixed]; rewrite ?copy_fixed_to_vec;
    reflexivity.
Qed.

Lemma admit_decode_encode a : admit_decode (admit_encode a) = Ok a.
Proof.
  unfold admit_decode, admit_encode, admit_payload_map.
  rewrite decode_map_encode by solve_wf. read_fields. by destruct a.
Qed.

Lemma proof_decode_encode p : proof_decode (proof_encode p) = Ok p.
Proof.
  unfold proof_decode, proof_encode, proof_payload_map.
  rewrite decode_map_encode by solve_wf. read_fields. by destruct p.
Qed.

Lemma allowed_ttl_bound ttl : allowed_intro_ttl ttl = true -> ttl <= INTRO_TTL_1_HOUR.
Proof.
  unfold allowed_intro_ttl, INTRO_TTL_5_MIN, INTRO_TTL_30_MIN, INTRO_TTL_1_HOUR. lia.
Qed.

Section Lemmas.
Context `{CryptoLaws}.

Lemma invite_sign_ok sk gid nonce ttl bind i :
  invite_sign sk gid nonce ttl bind = Ok i ->
  allowed_intro_ttl ttl = true /\ invite_ttl_secs i = ttl
  /\ invite_binding i = fst <$> bind /\ invite_salt i = snd <$> bind
  /\ invite_group_id i = gid /\ invite_verify i (verifying_key sk) = Ok tt.
Proof.
  unfold invite_sign. destruct (allowed_intro_ttl ttl) eqn:Ht; cbn; [|done].
  intros (sg & Hs & Heq)%result_bind_ok. simplify_eq. split_and!; try done.
  unfold invite_verify. cbn. rewrite Ht. cbn.
  destruct bind as [[b s]|]; cbn; by apply Sign.sign_verify.
Qed.

(** The hash of the salted key determines the key, up to a collision. *)
Lemma invitee_binding_inj k1 k2 salt :
  invitee_binding k1 salt = invitee_binding k2 salt -> k1 = k2 \/ collision.
Proof.
  intros [Heq|Hc]%sha256_inj_or_collision; [left | by right].
  apply app_inj_2 in Heq as [Heq _]; [|done]. by apply arr_eq.
Qed.

Lemma verify_bound_ok i p pk :
  verify_bound_invite i p pk = Ok tt ->
  exists want salt, invite_binding i = Some want /\ invite_salt i = Some salt
    /\ proof_group_id p = invite_group_id i /\ proof_verify p pk = Ok tt
    /\ invitee_binding (vk_to_bytes pk) salt = want.
Proof.
  unfold verify_bound_invite.
  destruct (invite_binding i) as [want|], (invite_salt i) as [salt|]; try done.
  case_bool_decide as Hg; cbn; [|done]. intros ([] & Hp & He)%result_bind_ok.
  unfold ensure in He. case_bool_decide; [|done]. eauto 10.
Qed.
End Lemmas.

(** ** Properties *)

(** The join objects survive the wire and verify: an invite that a member
    signs has one of the three allowed lifetimes, decodes to itself and
    verifies under the member's key; admits and proofs likewise. *)
Theorem join_objects_roundtrip `{CryptoLaws} sk gid nonce ttl bind pid i a p :
  invite_sign sk gid nonce ttl bind = Ok i -> admit_sign sk gid pid = Ok a ->
  proof_sign sk gid pid = Ok p ->
  (invite_decode (invite_encode i) = Ok i /\ invite_verify i (verifying_key sk) = Ok tt
     /\ ttl <= INTRO_TTL_1_HOUR)
  /\ (admit_decode (admit_encode a) = Ok a /\ admit_verify a (verifying_key sk) = Ok tt)
  /\ (proof_decode (proof_encode p) = Ok p /\ proof_verify p (verifying_key sk) = Ok tt).
Proof.
  intros (Ht & Httl & _ & _ & _ & Hv)%invite_sign_ok
    (sa & Hsa & Ha)%result_bind_ok (sp & Hsp & Hp)%result_bind_ok.
  simplify_eq. pose proof (allowed_ttl_bound _ Ht). unfold INTRO_TTL_1_HOUR in *.
  split_and!; auto using admit_decode_encode, proof_decode_encode.
  - apply invite_decode_encode. ilia.
  - by apply Sign.sign_verify.
  - by apply Sign.sign_verify.
Qed.

(** A bound invite admits only the invitee: if the binding was made for the
    identity key [ik], the admitter's check accepts a proof only under that very
    key (unless two inputs collide under SHA-256), only for the invite's group,
    and it does accept the proof the invitee signs. *)
Theorem bound_invite_admits_only_invitee `{CryptoLaws} sk salt i :
  let pk := verifying_key sk in
  invite_binding i = Some (invitee_binding (vk_to_bytes pk) salt) -> invite_salt i = Some salt ->
  (forall p pk', verify_bound_invite i p pk' = Ok tt ->
     (pk' = pk \/ collision) /\ proof_group_id p = invite_group_id i)
  /\ (forall pid p, proof_sign sk (invite_group_id i) pid = Ok p -> verify_bound_invite i p pk = Ok tt).
Proof.
  intros pk Hb Hs. split.
  - intros p pk' (want & salt' & Hb' & Hs' & Hg & _ & Hh)%verify_bound_ok.
    rewrite Hb in Hb'. rewrite Hs in Hs'. injection Hb' as <-. injection Hs' as <-.
    split; [|done]. destruct (invitee_binding_inj _ _ _ Hh) as [He|Hc]; [left | by right].
    pose proof (vk_bytes_roundtrip pk') as Hr. rewrite He, vk_bytes_roundtrip in Hr. congruence.
  - intros pid p (sg & Hsg & Hp)%result_bind_ok. simplify_eq.
    unfold verify_bound_invite. rewrite Hb, Hs. cbn. rewrite bool_decide_eq_true_2 by done. cbn.
    assert (proof_verify (mk_proof (invite_group_id i) pid sg) pk = Ok tt) as ->
      by by apply Sign.sign_verify.
    cbn. unfold ensure. by rewrite bool_decide_eq_true_2.
Qed.

Section Witness.
#[local] Existing Instances Toy.toy Toy.toy_laws.

Example join_objects_roundtrip_witness :
  exists a, admit_sign sample_sk (arr_repeat 32 x01) (arr_repeat 32 x02) = Ok a
            /\ admit_decode (admit_encode a) = Ok a.
Proof.
  eexists. split; [reflexivity|].
  eapply (join_objects_roundtrip sample_sk (arr_repeat 32 x01) (arr_repeat 32 x03) INTRO_TTL_5_MIN
    (Some (arr_repeat 32 x04, arr_repeat 32 x05)) (arr_repeat 32 x02)); reflexivity.
Defined.

Definition sample_invite : GroupInvite :=
  mk_invite (arr_repeat 32 x01) (arr_repeat 32 x03) INTRO_TTL_5_MIN
    (Some (invitee_binding (vk_to_bytes (verifying_key sample_sk)) (arr_repeat 32 x05)))
    (Some (arr_repeat 32 x05)) (arr_repeat 64 x00).

Example bound_invite_admits_only_invitee_witness :
  exists p, proof_sign sample_sk (arr_repeat 32 x01) (arr_repeat 32 x02) = Ok p
            /\ verify_bound_invite sample_invite p (verifying_key sample_sk) = Ok tt.
Proof.
  eexists. split; [reflexivity|].
  eapply (bound_invite_admits_only_invitee sample_sk (arr_repeat 32 x05) sample_invite); reflexivity.
Defined.
End Witness.
