(* ===== verification/HostFrame.v ===== *)
(** * Host-framed bodies, owner authorisation and federation frames

    [nemo-wire/src/hostframe.rs]: bodies that the group host reads out of padded
    messages, the owner signature bound to one request, signed responses, the
    server bundle and the server-to-server frames. *)

From S2P Require Export Envelope Records.
From S2P Require Import Toy.

(** ** Attachment size buckets *)

Inductive AttachmentSizeBucket : Type := SzA1 | SzA2 | SzA3 | SzA4.

#[global] Instance size_bucket_eq_decision : EqDecision AttachmentSizeBucket.
Proof. solve_decision. Defined.

(** [size_bucket as u8]. *)
Definition size_byte (b : AttachmentSizeBucket) : byte :=
  match b with SzA1 => x01 | SzA2 => x02 | SzA3 => x03 | SzA4 => x04 end.

(** [AttachmentSizeBucket::from_u8]. *)
Definition size_from_u8 (v : byte) : wresult AttachmentSizeBucket :=
  match v with
  | x01 => Ok SzA1 | x02 => Ok SzA2 | x03 => Ok SzA3 | x04 => Ok SzA4
  | _ => Err BadEnvelope
  end.

(** [AttachmentSizeBucket::inner_len]. *)
Definition size_inner_len (b : AttachmentSizeBucket) : N :=
  match b with SzA1 => A1 | SzA2 => A2 | SzA3 => A3 | SzA4 => A4 end.

(** [AttachmentSizeBucket::for_len]. *)
Definition size_for_len (n : N) : wresult AttachmentSizeBucket :=
  ok_or (List.find (fun b => n <=? size_inner_len b) [SzA1; SzA2; SzA3; SzA4]) NoBucket.

(** ** Bodies read by the group host *)

Record RemoveBundle : Type := mk_remove {
  remove_credential_id : key;
  sidecar_signature : sig64;
  mls_commit : bytes
}.

(** [RemoveBundle::encode]. *)
Definition remove_encode (r : RemoveBundle) : wresult bytes :=
  n ← ok_or (u32_try_from (lenN (mls_commit r))) NoBucket;
  Ok (to_vec (remove_credential_id r) ++ to_vec (sidecar_signature r) ++ be_bytes 4 n ++ mls_commit r).

(** [RemoveBundle::decode]: reads from a padded body. *)
Definition remove_decode (b : bytes) : wresult RemoveBundle :=
  let HDR := KEY_LEN + SIG_LEN + 4 in
  if lenN b <? HDR then Err BadEnvelope
  else
    cid ← copy_fixed KEY_LEN (takeN KEY_LEN b);
    sg ← copy_fixed SIG_LEN (takeN SIG_LEN (dropN KEY_LEN b));
    let n := from_be (takeN 4 (dropN (KEY_LEN + SIG_LEN) b)) in
    if lenN b <? HDR + n then Err BadEnvelope
    else Ok (mk_remove cid sg (takeN n (dropN HDR b))).

Record SigningKeyReplace : Type := mk_replace {
  replace_new_public_key : key;
  replace_signature : sig64
}.

(** [SigningKeyReplace::payload]. *)
Definition replace_payload (new_public_key : key) : bytes :=
  encode (Map [(0, Bytes (to_vec new_public_key))]).

(** [SigningKeyReplace::encode]. *)
Definition replace_encode (r : SigningKeyReplace) : bytes :=
  to_vec (replace_new_public_key r) ++ to_vec (replace_signature r).

(** [SigningKeyReplace::decode]. *)
Definition replace_decode (b : bytes) : wresult SigningKeyReplace :=
  if lenN b <? KEY_LEN + SIG_LEN then Err BadEnvelope
  else
    k ← copy_fixed KEY_LEN (takeN KEY_LEN b);
    sg ← copy_fixed SIG_LEN (takeN SIG_LEN (dropN KEY_LEN b));
    Ok (mk_replace k sg).

Record AttachmentReserve : Type := mk_reserve {
  reserve_fetch_token : key;
  reserve_size_bucket : AttachmentSizeBucket;
  reserve_ttl_bucket : TtlBucket
}.

(** [AttachmentReserve::encode]. *)
Definition reserve_encode (r : AttachmentReserve) : bytes :=
  to_vec (reserve_fetch_token r) ++ [size_byte (reserve_size_bucket r); ttl_u8 (reserve_ttl_bucket r)].

(** [AttachmentReserve::decode]. *)
Definition reserve_decode (b : bytes) : wresult AttachmentReserve :=
  if lenN b <? KEY_LEN + 2 then Err BadEnvelope
  else
    tok ← copy_fixed KEY_LEN (takeN KEY_LEN b);
    sz ← size_from_u8 (idx KEY_LEN b);
    ttl ← ttl_from_u8 (idx (KEY_LEN + 1) b);
    Ok (mk_reserve tok sz ttl).

(** ** Owner authorisation *)

Record AuthScope : Type := mk_scope {
  scope_server_id : key;
  scope_method : rstring;
  scope_path : rstring;
  body_hash : key
}.

#[global] Instance auth_scope_eq_decision : EqDecision AuthScope.
Proof. solve_decision. Defined.

Record MailboxOwnerAuth : Type := mk_auth {
  mailbox_hint : bytes;
  cursor : N;
  limit : N;
  ts : N;
  scope : AuthScope;
  auth_nonce : key;
  auth_signature : sig64
}.

Definition MAX_AGE_SECS : N := 120.

Definition auth_unsigned (a : MailboxOwnerAuth) : Value :=
  Map [(0, Bytes (mailbox_hint a));
       (1, Uint (cursor a));
       (2, Uint (limit a));
       (3, Uint (ts a));
       (5, Bytes (to_vec (scope_server_id (scope a))));
       (6, Text (scope_method (scope a)));
       (7, Text (scope_path (scope a)));
       (8, Bytes (to_vec (body_hash (scope a))));
       (9, Bytes (to_vec (auth_nonce a)))].

Definition auth_unsigned_cbor (a : MailboxOwnerAuth) : bytes := encode (auth_unsigned a).

Definition auth_value (a : MailboxOwnerAuth) : Value :=
  Map [(0, Bytes (mailbox_hint a));
       (1, Uint (cursor a));
       (2, Uint (limit a));
       (3, Uint (ts a));
       (4, Bytes (to_vec (auth_signature a)));
       (5, Bytes (to_vec (scope_server_id (scope a))));
       (6, Text (scope_method (scope a)));
       (7, Text (scope_path (scope a)));
       (8, Bytes (to_vec (body_hash (scope a))));
       (9, Bytes (to_vec (auth_nonce a)))].

(** [MailboxOwnerAuth::encode]. *)
Definition auth_encode (a : MailboxOwnerAuth) : bytes := encode (auth_value a).

(** [MailboxOwnerAuth::decode]. *)
Definition auth_decode (l : bytes) : wresult MailboxOwnerAuth :=
  m ← decode_map "owner auth must be a map" l;
  hint ← get_bytes m 0;
  cur ← get_uint m 1;
  lim ← get_uint m 2;
  t ← get_uint m 3;
  sg ← get_fixed SIG_LEN m 4;
  sid ← get_fixed KEY_LEN m 5;
  meth ← get_text m 6;
  path ← get_text m 7;
  bh ← get_fixed KEY_LEN m 8;
  nonce ← get_fixed KEY_LEN m 9;
  Ok (mk_auth hint cur lim t (mk_scope sid meth path bh) nonce sg).

(** ** Server bundles and rotation *)

Record ServerBundle : Type := mk_bundle {
  bundle_server_id : key;
  bundle_hpke_public_key : key;
  bundle_sign_public_key : key;
  bundle_host : rstring;
  s2s_port : N;
  bundle_signature : sig64
}.

Definition bundle_pairs (b : ServerBundle) : list (N * Value) :=
  [(0, Uint PROTOCOL_VERSION);
   (1, Bytes (to_vec (bundle_server_id b)));
   (2, Bytes (to_vec (bundle_hpke_public_key b)));
   (3, Bytes (to_vec (bundle_sign_public_key b)));
   (4, Text (bundle_host b));
   (5, Uint (s2s_port b))].

(** [ServerBundle::unsigned_cbor]. *)
Definition bundle_unsigned_cbor (b : ServerBundle) : bytes := encode (Map (bundle_pairs b)).

(** [ServerBundle::encode]. *)
Definition bundle_encode (b : ServerBundle) : bytes :=
  encode (Map (bundle_pairs b ++ [(6, Bytes (to_vec (bundle_signature b)))])).

(** [ServerBundle::decode]. *)
Definition bundle_decode (l : bytes) : wresult ServerBundle :=
  m ← decode_map "server bundle must be a map" l;
  check_version m 0;;
  sid ← get_fixed KEY_LEN m 1;
  hk ← get_fixed KEY_LEN m 2;
  sk ← get_fixed KEY_LEN m 3;
  h ← get_text m 4;
  port ← get_uint m 5;
  sg ← get_fixed SIG_LEN m 6;
  Ok (mk_bundle sid hk sk h port sg).

Record ServerSignRotate : Type := mk_rotate {
  rotate_new_public_key : key;
  rotate_seq : N;
  rotate_signature : sig64
}.

(** [ServerSignRotate::unsigned_cbor]. *)
Definition rotate_unsigned_cbor (r : ServerSignRotate) : bytes :=
  encode (Map [(0, Bytes (to_vec (rotate_new_public_key r))); (1, Uint (rotate_seq r))]).

(** ** Server-to-server frames *)

Record S2sFrame : Type := mk_frame { counter : N; payload : bytes }.

(** [S2sFrame::encode]. *)
Definition frame_encode (f : S2sFrame) : wresult bytes :=
  n ← ok_or (u32_try_from (lenN (payload f))) NoBucket;
  Ok (be_bytes 8 (counter f) ++ be_bytes 4 n ++ payload f).

(** [S2sFrame::decode]. *)
Definition frame_decode (l : bytes) : wresult S2sFrame :=
  if lenN l <? 12 then Err BadEnvelope
  else
    let c := from_be (takeN 8 l) in
    let n := from_be (takeN 4 (dropN 8 l)) in
    let rest := dropN 12 l in
    if negb (lenN rest =? n) then Err (Length n (lenN rest))
    else Ok (mk_frame c rest).

Definition hello_payload (sender receiver : key) : bytes :=
  encode (Map [(0, Uint PROTOCOL_VERSION); (1, Bytes (to_vec sender)); (2, Bytes (to_vec receiver))]).

Definition ok_payload (sq : N) : bytes := encode (Map [(0, Text (lit "ok")); (1, Uint sq)]).

Definition fail_payload : bytes := encode (Map [(0, Text (lit "fail"))]).

Inductive S2sPayload : Type :=
| PHello (sender receiver : key)
| POk (sq : N)
| PFail
| PCiphertext (ct : bytes).

Definition parse_hello (l : bytes) : wresult (key * key) :=
  m ← decode_map "hello must be a map" l;
  check_version m 0;;
  a ← get_fixed KEY_LEN m 1;
  b ← get_fixed KEY_LEN m 2;
  Ok (a, b).

Definition parse_payload (l : bytes) : wresult S2sPayload :=
  match decode l with
  | Ok (Map m) =>
      match map_get m 0 with
      | Ok v =>
          match expect_uint v with
          | Ok 1 => '(s, r) ← parse_hello l; Ok (PHello s r)
          | _ =>
              match expect_text v with
              | Ok s =>
                  if bool_decide (as_bytes s = as_bytes (lit "ok")) then
                    sq ← get_uint m 1; Ok (POk sq)
                  else if bool_decide (as_bytes s = as_bytes (lit "fail")) then Ok PFail
                  else Ok (PCiphertext l)
              | Err _ => Ok (PCiphertext l)
              end
          end
      | Err _ => Ok (PCiphertext l)
      end
  | _ => Ok (PCiphertext l)
  end.

(** ** Signing and verification *)

Section WithCrypto.
Context `{Crypto}.

(** [RemoveBundle::sidecar_payload]. *)
Definition sidecar_payload (group_id credential_id : key) (commit : bytes) : bytes :=
  encode (Map [(0, Bytes (to_vec credential_id));
               (1, Text (lit "revoke"));
               (2, Bytes (to_vec group_id));
               (3, Bytes (to_vec (sha256 commit)))]).

(** [RemoveBundle::sign]. *)
Definition remove_sign (appender_sk : SigningKey) (group_id credential_id : key) (commit : bytes)
    : wresult RemoveBundle :=
  sg ← Sign.sign appender_sk Sign.REMOVE_SIDECAR (sidecar_payload group_id credential_id commit);
  Ok (mk_remove credential_id sg commit).

(** [RemoveBundle::verify_sidecar]. *)
Definition verify_sidecar (r : RemoveBundle) (appender_pk : VerifyingKey) (group_id : key)
    : wresult unit :=
  Sign.verify appender_pk Sign.REMOVE_SIDECAR
    (sidecar_payload group_id (remove_credential_id r) (mls_commit r)) (sidecar_signature r).

(** [SigningKeyReplace::sign]. *)
Definition replace_sign (current_sk : SigningKey) (new_public_key : key) : wresult SigningKeyReplace :=
  sg ← Sign.sign current_sk Sign.SIGNING_KEY_REPLACE (replace_payload new_public_key);
  Ok (mk_replace new_public_key sg).

(** [SigningKeyReplace::verify]. *)
Definition replace_verify (r : SigningKeyReplace) (current_pk : VerifyingKey) : wresult unit :=
  Sign.verify current_pk Sign.SIGNING_KEY_REPLACE (replace_payload (replace_new_public_key r))
    (replace_signature r).

(** [AuthScope::header]. *)
Definition scope_header (sid : key) (meth path : rstring) (b : bytes) : AuthScope :=
  mk_scope sid meth path (sha256 b).

(** [AuthScope::body]. *)
Definition scope_body (sid : key) (meth path : rstring) : AuthScope :=
  mk_scope sid meth path (arr_repeat 32 x00).

(** [MailboxOwnerAuth::sign]; the nonce is the randomness drawn by the call. *)
Definition auth_sign (identity_sk : SigningKey) (hint : bytes) (cur lim t : N) (sc : AuthScope)
    (nonce : key) : wresult MailboxOwnerAuth :=
  let a := mk_auth hint cur lim t sc nonce (arr_repeat 64 x00) in
  sg ← Sign.sign identity_sk Sign.MAILBOX_OWNER (auth_unsigned_cbor a);
  Ok (mk_auth hint cur lim t sc nonce sg).

(** [MailboxOwnerAuth::verify]. *)
Definition auth_verify (a : MailboxOwnerAuth) (identity_pk : VerifyingKey) (now_unix : N)
    (expect : AuthScope) : wresult unit :=
  let age := saturating_sub now_unix (ts a) in
  if (MAX_AGE_SECS <? age) || (u64_add now_unix MAX_AGE_SECS <? ts a) then Err BindingExpired
  else if negb (bool_decide (scope a = expect)) then Err Signature
  else Sign.verify identity_pk Sign.MAILBOX_OWNER (auth_unsigned_cbor a) (auth_signature a).

Definition response_payload (nonce : key) (status : N) (b : bytes) : bytes :=
  encode (Map [(0, Uint PROTOCOL_VERSION);
               (1, Bytes (to_vec nonce));
               (2, Uint status);
               (3, Bytes (to_vec (sha256 b)))]).

Definition sign_response (server_sk : SigningKey) (nonce : key) (status : N) (b : bytes)
    : wresult sig64 :=
  Sign.sign server_sk Sign.SERVER_RESPONSE (response_payload nonce status b).

Definition verify_response (server_pk : VerifyingKey) (nonce : key) (status : N) (b : bytes)
    (signature : sig64) : wresult unit :=
  Sign.verify server_pk Sign.SERVER_RESPONSE (response_payload nonce status b) signature.

(** [ServerBundle::sign]. *)
Definition bundle_sign (server_sk : SigningKey) (b : ServerBundle) : wresult ServerBundle :=
  if negb (bool_decide (bundle_server_id b = server_id (bundle_hpke_public_key b)))
  then Err ServerIdMismatch
  else if negb (bool_decide (bundle_sign_public_key b = vk_to_bytes (verifying_key server_sk)))
  then Err Signature
  else
    sg ← Sign.sign server_sk Sign.SERVER_BUNDLE (bundle_unsigned_cbor b);
    Ok (mk_bundle (bundle_server_id b) (bundle_hpke_public_key b) (bundle_sign_public_key b)
          (bundle_host b) (s2s_port b) sg).

(** [ServerBundle::verify]. *)
Definition bundle_verify (b : ServerBundle) : wresult unit :=
  if negb (bool_decide (bundle_server_id b = server_id (bundle_hpke_public_key b)))
  then Err ServerIdMismatch
  else
    pk ← ok_or (vk_from_bytes (bundle_sign_public_key b)) Signature;
    Sign.verify pk Sign.SERVER_BUNDLE (bundle_unsigned_cbor b) (bundle_signature b).

(** [ServerSignRotate::sign]. *)
Definition rotate_sign (current_sk : SigningKey) (new_public_key : key) (sq : N)
    : wresult ServerSignRotate :=
  let r := mk_rotate new_public_key sq (arr_repeat 64 x00) in
  sg ← Sign.sign current_sk Sign.SERVER_SIGN_ROTATE (rotate_unsigned_cbor r);
  Ok (mk_rotate new_public_key sq sg).

(** [ServerSignRotate::verify]. *)
Definition rotate_verify (r : ServerSignRotate) (current_pk : VerifyingKey) : wresult unit :=
  Sign.verify current_pk Sign.SERVER_SIGN_ROTATE (rotate_unsigned_cbor r) (rotate_signature r).
End WithCrypto.

(** ** Lemmas *)

Lemma remove_decode_encode r l tail :
  remove_encode r = Ok l -> remove_decode (l ++ tail) = Ok r.
Proof.
  unfold remove_encode, u32_try_from. case_cond; cbn -[be_bytes app]; [|done]. intros <-%Ok_inj.
  apply N.leb_le in G. destruct r as [cid sg c]. cbn [remove_credential_id sidecar_signature mls_commit] in *.
  unfold remove_decode. set (n4 := be_bytes 4 (lenN c)).
  assert (lenN n4 = 4) as Hn4 by apply lenN_be_bytes.
  pose proof (arr_len cid) as Hc. pose proof (arr_len sg) as Hs.
  rewrite <- !app_assoc. set (b := to_vec cid ++ _).
  assert (takeN KEY_LEN b = to_vec cid) as -> by by apply takeN_app_exact.
  assert (dropN KEY_LEN b = to_vec sg ++ n4 ++ c ++ tail) as Hd1 by by apply dropN_app_exact.
  assert (dropN (KEY_LEN + SIG_LEN) b = n4 ++ c ++ tail) as Hd2.
  { rewrite <- dropN_dropN, Hd1. by apply dropN_app_exact. }
  assert (dropN (KEY_LEN + SIG_LEN + 4) b = c ++ tail) as Hd3.
  { rewrite <- dropN_dropN, Hd2. by apply dropN_app_exact. }
  rewrite Hd1, Hd2, Hd3, (takeN_app_exact SIG_LEN), (takeN_app_exact 4) by done.
  rewrite !copy_fixed_to_vec. cbn [mbind result_bind].
  unfold n4. rewrite from_be_bytes by (unfold U32_MAX in *; cbn; lia).
  assert (lenN b = 100 + lenN c + lenN tail) as -> by (unfold b; len_lia).
  destruct (N.ltb_spec (100 + lenN c + lenN tail) (KEY_LEN + SIG_LEN + 4)); [lia|].
  destruct (N.ltb_spec (100 + lenN c + lenN tail) (KEY_LEN + SIG_LEN + 4 + lenN c)); [lia|].
  by rewrite takeN_app_exact.
Qed.

Lemma replace_decode_encode r tail : replace_decode (replace_encode r ++ tail) = Ok r.
Proof.
  unfold replace_decode, replace_encode. destruct r as [k sg]. cbn [replace_new_public_key replace_signature].
  pose proof (arr_len k) as Hk. pose proof (arr_len sg) as Hs. rewrite <- app_assoc.
  destruct (N.ltb_spec (lenN (to_vec k ++ to_vec sg ++ tail)) (KEY_LEN + SIG_LEN)); [len_lia|].
  rewrite takeN_app_exact, dropN_app_exact, takeN_app_exact, !copy_fixed_to_vec by done. done.
Qed.

Lemma size_from_u8_byte b : size_from_u8 (size_byte b) = Ok b.
Proof. by destruct b. Qed.

Lemma ttl_from_u8_ok t : Byte.to_N (ttl_u8 t) <= 3 -> ttl_from_u8 (ttl_u8 t) = Ok t.
Proof.
  intros H. unfold ttl_from_u8. destruct (N.leb_spec (Byte.to_N (ttl_u8 t)) 3); [by destruct t | lia].
Qed.

Lemma reserve_decode_encode r tail :
  Byte.to_N (ttl_u8 (reserve_ttl_bucket r)) <= 3 -> reserve_decode (reserve_encode r ++ tail) = Ok r.
Proof.
  intros Ht. unfold reserve_decode, reserve_encode. pose proof (arr_len (reserve_fetch_token r)) as Hk.
  rewrite <- app_assoc. cbn [app]. set (k := to_vec _) in *. set (s := size_byte _). set (t := ttl_u8 _).
  destruct (N.ltb_spec (lenN (k ++ s :: t :: tail)) (KEY_LEN + 2)); [len_lia|].
  rewrite takeN_app_exact, (idx_app_cons KEY_LEN) by done.
  replace (k ++ s :: t :: tail) with ((k ++ [s]) ++ t :: tail) by by rewrite <- app_assoc.
  rewrite (idx_app_cons (KEY_LEN + 1)) by len_lia.
  unfold k, s, t. rewrite copy_fixed_to_vec. cbn [mbind result_bind].
  rewrite size_from_u8_byte, ttl_from_u8_ok by done. by destruct r.
Qed.

Definition auth_fits (a : MailboxOwnerAuth) : Prop :=
  lenN (mailbox_hint a) <= U64_MAX /\ cursor a <= U64_MAX /\ limit a <= U64_MAX /\ ts a <= U64_MAX
  /\ lenN (as_bytes (scope_method (scope a))) <= U64_MAX
  /\ lenN (as_bytes (scope_path (scope a))) <= U64_MAX.

Lemma auth_value_wf a : auth_fits a -> wf_value (auth_value a) = true.
Proof. intros (? & ? & ? & ? & ? & ?). solve_wf. Qed.

Lemma auth_unsigned_wf a : auth_fits a -> wf_value (auth_unsigned a) = true.
Proof. intros (? & ? & ? & ? & ? & ?). solve_wf. Qed.

Lemma auth_decode_encode a : auth_fits a -> auth_decode (auth_encode a) = Ok a.
Proof.
  intros H%auth_value_wf. unfold auth_decode, auth_encode. unfold auth_value in *.
  rewrite decode_map_encode by done. read_fields. by destruct a as [? ? ? ? [? ? ? ?] ? ?].
Qed.

(** The signed part determines every field but the signature. *)
Lemma auth_unsigned_inj a b : auth_unsigned a = auth_unsigned b ->
  mailbox_hint a = mailbox_hint b /\ cursor a = cursor b /\ limit a = limit b /\ ts a = ts b
  /\ scope a = scope b /\ auth_nonce a = auth_nonce b.
Proof.
  destruct a as [? ? ? ? [? ? ? ?] ? ?], b as [? ? ? ? [? ? ? ?] ? ?].
  unfold auth_unsigned. cbn -[to_vec]. intros [= -> -> -> -> H1 -> -> H2 H3].
  apply arr_eq in H1, H2, H3. by subst.
Qed.

Lemma bundle_decode_encode b :
  s2s_port b <= U64_MAX -> lenN (as_bytes (bundle_host b)) <= U64_MAX ->
  bundle_decode (bundle_encode b) = Ok b.
Proof.
  intros Hp Hh. unfold bundle_decode, bundle_encode, bundle_pairs.
  rewrite decode_map_encode by solve_wf. read_fields. by destruct b.
Qed.

Lemma frame_decode_encode f l :
  counter f <= U64_MAX -> frame_encode f = Ok l -> frame_decode l = Ok f.
Proof.
  unfold frame_encode, u32_try_from. intros Hc. case_cond; cbn -[be_bytes app]; [|done]. intros <-%Ok_inj.
  apply N.leb_le in G. unfold frame_decode.
  set (c8 := be_bytes 8 (counter f)). set (n4 := be_bytes 4 (lenN (payload f))).
  assert (lenN c8 = 8) as H8 by apply lenN_be_bytes. assert (lenN n4 = 4) as H4 by apply lenN_be_bytes.
  destruct (N.ltb_spec (lenN (c8 ++ n4 ++ payload f)) 12); [len_lia|].
  assert (dropN 12 (c8 ++ n4 ++ payload f) = payload f) as ->.
  { change 12 with (8 + 4). rewrite <- dropN_dropN, dropN_app_exact, dropN_app_exact; done. }
  rewrite takeN_app_exact, dropN_app_exact, takeN_app_exact by done.
  unfold n4, c8. rewrite !from_be_bytes by (unfold U32_MAX, U64_MAX in *; cbn; lia).
  rewrite N.eqb_refl. by destruct f.
Qed.

Lemma parse_hello_payload s r : parse_payload (hello_payload s r) = Ok (PHello s r).
Proof.
  unfold parse_payload, hello_payload. rewrite decode_encode_wf by solve_wf. cbn [map_get map_get_opt].
  cbn -[parse_hello to_vec]. unfold parse_hello. rewrite decode_map_encode by solve_wf. by read_fields.
Qed.

Lemma parse_ok_payload sq : sq <= U64_MAX -> parse_payload (ok_payload sq) = Ok (POk sq).
Proof.
  intros H. unfold parse_payload, ok_payload. by rewrite decode_encode_wf by solve_wf.
Qed.

Lemma parse_fail_payload : parse_payload fail_payload = Ok PFail.
Proof. unfold parse_payload, fail_payload. by rewrite decode_encode_wf by solve_wf. Qed.

Section AuthLemmas.
Context `{CryptoLaws}.

Lemma auth_verify_ok a pk now expect :
  auth_verify a pk now expect = Ok tt <->
  now <= ts a + MAX_AGE_SECS /\ ts a <= u64_add now MAX_AGE_SECS /\ scope a = expect
  /\ Sign.verify pk Sign.MAILBOX_OWNER (auth_unsigned_cbor a) (auth_signature a) = Ok tt.
Proof.
  unfold auth_verify, saturating_sub.
  destruct (N.ltb_spec MAX_AGE_SECS (now - ts a)); cbn [orb].
  { split; [done | intros (? & _); lia]. }
  destruct (N.ltb_spec (u64_add now MAX_AGE_SECS) (ts a)).
  { split; [done | intros (_ & ? & _); lia]. }
  case_bool_decide as Hsc; cbn [negb].
  - split; [intros; split_and!; [lia | lia | done | done] | by intros (_ & _ & _ & ?)].
  - split; [done | by intros (_ & _ & ? & _)].
Qed.

Lemma auth_sign_fields sk hint cur lim t sc nonce a :
  auth_sign sk hint cur lim t sc nonce = Ok a ->
  ts a = t /\ scope a = sc /\ auth_nonce a = nonce
  /\ Sign.verify (verifying_key sk) Sign.MAILBOX_OWNER (auth_unsigned_cbor a) (auth_signature a) = Ok tt.
Proof.
  intros (sg & Hs & Heq)%result_bind_ok. simplify_eq. split_and!; try done.
  by apply Sign.sign_verify.
Qed.
End AuthLemmas.

(** ** Properties *)

(** The group host reads the framed bodies back from a padded message: for
    any bytes after the encoding, decoding a remove bundle, a key replacement
    or an attachment reservation returns the value that was encoded. *)
Theorem host_bodies_roundtrip rm rp rs l tail :
  remove_encode rm = Ok l -> Byte.to_N (ttl_u8 (reserve_ttl_bucket rs)) <= 3 ->
  remove_decode (l ++ tail) = Ok rm
  /\ replace_decode (replace_encode rp ++ tail) = Ok rp
  /\ reserve_decode (reserve_encode rs ++ tail) = Ok rs.
Proof.
  intros. split_and!; auto using remove_decode_encode, replace_decode_encode, reserve_decode_encode.
Qed.

Example host_bodies_roundtrip_witness :
  remove_decode ((to_vec (arr_repeat 32 x01) ++ to_vec (arr_repeat 64 x02) ++ [x00; x00; x00; x02; xaa; xbb])
    ++ replicate 10 x00) = Ok (mk_remove (arr_repeat 32 x01) (arr_repeat 64 x02) [xaa; xbb]).
Proof.
  eapply (host_bodies_roundtrip (mk_remove (arr_repeat 32 x01) (arr_repeat 64 x02) [xaa; xbb])
    (mk_replace (arr_repeat 32 x03) (arr_repeat 64 x04))
    (mk_reserve (arr_repeat 32 x05) SzA2 TTL_DAY)); [reflexivity | vm_compute; discriminate].
Defined.

(** An owner signature authorises one request: [auth_verify] accepts only
    within 120 seconds of the stamped time (while [now + 120] does not wrap),
    only for the expected server, method, path and body hash, and the signed
    message fixes every field, the nonce included, among all owner
    authorisations and against every other signed object. *)
Theorem owner_auth_binds_request `{CryptoLaws} a pk now expect :
  auth_verify a pk now expect = Ok tt -> auth_fits a -> now + MAX_AGE_SECS <= U64_MAX ->
  (now <= ts a + MAX_AGE_SECS /\ ts a <= now + MAX_AGE_SECS /\ scope a = expect)
  /\ exists msg, ed_verify pk msg (auth_signature a) = true
      /\ (forall ctx b, ctx ∈ Sign.contexts -> auth_fits b ->
            Sign.message ctx (auth_unsigned_cbor b) = Ok msg ->
            ctx = Sign.MAILBOX_OWNER /\ scope b = expect /\ ts b = ts a /\ cursor b = cursor a
            /\ limit b = limit a /\ mailbox_hint b = mailbox_hint a /\ auth_nonce b = auth_nonce a).
Proof.
  intros (Hold & Hnew & Hsc & Hv)%auth_verify_ok Hf Hnow.
  unfold u64_add, U64_MAX in *. rewrite N.mod_small in Hnew by lia.
  split; [done|]. unfold Sign.verify in Hv. apply result_bind_ok in Hv as (msg & Hm & Hv).
  exists msg. split; [by destruct (ed_verify _ _ _)|]. intros ctx b Hctx Hb Hmb.
  destruct (Sign.message_contexts_inj _ _ _ _ _ Hctx Sign.owner_context Hmb Hm) as [-> Heq].
  apply cbor_encode_inj in Heq; [|by apply auth_unsigned_wf..].
  apply auth_unsigned_inj in Heq as (? & ? & ? & ? & ? & ?). split_and!; congruence.
Qed.

(** Server-to-server framing: every frame whose payload fits 32 bits
    decodes to itself, and the receiver tells the control payloads apart. *)
Theorem s2s_frames_roundtrip f l s r sq :
  counter f <= U64_MAX -> sq <= U64_MAX -> frame_encode f = Ok l ->
  frame_decode l = Ok f
  /\ parse_payload (hello_payload s r) = Ok (PHello s r)
  /\ parse_payload (ok_payload sq) = Ok (POk sq)
  /\ parse_payload fail_payload = Ok PFail.
Proof.
  intros. split_and!; eauto using frame_decode_encode, parse_hello_payload, parse_ok_payload,
    parse_fail_payload.
Qed.

Example s2s_frames_roundtrip_witness :
  frame_decode [x00; x00; x00; x00; x00; x00; x00; x05; x00; x00; x00; x01; x2a]
  = Ok (mk_frame 5 [x2a]).
Proof.
  apply (s2s_frames_roundtrip (mk_frame 5 [x2a])
    [x00; x00; x00; x00; x00; x00; x00; x05; x00; x00; x00; x01; x2a]
    (arr_repeat 32 x01) (arr_repeat 32 x02) 3);
    [vm_compute; discriminate | vm_compute; discriminate | reflexivity].
Defined.

Section Witness.
#[local] Existing Instances Toy.toy Toy.toy_laws.

Definition sample_scope : AuthScope := scope_body (arr_repeat 32 x09) (lit "POST") (lit "/v1/mailbox/fetch").

Definition sample_auth : MailboxOwnerAuth :=
  match auth_sign sample_sk [] 0 50 1000 sample_scope (arr_repeat 32 x0a) with
  | Ok a => a
  | Err _ => mk_auth [] 0 0 0 sample_scope (arr_repeat 32 x00) (arr_repeat 64 x00)
  end.

Example owner_auth_binds_request_witness : scope sample_auth = sample_scope.
Proof.
  destruct (owner_auth_binds_request sample_auth (verifying_key sample_sk) 1100 sample_scope)
    as [(_ & _ & Hs) _]; [vm_compute; reflexivity | | vm_compute; discriminate | exact Hs].
  unfold auth_fits. split_and!; vm_compute; discriminate.
Defined.
End Witness.
