(* ===== verification/BTree.v ===== *)
(** * Ordered maps

    [BTreeMap<u64, V>] as the list of its entries in key order: iteration, which
    the code relies on for the delivery order, is the list itself. *)

From S2P Require Export Bytes.

Notation btree V := (list (N * V)).

Section BTree.
Context {V : Type}.

(** [BTreeMap::insert]. *)
Fixpoint bt_insert (k : N) (v : V) (t : btree V) : btree V :=
  match t with
  | [] => [(k, v)]
  | (k', v') :: t' =>
      if k <? k' then (k, v) :: t
      else if k =? k' then (k, v) :: t'
      else (k', v') :: bt_insert k v t'
  end.

(** [BTreeMap::get]. *)
Definition bt_get (k : N) (t : btree V) : option V :=
  snd <$> List.find (fun kv => kv.1 =? k) t.

(** [BTreeMap::remove], the map part. *)
Definition bt_remove (k : N) (t : btree V) : btree V :=
  List.filter (fun kv => negb (kv.1 =? k)) t.

(** [keys()] and [values()]. *)
Definition bt_keys (t : btree V) : list N := map fst t.
Definition bt_values (t : btree V) : list V := map snd t.

(** The entries are in strictly increasing key order. *)
Fixpoint bt_sorted (t : btree V) : Prop :=
  match t with
  | [] => True
  | (k, _) :: t' => Forall (fun kv => k < kv.1) t' /\ bt_sorted t'
  end.

(** ** Lemmas *)

Lemma bt_sorted_app t1 t2 :
  bt_sorted (t1 ++ t2) <->
  bt_sorted t1 /\ bt_sorted t2 /\ forall a b, In a t1 -> In b t2 -> a.1 < b.1.
Proof.
  induction t1 as [|[k v] t1 IH]; cbn; [naive_solver|].
  rewrite IH, Forall_app. rewrite !Forall_forall. setoid_rewrite list_elem_of_In.
  split.
  - intros [[H1 H2] (H3 & H4 & H5)]. split_and!; try done.
    intros a b [<-|Ha] Hb; [by apply H2 | by apply H5].
  - intros [[H1 H2] [H3 H4]]. split_and!; try done.
    + intros x Hx. apply (H4 (k, v)); auto.
    + intros a b Ha Hb. apply H4; auto.
Qed.

(** A key above all others goes to the end. *)
Lemma bt_insert_last k v t :
  Forall (fun kv => kv.1 < k) t -> bt_insert k v t = t ++ [(k, v)].
Proof.
  induction t as [|[k' v'] t IH]; cbn; [done|]. rewrite Forall_cons. cbn. intros [Hk Ht].
  destruct (N.ltb_spec k k'); [lia|]. destruct (N.eqb_spec k k'); [lia|]. by rewrite IH.
Qed.

Lemma bt_remove_In k t kv : In kv (bt_remove k t) <-> In kv t /\ kv.1 <> k.
Proof.
  unfold bt_remove. rewrite filter_In, negb_true_iff, N.eqb_neq. done.
Qed.

Lemma Forall_filter_list {A} (P : A -> Prop) f (l : list A) : Forall P l -> Forall P (List.filter f l).
Proof.
  induction 1 as [|x l Hx Hl IH]; cbn; [done|]. destruct (f x); auto.
Qed.

Lemma bt_sorted_filter f t : bt_sorted t -> bt_sorted (List.filter f t).
Proof.
  induction t as [|[k v] t IH]; cbn; [done|]. intros [Hk Hs].
  destruct (f (k, v)); cbn; auto using Forall_filter_list.
Qed.

Lemma bt_remove_cons k k' (v : V) t :
  bt_remove k ((k', v) :: t) = if k' =? k then bt_remove k t else (k', v) :: bt_remove k t.
Proof. unfold bt_remove. cbn. by destruct (k' =? k). Qed.

Lemma bt_remove_absent k t : Forall (fun kv => kv.1 <> k) t -> bt_remove k t = t.
Proof.
  induction 1 as [|[k' v'] t Hk Ht IH]; [done|]. cbn in Hk. rewrite bt_remove_cons.
  destruct (N.eqb_spec k' k); [done|]. by rewrite IH.
Qed.

(** Removing the first key leaves the tail. *)
Lemma bt_remove_head k v t : bt_sorted ((k, v) :: t) -> bt_remove k ((k, v) :: t) = t.
Proof.
  intros [Hk _]. rewrite bt_remove_cons, N.eqb_refl. apply bt_remove_absent.
  eapply Forall_impl; [exact Hk|]. cbn. lia.
Qed.

Lemma bt_get_In k v t : bt_get k t = Some v -> In (k, v) t.
Proof.
  unfold bt_get. destruct (List.find _ t) as [[k' v']|] eqn:E; cbn; [|done].
  intros [= ->]. apply find_some in E as [Hin Hk]. cbn in Hk. apply N.eqb_eq in Hk. by subst.
Qed.

Lemma bt_In_get k v t : bt_sorted t -> In (k, v) t -> bt_get k t = Some v.
Proof.
  unfold bt_get. induction t as [|[k' v'] t IH]; cbn; [done|].
  intros [Hk Hs] [Heq|Hin].
  - simplify_eq. by rewrite N.eqb_refl.
  - rewrite Forall_forall in Hk. specialize (Hk (k, v)). rewrite list_elem_of_In in Hk.
    specialize (Hk Hin). cbn in Hk. destruct (N.eqb_spec k' k); [lia | auto].
Qed.

Lemma bt_get_None k t : bt_get k t = None -> Forall (fun kv => kv.1 <> k) t.
Proof.
  unfold bt_get. destruct (List.find _ t) as [kv|] eqn:E; cbn; [done|]. intros _.
  rewrite Forall_forall. intros kv Hin%list_elem_of_In.
  pose proof (find_none _ _ E _ Hin) as Hk. by apply N.eqb_neq.
Qed.

(** ** Sums over the values *)

Fixpoint bt_sum (f : V -> N) (t : btree V) : N :=
  match t with [] => 0 | (_, v) :: t' => f v + bt_sum f t' end.

Lemma bt_sum_app f t1 t2 : bt_sum f (t1 ++ t2) = bt_sum f t1 + bt_sum f t2.
Proof. induction t1 as [|[k v] t1 IH]; cbn; [done|]. rewrite IH. lia. Qed.

Lemma bt_sum_remove f k v t :
  bt_sorted t -> bt_get k t = Some v -> bt_sum f t = f v + bt_sum f (bt_remove k t).
Proof.
  unfold bt_get. induction t as [|[k' v'] t IH]; [done|]. rewrite bt_remove_cons. cbn. intros [Hk Hs].
  destruct (N.eqb_spec k' k) as [->|Hne]; cbn.
  - intros [= ->]. rewrite bt_remove_absent; [done|]. eapply Forall_impl; [exact Hk|]. cbn. lia.
  - intros Hg. rewrite (IH Hs Hg). lia.
Qed.
End BTree.
