(* ===== verification/HomeState.v ===== *)
(** * The home server's state

    The data of [nemo-server/src/home.rs] (mailboxes, directory, capability
    tokens, persistence journal) and the peer and outbound records of
    [federation.rs] that the home server owns. A [HashMap] is a [gmap], a
    [HashSet] a [gset], the row [BTreeMap] an ordered map. *)

From S2P Require Export HostFrame Join Hpke BTree.

Definition FETCH_LIMIT_MAX : N := 256.
Definition SHARE_TTL_DEFAULT : N := INTRO_TTL_30_MIN.
Definition HPKE_ENC_WINDOW : N := 1024.
Definition CONTACT_GRACE_SECS : N := 72 * 3600.
Definition CONTACT_CAP_IDLE_SECS : N := 30 * 24 * 3600.
Definition SHARE_EXPIRED_BUFFER_SECS : N := 24 * 3600.
Definition SHARE_RESERVED_BUFFER_SECS : N := 7 * 24 * 3600.
Definition TOKEN_SWEEP_INTERVAL_SECS : N := 24 * 3600.
Definition RATE_PER_MIN : N := 30.
Definition MAILBOX_MAX_BYTES : N := 500 * 1024 * 1024.
Definition MAILBOX_MAX_AGE_SECS : N := 14 * 24 * 3600.

Record Limits : Type := mk_limits { mailbox_max_bytes : N; mailbox_max_age_secs : N }.

Definition default_limits : Limits := mk_limits MAILBOX_MAX_BYTES MAILBOX_MAX_AGE_SECS.

Record StoredEnvelope : Type := mk_stored {
  row_seq : N;
  received_at : N;
  row_expires_at : N;
  row_inner : InnerEnvelope
}.

Record Mailbox : Type := mk_mailbox {
  owner_pk : key;
  next_seq : N;
  rows : btree StoredEnvelope;
  idempotency : gmap key N;
  box_bytes : N;
  disabled : bool
}.

Record DirectoryRow : Type := mk_directory {
  dir_identity_public_key : key;
  dir_revocation_public_key : key;
  dir_binding : HomeServerBinding;
  binding_seq : N;
  dir_revocation : option RevocationStatement
}.

Inductive TokenKind : Type :=
| Share (mailbox : key) (token_expires_at : N) (burned : bool) (reserved_prekey : option bytes)
| Contact (mailbox : key) (grace_until : option N) (window_start window_count : N).

(** A group identifier. *)
Record GroupId : Type := mk_group_id { group_key : key }.

#[global] Instance group_id_eq_decision : EqDecision GroupId.
Proof. solve_decision. Defined.

#[global] Program Instance group_id_countable : Countable GroupId :=
  inj_countable' group_key mk_group_id _.
Next Obligation. by intros []. Qed.

(** [federation::PeerState]. *)
Record PeerState : Type := mk_peer {
  peer_bundle : ServerBundle;
  refused : bool;
  last_rx : N;
  next_tx : N;
  hello_done : bool;
  window_sec : N;
  window_ok : N;
  peer_seen_enc : gmap key N
}.

(** [PeerState::new]. *)
Definition peer_new (b : ServerBundle) : PeerState := mk_peer b false 0 1 false 0 0 ∅.

(** [PeerState::restore]. *)
Definition peer_restore (b : ServerBundle) (refused : bool) (last_rx next_tx : N) : PeerState :=
  mk_peer b refused last_rx next_tx ((0 <? last_rx) || (1 <? next_tx)) 0 0 ∅.

(** [federation::OutboundRow]. *)
Record OutboundRow : Type := mk_outbound {
  dest : key;
  outer : OuterEnvelope;
  enqueued_at : N;
  next_attempt : N;
  backoff_secs : N
}.

(** [federation::Enqueue]. *)
Inductive Enqueue : Type := Local (sq : N) | Queued.

(** The persistence journal. *)
Record HomeDirty : Type := mk_dirty {
  d_server_identity : bool;
  d_identities : gset key;
  d_mailbox_new : list (key * N);
  d_mailbox_acked : gmap key N;
  d_mailbox_dropped : list (key * N);
  d_mailbox_cleared : gset key;
  d_tokens : gset key;
  d_tokens_dropped : gset key;
  d_tokens_dropped_exact : gset key;
  d_prekeys : gset key;
  d_memberships : gset key;
  d_peers : gset key;
  d_outbound_dirty : bool;
  d_seen_enc_new : list key;
  d_seen_enc_cleared : bool
}.

Definition clean_dirty : HomeDirty :=
  mk_dirty false ∅ [] ∅ [] ∅ ∅ ∅ ∅ ∅ ∅ ∅ false [] false.

Record HomeServer `{Crypto} : Type := mk_home {
  hpke : Hpke.HpkeKeypair;
  sign_key : SigningKey;
  bundle : ServerBundle;
  now : N;
  limits : Limits;
  mailboxes : gmap key Mailbox;
  directory : gmap key DirectoryRow;
  memberships : gmap key (list GroupId);
  tokens : list (key * TokenKind);
  prekeys : gmap key (list bytes);
  seen_enc : gmap key N;
  peers : gmap key PeerState;
  outbound : list OutboundRow;
  last_token_sweep : N;
  dirty : HomeDirty;
  owner_nonces : gmap key N
}.

(** ** Field updates *)

Definition eta_mailbox (m : Mailbox) : Mailbox :=
  mk_mailbox (owner_pk m) (next_seq m) (rows m) (idempotency m) (box_bytes m) (disabled m).

#[global] Instance next_seq_field : Field next_seq := ltac:(derive_field eta_mailbox next_seq).
#[global] Instance rows_field : Field rows := ltac:(derive_field eta_mailbox rows).
#[global] Instance idempotency_field : Field idempotency := ltac:(derive_field eta_mailbox idempotency).
#[global] Instance box_bytes_field : Field box_bytes := ltac:(derive_field eta_mailbox box_bytes).
#[global] Instance disabled_field : Field disabled := ltac:(derive_field eta_mailbox disabled).

Definition eta_directory (d : DirectoryRow) : DirectoryRow :=
  mk_directory (dir_identity_public_key d) (dir_revocation_public_key d) (dir_binding d)
    (binding_seq d) (dir_revocation d).

#[global] Instance dir_binding_field : Field dir_binding := ltac:(derive_field eta_directory dir_binding).
#[global] Instance binding_seq_field : Field binding_seq := ltac:(derive_field eta_directory binding_seq).
#[global] Instance dir_revocation_field : Field dir_revocation :=
  ltac:(derive_field eta_directory dir_revocation).

Definition eta_peer (p : PeerState) : PeerState :=
  mk_peer (peer_bundle p) (refused p) (last_rx p) (next_tx p) (hello_done p) (window_sec p)
    (window_ok p) (peer_seen_enc p).

#[global] Instance peer_bundle_field : Field peer_bundle := ltac:(derive_field eta_peer peer_bundle).
#[global] Instance refused_field : Field refused := ltac:(derive_field eta_peer refused).
#[global] Instance last_rx_field : Field last_rx := ltac:(derive_field eta_peer last_rx).
#[global] Instance next_tx_field : Field next_tx := ltac:(derive_field eta_peer next_tx).
#[global] Instance hello_done_field : Field hello_done := ltac:(derive_field eta_peer hello_done).
#[global] Instance window_sec_field : Field window_sec := ltac:(derive_field eta_peer window_sec).
#[global] Instance window_ok_field : Field window_ok := ltac:(derive_field eta_peer window_ok).
#[global] Instance peer_seen_enc_field : Field peer_seen_enc := ltac:(derive_field eta_peer peer_seen_enc).

Definition eta_outbound (r : OutboundRow) : OutboundRow :=
  mk_outbound (dest r) (outer r) (enqueued_at r) (next_attempt r) (backoff_secs r).

#[global] Instance next_attempt_field : Field next_attempt := ltac:(derive_field eta_outbound next_attempt).
#[global] Instance backoff_secs_field : Field backoff_secs := ltac:(derive_field eta_outbound backoff_secs).

Definition eta_dirty (d : HomeDirty) : HomeDirty :=
  mk_dirty (d_server_identity d) (d_identities d) (d_mailbox_new d) (d_mailbox_acked d)
    (d_mailbox_dropped d) (d_mailbox_cleared d) (d_tokens d) (d_tokens_dropped d)
    (d_tokens_dropped_exact d) (d_prekeys d) (d_memberships d) (d_peers d) (d_outbound_dirty d)
    (d_seen_enc_new d) (d_seen_enc_cleared d).

#[global] Instance d_server_identity_field : Field d_server_identity := ltac:(derive_field eta_dirty d_server_identity).
#[global] Instance d_identities_field : Field d_identities := ltac:(derive_field eta_dirty d_identities).
#[global] Instance d_mailbox_new_field : Field d_mailbox_new := ltac:(derive_field eta_dirty d_mailbox_new).
#[global] Instance d_mailbox_acked_field : Field d_mailbox_acked := ltac:(derive_field eta_dirty d_mailbox_acked).
#[global] Instance d_mailbox_dropped_field : Field d_mailbox_dropped := ltac:(derive_field eta_dirty d_mailbox_dropped).
#[global] Instance d_mailbox_cleared_field : Field d_mailbox_cleared := ltac:(derive_field eta_dirty d_mailbox_cleared).
#[global] Instance d_tokens_field : Field d_tokens := ltac:(derive_field eta_dirty d_tokens).
#[global] Instance d_tokens_dropped_field : Field d_tokens_dropped := ltac:(derive_field eta_dirty d_tokens_dropped).
#[global] Instance d_tokens_dropped_exact_field : Field d_tokens_dropped_exact :=
  ltac:(derive_field eta_dirty d_tokens_dropped_exact).
#[global] Instance d_prekeys_field : Field d_prekeys := ltac:(derive_field eta_dirty d_prekeys).
#[global] Instance d_memberships_field : Field d_memberships := ltac:(derive_field eta_dirty d_memberships).
#[global] Instance d_peers_field : Field d_peers := ltac:(derive_field eta_dirty d_peers).
#[global] Instance d_outbound_dirty_field : Field d_outbound_dirty := ltac:(derive_field eta_dirty d_outbound_dirty).
#[global] Instance d_seen_enc_new_field : Field d_seen_enc_new := ltac:(derive_field eta_dirty d_seen_enc_new).
#[global] Instance d_seen_enc_cleared_field : Field d_seen_enc_cleared := ltac:(derive_field eta_dirty d_seen_enc_cleared).

Section HomeFields.
Context `{Crypto}.

Definition eta_home (h : HomeServer) : HomeServer :=
  mk_home _ (hpke h) (sign_key h) (bundle h) (now h) (limits h) (mailboxes h) (directory h)
    (memberships h) (tokens h) (prekeys h) (seen_enc h) (peers h) (outbound h) (last_token_sweep h)
    (dirty h) (owner_nonces h).

#[global] Instance bundle_field : Field bundle := ltac:(derive_field eta_home bundle).
#[global] Instance now_field : Field now := ltac:(derive_field eta_home now).
#[global] Instance limits_field : Field limits := ltac:(derive_field eta_home limits).
#[global] Instance mailboxes_field : Field mailboxes := ltac:(derive_field eta_home mailboxes).
#[global] Instance directory_field : Field directory := ltac:(derive_field eta_home directory).
#[global] Instance memberships_field : Field memberships := ltac:(derive_field eta_home memberships).
#[global] Instance tokens_field : Field tokens := ltac:(derive_field eta_home tokens).
#[global] Instance prekeys_field : Field prekeys := ltac:(derive_field eta_home prekeys).
#[global] Instance seen_enc_field : Field seen_enc := ltac:(derive_field eta_home seen_enc).
#[global] Instance peers_field : Field peers := ltac:(derive_field eta_home peers).
#[global] Instance outbound_field : Field outbound := ltac:(derive_field eta_home outbound).
#[global] Instance last_token_sweep_field : Field last_token_sweep := ltac:(derive_field eta_home last_token_sweep).
#[global] Instance dirty_field : Field dirty := ltac:(derive_field eta_home dirty).
#[global] Instance owner_nonces_field : Field owner_nonces := ltac:(derive_field eta_home owner_nonces).
End HomeFields.
