(* ===== verification/Home.v ===== *)
(** * The home server

    [nemo-server/src/home.rs], one definition per method. A method that takes
    [&mut self] is an action of the state and error monad; the random token a
    method draws is an argument; [dummy_work], which only burns time, has no
    counterpart. *)

From S2P Require Export HomeState.

(** ** The journal *)

(** [HomeDirty::is_clean]. *)
Definition is_clean (d : HomeDirty) : bool :=
  negb (d_server_identity d)
  && bool_decide (d_identities d = ∅)
  && bool_decide (d_mailbox_new d = [])
  && bool_decide (d_mailbox_acked d = ∅)
  && bool_decide (d_mailbox_dropped d = [])
  && bool_decide (d_mailbox_cleared d = ∅)
  && bool_decide (d_tokens d = ∅)
  && bool_decide (d_tokens_dropped d = ∅)
  && bool_decide (d_tokens_dropped_exact d = ∅)
  && bool_decide (d_prekeys d = ∅)
  && bool_decide (d_memberships d = ∅)
  && bool_decide (d_peers d = ∅)
  && negb (d_outbound_dirty d)
  && bool_decide (d_seen_enc_new d = [])
  && negb (d_seen_enc_cleared d).

(** [HomeDirty::ack_upto]. *)
Definition ack_upto (owner : key) (upto : N) (d : HomeDirty) : HomeDirty :=
  d <| d_mailbox_acked ::= fun m =>
         <[owner := match m !! owner with Some u => N.max u upto | None => upto end]> m |>.

(** [HomeDirty::absorb]. *)
Definition absorb (self other : HomeDirty) : HomeDirty :=
  mk_dirty (d_server_identity self || d_server_identity other)
    (d_identities self ∪ d_identities other)
    (d_mailbox_new self ++ d_mailbox_new other)
    (union_with (fun u v => Some (N.max u v)) (d_mailbox_acked self) (d_mailbox_acked other))
    (d_mailbox_dropped self ++ d_mailbox_dropped other)
    (d_mailbox_cleared self ∪ d_mailbox_cleared other)
    (d_tokens self ∪ d_tokens other)
    (d_tokens_dropped self ∪ d_tokens_dropped other)
    (d_tokens_dropped_exact self ∪ d_tokens_dropped_exact other)
    (d_prekeys self ∪ d_prekeys other)
    (d_memberships self ∪ d_memberships other)
    (d_peers self ∪ d_peers other)
    (d_outbound_dirty self || d_outbound_dirty other)
    (d_seen_enc_new self ++ d_seen_enc_new other)
    (d_seen_enc_cleared self || d_seen_enc_cleared other).

(** ** Free functions *)

Definition envelope_expiry (now : N) (ttl : TtlBucket) (max_age : N) : N :=
  let cap := saturating_add now max_age in
  match ttl_secs ttl with
  | Some s => N.min (saturating_add now s) cap
  | None => cap
  end.

Definition share_token_dead (expires : N) (reserved : option bytes) (now : N) : bool :=
  let buf := match reserved with
             | Some _ => SHARE_RESERVED_BUFFER_SECS
             | None => SHARE_EXPIRED_BUFFER_SECS
             end in
  saturating_add expires buf <? now.

Definition contact_token_dead (window_start now : N) : bool :=
  CONTACT_CAP_IDLE_SECS <? saturating_sub now window_start.

Definition token_mailbox (kind : TokenKind) : key :=
  match kind with Share m _ _ _ => m | Contact m _ _ _ => m end.

Definition token_belongs_to (kind : TokenKind) (owner : key) : bool :=
  bool_decide (token_mailbox kind = owner).

(** The bytes a row is accounted for:
    [encode_padded().map(|b| b.len() as u64).unwrap_or(0)]. *)
Definition row_size (r : StoredEnvelope) : N :=
  match encode_padded (row_inner r) with Ok b => lenN b | Err _ => 0 end.

Definition remove_row (box : Mailbox) (sq : N) : Mailbox :=
  match bt_get sq (rows box) with
  | Some row =>
      box <| rows ::= bt_remove sq |>
          <| box_bytes ::= fun b => saturating_sub b (row_size row) |>
          <| idempotency ::= filter (fun kv => kv.2 <> sq) |>
  | None => box
  end.

(** The last entry with the wanted token wins, as in the scan of [token] and
    [token_mut]. *)
Fixpoint token_idx (want : key) (l : list (key * TokenKind)) : option nat :=
  match l with
  | [] => None
  | (k, _) :: l =>
      match token_idx want l with
      | Some i => Some (S i)
      | None => if bool_decide (k = want) then Some O else None
      end
  end.

(** [token]. *)
Definition find_token (want : key) (l : list (key * TokenKind)) : option TokenKind :=
  i ← token_idx want l; snd <$> l !! i.

(** Writing through the reference returned by [token_mut]. *)
Definition set_token (want : key) (kind : TokenKind) (l : list (key * TokenKind))
    : list (key * TokenKind) :=
  match token_idx want l with
  | Some i => alter (fun kv => (kv.1, kind)) i l
  | None => l
  end.

(** The scan of [newest_contact_idx_for]; [i] is the index of the head. *)
Fixpoint newest_scan (owner : key) (i : nat) (best : option (nat * N)) (l : list (key * TokenKind))
    : option (nat * N) :=
  match l with
  | [] => best
  | (_, Contact mb _ ws _) :: l =>
      if negb (bool_decide (mb = owner)) then newest_scan owner (S i) best l
      else
        let best' := match best with
                     | None => Some (i, ws)
                     | Some (bi, bs) =>
                         if (bs <? ws) || ((ws =? bs) && (bi <? i)%nat) then Some (i, ws) else best
                     end in
        newest_scan owner (S i) best' l
  | (_, Share _ _ _ _) :: l => newest_scan owner (S i) best l
  end.

Definition newest_contact_idx_for (owner : key) (l : list (key * TokenKind)) : option nat :=
  fst <$> newest_scan owner 0 None l.

(** The loop of [sweep_dead_tokens] that picks the survivors. *)
Fixpoint survivor_scan (i : nat) (survivors : gmap key nat) (best_start : gmap key N)
    (l : list (key * TokenKind)) : gmap key nat :=
  match l with
  | [] => survivors
  | (_, Contact mb _ ws _) :: l =>
      let keep := match best_start !! mb with
                  | None => true
                  | Some s => (s <? ws) || (ws =? s)
                  end in
      if keep then survivor_scan (S i) (<[mb := i]> survivors) (<[mb := ws]> best_start) l
      else survivor_scan (S i) survivors best_start l
  | (_, Share _ _ _ _) :: l => survivor_scan (S i) survivors best_start l
  end.

(** Whether the sweep reclaims a token: its owner is gone, or the token is past
    its fuse and is neither the survivor nor in grace. *)
Definition token_dead (boxes : gmap key Mailbox) (survives : bool) (now : N) (kind : TokenKind) : bool :=
  match boxes !! token_mailbox kind with
  | None => true
  | Some m =>
      if disabled m then true
      else match kind with
      | Share _ ex _ reserved => share_token_dead ex reserved now
      | Contact _ grace ws _ =>
          if survives then false
          else if match grace with Some g => now <? g | None => false end then false
          else contact_token_dead ws now
      end
  end.

(** [enumerate().filter_map(..)] with a predicate on index and entry. *)
Fixpoint collect_dead (dead : nat -> TokenKind -> bool) (i : nat) (l : list (key * TokenKind))
    : list key :=
  match l with
  | [] => []
  | (tok, kind) :: l =>
      if dead i kind then tok :: collect_dead dead (S i) l else collect_dead dead (S i) l
  end.

(** The eviction loop of [gc_mailbox]: while the mailbox is over its byte cap,
    the oldest row goes. One unit of fuel per row is enough. *)
Fixpoint evict (fuel : nat) (max_bytes : N) (box : Mailbox) : Mailbox * list N :=
  match fuel with
  | O => (box, [])
  | S fuel =>
      if max_bytes <? box_bytes box then
        match rows box with
        | [] => (box, [])
        | (oldest, _) :: _ =>
            let '(box', dropped) := evict fuel max_bytes (remove_row box oldest) in
            (box', oldest :: dropped)
        end
      else (box, [])
  end.

Definition row_expired (now max_age : N) (r : StoredEnvelope) : bool :=
  (row_expires_at r <=? now) || (max_age <? saturating_sub now (received_at r)).

(** The mailbox part of [gc_mailbox]: expiry first, then the byte cap. *)
Definition gc_box (now : N) (l : Limits) (box : Mailbox) : Mailbox * list N :=
  let expired := map fst (List.filter (fun kv => row_expired now (mailbox_max_age_secs l) kv.2) (rows box)) in
  let box := foldl remove_row box expired in
  let '(box, evicted) := evict (length (rows box)) (mailbox_max_bytes l) box in
  (box, expired ++ evicted).

(** ** Methods *)

Section Methods.
Context `{Crypto}.

Notation home := (stM HomeServer ServerError).

Definition home_server_id (s : HomeServer) : key := Hpke.keypair_server_id (hpke s).
Definition hpke_public (s : HomeServer) : key := Hpke.public (hpke s).
Definition sign_public (s : HomeServer) : key := vk_to_bytes (verifying_key (sign_key s)).
Definition token_count (s : HomeServer) : N := lenN (tokens s).
Definition outbound_len (s : HomeServer) : N := lenN (outbound s).

(** A wire error passed on by the question-mark operator. *)
Definition wire {A} (m : wresult A) : home A := lift (map_err Wire m).

(** An error of any kind reported as another one: [map_err(|_| e)]. *)
Definition deny {E A} (e : ServerError) (m : result E A) : home A := lift (map_err (fun _ => e) m).

(** Assignment to the journal. *)
Definition journal (f : HomeDirty -> HomeDirty) : home unit := modify (fun s => s <| dirty ::= f |>).

(** The bundle a server advertises for its keys. *)
Definition advertised (k : Hpke.HpkeKeypair) (sk : SigningKey) (h : rstring) (port : N)
    : wresult ServerBundle :=
  bundle_sign sk (mk_bundle (Hpke.keypair_server_id k) (Hpke.public k)
    (vk_to_bytes (verifying_key sk)) h port (arr_repeat 64 x00)).

(** [from_identity]; the [expect] on the bundle never fires ([advertised_ok]). *)
Definition from_identity (k : Hpke.HpkeKeypair) (sk : SigningKey) (h : rstring) (port : N)
    : wresult HomeServer :=
  b ← advertised k sk h port;
  Ok (mk_home _ k sk b 1700000000 default_limits ∅ ∅ ∅ [] ∅ ∅ ∅ [] 0 clean_dirty ∅).

(** [HomeServer::new]. *)
Definition home_new (seed : key) (sk : SigningKey) : wresult HomeServer :=
  from_identity (Hpke.generate seed) sk (lit "local") 8443.

(** [with_limits]. *)
Definition with_limits (l : Limits) (seed : key) (sk : SigningKey) : wresult HomeServer :=
  s ← home_new seed sk; Ok (s <| limits := l |>).

Definition rebind_host (h : rstring) (port : N) : home unit :=
  s ← get;
  b ← wire (advertised (hpke s) (sign_key s) h port);
  modify (fun s => s <| bundle := b |>);;
  journal (fun d => d <| d_server_identity := true |>).

(** [find_map] over the peer map; the code leaves the order to the map. *)
Definition peer_id_for_sign_key (s : HomeServer) (pk : key) : option key :=
  fst <$> List.find (fun kv => bool_decide (bundle_sign_public_key (peer_bundle kv.2) = pk))
            (map_to_list (peers s)).

Definition peer_refused (s : HomeServer) (id : key) : bool :=
  match peers s !! id with Some p => refused p | None => false end.

Definition mark_peer_dirty (peer : key) : home unit :=
  journal (fun d => d <| d_peers ::= union {[peer]} |>).

Definition mark_outbound_dirty : home unit := journal (fun d => d <| d_outbound_dirty := true |>).

Definition bundle_pin (s : HomeServer) (peer : key) : option ServerBundle :=
  peer_bundle <$> peers s !! peer.

Definition sign_rotate (s : HomeServer) (new_public_key : key) (sq : N) : sresult ServerSignRotate :=
  map_err Wire (rotate_sign (sign_key s) new_public_key sq).

(** *** Registration and discovery *)

Definition require_mailbox (owner : key) : home unit :=
  s ← get;
  match mailboxes s !! owner with
  | Some m => if disabled m then throw Denied else mret tt
  | None => throw Denied
  end.

Definition register (id pk : key) : home unit :=
  s ← get;
  match mailboxes s !! id with
  | Some _ => throw AlreadyRegistered
  | None =>
      modify (fun s => s <| mailboxes ::= <[id := mk_mailbox pk 1 [] ∅ 0 false]> |>);;
      journal (fun d => d <| d_identities ::= union {[id]} |>)
  end.

Definition register_share_token (owner token : key) (ttl_secs : option N) : home unit :=
  require_mailbox owner;;
  let ttl := default SHARE_TTL_DEFAULT ttl_secs in
  if negb (allowed_intro_ttl ttl) then throw Denied
  else
    modify (fun s => s <| tokens ::= fun l => l ++ [(token, Share owner (u64_add (now s) ttl) false None)] |>);;
    journal (fun d => d <| d_tokens ::= union {[token]} |>).

Definition mint_share_token (owner : key) (ttl_secs : option N) (rnd : key) : home key :=
  register_share_token owner rnd ttl_secs;; mret rnd.

Definition register_from_card (card : ContactCard) : home key :=
  s ← get;
  wire (card_verify card (now s));;
  if negb (bool_decide (binding_server_id (card_binding card) = home_server_id s)) then throw Denied
  else
    let id := card_identity_id card in
    register id (card_identity_public_key card);;
    modify (fun s => s <| directory ::= <[id := mk_directory (card_identity_public_key card)
      (card_revocation_public_key card) (card_binding card) (b_seq (card_binding card)) None]> |>);;
    register_share_token id (share_token card) None;;
    mret id.

(** [discovery]; the row is the record the HTTP layer encodes. *)
Definition discovery (s : HomeServer) (id : key) : sresult DiscoveryRecord :=
  match directory s !! id with
  | Some row => Ok (mk_discovery (dir_identity_public_key row) (dir_revocation_public_key row)
                      (dir_binding row) (dir_revocation row))
  | None => Err Denied
  end.

Definition note_group_membership (id : key) (gid : GroupId) : home unit :=
  s ← get;
  let l := default [] (memberships s !! id) in
  if bool_decide (gid ∈ l) then modify (fun s => s <| memberships ::= <[id := l]> |>)
  else
    modify (fun s => s <| memberships ::= <[id := l ++ [gid]]> |>);;
    journal (fun d => d <| d_memberships ::= union {[id]} |>).

(** *** Disabling *)

Definition disable_mailbox (owner : key) : home unit :=
  modify (fun s => s
    <| mailboxes ::= alter (fun box =>
         (foldl remove_row box (bt_keys (rows box))) <| disabled := true |>) owner |>
    <| prekeys ::= delete owner |>
    <| tokens ::= List.filter (fun kv => negb (bool_decide (token_mailbox kv.2 = owner))) |>);;
  journal (fun d => d <| d_mailbox_cleared ::= union {[owner]} |> <| d_tokens_dropped ::= union {[owner]} |>
                      <| d_prekeys ::= union {[owner]} |> <| d_identities ::= union {[owner]} |>).

(** The identity key on record for an identity: the directory's, else the mailbox's. *)
Definition known_key (s : HomeServer) (id : key) : option key :=
  match directory s !! id with
  | Some row => Some (dir_identity_public_key row)
  | None => owner_pk <$> mailboxes s !! id
  end.

Definition observe_binding (id : key) (b : HomeServerBinding) : home unit :=
  s ← get;
  pk ← lift (ok_or (known_key s id) Denied);
  vk ← lift (ok_or (vk_from_bytes pk) Denied);
  if negb (bool_decide (identity_id pk = id)) then throw Denied
  else
    deny Denied (binding_verify b vk (now s));;
    let stored_seq := default 0 (binding_seq <$> directory s !! id) in
    if b_seq b <=? stored_seq then mret tt
    else
      modify (fun s => s <| directory ::= fun d =>
        match d !! id with
        | Some row => <[id := row <| dir_binding := b |> <| binding_seq := b_seq b |>]> d
        | None => <[id := mk_directory pk (arr_repeat 32 x00) b (b_seq b) None]> d
        end |>);;
      journal (fun d => d <| d_identities ::= union {[id]} |>);;
      when (negb (bool_decide (binding_server_id b = home_server_id s))) (disable_mailbox id).

Definition ingest_revocation (stmt : RevocationStatement) : home (list GroupId) :=
  s ← get;
  let id := revoked_identity_id stmt in
  row ← lift (ok_or (directory s !! id) Denied);
  pk ← deny Denied (revocation_verifying_key (dir_revocation_public_key row));
  deny Denied (revocation_verify stmt pk);;
  if negb (bool_decide (id = identity_id (dir_identity_public_key row))) then throw Denied
  else
    modify (fun s => s <| directory ::= alter (fun row => row <| dir_revocation := Some stmt |>) id |>);;
    journal (fun d => d <| d_identities ::= union {[id]} |>);;
    disable_mailbox id;;
    s ← get;
    let removed := memberships s !! id in
    modify (fun s => s <| memberships ::= delete id |>);;
    when (bool_decide (is_Some removed)) (journal (fun d => d <| d_memberships ::= union {[id]} |>));;
    mret (default [] removed).

Definition mailbox_disabled (s : HomeServer) (owner : key) : bool :=
  match mailboxes s !! owner with Some m => disabled m | None => false end.

Definition mailbox_head (s : HomeServer) (owner : key) : N :=
  match mailboxes s !! owner with Some m => saturating_sub (next_seq m) 1 | None => 0 end.

(** *** Token sweeps *)

Definition drop_tokens_exact (dead : list key) : home N :=
  if bool_decide (dead = []) then mret 0
  else
    modify (fun s => s <| tokens ::= List.filter (fun kv => negb (bool_decide (kv.1 ∈ dead))) |>);;
    journal (fun d => d <| d_tokens ::= fun t => t ∖ list_to_set dead |>
                        <| d_tokens_dropped_exact ::= fun t => t ∪ list_to_set dead |>);;
    mret (lenN dead).

(** The tokens [sweep_dead_tokens_for] collects. *)
Definition dead_for (s : HomeServer) (owner : key) : list key :=
  let survivor := newest_contact_idx_for owner (tokens s) in
  collect_dead (fun i kind => token_belongs_to kind owner
    && token_dead (mailboxes s) (bool_decide (Some i = survivor)) (now s) kind) 0 (tokens s).

Definition sweep_dead_tokens_for (owner : key) : home N :=
  s ← get; drop_tokens_exact (dead_for s owner).

(** The tokens [sweep_dead_tokens] collects. *)
Definition dead_all (s : HomeServer) : list key :=
  let survivors := survivor_scan 0 ∅ ∅ (tokens s) in
  collect_dead (fun i kind =>
    token_dead (mailboxes s) (bool_decide (survivors !! token_mailbox kind = Some i)) (now s) kind)
    0 (tokens s).

Definition sweep_dead_tokens : home N :=
  s ← get; drop_tokens_exact (dead_all s).

Definition token_sweep_due (s : HomeServer) : bool :=
  TOKEN_SWEEP_INTERVAL_SECS <=? saturating_sub (now s) (last_token_sweep s).

Definition record_token_sweep : home unit := modify (fun s => s <| last_token_sweep := now s |>).

(** *** Capabilities and prekeys *)

Definition mint_contact_capability (owner rnd : key) : home key :=
  require_mailbox owner;;
  sweep_dead_tokens_for owner;;
  modify (fun s => s <| tokens ::= fun l => l ++ [(rnd, Contact owner None (now s) 0)] |>);;
  journal (fun d => d <| d_tokens ::= union {[rnd]} |>);;
  mret rnd.

Definition rotate_contact (owner old : key) (confirm : bool) (rnd : key) : home key :=
  new ← mint_contact_capability owner rnd;
  s ← get;
  let grace := u64_add (now s) CONTACT_GRACE_SECS in
  match find_token old (tokens s) with
  | Some (Contact mb _ ws wc) =>
      when (confirm && bool_decide (mb = owner))
        (modify (fun s => s <| tokens ::= set_token old (Contact mb (Some grace) ws wc) |>);;
         journal (fun d => d <| d_tokens ::= union {[old]} |>))
  | _ => mret tt
  end;;
  mret new.

Definition publish_prekey (owner : key) (blob : bytes) : home unit :=
  require_mailbox owner;;
  modify (fun s => s <| prekeys ::= fun p => <[owner := default [] (p !! owner) ++ [blob]]> p |>);;
  journal (fun d => d <| d_prekeys ::= union {[owner]} |>).

Definition fetch_prekey (token : key) : home bytes :=
  s ← get;
  match find_token token (tokens s) with
  | Some (Share mb ex burned reserved) =>
      if negb (negb burned && (now s <? ex)) then throw Denied
      else
        match reserved with
        | Some blob => mret blob
        | None =>
            match prekeys s !! mb with
            | Some (blob :: q) =>
                modify (fun s => s <| prekeys ::= <[mb := q]> |>
                                   <| tokens ::= set_token token (Share mb ex burned (Some blob)) |>);;
                journal (fun d => d <| d_prekeys ::= union {[mb]} |> <| d_tokens ::= union {[token]} |>);;
                mret blob
            | _ => throw Denied
            end
        end
  | _ => throw Denied
  end.

(** *** Appending *)

Definition authorize_append (token : key) : home key :=
  s ← get;
  mailbox ← match find_token token (tokens s) with
            | Some (Share mb ex burned _) =>
                if negb burned && (now s <? ex) then mret mb else throw Denied
            | Some (Contact mb grace ws wc) =>
                if match grace with Some g => g <=? now s | None => false end then throw Denied
                else
                  let '(ws, wc) := if 60 <=? saturating_sub (now s) ws then (now s, 0) else (ws, wc) in
                  modify (fun s => s <| tokens ::= set_token token (Contact mb grace ws wc) |>);;
                  if RATE_PER_MIN <=? wc then throw Denied
                  else
                    modify (fun s => s <| tokens ::= set_token token (Contact mb grace ws (wc + 1)) |>);;
                    journal (fun d => d <| d_tokens ::= union {[token]} |>);;
                    mret mb
            | None => throw Denied
            end;
  s ← get;
  if mailbox_disabled s mailbox then throw Denied else mret mailbox.

Definition burn_if_share (token : key) : home unit :=
  s ← get;
  match find_token token (tokens s) with
  | Some (Share mb ex false reserved) =>
      modify (fun s => s <| tokens ::= set_token token (Share mb ex true reserved) |>);;
      journal (fun d => d <| d_tokens ::= union {[token]} |>)
  | _ => mret tt
  end.

Definition gc_mailbox (owner : key) : home unit :=
  s ← get;
  match mailboxes s !! owner with
  | None => mret tt
  | Some box =>
      let '(box, dropped) := gc_box (now s) (limits s) box in
      modify (fun s => s <| mailboxes ::= <[owner := box]> |>);;
      when (negb (bool_decide (dropped = [])))
        (journal (fun d => d <| d_mailbox_dropped ::= fun l => l ++ map (pair owner) dropped |>
                             <| d_identities ::= union {[owner]} |>))
  end.

(** The mailbox after the insertion of one row. *)
Definition push_row (now : N) (l : Limits) (inner : InnerEnvelope) (size : N) (box : Mailbox) : Mailbox :=
  let sq := next_seq box in
  box <| next_seq ::= fun n => u64_add n 1 |>
      <| idempotency ::= <[idempotency_token inner := sq]> |>
      <| box_bytes ::= fun b => u64_add b size |>
      <| rows ::= bt_insert sq (mk_stored sq now
           (envelope_expiry now (ttl_bucket inner) (mailbox_max_age_secs l)) inner) |>.

Definition append_inner (inner : InnerEnvelope) : home N :=
  let token := delivery_capability inner in
  mailbox ← authorize_append token;
  s ← get;
  match mailboxes s !! mailbox with
  | None => throw Denied
  | Some box =>
      match idempotency box !! idempotency_token inner with
      | Some sq => mret sq
      | None =>
          l ← wire (encode_padded inner);
          let sq := next_seq box in
          modify (fun s => s <| mailboxes ::=
            <[mailbox := push_row (now s) (limits s) inner (lenN l) box]> |>);;
          journal (fun d => d <| d_mailbox_new ::= fun l => l ++ [(mailbox, sq)] |>
                              <| d_identities ::= union {[mailbox]} |>);;
          burn_if_share token;;
          gc_mailbox mailbox;;
          mret sq
      end
  end.

Definition ingest (o : OuterEnvelope) : home N :=
  enc ← wire (Hpke.encap_key (hpke_ciphertext o));
  s ← get;
  match seen_enc s !! enc with
  | Some sq => mret sq
  | None =>
      inner ← wire (Hpke.open_outer (hpke s) o);
      sq ← append_inner inner;
      s ← get;
      when (HPKE_ENC_WINDOW <=? N.of_nat (size (seen_enc s)))
        (modify (fun s => s <| seen_enc := ∅ |>);;
         journal (fun d => d <| d_seen_enc_cleared := true |>));;
      modify (fun s => s <| seen_enc ::= <[enc := sq]> |>);;
      s ← get;
      when (negb (d_seen_enc_cleared (dirty s)))
        (journal (fun d => d <| d_seen_enc_new ::= fun l => l ++ [enc] |>));;
      mret sq
  end.

(** *** Owner requests *)

Definition gc_owner_nonces (now_unix : N) : home unit :=
  modify (fun s => s <| owner_nonces ::=
    filter (fun kv => saturating_sub now_unix kv.2 <= MAX_AGE_SECS) |>).

Definition check_owner (owner : key) (auth : MailboxOwnerAuth) (now_unix : N) (expect : AuthScope)
    : home unit :=
  s ← get;
  match mailboxes s !! owner with
  | None => throw OwnerAuth
  | Some box =>
      if disabled box then throw OwnerAuth
      else if negb (bool_decide (mailbox_hint auth = to_vec owner)) then throw OwnerAuth
      else
        pk ← lift (ok_or (vk_from_bytes (owner_pk box)) OwnerAuth);
        deny OwnerAuth (auth_verify auth pk now_unix expect);;
        gc_owner_nonces now_unix;;
        s ← get;
        match owner_nonces s !! auth_nonce auth with
        | Some _ => throw OwnerAuth
        | None => modify (fun s => s <| owner_nonces ::= <[auth_nonce auth := ts auth]> |>)
        end
  end.

Definition fetch (owner : key) (auth : MailboxOwnerAuth) (now_unix : N) : home (list StoredEnvelope) :=
  s ← get;
  check_owner owner auth now_unix (scope_body (home_server_id s) (lit "POST") (lit "/v1/mailbox/fetch"));;
  if (limit auth =? 0) || (FETCH_LIMIT_MAX <? limit auth) then throw FetchLimit
  else
    gc_mailbox owner;;
    s ← get;
    match mailboxes s !! owner with
    | None => throw OwnerAuth
    | Some box =>
        mret (takeN (limit auth)
          (List.filter (fun r => (cursor auth <? row_seq r) && (now s <? row_expires_at r))
             (bt_values (rows box))))
    end.

(** The removal loop of [ack]; the idempotency entries stay. *)
Definition ack_row (box : Mailbox) (sq : N) : Mailbox :=
  match bt_get sq (rows box) with
  | Some row =>
      box <| rows ::= bt_remove sq |>
          <| box_bytes ::= fun b => saturating_sub b (row_size row) |>
  | None => box
  end.

Definition ack (owner : key) (auth : MailboxOwnerAuth) (now_unix : N) : home unit :=
  s ← get;
  check_owner owner auth now_unix (scope_body (home_server_id s) (lit "POST") (lit "/v1/mailbox/ack"));;
  s ← get;
  match mailboxes s !! owner with
  | None => throw OwnerAuth
  | Some box =>
      let up_to := cursor auth in
      let drop := List.filter (fun k => k <=? up_to) (bt_keys (rows box)) in
      if bool_decide (drop = []) then mret tt
      else
        modify (fun s => s <| mailboxes ::= <[owner := foldl ack_row box drop]> |>);;
        journal (fun d => (ack_upto owner up_to d) <| d_identities ::= union {[owner]} |>)
  end.

(** *** Outbound *)

Definition enqueue (o : OuterEnvelope) : home Enqueue :=
  s ← get;
  if bool_decide (destination_server_id o = home_server_id s) then
    sq ← ingest o; mret (Local sq)
  else
    modify (fun s => s <| outbound ::= fun l =>
      l ++ [mk_outbound (destination_server_id o) o (now s) (now s) 1] |>);;
    mark_outbound_dirty;;
    mret Queued.

Definition enqueue_from_owner (owner : key) (auth : MailboxOwnerAuth) (now_unix : N) (o : OuterEnvelope)
    : home Enqueue :=
  s ← get;
  check_owner owner auth now_unix
    (scope_header (home_server_id s) (lit "POST") (lit "/v1/envelopes") (encode_outer o));;
  require_mailbox owner;;
  enqueue o.

Definition defer_outbound (until : N) : home unit :=
  modify (fun s => s <| outbound ::= map (fun r => r <| next_attempt := until |>) |>);;
  s ← get;
  when (negb (bool_decide (lenN (outbound s) = 0))) mark_outbound_dirty.

Definition capability_mailbox (s : HomeServer) (token : key) : option key :=
  token_mailbox <$> find_token token (tokens s).

Definition fanout_hpke_allowed (s : HomeServer) (pk : key) : bool :=
  bool_decide (Hpke.public (hpke s) = pk)
  || existsb (fun kv => bool_decide (bundle_hpke_public_key (peer_bundle kv.2) = pk))
       (map_to_list (peers s)).
End Methods.

Notation home := (stM HomeServer ServerError).
