(* ===== verification/MailboxLemmas.v ===== *)
(** * Mailbox invariants

    The invariant of one mailbox and its preservation by row insertion,
    removal, acknowledgement and garbage collection. *)

From S2P Require Export Home.

(** Rows are in sequence order below [next_seq], each under its own number and
    recorded in the idempotency map; the byte count is exact; a disabled
    mailbox is empty. *)
Record box_wf (box : Mailbox) : Prop := {
  wf_sorted : bt_sorted (rows box);
  wf_rows : forall k r, In (k, r) (rows box) ->
      row_seq r = k /\ 1 <= k < next_seq box
      /\ idempotency box !! idempotency_token (row_inner r) = Some k;
  wf_idem : forall t k, idempotency box !! t = Some k -> 1 <= k < next_seq box;
  wf_bytes : box_bytes box = bt_sum row_size (rows box);
  wf_next : 1 <= next_seq box;
  wf_disabled : disabled box = true -> rows box = []
}.

Lemma new_box_wf pk : box_wf (mk_mailbox pk 1 [] ∅ 0 false).
Proof. by split. Qed.

Section Rows.
Implicit Types (box : Mailbox) (sq : N).

(** ** Removal *)

Lemma remove_row_spec box sq :
  box_wf box ->
  rows (remove_row box sq) = bt_remove sq (rows box)
  /\ next_seq (remove_row box sq) = next_seq box
  /\ owner_pk (remove_row box sq) = owner_pk box
  /\ disabled (remove_row box sq) = disabled box
  /\ box_bytes (remove_row box sq) <= box_bytes box.
Proof.
  intros Hwf. unfold remove_row. destruct (bt_get sq (rows box)) as [r|] eqn:E; cbn.
  - split_and!; try done. unfold saturating_sub. lia.
  - split_and!; try done. symmetry. by apply bt_remove_absent, bt_get_None.
Qed.

Lemma remove_row_wf box sq : box_wf box -> box_wf (remove_row box sq).
Proof.
  intros Hwf. unfold remove_row. destruct (bt_get sq (rows box)) as [r|] eqn:E; [|done].
  destruct Hwf as [Hs Hr Hi Hb Hn Hd]. split; cbn.
  - by apply bt_sorted_filter.
  - intros k r' [Hin Hne]%bt_remove_In. destruct (Hr _ _ Hin) as (? & ? & Hid). do 2 (split; [done|]).
    apply map_lookup_filter_Some. auto.
  - intros t k [Ht _]%map_lookup_filter_Some. eauto.
  - unfold saturating_sub. rewrite Hb, (bt_sum_remove row_size sq r) by done. lia.
  - done.
  - intros Hdis. by rewrite (Hd Hdis).
Qed.

Lemma ack_row_spec box sq :
  rows (ack_row box sq) = bt_remove sq (rows box)
  /\ next_seq (ack_row box sq) = next_seq box
  /\ idempotency (ack_row box sq) = idempotency box
  /\ disabled (ack_row box sq) = disabled box
  /\ box_bytes (ack_row box sq) <= box_bytes box.
Proof.
  unfold ack_row. destruct (bt_get sq (rows box)) as [r|] eqn:E; cbn.
  - split_and!; try done. unfold saturating_sub. lia.
  - split_and!; try done. symmetry. by apply bt_remove_absent, bt_get_None.
Qed.

Lemma ack_row_wf box sq : box_wf box -> box_wf (ack_row box sq).
Proof.
  intros Hwf. unfold ack_row. destruct (bt_get sq (rows box)) as [r|] eqn:E; [|done].
  destruct Hwf as [Hs Hr Hi Hb Hn Hd]. split; cbn; try done.
  - by apply bt_sorted_filter.
  - intros k r' [Hin Hne]%bt_remove_In. eauto.
  - unfold saturating_sub. rewrite Hb, (bt_sum_remove row_size sq r) by done. lia.
  - intros Hdis. by rewrite (Hd Hdis).
Qed.

(** ** Folds *)

(** What a fold of removals keeps: the rows whose number is not in the list. *)
Lemma fold_remove_rows (f : Mailbox -> N -> Mailbox) ks box :
  (forall b k, box_wf b -> box_wf (f b k)) ->
  (forall b k, box_wf b -> rows (f b k) = bt_remove k (rows b)
      /\ next_seq (f b k) = next_seq b /\ disabled (f b k) = disabled b
      /\ box_bytes (f b k) <= box_bytes b) ->
  box_wf box ->
  box_wf (foldl f box ks)
  /\ rows (foldl f box ks) = List.filter (fun kv => negb (bool_decide (kv.1 ∈ ks))) (rows box)
  /\ next_seq (foldl f box ks) = next_seq box
  /\ disabled (foldl f box ks) = disabled box
  /\ box_bytes (foldl f box ks) <= box_bytes box.
Proof.
  intros Hwf Hspec. revert box; induction ks as [|k ks IH]; intros box Hbox; cbn.
  - split_and!; try done. symmetry. clear. induction (rows box) as [|[k r] l IH]; cbn; [done|].
    rewrite bool_decide_eq_false_2 by set_solver. cbn. by f_equal.
  - destruct (Hspec box k Hbox) as (Hr & Hn & Hd & Hb).
    destruct (IH (f box k) (Hwf _ _ Hbox)) as (H1 & H2 & H3 & H4 & H5).
    split_and!; [done | | congruence | congruence | lia].
    rewrite H2, Hr. clear. unfold bt_remove. induction (rows box) as [|[k' r] l IH]; cbn; [done|].
    destruct (N.eqb_spec k' k) as [->|Hne]; cbn.
    + rewrite (bool_decide_eq_true_2 (k ∈ k :: ks)) by set_solver. cbn. done.
    + rewrite IH. destruct (decide (k' ∈ ks)).
      * rewrite !bool_decide_eq_true_2 by set_solver. done.
      * rewrite !bool_decide_eq_false_2 by set_solver. done.
Qed.
End Rows.

(** ** Insertion *)

(** A mailbox that still has room in the sequence and byte counters. *)
Definition box_room (size : N) (box : Mailbox) : Prop :=
  next_seq box < U64_MAX /\ box_bytes box + size <= U64_MAX.

Lemma push_row_spec nw l inner size box :
  box_wf box -> box_room size box ->
  let sq := next_seq box in
  let row := mk_stored sq nw (envelope_expiry nw (ttl_bucket inner) (mailbox_max_age_secs l)) inner in
  let box' := push_row nw l inner size box in
  rows box' = rows box ++ [(sq, row)] /\ next_seq box' = sq + 1
  /\ box_bytes box' = box_bytes box + size
  /\ idempotency box' = <[idempotency_token inner := sq]> (idempotency box)
  /\ disabled box' = disabled box.
Proof.
  intros Hwf [Hn Hb]. cbn. rewrite bt_insert_last.
  - split_and!; try done; unfold u64_add, U64_MAX in *; rewrite N.mod_small; lia.
  - rewrite Forall_forall. intros [k r] Hin%list_elem_of_In. cbn.
    destruct (wf_rows _ Hwf _ _ Hin) as (_ & ? & _). lia.
Qed.

Lemma push_row_wf nw l inner b box :
  box_wf box -> box_room (lenN b) box -> disabled box = false ->
  idempotency box !! idempotency_token inner = None -> encode_padded inner = Ok b ->
  box_wf (push_row nw l inner (lenN b) box).
Proof.
  intros Hwf Hroom Hd Hid Henc.
  destruct (push_row_spec nw l inner (lenN b) box Hwf Hroom) as (Hr & Hn & Hb & Hi & Hd').
  destruct Hwf as [Hs Hrows Hidem Hbytes Hnext _]. split.
  - rewrite Hr. apply bt_sorted_app. split_and!; [done | done |].
    intros [k r] [k' r'] Hin [[= <- _]|[]]. by apply (Hrows _ _ Hin).
  - rewrite Hr, Hn, Hi. intros k r [Hin|[[= <- <-]|[]]]%in_app_or.
    + destruct (Hrows _ _ Hin) as (? & ? & Hik). split; [done|]. split; [lia|].
      rewrite lookup_insert_ne; [done|]. intros Heq. rewrite Heq in Hid. congruence.
    + cbn. split; [done|]. split; [lia|]. by rewrite lookup_insert_eq.
  - rewrite Hi, Hn. intros t k [[_ <-]|[_ Hk]]%lookup_insert_Some; [lia|].
    specialize (Hidem _ _ Hk). lia.
  - rewrite Hb, Hr, bt_sum_app, Hbytes. cbn. unfold row_size. cbn. rewrite Henc. lia.
  - rewrite Hn. lia.
  - rewrite Hd', Hd. done.
Qed.

(** ** Garbage collection *)

Lemma fold_remove_row ks box :
  box_wf box ->
  box_wf (foldl remove_row box ks)
  /\ rows (foldl remove_row box ks) = List.filter (fun kv => negb (bool_decide (kv.1 ∈ ks))) (rows box)
  /\ next_seq (foldl remove_row box ks) = next_seq box
  /\ disabled (foldl remove_row box ks) = disabled box
  /\ box_bytes (foldl remove_row box ks) <= box_bytes box.
Proof.
  apply fold_remove_rows; [apply remove_row_wf|]. intros b k Hb.
  destruct (remove_row_spec b k Hb) as (? & ? & ? & ? & ?). auto.
Qed.

Lemma fold_ack_row ks box :
  box_wf box ->
  box_wf (foldl ack_row box ks)
  /\ rows (foldl ack_row box ks) = List.filter (fun kv => negb (bool_decide (kv.1 ∈ ks))) (rows box)
  /\ next_seq (foldl ack_row box ks) = next_seq box
  /\ disabled (foldl ack_row box ks) = disabled box
  /\ box_bytes (foldl ack_row box ks) <= box_bytes box.
Proof.
  apply fold_remove_rows; [apply ack_row_wf|]. intros b k _.
  destruct (ack_row_spec b k) as (? & ? & ? & ? & ?). auto.
Qed.

Lemma fold_ack_idem ks box : idempotency (foldl ack_row box ks) = idempotency box.
Proof.
  revert box; induction ks as [|k ks IH]; intros box; cbn; [done|].
  rewrite IH. by destruct (ack_row_spec box k) as (_ & _ & ? & _).
Qed.

(** With a unit of fuel per row the loop ends below the cap: the rows left are a
    suffix, and they are all of them when nothing was over the cap. *)
Lemma evict_spec fuel max box :
  box_wf box -> (length (rows box) <= fuel)%nat ->
  let '(box', dropped) := evict fuel max box in
  box_wf box' /\ box_bytes box' <= max /\ next_seq box' = next_seq box
  /\ disabled box' = disabled box
  /\ rows box' = dropN (lenN dropped) (rows box)
  /\ map fst (takeN (lenN dropped) (rows box)) = dropped
  /\ (box_bytes box <= max -> dropped = []).
Proof.
  revert box; induction fuel as [|fuel IH]; intros box Hwf Hlen; cbn [evict].
  { destruct (rows box) eqn:E; [|cbn in Hlen; lia]. split_and!; try done.
    rewrite (wf_bytes _ Hwf), E. cbn. lia. }
  destruct (N.ltb_spec max (box_bytes box)) as [Hover|Hunder].
  - destruct (rows box) as [|[k r] t] eqn:E.
    { pose proof (wf_bytes _ Hwf) as Hb. rewrite E in Hb. cbn in Hb. lia. }
    pose proof (wf_sorted _ Hwf) as Hs. rewrite E in Hs.
    destruct (remove_row_spec box k Hwf) as (Hr & Hn & _ & Hd & _).
    rewrite E, bt_remove_head in Hr by done.
    specialize (IH (remove_row box k) (remove_row_wf _ _ Hwf)).
    rewrite Hr in IH. cbn in Hlen. specialize (IH ltac:(lia)).
    destruct (evict fuel max (remove_row box k)) as [box' dropped].
    destruct IH as (H1 & H2 & H3 & H4 & H5 & H6 & H7).
    rewrite lenN_cons, takeN_cons, dropN_cons. cbn. rewrite H6.
    split_and!; try done; try congruence. lia.
  - split_and!; done.
Qed.

(** The rows that survive: unexpired, and the newest of those when the byte cap
    bites. *)
Lemma gc_box_spec nw l box :
  box_wf box ->
  let '(box', dropped) := gc_box nw l box in
  let live := List.filter (fun kv => negb (row_expired nw (mailbox_max_age_secs l) kv.2)) (rows box) in
  exists n, box_wf box' /\ box_bytes box' <= mailbox_max_bytes l
  /\ next_seq box' = next_seq box /\ disabled box' = disabled box
  /\ rows box' = dropN n live
  /\ (box_bytes box <= mailbox_max_bytes l -> n = 0).
Proof.
  intros Hwf. unfold gc_box.
  set (dead := fun kv : N * StoredEnvelope => row_expired nw (mailbox_max_age_secs l) kv.2).
  set (expired := map fst (List.filter dead (rows box))).
  destruct (fold_remove_row expired box Hwf) as (H1 & H2 & H3 & H4 & H5).
  pose proof (evict_spec (length (rows (foldl remove_row box expired))) (mailbox_max_bytes l) _ H1
    ltac:(done)) as He.
  destruct (evict _ _ _) as [box' dropped]. destruct He as (E1 & E2 & E3 & E4 & E5 & _ & E7).
  exists (lenN dropped). split_and!; try done; try congruence.
  - rewrite E5, H2. f_equal. apply filter_ext_in. intros [k r] Hin. cbn. f_equal.
    destruct (row_expired nw (mailbox_max_age_secs l) r) eqn:Ex.
    + apply bool_decide_eq_true_2. unfold expired. rewrite list_elem_of_In. apply in_map_iff.
      exists (k, r). split; [done|]. by apply filter_In.
    + apply bool_decide_eq_false_2. unfold expired. rewrite list_elem_of_In, in_map_iff.
      intros ([k' r'] & Hk & [Hin' Hd]%filter_In). cbn in Hk. subst k'.
      assert (r' = r) as -> by (pose proof (bt_In_get _ _ _ (wf_sorted _ Hwf) Hin);
        pose proof (bt_In_get _ _ _ (wf_sorted _ Hwf) Hin'); congruence).
      unfold dead in Hd. cbn in Hd. congruence.
  - intros Hle. rewrite E7 by lia. done.
Qed.
