(* ===== verification/HomeInv.v ===== *)
(** * The home server's invariant

    The invariant of the whole state and its preservation by every method. *)

From S2P Require Export MailboxLemmas.

(** ** Tokens *)

Lemma token_idx_Some want l i :
  token_idx want l = Some i -> exists kind, l !! i = Some (want, kind).
Proof.
  revert i; induction l as [|[k kind] l IH]; intros i; cbn; [done|].
  destruct (token_idx want l) as [j|] eqn:E.
  - intros [= <-]. cbn. eauto.
  - case_bool_decide; intros; simplify_eq. cbn. eauto.
Qed.

Lemma token_idx_None want l : token_idx want l = None <-> want ∉ map fst l.
Proof.
  induction l as [|[k kind] l IH]; cbn; [set_solver|].
  destruct (token_idx want l) as [j|] eqn:E; cbn.
  - split; [done|]. intros Hn. destruct (token_idx_Some _ _ _ E) as [kind' Hl].
    exfalso. apply Hn. apply list_elem_of_further. apply list_elem_of_lookup_2 in Hl.
    apply list_elem_of_In in Hl. apply list_elem_of_In, in_map_iff. by exists (want, kind').
  - rewrite not_elem_of_cons. case_bool_decide; naive_solver.
Qed.

Lemma find_token_In want l kind : find_token want l = Some kind -> In (want, kind) l.
Proof.
  unfold find_token. destruct (token_idx want l) as [i|] eqn:E; cbn; [|done].
  destruct (token_idx_Some _ _ _ E) as [k Hk]. rewrite Hk. cbn. intros [= ->].
  apply list_elem_of_lookup_2 in Hk. by apply list_elem_of_In.
Qed.

Lemma find_token_None want l : find_token want l = None <-> want ∉ map fst l.
Proof.
  rewrite <- token_idx_None. unfold find_token.
  destruct (token_idx want l) as [i|] eqn:E; cbn; [|done].
  destruct (token_idx_Some _ _ _ E) as [k ->]. done.
Qed.

Lemma set_token_In want kind l t k :
  In (t, k) (set_token want kind l) -> In (t, k) l \/ (t = want /\ k = kind).
Proof.
  unfold set_token. destruct (token_idx want l) as [i|] eqn:E; [|auto].
  destruct (token_idx_Some _ _ _ E) as [k0 Hk0].
  rewrite <- !list_elem_of_In, !list_elem_of_lookup. intros [j Hj].
  destruct (decide (i = j)) as [<-|Hne].
  - rewrite list_lookup_alter_eq, Hk0 in Hj. cbn in Hj. simplify_eq. auto.
  - rewrite list_lookup_alter_ne in Hj by done. eauto.
Qed.

Lemma set_token_keys want kind l : map fst (set_token want kind l) = map fst l.
Proof.
  unfold set_token. destruct (token_idx want l) as [i|]; [|done].
  revert i; induction l as [|[k v] l IH]; intros [|i]; cbn; [done..|]. by f_equal.
Qed.

Lemma token_idx_keys want l l' : map fst l = map fst l' -> token_idx want l = token_idx want l'.
Proof.
  revert l'; induction l as [|[k v] l IH]; intros [|[k' v'] l']; cbn; try done.
  intros [= -> Hl]. by rewrite (IH _ Hl).
Qed.

Lemma find_set_token want t kind l :
  find_token want (set_token t kind l) =
  if decide (want = t) then (match find_token t l with Some _ => Some kind | None => None end)
  else find_token want l.
Proof.
  unfold find_token at 1. rewrite (token_idx_keys _ _ l (set_token_keys t kind l)).
  destruct (decide (want = t)) as [->|Hne].
  - unfold find_token, set_token. destruct (token_idx t l) as [i|] eqn:E; cbn; [|done].
    destruct (token_idx_Some _ _ _ E) as [k Hk]. by rewrite list_lookup_alter_eq, Hk.
  - unfold find_token, set_token. destruct (token_idx want l) as [i|] eqn:E; cbn; [|done].
    destruct (token_idx_Some _ _ _ E) as [k Hk].
    destruct (token_idx t l) as [j|] eqn:Et; [|done].
    destruct (token_idx_Some _ _ _ Et) as [kj Hj].
    rewrite list_lookup_alter_ne by (intros ->; congruence). done.
Qed.

Lemma set_token_twice t k1 k2 l : set_token t k2 (set_token t k1 l) = set_token t k2 l.
Proof.
  unfold set_token at 1. rewrite (token_idx_keys _ _ l (set_token_keys t k1 l)).
  unfold set_token. destruct (token_idx t l) as [i|]; [|done].
  clear. revert i; induction l as [|[k v] l IH]; intros [|i]; cbn; [done..|]. f_equal. apply IH.
Qed.

Lemma token_idx_app want l k v :
  token_idx want (l ++ [(k, v)]) = if decide (want = k) then Some (length l) else token_idx want l.
Proof.
  induction l as [|[k' v'] l IH]; cbn.
  - destruct (decide (want = k)) as [->|]; [by rewrite bool_decide_eq_true_2|].
    rewrite bool_decide_eq_false_2 by congruence. done.
  - rewrite IH. destruct (decide (want = k)); done.
Qed.

Lemma find_token_app want l k v :
  find_token want (l ++ [(k, v)]) = if decide (want = k) then Some v else find_token want l.
Proof.
  unfold find_token. rewrite token_idx_app. destruct (decide (want = k)) as [->|]; cbn.
  - by rewrite lookup_app_r, Nat.sub_diag.
  - destruct (token_idx want l) as [i|] eqn:E; cbn; [|done].
    destruct (token_idx_Some _ _ _ E) as [kd Hk]. rewrite lookup_app_l; [done|].
    by eapply lookup_lt_Some.
Qed.

(** Which mailbox each token opens; the other fields of a token may move. *)
Definition token_owners (l : list (key * TokenKind)) : list (key * key) :=
  map (fun kv => (kv.1, token_mailbox kv.2)) l.

Lemma token_owners_set t k k' l :
  find_token t l = Some k -> token_mailbox k' = token_mailbox k ->
  token_owners (set_token t k' l) = token_owners l.
Proof.
  intros Hf Hm. unfold find_token in Hf. unfold set_token.
  destruct (token_idx t l) as [i|] eqn:E; cbn in Hf; [|done].
  clear E. revert i Hf; induction l as [|[t' v] l IH]; intros [|i] Hf; cbn in *; [done..| |].
  - simplify_eq. by rewrite Hm.
  - f_equal. by apply IH.
Qed.

Lemma token_owners_In l l' t k :
  token_owners l' = token_owners l -> In (t, k) l' ->
  exists k', In (t, k') l /\ token_mailbox k' = token_mailbox k.
Proof.
  intros Heq Hin. apply (in_map (fun kv => (kv.1, token_mailbox kv.2))) in Hin.
  change (In (t, token_mailbox k) (token_owners l')) in Hin. rewrite Heq in Hin.
  apply in_map_iff in Hin as ([t' k'] & Hk & Hin'). cbn in Hk. simplify_eq. eauto.
Qed.

(** ** The invariant *)

Section Invariant.
Context `{Crypto}.
Implicit Types (s : HomeServer) (id owner tok : key).

Definition live s id : Prop := exists box, mailboxes s !! id = Some box /\ disabled box = false.

(** [n] bounds the number of rows ever appended. *)
Record home_inv (n : N) s : Prop := {
  inv_boxes : forall id box, mailboxes s !! id = Some box ->
      box_wf box /\ next_seq box <= n + 1 /\ box_bytes box <= mailbox_max_bytes (limits s);
  inv_tokens : forall t k, In (t, k) (tokens s) -> live s (token_mailbox k);
  inv_prekeys : forall id, is_Some (prekeys s !! id) -> live s id;
  inv_directory : forall id row, directory s !! id = Some row ->
      is_Some (mailboxes s !! id)
      /\ (is_Some (dir_revocation row) -> mailbox_disabled s id = true);
  inv_limits : mailbox_max_bytes (limits s) + A4_OUTER <= U64_MAX
}.

(** The invariant only looks at five fields. *)
Lemma home_inv_frame n s s' :
  mailboxes s' = mailboxes s -> tokens s' = tokens s -> prekeys s' = prekeys s ->
  directory s' = directory s -> limits s' = limits s -> home_inv n s -> home_inv n s'.
Proof.
  intros Hm Ht Hp Hd Hl [H1 H2 H3 H4 H5].
  split; unfold live, mailbox_disabled in *; rewrite ?Hm, ?Ht, ?Hp, ?Hd, ?Hl; eauto.
Qed.

Lemma home_inv_mono n m s : n <= m -> home_inv n s -> home_inv m s.
Proof.
  intros Hle [H1 H2 H3 H4 H5]. split; try done. intros id box Hb.
  destruct (H1 _ _ Hb) as (? & ? & ?). split_and!; [done | lia | done].
Qed.

Lemma home_inv_dirty n s f : home_inv n s -> home_inv n (s <| dirty ::= f |>).
Proof. by apply home_inv_frame. Qed.

Lemma journal_preserves n f : preserves (home_inv n) (journal f).
Proof. apply preserves_modify. intros s. apply home_inv_dirty. Qed.

(** Tokens may change as long as each belongs to a live mailbox. *)
Lemma home_inv_tokens n s f :
  (forall t k, In (t, k) (f (tokens s)) -> In (t, k) (tokens s) \/ live s (token_mailbox k)) ->
  home_inv n s -> home_inv n (s <| tokens ::= f |>).
Proof.
  intros Hf [H1 H2 H3 H4 H5]. split; try done. cbn. intros t k Hin.
  destruct (Hf _ _ Hin) as [Hold|Hl]; [by eapply H2 | done].
Qed.

(** A mailbox may be replaced by a well-formed one that is disabled iff it was. *)
Lemma home_inv_box n m s id box box' :
  mailboxes s !! id = Some box -> box_wf box' -> next_seq box' <= m + 1 -> n <= m ->
  box_bytes box' <= mailbox_max_bytes (limits s) -> disabled box' = disabled box ->
  home_inv n s -> home_inv m (s <| mailboxes ::= <[id := box']> |>).
Proof.
  intros Hb Hwf Hn Hle Hbytes Hd Hinv. pose proof (home_inv_mono n m s Hle Hinv) as [H1 H2 H3 H4 H5].
  assert (forall i, live s i -> live (s <| mailboxes ::= <[id := box']> |>) i) as Hlive.
  { intros i (b & Hi & Hdi). unfold live. cbn. destruct (decide (i = id)) as [->|Hne].
    - exists box'. rewrite lookup_insert_eq. split; congruence.
    - exists b. rewrite lookup_insert_ne by done. done. }
  split; cbn; eauto.
  - intros i b [[<- <-]|[Hne Hi]]%lookup_insert_Some; [done | eauto].
  - intros i row Hrow. destruct (H4 _ _ Hrow) as [Hs Hr]. split.
    + destruct (decide (i = id)) as [->|Hne]; [rewrite lookup_insert_eq; eauto|].
      by rewrite lookup_insert_ne.
    + intros Hrev. specialize (Hr Hrev). unfold mailbox_disabled in *. cbn.
      destruct (decide (i = id)) as [->|Hne].
      * rewrite lookup_insert_eq. rewrite Hb in Hr. congruence.
      * by rewrite lookup_insert_ne.
Qed.
End Invariant.

#[export] Hint Resolve journal_preserves : pres.

(** ** Preservation, method by method *)

Section Methods.
Context `{Crypto}.
Implicit Types (s : HomeServer) (id owner tok : key).

Lemma require_mailbox_spec s owner :
  post (require_mailbox owner) s (fun r s1 => s1 = s /\
    match r with Ok _ => live s owner | Err e => e = Denied /\ ~ live s owner end).
Proof.
  unfold require_mailbox. wp. destruct (mailboxes s !! owner) as [m|] eqn:E; wp.
  - destruct (disabled m) eqn:Hd; wp; (split; [done|]); [|by exists m].
    split; [done|]. intros (b & Hb & Hbd). congruence.
  - split; [done|]. split; [done|]. intros (b & Hb & _). congruence.
Qed.

Lemma require_mailbox_preserves n owner : preserves (home_inv n) (require_mailbox owner).
Proof.
  intros s Hi. eapply post_conseq; [apply require_mailbox_spec|]. by intros r s1 [-> _].
Qed.

Lemma register_preserves n id pk : preserves (home_inv n) (register id pk).
Proof.
  intros s Hi. unfold register. wp. destruct (mailboxes s !! id) as [b|] eqn:E; wp; [done|].
  apply journal_preserves. destruct Hi as [H1 H2 H3 H4 H5].
  assert (forall i, live s i -> live (s <| mailboxes ::= <[id := mk_mailbox pk 1 [] ∅ 0 false]> |>) i) as Hlive.
  { intros i (b & Hb & Hd). exists b. cbn. rewrite lookup_insert_ne by congruence. done. }
  split; cbn; eauto.
  - intros i b [[<- <-]|[Hne Hb]]%lookup_insert_Some; [|by eauto].
    split_and!; [apply new_box_wf | cbn; lia | cbn; lia].
  - intros i row Hrow. destruct (H4 _ _ Hrow) as [[b Hb] Hr].
    assert (i <> id) by congruence. unfold mailbox_disabled in *. cbn.
    rewrite lookup_insert_ne by done. eauto.
Qed.

Lemma register_spec s id pk :
  post (register id pk) s (fun r s1 => match r with
    | Ok _ => mailboxes s !! id = None
              /\ mailboxes s1 = <[id := mk_mailbox pk 1 [] ∅ 0 false]> (mailboxes s)
              /\ directory s1 = directory s
    | Err e => s1 = s /\ e = AlreadyRegistered /\ is_Some (mailboxes s !! id) end).
Proof. unfold register, journal. wp. destruct (mailboxes s !! id) as [b|] eqn:E; wp; eauto. Qed.

Lemma register_share_token_preserves n owner tok ttl :
  preserves (home_inv n) (register_share_token owner tok ttl).
Proof.
  intros s Hi. unfold register_share_token. wp.
  eapply post_conseq; [apply require_mailbox_spec|]. intros [[]|e] s1 [-> Hr]; [|done].
  wp. case_cond; wp; [done|]. apply journal_preserves, home_inv_tokens; [|done].
  intros t k [Hin|[[= <- <-]|[]]]%in_app_or; [by left | by right].
Qed.

Lemma mint_share_token_preserves n owner ttl rnd :
  preserves (home_inv n) (mint_share_token owner ttl rnd).
Proof. apply preserves_bind; [apply register_share_token_preserves | by intros ? ? ?]. Qed.

Lemma drop_tokens_exact_preserves n dead : preserves (home_inv n) (drop_tokens_exact dead).
Proof.
  intros s Hi. unfold drop_tokens_exact. wp. case_bool_decide; [done|]. wp.
  unfold journal. wp. apply home_inv_dirty, home_inv_tokens; [|done].
  intros t k [Hin _]%filter_In. by left.
Qed.

Lemma sweep_for_preserves n owner : preserves (home_inv n) (sweep_dead_tokens_for owner).
Proof. intros s Hi. unfold sweep_dead_tokens_for. wp. by apply drop_tokens_exact_preserves. Qed.

Lemma sweep_preserves n : preserves (home_inv n) sweep_dead_tokens.
Proof. intros s Hi. unfold sweep_dead_tokens. wp. by apply drop_tokens_exact_preserves. Qed.

(** Dropping tokens touches nothing else that the methods look at. *)
Lemma drop_tokens_exact_live s dead :
  post (drop_tokens_exact dead) s (fun _ s1 =>
    mailboxes s1 = mailboxes s /\ now s1 = now s
    /\ tokens s1 = List.filter (fun kv => negb (bool_decide (kv.1 ∈ dead))) (tokens s)).
Proof.
  unfold drop_tokens_exact, journal. wp. case_bool_decide as Hd; wp; [|done].
  subst dead. split_and!; [done | done |]. clear. induction (tokens s) as [|[k v] l IH]; cbn; [done|].
  rewrite bool_decide_eq_false_2 by set_solver. cbn. by f_equal.
Qed.

Lemma mint_contact_preserves n owner rnd : preserves (home_inv n) (mint_contact_capability owner rnd).
Proof.
  intros s Hi. unfold mint_contact_capability. wp.
  eapply post_conseq; [apply require_mailbox_spec|]. intros [[]|e] s1 [-> Hr]; [|done]. wp.
  unfold sweep_dead_tokens_for. wp.
  eapply post_conseq.
  { apply post_and; [apply drop_tokens_exact_live | by apply (drop_tokens_exact_preserves n)]. }
  intros [c|e] s1 [(Hm & _ & _) Hi1]; [|done]. wp. unfold journal. wp. apply home_inv_dirty, home_inv_tokens; [|done].
  intros t k [Hin|[[= <- <-]|[]]]%in_app_or; [by left | right].
  unfold live. by rewrite Hm.
Qed.

Lemma home_inv_set_token n s tok k k' :
  find_token tok (tokens s) = Some k -> token_mailbox k' = token_mailbox k ->
  home_inv n s -> home_inv n (s <| tokens ::= set_token tok k' |>).
Proof.
  intros Hf Hm Hi. apply home_inv_tokens; [|done].
  intros t kk [Hin|[-> ->]]%set_token_In; [by left | right]. rewrite Hm.
  eapply inv_tokens; [done | by apply find_token_In].
Qed.

Lemma rotate_contact_preserves n owner old confirm rnd :
  preserves (home_inv n) (rotate_contact owner old confirm rnd).
Proof.
  apply preserves_bind; [apply mint_contact_preserves|]. intros new s Hi. wp.
  destruct (find_token old (tokens s)) as [[mb ex bu re|mb gr ws wc]|] eqn:E; wp; try done.
  case_cond; [|done]. wp. unfold journal. wp.
  apply home_inv_dirty. by eapply home_inv_set_token.
Qed.

(** Prekeys of live mailboxes may change freely. *)
Lemma home_inv_prekeys n s f :
  (forall id, is_Some (f (prekeys s) !! id) -> is_Some (prekeys s !! id) \/ live s id) ->
  home_inv n s -> home_inv n (s <| prekeys ::= f |>).
Proof.
  intros Hf [H1 H2 H3 H4 H5]. split; try done. cbn. intros id Hin.
  destruct (Hf _ Hin) as [Hold|Hl]; [by apply H3 | done].
Qed.

Lemma publish_prekey_preserves n owner blob : preserves (home_inv n) (publish_prekey owner blob).
Proof.
  intros s Hi. unfold publish_prekey. wp.
  eapply post_conseq; [apply require_mailbox_spec|]. intros [[]|e] s1 [-> Hr]; [|done]. wp.
  unfold journal. wp. apply home_inv_dirty, home_inv_prekeys; [|done].
  intros id. destruct (decide (id = owner)) as [->|]; [by right | rewrite lookup_insert_ne by done; by left].
Qed.

Lemma fetch_prekey_preserves n tok : preserves (home_inv n) (fetch_prekey tok).
Proof.
  intros s Hi. unfold fetch_prekey. wp.
  destruct (find_token tok (tokens s)) as [[mb ex bu re|mb gr ws wc]|] eqn:E; wp; try done.
  case_cond; wp; [done|]. destruct re as [b|]; wp; [done|].
  destruct (prekeys s !! mb) as [[|b q]|] eqn:Ep; wp; try done.
  unfold journal. wp. apply home_inv_dirty.
  eapply (home_inv_set_token n (s <| prekeys ::= <[mb := q]> |>)); [done | done |].
  apply home_inv_prekeys; [|done]. intros id. destruct (decide (id = mb)) as [->|].
  - rewrite Ep. eauto.
  - rewrite lookup_insert_ne by done. by left.
Qed.

(** *** Disabling *)

Lemma disabled_box_wf box :
  box_wf box -> box_wf ((foldl remove_row box (bt_keys (rows box))) <| disabled := true |>)
    /\ rows (foldl remove_row box (bt_keys (rows box))) = []
    /\ next_seq (foldl remove_row box (bt_keys (rows box))) = next_seq box
    /\ box_bytes (foldl remove_row box (bt_keys (rows box))) <= box_bytes box.
Proof.
  intros Hwf. destruct (fold_remove_row (bt_keys (rows box)) box Hwf) as (H1 & H2 & H3 & _ & H5).
  assert (rows (foldl remove_row box (bt_keys (rows box))) = []) as Hnil.
  { rewrite H2. apply filter_none. intros [k r] Hin. cbn.
    rewrite bool_decide_eq_true_2; [done|]. apply list_elem_of_In, in_map_iff. by exists (k, r). }
  split_and!; try done. destruct H1 as [? ? ? ? ? ?]. by split.
Qed.

Lemma disable_mailbox_spec s id :
  post (disable_mailbox id) s (fun r s1 => r = Ok tt /\ exists D,
    s1 = s <| mailboxes ::= alter (fun box => (foldl remove_row box (bt_keys (rows box))) <| disabled := true |>) id |>
           <| prekeys ::= delete id |>
           <| tokens ::= List.filter (fun kv => negb (bool_decide (token_mailbox kv.2 = id))) |>
           <| dirty := D |>).
Proof. unfold disable_mailbox, journal. wp. eauto. Qed.

Lemma disable_inv n s id :
  home_inv n s ->
  home_inv n (s <| mailboxes ::= alter (fun box => (foldl remove_row box (bt_keys (rows box))) <| disabled := true |>) id |>
                <| prekeys ::= delete id |>
                <| tokens ::= List.filter (fun kv => negb (bool_decide (token_mailbox kv.2 = id))) |>).
Proof.
  intros [H1 H2 H3 H4 H5]. set (f := fun box => _). set (s' := upd _ _).
  assert (forall i, i <> id -> live s i -> live s' i) as Hlive.
  { intros i Hne (b & Hb & Hd). exists b. cbn. by rewrite lookup_alter_ne. }
  split; cbn.
  - intros i b Hb. destruct (decide (i = id)) as [->|Hne].
    + rewrite lookup_alter_eq in Hb. apply fmap_Some in Hb as (b0 & Hb0 & ->).
      destruct (H1 _ _ Hb0) as (Hwf & Hn & Hbytes).
      destruct (disabled_box_wf b0 Hwf) as (D1 & D2 & D3 & D4). split_and!; [done | cbn; lia | cbn; lia].
    + rewrite lookup_alter_ne in Hb by done. eauto.
  - intros t k [Hin Hk]%filter_In. cbn in Hk. apply negb_true_iff, bool_decide_eq_false in Hk. eauto.
  - intros i [b Hb]. apply lookup_delete_Some in Hb as [Hne Hb]. eauto.
  - intros i row Hrow. destruct (H4 _ _ Hrow) as [Hs Hr]. unfold mailbox_disabled in *. cbn.
    destruct (decide (i = id)) as [->|Hne].
    + rewrite lookup_alter_eq. destruct Hs as [b ->]. cbn. eauto.
    + rewrite lookup_alter_ne by done. eauto.
  - done.
Qed.

Lemma disable_mailbox_preserves n id : preserves (home_inv n) (disable_mailbox id).
Proof.
  intros s Hi. eapply post_conseq; [apply disable_mailbox_spec|].
  intros r s1 [_ [D ->]]. apply (home_inv_dirty n _ (fun _ => D)). by apply disable_inv.
Qed.

(** A directory row may be written for a registered identity if it does not
    bring a revocation that the mailbox does not know. *)
Lemma home_inv_directory n s id row :
  is_Some (mailboxes s !! id) ->
  (is_Some (dir_revocation row) -> mailbox_disabled s id = true) ->
  home_inv n s -> home_inv n (s <| directory ::= <[id := row]> |>).
Proof.
  intros Hm Hr [H1 H2 H3 H4 H5]. split; try done. cbn.
  intros i row' [[<- <-]|[Hne Hrow]]%lookup_insert_Some; [done | by apply H4].
Qed.

Lemma register_from_card_preserves n card : preserves (home_inv n) (register_from_card card).
Proof.
  intros s Hi. unfold register_from_card, wire. wp.
  destruct (map_err Wire _) as [[]|e]; wp; [|done]. case_cond; wp; [done|].
  eapply post_conseq.
  { apply post_and; [apply register_spec | by apply (register_preserves n)]. }
  intros [[]|e] s1 [Hs1 Hi1]; [|done]. wp.
  eapply post_conseq; [apply (register_share_token_preserves n)|].
  - apply home_inv_directory; [| |done].
    + destruct Hs1 as (_ & -> & _). rewrite lookup_insert_eq. by eexists.
    + by intros [? ?].
  - intros [[]|e] s2 Hi2; by wp.
Qed.

Lemma note_group_membership_preserves n id gid : preserves (home_inv n) (note_group_membership id gid).
Proof.
  intros s Hi. unfold note_group_membership, journal. wp.
  case_bool_decide; wp; by eapply home_inv_frame; last apply Hi.
Qed.

Lemma observe_binding_preserves n id b : preserves (home_inv n) (observe_binding id b).
Proof.
  intros s Hi. unfold observe_binding, deny, journal. wp.
  destruct (known_key s id) as [pk|] eqn:Hk; cbn [ok_or]; [|done].
  destruct (vk_from_bytes pk) as [vk|]; cbn [ok_or]; [|done].
  wp. case_cond; wp; [done|]. destruct (map_err _ _) as [[]|e]; wp; [|done].
  case_cond; wp; [done|].
  set (s1 := s <| directory ::= _ |> <| dirty ::= _ |>).
  assert (home_inv n s1) as Hi1.
  { apply home_inv_dirty. destruct (directory s !! id) as [row|] eqn:Hrow.
    - destruct (inv_directory _ _ Hi _ _ Hrow) as [Hm Hr].
      apply (home_inv_frame n (s <| directory ::=
        <[id := row <| dir_binding := b |> <| binding_seq := b_seq b |>]> |>)); try done.
      + cbn. by rewrite Hrow.
      + by apply home_inv_directory.
    - apply (home_inv_frame n (s <| directory ::=
        <[id := mk_directory pk (arr_repeat 32 x00) b (b_seq b) None]> |>)); try done.
      + cbn. by rewrite Hrow.
      + apply home_inv_directory; [| by intros [? ?] | done].
        unfold known_key in Hk. rewrite Hrow in Hk. destruct (mailboxes s !! id); by eauto. }
  case_cond; [by apply disable_mailbox_preserves | done].
Qed.

(** An identity revoked in the directory is disabled before the invariant is
    needed again. *)
Lemma ingest_revocation_preserves n stmt : preserves (home_inv n) (ingest_revocation stmt).
Proof.
  intros s Hi. unfold ingest_revocation, deny, journal. wp.
  set (id := revoked_identity_id stmt).
  destruct (directory s !! id) as [row|] eqn:Hrow; cbn [ok_or]; [|done].
  destruct (map_err _ _) as [pk|e]; wp; [|done]. destruct (map_err _ _) as [[]|e]; wp; [|done].
  case_cond; wp; [done|].
  set (s1 := s <| directory ::= _ |> <| dirty ::= _ |>).
  eapply (post_conseq _ _ (fun r s2 => home_inv n s2)).
  - eapply post_conseq; [apply disable_mailbox_spec|]. intros r s2 [_ [D ->]].
    apply (home_inv_dirty n _ (fun _ => D)).
    destruct (disable_inv n s id Hi) as [H1 H2 H3 H4 H5]. split; try done.
    cbn. intros i row' Hi'. unfold mailbox_disabled. cbn. destruct (decide (i = id)) as [->|Hne].
    + destruct (inv_directory _ _ Hi _ _ Hrow) as [[b Hb] _].
      rewrite lookup_alter_eq, Hb. cbn. eauto.
    + rewrite lookup_alter_ne in Hi' by done. apply (H4 i row'). done.
  - intros [[]|e] s2 Hi2; wp; [|done]. case_cond; wp; by eapply home_inv_frame; last apply Hi2.
Qed.

(** *** Appending *)

Lemma home_eta s : s = s <| tokens := tokens s |> <| dirty := dirty s |>.
Proof. by destruct s. Qed.

(** What [authorize_append] does to the state: at most the window of the
    presented contact capability moves. *)
Lemma authorize_append_spec s tok :
  post (authorize_append tok) s (fun r s1 =>
    (exists T D, s1 = s <| tokens := T |> <| dirty := D |>
      /\ (T = tokens s \/ exists k k', find_token tok (tokens s) = Some k
            /\ token_mailbox k' = token_mailbox k /\ T = set_token tok k' (tokens s)))
    /\ match r with
       | Ok mb => mailbox_disabled s mb = false /\ exists k,
           find_token tok (tokens s) = Some k /\ token_mailbox k = mb
       | Err e => e = Denied
       end).
Proof.
  unfold authorize_append, journal. wp.
  destruct (find_token tok (tokens s)) as [[mb ex bu re|mb gr ws wc]|] eqn:E; wp.
  - assert (exists T D, s = s <| tokens := T |> <| dirty := D |> /\ (T = tokens s \/
      exists k k', Some (Share mb ex bu re) = Some k /\ token_mailbox k' = token_mailbox k
        /\ T = set_token tok k' (tokens s))) as Hs by (exists (tokens s), (dirty s); split; [apply home_eta | auto]).
    case_cond; wp; [|by split]. case_cond; wp; [by split|]. split; [done|]. split; [done|]. by eexists.
  - case_cond; wp.
    { split; [|done]. exists (tokens s), (dirty s). split; [apply home_eta | by left]. }
    set (ws' := if 60 <=? saturating_sub (now s) ws then now s else ws).
    set (wc' := if 60 <=? saturating_sub (now s) ws then 0 else wc).
    replace (if 60 <=? saturating_sub (now s) ws then (now s, 0) else (ws, wc)) with (ws', wc')
      by (unfold ws', wc'; by case_cond).
    wp. case_cond; wp.
    { split; [|done]. eexists _, (dirty s). split; [reflexivity|]. right.
      by exists (Contact mb gr ws wc), (Contact mb gr ws' wc'). }
    set (s1 := s <| tokens ::= set_token tok _ |> <| tokens ::= _ |> <| dirty ::= _ |>).
    assert (exists T D, s1 = s <| tokens := T |> <| dirty := D |> /\ (T = tokens s \/
      exists k k', Some (Contact mb gr ws wc) = Some k /\ token_mailbox k' = token_mailbox k
        /\ T = set_token tok k' (tokens s))) as Hs.
    { eexists _, _. split; [reflexivity|]. right.
      exists (Contact mb gr ws wc), (Contact mb gr ws' (wc' + 1)). split_and!; [done | done |].
      cbn. apply set_token_twice. }
    case_cond; wp; [by split|]. split; [done|]. split; [done|]. by eexists.
  - split; [|done]. exists (tokens s), (dirty s). split; [apply home_eta | by left].
Qed.

Lemma burn_if_share_spec s tok :
  post (burn_if_share tok) s (fun r s1 => r = Ok tt /\ exists T D,
    s1 = s <| tokens := T |> <| dirty := D |> /\ token_owners T = token_owners (tokens s)
    /\ (forall want, want <> tok -> find_token want T = find_token want (tokens s))
    /\ find_token tok T = match find_token tok (tokens s) with
                          | Some (Share mb ex _ re) => Some (Share mb ex true re)
                          | other => other
                          end).
Proof.
  unfold burn_if_share, journal. wp.
  destruct (find_token tok (tokens s)) as [[mb ex [|] re|mb gr ws wc]|] eqn:E; wp;
    (split; [done|]).
  1,3,4: exists (tokens s), (dirty s); split_and!; [apply home_eta | done | done | done].
  eexists _, _. split; [reflexivity|]. split_and!.
  - by eapply token_owners_set.
  - intros want Hne. rewrite find_set_token. by rewrite decide_False.
  - rewrite find_set_token, decide_True by done. by rewrite E.
Qed.

Lemma gc_mailbox_spec s owner :
  post (gc_mailbox owner) s (fun r s1 => r = Ok tt /\ exists D,
    s1 = s <| mailboxes := match mailboxes s !! owner with
                           | Some box => <[owner := (gc_box (now s) (limits s) box).1]> (mailboxes s)
                           | None => mailboxes s
                           end |> <| dirty := D |>).
Proof.
  unfold gc_mailbox, journal. wp. destruct (mailboxes s !! owner) as [box|] eqn:E; wp.
  - destruct (gc_box _ _ _) as [box' dropped]. wp. case_cond; (split; [done|]).
    + eexists. reflexivity.
    + exists (dirty s). by destruct s.
  - split; [done|]. exists (dirty s). by destruct s.
Qed.

(** The mailbox after a stored envelope: one row more, then collected. *)
Definition stored_box s (inner : InnerEnvelope) (b : bytes) (box : Mailbox) : Mailbox :=
  (gc_box (now s) (limits s) (push_row (now s) (limits s) inner (lenN b) box)).1.

(** [append_inner] on every branch. *)
Lemma append_inner_spec s inner :
  let tok := delivery_capability inner in
  post (append_inner inner) s (fun r s1 =>
    (exists M T D, s1 = s <| mailboxes := M |> <| tokens := T |> <| dirty := D |>
       /\ token_owners T = token_owners (tokens s))
    /\ match r with
       | Ok sq => exists k box, find_token tok (tokens s) = Some k
           /\ mailboxes s !! token_mailbox k = Some box /\ disabled box = false
           /\ ((idempotency box !! idempotency_token inner = Some sq /\ mailboxes s1 = mailboxes s)
               \/ (idempotency box !! idempotency_token inner = None /\ sq = next_seq box
                   /\ (exists b, encode_padded inner = Ok b
                        /\ mailboxes s1 = <[token_mailbox k := stored_box s inner b box]> (mailboxes s))
                   /\ match find_token tok (tokens s1) with
                      | Some (Share _ _ burned _) => burned = true
                      | _ => True
                      end))
       | Err e => mailboxes s1 = mailboxes s
       end).
Proof.
  intros tok. unfold append_inner, wire, journal. wp.
  eapply post_conseq; [apply authorize_append_spec|].
  intros r s1 [(T & D & -> & HT) Hr].
  assert (token_owners T = token_owners (tokens s)) as Hown.
  { destruct HT as [->|(k & k' & Hf & Hk & ->)]; [done | by eapply token_owners_set]. }
  destruct r as [mb|e]; wp; cbn [mailboxes upd].
  2: { split; [|done]. by exists (mailboxes s), T, D. }
  destruct Hr as (Hdis & k & Hf & <-).
  change (mailboxes (s <| tokens := T |> <| dirty := D |>)) with (mailboxes s).
  unfold mailbox_disabled in Hdis.
  destruct (mailboxes s !! token_mailbox k) as [box|] eqn:Hbox; wp.
  2: { split; [|done]. by exists (mailboxes s), T, D. }
  destruct (idempotency box !! idempotency_token inner) as [sq|] eqn:Hid; wp.
  { split; [by exists (mailboxes s), T, D|]. exists k, box. split_and!; try done. by left. }
  destruct (encode_padded inner) as [b|e] eqn:Henc; cbn [map_err]; wp.
  2: { split; [|done]. by exists (mailboxes s), T, D. }
  eapply post_conseq; [apply burn_if_share_spec|].
  intros r s2 [-> (T2 & D2 & -> & Hown2 & _ & Hburn)]. wp.
  eapply post_conseq; [apply gc_mailbox_spec|]. intros r s3 [-> [D3 ->]]. wp.
  split.
  - eexists _, T2, D3. split; [reflexivity|]. etransitivity; [exact Hown2 | exact Hown].
  - exists k, box. split_and!; try done. right. split_and!; try done.
    + exists b. split; [done|]. cbn. rewrite lookup_insert_eq. by rewrite insert_insert_eq.
    + match goal with |- context [find_token tok ?l] => change l with T2 end.
      fold tok in Hburn. rewrite Hburn.
      match goal with |- context [find_token tok ?l] => destruct (find_token tok l) as [[]|] end; exact I || reflexivity.
Qed.

(** Tokens that still open the same mailboxes keep the invariant. *)
Lemma home_inv_moved n s M T D :
  home_inv n (s <| mailboxes := M |>) -> token_owners T = token_owners (tokens s) ->
  home_inv n (s <| mailboxes := M |> <| tokens := T |> <| dirty := D |>).
Proof.
  intros Hi Hown. apply (home_inv_dirty n _ (fun _ => D)).
  apply (home_inv_tokens n _ (fun _ => T)); [|done].
  intros t k Hin. right. destruct (token_owners_In _ _ _ _ Hown Hin) as (k' & Hin' & <-).
  by apply (inv_tokens _ _ Hi t k').
Qed.

Lemma set_mailboxes_id s : s <| mailboxes := mailboxes s |> = s.
Proof. by destruct s. Qed.

(** Storing an envelope keeps the mailbox well-formed and below its cap. *)
Lemma stored_box_spec s inner b box :
  box_wf box -> box_room (lenN b) box -> disabled box = false ->
  idempotency box !! idempotency_token inner = None -> encode_padded inner = Ok b ->
  let box' := stored_box s inner b box in
  box_wf box' /\ box_bytes box' <= mailbox_max_bytes (limits s)
  /\ next_seq box' = next_seq box + 1 /\ disabled box' = false.
Proof.
  intros Hwf Hroom Hd Hid Henc box'.
  pose proof (push_row_wf (now s) (limits s) inner b box Hwf Hroom Hd Hid Henc) as Hwf'.
  destruct (push_row_spec (now s) (limits s) inner (lenN b) box Hwf Hroom) as (_ & Hn & _ & _ & Hd').
  pose proof (gc_box_spec (now s) (limits s) _ Hwf') as Hgc. unfold box', stored_box.
  destruct (gc_box _ _ _) as [bx dropped]. destruct Hgc as (m & H1 & H2 & H3 & H4 & _).
  cbn [fst]. split_and!; [done | done | | ]; congruence.
Qed.

Lemma home_inv_room n s id box inner b :
  home_inv n s -> n + 1 < U64_MAX -> mailboxes s !! id = Some box -> encode_padded inner = Ok b ->
  box_room (lenN b) box.
Proof.
  intros Hi Hn Hb Henc. destruct (inv_boxes _ _ Hi _ _ Hb) as (_ & Hnext & Hbytes).
  pose proof (inv_limits _ _ Hi). pose proof (Hpke.outer_len_bound inner).
  pose proof (encode_padded_len _ _ Henc) as Hlen. split; [lia|]. rewrite Hlen. lia.
Qed.

Lemma append_inner_inv n s inner :
  home_inv n s -> n + 1 < U64_MAX -> post (append_inner inner) s (fun _ => home_inv (n + 1)).
Proof.
  intros Hi Hn. eapply post_conseq; [apply append_inner_spec|].
  intros r s1 [(M & T & D & -> & Hown) Hr].
  apply home_inv_moved; [|done]. cbn in Hr.
  assert (M = mailboxes s -> home_inv (n + 1) (s <| mailboxes := M |>)) as Hsame.
  { intros ->. rewrite set_mailboxes_id. apply (home_inv_mono n); [lia | done]. }
  destruct r as [sq|e]; [|by apply Hsame].
  destruct Hr as (k & box & Hf & Hbox & Hd & [[_ HM]|(Hid & -> & (b & Henc & HM) & _)]); [by apply Hsame|].
  destruct (inv_boxes _ _ Hi _ _ Hbox) as (Hwf & Hnext & _).
  destruct (stored_box_spec s inner b box Hwf (home_inv_room n s _ _ _ _ Hi Hn Hbox Henc) Hd Hid Henc)
    as (S1 & S2 & S3 & S4).
  replace (s <| mailboxes := M |>) with (s <| mailboxes ::= <[token_mailbox k := stored_box s inner b box]> |>)
    by (rewrite HM; by destruct s).
  eapply (home_inv_box n); [done | done | lia | lia | done | congruence | done].
Qed.

Lemma ingest_inv n s o :
  home_inv n s -> n + 1 < U64_MAX -> post (ingest o) s (fun _ => home_inv (n + 1)).
Proof.
  intros Hi Hn. assert (home_inv (n + 1) s) as Hi' by (apply (home_inv_mono n); [lia | done]).
  unfold ingest, wire. wp. destruct (Hpke.encap_key _) as [enc|]; cbn [map_err]; wp; [|done].
  destruct (seen_enc s !! enc) as [sq|]; wp; [done|].
  destruct (Hpke.open_outer _ _) as [inner|]; cbn [map_err]; wp; [|done].
  eapply post_conseq; [by apply (append_inner_inv n)|]. intros [sq|e] s1 Hi1; wp; [|done].
  unfold journal. repeat (case_cond; wp); by eapply home_inv_frame; last apply Hi1.
Qed.

(** *** Owner requests *)

(** [check_owner] on every branch: only the nonce table can change, and only an
    accepted request adds its nonce. *)
Lemma check_owner_spec s owner auth now_unix expect :
  let kept := filter (fun kv => saturating_sub now_unix kv.2 <= MAX_AGE_SECS) (owner_nonces s) in
  post (check_owner owner auth now_unix expect) s (fun r s1 =>
    match r with
    | Ok _ => exists box pk, mailboxes s !! owner = Some box /\ disabled box = false
        /\ mailbox_hint auth = to_vec owner /\ vk_from_bytes (owner_pk box) = Some pk
        /\ auth_verify auth pk now_unix expect = Ok tt
        /\ kept !! auth_nonce auth = None
        /\ s1 = s <| owner_nonces := <[auth_nonce auth := ts auth]> kept |>
    | Err e => e = OwnerAuth /\ (s1 = s \/ s1 = s <| owner_nonces := kept |>)
    end).
Proof.
  intros kept. unfold check_owner, deny, gc_owner_nonces. wp.
  destruct (mailboxes s !! owner) as [box|] eqn:Hb; wp; [|by auto].
  destruct (disabled box) eqn:Hd; wp; [by auto|].
  case_bool_decide as Hh; cbn [negb]; wp; [|by auto].
  destruct (vk_from_bytes (owner_pk box)) as [pk|] eqn:Hk; cbn [ok_or]; [|by auto]. wp.
  destruct (auth_verify auth pk now_unix expect) as [[]|] eqn:Hv; cbn [map_err]; wp; [|by auto].
  change (owner_nonces (s <| owner_nonces ::= _ |>)) with kept.
  destruct (kept !! auth_nonce auth) as [t|] eqn:Hn; wp; [by auto|].
  exists box, pk. split_and!; done.
Qed.

Lemma check_owner_preserves n owner auth nw ex : preserves (home_inv n) (check_owner owner auth nw ex).
Proof.
  intros s Hi. eapply post_conseq; [apply check_owner_spec|].
  intros [[]|e] s1 Hs.
  - destruct Hs as (? & ? & _ & _ & _ & _ & _ & _ & ->). by eapply home_inv_frame; last apply Hi.
  - destruct Hs as [_ [-> | ->]]; [done|]. by eapply home_inv_frame; last apply Hi.
Qed.

Lemma gc_mailbox_preserves n owner : preserves (home_inv n) (gc_mailbox owner).
Proof.
  intros s Hi. eapply post_conseq; [apply gc_mailbox_spec|]. intros r s1 [_ [D ->]].
  apply (home_inv_dirty n _ (fun _ => D)).
  destruct (mailboxes s !! owner) as [box|] eqn:Hb; [|by rewrite set_mailboxes_id].
  destruct (inv_boxes _ _ Hi _ _ Hb) as (Hwf & Hn & Hbytes).
  pose proof (gc_box_spec (now s) (limits s) box Hwf) as Hgc.
  destruct (gc_box (now s) (limits s) box) as [bx dropped] eqn:Eg.
  destruct Hgc as (m & H1 & H2 & H3 & H4 & _). cbn [fst].
  change (home_inv n (s <| mailboxes ::= <[owner := bx]> |>)).
  eapply (home_inv_box n); [done | done | lia | lia | done | done | done].
Qed.

Lemma fetch_preserves n owner auth nw : preserves (home_inv n) (fetch owner auth nw).
Proof.
  intros s Hi. unfold fetch. wp.
  eapply post_conseq; [by apply (check_owner_preserves n)|]. intros [[]|e] s1 Hi1; wp; [|done].
  case_cond; wp; [done|].
  eapply post_conseq; [by apply (gc_mailbox_preserves n)|]. intros [[]|e] s2 Hi2; wp; [|done].
  by destruct (mailboxes s2 !! owner); wp.
Qed.

Lemma ack_preserves n owner auth nw : preserves (home_inv n) (ack owner auth nw).
Proof.
  intros s Hi. unfold ack, journal. wp.
  eapply post_conseq; [by apply (check_owner_preserves n)|]. intros [[]|e] s1 Hi1; wp; [|done].
  destruct (mailboxes s1 !! owner) as [box|] eqn:Hb; wp; [|done]. case_bool_decide; wp; [done|].
  apply home_inv_dirty. destruct (inv_boxes _ _ Hi1 _ _ Hb) as (Hwf & Hn & Hbytes).
  destruct (fold_ack_row (List.filter (fun k => k <=? cursor auth) (bt_keys (rows box))) box Hwf)
    as (F1 & F2 & F3 & F4 & F5).
  eapply (home_inv_box n); [done | done | lia | lia | lia | done | done].
Qed.

Lemma enqueue_inv n s o :
  home_inv n s -> n + 1 < U64_MAX -> post (enqueue o) s (fun _ => home_inv (n + 1)).
Proof.
  intros Hi Hn. unfold enqueue, mark_outbound_dirty, journal. wp. case_bool_decide; wp.
  - eapply post_conseq; [by apply (ingest_inv n)|]. intros [sq|e] s1 Hi1; by wp.
  - apply (home_inv_mono n); [lia|]. by eapply home_inv_frame; last apply Hi.
Qed.

Lemma enqueue_from_owner_inv n s owner auth nw o :
  home_inv n s -> n + 1 < U64_MAX ->
  post (enqueue_from_owner owner auth nw o) s (fun _ => home_inv (n + 1)).
Proof.
  intros Hi Hn. unfold enqueue_from_owner. wp.
  eapply post_conseq; [by apply (check_owner_preserves n)|]. intros [[]|e] s1 Hi1; wp.
  - eapply post_conseq; [by apply (require_mailbox_preserves n)|]. intros [[]|e] s2 Hi2; wp.
    + by apply enqueue_inv.
    + apply (home_inv_mono n); [lia | done].
  - apply (home_inv_mono n); [lia | done].
Qed.

Lemma defer_outbound_preserves n until : preserves (home_inv n) (defer_outbound until).
Proof.
  intros s Hi. unfold defer_outbound, mark_outbound_dirty, journal. wp.
  case_cond; by eapply home_inv_frame; last apply Hi.
Qed.

Lemma rebind_host_preserves n h port : preserves (home_inv n) (rebind_host h port).
Proof.
  intros s Hi. unfold rebind_host, wire, journal. wp.
  destruct (advertised _ _ _ _); cbn [map_err]; wp; by eapply home_inv_frame; last apply Hi.
Qed.
End Methods.
