(* ===== verification/HomeRun.v ===== *)
(** * Runs of the home server

    The public methods as operations, runs as lists of them, and what every run
    keeps: the invariant, and the growth of each mailbox. *)

From S2P Require Export HomeInv.

Inductive home_op : Type :=
| OpNow (t : N)
| OpRegister (id pk : key)
| OpRegisterCard (card : ContactCard)
| OpShare (owner tok : key) (ttl : option N)
| OpMintShare (owner : key) (ttl : option N) (rnd : key)
| OpContact (owner rnd : key)
| OpRotate (owner old : key) (confirm : bool) (rnd : key)
| OpPublish (owner : key) (blob : bytes)
| OpFetchPrekey (tok : key)
| OpAppend (inner : InnerEnvelope)
| OpIngest (o : OuterEnvelope)
| OpFetch (owner : key) (auth : MailboxOwnerAuth) (nw : N)
| OpAck (owner : key) (auth : MailboxOwnerAuth) (nw : N)
| OpObserve (id : key) (b : HomeServerBinding)
| OpRevoke (stmt : RevocationStatement)
| OpMembership (id : key) (gid : GroupId)
| OpSweepFor (owner : key)
| OpSweep
| OpRecordSweep
| OpRebind (h : rstring) (port : N)
| OpEnqueue (o : OuterEnvelope)
| OpEnqueueOwner (owner : key) (auth : MailboxOwnerAuth) (nw : N) (o : OuterEnvelope)
| OpDefer (until : N).

(** ** Owners survive row operations *)

Lemma owner_remove_row box sq : owner_pk (remove_row box sq) = owner_pk box.
Proof. unfold remove_row. by destruct (bt_get sq (rows box)). Qed.

Lemma owner_ack_row box sq : owner_pk (ack_row box sq) = owner_pk box.
Proof. unfold ack_row. by destruct (bt_get sq (rows box)). Qed.

Lemma owner_fold (f : Mailbox -> N -> Mailbox) ks box :
  (forall b k, owner_pk (f b k) = owner_pk b) -> owner_pk (foldl f box ks) = owner_pk box.
Proof. intros Hf. revert box; induction ks as [|k ks IH]; intros box; cbn; [done|]. by rewrite IH. Qed.

Lemma owner_evict fuel max box : owner_pk (evict fuel max box).1 = owner_pk box.
Proof.
  revert box; induction fuel as [|fuel IH]; intros box; cbn; [done|].
  case_cond; [|done]. destruct (rows box) as [|[k r] t]; [done|].
  specialize (IH (remove_row box k)). destruct (evict _ _ _). cbn in *. by rewrite IH, owner_remove_row.
Qed.

Lemma owner_gc_box nw l box : owner_pk (gc_box nw l box).1 = owner_pk box.
Proof.
  unfold gc_box. set (b := foldl _ _ _).
  pose proof (owner_evict (length (rows b)) (mailbox_max_bytes l) b) as He.
  destruct (evict _ _ _). cbn in *. rewrite He. apply owner_fold, owner_remove_row.
Qed.

Section Runs.
Context `{Crypto}.
Implicit Types (s : HomeServer) (id owner tok : key).

(** The state after one operation, whether it succeeds or fails. *)
Definition exec (op : home_op) s : HomeServer :=
  match op with
  | OpNow t => s <| now := t |>
  | OpRegister id pk => (register id pk s).1
  | OpRegisterCard card => (register_from_card card s).1
  | OpShare owner tok ttl => (register_share_token owner tok ttl s).1
  | OpMintShare owner ttl rnd => (mint_share_token owner ttl rnd s).1
  | OpContact owner rnd => (mint_contact_capability owner rnd s).1
  | OpRotate owner old confirm rnd => (rotate_contact owner old confirm rnd s).1
  | OpPublish owner blob => (publish_prekey owner blob s).1
  | OpFetchPrekey tok => (fetch_prekey tok s).1
  | OpAppend inner => (append_inner inner s).1
  | OpIngest o => (ingest o s).1
  | OpFetch owner auth nw => (fetch owner auth nw s).1
  | OpAck owner auth nw => (ack owner auth nw s).1
  | OpObserve id b => (observe_binding id b s).1
  | OpRevoke stmt => (ingest_revocation stmt s).1
  | OpMembership id gid => (note_group_membership id gid s).1
  | OpSweepFor owner => (sweep_dead_tokens_for owner s).1
  | OpSweep => (sweep_dead_tokens s).1
  | OpRecordSweep => (record_token_sweep s).1
  | OpRebind h port => (rebind_host h port s).1
  | OpEnqueue o => (enqueue o s).1
  | OpEnqueueOwner owner auth nw o => (enqueue_from_owner owner auth nw o s).1
  | OpDefer t => (defer_outbound t s).1
  end.

Definition run (ops : list home_op) s : HomeServer := foldl (fun s op => exec op s) s ops.

(** ** The invariant along runs *)

Lemma exec_inv n op s : home_inv n s -> n + 1 < U64_MAX -> home_inv (n + 1) (exec op s).
Proof.
  intros Hi Hn.
  assert (forall A (m : home A), preserves (home_inv n) m -> home_inv (n + 1) (m s).1) as Hp.
  { intros A m Hm. apply (home_inv_mono n); [lia|]. exact (Hm s Hi). }
  destruct op; cbn [exec].
  - apply (home_inv_mono n); [lia|]. by eapply home_inv_frame; last apply Hi.
  - apply Hp, register_preserves.
  - apply Hp, register_from_card_preserves.
  - apply Hp, register_share_token_preserves.
  - apply Hp, mint_share_token_preserves.
  - apply Hp, mint_contact_preserves.
  - apply Hp, rotate_contact_preserves.
  - apply Hp, publish_prekey_preserves.
  - apply Hp, fetch_prekey_preserves.
  - exact (append_inner_inv n s inner Hi Hn).
  - exact (ingest_inv n s o Hi Hn).
  - apply Hp, fetch_preserves.
  - apply Hp, ack_preserves.
  - apply Hp, observe_binding_preserves.
  - apply Hp, ingest_revocation_preserves.
  - apply Hp, note_group_membership_preserves.
  - apply Hp, sweep_for_preserves.
  - apply Hp, sweep_preserves.
  - apply (home_inv_mono n); [lia|]. by eapply home_inv_frame; last apply Hi.
  - apply Hp, rebind_host_preserves.
  - exact (enqueue_inv n s o Hi Hn).
  - exact (enqueue_from_owner_inv n s owner auth nw o Hi Hn).
  - apply Hp, defer_outbound_preserves.
Qed.

Lemma run_app ops1 ops2 s : run (ops1 ++ ops2) s = run ops2 (run ops1 s).
Proof. apply foldl_app. Qed.

Lemma run_inv n ops s :
  home_inv n s -> n + lenN ops < U64_MAX -> home_inv (n + lenN ops) (run ops s).
Proof.
  revert n s; induction ops as [|op ops IH]; intros n s Hi Hn.
  - rewrite lenN_nil, N.add_0_r. done.
  - rewrite lenN_cons in *. cbn. replace (n + (1 + lenN ops)) with ((n + 1) + lenN ops) by lia.
    apply IH; [apply exec_inv; [done | lia] | lia].
Qed.

Lemma fresh_inv k sk h port s : from_identity k sk h port = Ok s -> home_inv 0 s.
Proof.
  unfold from_identity. intros (b & Hb & <-%Ok_inj)%result_bind_ok. split; cbn.
  - by intros ? ? ?%lookup_empty_Some.
  - done.
  - intros id. rewrite lookup_empty. by intros [? ?].
  - by intros ? ? ?%lookup_empty_Some.
  - vm_compute. discriminate.
Qed.

(** The bundle of a server's own keys always signs. *)
Lemma advertised_ok k sk h port : is_ok (advertised k sk h port) = true.
Proof.
  unfold advertised, bundle_sign. cbn. rewrite !bool_decide_eq_true_2 by done. cbn.
  unfold Sign.sign. reflexivity.
Qed.

(** ** Mailboxes only grow *)

(** A mailbox keeps its owner, its counter never goes back, and once disabled it
    stays disabled. *)
Definition grows s s1 : Prop :=
  forall id box, mailboxes s !! id = Some box ->
  exists box1, mailboxes s1 !! id = Some box1 /\ owner_pk box1 = owner_pk box
    /\ next_seq box <= next_seq box1 /\ (disabled box = true -> disabled box1 = true).

Lemma grows_same s s1 : mailboxes s1 = mailboxes s -> grows s s1.
Proof. intros Hm id box Hb. exists box. rewrite Hm. split_and!; [done | done | lia | done]. Qed.

Lemma grows_trans s1 s2 s3 : grows s1 s2 -> grows s2 s3 -> grows s1 s3.
Proof.
  intros H1 H2 id box Hb. destruct (H1 _ _ Hb) as (b1 & Hb1 & ? & ? & ?).
  destruct (H2 _ _ Hb1) as (b2 & Hb2 & ? & ? & ?). exists b2.
  split_and!; [done | congruence | lia | auto].
Qed.

Lemma grows_insert s s1 id box box1 :
  mailboxes s !! id = Some box -> mailboxes s1 = <[id := box1]> (mailboxes s) ->
  owner_pk box1 = owner_pk box -> next_seq box <= next_seq box1 ->
  (disabled box = true -> disabled box1 = true) -> grows s s1.
Proof.
  intros Hb Hm Ho Hn Hd i b Hi. rewrite Hm. destruct (decide (i = id)) as [->|Hne].
  - rewrite lookup_insert_eq. simplify_eq. by exists box1.
  - rewrite lookup_insert_ne by done. exists b. split_and!; [done | done | lia | done].
Qed.

(** *** Methods that change a mailbox *)

Lemma register_grows s id pk : post (register id pk) s (fun _ => grows s).
Proof.
  eapply post_conseq; [apply register_spec|]. intros [[]|e] s1 Hs1.
  - destruct Hs1 as (Hnone & Hm & _). intros i b Hi. rewrite Hm.
    rewrite lookup_insert_ne by congruence. exists b. split_and!; [done | done | lia | done].
  - destruct Hs1 as (-> & _). by apply grows_same.
Qed.

Lemma append_inner_grows n s inner :
  home_inv n s -> n + 1 < U64_MAX -> post (append_inner inner) s (fun _ => grows s).
Proof.
  intros Hi Hn. eapply post_conseq; [apply append_inner_spec|].
  intros r s1 [(M & T & D & -> & Hown) Hr].
  destruct r as [sq|e]; [|by apply grows_same].
  destruct Hr as (k & box & Hf & Hbox & Hd & [[_ HM]|(Hid & -> & (b & Henc & HM) & _)]);
    [by apply grows_same|].
  destruct (inv_boxes _ _ Hi _ _ Hbox) as (Hwf & Hnext & _).
  destruct (stored_box_spec s inner b box Hwf (home_inv_room n s _ _ _ _ Hi Hn Hbox Henc) Hd Hid Henc)
    as (S1 & S2 & S3 & S4).
  eapply grows_insert; [done | exact HM | | lia | congruence].
  unfold stored_box. by rewrite owner_gc_box.
Qed.

Lemma ingest_grows n s o :
  home_inv n s -> n + 1 < U64_MAX -> post (ingest o) s (fun _ => grows s).
Proof.
  intros Hi Hn. unfold ingest, wire, journal. wp.
  destruct (Hpke.encap_key _) as [enc|]; cbn [map_err]; wp; [|by apply grows_same].
  destruct (seen_enc s !! enc) as [sq|]; wp; [by apply grows_same|].
  destruct (Hpke.open_outer _ _) as [inner|]; cbn [map_err]; wp; [|by apply grows_same].
  eapply post_conseq; [by apply (append_inner_grows n)|]. intros [sq|e] s1 Hi1; wp; [|done].
  repeat (case_cond; wp); (eapply grows_trans; [exact Hi1 | by apply grows_same]).
Qed.

Lemma enqueue_grows n s o :
  home_inv n s -> n + 1 < U64_MAX -> post (enqueue o) s (fun _ => grows s).
Proof.
  intros Hi Hn. unfold enqueue, mark_outbound_dirty, journal. wp. case_bool_decide; wp.
  - eapply post_conseq; [by apply (ingest_grows n)|]. intros [sq|e] s1 Hi1; by wp.
  - by apply grows_same.
Qed.

Lemma check_owner_boxes s owner auth nw ex :
  post (check_owner owner auth nw ex) s (fun _ s1 => mailboxes s1 = mailboxes s).
Proof.
  eapply post_conseq; [apply check_owner_spec|]. intros [[]|e] s1 Hs.
  - by destruct Hs as (? & ? & _ & _ & _ & _ & _ & _ & ->).
  - by destruct Hs as [_ [-> | ->]].
Qed.

Lemma gc_mailbox_grows n s owner : home_inv n s -> post (gc_mailbox owner) s (fun _ => grows s).
Proof.
  intros Hi. eapply post_conseq; [apply gc_mailbox_spec|]. intros r s1 [_ [D ->]].
  destruct (mailboxes s !! owner) as [box|] eqn:Hb; [|by apply grows_same].
  destruct (inv_boxes _ _ Hi _ _ Hb) as (Hwf & _).
  pose proof (gc_box_spec (now s) (limits s) box Hwf) as Hgc. pose proof (owner_gc_box (now s) (limits s) box).
  eapply grows_insert; [done | reflexivity | done | |];
    destruct (gc_box (now s) (limits s) box) as [bx dropped]; destruct Hgc as (m & _ & _ & H3 & H4 & _);
    cbn; [lia | congruence].
Qed.

Lemma fetch_grows n s owner auth nw : home_inv n s -> post (fetch owner auth nw) s (fun _ => grows s).
Proof.
  intros Hi. unfold fetch. wp.
  eapply post_conseq; [apply post_and; [apply check_owner_boxes | by apply (check_owner_preserves n)]|].
  intros r s1 [Hm Hi1]. assert (grows s s1) as Hg by by apply grows_same.
  destruct r as [[]|e]; wp; [|done]. case_cond; wp; [done|].
  eapply post_conseq; [by apply (gc_mailbox_grows n)|]. intros [[]|e] s2 Hg2; wp;
    [|by eapply grows_trans].
  destruct (mailboxes s2 !! owner); wp; by eapply grows_trans.
Qed.

Lemma ack_grows n s owner auth nw : home_inv n s -> post (ack owner auth nw) s (fun _ => grows s).
Proof.
  intros Hi. unfold ack, journal. wp.
  eapply post_conseq; [apply post_and; [apply check_owner_boxes | by apply (check_owner_preserves n)]|].
  intros r s1 [Hm Hi1]. assert (grows s s1) as Hg by by apply grows_same.
  destruct r as [[]|e]; wp; [|done].
  destruct (mailboxes s1 !! owner) as [box|] eqn:Hb; wp; [|done]. case_bool_decide; wp; [done|].
  eapply grows_trans; [exact Hg|]. destruct (inv_boxes _ _ Hi1 _ _ Hb) as (Hwf & _).
  destruct (fold_ack_row (List.filter (fun k => k <=? cursor auth) (bt_keys (rows box))) box Hwf)
    as (F1 & F2 & F3 & F4 & F5).
  eapply grows_insert; [done | reflexivity | apply owner_fold, owner_ack_row | lia | congruence].
Qed.

Lemma disable_mailbox_grows s id :
  (forall b, mailboxes s !! id = Some b -> box_wf b) -> post (disable_mailbox id) s (fun _ => grows s).
Proof.
  intros Hwf. eapply post_conseq; [apply disable_mailbox_spec|]. intros r s1 [_ [D ->]] i b Hb. cbn.
  destruct (decide (i = id)) as [->|Hne].
  - rewrite lookup_alter_eq, Hb. cbn. eexists. split; [reflexivity|]. cbn.
    destruct (disabled_box_wf b (Hwf _ Hb)) as (_ & _ & Hn & _).
    split_and!; [apply owner_fold, owner_remove_row | lia | done].
  - rewrite lookup_alter_ne by done. exists b. split_and!; [done | done | lia | done].
Qed.

Lemma observe_binding_grows n s id b : home_inv n s -> post (observe_binding id b) s (fun _ => grows s).
Proof.
  intros Hi. assert (grows s s) as Hg by by apply grows_same.
  unfold observe_binding, deny, journal. wp.
  destruct (known_key s id) as [pk|] eqn:Hk; cbn [ok_or]; [|done].
  destruct (vk_from_bytes pk) as [vk|]; cbn [ok_or]; [|done].
  wp. case_cond; wp; [done|]. destruct (map_err _ _) as [[]|e]; wp; [|done].
  case_cond; wp; [done|]. case_cond; [|by apply grows_same].
  eapply post_conseq; [apply disable_mailbox_grows|].
  - intros bx Hb. exact (proj1 (inv_boxes _ _ Hi _ _ Hb)).
  - intros r s1 Hs1. eapply grows_trans; [|exact Hs1]. by apply grows_same.
Qed.

Lemma ingest_revocation_grows n s stmt : home_inv n s -> post (ingest_revocation stmt) s (fun _ => grows s).
Proof.
  intros Hi. assert (grows s s) as Hg by by apply grows_same.
  unfold ingest_revocation, deny, journal. wp.
  destruct (directory s !! _) as [row|] eqn:Hrow; cbn [ok_or]; [|done].
  destruct (map_err _ _) as [pk|e]; wp; [|done]. destruct (map_err _ _) as [[]|e]; wp; [|done].
  case_cond; wp; [done|].
  eapply post_conseq; [apply disable_mailbox_grows|].
  - intros bx Hb. exact (proj1 (inv_boxes _ _ Hi _ _ Hb)).
  - intros [[]|e] s1 Hs1; wp; try (case_cond; wp);
      (eapply grows_trans; [|by apply grows_same]); (eapply grows_trans; [|exact Hs1]); by apply grows_same.
Qed.

(** *** Methods that leave the mailboxes alone *)

Lemma require_mailbox_boxes s owner (Q : sresult unit -> HomeServer -> Prop) :
  (forall r, Q r s) -> post (require_mailbox owner) s Q.
Proof.
  intros HQ. eapply post_conseq; [apply require_mailbox_spec|]. by intros r s1 [-> _].
Qed.

Lemma register_share_token_boxes s owner tok ttl :
  post (register_share_token owner tok ttl) s (fun _ s1 => mailboxes s1 = mailboxes s).
Proof.
  unfold register_share_token, journal. wp. apply require_mailbox_boxes. intros [[]|e]; wp; [|done].
  by case_cond.
Qed.

Lemma mint_contact_boxes s owner rnd :
  post (mint_contact_capability owner rnd) s (fun _ s1 => mailboxes s1 = mailboxes s).
Proof.
  unfold mint_contact_capability, sweep_dead_tokens_for, journal. wp.
  apply require_mailbox_boxes. intros [[]|e]; wp; [|done].
  eapply post_conseq; [apply drop_tokens_exact_live|]. intros [c|e] s1 (Hm & _); by wp.
Qed.

Lemma rotate_contact_boxes s owner old confirm rnd :
  post (rotate_contact owner old confirm rnd) s (fun _ s1 => mailboxes s1 = mailboxes s).
Proof.
  unfold rotate_contact, journal. wp. eapply post_conseq; [apply mint_contact_boxes|].
  intros [new|e] s1 Hm; wp; [|done].
  destruct (find_token old (tokens s1)) as [[]|]; wp; try done. by case_cond; wp.
Qed.

Lemma fetch_prekey_boxes s tok :
  post (fetch_prekey tok) s (fun _ s1 => mailboxes s1 = mailboxes s).
Proof.
  unfold fetch_prekey, journal. wp.
  destruct (find_token tok (tokens s)) as [[mb ex bu re|]|]; wp; try done.
  case_cond; wp; [done|]. destruct re; wp; [done|]. by destruct (prekeys s !! mb) as [[]|]; wp.
Qed.

Lemma publish_prekey_boxes s owner blob :
  post (publish_prekey owner blob) s (fun _ s1 => mailboxes s1 = mailboxes s).
Proof.
  unfold publish_prekey, journal. wp. apply require_mailbox_boxes. by intros [[]|e]; wp.
Qed.

Lemma register_from_card_grows s card : post (register_from_card card) s (fun _ => grows s).
Proof.
  unfold register_from_card, wire. wp. destruct (map_err Wire _) as [[]|e]; wp; [|by apply grows_same].
  case_cond; wp; [by apply grows_same|].
  eapply post_conseq; [apply register_grows|]. intros [[]|e] s1 Hg; wp; [|done].
  eapply post_conseq; [apply register_share_token_boxes|].
  intros [[]|e] s2 Hm; wp; (eapply grows_trans; [exact Hg | by apply grows_same]).
Qed.

Lemma enqueue_from_owner_grows n s owner auth nw o :
  home_inv n s -> n + 1 < U64_MAX -> post (enqueue_from_owner owner auth nw o) s (fun _ => grows s).
Proof.
  intros Hi Hn. unfold enqueue_from_owner. wp.
  eapply post_conseq; [apply post_and; [apply check_owner_boxes | by apply (check_owner_preserves n)]|].
  intros r s1 [Hm Hi1]. assert (grows s s1) as Hg by by apply grows_same.
  destruct r as [[]|e]; wp; [|done]. apply require_mailbox_boxes. intros [[]|e]; wp; [|done].
  eapply post_conseq; [by apply (enqueue_grows n)|]. intros r s2 Hg2. by eapply grows_trans.
Qed.

Lemma exec_grows n op s : home_inv n s -> n + 1 < U64_MAX -> grows s (exec op s).
Proof.
  intros Hi Hn.
  assert (forall A (m : home A), post m s (fun _ s1 => mailboxes s1 = mailboxes s) -> grows s (m s).1) as Hp.
  { intros A m Hm. by apply grows_same. }
  destruct op; cbn [exec].
  - by apply grows_same.
  - exact (register_grows s id pk).
  - exact (register_from_card_grows s card).
  - apply Hp, register_share_token_boxes.
  - apply Hp. unfold mint_share_token. wp. eapply post_conseq; [apply register_share_token_boxes|].
    by intros [] s1 Hm.
  - apply Hp, mint_contact_boxes.
  - apply Hp, rotate_contact_boxes.
  - apply Hp, publish_prekey_boxes.
  - apply Hp, fetch_prekey_boxes.
  - exact (append_inner_grows n s inner Hi Hn).
  - exact (ingest_grows n s o Hi Hn).
  - exact (fetch_grows n s owner auth nw Hi).
  - exact (ack_grows n s owner auth nw Hi).
  - exact (observe_binding_grows n s id b Hi).
  - exact (ingest_revocation_grows n s stmt Hi).
  - apply Hp. unfold note_group_membership, journal. wp. by case_bool_decide; wp.
  - apply Hp. unfold sweep_dead_tokens_for. wp. eapply post_conseq; [apply drop_tokens_exact_live|]. naive_solver.
  - apply Hp. unfold sweep_dead_tokens. wp. eapply post_conseq; [apply drop_tokens_exact_live|]. naive_solver.
  - by apply grows_same.
  - apply Hp. unfold rebind_host, wire, journal. wp. by destruct (advertised _ _ _ _); cbn [map_err]; wp.
  - exact (enqueue_grows n s o Hi Hn).
  - exact (enqueue_from_owner_grows n s owner auth nw o Hi Hn).
  - apply Hp. unfold defer_outbound, mark_outbound_dirty, journal. wp. by case_cond.
Qed.

Lemma run_grows n ops s :
  home_inv n s -> n + lenN ops < U64_MAX -> grows s (run ops s).
Proof.
  revert n s; induction ops as [|op ops IH]; intros n s Hi Hn; [by apply grows_same|].
  rewrite lenN_cons in Hn. cbn. eapply grows_trans; [apply (exec_grows n); [done | lia]|].
  apply (IH (n + 1)); [apply exec_inv; [done | lia] | lia].
Qed.
End Runs.
