(* ===== verification/HomeProps.v ===== *)
(** * Properties of the home server

    What the mailbox service promises, over every state a server can reach. *)

From S2P Require Export HomeRun.
From S2P Require Import Toy.

Section Reach.
Context `{Crypto}.
Implicit Types (s : HomeServer) (id owner tok : key).

(** [s] is the state of some server after [n] operations. *)
Definition reachable (n : N) s : Prop :=
  exists k sk h port s0 ops,
    from_identity k sk h port = Ok s0 /\ lenN ops = n /\ s = run ops s0.

Lemma reachable_inv n s : reachable n s -> n < U64_MAX -> home_inv n s.
Proof.
  intros (k & sk & h & port & s0 & ops & Hs0 & Hn & ->) Hlt.
  pose proof (run_inv 0 ops s0 (fresh_inv _ _ _ _ _ Hs0)) as Hi.
  rewrite Hn, N.add_0_l in Hi. auto.
Qed.

Lemma reachable_run n s ops : reachable n s -> reachable (n + lenN ops) (run ops s).
Proof.
  intros (k & sk & h & port & s0 & ops0 & Hs0 & Hn & ->).
  exists k, sk, h, port, s0, (ops0 ++ ops). split_and!; [done | | by rewrite run_app].
  rewrite lenN_app. lia.
Qed.

(** ** Disabled mailboxes *)

(** Nothing opens, owns or re-creates a disabled mailbox. *)
Lemma disabled_dead n s id box :
  home_inv n s -> mailboxes s !! id = Some box -> disabled box = true ->
  rows box = []
  /\ (forall tok, capability_mailbox s tok <> Some id)
  /\ (forall auth nw ex, (check_owner id auth nw ex s).2 = Err OwnerAuth)
  /\ (forall pk, (register id pk s).2 = Err AlreadyRegistered)
  /\ (forall inner sq, (append_inner inner s).2 = Ok sq ->
        capability_mailbox s (delivery_capability inner) <> Some id).
Proof.
  intros Hi Hb Hd.
  assert (forall tok, capability_mailbox s tok <> Some id) as Hcap.
  { intros tok Hc. unfold capability_mailbox in Hc. apply fmap_Some in Hc as (k & Hk & ->).
    destruct (inv_tokens _ _ Hi _ _ (find_token_In _ _ _ Hk)) as (b & Hb' & Hd'). congruence. }
  split_and!; auto.
  - by apply (wf_disabled box (proj1 (inv_boxes _ _ Hi _ _ Hb))).
  - intros auth nw ex. unfold check_owner, mbind, stM_bind, get. cbn. by rewrite Hb, Hd.
  - intros pk. unfold register, mbind, stM_bind, get. cbn. by rewrite Hb.
Qed.

Lemma ingest_revocation_disables n s stmt gs :
  home_inv n s -> (ingest_revocation stmt s).2 = Ok gs ->
  mailbox_disabled (ingest_revocation stmt s).1 (revoked_identity_id stmt) = true.
Proof.
  intros Hi. change (post (ingest_revocation stmt) s (fun r s1 => r = Ok gs ->
    mailbox_disabled s1 (revoked_identity_id stmt) = true)).
  unfold ingest_revocation, deny, journal. wp.
  destruct (directory s !! _) as [row|] eqn:Hrow; cbn [ok_or]; [|done].
  destruct (map_err _ _) as [pk|e]; wp; [|done]. destruct (map_err _ _) as [[]|e]; wp; [|done].
  case_cond; wp; [done|]. eapply post_conseq; [apply disable_mailbox_spec|].
  intros r s1 [-> [D ->]]. wp.
  destruct (inv_directory _ _ Hi _ _ Hrow) as [[b Hb] _].
  case_cond; wp; intros _; unfold mailbox_disabled; cbn; by rewrite lookup_alter_eq, Hb.
Qed.
End Reach.

(** ** Properties *)

(** C1. In every state a server reaches in fewer than [2^64 - 1] operations, the
    state invariant holds: each mailbox has its rows in sequence order under
    numbers below its counter, an exact byte count within the cap and an
    idempotency entry per row; every token and every prekey queue belongs to a
    live mailbox; and a revoked identity's mailbox is disabled and empty. *)
Theorem home_server_invariant `{Crypto} k sk h port s0 ops :
  from_identity k sk h port = Ok s0 -> lenN ops < U64_MAX -> home_inv (lenN ops) (run ops s0).
Proof. intros Hs0 Hlt. apply reachable_inv; [|done]. by exists k, sk, h, port, s0, ops. Qed.

(** C11. Revocation is final: once a server accepts a revocation statement, then
    in every later state the mailbox is disabled and empty, no capability opens
    it, every owner request is refused, and the identity cannot register
    again. *)
Theorem revocation_is_final `{Crypto} n s stmt gs ops :
  reachable n s -> n + 1 + lenN ops < U64_MAX ->
  (ingest_revocation stmt s).2 = Ok gs ->
  let id := revoked_identity_id stmt in
  let s' := run ops (exec (OpRevoke stmt) s) in
  (exists box, mailboxes s' !! id = Some box /\ disabled box = true /\ rows box = [])
  /\ (forall tok, capability_mailbox s' tok <> Some id)
  /\ (forall auth nw ex, (check_owner id auth nw ex s').2 = Err OwnerAuth)
  /\ (forall pk, (register id pk s').2 = Err AlreadyRegistered).
Proof.
  intros Hr Hn Hok id s'. pose proof (reachable_inv n s Hr ltac:(lia)) as Hi.
  pose proof (ingest_revocation_disables _ _ _ _ Hi Hok) as Hd.
  assert (home_inv (n + 1) (exec (OpRevoke stmt) s)) as Hi1 by (apply exec_inv; [done | lia]).
  pose proof (run_inv (n + 1) ops _ Hi1 ltac:(lia)) as Hi2.
  change (ingest_revocation stmt s).1 with (exec (OpRevoke stmt) s) in Hd.
  unfold mailbox_disabled in Hd. destruct (mailboxes _ !! revoked_identity_id stmt) as [b|] eqn:Hb; [|done].
  destruct (run_grows (n + 1) ops _ Hi1 ltac:(lia) _ _ Hb) as (b2 & Hb2 & _ & _ & Hd2).
  destruct (disabled_dead _ _ _ _ Hi2 Hb2 (Hd2 Hd)) as (H1 & H2 & H3 & H4 & _).
  split_and!; auto. exists b2. auto.
Qed.

(** ** Delivery *)

Section Delivery.
Context `{Crypto}.
Implicit Types (s : HomeServer) (id owner tok : key).

Lemma capability_find s tok k :
  find_token tok (tokens s) = Some k -> capability_mailbox s tok = Some (token_mailbox k).
Proof. unfold capability_mailbox. by intros ->. Qed.

(** A stored envelope is the newest row, unless collection takes rows away. *)
Lemma stored_rows s inner b box :
  box_wf box -> box_room (lenN b) box -> disabled box = false ->
  idempotency box !! idempotency_token inner = None -> encode_padded inner = Ok b ->
  let row := mk_stored (next_seq box) (now s)
    (envelope_expiry (now s) (ttl_bucket inner) (mailbox_max_age_secs (limits s))) inner in
  exists m, rows (stored_box s inner b box) =
      dropN m (List.filter (fun kv => negb (row_expired (now s) (mailbox_max_age_secs (limits s)) kv.2))
                 (rows box ++ [(next_seq box, row)]))
    /\ (box_bytes box + lenN b <= mailbox_max_bytes (limits s) -> m = 0).
Proof.
  intros Hwf Hroom Hd Hid Henc row.
  pose proof (push_row_wf (now s) (limits s) inner b box Hwf Hroom Hd Hid Henc) as Hwf'.
  destruct (push_row_spec (now s) (limits s) inner (lenN b) box Hwf Hroom) as (Hr & _ & Hb & _ & _).
  pose proof (gc_box_spec (now s) (limits s) _ Hwf') as Hgc. unfold stored_box.
  destruct (gc_box _ _ _) as [bx dropped]. destruct Hgc as (m & _ & _ & _ & _ & Hrows & Hm).
  exists m. cbn [fst]. rewrite Hrows, Hr. split; [done|]. rewrite Hb in Hm. done.
Qed.

(** A request that passes [check_owner] leaves the mailboxes as they were. *)
Lemma ack_post s owner auth nw :
  post (ack owner auth nw) s (fun r s1 => r = Ok tt ->
    exists box, mailboxes s !! owner = Some box
      /\ let drop := List.filter (fun k => k <=? cursor auth) (bt_keys (rows box)) in
         mailboxes s1 = <[owner := foldl ack_row box drop]> (mailboxes s)
      /\ tokens s1 = tokens s).
Proof.
  unfold ack, journal. wp.
  eapply post_conseq; [apply post_and; [apply check_owner_boxes | apply check_owner_spec]|].
  intros [[]|e] s1 [Hm Hs]; wp; [|done]. destruct Hs as (bx & pk & Hb & _ & _ & _ & _ & _ & ->).
  cbn. rewrite Hb. case_bool_decide as Hd; wp; intros _; exists bx; (split; [done|]); cbn.
  - rewrite Hd. cbn. by rewrite insert_id.
  - done.
Qed.

(** [append_inner] of an envelope whose token the mailbox already knows. *)
Lemma append_known s inner mb box sq :
  capability_mailbox s (delivery_capability inner) = Some mb -> mailboxes s !! mb = Some box ->
  idempotency box !! idempotency_token inner = Some sq ->
  forall sq', (append_inner inner s).2 = Ok sq' ->
  sq' = sq /\ mailboxes (append_inner inner s).1 = mailboxes s.
Proof.
  intros Hcap Hb Hid sq'.
  change (post (append_inner inner) s (fun r s1 => r = Ok sq' -> sq' = sq /\ mailboxes s1 = mailboxes s)).
  eapply post_conseq; [apply append_inner_spec|]. intros r s1 [_ Hr] ->.
  destruct Hr as (k & bx & Hf & Hbx & _ & Hcase). rewrite (capability_find _ _ _ Hf) in Hcap.
  simplify_eq. destruct Hcase as [[Hi Hm]|[Hi _]]; [|congruence]. split; [congruence | done].
Qed.

Lemma fetch_post s owner auth nw :
  post (fetch owner auth nw) s (fun r s1 => forall l, r = Ok l ->
    exists box, mailboxes s !! owner = Some box /\ 1 <= limit auth <= FETCH_LIMIT_MAX
      /\ mailboxes s1 = <[owner := (gc_box (now s) (limits s) box).1]> (mailboxes s)
      /\ l = takeN (limit auth)
              (List.filter (fun r => (cursor auth <? row_seq r) && (now s <? row_expires_at r))
                 (bt_values (rows (gc_box (now s) (limits s) box).1)))).
Proof.
  unfold fetch. wp.
  eapply post_conseq; [apply post_and; [apply check_owner_boxes | apply check_owner_spec]|].
  intros [[]|e] s1 [Hm Hs]; wp; [|done]. destruct Hs as (bx & pk & Hb & _ & _ & _ & _ & _ & ->).
  case_cond; wp; [done|]. apply orb_false_iff in G as [G1%N.eqb_neq G2%N.ltb_ge].
  eapply post_conseq; [apply gc_mailbox_spec|]. intros r s2 [-> [D ->]]. wp. cbn.
  rewrite Hb, lookup_insert_eq. wp. intros l [= <-]. exists bx. split_and!; try done. lia.
Qed.
End Delivery.


(** C8. Acknowledged envelopes are gone and stay gone: after an accepted [ack]
    the mailbox holds exactly the rows above the cursor, with the same counter
    and idempotency map, and no other mailbox changed; replaying an envelope
    that was acknowledged returns its old number and stores nothing. *)
Theorem ack_no_redelivery `{Crypto} n s owner auth nw :
  reachable n s -> n < U64_MAX -> (ack owner auth nw s).2 = Ok tt ->
  let s1 := exec (OpAck owner auth nw) s in
  exists box box1, mailboxes s !! owner = Some box /\ mailboxes s1 !! owner = Some box1
    /\ (forall id, id <> owner -> mailboxes s1 !! id = mailboxes s !! id)
    /\ rows box1 = List.filter (fun kv => cursor auth <? kv.1) (rows box)
    /\ next_seq box1 = next_seq box /\ idempotency box1 = idempotency box
    /\ (forall inner k r sq, In (k, r) (rows box) ->
          idempotency_token inner = idempotency_token (row_inner r) ->
          capability_mailbox s1 (delivery_capability inner) = Some owner ->
          (append_inner inner s1).2 = Ok sq ->
          sq = k /\ mailboxes (exec (OpAppend inner) s1) = mailboxes s1).
Proof.
  intros Hr Hn Hok. pose proof (reachable_inv n s Hr Hn) as Hi.
  destruct (ack_post s owner auth nw Hok) as (box & Hb & Hm & Ht).
  cbn [exec]. set (s1 := (ack owner auth nw s).1) in *.
  set (drop := List.filter (fun k => k <=? cursor auth) (bt_keys (rows box))) in *.
  destruct (inv_boxes _ _ Hi _ _ Hb) as (Hwf & _).
  destruct (fold_ack_row drop box Hwf) as (_ & Hrows & Hnext & _ & _).
  assert (mailboxes s1 !! owner = Some (foldl ack_row box drop)) as Hb1 by by rewrite Hm, lookup_insert_eq.
  exists box, (foldl ack_row box drop). split_and!; auto using fold_ack_idem.
  - intros id Hne. by rewrite Hm, lookup_insert_ne.
  - rewrite Hrows. apply filter_ext_in. intros [k r] Hin. cbn.
    destruct (N.ltb_spec (cursor auth) k).
    + apply negb_true_iff, bool_decide_eq_false. unfold drop. rewrite list_elem_of_In, filter_In, N.leb_le. lia.
    + apply negb_false_iff, bool_decide_eq_true. unfold drop. rewrite list_elem_of_In, filter_In, N.leb_le.
      split; [|lia]. apply in_map_iff. by exists (k, r).
  - intros inner k r sq Hin Htok Hcap Hres. eapply append_known; [exact Hcap | exact Hb1 | | exact Hres].
    rewrite fold_ack_idem, Htok. by apply (wf_rows _ Hwf).
Qed.

Section FetchOrder.

(** A prefix of the rows above the cursor misses only later rows. *)
Lemma take_prefix_complete (l : btree StoredEnvelope) (p : StoredEnvelope -> bool) c k r :
  bt_sorted l -> (forall k r, In (k, r) l -> row_seq r = k) ->
  In (k, r) l -> p r = true ->
  let out := takeN c (List.filter p (bt_values l)) in
  In r out \/ (lenN out = c /\ forall r', In r' out -> row_seq r' < k).
Proof.
  intros Hs Hk Hin Hp out. unfold out. clear out. revert c Hin.
  induction l as [|[k0 r0] l IH]; intros c Hin; [done|].
  assert (forall k r, In (k, r) l -> row_seq r = k) as Hk' by (intros; apply Hk; by right).
  destruct Hs as [Hlt Hs]. cbn [bt_values map]. cbn [List.filter].
  destruct (N.eqb_spec c 0) as [->|Hc]; [right; split; [done | by intros ? []]|].
  replace c with (1 + (c - 1)) by lia. destruct Hin as [Heq|Hin].
  - simplify_eq. cbn [snd]. rewrite Hp, takeN_cons. left. by left.
  - rewrite Forall_forall in Hlt. pose proof (Hlt (k, r) (proj2 (list_elem_of_In _ _) Hin)) as Hk0. cbn in Hk0.
    cbn [snd]. destruct (p r0).
    + rewrite takeN_cons. destruct (IH Hs Hk' (c - 1) Hin) as [H1|[H1 H2]]; [left; by right|].
      right. rewrite lenN_cons. split; [f_equal; exact H1|]. intros r' [<-|Hr']; [|by apply H2].
      rewrite (Hk k0 r0) by by left. done.
    + apply (IH Hs Hk'). done.
Qed.

Lemma take_sorted (l : btree StoredEnvelope) (p : StoredEnvelope -> bool) c :
  bt_sorted l -> (forall k r, In (k, r) l -> row_seq r = k) ->
  bt_sorted (map (fun r => (row_seq r, r)) (takeN c (List.filter p (bt_values l)))).
Proof.
  intros Hs Hk.
  assert (map (fun r => (row_seq r, r)) (List.filter p (bt_values l)) = List.filter (fun kv => p kv.2) l) as He.
  { clear Hs. unfold bt_values. induction l as [|[k r] l IH]; cbn; [done|].
    assert (row_seq r = k) as Hr by (apply Hk; by left).
    destruct (p r); cbn; rewrite IH by (intros; apply Hk; by right); [by rewrite Hr | done]. }
  unfold takeN. rewrite <- firstn_map, He.
  pose proof (bt_sorted_filter (fun kv => p kv.2) l Hs) as Hf.
  rewrite <- (take_drop (N.to_nat c) (List.filter _ l)) in Hf. by apply bt_sorted_app in Hf as (? & _).
Qed.
End FetchOrder.

(** C7. [fetch] returns the mail in order and skips nothing: an accepted fetch
    yields at most 256 rows of the mailbox in strictly increasing sequence
    order, each above the cursor and unexpired; a live row that is missing from
    the answer comes after everything returned, and then the answer is full. *)
Theorem fetch_in_order_complete `{Crypto} n s owner auth nw l :
  reachable n s -> n < U64_MAX -> (fetch owner auth nw s).2 = Ok l ->
  lenN l <= limit auth <= FETCH_LIMIT_MAX
  /\ bt_sorted (map (fun r => (row_seq r, r)) l)
  /\ exists box, mailboxes s !! owner = Some box
    /\ (forall r, In r l -> In (row_seq r, r) (rows box) /\ cursor auth < row_seq r
                            /\ now s < row_expires_at r)
    /\ (forall k r, In (k, r) (rows box) -> cursor auth < k ->
          row_expired (now s) (mailbox_max_age_secs (limits s)) r = false ->
          In r l \/ (lenN l = limit auth /\ forall r', In r' l -> row_seq r' < k)).
Proof.
  intros Hr Hn Hok. pose proof (reachable_inv n s Hr Hn) as Hi.
  destruct (fetch_post s owner auth nw l Hok) as (box & Hb & Hlim & _ & Hl).
  destruct (inv_boxes _ _ Hi _ _ Hb) as (Hwf & _ & Hbytes).
  pose proof (gc_box_spec (now s) (limits s) box Hwf) as Hgc.
  destruct (gc_box (now s) (limits s) box) as [bx dropped]. cbn [fst] in Hl.
  destruct Hgc as (m & Hwf1 & _ & _ & _ & Hrows & Hm). rewrite (Hm Hbytes) in Hrows.
  assert (forall k r, In (k, r) (rows bx) -> row_seq r = k) as Hseq by (intros k r ?; by apply (wf_rows _ Hwf1)).
  pose proof (wf_sorted _ Hwf1) as Hs. split_and!.
  - rewrite Hl. len_lia.
  - lia.
  - rewrite Hl. by apply take_sorted.
  - exists box. split_and!; [done | |].
    + intros r Hin. rewrite Hl in Hin. unfold takeN in Hin.
      assert (In r (List.filter (fun r => (cursor auth <? row_seq r) && (now s <? row_expires_at r))
        (bt_values (rows bx)))) as Hin2.
      { rewrite <- (take_drop (N.to_nat (limit auth)) (List.filter _ _)). apply in_or_app. by left. }
      apply filter_In in Hin2 as [Hin2 [Hc%N.ltb_lt He%N.ltb_lt]%andb_true_iff].
      apply in_map_iff in Hin2 as ([k r'] & Hk & Hin2). cbn in Hk. subst r'.
      rewrite (Hseq _ _ Hin2) in *. rewrite Hrows in Hin2. unfold dropN in Hin2. cbn in Hin2.
      by apply filter_In in Hin2 as [Hin2 _].
    + intros k r Hin Hc Hx.
      assert (In (k, r) (rows bx)) as Hin1 by (rewrite Hrows; apply filter_In; cbn; by rewrite Hx).
      rewrite Hl. apply take_prefix_complete; [done | done | done |].
      rewrite (Hseq _ _ Hin1). unfold row_expired in Hx. apply orb_false_iff in Hx as [Hx%N.leb_gt _].
      apply andb_true_iff. by rewrite !N.ltb_lt.
Qed.

(** ** Sample runs *)

Section Witness.
#[local] Existing Instances Toy.toy Toy.toy_laws.

Definition sample_keys : Hpke.HpkeKeypair := Hpke.generate (arr_repeat 32 x22).
Definition sample_server_sk : SigningKey := arr_repeat 32 x55.

Definition sample_bundle : ServerBundle :=
  match advertised sample_keys sample_server_sk (lit "local") 8443 with
  | Ok b => b
  | Err _ => mk_bundle (arr_repeat 32 x00) (arr_repeat 32 x00) (arr_repeat 32 x00) (lit "") 0 (arr_repeat 64 x00)
  end.

Definition sample_home : HomeServer :=
  mk_home _ sample_keys sample_server_sk sample_bundle 1700000000 default_limits ∅ ∅ ∅ [] ∅ ∅ ∅ [] 0
    clean_dirty ∅.

Lemma sample_home_ok :
  from_identity sample_keys sample_server_sk (lit "local") 8443 = Ok sample_home.
Proof.
  unfold from_identity, sample_home, sample_bundle.
  pose proof (advertised_ok sample_keys sample_server_sk (lit "local") 8443) as Hok.
  by destruct (advertised _ _ _ _).
Qed.

Lemma sample_reachable ops : reachable (lenN ops) (run ops sample_home).
Proof.
  exists sample_keys, sample_server_sk, (lit "local"), 8443, sample_home, ops.
  split_and!; [apply sample_home_ok | done | done].
Qed.

Definition sample_id : key := card_identity_id sample_card.

Definition sample_registered : HomeServer := run [OpRegisterCard sample_card] sample_home.

Lemma sample_registered_reach : reachable 1 sample_registered.
Proof. exact (sample_reachable [OpRegisterCard sample_card]). Qed.

Example home_server_invariant_witness : home_inv 1 sample_registered.
Proof.
  apply (home_server_invariant sample_keys sample_server_sk (lit "local") 8443 sample_home
    [OpRegisterCard sample_card]); [apply sample_home_ok | vm_compute; reflexivity].
Defined.

Definition sample_revocation : RevocationStatement :=
  match revocation_sign (arr_repeat 32 x33 : SigningKey) sample_id 1700000000 with
  | Ok r => r
  | Err _ => mk_revocation sample_id 0 (arr_repeat 64 x00)
  end.

Example revocation_is_final_witness :
  (register sample_id sample_id (run [OpSweep] (exec (OpRevoke sample_revocation) sample_registered))).2
  = Err AlreadyRegistered.
Proof.
  destruct (revocation_is_final 1 sample_registered sample_revocation [] [OpSweep]) as (_ & _ & _ & Hr);
    [apply sample_registered_reach | vm_compute; reflexivity
    | vm_compute; reflexivity | apply Hr].
Defined.

(** A short text sent through the share token of the sample card. *)
Definition sample_inner : InnerEnvelope :=
  mk_inner (arr_repeat 32 x44) TTL_DAY (arr_repeat 32 x66) (mk_padded DoubleRatchet [x68; x69] T1).


Definition sample_delivered : HomeServer :=
  run [OpRegisterCard sample_card; OpAppend sample_inner] sample_home.

Lemma sample_delivered_reach : reachable 2 sample_delivered.
Proof. exact (sample_reachable [OpRegisterCard sample_card; OpAppend sample_inner]). Qed.

Definition sample_request (path : rstring) (cur lim : N) (nonce : byte) : MailboxOwnerAuth :=
  match auth_sign sample_sk (to_vec sample_id) cur lim 1700000000
          (scope_body (home_server_id sample_home) (lit "POST") path) (arr_repeat 32 nonce) with
  | Ok a => a
  | Err _ => sample_auth
  end.

Definition sample_fetch : MailboxOwnerAuth := sample_request (lit "/v1/mailbox/fetch") 0 10 x71.
Definition sample_ack : MailboxOwnerAuth := sample_request (lit "/v1/mailbox/ack") 1 1 x72.

Example ack_no_redelivery_witness :
  exists box1, mailboxes (exec (OpAck sample_id sample_ack 1700000000) sample_delivered) !! sample_id
               = Some box1.
Proof.
  destruct (ack_no_redelivery 2 sample_delivered sample_id sample_ack 1700000000) as (_ & box1 & _ & Hb & _);
    [apply sample_delivered_reach
    | vm_compute; reflexivity | vm_compute; reflexivity |].
  by exists box1.
Defined.

Example fetch_in_order_complete_witness :
  exists l, (fetch sample_id sample_fetch 1700000000 sample_delivered).2 = Ok l /\ lenN l <= 10.
Proof.
  destruct (fetch sample_id sample_fetch 1700000000 sample_delivered).2 as [l|] eqn:Hok.
  - exists l. split; [reflexivity|].
    exact (proj1 (proj1 (fetch_in_order_complete 2 sample_delivered sample_id sample_fetch 1700000000 l
      sample_delivered_reach ltac:(vm_compute; reflexivity) Hok))).
  - exfalso. assert (is_ok (fetch sample_id sample_fetch 1700000000 sample_delivered).2 = true) as Ht
      by (vm_compute; reflexivity). rewrite Hok in Ht. discriminate.
Defined.
End Witness.
