(* ===== verification/TokenProps.v ===== *)
(** * Properties of capabilities

    Share tokens are spent by the first delivery, contact capabilities are rate
    limited, and an owner's request is accepted once. *)

From S2P Require Export HomeProps.
From S2P Require Import Toy.

Section Tokens.
Context `{Crypto}.
Implicit Types (s : HomeServer) (id owner tok : key).

(** ** Spent tokens *)

(** Every entry under [tok] is a burned share token. *)
Definition spent tok s : Prop :=
  forall k, In (tok, k) (tokens s) -> exists mb ex re, k = Share mb ex true re.

Lemma spent_find tok s :
  spent tok s -> match find_token tok (tokens s) with
                 | Some (Share _ _ true _) | None => True
                 | _ => False
                 end.
Proof.
  intros Hs. destruct (find_token tok (tokens s)) as [k|] eqn:E; [|done].
  destruct (Hs _ (find_token_In _ _ _ E)) as (mb & ex & re & ->). done.
Qed.

Lemma spent_frame tok s s1 : tokens s1 = tokens s -> spent tok s -> spent tok s1.
Proof. unfold spent. by intros ->. Qed.

Lemma spent_filter tok f s s1 :
  tokens s1 = List.filter f (tokens s) -> spent tok s -> spent tok s1.
Proof. unfold spent. intros -> Hs k [Hin _]%filter_In. auto. Qed.

Lemma spent_app tok t k s s1 :
  tokens s1 = tokens s ++ [(t, k)] -> t <> tok -> spent tok s -> spent tok s1.
Proof.
  unfold spent. intros -> Hne Hs k' [Hin|[Heq|[]]]%in_app_or; [auto|]. congruence.
Qed.

Lemma spent_set tok t k s s1 :
  tokens s1 = set_token t k (tokens s) ->
  (t = tok -> exists mb ex re, k = Share mb ex true re) -> spent tok s -> spent tok s1.
Proof. unfold spent. intros -> Hk Hs k' [Hin|[-> ->]]%set_token_In; auto. Qed.

Lemma spent_authorize tok t : preserves (spent tok) (authorize_append t).
Proof.
  intros s Hs. unfold authorize_append, journal. wp.
  destruct (find_token t (tokens s)) as [[mb ex bu re|mb gr ws wc]|] eqn:E; wp; [| |done].
  - case_cond; wp; [by case_cond; wp | done].
  - assert (t <> tok) as Hne.
    { intros ->. pose proof (spent_find _ _ Hs) as Hf. by rewrite E in Hf. }
    case_cond; wp; [done|]. case_cond; wp.
    all: repeat (case_cond; wp).
    all: first [by eapply spent_set | by eapply spent_set; [apply set_token_twice | |]].
Qed.

Lemma spent_burn tok t : preserves (spent tok) (burn_if_share t).
Proof.
  intros s Hs. unfold burn_if_share, journal. wp.
  destruct (find_token t (tokens s)) as [[mb ex [|] re|]|] eqn:E; wp; try done.
  eapply spent_set; [reflexivity | eauto | done].
Qed.

Lemma gc_mailbox_tokens s owner : post (gc_mailbox owner) s (fun _ s1 => tokens s1 = tokens s).
Proof. eapply post_conseq; [apply gc_mailbox_spec|]. by intros r s1 [_ [D ->]]. Qed.

Lemma spent_append tok inner : preserves (spent tok) (append_inner inner).
Proof.
  intros s Hs. unfold append_inner, wire, journal. wp.
  eapply post_conseq; [by apply (spent_authorize tok)|]. intros [mb|e] s1 Hs1; wp; [|done].
  destruct (mailboxes s1 !! mb) as [box|]; wp; [|done].
  destruct (idempotency box !! _); wp; [done|].
  destruct (encode_padded inner) as [b|]; cbn [map_err]; wp; [|done].
  eapply post_conseq; [apply (spent_burn tok); by eapply spent_frame; last exact Hs1|].
  intros [[]|e] s2 Hs2; wp; [|done].
  eapply post_conseq; [apply gc_mailbox_tokens|]. intros r s3 Ht. wp.
  destruct r; by eapply spent_frame.
Qed.

Lemma spent_ingest tok o : preserves (spent tok) (ingest o).
Proof.
  intros s Hs. unfold ingest, wire, journal. wp.
  destruct (Hpke.encap_key _) as [enc|]; cbn [map_err]; wp; [|done].
  destruct (seen_enc s !! enc); wp; [done|].
  destruct (Hpke.open_outer _ _); cbn [map_err]; wp; [|done].
  eapply post_conseq; [by apply (spent_append tok)|]. intros [sq|e] s1 Hs1; wp; [|done].
  repeat (case_cond; wp); by eapply spent_frame; last exact Hs1.
Qed.

Lemma spent_enqueue tok o : preserves (spent tok) (enqueue o).
Proof.
  intros s Hs. unfold enqueue, mark_outbound_dirty, journal. wp. case_bool_decide; wp.
  - eapply post_conseq; [by apply (spent_ingest tok)|]. by intros [sq|e] s1 Hs1; wp.
  - by eapply spent_frame; last exact Hs.
Qed.

(** The operations that bring a token into being. *)
Definition grants tok (op : home_op) : bool :=
  match op with
  | OpShare _ t _ | OpMintShare _ _ t | OpContact _ t | OpRotate _ _ _ t => bool_decide (t = tok)
  | OpRegisterCard card => bool_decide (share_token card = tok)
  | _ => false
  end.

Lemma spent_share tok owner t ttl : t <> tok -> preserves (spent tok) (register_share_token owner t ttl).
Proof.
  intros Hne s Hs. unfold register_share_token, journal. wp.
  apply require_mailbox_boxes. intros [[]|e]; wp; [|done]. case_cond; wp; [done|].
  by eapply spent_app.
Qed.

Lemma spent_sweep tok dead : preserves (spent tok) (drop_tokens_exact dead).
Proof.
  intros s Hs. eapply post_conseq; [apply drop_tokens_exact_live|].
  intros r s1 (_ & _ & Ht). by eapply spent_filter.
Qed.

Lemma spent_contact tok owner t : t <> tok -> preserves (spent tok) (mint_contact_capability owner t).
Proof.
  intros Hne s Hs. unfold mint_contact_capability, sweep_dead_tokens_for, journal. wp.
  apply require_mailbox_boxes. intros [[]|e]; wp; [|done].
  eapply post_conseq; [by apply (spent_sweep tok)|]. intros [c|e] s1 Hs1; wp; [|done].
  by eapply spent_app.
Qed.

Lemma spent_rotate tok owner old c t : t <> tok -> preserves (spent tok) (rotate_contact owner old c t).
Proof.
  intros Hne s Hs. unfold rotate_contact, journal. wp.
  eapply post_conseq; [by apply (spent_contact tok)|]. intros [new|e] s1 Hs1; wp; [|done].
  destruct (find_token old (tokens s1)) as [[|mb gr ws wc]|] eqn:E; wp; try done.
  case_cond; wp; [|done]. eapply spent_set; [reflexivity | | done].
  intros ->. pose proof (spent_find _ _ Hs1) as Hf. by rewrite E in Hf.
Qed.

Lemma spent_prekey tok t : preserves (spent tok) (fetch_prekey t).
Proof.
  intros s Hs. unfold fetch_prekey, journal. wp.
  destruct (find_token t (tokens s)) as [[mb ex bu re|]|] eqn:E; wp; try done.
  case_cond; wp; [done|]. destruct re; wp; [done|].
  destruct (prekeys s !! mb) as [[|b q]|]; wp; try done.
  eapply spent_set; [reflexivity | | by eapply spent_frame; last exact Hs].
  intros ->. pose proof (spent_find _ _ Hs) as Hf. rewrite E in Hf. destruct bu; [eauto | done].
Qed.

Lemma spent_disable tok id : preserves (spent tok) (disable_mailbox id).
Proof.
  intros s Hs. eapply post_conseq; [apply disable_mailbox_spec|]. intros r s1 [_ [D ->]].
  by eapply spent_filter.
Qed.

Lemma check_owner_tokens s owner auth nw ex :
  post (check_owner owner auth nw ex) s (fun _ s1 => tokens s1 = tokens s).
Proof.
  eapply post_conseq; [apply check_owner_spec|]. intros [[]|e] s1 Hs.
  - by destruct Hs as (? & ? & _ & _ & _ & _ & _ & _ & ->).
  - by destruct Hs as [_ [-> | ->]].
Qed.

Lemma register_tokens s id pk : post (register id pk) s (fun _ s1 => tokens s1 = tokens s).
Proof. unfold register, journal. wp. by destruct (mailboxes s !! id); wp. Qed.

Lemma spent_observe tok id b : preserves (spent tok) (observe_binding id b).
Proof.
  intros s Hs. unfold observe_binding, deny, journal. wp.
  destruct (known_key s id) as [pk|]; cbn [ok_or]; [|done].
  destruct (vk_from_bytes pk); cbn [ok_or]; [|done].
  wp. case_cond; wp; [done|]. destruct (map_err _ _) as [[]|e]; wp; [|done].
  case_cond; wp; [done|]. case_cond; [apply (spent_disable tok)|]; by eapply spent_frame; last exact Hs.
Qed.

Lemma spent_revoke tok stmt : preserves (spent tok) (ingest_revocation stmt).
Proof.
  intros s Hs. unfold ingest_revocation, deny, journal. wp.
  destruct (directory s !! _); cbn [ok_or]; [|done].
  destruct (map_err _ _) as [pk|e]; wp; [|done]. destruct (map_err _ _) as [[]|e]; wp; [|done].
  case_cond; wp; [done|].
  eapply post_conseq; [apply (spent_disable tok); by eapply spent_frame; last exact Hs|].
  intros [[]|e] s1 Hs1; wp; [|done]. case_cond; wp; by eapply spent_frame; last exact Hs1.
Qed.

Lemma exec_spent tok op s : grants tok op = false -> spent tok s -> spent tok (exec op s).
Proof.
  intros Hg Hs.
  assert (forall A (m : home A), preserves (spent tok) m -> spent tok (m s).1) as Hp by (intros A m Hm; by apply Hm).
  assert (forall A (m : home A), post m s (fun _ s1 => tokens s1 = tokens s) -> spent tok (m s).1) as Hf
    by (intros A m Hm; by eapply spent_frame).
  destruct op; cbn [exec grants] in *; try (apply bool_decide_eq_false in Hg).
  - by eapply spent_frame; last exact Hs.
  - apply Hf, register_tokens.
  - apply Hp. clear s Hs Hp Hf. intros s Hs. unfold register_from_card, wire. wp.
    destruct (map_err Wire _) as [[]|e]; wp; [|done]. case_cond; wp; [done|].
    eapply post_conseq; [apply register_tokens|]. intros [[]|e] s1 Ht; wp; [|by eapply spent_frame].
    eapply post_conseq; [apply (spent_share tok); [done | by eapply (spent_frame tok s)]|].
    by intros [[]|e] s2 Hs2; wp.
  - by apply Hp, spent_share.
  - apply Hp, preserves_bind; [by apply spent_share | by intros ? ? ?].
  - by apply Hp, spent_contact.
  - by apply Hp, spent_rotate.
  - apply Hf. unfold publish_prekey, journal. wp. apply require_mailbox_boxes. by intros [[]|e]; wp.
  - apply Hp, spent_prekey.
  - apply Hp, spent_append.
  - apply Hp, spent_ingest.
  - apply Hf. unfold fetch. wp. eapply post_conseq; [apply check_owner_tokens|].
    intros [[]|e] s1 Ht; wp; [|done]. case_cond; wp; [done|].
    eapply post_conseq; [apply gc_mailbox_tokens|]. intros [[]|e] s2 Ht2; wp; [|congruence].
    destruct (mailboxes s2 !! owner); wp; congruence.
  - apply Hf. unfold ack, journal. wp. eapply post_conseq; [apply check_owner_tokens|].
    intros [[]|e] s1 Ht; wp; [|done]. destruct (mailboxes s1 !! owner); wp; [|done]. by case_bool_decide; wp.
  - apply Hp, spent_observe.
  - apply Hp, spent_revoke.
  - apply Hf. unfold note_group_membership, journal. wp. by case_bool_decide; wp.
  - apply Hp. intros s' Hs'. unfold sweep_dead_tokens_for. wp. by apply spent_sweep.
  - apply Hp. intros s' Hs'. unfold sweep_dead_tokens. wp. by apply spent_sweep.
  - by eapply spent_frame; last exact Hs.
  - apply Hf. unfold rebind_host, wire, journal. wp. by destruct (advertised _ _ _ _); cbn [map_err]; wp.
  - apply Hp, spent_enqueue.
  - apply Hp. intros s' Hs'. unfold enqueue_from_owner. wp. eapply post_conseq; [apply check_owner_tokens|].
    intros [[]|e] s1 Ht; wp; [|by eapply spent_frame]. apply require_mailbox_boxes.
    intros [[]|e]; wp; [apply spent_enqueue|]; by eapply spent_frame.
  - apply Hf. unfold defer_outbound, mark_outbound_dirty, journal. wp. by case_cond.
Qed.

Lemma run_spent tok ops s :
  forallb (fun op => negb (grants tok op)) ops = true -> spent tok s -> spent tok (run ops s).
Proof.
  revert s; induction ops as [|op ops IH]; intros s; cbn; [done|].
  intros [Hg%negb_true_iff Ho]%andb_true_iff Hs. apply IH; [done | by apply exec_spent].
Qed.

(** A spent token opens nothing. *)
Lemma spent_denied tok s inner :
  spent tok s -> delivery_capability inner = tok ->
  (append_inner inner s).2 = Err Denied /\ mailboxes (append_inner inner s).1 = mailboxes s
  /\ (fetch_prekey tok s).2 = Err Denied.
Proof.
  intros Hs <-. pose proof (spent_find _ _ Hs) as Hf.
  assert ((authorize_append (delivery_capability inner) s) = (s, Err Denied)) as Ha.
  { unfold authorize_append, mbind, stM_bind, get, throw, mret, stM_ret. cbn.
    destruct (find_token _ _) as [[mb ex [|] re|]|]; done. }
  unfold append_inner, fetch_prekey, mbind, stM_bind, get, throw. rewrite Ha. split_and!; try done.
  cbn. destruct (find_token _ _) as [[mb ex [|] re|]|]; done.
Qed.

(** ** The first delivery burns a share token *)

Lemma authorize_share tok s mb ex bu re :
  find_token tok (tokens s) = Some (Share mb ex bu re) ->
  post (authorize_append tok) s (fun r s1 => s1 = s /\ forall m, r = Ok m -> m = mb).
Proof.
  intros Hf. unfold authorize_append. wp. rewrite Hf. wp. case_cond; wp; [|done].
  case_cond; wp; (split; [done|]); intros; congruence.
Qed.

Lemma append_burns s inner mb ex bu re box :
  let tok := delivery_capability inner in
  find_token tok (tokens s) = Some (Share mb ex bu re) -> mailboxes s !! mb = Some box ->
  idempotency box !! idempotency_token inner = None ->
  post (append_inner inner) s (fun r s1 => forall sq, r = Ok sq ->
    find_token tok (tokens s1) = Some (Share mb ex true re)
    /\ map fst (tokens s1) = map fst (tokens s)).
Proof.
  intros tok Hf Hb Hid. unfold append_inner, wire, journal. wp.
  eapply post_conseq; [by eapply authorize_share|]. intros r s1 [-> Hr]. destruct r as [m|e]; wp; [|done].
  rewrite (Hr m eq_refl), Hb. wp. rewrite Hid. wp.
  destruct (encode_padded inner) as [b|]; cbn [map_err]; wp; [|done].
  eapply post_conseq; [apply burn_if_share_spec|].
  intros r s2 [-> (T & D & -> & Hown & _ & Hburn)]. wp.
  eapply post_conseq; [apply gc_mailbox_tokens|]. intros r s3 Ht. cbn in Ht.
  assert (find_token tok T = Some (Share mb ex true re)) as HT.
  { etransitivity; [exact Hburn|]. match goal with |- context [find_token _ ?l] => change l with (tokens s) end.
    fold tok. by rewrite Hf. }
  destruct r as [[]|e]; wp; [|done]. intros sq _. rewrite Ht. split; [exact HT|].
  unfold token_owners in Hown. apply (f_equal (map fst)) in Hown. rewrite !map_map in Hown. done.
Qed.

Lemma find_token_unique t k l : NoDup (map fst l) -> In (t, k) l -> find_token t l = Some k.
Proof.
  induction l as [|[t' k'] l IH]; cbn; [done|]. rewrite NoDup_cons. intros [Hn Hd] [Heq|Hin].
  - simplify_eq. unfold find_token. cbn. assert (token_idx t l = None) as -> by by apply token_idx_None.
    by rewrite bool_decide_eq_true_2.
  - specialize (IH Hd Hin). unfold find_token in *. cbn.
    destruct (token_idx t l) as [i|]; [done|]. done.
Qed.
End Tokens.

(** ** Rate limiting *)

Section Rate.
Context `{Crypto}.
Implicit Types (s : HomeServer) (tok : key).

(** Presenting a capability at each of the given times; the number of
    authorised attempts and the state after them. *)
Fixpoint attempts tok (times : list N) s : N * HomeServer :=
  match times with
  | [] => (0, s)
  | t :: times =>
      let '(s1, r) := authorize_append tok (s <| now := t |>) in
      let '(n, s2) := attempts tok times s1 in
      ((if is_ok r then 1 else 0) + n, s2)
  end.

(** One attempt inside the current window: it is granted below the limit, and
    counted. *)
Lemma authorize_contact tok s mb ws wc :
  find_token tok (tokens s) = Some (Contact mb None ws wc) -> mailbox_disabled s mb = false ->
  now s < ws + 60 ->
  exists s1, authorize_append tok s = (s1, if wc <? RATE_PER_MIN then Ok mb else Err Denied)
    /\ mailboxes s1 = mailboxes s
    /\ find_token tok (tokens s1) = Some (Contact mb None ws (if wc <? RATE_PER_MIN then wc + 1 else wc)).
Proof.
  intros Hf Hd Hw. unfold authorize_append, mbind, stM_bind, get, modify, throw, mret, stM_ret, journal.
  cbn -[find_token set_token]. rewrite Hf. unfold saturating_sub.
  destruct (N.leb_spec 60 (now s - ws)); [lia|]. unfold modify. cbn -[find_token set_token].
  destruct (N.leb_spec RATE_PER_MIN wc), (N.ltb_spec wc RATE_PER_MIN); try lia.
  - eexists. split; [reflexivity|]. split; [done|]. cbn -[find_token set_token].
    rewrite find_set_token, decide_True by done. by rewrite Hf.
  - cbn -[find_token set_token]. unfold mailbox_disabled in Hd |- *. cbn -[find_token set_token].
    rewrite Hd. eexists. split; [reflexivity|]. split; [done|]. cbn -[find_token set_token].
    rewrite set_token_twice, find_set_token, decide_True by done. by rewrite Hf.
Qed.

Lemma attempts_count tok times s mb ws wc :
  find_token tok (tokens s) = Some (Contact mb None ws wc) -> mailbox_disabled s mb = false ->
  wc <= RATE_PER_MIN -> Forall (fun t => t < ws + 60) times ->
  (attempts tok times s).1 = N.min (lenN times) (RATE_PER_MIN - wc).
Proof.
  revert s wc; induction times as [|t times IH]; intros s wc Hf Hd Hwc Ht;
    [unfold lenN; cbn [attempts fst length]; lia|].
  apply Forall_cons in Ht as [Ht Hts]. cbn [attempts].
  destruct (authorize_contact tok (s <| now := t |>) mb ws wc) as (s1 & -> & Hm & Hf1); [done..|].
  assert (mailbox_disabled s1 mb = false) as Hd1 by (unfold mailbox_disabled; by rewrite Hm).
  specialize (IH s1 _ Hf1 Hd1). destruct (attempts tok times s1) as [n s2]. cbn [fst] in *.
  rewrite lenN_cons. unfold RATE_PER_MIN in *.
  destruct (N.ltb_spec wc 30); rewrite IH by (done || lia); cbn [is_ok]; lia.
Qed.
End Rate.

(** ** Properties *)

(** C10. A share token delivers once: after a new envelope was accepted through a
    share token (tokens being distinct, as random ones are), every later append
    and prekey request with that token is denied and changes no mailbox, in any
    continuation that does not register the same token again. *)
Theorem share_token_single_use `{Crypto} s inner sq mb ex bu re box ops :
  let tok := delivery_capability inner in
  NoDup (map fst (tokens s)) -> find_token tok (tokens s) = Some (Share mb ex bu re) ->
  mailboxes s !! mb = Some box -> idempotency box !! idempotency_token inner = None ->
  (append_inner inner s).2 = Ok sq ->
  forallb (fun op => negb (grants tok op)) ops = true ->
  let s' := run ops (exec (OpAppend inner) s) in
  forall inner', delivery_capability inner' = tok ->
    (append_inner inner' s').2 = Err Denied
    /\ mailboxes (exec (OpAppend inner') s') = mailboxes s'
    /\ (fetch_prekey tok s').2 = Err Denied.
Proof.
  intros tok Hnd Hf Hb Hid Hok Hops s' inner' Hcap. subst tok.
  destruct (append_burns s inner mb ex bu re box Hf Hb Hid sq Hok) as [Hburn Hkeys].
  apply spent_denied; [|done]. apply run_spent; [done|]. intros k Hin.
  cbn [exec] in Hin. pose proof (find_token_unique _ _ _ ltac:(by rewrite Hkeys) Hin) as Hu.
  assert (Some k = Some (Share mb ex true re)) as [= ->] by (etransitivity; [symmetry; exact Hu | exact Hburn]).
  eauto.
Qed.

(** A contact capability is rate limited: of any number of presentations
    within its 60-second window, exactly the first 30 (less those already
    counted) are authorised for a live mailbox, and the rest are denied. *)
Theorem contact_rate_limit `{Crypto} s tok times mb ws wc :
  find_token tok (tokens s) = Some (Contact mb None ws wc) -> mailbox_disabled s mb = false ->
  wc <= RATE_PER_MIN -> Forall (fun t => t < ws + 60) times ->
  (attempts tok times s).1 = N.min (lenN times) (RATE_PER_MIN - wc).
Proof. apply attempts_count. Qed.

Section Witness.
#[local] Existing Instances Toy.toy Toy.toy_laws.

Example share_token_single_use_witness :
  (fetch_prekey (arr_repeat 32 x44) (run [OpSweep] (exec (OpAppend sample_inner) sample_registered))).2
  = Err Denied.
Proof.
  destruct (mailboxes sample_registered !! sample_id) as [box|] eqn:Hb.
  2: { assert (bool_decide (is_Some (mailboxes sample_registered !! sample_id)) = true) as Ht
         by (vm_compute; reflexivity). rewrite Hb in Ht. discriminate. }
  assert (match mailboxes sample_registered !! sample_id with
          | Some bx => bool_decide (idempotency bx !! idempotency_token sample_inner = None)
          | None => true end = true) as Hid by (vm_compute; reflexivity).
  rewrite Hb in Hid. apply bool_decide_eq_true in Hid.
  eapply (share_token_single_use sample_registered sample_inner 1 sample_id 1700001800 false None box [OpSweep]).
  - apply (bool_decide_unpack _). vm_compute. exact I.
  - vm_compute. reflexivity.
  - exact Hb.
  - exact Hid.
  - vm_compute. reflexivity.
  - vm_compute. reflexivity.
  - reflexivity.
Defined.

Definition sample_contact : key := arr_repeat 32 x45.

Definition sample_with_contact : HomeServer :=
  run [OpRegisterCard sample_card; OpContact sample_id sample_contact] sample_home.

Example contact_rate_limit_witness :
  (attempts sample_contact (replicate 40 1700000007) sample_with_contact).1 = 30.
Proof.
  apply (contact_rate_limit sample_with_contact sample_contact (replicate 40 1700000007)
    sample_id 1700000000 0); [vm_compute; reflexivity | vm_compute; reflexivity | vm_compute; discriminate |].
  apply Forall_replicate. vm_compute. reflexivity.
Defined.
End Witness.

(** * Owner requests are not replayable

    The nonce table of [check_owner] across runs of the server. *)

Section Nonces.
Context `{Crypto}.
Implicit Types (s : HomeServer) (id owner tok : key).

(** The clock value an operation hands to [check_owner], if it calls it. *)
Definition owner_clock (op : home_op) : option N :=
  match op with
  | OpFetch _ _ nw | OpAck _ _ nw | OpEnqueueOwner _ _ nw _ => Some nw
  | _ => None
  end.

(** The nonce is on record, or its time stamp is already stale at [bound]. *)
Definition remembered (nonce : key) (t bound : N) s : Prop :=
  owner_nonces s !! nonce = Some t \/ MAX_AGE_SECS < bound - t.

Lemma remembered_frame nonce t bound s s1 :
  owner_nonces s1 = owner_nonces s -> remembered nonce t bound s -> remembered nonce t bound s1.
Proof. unfold remembered. by intros ->. Qed.

Lemma remembered_check nonce t bound owner auth nw ex :
  nw <= bound -> preserves (remembered nonce t bound) (check_owner owner auth nw ex).
Proof.
  intros Hle s Hs. eapply post_conseq; [apply check_owner_spec|].
  set (kept := filter _ _).
  assert (kept !! nonce = Some t \/ MAX_AGE_SECS < bound - t) as Hk.
  { destruct Hs as [Hs|Hs]; [|by right]. destruct (decide (saturating_sub nw t <= MAX_AGE_SECS)) as [Ht|Ht].
    - left. apply map_lookup_filter_Some. done.
    - right. unfold saturating_sub in Ht. lia. }
  intros [[]|e] s1 Hr.
  - destruct Hr as (box & pk & _ & _ & _ & _ & _ & Hnone & ->). destruct Hk as [Hk|Hk]; [|by right].
    left. cbn. rewrite lookup_insert_ne; [done|]. intros Heq. rewrite Heq in Hnone. congruence.
  - destruct Hr as [_ [-> | ->]]; [done | exact Hk].
Qed.

Lemma append_nonces s inner : post (append_inner inner) s (fun _ s1 => owner_nonces s1 = owner_nonces s).
Proof. eapply post_conseq; [apply append_inner_spec|]. by intros r s1 [(M & T & D & -> & _) _]. Qed.

Lemma ingest_nonces s o : post (ingest o) s (fun _ s1 => owner_nonces s1 = owner_nonces s).
Proof.
  unfold ingest, wire, journal. wp. destruct (Hpke.encap_key _) as [enc|]; cbn [map_err]; wp; [|done].
  destruct (seen_enc s !! enc); wp; [done|].
  destruct (Hpke.open_outer _ _); cbn [map_err]; wp; [|done].
  eapply post_conseq; [apply append_nonces|]. intros [sq|e] s1 Hs1; wp; [|done].
  by repeat (case_cond; wp).
Qed.

Lemma enqueue_nonces s o : post (enqueue o) s (fun _ s1 => owner_nonces s1 = owner_nonces s).
Proof.
  unfold enqueue, mark_outbound_dirty, journal. wp. case_bool_decide; wp; [|done].
  eapply post_conseq; [apply ingest_nonces|]. by intros [sq|e] s1 Hs1; wp.
Qed.

Lemma share_nonces s owner t ttl :
  post (register_share_token owner t ttl) s (fun _ s1 => owner_nonces s1 = owner_nonces s).
Proof.
  unfold register_share_token, journal. wp. apply require_mailbox_boxes. intros [[]|e]; wp; [|done].
  by case_cond.
Qed.

Lemma contact_nonces s owner t :
  post (mint_contact_capability owner t) s (fun _ s1 => owner_nonces s1 = owner_nonces s).
Proof.
  unfold mint_contact_capability, sweep_dead_tokens_for, drop_tokens_exact, journal. wp.
  apply require_mailbox_boxes. intros [[]|e]; wp; [|done]. by case_bool_decide; wp.
Qed.

Lemma disable_nonces s id : post (disable_mailbox id) s (fun _ s1 => owner_nonces s1 = owner_nonces s).
Proof. eapply post_conseq; [apply disable_mailbox_spec|]. by intros r s1 [_ [D ->]]. Qed.

Lemma gc_nonces s owner : post (gc_mailbox owner) s (fun _ s1 => owner_nonces s1 = owner_nonces s).
Proof. eapply post_conseq; [apply gc_mailbox_spec|]. by intros r s1 [_ [D ->]]. Qed.

Lemma exec_remembered nonce t bound op s :
  (forall nw, owner_clock op = Some nw -> nw <= bound) ->
  remembered nonce t bound s -> remembered nonce t bound (exec op s).
Proof.
  intros Hc Hs.
  assert (forall A (m : home A), post m s (fun _ s1 => owner_nonces s1 = owner_nonces s) ->
    remembered nonce t bound (m s).1) as Hf by (intros A m Hm; by eapply remembered_frame).
  destruct op; cbn [exec owner_clock] in *;
    lazymatch type of Hc with context [Some _ = Some _] => idtac | _ => try (apply Hf; clear Hf) end.
  - done.
  - unfold register, journal. wp. by destruct (mailboxes s !! id); wp.
  - unfold register_from_card, register, wire, journal. wp. destruct (map_err Wire _) as [[]|e]; wp; [|done].
    case_cond; wp; [done|]. destruct (mailboxes s !! _); wp; [done|].
    eapply post_conseq; [apply share_nonces|]. by intros [[]|e] s2 Hs2; wp.
  - apply share_nonces.
  - unfold mint_share_token. wp. eapply post_conseq; [apply share_nonces|]. by intros [] s2 Hs2.
  - apply contact_nonces.
  - unfold rotate_contact, journal. wp. eapply post_conseq; [apply contact_nonces|].
    intros [new|e] s1 Hs1; wp; [|done]. destruct (find_token old (tokens s1)) as [[]|]; wp; try done.
    by case_cond; wp.
  - unfold publish_prekey, journal. wp. apply require_mailbox_boxes. by intros [[]|e]; wp.
  - unfold fetch_prekey, journal. wp. destruct (find_token tok (tokens s)) as [[mb ex bu re|]|]; wp; try done.
    case_cond; wp; [done|]. destruct re; wp; [done|]. by destruct (prekeys s !! mb) as [[]|]; wp.
  - apply append_nonces.
  - apply ingest_nonces.
  - specialize (Hc nw eq_refl). change (post (fetch owner auth nw) s (fun _ => remembered nonce t bound)).
    unfold fetch. wp. eapply post_conseq; [by apply (remembered_check nonce t bound)|].
    intros [[]|e] s1 Hs1; wp; [|done]. case_cond; wp; [done|].
    eapply post_conseq; [apply gc_nonces|]. intros [[]|e] s2 Hs2; wp; [|by eapply remembered_frame].
    destruct (mailboxes s2 !! owner); wp; by eapply remembered_frame.
  - specialize (Hc nw eq_refl). change (post (ack owner auth nw) s (fun _ => remembered nonce t bound)).
    unfold ack, journal. wp. eapply post_conseq; [by apply (remembered_check nonce t bound)|].
    intros [[]|e] s1 Hs1; wp; [|done]. destruct (mailboxes s1 !! owner); wp; [|done].
    case_bool_decide; wp; by eapply remembered_frame; last exact Hs1.
  - unfold observe_binding, deny, journal. wp. destruct (known_key s id) as [pk|]; cbn [ok_or]; [|done].
    destruct (vk_from_bytes pk); cbn [ok_or]; [|done].
    wp. case_cond; wp; [done|]. destruct (map_err _ _) as [[]|e]; wp; [|done].
    case_cond; wp; [done|]. case_cond; [|done]. eapply post_conseq; [apply disable_nonces|]. done.
  - unfold ingest_revocation, deny, journal. wp. destruct (directory s !! _); cbn [ok_or]; [|done].
    destruct (map_err _ _) as [pk|e]; wp; [|done]. destruct (map_err _ _) as [[]|e]; wp; [|done].
    case_cond; wp; [done|]. eapply post_conseq; [apply disable_nonces|].
    intros [[]|e] s1 Hs1; wp; [|done]. by case_cond; wp.
  - unfold note_group_membership, journal. wp. by case_bool_decide; wp.
  - unfold sweep_dead_tokens_for, drop_tokens_exact, journal. wp. by case_bool_decide; wp.
  - unfold sweep_dead_tokens, drop_tokens_exact, journal. wp. by case_bool_decide; wp.
  - done.
  - unfold rebind_host, wire, journal. wp. by destruct (advertised _ _ _ _); cbn [map_err]; wp.
  - apply enqueue_nonces.
  - specialize (Hc nw eq_refl).
    change (post (enqueue_from_owner owner auth nw o) s (fun _ => remembered nonce t bound)).
    unfold enqueue_from_owner. wp. eapply post_conseq; [by apply (remembered_check nonce t bound)|].
    intros [[]|e] s1 Hs1; wp; [|done]. apply require_mailbox_boxes. intros [[]|e]; wp; [|done].
    eapply post_conseq; [apply enqueue_nonces|]. intros r s2 Hs2. by eapply (remembered_frame _ _ _ s1).
  - unfold defer_outbound, mark_outbound_dirty, journal. wp. by case_cond.
Qed.

Lemma run_remembered nonce t bound ops s :
  Forall (fun op => forall nw, owner_clock op = Some nw -> nw <= bound) ops ->
  remembered nonce t bound s -> remembered nonce t bound (run ops s).
Proof.
  intros Hops. revert s; induction Hops as [|op ops Hop Hops IH]; intros s Hs; cbn; [done|].
  apply IH. by apply exec_remembered.
Qed.

(** A remembered nonce is refused up to the bound. *)
Lemma remembered_refused t bound s owner auth ex :
  remembered (auth_nonce auth) t bound s -> ts auth = t ->
  (check_owner owner auth bound ex s).2 = Err OwnerAuth.
Proof.
  intros Hs Ht. pose proof (check_owner_spec s owner auth bound ex) as Hr. unfold post in Hr.
  destruct (check_owner owner auth bound ex s).2 as [[]|e]; [|by destruct Hr as [-> _]].
  exfalso. destruct Hr as (box & pk & _ & _ & _ & _ & Hv & Hnone & _).
  assert (bound <= t + MAX_AGE_SECS) as Hle by (rewrite <- Ht; by apply auth_verify_ok in Hv as (? & _)).
  destruct Hs as [Hs|Hs]; [|lia].
  assert (filter (fun kv => saturating_sub bound kv.2 <= MAX_AGE_SECS) (owner_nonces s)
          !! auth_nonce auth = Some t) as Hk.
  { apply map_lookup_filter_Some. split; [done|]. unfold saturating_sub. cbn. lia. }
  congruence.
Qed.
End Nonces.

(** ** Properties *)


Section Witness.
#[local] Existing Instances Toy.toy Toy.toy_laws.

End Witness.
