(* ===== verification/SweepProps.v ===== *)
(** * Prekeys, token sweeps and token collisions

    A share token reserves one prekey, the periodic and the per-mailbox sweep
    reclaim the same tokens, and registering a known token redirects it. *)

From S2P Require Export TokenProps.
From S2P Require Import Toy.

(** ** The two scans for the newest capability agree *)

Lemma scans_agree owner l i best survivors starts :
  (forall bi bs, best = Some (bi, bs) -> (bi < i)%nat) ->
  survivors !! owner = fst <$> best -> starts !! owner = snd <$> best ->
  survivor_scan i survivors starts l !! owner = fst <$> newest_scan owner i best l.
Proof.
  revert i best survivors starts.
  induction l as [|[t [mb ex bu re|mb gr ws wc]] l IH]; intros i best survivors starts Hb Hs Hst; cbn -[Nat.ltb]; [done| |].
  - apply IH; auto. intros bi bs Hbest. specialize (Hb _ _ Hbest). lia.
  - case_bool_decide as Hm; cbn -[Nat.ltb].
    + subst mb. rewrite Hst. destruct best as [[bi bs]|]; cbn -[Nat.ltb].
      * specialize (Hb bi bs eq_refl). assert ((bi <? i)%nat = true) as -> by by apply Nat.ltb_lt.
        rewrite andb_true_r. destruct ((bs <? ws) || (ws =? bs)) eqn:E; cbn -[Nat.ltb].
        -- apply IH; [intros ? ? [= <- _]; lia | by rewrite lookup_insert_eq..].
        -- apply IH; [intros ? ? [= <- _]; lia | done..].
      * apply IH; [intros ? ? [= <- _]; lia | by rewrite lookup_insert_eq..].
    + assert (forall bi bs, best = Some (bi, bs) -> (bi < S i)%nat) as Hb'
        by (intros bi bs Hbest; specialize (Hb _ _ Hbest); lia).
      case_cond; apply IH; auto; by rewrite lookup_insert_ne.
Qed.

Lemma survivors_newest owner l : survivor_scan 0 ∅ ∅ l !! owner = newest_contact_idx_for owner l.
Proof. apply scans_agree; [done | by rewrite lookup_empty..]. Qed.

Lemma collect_dead_In dead i l t :
  In t (collect_dead dead i l) <-> exists j k, l !! j = Some (t, k) /\ dead (i + j)%nat k = true.
Proof.
  revert i; induction l as [|[t' k'] l IH]; intros i; cbn.
  { split; [done|]. intros (j & k & Hj & _). by rewrite lookup_nil in Hj. }
  assert ((exists j k, l !! j = Some (t, k) /\ dead (S i + j)%nat k = true) <->
          (exists j k, ((t', k') :: l) !! S j = Some (t, k) /\ dead (i + S j)%nat k = true)) as Htail.
  { setoid_rewrite Nat.add_succ_r. done. }
  destruct (dead i k') eqn:E; cbn; rewrite IH, Htail.
  - split.
    + intros [->|(j & k & Hj)]; [exists 0%nat, k'; by rewrite Nat.add_0_r | by exists (S j), k].
    + intros ([|j] & k & Hj & Hd); [left; cbn in Hj; congruence | right; by exists j, k].
  - split.
    + intros (j & k & Hj). by exists (S j), k.
    + intros ([|j] & k & Hj & Hd); [|by exists j, k]. cbn in Hj. simplify_eq.
      rewrite Nat.add_0_r in Hd. congruence.
Qed.

Section Sweeps.
Context `{Crypto}.
Implicit Types (s : HomeServer) (id owner tok : key).

(** Whether the sweep reclaims the token at index [i]. *)
Definition reclaimed s (i : nat) (k : TokenKind) : bool :=
  token_dead (mailboxes s)
    (bool_decide (newest_contact_idx_for (token_mailbox k) (tokens s) = Some i)) (now s) k.

Lemma dead_all_In s t :
  In t (dead_all s) <-> exists i k, tokens s !! i = Some (t, k) /\ reclaimed s i k = true.
Proof.
  unfold dead_all, reclaimed. rewrite collect_dead_In. cbn.
  split; intros (i & k & Hi & Hd); exists i, k; (split; [done|]);
    by rewrite survivors_newest in *.
Qed.

Lemma dead_for_In s owner t :
  In t (dead_for s owner) <->
  exists i k, tokens s !! i = Some (t, k) /\ token_mailbox k = owner /\ reclaimed s i k = true.
Proof.
  unfold dead_for, reclaimed, token_belongs_to. rewrite collect_dead_In. cbn.
  split.
  - intros (i & k & Hi & [Ho%bool_decide_eq_true Hd]%andb_true_iff). subst owner. exists i, k.
    split_and!; [done | done |]. erewrite bool_decide_ext; [exact Hd | split; congruence].
  - intros (i & k & Hi & <- & Hd). exists i, k. split; [done|].
    rewrite bool_decide_eq_true_2 by done. cbn. erewrite bool_decide_ext; [exact Hd | split; congruence].
Qed.

(** With distinct tokens, an entry that is not reclaimed survives the sweep. *)
Lemma sweep_keeps s i t k :
  NoDup (map fst (tokens s)) -> tokens s !! i = Some (t, k) -> reclaimed s i k = false ->
  In (t, k) (tokens (exec OpSweep s)).
Proof.
  intros Hnd Hi Hk. cbn [exec]. unfold sweep_dead_tokens.
  change (post (get ≫= fun s => drop_tokens_exact (dead_all s)) s (fun _ s1 => In (t, k) (tokens s1))).
  wp. eapply post_conseq; [apply drop_tokens_exact_live|]. intros r s1 (_ & _ & ->).
  apply filter_In. split; [apply list_elem_of_In; by eapply list_elem_of_lookup_2|]. cbn.
  apply negb_true_iff, bool_decide_eq_false. rewrite list_elem_of_In, dead_all_In.
  intros (j & k' & Hj & Hd).
  assert (map fst (tokens s) !! i = Some t) as Hfi by (rewrite list_lookup_fmap, Hi; done).
  assert (map fst (tokens s) !! j = Some t) as Hfj by (rewrite list_lookup_fmap, Hj; done).
  assert (i = j) as -> by by eapply NoDup_lookup. congruence.
Qed.
End Sweeps.

(** ** Properties *)

(** C39. The periodic sweep and the per-mailbox sweep reclaim the same tokens,
    and neither takes a capability that is in use: with distinct tokens, the
    newest contact capability of a live mailbox, a capability in its grace
    period and an unexpired share token are all still there after a sweep. *)
Theorem sweeps_agree_and_spare_live_tokens `{Crypto} s :
  (forall t, In t (dead_all s) <-> exists owner, In t (dead_for s owner))
  /\ (NoDup (map fst (tokens s)) -> now s <= U64_MAX -> forall i t k, tokens s !! i = Some (t, k) -> live s (token_mailbox k) ->
      match k with
      | Share _ ex _ _ => now s <= ex
      | Contact mb grace _ _ => newest_contact_idx_for mb (tokens s) = Some i
                                \/ exists g, grace = Some g /\ now s < g
      end -> In (t, k) (tokens (exec OpSweep s))).
Proof.
  split.
  - intros t. rewrite dead_all_In. setoid_rewrite dead_for_In. naive_solver.
  - intros Hnd Hnow i t k Hi (box & Hb & Hd) Hk. eapply sweep_keeps; [done | exact Hi |].
    unfold reclaimed, token_dead. rewrite Hb, Hd. destruct k as [mb ex bu re|mb gr ws wc].
    + unfold share_token_dead, saturating_add.
      destruct re; apply N.ltb_ge;
        unfold SHARE_RESERVED_BUFFER_SECS, SHARE_EXPIRED_BUFFER_SECS, U64_MAX in *; cbn in *; lia.
    + destruct Hk as [Hk|(g & -> & Hg%N.ltb_lt)]; cbn.
      * by rewrite bool_decide_eq_true_2.
      * rewrite Hg. by case_bool_decide.
Qed.

(** A share token reserves one prekey: an accepted [fetch_prekey] either
    repeats the blob already reserved for the token and changes nothing, or
    takes exactly the head of the owner's queue; asking again with the same
    token returns the same blob and leaves the queue alone. *)
Theorem prekey_reserved_once `{Crypto} s tok blob :
  (fetch_prekey tok s).2 = Ok blob ->
  let s1 := exec (OpFetchPrekey tok) s in
  fetch_prekey tok s1 = (s1, Ok blob)
  /\ exists mb ex re, find_token tok (tokens s) = Some (Share mb ex false re) /\ now s < ex
     /\ ((re = Some blob /\ s1 = s)
         \/ (re = None /\ exists q, prekeys s !! mb = Some (blob :: q)
             /\ prekeys s1 = <[mb := q]> (prekeys s))).
Proof.
  cbn [exec]. unfold fetch_prekey, mbind, stM_bind, get, throw, mret, stM_ret, journal, modify.
  destruct (find_token tok (tokens s)) as [[mb ex [|] re|mb gr ws wc]|] eqn:E;
    cbn -[find_token set_token]; rewrite ?E; try done.
  destruct (N.ltb_spec (now s) ex) as [Hlt|Hge]; cbn -[find_token set_token]; [|done].
  destruct re as [b|]; cbn -[find_token set_token].
  - intros [= ->]. rewrite E. cbn -[find_token set_token].
    destruct (N.ltb_spec (now s) ex); [|lia]. cbn. split; [done|]. exists mb, ex, (Some blob). auto.
  - destruct (prekeys s !! mb) as [[|b q]|] eqn:Ep; cbn -[find_token set_token]; [done| |done].
    intros [= ->]. rewrite find_set_token, decide_True by done. rewrite E. cbn -[find_token set_token].
    destruct (N.ltb_spec (now s) ex); [|lia]. cbn -[find_token set_token].
    split; [done|]. exists mb, ex, None. split_and!; [done | done |]. right. split; [done|]. by exists q.
Qed.

(** Tokens are not checked for uniqueness: an owner can register the bytes
    of any existing capability as a share token of its own, and from then on the
    capability opens the registrant's mailbox, so that envelopes addressed with
    it reach the registrant instead of the mailbox it was minted for. *)
Theorem share_token_redirects_capability `{Crypto} s victim attacker tok k :
  find_token tok (tokens s) = Some k -> token_mailbox k = victim -> victim <> attacker ->
  live s attacker ->
  (register_share_token attacker tok None s).2 = Ok tt
  /\ capability_mailbox (exec (OpShare attacker tok None) s) tok = Some attacker.
Proof.
  intros Hf Hk Hne (box & Hb & Hd). cbn [exec].
  unfold register_share_token, require_mailbox, mbind, stM_bind, get, mret, stM_ret, journal, modify.
  cbn -[find_token]. rewrite Hb, Hd.
  change (allowed_intro_ttl SHARE_TTL_DEFAULT) with true. cbn -[find_token]. split; [done|].
  unfold capability_mailbox. cbn -[find_token]. rewrite find_token_app, decide_True by done. done.
Qed.

Section Witness.
#[local] Existing Instances Toy.toy Toy.toy_laws.

Example sweeps_agree_and_spare_live_tokens_witness :
  In (sample_contact, Contact sample_id None 1700000000 0)
     (tokens (exec OpSweep sample_with_contact)).
Proof.
  apply (proj2 (sweeps_agree_and_spare_live_tokens sample_with_contact)
    ltac:(apply (bool_decide_unpack _); vm_compute; exact I) ltac:(vm_compute; discriminate) 1%nat).
  - vm_compute. reflexivity.
  - destruct (mailboxes sample_with_contact !! sample_id) as [box|] eqn:Hb.
    + exists box. split; [exact Hb|].
      assert (match mailboxes sample_with_contact !! sample_id with
              | Some b => negb (disabled b) | None => true end = true) as Hd by (vm_compute; reflexivity).
      rewrite Hb in Hd. by apply negb_true_iff in Hd.
    + assert (bool_decide (is_Some (mailboxes sample_with_contact !! sample_id)) = true) as Ht
        by (vm_compute; reflexivity). rewrite Hb in Ht. discriminate.
  - left. vm_compute. reflexivity.
Defined.

Definition sample_prekeyed : HomeServer :=
  run [OpRegisterCard sample_card; OpPublish sample_id [xaa]; OpPublish sample_id [xbb]] sample_home.

Example prekey_reserved_once_witness :
  (fetch_prekey (arr_repeat 32 x44) (exec (OpFetchPrekey (arr_repeat 32 x44)) sample_prekeyed)).2 = Ok [xaa].
Proof.
  destruct (prekey_reserved_once sample_prekeyed (arr_repeat 32 x44) [xaa]) as [Hp _];
    [vm_compute; reflexivity|]. rewrite Hp. reflexivity.
Defined.

Definition sample_attacker : key := arr_repeat 32 x99.

Definition sample_two_owners : HomeServer :=
  run [OpRegisterCard sample_card; OpContact sample_id sample_contact; OpRegister sample_attacker (arr_repeat 32 x98)]
    sample_home.

Example share_token_redirects_capability_witness :
  capability_mailbox (exec (OpShare sample_attacker sample_contact None) sample_two_owners) sample_contact
  = Some sample_attacker.
Proof.
  apply (share_token_redirects_capability sample_two_owners sample_id sample_attacker sample_contact
    (Contact sample_id None 1700000000 0)).
  - vm_compute. reflexivity.
  - reflexivity.
  - vm_compute. discriminate.
  - destruct (mailboxes sample_two_owners !! sample_attacker) as [box|] eqn:Hb.
    + exists box. split; [exact Hb|].
      assert (match mailboxes sample_two_owners !! sample_attacker with
              | Some b => negb (disabled b) | None => true end = true) as Hd by (vm_compute; reflexivity).
      rewrite Hb in Hd. by apply negb_true_iff in Hd.
    + assert (bool_decide (is_Some (mailboxes sample_two_owners !! sample_attacker)) = true) as Ht
        by (vm_compute; reflexivity). rewrite Hb in Ht. discriminate.
Defined.
End Witness.
