(* ===== verification/Federation.v ===== *)
(** * Federation

    [nemo-server/src/federation.rs]: pinned peers, the counted frames of a
    server-to-server link, and the in-process [pump] that forwards outbound
    rows between two home servers. A function that borrows two servers runs on
    the pair of their states. *)

From S2P Require Export HomeRun.

Definition PEER_RATE_PER_SEC : N := 100.
Definition OUTBOUND_MAX_AGE_SECS : N := 14 * 24 * 3600.
Definition BACKOFF_CAP_SECS : N := 300.

Record PumpStats : Type := mk_stats { delivered : N; failed : N; deferred : N; expired : N }.

Definition eta_stats (p : PumpStats) : PumpStats :=
  mk_stats (delivered p) (failed p) (deferred p) (expired p).
#[global] Instance delivered_field : Field delivered := ltac:(derive_field eta_stats delivered).
#[global] Instance failed_field : Field failed := ltac:(derive_field eta_stats failed).
#[global] Instance deferred_field : Field deferred := ltac:(derive_field eta_stats deferred).
#[global] Instance expired_field : Field expired := ltac:(derive_field eta_stats expired).

Definition eta_bundle (b : ServerBundle) : ServerBundle :=
  mk_bundle (bundle_server_id b) (bundle_hpke_public_key b) (bundle_sign_public_key b)
    (bundle_host b) (s2s_port b) (bundle_signature b).
#[global] Instance bundle_sign_public_key_field : Field bundle_sign_public_key :=
  ltac:(derive_field eta_bundle bundle_sign_public_key).

Section Federation.
Context `{Crypto}.

(** [self.peers.get_mut(&id).ok_or(NotPinned)?]. *)
Definition get_peer (id : key) : home PeerState :=
  s ← get; lift (ok_or (peers s !! id) NotPinned).

Definition put_peer (id : key) (p : PeerState) : home unit :=
  modify (fun s => s <| peers ::= <[id := p]> |>).

(** A call whose error is inspected instead of passed on. *)
Definition attempt {S E A} (m : stM S E A) : stM S E (result E A) :=
  fun s => let '(s1, r) := m s in (s1, Ok r).

Definition pin (b : ServerBundle) : home unit :=
  wire (bundle_verify b);;
  let id := bundle_server_id b in
  s ← get;
  if bool_decide (home_server_id s = id) then mret tt
  else
    match peers s !! id with
    | Some p => put_peer id (p <| peer_bundle := b |>)
    | None => put_peer id (peer_new b)
    end;;
    mark_peer_dirty id.

Definition refuse (peer : key) : home unit :=
  s ← get;
  match peers s !! peer with
  | Some p => put_peer peer (p <| refused := true |>);; mark_peer_dirty peer
  | None => mret tt
  end.

Definition apply_sign_rotate (peer : key) (rotate : ServerSignRotate) : home unit :=
  p ← get_peer peer;
  current ← lift (ok_or (vk_from_bytes (bundle_sign_public_key (peer_bundle p))) NotPinned);
  wire (rotate_verify rotate current);;
  put_peer peer (p <| peer_bundle ::= fun b => b <| bundle_sign_public_key := rotate_new_public_key rotate |> |>);;
  mark_peer_dirty peer.

Definition reset_link (peer : key) : home unit :=
  s ← get;
  match peers s !! peer with
  | Some p =>
      put_peer peer (p <| last_rx := 0 |> <| next_tx := 1 |> <| hello_done := false |>);;
      mark_peer_dirty peer
  | None => mret tt
  end.

(** *** Frames *)

Definition take_frame (peer : key) (pl : bytes) : home S2sFrame :=
  p ← get_peer peer;
  if refused p then throw PeerRefused
  else
    put_peer peer (p <| next_tx ::= fun n => u64_add n 1 |>);;
    mark_peer_dirty peer;;
    mret (mk_frame (next_tx p) pl).

(** The opened rate window and the duplicate check come before [ingest];
    [p.window_ok += 1] is a [u32] addition. *)
Definition handle_ciphertext (from : key) (ct : bytes) : home bytes :=
  if lenN ct <? Hpke.ENCAP_LEN then mret fail_payload
  else
    enc ← wire (copy_fixed 32 (takeN Hpke.ENCAP_LEN ct));
    s ← get;
    p ← get_peer from;
    let p := if negb (window_sec p =? now s) then p <| window_sec := now s |> <| window_ok := 0 |> else p in
    put_peer from p;;
    if PEER_RATE_PER_SEC <=? window_ok p then mret fail_payload
    else
      match peer_seen_enc p !! enc with
      | Some sq => mret (ok_payload sq)
      | None =>
          r ← attempt (ingest (mk_outer (home_server_id s) ct));
          match r with
          | Ok sq =>
              p ← get_peer from;
              let p := p <| window_ok ::= fun n => (n + 1) mod 2 ^ 32 |> in
              let p := if HPKE_ENC_WINDOW <=? N.of_nat (size (peer_seen_enc p))
                       then p <| peer_seen_enc := ∅ |> else p in
              put_peer from (p <| peer_seen_enc ::= <[enc := sq]> |>);;
              mret (ok_payload sq)
          | Err _ => mret fail_payload
          end
      end.

Definition accept_frame (from : key) (frame : S2sFrame) : home bytes :=
  p ← get_peer from;
  if refused p then throw PeerRefused
  else if counter frame <=? last_rx p then mret (ok_payload 0)
  else if negb (counter frame =? u64_add (last_rx p) 1) then throw CounterGap
  else
    put_peer from (p <| last_rx := counter frame |>);;
    mark_peer_dirty from;;
    pl ← wire (parse_payload (payload frame));
    match pl with
    | PHello sender receiver =>
        s ← get;
        if negb (bool_decide (sender = from)) || negb (bool_decide (receiver = home_server_id s))
        then throw HelloMismatch else mret []
    | POk _ | PFail => mret (payload frame)
    | PCiphertext ct => handle_ciphertext from ct
    end.

Definition matches_fail (b : bytes) : bool :=
  match parse_payload b with Ok PFail => true | _ => false end.

(** *** Two servers *)

Notation fed := (stM (HomeServer * HomeServer) ServerError).

Definition on_from {A} (m : home A) : fed A := fun '(a, b) => let '(a1, r) := m a in ((a1, b), r).
Definition on_to {A} (m : home A) : fed A := fun '(a, b) => let '(b1, r) := m b in ((a, b1), r).

Definition pin_each_other : fed unit :=
  ab ← get;
  on_from (pin (bundle ab.2));;
  ab ← get;
  on_to (pin (bundle ab.1)).

Definition ensure_hello : fed unit :=
  ab ← get;
  let a_id := home_server_id ab.1 in
  let b_id := home_server_id ab.2 in
  let a_needs := negb (default false (hello_done <$> peers ab.1 !! b_id)) in
  let b_needs := negb (default false (hello_done <$> peers ab.2 !! a_id)) in
  if negb a_needs && negb b_needs then mret tt
  else
    a_hello ← on_from (take_frame b_id (hello_payload a_id b_id));
    b_hello ← on_to (take_frame a_id (hello_payload b_id a_id));
    on_to (accept_frame a_id a_hello);;
    on_from (accept_frame b_id b_hello);;
    on_from (modify (fun s => s <| peers ::= alter (fun p => p <| hello_done := true |>) b_id |>));;
    on_to (modify (fun s => s <| peers ::= alter (fun p => p <| hello_done := true |>) a_id |>)).

Definition forward_one (row : OutboundRow) : fed unit :=
  ab ← get;
  let a_id := home_server_id ab.1 in
  let dst := home_server_id ab.2 in
  frame ← on_from (take_frame dst (hpke_ciphertext (outer row)));
  reply ← on_to (accept_frame a_id frame);
  reply_frame ← on_to (take_frame a_id reply);
  pl ← on_from (accept_frame dst reply_frame);
  if bool_decide (pl = fail_payload) || matches_fail pl then throw Denied else mret tt.

(** [from.outbound.remove(i)] with the journal mark. *)
Definition drop_row (i : nat) : fed unit :=
  on_from (modify (fun s => s <| outbound ::= delete i |>);; mark_outbound_dirty).

(** The row's back-off after a failed attempt. *)
Definition back_off (nw : N) (r : OutboundRow) : OutboundRow :=
  let b := N.min (saturating_mul (backoff_secs r) 2) BACKOFF_CAP_SECS in
  r <| backoff_secs := b |> <| next_attempt := saturating_add nw b |>.

Definition retry_row (nw : N) (i : nat) : fed unit :=
  on_from (modify (fun s => s <| outbound ::= alter (back_off nw) i |>);; mark_outbound_dirty).

(** The [while] loop of [pump] at index [i]; every turn advances [i] or removes
    a row, so the number of rows is enough fuel ([FedProps.pump_settles_due_rows]). *)
Fixpoint pump_loop (fuel : nat) (nw : N) (dst : key) (i : nat) (stats : PumpStats) : fed PumpStats :=
  ab ← get;
  match fuel, outbound ab.1 !! i with
  | _, None => mret stats
  | O, Some _ => mret stats
  | S fuel, Some row =>
      if negb (bool_decide (dest row = dst)) then pump_loop fuel nw dst (S i) stats
      else if OUTBOUND_MAX_AGE_SECS <? saturating_sub nw (enqueued_at row) then
        drop_row i;; pump_loop fuel nw dst i (stats <| expired ::= N.succ |>)
      else if nw <? next_attempt row then
        pump_loop fuel nw dst (S i) (stats <| deferred ::= N.succ |>)
      else
        r ← attempt (forward_one row);
        match r with
        | Ok _ => drop_row i;; pump_loop fuel nw dst i (stats <| delivered ::= N.succ |>)
        | Err Denied | Err PeerRefused =>
            drop_row i;; pump_loop fuel nw dst i (stats <| failed ::= N.succ |>)
        | Err CounterGap =>
            on_from (reset_link dst);;
            ab ← get;
            on_to (reset_link (home_server_id ab.1));;
            retry_row nw i;; pump_loop fuel nw dst (S i) (stats <| failed ::= N.succ |>)
        | Err _ => retry_row nw i;; pump_loop fuel nw dst (S i) (stats <| failed ::= N.succ |>)
        end
  end.

Definition pump : fed PumpStats :=
  ab ← get;
  let dst := home_server_id ab.2 in
  let src := home_server_id ab.1 in
  if peer_refused ab.1 dst || peer_refused ab.2 src then throw PeerRefused
  else if negb (bool_decide (is_Some (peers ab.1 !! dst))) || negb (bool_decide (is_Some (peers ab.2 !! src)))
  then throw NotPinned
  else
    ensure_hello;;
    ab ← get;
    pump_loop (length (outbound ab.1)) (now ab.1) dst 0 (mk_stats 0 0 0 0).
End Federation.

Notation fed := (stM (HomeServer * HomeServer) ServerError).
