(* ===== verification/FedProps.v ===== *)
(** * What federation guarantees

    Frames are processed once and in order, a full window of a peer blocks
    ingestion, federation keeps the home server's invariant, a synchronised link
    forwards an outbound row to the mailbox of the other server, a pass of the
    pump leaves no due row; and a link whose counters disagree loses rows. *)

From S2P Require Export Federation.
From S2P Require Import Toy HomeProps.

(** ** The home server's own methods leave the peers alone *)

Section KeepPeers.
Context `{Crypto} (P : gmap key PeerState).

Notation kept := (fun s : HomeServer => peers s = P).

Lemma kp_wire {A} (m : wresult A) : preserves kept (wire m).
Proof. apply preserves_lift. Qed.
Lemma kp_deny {E A} e (m : result E A) : preserves kept (deny e m).
Proof. apply preserves_lift. Qed.
Lemma kp_journal f : preserves kept (journal f).
Proof. by apply preserves_modify. Qed.

Create HintDb keep_peers discriminated.
#[local] Hint Resolve kp_wire kp_deny kp_journal : keep_peers.

Ltac keep_peers := walk ltac:(eauto with keep_peers).

Lemma require_mailbox_kp owner : preserves kept (require_mailbox owner).
Proof. unfold require_mailbox. keep_peers. Qed.
Lemma check_owner_kp owner auth nw sc : preserves kept (check_owner owner auth nw sc).
Proof. unfold check_owner, gc_owner_nonces. keep_peers. Qed.
Lemma gc_mailbox_kp owner : preserves kept (gc_mailbox owner).
Proof. unfold gc_mailbox. keep_peers. Qed.
Lemma burn_if_share_kp tok : preserves kept (burn_if_share tok).
Proof. unfold burn_if_share. keep_peers. Qed.
Lemma authorize_append_kp tok : preserves kept (authorize_append tok).
Proof. unfold authorize_append. keep_peers. Qed.
Lemma disable_mailbox_kp owner : preserves kept (disable_mailbox owner).
Proof. unfold disable_mailbox. keep_peers. Qed.
Lemma drop_tokens_exact_kp l : preserves kept (drop_tokens_exact l).
Proof. unfold drop_tokens_exact. keep_peers. Qed.
#[local] Hint Resolve require_mailbox_kp check_owner_kp gc_mailbox_kp burn_if_share_kp authorize_append_kp
  disable_mailbox_kp drop_tokens_exact_kp : keep_peers.

Lemma register_kp id pk : preserves kept (register id pk).
Proof. unfold register. keep_peers. Qed.
Lemma register_share_token_kp owner tok ttl : preserves kept (register_share_token owner tok ttl).
Proof. unfold register_share_token. keep_peers. Qed.
Lemma mint_contact_capability_kp owner rnd : preserves kept (mint_contact_capability owner rnd).
Proof. unfold mint_contact_capability, sweep_dead_tokens_for. keep_peers. Qed.
#[local] Hint Resolve register_kp register_share_token_kp mint_contact_capability_kp : keep_peers.
Lemma append_inner_kp inner : preserves kept (append_inner inner).
Proof. unfold append_inner. keep_peers. Qed.
#[local] Hint Resolve append_inner_kp : keep_peers.
Lemma ingest_kp o : preserves kept (ingest o).
Proof. unfold ingest. keep_peers. Qed.
#[local] Hint Resolve ingest_kp : keep_peers.
Lemma enqueue_kp o : preserves kept (enqueue o).
Proof. unfold enqueue, mark_outbound_dirty. keep_peers. Qed.
#[local] Hint Resolve enqueue_kp : keep_peers.

Lemma exec_peers op s : peers s = P -> peers (exec op s) = P.
Proof.
  intros Hs. assert (forall A (m : home A), preserves kept m -> peers (m s).1 = P) as Hp
    by (intros A m Hm; exact (Hm s Hs)).
  destruct op; cbn [exec]; try done; apply Hp;
  unfold mint_share_token, register_from_card, rotate_contact,
    publish_prekey, fetch_prekey, fetch, ack, observe_binding, ingest_revocation, note_group_membership,
    sweep_dead_tokens_for, sweep_dead_tokens, record_token_sweep, rebind_host, enqueue_from_owner,
    defer_outbound, mark_outbound_dirty; keep_peers.
Qed.
End KeepPeers.

(** ** Federation operations *)

Inductive fed_op : Type :=
| FHome (op : home_op)
| FPin (b : ServerBundle)
| FRefuse (peer : key)
| FRotate (peer : key) (r : ServerSignRotate)
| FTake (peer : key) (pl : bytes)
| FAccept (peer : key) (f : S2sFrame).

Section Runs.
Context `{Crypto}.
Implicit Types (s : HomeServer).

Definition fexec (op : fed_op) s : HomeServer :=
  match op with
  | FHome op => exec op s
  | FPin b => (pin b s).1
  | FRefuse peer => (refuse peer s).1
  | FRotate peer r => (apply_sign_rotate peer r s).1
  | FTake peer pl => (take_frame peer pl s).1
  | FAccept peer f => (accept_frame peer f s).1
  end.

Definition frun (ops : list fed_op) s : HomeServer := foldl (fun s op => fexec op s) s ops.

(** *** The invariant of the home server *)

Lemma put_peer_preserves n id p : preserves (home_inv n) (put_peer id p).
Proof. apply preserves_modify. intros s. by apply home_inv_frame. Qed.

Lemma get_peer_spec s id :
  post (get_peer id) s (fun r s1 => s1 = s /\
    match r with Ok p => peers s !! id = Some p | Err e => e = NotPinned /\ peers s !! id = None end).
Proof. unfold get_peer. wp. by destruct (peers s !! id). Qed.

Lemma get_peer_preserves I id : preserves I (get_peer id).
Proof. intros s Hs. eapply post_conseq; [apply get_peer_spec|]. by intros r s1 [-> _]. Qed.

Lemma mark_peer_dirty_preserves n id : preserves (home_inv n) (mark_peer_dirty id).
Proof. apply journal_preserves. Qed.

Lemma inv_wire {A} n (m : wresult A) : preserves (home_inv n) (wire m).
Proof. by intros s Hs. Qed.
Create HintDb fed_inv discriminated.
#[local] Hint Resolve put_peer_preserves get_peer_preserves mark_peer_dirty_preserves inv_wire : fed_inv.

(** A body that only touches peers and journal. *)
Ltac fed_inv := walk ltac:(eauto with fed_inv).

Lemma pin_preserves n b : preserves (home_inv n) (pin b).
Proof. unfold pin. fed_inv. Qed.
Lemma refuse_preserves n peer : preserves (home_inv n) (refuse peer).
Proof. unfold refuse. fed_inv. Qed.
Lemma apply_sign_rotate_preserves n peer r : preserves (home_inv n) (apply_sign_rotate peer r).
Proof. unfold apply_sign_rotate. fed_inv. Qed.
Lemma take_frame_preserves n peer pl : preserves (home_inv n) (take_frame peer pl).
Proof. unfold take_frame. fed_inv. Qed.

(** *** Peers *)

Record peer_wf (p : PeerState) : Prop := {
  pw_window : window_ok p <= PEER_RATE_PER_SEC;
  pw_seen : N.of_nat (size (peer_seen_enc p)) <= HPKE_ENC_WINDOW
}.

Definition peers_wf s : Prop := forall id p, peers s !! id = Some p -> peer_wf p.

(** A peer record that an operation may leave behind: well formed, and its
    receive counter has not gone back. *)
Definition peer_step (o o1 : option PeerState) : Prop :=
  match o, o1 with
  | Some p, Some p1 => last_rx p <= last_rx p1 /\ (peer_wf p -> peer_wf p1)
  | None, Some p1 => peer_wf p1
  | Some _, None => False
  | None, None => True
  end.

Definition peers_step (m m1 : gmap key PeerState) : Prop := forall id, peer_step (m !! id) (m1 !! id).

Lemma peer_step_refl o : peer_step o o.
Proof. destruct o; cbn; [split; [lia | done] | done]. Qed.

#[global] Instance peers_step_refl : Reflexive peers_step.
Proof. intros m id. apply peer_step_refl. Qed.

#[global] Instance peers_step_trans : Transitive peers_step.
Proof.
  intros m1 m2 m3 H1 H2 id. specialize (H1 id). specialize (H2 id).
  destruct (m1 !! id), (m2 !! id), (m3 !! id); cbn in *; try done; [|tauto].
  destruct H1, H2. split; [lia | auto].
Qed.

Lemma peers_step_put m id p1 : peer_step (m !! id) (Some p1) -> peers_step m (<[id := p1]> m).
Proof.
  intros Hst i. destruct (decide (i = id)) as [->|Hne].
  - by rewrite lookup_insert_eq.
  - rewrite lookup_insert_ne by done. apply peer_step_refl.
Qed.

Lemma peers_step_wf s s1 : peers_step (peers s) (peers s1) -> peers_wf s -> peers_wf s1.
Proof.
  intros Hst Hw id p1 Hp1. specialize (Hst id). rewrite Hp1 in Hst.
  destruct (peers s !! id) as [p|] eqn:Hp; cbn in Hst; [|done]. destruct Hst as [_ Hst]. eauto.
Qed.

Lemma peer_new_wf b : peer_wf (peer_new b).
Proof. split; cbn; [|rewrite map_size_empty]; done. Qed.

(** The ciphertext branch: well-formed windows stay so, the receive counter is
    untouched, and the invariant of the server survives. *)
Lemma handle_ciphertext_spec n from ct s p :
  home_inv n s -> n + 1 < U64_MAX -> peers s !! from = Some p ->
  post (handle_ciphertext from ct) s (fun _ s1 => home_inv (n + 1) s1 /\ peers_step (peers s) (peers s1)).
Proof.
  intros Hi Hn Hp. assert (Hi' : home_inv (n + 1) s) by (apply (home_inv_mono n); [lia | done]).
  unfold handle_ciphertext, wire, put_peer. wp. case_cond; [by split|].
  destruct (copy_fixed 32 _) as [enc|e]; cbn [map_err]; wp; [|by split].
  eapply post_conseq; [apply get_peer_spec|]. intros [p'|e] s1 [-> Hp']; [|by split]. simplify_eq. wp.
  set (p1 := if negb (window_sec p =? now s) then _ else p).
  assert (Hp1 : last_rx p1 = last_rx p /\ peer_seen_enc p1 = peer_seen_enc p /\ (window_ok p1 <= window_ok p)).
  { unfold p1. case_cond; cbn; split_and!; try done; lia. }
  clearbody p1. destruct Hp1 as (Hrx & Hseen & Hwin).
  assert (Hput : peers_step (peers s) (<[from := p1]> (peers s))).
  { apply peers_step_put. rewrite Hp. cbn. split; [lia|]. intros [H1 H2]. split; [lia | by rewrite Hseen]. }
  set (s1 := s <| peers ::= <[from := p1]> |>).
  assert (Hi1 : home_inv n s1) by (by eapply home_inv_frame; last apply Hi).
  assert (home_inv (n + 1) s1) as Hi1' by (apply (home_inv_mono n); [lia | done]).
  case_cond; wp; [by split|]. destruct (peer_seen_enc p1 !! enc) as [sq|] eqn:Hsq; wp; [by split|].
  unfold attempt at 1, post at 1.
  pose proof (ingest_inv n s1 (mk_outer (home_server_id s) ct) Hi1 Hn) as Hin.
  pose proof (ingest_kp (peers s1) (mk_outer (home_server_id s) ct) s1 eq_refl) as Hk. unfold post in Hin, Hk.
  destruct (ingest (mk_outer (home_server_id s) ct) s1) as [s2 r]. cbn in Hin, Hk |- *.
  destruct r as [sq|e]; wp; [|by rewrite Hk]. eapply post_conseq; [apply get_peer_spec|].
  intros [p2|e] s3 [-> Hp2]; [|by rewrite Hk]. rewrite Hk in Hp2. cbn in Hp2. rewrite lookup_insert_eq in Hp2.
  injection Hp2 as <-. wp. split; [by eapply home_inv_frame; last apply Hin|]. cbn. rewrite Hk. cbn.
  etrans; [exact Hput|]. apply peers_step_put. rewrite lookup_insert_eq. apply N.leb_gt in G0.
  assert ((window_ok p1 + 1) mod 2 ^ 32 <= PEER_RATE_PER_SEC) as Hmod.
  { unfold PEER_RATE_PER_SEC in *. rewrite N.mod_small; lia. }
  split; case_cond; cbn; try lia; intros [H1 H2]; (split; [done|]); cbn.
  - rewrite map_size_insert_None by apply lookup_empty. rewrite map_size_empty. done.
  - cbn in G1. apply N.leb_gt in G1. rewrite map_size_insert_None by done. lia.
Qed.

(** [accept_frame] by the position of the frame's counter. *)
Lemma accept_frame_old id f s p :
  peers s !! id = Some p -> refused p = false -> counter f <= last_rx p ->
  accept_frame id f s = (s, Ok (ok_payload 0)).
Proof.
  intros Hp Hr Hc. unfold accept_frame, get_peer, mbind, stM_bind, get, lift. rewrite Hp. cbn.
  rewrite Hr. by destruct (N.leb_spec (counter f) (last_rx p)); [|lia].
Qed.

Lemma accept_frame_refused id f s p :
  peers s !! id = Some p -> refused p = true -> accept_frame id f s = (s, Err PeerRefused).
Proof.
  intros Hp Hr. unfold accept_frame, get_peer, mbind, stM_bind, get, lift. rewrite Hp. cbn. by rewrite Hr.
Qed.

Lemma accept_frame_gap id f s p :
  peers s !! id = Some p -> refused p = false -> last_rx p + 1 < counter f -> counter f <= U64_MAX ->
  accept_frame id f s = (s, Err CounterGap).
Proof.
  intros Hp Hr Hc Hm. unfold accept_frame, get_peer, mbind, stM_bind, get, lift. rewrite Hp. cbn [ok_or]. cbv beta iota.
  rewrite Hr. destruct (N.leb_spec (counter f) (last_rx p)); [lia|].
  unfold u64_add, U64_MAX in *. rewrite N.mod_small by lia.
  by destruct (N.eqb_spec (counter f) (last_rx p + 1)); [lia|].
Qed.

Lemma accept_frame_spec n id f s :
  home_inv n s -> n + 1 < U64_MAX ->
  post (accept_frame id f) s (fun _ s1 => home_inv (n + 1) s1 /\ peers_step (peers s) (peers s1)
    /\ forall p, peers s !! id = Some p -> refused p = false -> counter f = u64_add (last_rx p) 1 ->
         last_rx p < counter f -> exists p1, peers s1 !! id = Some p1 /\ counter f <= last_rx p1).
Proof.
  intros Hi Hn. assert (Hi' : home_inv (n + 1) s) by (apply (home_inv_mono n); [lia | done]).
  unfold accept_frame, put_peer, mark_peer_dirty, journal, wire. wp.
  eapply post_conseq; [apply get_peer_spec|]. intros [p|e] s1 [-> Hp].
  2:{ split_and!; [done | done |]. intros p Hx. destruct Hp as [_ Hp]. congruence. }
  wp. case_cond; wp. { split_and!; [done | done |]. intros p' Hx. congruence. }
  case_cond; wp. { apply N.leb_le in G0. split_and!; [done | done |]. intros p' Hx _ _. assert (p' = p) as -> by congruence. lia. }
  case_cond; wp.
  { apply negb_true_iff, N.eqb_neq in G1. split_and!; [done | done |]. intros p' Hx. congruence. }
  apply N.leb_gt in G0.
  set (p1 := p <| last_rx := counter f |>). set (s1 := upd _ (upd _ s)).
  assert (Hi1 : home_inv n s1) by (by eapply home_inv_frame; last apply Hi).
  assert (Hput : peers_step (peers s) (peers s1)).
  { cbn. apply peers_step_put. rewrite Hp. cbn. split; [lia | by intros []]. }
  assert (Hp1 : peers s1 !! id = Some p1) by apply lookup_insert_eq.
  assert (Hdone : home_inv (n + 1) s1 /\ peers_step (peers s) (peers s1)
    /\ forall p, peers s !! id = Some p -> refused p = false -> counter f = u64_add (last_rx p) 1 ->
         last_rx p < counter f -> exists p1, peers s1 !! id = Some p1 /\ counter f <= last_rx p1).
  { split_and!; [apply (home_inv_mono n); [lia | done] | done |]. intros. exists p1. split; [done | cbn; lia]. }
  clearbody s1. destruct (parse_payload (payload f)) as [[sd rv| | |ct]|e]; cbn [map_err]; wp; try exact Hdone.
  - case_cond; wp; exact Hdone.
  - eapply post_conseq; [by eapply (handle_ciphertext_spec n id ct s1 p1)|].
    intros r s2 [Hi2 Hst2]. split_and!; [done | by etrans |]. intros. specialize (Hst2 id). rewrite Hp1 in Hst2.
    destruct (peers s2 !! id) as [p2|]; cbn in Hst2; [|done]. exists p2. split; [done|]. cbn in Hst2. lia.
Qed.

Lemma fexec_spec n op s :
  home_inv n s -> n + 1 < U64_MAX ->
  home_inv (n + 1) (fexec op s) /\ peers_step (peers s) (peers (fexec op s)).
Proof.
  intros Hi Hn. assert (forall A (m : home A), preserves (home_inv n) m -> home_inv (n + 1) (m s).1) as Hp.
  { intros A m Hm. apply (home_inv_mono n); [lia|]. exact (Hm s Hi). }
  destruct op as [op|b|peer|peer r|peer pl|peer f]; cbn [fexec].
  - split; [by apply exec_inv|]. by rewrite (exec_peers (peers s)).
  - split; [apply Hp, pin_preserves|].
    change (post (pin b) s (fun _ s1 => peers_step (peers s) (peers s1))).
    unfold pin, wire, put_peer, mark_peer_dirty, journal. wp. destruct (map_err _ _); [|done].
    wp. case_cond; wp; [done|]. destruct (peers s !! bundle_server_id b) as [p|] eqn:Hpb; wp; cbn;
      apply peers_step_put; rewrite Hpb; cbn; [split; [lia | by intros []] | apply peer_new_wf].
  - split; [apply Hp, refuse_preserves|].
    change (post (refuse peer) s (fun _ s1 => peers_step (peers s) (peers s1))).
    unfold refuse, put_peer, mark_peer_dirty, journal. wp. destruct (peers s !! peer) as [p|] eqn:Hpb; wp; [|done].
    cbn. apply peers_step_put. rewrite Hpb. cbn. split; [lia | by intros []].
  - split; [apply Hp, apply_sign_rotate_preserves|].
    change (post (apply_sign_rotate peer r) s (fun _ s1 => peers_step (peers s) (peers s1))).
    unfold apply_sign_rotate, wire, put_peer, mark_peer_dirty, journal. wp.
    eapply post_conseq; [apply get_peer_spec|]. intros [p|e] s1 [-> Hpb]; [|done]. wp.
    destruct (ok_or _ _); [|done]. wp. destruct (map_err _ _); [|done]. wp. cbn.
    apply peers_step_put. rewrite Hpb. cbn. split; [lia | by intros []].
  - split; [apply Hp, take_frame_preserves|].
    change (post (take_frame peer pl) s (fun _ s1 => peers_step (peers s) (peers s1))).
    unfold take_frame, put_peer, mark_peer_dirty, journal. wp.
    eapply post_conseq; [apply get_peer_spec|]. intros [p|e] s1 [-> Hpb]; [|done]. wp.
    case_cond; wp; [done|]. cbn. apply peers_step_put. rewrite Hpb. cbn. split; [lia | by intros []].
  - destruct (accept_frame_spec n peer f s Hi Hn) as (H1 & H2 & _). done.
Qed.

Lemma frun_spec n ops s :
  home_inv n s -> n + lenN ops + 1 < U64_MAX ->
  home_inv (n + lenN ops) (frun ops s) /\ peers_step (peers s) (peers (frun ops s)).
Proof.
  revert n s; induction ops as [|op ops IH]; intros n s Hi Hn.
  - cbn. split; [|done]. by rewrite lenN_nil, N.add_0_r.
  - rewrite lenN_cons in *. destruct (fexec_spec n op s Hi ltac:(lia)) as [H1 H2].
    destruct (IH (n + 1) (fexec op s) H1 ltac:(lia)) as [H3 H4]. cbn. split; [|by etrans].
    by rewrite N.add_assoc.
Qed.
End Runs.

(** ** Forwarding *)

Section Forward.
Context `{Crypto}.
Implicit Types (s a b : HomeServer).

Lemma post_on_from {A} (m : home A) a b Q :
  post (on_from m) (a, b) Q = post m a (fun r a1 => Q r (a1, b)).
Proof. unfold post, on_from. by destruct (m a). Qed.

Lemma post_on_to {A} (m : home A) a b Q :
  post (on_to m) (a, b) Q = post m b (fun r b1 => Q r (a, b1)).
Proof. unfold post, on_to. by destruct (m b). Qed.

Lemma post_attempt {S E A} (m : stM S E A) (st : S) Q :
  post (attempt m) st Q = post m st (fun r st1 => Q (Ok r) st1).
Proof. unfold post, attempt. by destruct (m st). Qed.

#[local] Hint Rewrite @post_on_from @post_on_to @post_attempt : wp.

(** [s1] is [s] up to its peers and its journal. *)
Definition same_store s s1 : Prop := exists P D, s1 = s <| peers := P |> <| dirty := D |>.

Lemma same_store_refl s : same_store s s.
Proof. exists (peers s), (dirty s). by destruct s. Qed.

Lemma same_store_trans s1 s2 s3 : same_store s1 s2 -> same_store s2 s3 -> same_store s1 s3.
Proof. intros (P & D & ->) (P' & D' & ->). by exists P', D'. Qed.

Lemma take_frame_spec id pl s p :
  peers s !! id = Some p -> refused p = false ->
  post (take_frame id pl) s (fun r s1 => r = Ok (mk_frame (next_tx p) pl) /\ same_store s s1
    /\ peers s1 = <[id := p <| next_tx ::= fun n => u64_add n 1 |>]> (peers s)).
Proof.
  intros Hp Hr. unfold take_frame, put_peer, mark_peer_dirty, journal. wp.
  eapply post_conseq; [apply get_peer_spec|]. intros [p'|e] s1 [-> Hp']; [|destruct Hp'; congruence].
  simplify_eq. wp. rewrite Hr. wp. split_and!; [done | by do 2 eexists | done].
Qed.

(** The next frame of a peer that is in order. *)
Definition next_frame (p : PeerState) (f : S2sFrame) : Prop :=
  refused p = false /\ counter f = u64_add (last_rx p) 1 /\ last_rx p < counter f.

Lemma accept_next id f s p (Q : sresult bytes -> HomeServer -> Prop) :
  peers s !! id = Some p -> next_frame p f ->
  (forall s1, same_store s s1 -> peers s1 = <[id := p <| last_rx := counter f |>]> (peers s) ->
     match parse_payload (payload f) with
     | Ok (POk _) | Ok PFail => Q (Ok (payload f)) s1
     | Ok (PCiphertext ct) => post (handle_ciphertext id ct) s1 Q
     | _ => True
     end) ->
  match parse_payload (payload f) with Ok (PHello _ _) | Err _ => False | _ => True end ->
  post (accept_frame id f) s Q.
Proof.
  intros Hp (Hr & Hc & Hlt) HQ Hpl. unfold accept_frame, put_peer, mark_peer_dirty, journal, wire. wp.
  eapply post_conseq; [apply get_peer_spec|]. intros [p'|e] s1 [-> Hp']; [|destruct Hp'; congruence].
  assert (p' = p) as -> by congruence. wp. rewrite Hr. destruct (N.leb_spec (counter f) (last_rx p)); [lia|].
  rewrite <- Hc, N.eqb_refl. cbn [negb]. wp.
  set (s1 := upd _ (upd _ s)). assert (H1 : same_store s s1) by (by do 2 eexists).
  specialize (HQ s1 H1 eq_refl). clearbody s1.
  destruct (parse_payload (payload f)) as [[]|]; cbn [map_err]; wp; done.
Qed.

(** A ciphertext that is neither a duplicate nor over the rate is ingested, and
    the reply tells whether that succeeded. *)
Lemma handle_ciphertext_ingests id ct s p enc :
  peers s !! id = Some p -> Hpke.ENCAP_LEN <= lenN ct ->
  copy_fixed 32 (takeN Hpke.ENCAP_LEN ct) = Ok enc -> peer_seen_enc p !! enc = None ->
  (window_sec p <> now s \/ window_ok p < PEER_RATE_PER_SEC) ->
  post (handle_ciphertext id ct) s (fun r s1 => exists s0,
    same_store s s0 /\ same_store (ingest (mk_outer (home_server_id s) ct) s0).1 s1
    /\ r = Ok (match (ingest (mk_outer (home_server_id s) ct) s0).2 with
               | Ok sq => ok_payload sq | Err _ => fail_payload end)
    /\ exists p1, peers s1 !! id = Some p1 /\ last_rx p1 = last_rx p /\ next_tx p1 = next_tx p
         /\ refused p1 = refused p).
Proof.
  intros Hp Hlen Henc Hseen Hrate. unfold handle_ciphertext, wire, put_peer. wp.
  destruct (N.ltb_spec (lenN ct) Hpke.ENCAP_LEN); [lia|]. rewrite Henc. cbn [map_err]. wp.
  eapply post_conseq; [apply get_peer_spec|]. intros [p'|e] s1 [-> Hp']; [|destruct Hp'; congruence].
  assert (p' = p) as -> by congruence. wp. set (p1 := if negb (window_sec p =? now s) then _ else p).
  assert (Hp1 : last_rx p1 = last_rx p /\ next_tx p1 = next_tx p /\ refused p1 = refused p
    /\ peer_seen_enc p1 = peer_seen_enc p /\ window_ok p1 < PEER_RATE_PER_SEC).
  { unfold p1. destruct (N.eqb_spec (window_sec p) (now s)); cbn; split_and!; try done. by destruct Hrate. }
  clearbody p1. destruct Hp1 as (H1 & H2 & H3 & H4 & H5).
  destruct (N.leb_spec PEER_RATE_PER_SEC (window_ok p1)); [lia|]. rewrite H4, Hseen.
  set (s0 := s <| peers ::= <[id := p1]> |>). assert (Hs0 : same_store s s0) by (by do 2 eexists).
  wp. unfold post at 1.
  pose proof (ingest_kp (peers s0) (mk_outer (home_server_id s) ct) s0 eq_refl) as Hk. unfold post in Hk.
  destruct (ingest (mk_outer (home_server_id s) ct) s0) as [s2 r] eqn:Hin. cbn in Hk |- *.
  destruct r as [sq|e]; wp.
  - eapply post_conseq; [apply get_peer_spec|]. rewrite Hk, lookup_insert_eq.
    intros [p2|e] s3 [-> Hp2]; [|by destruct Hp2]. injection Hp2 as <-. wp.
    exists s0. rewrite Hin. split_and!; [done | by do 2 eexists | done |].
    eexists. cbn. rewrite lookup_insert_eq. split; [done|]. case_cond; done.
  - exists s0. rewrite Hin. split_and!; [done | apply same_store_refl | done |].
    exists p1. rewrite Hk. cbn. by rewrite lookup_insert_eq.
Qed.

(** Both directions of the link agree on the next counter. *)
Definition link_synced (pa pb : PeerState) : Prop :=
  refused pa = false /\ refused pb = false
  /\ next_tx pa = last_rx pb + 1 /\ next_tx pb = last_rx pa + 1.

Lemma next_frame_synced p n pl :
  refused p = false -> n = last_rx p + 1 -> n <= U64_MAX -> next_frame p (mk_frame n pl).
Proof.
  intros Hr -> Hn. split; [done|]. cbn [counter]. split; [|lia]. unfold u64_add, U64_MAX in *.
  rewrite N.mod_small; lia.
Qed.

Lemma reply_not_fail sq :
  sq <= U64_MAX -> bool_decide (ok_payload sq = fail_payload) || matches_fail (ok_payload sq) = false.
Proof.
  intros Hs. unfold matches_fail. rewrite parse_ok_payload, orb_false_r by done.
  apply bool_decide_eq_false_2. intros Heq. pose proof (parse_ok_payload sq Hs) as Hp.
  rewrite Heq, parse_fail_payload in Hp. done.
Qed.

(** The reply's way back: the sender reads the reply of the next frame. *)
Lemma accept_reply id n pl s p :
  peers s !! id = Some p -> next_frame p (mk_frame n pl) ->
  match parse_payload pl with Ok (POk _) | Ok PFail => True | _ => False end ->
  post (accept_frame id (mk_frame n pl)) s (fun r s1 => r = Ok pl /\ same_store s s1
    /\ peers s1 = <[id := p <| last_rx := n |>]> (peers s)).
Proof.
  intros Hp Hn Hpl. eapply accept_next; [done | done | |]; cbn [payload counter].
  - intros s1 Hs1 Hps1. destruct (parse_payload pl) as [[]|]; done.
  - by destruct (parse_payload pl) as [[]|].
Qed.

Lemma forward_one_synced a b row pa pb enc :
  let ct := hpke_ciphertext (outer row) in
  peers a !! home_server_id b = Some pa -> peers b !! home_server_id a = Some pb ->
  link_synced pa pb -> last_rx pa + 2 <= U64_MAX -> last_rx pb + 2 <= U64_MAX ->
  parse_payload ct = Ok (PCiphertext ct) -> Hpke.ENCAP_LEN <= lenN ct ->
  copy_fixed 32 (takeN Hpke.ENCAP_LEN ct) = Ok enc -> peer_seen_enc pb !! enc = None ->
  (window_sec pb <> now b \/ window_ok pb < PEER_RATE_PER_SEC) ->
  post (forward_one row) (a, b) (fun r ab1 => exists b0, same_store b b0 /\
    let '(b1, ri) := ingest (mk_outer (home_server_id b) ct) b0 in
    (forall sq, ri = Ok sq -> sq <= U64_MAX) ->
    r = match ri with Ok _ => Ok tt | Err _ => Err Denied end
    /\ same_store a ab1.1 /\ same_store b1 ab1.2
    /\ exists pa1 pb1, peers ab1.1 !! home_server_id b = Some pa1
         /\ peers ab1.2 !! home_server_id a = Some pb1 /\ link_synced pa1 pb1).
Proof.
  intros ct Ha Hb (Hra & Hrb & Hsa & Hsb) Hba Hbb Hparse Hlen Henc Hseen Hrate. subst ct.
  unfold forward_one. wp. cbn [fst snd].
  eapply post_conseq; [by apply (take_frame_spec _ _ a pa)|]. intros r a1 (-> & Hsa1 & Hpa1). wp.
  eapply (accept_next _ _ b pb); [done | by apply next_frame_synced; [|lia|lia] | |]; cbn [payload counter];
    rewrite Hparse; [|done].
  intros b' Hsb' Hpb'. assert (Hids : home_server_id b' = home_server_id b /\ now b' = now b)
    by (destruct Hsb' as (P & D & ->); done). destruct Hids as [Hid Hnow].
  eapply post_conseq; [eapply (handle_ciphertext_ingests _ _ b'); [by rewrite Hpb', lookup_insert_eq | done | done | done | by rewrite Hnow]|].
  rewrite Hid. intros r b1 (b0 & Hb0 & Hb1 & -> & p1 & Hp1 & Hrx & Htx & Href). cbn in Hrx, Htx, Href.
  wp. eapply post_conseq; [apply (take_frame_spec _ _ b1 p1); [done | congruence]|].
  intros r b2 (-> & Hsb2 & Hpb2). wp. rewrite Htx.
  assert (Hpa : peers a1 !! home_server_id b = Some (pa <| next_tx ::= fun n => u64_add n 1 |>))
    by (rewrite Hpa1; apply lookup_insert_eq).
  assert (Hst : same_store b b0) by (by eapply same_store_trans).
  destruct (ingest (mk_outer (home_server_id b) (hpke_ciphertext (outer row))) b0) as [bi ri] eqn:Hin. cbn [fst snd] in *.
  set (reply := match ri with Ok sq => ok_payload sq | Err _ => fail_payload end).
  assert (Hsync : forall a2, peers a2 = <[home_server_id b := pa <| next_tx ::= fun n => u64_add n 1 |>
      <| last_rx := next_tx pb |>]> (peers a1) -> exists pa1 pb1, peers a2 !! home_server_id b = Some pa1
         /\ peers b2 !! home_server_id a = Some pb1 /\ link_synced pa1 pb1).
  { intros a2 Ha2. rewrite Ha2, Hpb2, !lookup_insert_eq. do 2 eexists. split; [done|]. split; [done|].
    unfold link_synced. cbn. rewrite Hrx, Htx, Href, !u64_add_small by lia. split_and!; [done | done | lia | lia]. }
  assert (Hfin : (forall sq, ri = Ok sq -> sq <= U64_MAX) ->
    post (accept_frame (home_server_id b) (mk_frame (next_tx pb) reply)) a1
      (fun r a2 => r = Ok reply /\ same_store a1 a2 /\ peers a2 = <[home_server_id b :=
         pa <| next_tx ::= fun n => u64_add n 1 |> <| last_rx := next_tx pb |>]> (peers a1))).
  { intros Hu. eapply accept_reply; [done | by apply next_frame_synced; [|cbn; lia|lia] |].
    unfold reply. destruct ri as [sq|e]; [by rewrite parse_ok_payload by auto | by rewrite parse_fail_payload]. }
  unfold post in Hfin. unfold post at 1.
  destruct (accept_frame (home_server_id b) (mk_frame (next_tx pb) reply) a1) as [a2 ra]. cbn [fst snd] in *.
  assert (Hnote : forall r, ((forall sq, ri = Ok sq -> sq <= U64_MAX) -> ra = Ok reply ->
      r = match ri with Ok _ => Ok tt | Err _ => Err Denied end) ->
    exists b0, same_store b b0 /\
      let '(b1, ri) := ingest (mk_outer (home_server_id b) (hpke_ciphertext (outer row))) b0 in
      (forall sq, ri = Ok sq -> sq <= U64_MAX) ->
      r = match ri with Ok _ => Ok tt | Err _ => Err Denied end
      /\ same_store a a2 /\ same_store b1 b2
      /\ exists pa1 pb1, peers a2 !! home_server_id b = Some pa1
           /\ peers b2 !! home_server_id a = Some pb1 /\ link_synced pa1 pb1).
  { intros r Hr. exists b0. split; [done|]. rewrite Hin. intros Hu. destruct (Hfin Hu) as (Hra' & Hs2 & Hp2).
    split_and!; [by apply Hr | by eapply same_store_trans | by eapply same_store_trans | by apply Hsync]. }
  destruct ra as [pl|e]; [|apply Hnote; intros Hu Hx; discriminate].
  wp. case_cond; wp; apply Hnote; intros Hu [= ->]; unfold reply in *; destruct ri as [sq|e]; try done.
  - by rewrite reply_not_fail in G by auto.
Qed.

(** ** The outbound queue *)

Lemma ingest_outbound o s : outbound (ingest o s).1 = outbound s.
Proof.
  enough (forall Q, preserves (fun s => outbound s = Q) (ingest o)) as Hp by (by apply (Hp (outbound s))).
  intros Q. unfold ingest, append_inner, authorize_append, burn_if_share, gc_mailbox, wire, journal.
  walk fail.
Qed.

Lemma accept_frame_outbound id f s : outbound (accept_frame id f s).1 = outbound s.
Proof.
  enough (forall Q, preserves (fun s => outbound s = Q) (accept_frame id f)) as Hp by (by apply (Hp (outbound s))).
  intros Q. unfold accept_frame, handle_ciphertext, put_peer, mark_peer_dirty, journal, wire, get_peer.
  assert (forall o, preserves (fun s => outbound s = Q) (attempt (ingest o))) as Hin.
  { intros o s0 Hs. unfold post, attempt. pose proof (ingest_outbound o s0). destruct (ingest o s0). cbn in *. congruence. }
  walk ltac:(apply Hin).
Qed.

Lemma take_frame_outbound id pl s : outbound (take_frame id pl s).1 = outbound s.
Proof.
  enough (forall Q, preserves (fun s => outbound s = Q) (take_frame id pl)) as Hp by (by apply (Hp (outbound s))).
  intros Q. unfold take_frame, put_peer, mark_peer_dirty, journal, get_peer. walk fail.
Qed.

(** The sender's queue and clock, as the loop of [pump] sees them. *)
Definition queue_is (l : list OutboundRow) (ab : HomeServer * HomeServer) : Prop := outbound ab.1 = l.

Lemma queue_from {A} (m : home A) l :
  (forall s, outbound (m s).1 = outbound s) -> preserves (queue_is l) (on_from m).
Proof. intros Hm [a b] Hq. rewrite post_on_from. unfold post, queue_is in *. cbn. by rewrite Hm. Qed.

Lemma queue_to {A} (m : home A) l : preserves (queue_is l) (on_to m).
Proof. intros [a b] Hq. by rewrite post_on_to. Qed.

Lemma forward_one_queue row l : preserves (queue_is l) (forward_one row).
Proof.
  unfold forward_one. walk ltac:(first [apply queue_to | apply queue_from; intros;
    first [apply take_frame_outbound | apply accept_frame_outbound]]).
Qed.

Lemma reset_link_spec id s :
  post (reset_link id) s (fun r s1 => r = Ok tt /\ outbound s1 = outbound s).
Proof. unfold reset_link, put_peer, mark_peer_dirty, journal. wp. by destruct (peers s !! id); wp. Qed.

(** The rows that [pump] is done with at time [nw]. *)
Definition settled (nw : N) (dst : key) (row : OutboundRow) : Prop :=
  dest row = dst -> nw < next_attempt row /\ saturating_sub nw (enqueued_at row) <= OUTBOUND_MAX_AGE_SECS.

Record queue_ok (nw : N) (dst : key) (i : nat) (l : list OutboundRow) : Prop := {
  qo_done : forall j row, (j < i)%nat -> l !! j = Some row -> settled nw dst row;
  qo_backoff : forall j row, l !! j = Some row -> 1 <= backoff_secs row
}.

Lemma queue_ok_skip nw dst i l row :
  l !! i = Some row -> settled nw dst row -> queue_ok nw dst i l -> queue_ok nw dst (S i) l.
Proof.
  intros Hi Hs [H1 H2]. split; [|done]. intros j r Hj Hr. destruct (decide (j = i)) as [->|].
  - by simplify_eq.
  - eapply H1; [|done]. lia.
Qed.

Lemma queue_ok_delete nw dst i l : queue_ok nw dst i l -> queue_ok nw dst i (delete i l).
Proof.
  intros [H1 H2]. split.
  - intros j r Hj Hr. rewrite list_lookup_delete_lt in Hr by done. eauto.
  - intros j r Hr. destruct (decide (j < i)%nat).
    + rewrite list_lookup_delete_lt in Hr by done. eauto.
    + rewrite list_lookup_delete_ge in Hr by lia. eauto.
Qed.

Lemma back_off_settled nw dst row :
  nw < U64_MAX -> 1 <= backoff_secs row -> saturating_sub nw (enqueued_at row) <= OUTBOUND_MAX_AGE_SECS ->
  settled nw dst (back_off nw row) /\ 1 <= backoff_secs (back_off nw row).
Proof.
  intros Hn Hb Ha. unfold back_off, settled. cbn.
  unfold saturating_mul, saturating_add, BACKOFF_CAP_SECS in *. split; [split|]; [lia | done | lia].
Qed.

Lemma queue_ok_retry nw dst i l row :
  nw < U64_MAX -> l !! i = Some row -> saturating_sub nw (enqueued_at row) <= OUTBOUND_MAX_AGE_SECS ->
  queue_ok nw dst i l -> queue_ok nw dst (S i) (alter (back_off nw) i l).
Proof.
  intros Hn Hi Ha [H1 H2]. destruct (back_off_settled nw dst row Hn (H2 _ _ Hi) Ha) as [Hs Hb].
  split; intros j r.
  - intros Hj. destruct (decide (j = i)) as [->|].
    + rewrite list_lookup_alter_eq, Hi. cbn. by intros [= <-].
    + rewrite list_lookup_alter_ne by done. apply H1. lia.
  - destruct (decide (j = i)) as [->|].
    + rewrite list_lookup_alter_eq, Hi. cbn. by intros [= <-].
    + rewrite list_lookup_alter_ne by done. apply H2.
Qed.

Lemma drop_row_spec i a b :
  post (drop_row i) (a, b) (fun r ab => r = Ok tt /\ outbound ab.1 = delete i (outbound a) /\ ab.2 = b).
Proof. unfold drop_row, mark_outbound_dirty, journal. by wp. Qed.

Lemma retry_row_spec nw i a b :
  post (retry_row nw i) (a, b) (fun r ab => r = Ok tt /\ outbound ab.1 = alter (back_off nw) i (outbound a)).
Proof. unfold retry_row, mark_outbound_dirty, journal. by wp. Qed.

(** The loop settles every row from [i] on, given as much fuel as rows are left. *)
Lemma pump_loop_settles nw dst fuel :
  nw < U64_MAX -> forall i stats a b,
  (length (outbound a) - i <= fuel)%nat -> queue_ok nw dst i (outbound a) ->
  post (pump_loop fuel nw dst i stats) (a, b) (fun r ab => is_ok r = true
    /\ forall row, row ∈ outbound ab.1 -> settled nw dst row).
Proof.
  intros Hn. induction fuel as [|fuel IH]; intros i stats a b Hlen Hq.
  { cbn [pump_loop]. wp. cbn [fst]. destruct (outbound a !! i) as [row|] eqn:Hi.
    - apply lookup_lt_Some in Hi. lia.
    - wp. split; [done|]. intros row (j & Hj)%list_elem_of_lookup_1. eapply (qo_done _ _ _ _ Hq); [|done].
      apply lookup_ge_None in Hi. apply lookup_lt_Some in Hj. cbn in Hj. lia. }
  cbn [pump_loop]. wp. cbn [fst]. destruct (outbound a !! i) as [row|] eqn:Hi.
  2:{ wp. split; [done|]. intros row (j & Hj)%list_elem_of_lookup_1. eapply (qo_done _ _ _ _ Hq); [|done].
      apply lookup_ge_None in Hi. apply lookup_lt_Some in Hj. cbn in Hj. lia. }
  pose proof (lookup_lt_Some _ _ _ Hi) as Hlt.
  assert (Hdrop : forall st a1 b1, outbound a1 = outbound a ->
    post (drop_row i;; pump_loop fuel nw dst i st) (a1, b1) (fun r ab => is_ok r = true
      /\ forall row, row ∈ outbound ab.1 -> settled nw dst row)).
  { intros st a1 b1 Ha1. wp. eapply post_conseq; [apply drop_row_spec|]. intros r [a2 b2] (-> & Ha2 & _).
    cbn [fst] in Ha2. rewrite Ha1 in Ha2. apply IH; rewrite Ha2; [|by apply queue_ok_delete].
    rewrite length_delete by (by exists row). lia. }
  wp. case_cond; wp.
  { apply negb_true_iff, bool_decide_eq_false in G. apply IH; [lia|].
    eapply queue_ok_skip; [done | by intros Hd | done]. }
  case_cond; [by apply Hdrop|]. apply N.ltb_ge in G0. case_cond.
  { apply N.ltb_lt in G1. apply IH; [lia|]. eapply queue_ok_skip; [done | by intros Hd | done]. }
  assert (Hretry : forall st a1 b1, outbound a1 = outbound a ->
    post (retry_row nw i;; pump_loop fuel nw dst (S i) st) (a1, b1) (fun r ab => is_ok r = true
      /\ forall row, row ∈ outbound ab.1 -> settled nw dst row)).
  { intros st a1 b1 Ha1. wp. eapply post_conseq; [apply retry_row_spec|]. intros r [a2 b2] [-> Ha2].
    cbn [fst] in Ha2. rewrite Ha1 in Ha2. apply IH; rewrite Ha2; [rewrite length_alter; lia|].
    by eapply queue_ok_retry. }
  wp. eapply post_conseq; [by apply (forward_one_queue row (outbound a))|].
  intros r [a1 b1] Ha1. unfold queue_is in Ha1. cbn [fst] in Ha1.
  destruct r as [[]|[]]; first [by apply Hdrop | by apply Hretry | idtac].
  wp. eapply post_conseq; [apply reset_link_spec|]. intros r a2 [-> Ha2]. wp.
  eapply post_conseq; [apply reset_link_spec|]. intros r b2 [-> _].
  specialize (Hretry (stats <| failed ::= N.succ |>) a2 b2). revert Hretry. wp. intros Hretry. apply Hretry. congruence.
Qed.

(** A full rate window refuses before ingesting. *)
Lemma full_window id ct s p :
  peers s !! id = Some p -> window_ok p = PEER_RATE_PER_SEC -> window_sec p = now s ->
  Hpke.ENCAP_LEN <= lenN ct ->
  (handle_ciphertext id ct s).2 = Ok fail_payload /\ mailboxes (handle_ciphertext id ct s).1 = mailboxes s.
Proof.
  intros Hp Hw Hsec Hlen.
  change (post (handle_ciphertext id ct) s (fun r s1 => r = Ok fail_payload /\ mailboxes s1 = mailboxes s)).
  unfold handle_ciphertext, wire, put_peer. wp. destruct (N.ltb_spec (lenN ct) Hpke.ENCAP_LEN); [lia|].
  destruct (copy_fixed_len 32 (takeN Hpke.ENCAP_LEN ct)) as (enc & -> & _).
  { unfold Hpke.ENCAP_LEN in *. rewrite lenN_takeN. lia. }
  cbn [map_err]. wp. eapply post_conseq; [apply get_peer_spec|].
  intros [p'|e] s1 [-> Hp']; [|destruct Hp'; congruence]. assert (p' = p) as -> by congruence.
  wp. rewrite Hsec, N.eqb_refl. cbn [negb]. by rewrite Hw.
Qed.

(** A sender whose counter is behind the receiver's: the receiver answers [ok]
    without looking at the payload. *)
Lemma forward_one_stale a b row pa pb :
  peers a !! home_server_id b = Some pa -> peers b !! home_server_id a = Some pb ->
  refused pa = false -> refused pb = false ->
  next_tx pa <= last_rx pb -> next_tx pb = last_rx pa + 1 -> next_tx pb <= U64_MAX ->
  post (forward_one row) (a, b) (fun r ab => r = Ok tt /\ same_store a ab.1 /\ same_store b ab.2).
Proof.
  intros Ha Hb Hra Hrb Hold Hnext Hmax. unfold forward_one. wp. cbn [fst snd].
  eapply post_conseq; [by apply (take_frame_spec _ _ a pa)|]. intros r a1 (-> & Hsa & Hpa). wp.
  unfold post at 1. rewrite (accept_frame_old _ _ b pb) by done. cbn [fst snd]. wp.
  eapply post_conseq; [by apply (take_frame_spec _ _ b pb)|]. intros r b1 (-> & Hsb & Hpb). wp.
  eapply post_conseq.
  { eapply (accept_reply _ _ _ a1); [rewrite Hpa; apply lookup_insert_eq | by apply next_frame_synced | ].
    by rewrite parse_ok_payload. }
  intros r a2 (-> & Hsa2 & _). wp. rewrite reply_not_fail by done. wp. cbn [fst snd].
  split_and!; [done | by eapply same_store_trans | done].
Qed.
End Forward.

(** ** Properties *)

(** Federation keeps the home server sound: in every run of home and
    federation calls from a fresh server the home invariant holds, every peer's
    rate window counts at most 100 appends and its duplicate window at most 1024
    entries; and a peer whose window is full for the current second gets its
    ciphertexts refused with [fail], without any effect on the mailboxes. *)
Theorem federation_invariant `{Crypto} k sk h port s0 ops :
  from_identity k sk h port = Ok s0 -> lenN ops + 1 < U64_MAX ->
  let s := frun ops s0 in
  home_inv (lenN ops) s /\ peers_wf s
  /\ forall id p ct, peers s !! id = Some p -> window_ok p = PEER_RATE_PER_SEC -> window_sec p = now s ->
       Hpke.ENCAP_LEN <= lenN ct ->
       (handle_ciphertext id ct s).2 = Ok fail_payload /\ mailboxes (handle_ciphertext id ct s).1 = mailboxes s.
Proof.
  intros Hs0 Hn s. pose proof (fresh_inv _ _ _ _ _ Hs0) as Hi0.
  destruct (frun_spec 0 ops s0 Hi0 ltac:(lia)) as [Hi Hst]. split_and!; [done | |].
  - eapply peers_step_wf; [exact Hst|]. unfold from_identity in Hs0.
    apply result_bind_ok in Hs0 as (b & _ & <-%Ok_inj). intros id p. cbn. by rewrite lookup_empty.
  - intros id p ct Hp Hw Hsec Hlen. apply (full_window id ct s p); done.
Qed.


(** C15. On a synchronised link, forwarding a queued envelope makes exactly one
    ingestion attempt at the destination, on a store equal to its own up to peers
    and journal; the sender sees success exactly when that ingestion succeeded
    and [Denied] when it failed, its own store is untouched, and the link is
    synchronised again. *)
Theorem forward_delivers `{Crypto} a b row pa pb enc :
  let ct := hpke_ciphertext (outer row) in
  peers a !! home_server_id b = Some pa -> peers b !! home_server_id a = Some pb ->
  link_synced pa pb -> last_rx pa + 2 <= U64_MAX -> last_rx pb + 2 <= U64_MAX ->
  parse_payload ct = Ok (PCiphertext ct) -> Hpke.ENCAP_LEN <= lenN ct ->
  copy_fixed 32 (takeN Hpke.ENCAP_LEN ct) = Ok enc -> peer_seen_enc pb !! enc = None ->
  (window_sec pb <> now b \/ window_ok pb < PEER_RATE_PER_SEC) ->
  exists b0, same_store b b0 /\
    let '(b1, ri) := ingest (mk_outer (home_server_id b) ct) b0 in
    let '((a2, b2), r) := forward_one row (a, b) in
    (forall sq, ri = Ok sq -> sq <= U64_MAX) ->
    r = match ri with Ok _ => Ok tt | Err _ => Err Denied end
    /\ same_store a a2 /\ same_store b1 b2
    /\ exists pa1 pb1, peers a2 !! home_server_id b = Some pa1
         /\ peers b2 !! home_server_id a = Some pb1 /\ link_synced pa1 pb1.
Proof.
  intros ct Ha Hb Hl Hba Hbb Hparse Hlen Henc Hseen Hrate.
  destruct (forward_one_synced a b row pa pb enc Ha Hb Hl Hba Hbb Hparse Hlen Henc Hseen Hrate) as (b0 & Hb0 & Hres).
  exists b0. split; [done|]. destruct (ingest _ b0) as [b1 ri].
  destruct (forward_one row (a, b)) as [[a2 b2] r]. exact Hres.
Qed.

(** One pass of the pump leaves nothing due: with as much fuel as the queue
    has rows the loop returns statistics, and every row still queued for the
    destination is at most 14 days old and waits for a later attempt. *)
Theorem pump_settles_due_rows `{Crypto} a b dst stats :
  now a < U64_MAX -> (forall row, row ∈ outbound a -> 1 <= backoff_secs row) ->
  post (pump_loop (length (outbound a)) (now a) dst 0 stats) (a, b) (fun r ab => is_ok r = true
    /\ forall row, row ∈ outbound ab.1 -> settled (now a) dst row).
Proof.
  intros Hn Hb. apply pump_loop_settles; [done | lia |]. split; [lia|].
  intros j row Hj. apply Hb. by eapply list_elem_of_lookup_2.
Qed.

(** A sender that has fallen behind on a link (its counter was reset or
    restored while the receiver kept its own) loses messages silently: the
    receiver answers old counters with [ok], so one pass of the pump counts the
    queued row as delivered and drops it although the destination's mailboxes
    have not changed. *)
Theorem stale_counter_loses_row `{Crypto} a b row pa pb :
  peers a !! home_server_id b = Some pa -> peers b !! home_server_id a = Some pb ->
  refused pa = false -> refused pb = false -> hello_done pa = true -> hello_done pb = true ->
  next_tx pa <= last_rx pb -> next_tx pb = last_rx pa + 1 -> next_tx pb <= U64_MAX ->
  outbound a = [row] -> dest row = home_server_id b -> next_attempt row <= now a ->
  saturating_sub (now a) (enqueued_at row) <= OUTBOUND_MAX_AGE_SECS ->
  exists a1 b1, pump (a, b) = ((a1, b1), Ok (mk_stats 1 0 0 0))
    /\ outbound a1 = [] /\ mailboxes b1 = mailboxes b.
Proof.
  intros Ha Hb Hra Hrb Hha Hhb Hold Hnext Hmax Hout Hdest Hdue Hage.
  assert (post pump (a, b) (fun r ab => r = Ok (mk_stats 1 0 0 0)
    /\ outbound ab.1 = [] /\ mailboxes ab.2 = mailboxes b)) as Hp.
  2:{ unfold post in Hp. destruct (pump (a, b)) as [[a1 b1] r]. cbn in Hp. destruct Hp as (-> & H1 & H2). by exists a1, b1. }
  unfold pump, peer_refused. wp. cbn [fst snd]. rewrite Ha, Hb, Hra, Hrb. cbn [orb].
  rewrite !bool_decide_eq_true_2 by (by eexists). cbn [negb orb]. wp.
  unfold ensure_hello. wp. cbn [fst snd]. rewrite Ha, Hb. cbn [fmap option_fmap option_map default]. rewrite Hha, Hhb.
  cbn [negb andb]. wp. cbn [fst snd]. rewrite Hout. cbn [length pump_loop]. wp. cbn [fst]. rewrite Hout. cbn [lookup list_lookup].
  rewrite Hdest, bool_decide_eq_true_2 by done. cbn [negb].
  destruct (N.ltb_spec OUTBOUND_MAX_AGE_SECS (saturating_sub (now a) (enqueued_at row))); [lia|].
  destruct (N.ltb_spec (now a) (next_attempt row)); [lia|]. wp. rewrite post_attempt.
  eapply post_conseq; [apply post_and; [by apply (forward_one_stale a b row pa pb)
    | by apply (forward_one_queue row (outbound a))]|].
  intros r [a1 b1] [(-> & _ & P & D & Hb1) Hq]. unfold queue_is in Hq. cbn [fst snd] in *. wp.
  eapply post_conseq; [apply drop_row_spec|]. intros r [a2 b2] (-> & Ha2 & Hb2).
  cbn [fst snd] in *. rewrite Hq, Hout in Ha2. wp. cbn [fst]. rewrite Ha2. cbn [lookup list_lookup delete list_delete].
  wp. cbn [fst snd]. split_and!; [done | done | by rewrite Hb2, Hb1].
Qed.

(** ** Witnesses *)

Section Witness.
#[local] Existing Instances Toy.toy Toy.toy_laws.

(** Another server, with a message for the sample server in its queue. *)
Definition sample_other_keys : Hpke.HpkeKeypair := Hpke.generate (arr_repeat 32 x23).

Definition sample_row : OutboundRow :=
  match Hpke.seal_inner sample_keys sample_inner (arr_repeat 32 x91) with
  | Ok o => mk_outbound (home_server_id sample_home) o 1700000000 1700000000 1
  | Err _ => mk_outbound (home_server_id sample_home) (mk_outer (arr_repeat 32 x00) []) 0 0 1
  end.

(** The peer record with the given counters. *)
Definition sample_peer (rx tx : N) : PeerState := mk_peer sample_bundle false rx tx true 0 0 ∅.

Definition sample_src (rx tx : N) : HomeServer :=
  mk_home _ sample_other_keys sample_server_sk sample_bundle 1700000000 default_limits ∅ ∅ ∅ [] ∅ ∅
    {[ home_server_id sample_home := sample_peer rx tx ]} [sample_row] 0 clean_dirty ∅.

Definition sample_dst (rx tx : N) : HomeServer :=
  sample_registered <| peers := {[ home_server_id (sample_src 0 1) := sample_peer rx tx ]} |>.

Example sample_forward_works :
  (forward_one sample_row (sample_src 1 2, sample_dst 1 2)).2 = Ok tt
  /\ mailbox_head (forward_one sample_row (sample_src 1 2, sample_dst 1 2)).1.2 sample_id = 1.
Proof. split; vm_compute; reflexivity. Qed.

Lemma id_set_peers (s : HomeServer) P : home_server_id (s <| peers := P |>) = home_server_id s.
Proof. reflexivity. Qed.

Lemma sample_dst_id rx tx : home_server_id (sample_dst rx tx) = home_server_id sample_home.
Proof.
  unfold sample_dst. rewrite id_set_peers.
  apply (bool_decide_eq_true_1 (home_server_id sample_registered = home_server_id sample_home)).
  vm_compute. reflexivity.
Qed.

Lemma sample_src_peer rx tx rx' tx' :
  peers (sample_src rx tx) !! home_server_id (sample_dst rx' tx') = Some (sample_peer rx tx).
Proof. rewrite sample_dst_id. apply lookup_singleton_eq. Qed.

Lemma sample_dst_peer rx tx rx' tx' :
  peers (sample_dst rx' tx') !! home_server_id (sample_src rx tx) = Some (sample_peer rx' tx').
Proof. apply lookup_singleton_eq. Qed.

Definition sample_ops : list fed_op := [FHome (OpRegisterCard sample_card); FPin sample_bundle].

Example federation_invariant_witness : home_inv 2 (frun sample_ops sample_home) /\ peers_wf (frun sample_ops sample_home).
Proof.
  destruct (federation_invariant sample_keys sample_server_sk (lit "local") 8443 sample_home sample_ops sample_home_ok)
    as (H1 & H2 & _); [vm_compute; reflexivity|]. exact (conj H1 H2).
Defined.

Lemma home_inv_set_peers n (s : HomeServer) P : home_inv n s -> home_inv n (s <| peers := P |>).
Proof. by apply home_inv_frame. Qed.

Lemma sample_dst_inv rx tx : home_inv 1 (sample_dst rx tx).
Proof. apply home_inv_set_peers, (reachable_inv 1); [apply sample_registered_reach | vm_compute; reflexivity]. Qed.


(** The encapsulated key of the queued envelope. *)
Definition sample_enc : key := arr_repeat 32 x91.

Example forward_delivers_witness :
  exists b0, same_store (sample_dst 1 2) b0 /\
    let ri := (ingest (mk_outer (home_server_id (sample_dst 1 2)) (hpke_ciphertext (outer sample_row))) b0).2 in
    ((forall sq, ri = Ok sq -> sq <= U64_MAX) ->
     (forward_one sample_row (sample_src 1 2, sample_dst 1 2)).2 = match ri with Ok _ => Ok tt | Err _ => Err Denied end).
Proof.
  destruct (forward_delivers (sample_src 1 2) (sample_dst 1 2) sample_row (sample_peer 1 2) (sample_peer 1 2) sample_enc)
    as (b0 & Hb0 & Hres).
  - apply sample_src_peer.
  - apply sample_dst_peer.
  - split_and!; reflexivity.
  - vm_compute. discriminate.
  - vm_compute. discriminate.
  - assert (match parse_payload (hpke_ciphertext (outer sample_row)) with
      | Ok (PCiphertext ct) => bool_decide (ct = hpke_ciphertext (outer sample_row)) | _ => false end = true) as Hc
      by (vm_compute; reflexivity).
    destruct (parse_payload (hpke_ciphertext (outer sample_row))) as [[| | |ct]|]; try discriminate.
    apply bool_decide_eq_true_1 in Hc. rewrite Hc. reflexivity.
  - vm_compute. discriminate.
  - assert (match copy_fixed 32 (takeN Hpke.ENCAP_LEN (hpke_ciphertext (outer sample_row))) with
      | Ok e => bool_decide (e = sample_enc) | _ => false end = true) as Hc by (vm_compute; reflexivity).
    destruct (copy_fixed 32 _) as [e|]; try discriminate. apply bool_decide_eq_true_1 in Hc. rewrite Hc. reflexivity.
  - reflexivity.
  - left. vm_compute. discriminate.
  - exists b0. split; [exact Hb0|]. cbv zeta.
    destruct (ingest (mk_outer (home_server_id (sample_dst 1 2)) (hpke_ciphertext (outer sample_row))) b0) as [b1 ri].
    destruct (forward_one sample_row (sample_src 1 2, sample_dst 1 2)) as [[a2 b2] r].
    intros Hu. exact (proj1 (Hres Hu)).
Defined.

Example pump_settles_due_rows_witness :
  is_ok (pump_loop 1 1700000000 (home_server_id sample_home) 0 (mk_stats 0 0 0 0) (sample_src 1 2, sample_dst 1 2)).2 = true.
Proof.
  refine (proj1 (pump_settles_due_rows (sample_src 1 2) (sample_dst 1 2) (home_server_id sample_home)
    (mk_stats 0 0 0 0) _ _)).
  - vm_compute. reflexivity.
  - intros row Hrow. apply list_elem_of_singleton in Hrow as ->. vm_compute. discriminate.
Defined.

Example stale_counter_loses_row_witness :
  exists a1 b1, pump (sample_src 1 2, sample_dst 7 2) = ((a1, b1), Ok (mk_stats 1 0 0 0))
    /\ outbound a1 = [] /\ mailboxes b1 = mailboxes (sample_dst 7 2).
Proof.
  apply (stale_counter_loses_row (sample_src 1 2) (sample_dst 7 2) sample_row (sample_peer 1 2) (sample_peer 7 2)).
  - apply sample_src_peer.
  - apply sample_dst_peer.
  - reflexivity.
  - reflexivity.
  - reflexivity.
  - reflexivity.
  - vm_compute. discriminate.
  - reflexivity.
  - vm_compute. discriminate.
  - reflexivity.
  - rewrite sample_dst_id. apply (bool_decide_eq_true_1 (dest sample_row = home_server_id sample_home)).
    vm_compute. reflexivity.
  - vm_compute. discriminate.
  - vm_compute. discriminate.
Defined.
End Witness.
