(* ===== verification/S2s.v ===== *)
(** * The server-to-server hop

    [nemo-server/src/s2s.rs]: the framing of the byte stream, the two sides of a
    connection and the outbound queue they drain. TLS and sockets are the
    transport: its outcomes are arguments ([None] for a failed write or read),
    and each locked section of the code is one action of the home server. *)

From S2P Require Export FedProps.
From S2P Require Import Toy HomeProps.

Definition MAX_FRAME : N := 18000000.

(** [read_frame]: a 12-byte header, then the payload; [None] is the I/O error of
    a short stream or an oversized frame. *)
Definition read_frame (stream : bytes) : option (S2sFrame * bytes) :=
  if lenN stream <? 12 then None
  else
    let n := from_be (takeN 4 (dropN 8 stream)) in
    if MAX_FRAME <? n then None
    else
      let rest := dropN 12 stream in
      if lenN rest <? n then None
      else Some (mk_frame (from_be (takeN 8 stream)) (takeN n rest), dropN n rest).

(** [write_frame]: the bytes that go out, unless the frame cannot be encoded. *)
Definition write_frame (f : S2sFrame) : option bytes := ok (frame_encode f).

Section S2s.
Context `{Crypto}.

(** ** The outbound queue *)

Definition same_row (row r : OutboundRow) : bool :=
  bool_decide (dest r = dest row)
  && bool_decide (hpke_ciphertext (outer r) = hpke_ciphertext (outer row)).

(** [Iterator::position]. *)
Fixpoint position {A} (f : A -> bool) (l : list A) : option nat :=
  match l with
  | [] => None
  | x :: l => if f x then Some O else S <$> position f l
  end.

Definition due_destinations (s : HomeServer) : list key :=
  foldl (fun out row =>
    if (next_attempt row <=? now s) && negb (bool_decide (dest row ∈ out))
       && bool_decide (is_Some (peers s !! dest row)) && negb (peer_refused s (dest row))
    then out ++ [dest row] else out) [] (outbound s).

Definition row_due (nw : N) (dst : key) (r : OutboundRow) : bool :=
  bool_decide (dest r = dst) && (next_attempt r <=? nw)
  && (saturating_sub nw (enqueued_at r) <=? OUTBOUND_MAX_AGE_SECS).

Definition next_due (dst : key) (s : HomeServer) : option OutboundRow :=
  List.find (row_due (now s) dst) (outbound s).

Definition remove_matching_outbound (row : OutboundRow) : home unit :=
  s ← get;
  match position (same_row row) (outbound s) with
  | Some i => modify (fun s => s <| outbound ::= delete i |>);; mark_outbound_dirty
  | None => mret tt
  end.

Definition purge_expired (dst : key) : home N :=
  s ← get;
  let kept := List.filter (fun r => negb (bool_decide (dest r = dst))
                || (saturating_sub (now s) (enqueued_at r) <=? OUTBOUND_MAX_AGE_SECS)) (outbound s) in
  let expired := lenN (outbound s) - lenN kept in
  modify (fun s => s <| outbound := kept |>);;
  when (0 <? expired) mark_outbound_dirty;;
  mret expired.

Definition backoff_row (row : OutboundRow) : home unit :=
  s ← get;
  match position (same_row row) (outbound s) with
  | Some i => modify (fun s => s <| outbound ::= alter (back_off (now s)) i |>);; mark_outbound_dirty
  | None => mret tt
  end.

(** ** The accepting side *)

Definition set_hello_done (peer : key) : home unit :=
  modify (fun s => s <| peers ::= alter (fun p => p <| hello_done := true |>) peer |>).

(** The first exchange of [handle_inbound]; the caller's key was matched with a
    pinned peer by the TLS layer. *)
Definition inbound_hello (peer : key) (hello : S2sFrame) : home S2sFrame :=
  accept_frame peer hello;;
  set_hello_done peer;;
  s ← get;
  take_frame peer (hello_payload (home_server_id s) peer).

(** One turn of the loop of [handle_inbound]: the reply to send, if any; an error
    ends the connection, after a gap also the link is reset. *)
Definition inbound_frame (peer : key) (frame : S2sFrame) : home (option S2sFrame) :=
  r ← attempt (accept_frame peer frame);
  match r with
  | Ok [] => mret None
  | Ok pl => f ← take_frame peer pl; mret (Some f)
  | Err CounterGap => reset_link peer;; throw CounterGap
  | Err e => throw e
  end.

(** ** The dialing side *)

(** [forward_row]; [reply] is the frame read after the write, [None] when either
    failed. *)
Definition forward_row (dst : key) (row : OutboundRow) (reply : option S2sFrame) : home unit :=
  take_frame dst (hpke_ciphertext (outer row));;
  reply ← lift (ok_or reply Denied);
  pl ← accept_frame dst reply;
  p ← wire (parse_payload pl);
  match p with
  | PFail => throw Denied
  | POk _ => mret tt
  | _ => if bool_decide (pl = fail_payload) then throw Denied else mret tt
  end.

(** The row loop of [dial_and_pump], one outcome of the transport per attempt;
    when they run out the connection is waiting for a reply. *)
Fixpoint dial_loop (dst : key) (replies : list (option S2sFrame)) (stats : PumpStats) : home PumpStats :=
  s ← get;
  match next_due dst s, replies with
  | None, _ | _, [] => mret stats
  | Some row, reply :: replies =>
      r ← attempt (forward_row dst row reply);
      match r with
      | Ok _ => remove_matching_outbound row;; dial_loop dst replies (stats <| delivered ::= N.succ |>)
      | Err Denied | Err PeerRefused =>
          remove_matching_outbound row;; dial_loop dst replies (stats <| failed ::= N.succ |>)
      | Err CounterGap =>
          reset_link dst;; backoff_row row;; mret (stats <| failed ::= N.succ |>)
      | Err _ => backoff_row row;; mret (stats <| failed ::= N.succ |>)
      end
  end.

(** [dial_and_pump]; [conn] is the outcome of the TLS connection. *)
Definition dial_and_pump (dst : key) (conn : sresult unit) (peer_hello : option S2sFrame)
    (replies : list (option S2sFrame)) : home PumpStats :=
  p ← get_peer dst;
  if refused p then throw PeerRefused
  else
    lift conn;;
    s ← get;
    take_frame dst (hello_payload (home_server_id s) dst);;
    hello ← lift (ok_or peer_hello Denied);
    accept_frame dst hello;;
    set_hello_done dst;;
    n ← purge_expired dst;
    dial_loop dst replies (mk_stats 0 0 0 n).

(** The locked sections of one turn of the background [pump_loop] before it
    dials: the clock and the token sweep. *)
Definition tick (unix_now : option N) : home N :=
  modify (fun s => s <| now ::= fun n => default n unix_now |>);;
  s ← get;
  if negb (token_sweep_due s) then mret 0
  else n ← sweep_dead_tokens; record_token_sweep;; mret n.
End S2s.

(** ** The queue under the dialer *)

Section Queue.
Context `{Crypto}.
Implicit Types (s : HomeServer).

Lemma position_spec {A} (f : A -> bool) l i :
  position f l = Some i -> exists x, l !! i = Some x /\ f x = true.
Proof.
  revert i; induction l as [|x l IH]; intros i; cbn; [done|]. destruct (f x) eqn:Hf.
  - intros [= <-]. eauto.
  - destruct (position f l) as [j|] eqn:Hp; cbn; [|done]. intros [= <-]. by apply IH.
Qed.

Lemma position_find {A} (f : A -> bool) l x : x ∈ l -> f x = true -> is_Some (position f l).
Proof.
  induction l as [|y l IH]; [by intros ?%elem_of_nil|]. intros [->|Hin]%elem_of_cons Hf; cbn.
  - rewrite Hf. by eexists.
  - destruct (f y); [by eexists|]. destruct (IH Hin Hf) as [i ->]. by eexists.
Qed.

Lemma same_row_refl row : same_row row row = true.
Proof. unfold same_row. by rewrite !bool_decide_eq_true_2. Qed.

Lemma same_row_dest row r : same_row row r = true -> dest r = dest row.
Proof. by intros [H1%bool_decide_eq_true _]%andb_true_iff. Qed.

Lemma next_due_spec dst s row :
  next_due dst s = Some row -> row ∈ outbound s /\ row_due (now s) dst row = true /\ dest row = dst.
Proof.
  intros [Hin Hd]%find_some. split_and!; [by apply list_elem_of_In | done |].
  by apply andb_true_iff in Hd as [[H1%bool_decide_eq_true _]%andb_true_iff _].
Qed.

(** The rows for other destinations. *)
Definition others (dst : key) (l : list OutboundRow) : list OutboundRow :=
  List.filter (fun r => negb (bool_decide (dest r = dst))) l.

Lemma others_delete dst l i r : l !! i = Some r -> dest r = dst -> others dst (delete i l) = others dst l.
Proof.
  unfold others. revert i; induction l as [|x l IH]; intros [|i]; cbn; try done.
  - intros [= ->] ->. by rewrite bool_decide_eq_true_2.
  - intros Hi Hd. pose proof (IH i Hi Hd) as E. destruct (negb (bool_decide (dest x = dst))); [f_equal|]; exact E.
Qed.

Lemma others_alter dst l i r nw : l !! i = Some r -> dest r = dst -> others dst (alter (back_off nw) i l) = others dst l.
Proof.
  unfold others. revert i; induction l as [|x l IH]; intros [|i]; cbn; try done.
  - intros [= ->] ->. by rewrite bool_decide_eq_true_2.
  - intros Hi Hd. pose proof (IH i Hi Hd) as E. destruct (negb (bool_decide (dest x = dst))); [f_equal|]; exact E.
Qed.

Lemma forward_row_outbound dst row reply s : outbound (forward_row dst row reply s).1 = outbound s.
Proof.
  enough (forall Q, preserves (fun s => outbound s = Q) (forward_row dst row reply)) as Hp by (by apply (Hp (outbound s))).
  intros Q. unfold forward_row, wire.
  walk ltac:(first [ intros s0 Hs0; unfold post; by rewrite take_frame_outbound
                   | intros s0 Hs0; unfold post; by rewrite accept_frame_outbound ]).
Qed.

(** Removing the row that was attempted takes exactly one row of its
    destination out of the queue. *)
Lemma remove_matching_spec dst row s :
  row ∈ outbound s -> dest row = dst ->
  post (remove_matching_outbound row) s (fun r s1 => r = Ok tt
    /\ S (length (outbound s1)) = length (outbound s)
    /\ others dst (outbound s1) = others dst (outbound s) /\ now s1 = now s).
Proof.
  intros Hin Hd. unfold remove_matching_outbound, mark_outbound_dirty, journal. wp.
  destruct (position_find (same_row row) _ _ Hin (same_row_refl row)) as [i Hi]. rewrite Hi. wp.
  destruct (position_spec _ _ _ Hi) as (r & Hr & Hs%same_row_dest). cbn.
  split_and!; [done | | apply (others_delete _ _ _ r); [done | congruence] | done].
  pose proof (lookup_lt_Some _ _ _ Hr). rewrite length_delete by (by exists r). lia.
Qed.

Lemma backoff_row_spec dst row s :
  dest row = dst ->
  post (backoff_row row) s (fun r s1 => r = Ok tt /\ length (outbound s1) = length (outbound s)
    /\ others dst (outbound s1) = others dst (outbound s)).
Proof.
  intros Hd. unfold backoff_row, mark_outbound_dirty, journal. wp.
  destruct (position (same_row row) (outbound s)) as [i|] eqn:Hi; wp; [|done].
  destruct (position_spec _ _ _ Hi) as (r & Hr & Hs%same_row_dest). cbn.
  split_and!; [done | by rewrite length_alter | apply (others_alter _ _ _ r); [done | congruence]].
Qed.

(** What the loop leaves behind: it stopped because nothing is due any more, or
    it broke off with the last row kept for a later attempt; either way every
    attempt is counted and other destinations are untouched. *)
Definition dialed (dst : key) (s : HomeServer) (stats : PumpStats) (r : sresult PumpStats) (s1 : HomeServer) : Prop :=
  exists st, r = Ok st /\ others dst (outbound s1) = others dst (outbound s)
    /\ ((next_due dst s1 = None
         /\ lenN (outbound s) + delivered stats + failed stats = lenN (outbound s1) + delivered st + failed st)
        \/ lenN (outbound s) + delivered stats + failed stats + 1 = lenN (outbound s1) + delivered st + failed st).

Lemma next_due_nil dst s : outbound s = [] -> next_due dst s = None.
Proof. intros Ho. unfold next_due. by rewrite Ho. Qed.

Lemma dial_loop_spec dst replies s stats :
  (length (outbound s) <= length replies)%nat ->
  post (dial_loop dst replies stats) s (dialed dst s stats).
Proof.
  revert s stats; induction replies as [|reply replies IH]; intros s stats Hlen.
  { assert (next_due dst s = None) as Hn by (apply next_due_nil, length_zero_iff_nil; cbn in Hlen; lia).
    cbn [dial_loop]. wp. rewrite Hn. wp. exists stats. split_and!; [done | done |]. left. split; [done | lia]. }
  cbn [dial_loop]. wp. destruct (next_due dst s) as [row|] eqn:Hd.
  2:{ wp. exists stats. split_and!; [done | done |]. left. split; [done | lia]. }
  destruct (next_due_spec _ _ _ Hd) as (Hin & _ & Hdst). wp. rewrite post_attempt.
  assert (Hremove : forall s0 st, outbound s0 = outbound s ->
      delivered st + failed st = delivered stats + failed stats + 1 ->
      post (remove_matching_outbound row;; dial_loop dst replies st) s0 (dialed dst s stats)).
  { intros s0 st Hs0 Hst. wp. eapply post_conseq; [apply (remove_matching_spec dst); [by rewrite Hs0 | done]|].
    intros r s1 (-> & Hl & Hoth & _). rewrite Hs0 in Hl, Hoth. cbn in Hlen.
    eapply post_conseq; [apply IH; lia|]. intros r s2 (st2 & -> & Ho2 & Hc). exists st2.
    split_and!; [done | congruence |]. unfold lenN in *. destruct Hc as [[Hnd Hc]|Hc]; [left; split; [done|] | right]; lia. }
  assert (Hback : forall s0 st, outbound s0 = outbound s ->
      delivered st + failed st = delivered stats + failed stats + 1 ->
      post (backoff_row row;; mret st) s0 (dialed dst s stats)).
  { intros s0 st Hs0 Hst. wp. eapply post_conseq; [by apply (backoff_row_spec dst)|].
    intros r s1 (-> & Hl & Hoth). rewrite Hs0 in Hl, Hoth. wp. exists st. split_and!; [done | done |].
    right. unfold lenN in *. lia. }
  unfold post at 1. pose proof (forward_row_outbound dst row reply s) as Hf.
  destruct (forward_row dst row reply s) as [s0 r]. cbn [fst snd] in *.
  destruct r as [[]|[]]; first [apply Hremove; [done | cbn; lia] | apply Hback; [done | cbn; lia] | idtac].
  rewrite post_bind. eapply post_conseq; [apply reset_link_spec|]. intros r s1 [-> Hs1].
  apply Hback; [congruence | cbn; lia].
Qed.
End Queue.

(** ** Properties *)

(** Frames survive the byte stream: what one side writes the other reads back,
    leaving the bytes of the following frames. *)
Lemma s2s_stream_roundtrip f l rest :
  write_frame f = Some l -> counter f <= U64_MAX -> lenN (payload f) <= MAX_FRAME ->
  read_frame (l ++ rest) = Some (f, rest).
Proof.
  unfold write_frame, frame_encode, u32_try_from. intros Hw Hc Hn.
  destruct (N.leb_spec (lenN (payload f)) U32_MAX); [|done]. cbv [ok ok_or mbind result_bind] in Hw.
  assert (l = be_bytes 8 (counter f) ++ be_bytes 4 (lenN (payload f)) ++ payload f) as -> by congruence. clear Hw.
  assert (H8 : lenN (be_bytes 8 (counter f)) = 8) by apply lenN_be_bytes.
  assert (H4 : lenN (be_bytes 4 (lenN (payload f))) = 4) by apply lenN_be_bytes.
  unfold read_frame. rewrite <- !app_assoc.
  destruct (N.ltb_spec (lenN (be_bytes 8 (counter f) ++ be_bytes 4 (lenN (payload f)) ++ payload f ++ rest)) 12);
    [len_lia|].
  rewrite (dropN_app_exact 8), (takeN_app_exact 4), (takeN_app_exact 8) by done.
  rewrite !from_be_bytes; [| unfold U64_MAX in *; lia | unfold U32_MAX in *; lia].
  destruct (N.ltb_spec MAX_FRAME (lenN (payload f))); [lia|].
  change 12 with (8 + 4). rewrite <- dropN_dropN, (dropN_app_exact 8), (dropN_app_exact 4) by done.
  destruct (N.ltb_spec (lenN (payload f ++ rest)) (lenN (payload f))); [len_lia|].
  rewrite takeN_app_exact, dropN_app_exact by done. by destruct f.
Qed.

(** Dialing drains one destination: given an outcome for every attempt, the
    row loop of [dial_and_pump] ends with statistics that count every attempt;
    either nothing is due for the destination any more, or the loop broke off
    after a failure that keeps its row; rows for other destinations are untouched
    and stay in order. *)
Theorem dialing_drains_destination `{Crypto} dst replies s stats :
  (length (outbound s) <= length replies)%nat ->
  post (dial_loop dst replies stats) s (dialed dst s stats).
Proof. apply dial_loop_spec. Qed.

(** A broken connection loses the message in flight: when the write or the
    read of the reply fails, [forward_row] reports [Denied], the same as a refusal
    by the peer, and the row is removed from the queue instead of being retried. *)
Theorem disconnect_loses_row `{Crypto} dst s row p stats :
  next_due dst s = Some row -> peers s !! dst = Some p -> refused p = false ->
  exists s1 i r, dial_loop dst [None] stats s = (s1, Ok (stats <| failed ::= N.succ |>))
    /\ outbound s !! i = Some r /\ same_row row r = true /\ outbound s1 = delete i (outbound s).
Proof.
  intros Hd Hp Hr. destruct (next_due_spec _ _ _ Hd) as (Hin & _ & Hdst).
  destruct (position_find (same_row row) _ _ Hin (same_row_refl row)) as [i Hi].
  destruct (position_spec _ _ _ Hi) as (r & Hri & Hsame).
  assert (post (dial_loop dst [None] stats) s (fun res s1 =>
    res = Ok (stats <| failed ::= N.succ |>) /\ outbound s1 = delete i (outbound s))) as Hpost.
  2:{ exists (dial_loop dst [None] stats s).1, i, r. destruct Hpost as [Hres Ho]. rewrite <- Hres.
      split; [apply surjective_pairing | done]. }
  cbn [dial_loop]. wp. rewrite Hd. wp. rewrite post_attempt. unfold forward_row. wp.
  eapply post_conseq; [by apply (take_frame_spec dst _ s p)|].
  intros res s1 (-> & (P & D & ->) & _). wp. cbn [ok_or]. wp.
  unfold remove_matching_outbound, mark_outbound_dirty, journal. wp. cbn [outbound upd outbound_field peers_field dirty_field].
  match goal with |- context [position _ ?l] => change l with (outbound s) end. rewrite Hi. wp.
  match goal with |- context [next_due dst ?x] => destruct (next_due dst x) end; wp; done.
Qed.

(** ** Witnesses *)

Section Witness.
#[local] Existing Instances Toy.toy Toy.toy_laws.

Lemma sample_next_due : next_due (home_server_id sample_home) (sample_src 1 2) = Some sample_row.
Proof.
  assert (row_due 1700000000 (home_server_id sample_home) sample_row = true) as Hd by (vm_compute; reflexivity).
  unfold next_due. change (outbound (sample_src 1 2)) with [sample_row].
  change (now (sample_src 1 2)) with 1700000000. cbn [List.find]. rewrite Hd. reflexivity.
Qed.

Example dialing_drains_destination_witness :
  exists st, (dial_loop (home_server_id sample_home) [None] (mk_stats 0 0 0 0) (sample_src 1 2)).2 = Ok st.
Proof.
  destruct (dialing_drains_destination (home_server_id sample_home) [None] (sample_src 1 2) (mk_stats 0 0 0 0))
    as (st & Hst & _); [cbn; lia|]. exists st. exact Hst.
Defined.

Example disconnect_loses_row_witness :
  exists s1, dial_loop (home_server_id sample_home) [None] (mk_stats 0 0 0 0) (sample_src 1 2) = (s1, Ok (mk_stats 0 1 0 0))
    /\ length (outbound s1) = O.
Proof.
  destruct (disconnect_loses_row (home_server_id sample_home) (sample_src 1 2) sample_row (sample_peer 1 2)
    (mk_stats 0 0 0 0) sample_next_due) as (s1 & i & r & H1 & H2 & _ & H3).
  - apply lookup_singleton_eq.
  - reflexivity.
  - exists s1. split; [exact H1|]. rewrite H3. change (outbound (sample_src 1 2)) with [sample_row] in *.
    destruct i as [|i]; [reflexivity | destruct i; discriminate H2].
Defined.
End Witness.
