(* ===== verification/Group.v ===== *)
(** * The group stream host

    [nemo-server/src/group.rs]: groups with member credentials, the signed
    join flow, the sequenced stream and its fan-out, and the file slots. The
    random values a method draws are arguments; [dummy_scan], which does
    nothing, has no counterpart. *)

From S2P Require Export HomeState.

Definition STREAM_MAX_BYTES : N := 2 * 1024 * 1024 * 1024.
Definition FILE_BUDGET_BYTES : N := 4 * 1024 * 1024 * 1024.
Definition STREAM_MAX_AGE_SECS : N := 30 * 24 * 3600.
Definition GROUPS_PER_OWNER : N := 64.

Record FanoutTarget : Type := mk_fanout { target_capability : key; home_hpke_public : key }.

Record MemberCred : Type := mk_cred { credential_id : key; credential_secret : key }.

Record CreatedGroup : Type := mk_created { created_group_id : GroupId; created_cred : MemberCred }.

Record PendingJoin : Type := mk_pending_join {
  join_pending_id : key;
  join_cred : MemberCred;
  join_invitee_binding : option key;
  join_salt : option key
}.

Record PendingLookup : Type := mk_lookup {
  lookup_credential_id : key;
  lookup_invitee_binding : option key;
  lookup_salt : option key
}.

Record StreamAppend : Type := mk_append { append_seq : N; outers : list OuterEnvelope }.

Record CredRecord : Type := mk_cred_record {
  secret : key;
  cred_live : bool;
  cred_signing_pk : option key;
  cred_fanout : option FanoutTarget
}.

Record StoredInvite : Type := mk_stored_invite {
  si_expires_at : N;
  si_invitee_binding : option key;
  si_salt : option key
}.

Record PendingRecord : Type := mk_pending {
  pending_cred : MemberCred;
  pending_expires_at : N;
  pending_invitee_binding : option key;
  pending_salt : option key
}.

Record FileSlot : Type := mk_slot {
  slot_group_id : GroupId;
  slot_owner : key;
  slot_size : N;
  slot_expires_at : N;
  slot_bytes : option bytes
}.

Record StreamRow : Type := mk_stream_row {
  sr_seq : N;
  sr_type : MessageType;
  sr_body : bytes;
  sr_received_at : N
}.

Record GroupState : Type := mk_group {
  g_next_seq : N;
  g_creds : gmap key CredRecord;
  g_invites : gmap key StoredInvite;
  g_pending : gmap key PendingRecord;
  g_bytes : N;
  g_stream : list StreamRow;
  g_creator : option key
}.

Record GroupDirty : Type := mk_gdirty {
  gd_groups : gset GroupId;
  gd_creds : gset (GroupId * key);
  gd_invites : gset GroupId;
  gd_pending : gset GroupId;
  gd_stream_new : list (GroupId * N);
  gd_files : gset key
}.

Record GroupHost : Type := mk_host {
  gh_now : N;
  groups : gmap GroupId GroupState;
  files : gmap key FileSlot;
  file_budget : N;
  gdirty : GroupDirty
}.

(** ** Field updates *)

Definition eta_cred (c : CredRecord) : CredRecord :=
  mk_cred_record (secret c) (cred_live c) (cred_signing_pk c) (cred_fanout c).
#[global] Instance cred_live_field : Field cred_live := ltac:(derive_field eta_cred cred_live).
#[global] Instance cred_signing_pk_field : Field cred_signing_pk := ltac:(derive_field eta_cred cred_signing_pk).
#[global] Instance cred_fanout_field : Field cred_fanout := ltac:(derive_field eta_cred cred_fanout).

Definition eta_slot (f : FileSlot) : FileSlot :=
  mk_slot (slot_group_id f) (slot_owner f) (slot_size f) (slot_expires_at f) (slot_bytes f).
#[global] Instance slot_bytes_field : Field slot_bytes := ltac:(derive_field eta_slot slot_bytes).

Definition eta_group (g : GroupState) : GroupState :=
  mk_group (g_next_seq g) (g_creds g) (g_invites g) (g_pending g) (g_bytes g) (g_stream g) (g_creator g).
#[global] Instance g_next_seq_field : Field g_next_seq := ltac:(derive_field eta_group g_next_seq).
#[global] Instance g_creds_field : Field g_creds := ltac:(derive_field eta_group g_creds).
#[global] Instance g_invites_field : Field g_invites := ltac:(derive_field eta_group g_invites).
#[global] Instance g_pending_field : Field g_pending := ltac:(derive_field eta_group g_pending).
#[global] Instance g_bytes_field : Field g_bytes := ltac:(derive_field eta_group g_bytes).
#[global] Instance g_stream_field : Field g_stream := ltac:(derive_field eta_group g_stream).

Definition eta_gdirty (d : GroupDirty) : GroupDirty :=
  mk_gdirty (gd_groups d) (gd_creds d) (gd_invites d) (gd_pending d) (gd_stream_new d) (gd_files d).
#[global] Instance gd_groups_field : Field gd_groups := ltac:(derive_field eta_gdirty gd_groups).
#[global] Instance gd_creds_field : Field gd_creds := ltac:(derive_field eta_gdirty gd_creds).
#[global] Instance gd_invites_field : Field gd_invites := ltac:(derive_field eta_gdirty gd_invites).
#[global] Instance gd_pending_field : Field gd_pending := ltac:(derive_field eta_gdirty gd_pending).
#[global] Instance gd_stream_new_field : Field gd_stream_new := ltac:(derive_field eta_gdirty gd_stream_new).
#[global] Instance gd_files_field : Field gd_files := ltac:(derive_field eta_gdirty gd_files).

Definition eta_host (h : GroupHost) : GroupHost :=
  mk_host (gh_now h) (groups h) (files h) (file_budget h) (gdirty h).
#[global] Instance gh_now_field : Field gh_now := ltac:(derive_field eta_host gh_now).
#[global] Instance groups_field : Field groups := ltac:(derive_field eta_host groups).
#[global] Instance files_field : Field files := ltac:(derive_field eta_host files).
#[global] Instance gdirty_field : Field gdirty := ltac:(derive_field eta_host gdirty).

(** ** The journal *)

Definition clean_gdirty : GroupDirty := mk_gdirty ∅ ∅ ∅ ∅ [] ∅.

(** [GroupDirty::is_clean]. *)
Definition g_is_clean (d : GroupDirty) : bool :=
  bool_decide (gd_groups d = ∅) && bool_decide (gd_creds d = ∅) && bool_decide (gd_invites d = ∅)
  && bool_decide (gd_pending d = ∅) && bool_decide (gd_stream_new d = []) && bool_decide (gd_files d = ∅).

(** [GroupDirty::absorb]. *)
Definition g_absorb (self other : GroupDirty) : GroupDirty :=
  mk_gdirty (gd_groups self ∪ gd_groups other) (gd_creds self ∪ gd_creds other)
    (gd_invites self ∪ gd_invites other) (gd_pending self ∪ gd_pending other)
    (gd_stream_new self ++ gd_stream_new other) (gd_files self ∪ gd_files other).

(** [GroupHost::new]. *)
Definition host_new : GroupHost := mk_host 1700000000 ∅ ∅ FILE_BUDGET_BYTES clean_gdirty.

(** ** Methods *)

Section Methods.
Context `{Crypto}.

Notation group_host := (stM GroupHost ServerError).

Definition g_wire {A} (m : wresult A) : group_host A := lift (map_err Wire m).
Definition g_deny {E A} (m : result E A) : group_host A := lift (map_err (fun _ => Denied) m).
Definition g_journal (f : GroupDirty -> GroupDirty) : group_host unit :=
  modify (fun s => s <| gdirty ::= f |>).

Definition hash_secret (secret : key) : key := sha256 (to_vec secret).

(** [self.groups.get(..)] and [get_mut(..)] with [ok_or(Denied)]. *)
Definition get_group (gid : GroupId) : group_host GroupState :=
  s ← get; lift (ok_or (groups s !! gid) Denied).

Definition put_group (gid : GroupId) (g : GroupState) : group_host unit :=
  modify (fun s => s <| groups ::= <[gid := g]> |>).

Definition authorize_live (gid : GroupId) (cred : MemberCred) : group_host unit :=
  s ← get;
  match groups s !! gid with
  | None => throw Denied
  | Some g =>
      match g_creds g !! credential_id cred with
      | Some rec =>
          if cred_live rec && bool_decide (secret rec = hash_secret (credential_secret cred))
          then mret tt else throw Denied
      | None => throw Denied
      end
  end.

Definition signing_pk (s : GroupHost) (gid : GroupId) (cid : key) : option key :=
  g ← groups s !! gid; rec ← g_creds g !! cid; cred_signing_pk rec.

(** The verifying key of a member: [signing_pk(..).ok_or(Denied)?] and
    [from_bytes(..).map_err(Denied)?]. *)
Definition member_vk (gid : GroupId) (cid : key) : group_host VerifyingKey :=
  s ← get;
  pk ← lift (ok_or (signing_pk s gid cid) Denied);
  lift (ok_or (vk_from_bytes pk) Denied).

(** The random values of [create_group_for]: group id, secret, credential id. *)
Definition create_group_for (pk : key) (fanout : FanoutTarget) (creator : option key)
    (rnd_gid rnd_secret rnd_cid : key) : group_host CreatedGroup :=
  s ← get;
  if match creator with
     | Some owner =>
         GROUPS_PER_OWNER <=? lenN (List.filter (fun kg => bool_decide (g_creator kg.2 = Some owner))
                                      (map_to_list (groups s)))
     | None => false
     end
  then throw Denied
  else
    let gid := mk_group_id rnd_gid in
    let creds := {[ rnd_cid := mk_cred_record (hash_secret rnd_secret) true (Some pk) (Some fanout) ]} in
    put_group gid (mk_group 1 creds ∅ ∅ 0 [] creator);;
    g_journal (fun d => d <| gd_groups ::= union {[gid]} |> <| gd_creds ::= union {[(gid, rnd_cid)]} |>);;
    mret (mk_created gid (mk_cred rnd_cid rnd_secret)).

Definition create_group (pk : key) (fanout : FanoutTarget) (rnd_gid rnd_secret rnd_cid : key)
    : group_host CreatedGroup :=
  create_group_for pk fanout None rnd_gid rnd_secret rnd_cid.

Definition store_invite (gid : GroupId) (cred : MemberCred) (invite : GroupInvite) : group_host unit :=
  authorize_live gid cred;;
  if negb (bool_decide (invite_group_id invite = group_key gid)) then throw Denied
  else
    vk ← member_vk gid (credential_id cred);
    g_deny (invite_verify invite vk);;
    g ← get_group gid;
    s ← get;
    put_group gid (g <| g_invites ::= <[invite_nonce invite :=
      mk_stored_invite (saturating_add (gh_now s) (invite_ttl_secs invite))
        (invite_binding invite) (invite_salt invite)]> |>);;
    g_journal (fun d => d <| gd_invites ::= union {[gid]} |>).

(** The invite is consumed before its expiry is checked. *)
Definition accept (gid : GroupId) (nonce rnd_secret rnd_cid rnd_pending : key) : group_host PendingJoin :=
  g ← get_group gid;
  stored ← lift (ok_or (g_invites g !! nonce) Denied);
  let g := g <| g_invites ::= delete nonce |> in
  put_group gid g;;
  s ← get;
  if si_expires_at stored <=? gh_now s then throw Denied
  else
    let rec := mk_cred_record (hash_secret rnd_secret) false None None in
    let pend := mk_pending (mk_cred rnd_cid (hash_secret rnd_secret)) (si_expires_at stored)
                  (si_invitee_binding stored) (si_salt stored) in
    put_group gid (g <| g_creds ::= <[rnd_cid := rec]> |> <| g_pending ::= <[rnd_pending := pend]> |>);;
    g_journal (fun d => d <| gd_invites ::= union {[gid]} |> <| gd_pending ::= union {[gid]} |>
                          <| gd_creds ::= union {[(gid, rnd_cid)]} |>);;
    mret (mk_pending_join rnd_pending (mk_cred rnd_cid rnd_secret)
            (si_invitee_binding stored) (si_salt stored)).

Definition lookup_pending (gid : GroupId) (cred : MemberCred) (pending_id : key)
    : group_host PendingLookup :=
  authorize_live gid cred;;
  g ← get_group gid;
  p ← lift (ok_or (g_pending g !! pending_id) Denied);
  s ← get;
  if pending_expires_at p <=? gh_now s then throw Denied
  else mret (mk_lookup (credential_id (pending_cred p)) (pending_invitee_binding p) (pending_salt p)).

Definition gc_pending (gid : GroupId) : group_host unit :=
  modify (fun s => s <| groups ::= alter (fun g =>
    g <| g_pending ::= filter (fun kv => gh_now s < pending_expires_at kv.2) |>
      <| g_invites ::= filter (fun kv => gh_now s < si_expires_at kv.2) |>) gid |>).

Definition host_admit (gid : GroupId) (admitter : MemberCred) (adm : GroupAdmit) (joiner_pk : key)
    (fanout : FanoutTarget) : group_host key :=
  authorize_live gid admitter;;
  if negb (bool_decide (admit_group_id adm = group_key gid)) then throw Denied
  else
    vk ← member_vk gid (credential_id admitter);
    g_deny (admit_verify adm vk);;
    gc_pending gid;;
    g_journal (fun d => d <| gd_invites ::= union {[gid]} |> <| gd_pending ::= union {[gid]} |>);;
    g ← get_group gid;
    reserved ← lift (ok_or (g_pending g !! admit_pending_id adm) Denied);
    let g := g <| g_pending ::= delete (admit_pending_id adm) |> in
    put_group gid g;;
    s ← get;
    if pending_expires_at reserved <=? gh_now s then throw Denied
    else
      let cid := credential_id (pending_cred reserved) in
      rec ← lift (ok_or (g_creds g !! cid) Denied);
      put_group gid (g <| g_creds ::= <[cid := rec <| cred_live := true |>
        <| cred_signing_pk := Some joiner_pk |> <| cred_fanout := Some fanout |>]> |>);;
      g_journal (fun d => d <| gd_creds ::= union {[(gid, cid)]} |>);;
      mret cid.

(** *** The stream *)

(** The members that receive a copy: [values()] of the credential map. *)
Definition fanout_targets (g : GroupState) : list FanoutTarget :=
  omap (fun kv => if cred_live kv.2 then cred_fanout kv.2 else None) (map_to_list (g_creds g)).

(** The sealing loop; [rnd i] is the idempotency token and the encapsulation
    randomness of the [i]-th copy. *)
Fixpoint seal_copies (rnd : nat -> key * key) (i : nat) (t : MessageType) (b : bytes)
    (targets : list FanoutTarget) : wresult (list OuterEnvelope) :=
  match targets with
  | [] => Ok []
  | f :: targets =>
      m ← pad t b;
      o ← Hpke.seal_to_server (home_hpke_public f)
            (mk_inner (target_capability f) TTL_DEFAULT (rnd i).1 m) (rnd i).2;
      os ← seal_copies rnd (S i) t b targets;
      Ok (o :: os)
  end.

Definition fanout_copy (rnd : nat -> key * key) (gid : GroupId) (t : MessageType) (b : bytes)
    : group_host StreamAppend :=
  g ← get_group gid;
  s ← get;
  let add := lenN b in
  if STREAM_MAX_BYTES <? saturating_add (g_bytes g) add then throw Denied
  else
    let sq := g_next_seq g in
    let g := g <| g_next_seq ::= fun n => u64_add n 1 |>
               <| g_bytes ::= fun n => saturating_add n add |>
               <| g_stream ::= fun l => l ++ [mk_stream_row sq t b (gh_now s)] |> in
    put_group gid g;;
    g_journal (fun d => d <| gd_groups ::= union {[gid]} |>
                          <| gd_stream_new ::= fun l => l ++ [(gid, sq)] |>);;
    os ← g_wire (seal_copies rnd 0 t b (fanout_targets g));
    mret (mk_append sq os).

(** A write to one credential record of a group. *)
Definition alter_cred (gid : GroupId) (cid : key) (f : CredRecord -> CredRecord) : group_host unit :=
  modify (fun s => s <| groups ::= alter (fun g => g <| g_creds ::= alter f cid |>) gid |>);;
  g_journal (fun d => d <| gd_creds ::= union {[(gid, cid)]} |>).

Definition append_host_revocation (rnd : nat -> key * key) (gid : GroupId) (stmt : RevocationStatement)
    : group_host StreamAppend :=
  s ← get;
  if bool_decide (groups s !! gid = None) then throw Denied
  else fanout_copy rnd gid RevocationStatementType (revocation_encode stmt).

Definition refresh_fanout (gid : GroupId) (cred : MemberCred) (fanout : FanoutTarget) : group_host unit :=
  authorize_live gid cred;;
  get_group gid;;
  alter_cred gid (credential_id cred) (fun rec => rec <| cred_fanout := Some fanout |>).

Definition append_remove (rnd : nat -> key * key) (gid : GroupId) (cred : MemberCred) (b : bytes)
    : group_host StreamAppend :=
  bundle ← g_wire (remove_decode b);
  pk ← member_vk gid (credential_id cred);
  g_wire (verify_sidecar bundle pk (group_key gid));;
  out ← fanout_copy rnd gid RemoveBundleType b;
  alter_cred gid (remove_credential_id bundle)
    (fun rec => rec <| cred_live := false |> <| cred_fanout := None |>);;
  mret out.

Definition apply_signing_replace (gid : GroupId) (cred : MemberCred) (b : bytes) : group_host unit :=
  replace ← g_wire (replace_decode b);
  pk ← member_vk gid (credential_id cred);
  g_wire (replace_verify replace pk);;
  alter_cred gid (credential_id cred)
    (fun rec => rec <| cred_signing_pk := Some (replace_new_public_key replace) |>).

Definition live_file_bytes (s : GroupHost) (gid : GroupId) : N :=
  foldr u64_add 0 (map (fun kv => slot_size kv.2)
    (List.filter (fun kv => bool_decide (slot_group_id kv.2 = gid) && (gh_now s <? slot_expires_at kv.2))
       (map_to_list (files s)))).

Definition append_reserve (rnd : nat -> key * key) (gid : GroupId) (cred : MemberCred) (b : bytes)
    : group_host StreamAppend :=
  reserve ← g_wire (reserve_decode b);
  s ← get;
  let token := reserve_fetch_token reserve in
  if bool_decide (is_Some (files s !! token)) then throw Denied
  else
    let size := size_inner_len (reserve_size_bucket reserve) in
    if file_budget s <? saturating_add (live_file_bytes s gid) size then throw Denied
    else
      let expires := match ttl_secs (reserve_ttl_bucket reserve) with
                     | Some t => saturating_add (gh_now s) t
                     | None => saturating_add (gh_now s) STREAM_MAX_AGE_SECS
                     end in
      out ← fanout_copy rnd gid AttachmentReserveType b;
      modify (fun s => s <| files ::= <[token := mk_slot gid (credential_id cred) size expires None]> |>);;
      g_journal (fun d => d <| gd_files ::= union {[token]} |>);;
      mret out.

(** [GroupHost::append]. *)
Definition append (rnd : nat -> key * key) (gid : GroupId) (cred : MemberCred) (t : MessageType) (b : bytes)
    : group_host StreamAppend :=
  authorize_live gid cred;;
  match t with
  | RemoveBundleType => append_remove rnd gid cred b
  | SigningKeyReplaceType => apply_signing_replace gid cred b;; fanout_copy rnd gid t b
  | MlsHandshake | MlsApp | RevocationStatementType => fanout_copy rnd gid t b
  | AttachmentReserveType => append_reserve rnd gid cred b
  | _ => throw Denied
  end.

(** *** Files *)

Definition upload_file (gid : GroupId) (cred : MemberCred) (token : key) (b : bytes) : group_host unit :=
  authorize_live gid cred;;
  s ← get;
  slot ← lift (ok_or (files s !! token) Denied);
  if negb (bool_decide (slot_group_id slot = gid)) || negb (bool_decide (slot_owner slot = credential_id cred))
     || (slot_expires_at slot <=? gh_now s) then throw Denied
  else if bool_decide (is_Some (slot_bytes slot)) || negb (lenN b =? slot_size slot) then throw Denied
  else
    modify (fun s => s <| files ::= <[token := slot <| slot_bytes := Some b |>]> |>);;
    g_journal (fun d => d <| gd_files ::= union {[token]} |>).

Definition fetch_file (gid : GroupId) (cred : MemberCred) (token : key) : group_host bytes :=
  authorize_live gid cred;;
  s ← get;
  match files s !! token with
  | Some slot =>
      match slot_bytes slot with
      | Some b => if bool_decide (slot_group_id slot = gid) && (gh_now s <? slot_expires_at slot)
                  then mret b else throw Denied
      | None => throw Denied
      end
  | None => throw Denied
  end.
End Methods.

Notation group_host := (stM GroupHost ServerError).
