(* ===== verification/GroupStep.v ===== *)
(** * Membership as a state machine

    What may happen to one group: the steps of its membership, its join flow
    and its stream, each with the guard that protects it. Every method of the
    group host refines these steps; the invariants of the host are proved by
    induction on them. *)

From S2P Require Export Group.

Definition live (g : GroupState) (cid : key) : Prop :=
  exists rec, g_creds g !! cid = Some rec /\ cred_live rec = true.

(** The group after one more stream row. *)
Definition with_row (t : MessageType) (b : bytes) (nw : N) (g : GroupState) : GroupState :=
  g <| g_next_seq ::= fun n => u64_add n 1 |>
    <| g_bytes ::= fun n => saturating_add n (lenN b) |>
    <| g_stream ::= fun l => l ++ [mk_stream_row (g_next_seq g) t b nw] |>.

Inductive glabel : Type := LTau | LRow | LDraw (cid : key).

Inductive gstep (nw : N) : glabel -> GroupState -> GroupState -> Prop :=
| gs_invite g m nonce inv :
    live g m -> gstep nw LTau g (g <| g_invites ::= <[nonce := inv]> |>)
| gs_consume g nonce :
    gstep nw LTau g (g <| g_invites ::= delete nonce |>)
| gs_accept g nonce st cid hs pid :
    g_invites g !! nonce = Some st -> nw < si_expires_at st ->
    gstep nw (LDraw cid) g
      (g <| g_invites ::= delete nonce |>
         <| g_creds ::= <[cid := mk_cred_record hs false None None]> |>
         <| g_pending ::= <[pid := mk_pending (mk_cred cid hs) (si_expires_at st)
                                     (si_invitee_binding st) (si_salt st)]> |>)
| gs_expire g :
    gstep nw LTau g
      (g <| g_pending ::= filter (fun kv => nw < pending_expires_at kv.2) |>
         <| g_invites ::= filter (fun kv => nw < si_expires_at kv.2) |>)
| gs_drop g pid :
    gstep nw LTau g (g <| g_pending ::= delete pid |>)
| gs_admit g m pid p rec pk f :
    live g m -> g_pending g !! pid = Some p -> nw < pending_expires_at p ->
    g_creds g !! credential_id (pending_cred p) = Some rec ->
    gstep nw LTau g
      (g <| g_pending ::= delete pid |>
         <| g_creds ::= <[credential_id (pending_cred p) := rec <| cred_live := true |>
              <| cred_signing_pk := Some pk |> <| cred_fanout := Some f |>]> |>)
| gs_refresh g m f :
    live g m ->
    gstep nw LTau g (g <| g_creds ::= alter (fun rec => rec <| cred_fanout := Some f |>) m |>)
| gs_rekey g m pk :
    live g m ->
    gstep nw LTau g (g <| g_creds ::= alter (fun rec => rec <| cred_signing_pk := Some pk |>) m |>)
| gs_row g t b :
    saturating_add (g_bytes g) (lenN b) <= STREAM_MAX_BYTES -> gstep nw LRow g (with_row t b nw g)
| gs_remove g m cid :
    live g m ->
    gstep nw LTau g (g <| g_creds ::=
      alter (fun rec => rec <| cred_live := false |> <| cred_fanout := None |>) cid |>).

Inductive gtrace (nw : N) : list glabel -> GroupState -> GroupState -> Prop :=
| gt_nil g : gtrace nw [] g g
| gt_cons l ls g g1 g2 : gstep nw l g g1 -> gtrace nw ls g1 g2 -> gtrace nw (l :: ls) g g2.

#[export] Hint Constructors gstep gtrace : group.

(** Rows appended and credentials drawn along a trace. *)
Definition trace_rows (ls : list glabel) : N :=
  lenN (List.filter (fun l => match l with LRow => true | _ => false end) ls).
Definition trace_draws (ls : list glabel) : list key :=
  omap (fun l => match l with LDraw cid => Some cid | _ => None end) ls.

(** A group as [create_group_for] makes it. *)
Definition born (ds : list key) (g : GroupState) : Prop :=
  exists cid hs pk f creator, cid ∈ ds
    /\ g = mk_group 1 {[ cid := mk_cred_record hs true (Some pk) (Some f) ]} ∅ ∅ 0 [] creator.

(** The host's groups evolve by steps: at most [n] rows, credentials from [ds]. *)
Definition group_evolves (nw : N) (ds : list key) (n : N) (o o1 : option GroupState) : Prop :=
  match o, o1 with
  | Some g, Some g1 =>
      (exists ls, gtrace nw ls g g1 /\ trace_rows ls <= n /\ sublist (trace_draws ls) ds) \/ born ds g1
  | None, Some g1 => born ds g1
  | Some _, None => False
  | None, None => True
  end.

Definition evolves (ds : list key) (n : N) (s s1 : GroupHost) : Prop :=
  forall gid, group_evolves (gh_now s) ds n (groups s !! gid) (groups s1 !! gid).

Lemma gtrace_app nw ls1 ls2 g g1 g2 :
  gtrace nw ls1 g g1 -> gtrace nw ls2 g1 g2 -> gtrace nw (ls1 ++ ls2) g g2.
Proof. induction 1; cbn; eauto with group. Qed.

Lemma evolves_refl ds n s s1 : groups s1 = groups s -> evolves ds n s s1.
Proof.
  intros Hg gid. rewrite Hg. destruct (groups s !! gid) as [g|]; cbn; [|done].
  left. exists []. split; [apply gt_nil|]; split; [apply N.le_0_l | apply sublist_nil_l].
Qed.

(** One group steps, the others stay. *)
Lemma evolves_trace ds n ls s s1 gid g g1 :
  groups s !! gid = Some g -> gtrace (gh_now s) ls g g1 -> groups s1 !! gid = Some g1 ->
  (forall i, i <> gid -> groups s1 !! i = groups s !! i) ->
  trace_rows ls <= n -> sublist (trace_draws ls) ds -> evolves ds n s s1.
Proof.
  intros Hg Ht H1 Ho Hn Hd i. destruct (decide (i = gid)) as [->|Hne].
  - rewrite H1, Hg. cbn. eauto.
  - rewrite Ho by done. by apply (evolves_refl ds n s s).
Qed.

Lemma evolves_step ds n l s s1 gid g g1 :
  groups s !! gid = Some g -> gstep (gh_now s) l g g1 -> groups s1 !! gid = Some g1 ->
  (forall i, i <> gid -> groups s1 !! i = groups s !! i) ->
  trace_rows [l] <= n -> sublist (trace_draws [l]) ds -> evolves ds n s s1.
Proof. intros. eapply (evolves_trace ds n [l]); eauto with group. Qed.

(** The look-ups that a step of one group leaves to check. *)
Ltac at_group := cbn; intros; by simplify_map_eq.

Section Methods.
Context `{Crypto}.
Implicit Types (s : GroupHost) (gid : GroupId).

(** ** Reading methods *)

Lemma authorize_live_spec s gid cred :
  post (authorize_live gid cred) s (fun r s1 => s1 = s /\
    match r with
    | Ok _ => exists g rec, groups s !! gid = Some g /\ g_creds g !! credential_id cred = Some rec
        /\ cred_live rec = true /\ secret rec = hash_secret (credential_secret cred)
    | Err e => e = Denied
    end).
Proof.
  unfold authorize_live. wp. destruct (groups s !! gid) as [g|] eqn:Hg; wp; [|done].
  destruct (g_creds g !! _) as [rec|] eqn:Hr; wp; [|done]. case_cond; wp; [|done].
  apply andb_true_iff in G as [Hl Hs%bool_decide_eq_true]. split; [done|].
  by exists g, rec.
Qed.

(** What callers use: the call went on with the same state and a live member. *)
Lemma authorized s gid cred {A} (k : unit -> group_host A) (Q : sresult A -> GroupHost -> Prop) :
  Q (Err Denied) s ->
  (forall g, groups s !! gid = Some g -> live g (credential_id cred) -> post (k tt) s Q) ->
  post (authorize_live gid cred ≫= k) s Q.
Proof.
  intros He Hk. wp. eapply post_conseq; [apply authorize_live_spec|].
  intros [[]|e] s1 [-> Hr]; [|by subst]. destruct Hr as (g & rec & Hg & Hc & Hl & _).
  apply (Hk g); [done|]. by exists rec.
Qed.

Lemma member_vk_spec s gid cid :
  post (member_vk gid cid) s (fun r s1 => s1 = s /\
    match r with
    | Ok vk => exists pk, signing_pk s gid cid = Some pk /\ vk_from_bytes pk = Some vk
    | Err e => e = Denied
    end).
Proof.
  unfold member_vk. wp. destruct (signing_pk s gid cid) as [pk|] eqn:Hp; cbn [ok_or]; [|done].
  wp. destruct (vk_from_bytes pk) as [vk|] eqn:Hv; cbn [ok_or]; [|done]. split; [done|]. eauto.
Qed.

Lemma get_group_spec s gid :
  post (get_group gid) s (fun r s1 => s1 = s /\
    match r with Ok g => groups s !! gid = Some g | Err e => e = Denied /\ groups s !! gid = None end).
Proof. unfold get_group. wp. by destruct (groups s !! gid) as [g|] eqn:Hg. Qed.

(** [fanout_copy] on every branch: a refused append changes nothing; past the
    byte cap the row is stored even when sealing the copies fails. *)
Lemma fanout_copy_spec rnd s gid t b :
  post (fanout_copy rnd gid t b) s (fun r s1 =>
    (s1 = s /\ r = Err Denied /\ match groups s !! gid with
        | Some g => STREAM_MAX_BYTES < saturating_add (g_bytes g) (lenN b)
        | None => True end)
    \/ exists g D, groups s !! gid = Some g
         /\ saturating_add (g_bytes g) (lenN b) <= STREAM_MAX_BYTES
         /\ s1 = s <| groups ::= <[gid := with_row t b (gh_now s) g]> |> <| gdirty := D |>
         /\ r = match seal_copies rnd 0 t b (fanout_targets g) with
                | Ok os => Ok (mk_append (g_next_seq g) os)
                | Err e => Err (Wire e)
                end).
Proof.
  unfold fanout_copy, put_group, g_journal, g_wire. wp.
  eapply post_conseq; [apply get_group_spec|]. intros [g|e] s1 [-> Hg]; wp.
  - case_cond; wp.
    + left. rewrite Hg. split_and!; [done | done |]. by apply N.ltb_lt.
    + apply N.ltb_ge in G.
      match goal with |- context [map_err Wire (seal_copies _ _ _ _ (fanout_targets ?g1))] =>
        change (fanout_targets g1) with (fanout_targets g) end.
      destruct (seal_copies _ _ _ _ _) as [os|e] eqn:Hs; cbn [map_err]; wp; right; eexists g, _;
        (split; [done|]); (split; [done|]); (split; [reflexivity|]); by rewrite Hs.
  - left. destruct Hg as [-> Hg]. by rewrite Hg.
Qed.

(** ** Methods refine steps *)

Notation refines ds n m := (forall s, post m s (fun _ s1 => evolves ds n s s1)).

(** Reading parts of the code before the first write. *)
Lemma read_bind {A B} (m : group_host A) (k : A -> group_host B) s Q :
  (forall e, Q (Err e) s) -> post m s (fun _ s1 => s1 = s) -> (forall a, post (k a) s Q) ->
  post (m ≫= k) s Q.
Proof.
  intros He Hm Hk. wp. eapply post_conseq; [apply Hm|]. intros [a|e] s1 ->; [apply Hk | apply He].
Qed.

Lemma read_lift {A B} (r : sresult A) (k : A -> group_host B) s (Q : sresult B -> GroupHost -> Prop) :
  (forall e, r = Err e -> Q (Err e) s) -> (forall a, r = Ok a -> post (k a) s Q) ->
  post (lift r ≫= k) s Q.
Proof. intros He Hk. wp. destruct r; auto. Qed.

Lemma member_vk_reads s gid cid : post (member_vk gid cid) s (fun _ s1 => s1 = s).
Proof. eapply post_conseq; [apply member_vk_spec|]. by intros r s1 [-> _]. Qed.

Lemma with_group s gid {A} (k : GroupState -> group_host A) (Q : sresult A -> GroupHost -> Prop) :
  (groups s !! gid = None -> Q (Err Denied) s) ->
  (forall g, groups s !! gid = Some g -> post (k g) s Q) -> post (get_group gid ≫= k) s Q.
Proof.
  intros He Hk. wp. eapply post_conseq; [apply get_group_spec|].
  intros [g|e] s1 [-> Hg]; [auto|]. destruct Hg as [-> Hg]. auto.
Qed.

Lemma create_group_for_refines pk f creator rg rs rc :
  refines [rc] 0 (create_group_for pk f creator rg rs rc).
Proof.
  intros s. unfold create_group_for, put_group, g_journal. wp.
  match goal with |- context [if ?c then _ else _] => destruct c end; wp; [by apply evolves_refl|].
  intros gid. cbn. destruct (decide (gid = mk_group_id rg)) as [->|Hne].
  - rewrite lookup_insert_eq. assert (born [rc] (mk_group 1 {[rc := mk_cred_record (hash_secret rs) true (Some pk) (Some f)]} ∅ ∅ 0 [] creator)).
    { do 5 eexists. split; [by left | done]. }
    unfold group_evolves. destruct (groups s !! _); auto.
  - rewrite lookup_insert_ne by done. by apply (evolves_refl [rc] 0 s s).
Qed.

Lemma store_invite_refines gid cred inv : refines [] 0 (store_invite gid cred inv).
Proof.
  intros s. unfold store_invite. apply authorized; [by apply evolves_refl|]. intros g Hg Hl.
  rewrite post_if. case_cond; wp; [by apply evolves_refl|].
  eapply post_conseq; [apply member_vk_reads|]. intros [vk|e] s1 ->; [|by apply evolves_refl].
  apply read_lift; intros ? _; [by apply evolves_refl|].
  apply with_group; [by intros; apply evolves_refl|]. intros g' Hg'. simplify_eq.
  unfold put_group, g_journal. wp.
  eapply evolves_step; [done | by eapply gs_invite | at_group | at_group | apply N.le_0_l | done].
Qed.

Lemma accept_refines gid nonce rs rc rp : refines [rc] 0 (accept gid nonce rs rc rp).
Proof.
  intros s. unfold accept. apply with_group; [by intros; apply evolves_refl|]. intros g Hg.
  apply read_lift; [by intros; apply evolves_refl|]. intros st Hst.
  destruct (g_invites g !! nonce) as [st'|] eqn:Hi; simplify_eq/=.
  unfold put_group, g_journal. wp. case_cond; wp.
  - eapply evolves_step; [done | by eapply gs_consume | at_group | at_group | apply N.le_0_l | apply sublist_nil_l].
  - apply N.leb_gt in G.
    eapply evolves_step; [done | by eapply gs_accept | at_group | at_group | apply N.le_0_l | done].
Qed.

Lemma host_admit_refines gid cred adm pk f : refines [] 0 (host_admit gid cred adm pk f).
Proof.
  intros s. unfold host_admit. apply authorized; [by apply evolves_refl|]. intros g Hg Hl.
  rewrite post_if. case_cond; wp; [by apply evolves_refl|].
  eapply post_conseq; [apply member_vk_reads|]. intros [vk|e] s1 ->; [|by apply evolves_refl].
  apply read_lift; intros ? _; [by apply evolves_refl|].
  unfold gc_pending, g_journal, put_group. wp.
  set (g1 := g <| g_pending ::= filter (fun kv => gh_now s < pending_expires_at kv.2) |>
               <| g_invites ::= filter (fun kv => gh_now s < si_expires_at kv.2) |>).
  set (s1 := upd _ (upd _ s)).
  assert (Hs1 : groups s1 = <[gid := g1]> (groups s)).
  { cbn. apply map_eq. intros i. destruct (decide (i = gid)) as [->|]; by simplify_map_eq. }
  assert (Hn1 : gh_now s1 = gh_now s) by done. clearbody s1.
  assert (Hx : gstep (gh_now s) LTau g g1) by constructor.
  assert (Hgc : evolves [] 0 s s1).
  { eapply evolves_step; [done | exact Hx | | | done | done]; rewrite Hs1; at_group. }
  eapply post_conseq; [apply get_group_spec|]. intros [g2|e] s2 [-> Hg2]; [|done].
  rewrite Hs1, lookup_insert_eq in Hg2. injection Hg2 as <-.
  destruct (g_pending g1 !! admit_pending_id adm) as [p|] eqn:Hp; cbn [ok_or]; [|done].
  wp. match goal with |- context [if ?c then _ else _] => destruct c eqn:Hexp end; wp.
  - eapply (evolves_trace _ _ [LTau; LTau]); [done | | | | done | done].
    { eapply gt_cons; [exact Hx|]. eapply gt_cons; [apply (gs_drop _ g1 (admit_pending_id adm)) | apply gt_nil]. }
    all: cbn; rewrite Hs1; at_group.
  - cbn in Hexp. rewrite Hn1 in Hexp. apply N.leb_gt in Hexp. 
    destruct (_ !! credential_id (pending_cred p)) as [rec|] eqn:Hrec; cbn [ok_or]; wp.
    + eapply (evolves_trace _ _ [LTau; LTau]); [done | | | | done | done].
      { eapply gt_cons; [exact Hx|]. eapply gt_cons; [|apply gt_nil].
        eapply (gs_admit _ g1 (credential_id cred)); [done | done | done | exact Hrec]. }
      all: cbn; rewrite Hs1; at_group.
    + eapply (evolves_trace _ _ [LTau; LTau]); [done | | | | done | done].
      { eapply gt_cons; [exact Hx|]. eapply gt_cons; [apply (gs_drop _ g1 (admit_pending_id adm)) | apply gt_nil]. }
      all: cbn; rewrite Hs1; at_group.
Qed.

Lemma fanout_copy_refines rnd gid t b : refines [] 1 (fanout_copy rnd gid t b).
Proof.
  intros s. eapply post_conseq; [apply fanout_copy_spec|].
  intros r s1 [(-> & _ & _)|(g & D & Hg & Hcap & -> & _)]; [by apply evolves_refl|].
  eapply evolves_step; [done | by apply gs_row | at_group | at_group | done | done].
Qed.

(** A guarded change of one credential. *)
Lemma alter_cred_evolves n gid cid f s g :
  groups s !! gid = Some g -> gstep (gh_now s) LTau g (g <| g_creds ::= alter f cid |>) ->
  post (alter_cred gid cid f) s (fun _ s1 => evolves [] n s s1).
Proof.
  intros Hg Hst. unfold alter_cred, g_journal. wp.
  eapply evolves_step; [done | exact Hst | at_group | at_group | apply N.le_0_l | done].
Qed.

Lemma refresh_fanout_refines gid cred f : refines [] 0 (refresh_fanout gid cred f).
Proof.
  intros s. unfold refresh_fanout. apply authorized; [by apply evolves_refl|]. intros g Hg Hl.
  apply with_group; [by intros; apply evolves_refl|]. intros g' Hg'.
  simplify_eq. eapply alter_cred_evolves; [done | by apply gs_refresh].
Qed.

Lemma evolves_row_then gid s g t b D f cid :
  groups s !! gid = Some g -> saturating_add (g_bytes g) (lenN b) <= STREAM_MAX_BYTES ->
  (forall g', g_creds g' = g_creds g -> gstep (gh_now s) LTau g' (g' <| g_creds ::= alter f cid |>)) ->
  post (alter_cred gid cid f) (s <| groups ::= <[gid := with_row t b (gh_now s) g]> |> <| gdirty := D |>)
    (fun _ s1 => evolves [] 1 s s1).
Proof.
  intros Hg Hcap Hst. unfold alter_cred, g_journal. wp.
  eapply (evolves_trace _ _ [LRow; LTau]); [done | | | | done | done].
  { eapply gt_cons; [by apply gs_row|]. eapply gt_cons; [by apply Hst | apply gt_nil]. }
  all: at_group.
Qed.

Lemma append_remove_refines rnd gid cred b s g :
  groups s !! gid = Some g -> live g (credential_id cred) ->
  post (append_remove rnd gid cred b) s (fun _ s1 => evolves [] 1 s s1).
Proof.
  intros Hg Hl. unfold append_remove. apply read_lift; intros bundle _; [by apply evolves_refl|].
  apply read_bind; [by intros; apply evolves_refl | apply member_vk_reads |]. intros vk.
  apply read_lift; intros _ _; [by apply evolves_refl|]. wp.
  eapply post_conseq; [apply fanout_copy_spec|].
  intros r s1 [(-> & -> & _)|(g' & D & Hg' & Hcap & -> & ->)]; [by apply evolves_refl|].
  simplify_eq. destruct (seal_copies _ _ _ _ _) as [os|e].
  - wp. eapply post_conseq.
    + apply (evolves_row_then gid s g); [done | done |]. intros g1 Hg1. apply (gs_remove _ g1 (credential_id cred)).
      unfold live. by rewrite Hg1.
    + by intros [[]|e] s1 ?; wp.
  - eapply evolves_step; [done | by apply gs_row | at_group | at_group | done | done].
Qed.

Lemma append_reserve_refines rnd gid cred b : refines [] 1 (append_reserve rnd gid cred b).
Proof.
  intros s. unfold append_reserve, g_journal. apply read_lift; intros res _; [by apply evolves_refl|].
  wp. case_cond; wp; [by apply evolves_refl|]. case_cond; wp; [by apply evolves_refl|].
  eapply post_conseq; [apply fanout_copy_refines|]. intros [out|e] s1 Hev; wp; exact Hev.
Qed.

Lemma append_replace_refines rnd gid cred b s g :
  groups s !! gid = Some g -> live g (credential_id cred) ->
  post (apply_signing_replace gid cred b;; fanout_copy rnd gid SigningKeyReplaceType b) s
    (fun _ s1 => evolves [] 1 s s1).
Proof.
  intros Hg Hl. unfold apply_signing_replace, g_wire. wp.
  destruct (map_err Wire (replace_decode b)) as [rep|e]; [|by apply evolves_refl]. wp.
  eapply post_conseq; [apply member_vk_reads|]. intros [vk|e] s1 ->; [|by apply evolves_refl].
  wp. destruct (map_err Wire (replace_verify rep vk)) as [[]|e]; [|by apply evolves_refl].
  unfold alter_cred, g_journal. wp. eapply post_conseq; [apply fanout_copy_spec|].
  cbn -[saturating_add]. rewrite lookup_alter_eq, Hg. cbn -[saturating_add].
  intros r s1 [(-> & _ & _)|(g' & D & Hg' & Hcap & -> & _)].
  - eapply evolves_step; [done | by apply (gs_rekey _ _ (credential_id cred)) | at_group | at_group | apply N.le_0_l | done].
  - injection Hg' as <-. eapply (evolves_trace _ _ [LTau; LRow]); [done | | | | done | done].
    { eapply gt_cons; [by apply (gs_rekey _ _ (credential_id cred))|].
      eapply gt_cons; [by apply gs_row | apply gt_nil]. }
    all: at_group.
Qed.

Lemma append_refines rnd gid cred t b : refines [] 1 (append rnd gid cred t b).
Proof.
  intros s. unfold append. apply authorized; [by apply evolves_refl|]. intros g Hg Hl.
  destruct t; first [by apply evolves_refl | by apply fanout_copy_refines | by apply append_reserve_refines
    | by eapply append_remove_refines | by eapply append_replace_refines].
Qed.

Lemma append_host_revocation_refines rnd gid stmt : refines [] 1 (append_host_revocation rnd gid stmt).
Proof.
  intros s. unfold append_host_revocation. wp. case_cond; [by wp; apply evolves_refl|].
  apply fanout_copy_refines.
Qed.

Lemma lookup_pending_reads gid cred pid s : post (lookup_pending gid cred pid) s (fun _ s1 => s1 = s).
Proof.
  unfold lookup_pending. apply authorized; [done|]. intros g Hg _. apply with_group; [done|].
  intros g' _. apply read_lift; [done|]. intros p _. wp. by case_cond.
Qed.

Lemma fetch_file_reads gid cred tok s : post (fetch_file gid cred tok) s (fun _ s1 => s1 = s).
Proof.
  unfold fetch_file. apply authorized; [done|]. intros g Hg _. wp.
  destruct (files s !! tok) as [slot|]; [|done]. destruct (slot_bytes slot); [|done]. by case_cond.
Qed.

Lemma upload_file_refines gid cred tok b : refines [] 0 (upload_file gid cred tok b).
Proof.
  intros s. unfold upload_file, g_journal. apply authorized; [by apply evolves_refl|]. intros g Hg _. wp.
  destruct (files s !! tok) as [slot|]; cbn [ok_or]; [|by apply evolves_refl].
  wp. case_cond; [by wp; apply evolves_refl|]. case_cond; wp; by apply evolves_refl.
Qed.
End Methods.
