(* ===== verification/GroupInv.v ===== *)
(** * The group host's invariants

    Streams are numbered without gaps and accounted exactly, live members can
    sign and be reached, a pending join names a credential that is not live,
    stored files have their reserved size: kept by every step and along every
    run. *)

From S2P Require Export GroupStep.

Definition body_sum (l : list StreamRow) : N := foldr (fun r acc => lenN (sr_body r) + acc) 0 l.

(** A group with at most [n] rows. *)
Record group_wf (n : N) (g : GroupState) : Prop := {
  gw_numbered : forall i row, g_stream g !! i = Some row -> sr_seq row = N.of_nat i + 1;
  gw_next : g_next_seq g = lenN (g_stream g) + 1;
  gw_count : lenN (g_stream g) <= n;
  gw_bytes : g_bytes g = body_sum (g_stream g);
  gw_cap : g_bytes g <= STREAM_MAX_BYTES;
  gw_live : forall cid rec, g_creds g !! cid = Some rec -> cred_live rec = true ->
      is_Some (cred_signing_pk rec) /\ is_Some (cred_fanout rec)
}.

(** The credentials of a group, all among the drawn ids [D]. *)
Record joins_wf (D : list key) (g : GroupState) : Prop := {
  jw_drawn : forall cid rec, g_creds g !! cid = Some rec -> cid ∈ D;
  jw_pending : forall pid p, g_pending g !! pid = Some p ->
      exists rec, g_creds g !! credential_id (pending_cred p) = Some rec /\ cred_live rec = false;
  jw_unique : forall pid1 pid2 p1 p2, g_pending g !! pid1 = Some p1 -> g_pending g !! pid2 = Some p2 ->
      credential_id (pending_cred p1) = credential_id (pending_cred p2) -> pid1 = pid2
}.

(** [cid] is no member and no join in progress can make it one. *)
Record out (cid : key) (g : GroupState) : Prop := {
  out_cred : forall rec, g_creds g !! cid = Some rec -> cred_live rec = false;
  out_pending : forall pid p, g_pending g !! pid = Some p -> credential_id (pending_cred p) <> cid
}.

Lemma body_sum_app l r : body_sum (l ++ [r]) = body_sum l + lenN (sr_body r).
Proof. induction l as [|x l IH]; cbn; [lia|]. unfold body_sum in IH. rewrite IH. lia. Qed.

Lemma group_wf_mono n m g : n <= m -> group_wf n g -> group_wf m g.
Proof. intros Hle []. split; try done. lia. Qed.

Lemma with_row_wf n t b nw g :
  group_wf n g -> n + 1 < U64_MAX -> saturating_add (g_bytes g) (lenN b) <= STREAM_MAX_BYTES ->
  group_wf (n + 1) (with_row t b nw g).
Proof.
  intros [H1 H2 H3 H4 H5 H6] Hn Hcap.
  assert (Hsum : saturating_add (g_bytes g) (lenN b) = g_bytes g + lenN b).
  { revert Hcap. unfold saturating_add, STREAM_MAX_BYTES, U64_MAX. lia. }
  split; unfold with_row, upd; cbn -[u64_add saturating_add STREAM_MAX_BYTES]; try done.
  - intros i row Hi. destruct (decide (i < length (g_stream g))%nat).
    + rewrite lookup_app_l in Hi by done. auto.
    + rewrite lookup_app_r in Hi by lia. apply list_lookup_singleton_Some in Hi as [Hz <-]. cbn.
      rewrite H2. unfold lenN. lia.
  - rewrite lenN_app, u64_add_small; rewrite H2; [rewrite lenN_cons, lenN_nil|]; lia.
  - rewrite lenN_app, lenN_cons, lenN_nil. lia.
  - by rewrite body_sum_app, <- H4, Hsum.
Qed.

(** Everything but the stream may change, as long as live members stay
    complete. *)
Lemma group_wf_creds n g g1 :
  g_stream g1 = g_stream g -> g_next_seq g1 = g_next_seq g -> g_bytes g1 = g_bytes g ->
  (forall cid rec, g_creds g1 !! cid = Some rec -> cred_live rec = true ->
     is_Some (cred_signing_pk rec) /\ is_Some (cred_fanout rec)) ->
  group_wf n g -> group_wf n g1.
Proof. intros Hs Hn Hb Hc []. split; rewrite ?Hs, ?Hn, ?Hb; done. Qed.

(** ** Steps *)

Definition step_rows (l : glabel) : N := match l with LRow => 1 | _ => 0 end.

Lemma gstep_wf nw l n g g1 :
  gstep nw l g g1 -> group_wf n g -> n + 1 < U64_MAX -> group_wf (n + step_rows l) g1.
Proof.
  intros Hst Hw Hn. pose proof (gw_live _ _ Hw) as Hlive.
  destruct Hst; cbn [step_rows]; rewrite ?N.add_0_r; try (by apply with_row_wf);
    (apply (group_wf_creds _ g); [done | done | done | cbn | done]); try done.
  - intros c rec [[<- <-]|[_ Hc]]%lookup_insert_Some Hl; [done | eauto].
  - intros c rec' [[<- <-]|[_ Hc]]%lookup_insert_Some Hl; [cbn; eauto | eauto].
  - intros c rec [[-> (r & Hr & ->)]|[_ Hc]]%lookup_alter_Some Hl; [|eauto].
    cbn in *. destruct (Hlive _ _ Hr Hl). eauto.
  - intros c rec [[-> (r & Hr & ->)]|[_ Hc]]%lookup_alter_Some Hl; [|eauto].
    cbn in *. destruct (Hlive _ _ Hr Hl). eauto.
  - intros c rec [[-> (r & Hr & ->)]|[_ Hc]]%lookup_alter_Some Hl; [done | eauto].
Qed.

(** Credential changes that cannot make a credential live. *)
Lemma joins_wf_alter D g f cid :
  (forall rec, cred_live rec = false -> cred_live (f rec) = false) ->
  joins_wf D g -> joins_wf D (g <| g_creds ::= alter f cid |>).
Proof.
  intros Hf [H1 H2 H3]. split; [| |done]; cbn.
  - intros c rec [[-> (r & Hr & ->)]|[_ Hc]]%lookup_alter_Some; eauto.
  - intros pid p Hp. destruct (H2 _ _ Hp) as (rec & Hr & Hl).
    destruct (decide (cid = credential_id (pending_cred p))) as [->|Hne].
    + exists (f rec). rewrite lookup_alter_eq, Hr. auto.
    + exists rec. by rewrite lookup_alter_ne.
Qed.

(** Fewer pending joins. *)
Lemma joins_wf_pending D g g1 :
  g_creds g1 = g_creds g -> g_pending g1 ⊆ g_pending g -> joins_wf D g -> joins_wf D g1.
Proof.
  intros Hc Hp [H1 H2 H3]. split; rewrite ?Hc; [done | |].
  - intros pid p Hpid. eapply H2, lookup_weaken; eauto.
  - intros i j p q Hi Hj. apply H3; by eapply lookup_weaken.
Qed.

Lemma joins_wf_accept D g nonce cid hs pid p :
  cid ∉ D -> credential_id (pending_cred p) = cid -> joins_wf D g ->
  joins_wf (D ++ [cid]) (g <| g_invites ::= delete nonce |>
    <| g_creds ::= <[cid := mk_cred_record hs false None None]> |> <| g_pending ::= <[pid := p]> |>).
Proof.
  intros Hfresh Hcid [H1 H2 H3].
  assert (Hne : forall i q, g_pending g !! i = Some q -> credential_id (pending_cred q) <> cid).
  { intros i q Hq <-. destruct (H2 _ _ Hq) as (rec & Hr & _). eauto. }
  split; cbn.
  - intros c rec [[<- _]|[_ Hc]]%lookup_insert_Some; apply elem_of_app; [right; by left | left; eauto].
  - intros i q [[<- <-]|[_ Hi]]%lookup_insert_Some.
    + rewrite Hcid, lookup_insert_eq. eauto.
    + destruct (H2 _ _ Hi) as (rec & Hr & Hl). exists rec. rewrite lookup_insert_ne; [done|].
      intros Heq. by eapply Hne.
  - intros i j p1 p2 [[<- <-]|[_ Hi]]%lookup_insert_Some [[<- <-]|[_ Hj]]%lookup_insert_Some Heq; [done | | |].
    + destruct (Hne _ _ Hj). congruence.
    + destruct (Hne _ _ Hi). congruence.
    + by eapply H3.
Qed.

Lemma joins_wf_admit D g pid p rec rec' :
  g_pending g !! pid = Some p -> g_creds g !! credential_id (pending_cred p) = Some rec -> joins_wf D g ->
  joins_wf D (g <| g_pending ::= delete pid |> <| g_creds ::= <[credential_id (pending_cred p) := rec']> |>).
Proof.
  intros Hp Hrec [H1 H2 H3]. split; cbn.
  - intros c r [[<- _]|[_ Hc]]%lookup_insert_Some; eauto.
  - intros i q [Hne Hi]%lookup_delete_Some. destruct (H2 _ _ Hi) as (r & Hr & Hl).
    exists r. rewrite lookup_insert_ne; [done|]. intros Heq. by apply Hne, (H3 _ _ p q).
  - intros i j p1 p2 [_ Hi]%lookup_delete_Some [_ Hj]%lookup_delete_Some. eauto.
Qed.

Definition step_draws (l : glabel) : list key := match l with LDraw cid => [cid] | _ => [] end.

Lemma gstep_joins nw l D g g1 :
  gstep nw l g g1 -> joins_wf D g -> NoDup (D ++ step_draws l) -> joins_wf (D ++ step_draws l) g1.
Proof.
  intros Hst Hw Hnd. destruct Hst; cbn [step_draws] in *; rewrite ?app_nil_r in *;
    first [by apply joins_wf_alter | by eapply joins_wf_admit | by (destruct Hw; split) | idtac].
  - apply joins_wf_accept; [|done|done]. apply NoDup_app in Hnd as (_ & Hd & _). intros Hin.
    by apply (Hd _ Hin), list_elem_of_singleton.
  - eapply joins_wf_pending, Hw; [done|]. apply map_filter_subseteq.
  - eapply joins_wf_pending, Hw; [done|]. apply delete_subseteq.
Qed.

Lemma gstep_out nw l cid g g1 :
  gstep nw l g g1 -> out cid g -> cid ∉ step_draws l -> out cid g1.
Proof.
  intros Hst [H1 H2] Hd. destruct Hst; cbn [step_draws] in *; split; cbn; try done.
  - intros rec [[<- <-]|[_ Hc]]%lookup_insert_Some; auto.
  - intros i q [[<- <-]|[_ Hi]]%lookup_insert_Some; cbn; [|by eapply H2].
    intros ->. by apply Hd, list_elem_of_singleton.
  - intros i q [Hi _]%map_lookup_filter_Some. by eapply H2.
  - intros i q [_ Hi]%lookup_delete_Some. by eapply H2.
  - intros r [[<- _]|[_ Hc]]%lookup_insert_Some; [|auto]. exfalso. by eapply H2.
  - intros i q [_ Hi]%lookup_delete_Some. by eapply H2.
  - intros r [[-> (r0 & Hr & ->)]|[_ Hc]]%lookup_alter_Some; cbn; auto.
  - intros r [[-> (r0 & Hr & ->)]|[_ Hc]]%lookup_alter_Some; cbn; auto.
  - intros r [[-> (r0 & Hr & ->)]|[_ Hc]]%lookup_alter_Some; cbn; auto.
Qed.

(** ** Traces *)

Lemma trace_rows_cons l ls : trace_rows (l :: ls) = step_rows l + trace_rows ls.
Proof. unfold trace_rows. destruct l; cbn; rewrite ?lenN_cons; lia. Qed.

Lemma trace_draws_cons l ls : trace_draws (l :: ls) = step_draws l ++ trace_draws ls.
Proof. by destruct l. Qed.

Lemma gtrace_wf nw ls n g g1 :
  gtrace nw ls g g1 -> group_wf n g -> n + trace_rows ls + 1 < U64_MAX -> group_wf (n + trace_rows ls) g1.
Proof.
  intros Ht. revert n. induction Ht as [g|l ls g g1 g2 Hst Ht IH]; intros n Hw Hn.
  - apply (group_wf_mono n); [lia | done].
  - rewrite trace_rows_cons in *. rewrite N.add_assoc. apply IH; [|lia].
    eapply gstep_wf; [done | done | lia].
Qed.

Lemma gtrace_joins nw ls D g g1 :
  gtrace nw ls g g1 -> joins_wf D g -> NoDup (D ++ trace_draws ls) -> joins_wf (D ++ trace_draws ls) g1.
Proof.
  intros Ht. revert D. induction Ht as [g|l ls g g1 g2 Hst Ht IH]; intros D Hw Hn.
  - by rewrite app_nil_r.
  - rewrite trace_draws_cons in *. rewrite app_assoc in *. apply IH; [|done].
    eapply gstep_joins; [done | done |]. by apply NoDup_app in Hn as [Hn _].
Qed.

Lemma gtrace_out nw ls cid g g1 :
  gtrace nw ls g g1 -> out cid g -> cid ∉ trace_draws ls -> out cid g1.
Proof.
  induction 1 as [g|l ls g g1 g2 Hst Ht IH]; intros Ho Hd; [done|].
  rewrite trace_draws_cons in Hd. apply not_elem_of_app in Hd as [Hd1 Hd2].
  apply IH; [|done]. by eapply gstep_out.
Qed.

Lemma joins_wf_mono D D' g : D ⊆ D' -> joins_wf D g -> joins_wf D' g.
Proof. intros Hs []. split; [|done|done]. intros. apply Hs. eauto. Qed.

Lemma born_wf n ds g : born ds g -> group_wf n g.
Proof.
  intros (cid & hs & pk & f & creator & _ & ->). split; cbn; try done; try apply N.le_0_l.
  intros c rec [<- <-]%lookup_singleton_Some. cbn. eauto.
Qed.

Lemma born_joins ds g : born ds g -> joins_wf ds g.
Proof.
  intros (cid & hs & pk & f & creator & Hin & ->). split; cbn.
  - by intros c rec [<- <-]%lookup_singleton_Some.
  - intros pid p. by rewrite lookup_empty.
  - intros i j p q. by rewrite lookup_empty.
Qed.

Lemma born_out ds cid g : born ds g -> cid ∉ ds -> out cid g.
Proof.
  intros (c & hs & pk & f & creator & Hin & ->) Hd. split; cbn.
  - intros rec [<- _]%lookup_singleton_Some. done.
  - intros pid p. by rewrite lookup_empty.
Qed.

(** ** The host *)

(** Every group is well formed, credentials are among [D]. *)
Definition groups_ok (D : list key) (n : N) (s : GroupHost) : Prop :=
  forall gid g, groups s !! gid = Some g -> group_wf n g /\ joins_wf D g.

Definition files_ok (s : GroupHost) : Prop :=
  forall tok slot b, files s !! tok = Some slot -> slot_bytes slot = Some b -> lenN b = slot_size slot.

(** [cid] is out of the group, if the group exists. *)
Definition out_of (gid : GroupId) (cid : key) (s : GroupHost) : Prop :=
  forall g, groups s !! gid = Some g -> out cid g.

Lemma NoDup_sublist {A} (l k : list A) : sublist l k -> NoDup k -> NoDup l.
Proof.
  induction 1 as [|x l k Hs IH|x l k Hs IH]; rewrite ?NoDup_cons; [done | | tauto].
  intros [Hx Hk]. split; [|auto]. intros Hin. apply Hx. by eapply elem_of_sublist.
Qed.

Lemma evolves_ok D ds n s s1 :
  evolves ds 1 s s1 -> groups_ok D n s -> n + 2 < U64_MAX -> NoDup (D ++ ds) ->
  groups_ok (D ++ ds) (n + 1) s1.
Proof.
  intros He Hok Hn Hnd gid g1 Hg1. specialize (He gid). rewrite Hg1 in He. unfold group_evolves in He.
  assert (born ds g1 -> group_wf (n + 1) g1 /\ joins_wf (D ++ ds) g1) as Hborn.
  { intros Hb. split; [by eapply born_wf|]. eapply joins_wf_mono, born_joins, Hb. set_solver. }
  destruct (groups s !! gid) as [g|] eqn:Hg; [|by apply Hborn].
  destruct He as [(ls & Ht & Hr & Hd)|Hb]; [|by apply Hborn]. destruct (Hok _ _ Hg) as [Hw Hj].
  assert (sublist (D ++ trace_draws ls) (D ++ ds)) as Hsub by (by apply sublist_app).
  split.
  - apply (group_wf_mono (n + trace_rows ls)); [lia|]. eapply gtrace_wf; [done | done | lia].
  - eapply joins_wf_mono, gtrace_joins; [|done|done|by eapply NoDup_sublist].
    intros x Hx. by eapply elem_of_sublist.
Qed.

Lemma evolves_out ds n s s1 gid cid :
  evolves ds n s s1 -> cid ∉ ds -> out_of gid cid s -> out_of gid cid s1.
Proof.
  intros He Hd Ho g1 Hg1. specialize (He gid). rewrite Hg1 in He. unfold group_evolves in He.
  destruct (groups s !! gid) as [g|] eqn:Hg; [|by eapply born_out].
  destruct He as [(ls & Ht & Hr & Hs)|Hb]; [|by eapply born_out].
  eapply gtrace_out; [done | by apply Ho |]. intros Hin. apply Hd. by eapply elem_of_sublist.
Qed.

(** ** Files *)

Section Files.
Context `{Crypto}.

Create HintDb keep discriminated.

(** The body of a method that leaves the files alone. *)
Ltac keep_files := walk ltac:(eauto with keep).

Lemma put_group_keeps gid g : preserves files_ok (put_group gid g).
Proof. by apply preserves_modify. Qed.
Lemma g_journal_keeps f : preserves files_ok (g_journal f).
Proof. by apply preserves_modify. Qed.
Lemma gc_pending_keeps gid : preserves files_ok (gc_pending gid).
Proof. by apply preserves_modify. Qed.
Lemma get_group_keeps gid : preserves files_ok (get_group gid).
Proof. unfold get_group. keep_files. Qed.
Lemma authorize_live_keeps gid cred : preserves files_ok (authorize_live gid cred).
Proof. unfold authorize_live. keep_files. Qed.
Lemma member_vk_keeps gid cid : preserves files_ok (member_vk gid cid).
Proof. unfold member_vk. keep_files. Qed.
Lemma g_wire_keeps {A} (m : wresult A) : preserves files_ok (g_wire m).
Proof. apply preserves_lift. Qed.
Lemma g_deny_keeps {E A} (m : result E A) : preserves files_ok (g_deny m).
Proof. apply preserves_lift. Qed.
#[local] Hint Resolve put_group_keeps g_journal_keeps gc_pending_keeps get_group_keeps
  authorize_live_keeps member_vk_keeps g_wire_keeps g_deny_keeps : keep.

Lemma alter_cred_keeps gid cid f : preserves files_ok (alter_cred gid cid f).
Proof. unfold alter_cred. keep_files. Qed.
Lemma fanout_copy_keeps rnd gid t b : preserves files_ok (fanout_copy rnd gid t b).
Proof. unfold fanout_copy. keep_files. Qed.
#[local] Hint Resolve alter_cred_keeps fanout_copy_keeps : keep.

Lemma create_group_for_keeps pk f creator rg rs rc : preserves files_ok (create_group_for pk f creator rg rs rc).
Proof. unfold create_group_for. keep_files. Qed.
Lemma store_invite_keeps gid cred inv : preserves files_ok (store_invite gid cred inv).
Proof. unfold store_invite. keep_files. Qed.
Lemma accept_keeps gid nonce rs rc rp : preserves files_ok (accept gid nonce rs rc rp).
Proof. unfold accept. keep_files. Qed.
Lemma lookup_pending_keeps gid cred pid : preserves files_ok (lookup_pending gid cred pid).
Proof. unfold lookup_pending. keep_files. Qed.
Lemma host_admit_keeps gid cred adm pk f : preserves files_ok (host_admit gid cred adm pk f).
Proof. unfold host_admit. keep_files. Qed.
Lemma append_host_revocation_keeps rnd gid stmt : preserves files_ok (append_host_revocation rnd gid stmt).
Proof. unfold append_host_revocation. keep_files. Qed.
Lemma refresh_fanout_keeps gid cred f : preserves files_ok (refresh_fanout gid cred f).
Proof. unfold refresh_fanout. keep_files. Qed.
Lemma append_remove_keeps rnd gid cred b : preserves files_ok (append_remove rnd gid cred b).
Proof. unfold append_remove. keep_files. Qed.
Lemma apply_signing_replace_keeps gid cred b : preserves files_ok (apply_signing_replace gid cred b).
Proof. unfold apply_signing_replace. keep_files. Qed.

Lemma append_reserve_keeps rnd gid cred b : preserves files_ok (append_reserve rnd gid cred b).
Proof.
  unfold append_reserve. do 2 (apply preserves_bind; [keep_files | intros ?]). cbv zeta.
  destruct (bool_decide _); [keep_files|]. destruct (_ <? _); [keep_files|].
  apply preserves_bind; [keep_files | intros out]. apply preserves_bind; [|intros _; keep_files].
  apply preserves_modify. intros s Hs tok slot b'. cbn.
  intros [[<- <-]|[_ Hi]]%lookup_insert_Some Hb; [done | by eapply Hs].
Qed.
#[local] Hint Resolve append_remove_keeps apply_signing_replace_keeps append_reserve_keeps : keep.

Lemma append_keeps rnd gid cred t b : preserves files_ok (append rnd gid cred t b).
Proof. unfold append. keep_files. Qed.

Lemma upload_file_keeps gid cred tok b : preserves files_ok (upload_file gid cred tok b).
Proof.
  unfold upload_file. do 3 (apply preserves_bind; [keep_files | intros ?]).
  destruct (_ || _); [keep_files|]. destruct (bool_decide (is_Some _) || _) eqn:G; [keep_files|].
  apply orb_false_iff in G as [_ G]. apply negb_false_iff, N.eqb_eq in G.
  apply preserves_bind; [|intros _; keep_files]. apply preserves_modify.
  intros s Hs tok' slot b'. cbn. intros [[<- <-]|[_ Hi]]%lookup_insert_Some Hb; [|by eapply Hs].
  cbn in Hb. by simplify_eq.
Qed.

Lemma fetch_file_keeps gid cred tok : preserves files_ok (fetch_file gid cred tok).
Proof. unfold fetch_file. keep_files. Qed.
End Files.

(** ** Runs *)

Inductive group_op : Type :=
| GNow (t : N)
| GCreate (pk : key) (f : FanoutTarget) (creator : option key) (rg rs rc : key)
| GInvite (gid : GroupId) (cred : MemberCred) (inv : GroupInvite)
| GAccept (gid : GroupId) (nonce rs rc rp : key)
| GLookup (gid : GroupId) (cred : MemberCred) (pid : key)
| GAdmit (gid : GroupId) (cred : MemberCred) (adm : GroupAdmit) (pk : key) (f : FanoutTarget)
| GRevocation (rnd : nat -> key * key) (gid : GroupId) (stmt : RevocationStatement)
| GRefresh (gid : GroupId) (cred : MemberCred) (f : FanoutTarget)
| GAppend (rnd : nat -> key * key) (gid : GroupId) (cred : MemberCred) (t : MessageType) (b : bytes)
| GUpload (gid : GroupId) (cred : MemberCred) (tok : key) (b : bytes)
| GFetch (gid : GroupId) (cred : MemberCred) (tok : key).

(** The credential ids that an operation draws. *)
Definition op_draws (op : group_op) : list key :=
  match op with
  | GCreate _ _ _ _ _ rc | GAccept _ _ _ rc _ => [rc]
  | _ => []
  end.

Section Runs.
Context `{Crypto}.

Definition gexec (op : group_op) : group_host unit :=
  match op with
  | GNow t => modify (fun s => s <| gh_now := t |>)
  | GCreate pk f creator rg rs rc => create_group_for pk f creator rg rs rc;; mret tt
  | GInvite gid cred inv => store_invite gid cred inv
  | GAccept gid nonce rs rc rp => accept gid nonce rs rc rp;; mret tt
  | GLookup gid cred pid => lookup_pending gid cred pid;; mret tt
  | GAdmit gid cred adm pk f => host_admit gid cred adm pk f;; mret tt
  | GRevocation rnd gid stmt => append_host_revocation rnd gid stmt;; mret tt
  | GRefresh gid cred f => refresh_fanout gid cred f
  | GAppend rnd gid cred t b => append rnd gid cred t b;; mret tt
  | GUpload gid cred tok b => upload_file gid cred tok b
  | GFetch gid cred tok => fetch_file gid cred tok;; mret tt
  end.

Definition grun (ops : list group_op) (s : GroupHost) : GroupHost :=
  foldl (fun s op => (gexec op s).1) s ops.

Definition run_draws (ops : list group_op) : list key := concat (map op_draws ops).

Lemma evolves_more ds n m s s1 : n <= m -> evolves ds n s s1 -> evolves ds m s s1.
Proof.
  intros Hle He gid. specialize (He gid). unfold group_evolves in *.
  destruct (groups s !! gid), (groups s1 !! gid); try done.
  destruct He as [(ls & Ht & Hr & Hd)|Hb]; [left; exists ls; split_and!; [done | lia | done] | by right].
Qed.

Lemma post_unit {A} (m : group_host A) s (P : GroupHost -> Prop) :
  post m s (fun _ s1 => P s1) -> post (m;; mret tt) s (fun _ s1 => P s1).
Proof. intros Hm. wp. eapply post_conseq; [apply Hm|]. by intros [a|e] s1 ?. Qed.

Lemma gexec_evolves op s : evolves (op_draws op) 1 s (gexec op s).1.
Proof.
  assert (post (gexec op) s (fun _ s1 => evolves (op_draws op) 1 s s1)); [|done].
  destruct op; cbn [gexec op_draws]; try apply (post_unit _ s (evolves _ 1 s)).
  - wp. by apply evolves_refl.
  - eapply post_conseq; [apply create_group_for_refines|]. intros r s1. by apply evolves_more.
  - eapply post_conseq; [apply store_invite_refines|]. intros r s1. by apply evolves_more.
  - eapply post_conseq; [apply accept_refines|]. intros r s1. by apply evolves_more.
  - eapply post_conseq; [apply lookup_pending_reads|]. intros r s1 ->. by apply evolves_refl.
  - eapply post_conseq; [apply host_admit_refines|]. intros r s1. by apply evolves_more.
  - apply append_host_revocation_refines.
  - eapply post_conseq; [apply refresh_fanout_refines|]. intros r s1. by apply evolves_more.
  - apply append_refines.
  - eapply post_conseq; [apply upload_file_refines|]. intros r s1. by apply evolves_more.
  - eapply post_conseq; [apply fetch_file_reads|]. intros r s1 ->. by apply evolves_refl.
Qed.

Lemma gexec_files op : preserves files_ok (gexec op).
Proof.
  destruct op; cbn [gexec]; try (apply preserves_bind; [|intros ?; apply preserves_ret]).
  - by apply preserves_modify.
  - apply create_group_for_keeps.
  - apply store_invite_keeps.
  - apply accept_keeps.
  - apply lookup_pending_keeps.
  - apply host_admit_keeps.
  - apply append_host_revocation_keeps.
  - apply refresh_fanout_keeps.
  - apply append_keeps.
  - apply upload_file_keeps.
  - apply fetch_file_keeps.
Qed.

Lemma grun_app ops1 ops2 s : grun (ops1 ++ ops2) s = grun ops2 (grun ops1 s).
Proof. apply foldl_app. Qed.

Lemma run_draws_app ops1 ops2 : run_draws (ops1 ++ ops2) = run_draws ops1 ++ run_draws ops2.
Proof. unfold run_draws. by rewrite map_app, concat_app. Qed.

Lemma grun_ok ops D n s :
  groups_ok D n s -> files_ok s -> NoDup (D ++ run_draws ops) -> n + lenN ops + 1 < U64_MAX ->
  groups_ok (D ++ run_draws ops) (n + lenN ops) (grun ops s) /\ files_ok (grun ops s).
Proof.
  revert D n s; induction ops as [|op ops IH]; intros D n s Hg Hf Hnd Hn.
  - cbn. rewrite app_nil_r. split; [|done]. intros gid g Hgid. destruct (Hg _ _ Hgid). split; [|done].
    apply (group_wf_mono n); [apply N.le_add_r | done].
  - rewrite lenN_cons in *. unfold run_draws in *. cbn [map concat] in *. rewrite app_assoc in *.
    rewrite N.add_assoc. apply IH; [| by apply gexec_files | done | lia].
    eapply evolves_ok; [apply gexec_evolves | done | lia |]. by apply NoDup_app in Hnd as [Hnd _].
Qed.

Lemma grun_out ops gid cid s :
  out_of gid cid s -> cid ∉ run_draws ops -> out_of gid cid (grun ops s).
Proof.
  revert s; induction ops as [|op ops IH]; intros s Ho Hd; [done|].
  unfold run_draws in *. cbn [map concat] in Hd. apply not_elem_of_app in Hd as [Hd1 Hd2].
  apply IH; [|done]. eapply evolves_out; [apply gexec_evolves | done | done].
Qed.

Lemma host_new_ok : groups_ok [] 0 host_new /\ files_ok host_new.
Proof. split; [intros gid g | intros tok slot b]; cbn; by rewrite lookup_empty. Qed.
End Runs.
