(* ===== verification/GroupProps.v ===== *)
(** * What the group host guarantees

    Who may append and who receives the copies, how a credential becomes and
    stops being a member, and what a failed append leaves behind. *)

From S2P Require Export GroupInv.
From S2P Require Import Toy.

(** ** The fan-out *)

Lemma fanout_targets_elem g f :
  f ∈ fanout_targets g <->
  exists cid rec, g_creds g !! cid = Some rec /\ cred_live rec = true /\ cred_fanout rec = Some f.
Proof.
  unfold fanout_targets. rewrite list_elem_of_omap. split.
  - intros ([cid rec] & Hin%elem_of_map_to_list & Hf). cbn in *. destruct (cred_live rec) eqn:Hl; [|done].
    by exists cid, rec.
  - intros (cid & rec & Hc & Hl & Hf). exists (cid, rec). rewrite elem_of_map_to_list. cbn. by rewrite Hl.
Qed.

Lemma fanout_targets_alter g f cid t :
  (forall rec, cred_live (f rec) = cred_live rec /\ cred_fanout (f rec) = cred_fanout rec) ->
  t ∈ fanout_targets (g <| g_creds ::= alter f cid |>) <-> t ∈ fanout_targets g.
Proof.
  intros Hf. rewrite !fanout_targets_elem. cbn. split; intros (c & rec & Hc & Hl & Ht).
  - apply lookup_alter_Some in Hc as [[-> (r & Hr & ->)]|[_ Hc]]; [|eauto].
    destruct (Hf r) as [H1 H2]. exists c, r. rewrite <- H1, <- H2. eauto.
  - destruct (decide (c = cid)) as [->|Hne].
    + exists cid, (f rec). rewrite lookup_alter_eq, Hc. cbn. destruct (Hf rec) as [-> ->]. eauto.
    + exists c, rec. rewrite lookup_alter_ne by done. eauto.
Qed.

Section Fanout.
Context `{Crypto}.

(** The copy of [b] for one target. *)
Definition copy_for (t : MessageType) (b : bytes) (f : FanoutTarget) (o : OuterEnvelope) : Prop :=
  exists m tok rnd, pad t b = Ok m
    /\ Hpke.seal_to_server (home_hpke_public f) (mk_inner (target_capability f) TTL_DEFAULT tok m) rnd = Ok o.

Lemma seal_copies_ok rnd i t b ts os :
  seal_copies rnd i t b ts = Ok os -> Forall2 (copy_for t b) ts os.
Proof.
  revert i os; induction ts as [|f ts IH]; intros i os; cbn [seal_copies].
  - intros <-%Ok_inj. constructor.
  - intros (m & Hm & H1)%result_bind_ok. apply result_bind_ok in H1 as (o & Ho & H1).
    apply result_bind_ok in H1 as (os' & Hos & <-%Ok_inj). constructor; [|by eapply IH].
    by exists m, (rnd i).1, (rnd i).2.
Qed.

(** A body that fits no bucket fails at the first copy. *)
Lemma seal_copies_no_bucket rnd i t b f ts :
  pad t b = Err NoBucket -> seal_copies rnd i t b (f :: ts) = Err NoBucket.
Proof. intros Hp. cbn. by rewrite Hp. Qed.

(** ** A successful append *)

(** What a successful append of [t], [b] has done to the group. *)
Definition appended (s s1 : GroupHost) (gid : GroupId) (t : MessageType) (b : bytes) (out : StreamAppend) : Prop :=
  exists g g1, groups s !! gid = Some g /\ groups s1 !! gid = Some g1
    /\ g_stream g1 = g_stream g ++ [mk_stream_row (g_next_seq g) t b (gh_now s)]
    /\ g_next_seq g1 = u64_add (g_next_seq g) 1 /\ append_seq out = g_next_seq g
    /\ exists ts, Forall2 (copy_for t b) ts (outers out) /\ forall f, f ∈ ts <-> f ∈ fanout_targets g.

Lemma fanout_copy_appended rnd s gid t b :
  post (fanout_copy rnd gid t b) s (fun r s1 => forall out, r = Ok out ->
    appended s s1 gid t b out /\ exists g, groups s !! gid = Some g
      /\ groups s1 !! gid = Some (with_row t b (gh_now s) g)).
Proof.
  eapply post_conseq; [apply fanout_copy_spec|].
  intros r s1 [(-> & -> & _)|(g & D & Hg & _ & -> & ->)] out; [done|].
  destruct (seal_copies _ _ _ _ _) as [os|e] eqn:Hs; [|done]. intros <-%Ok_inj.
  split; [|exists g; split; [done | at_group]].
  eexists g, _. split; [done|]. split; [at_group|]. split; [done|]. split; [done|]. split; [done|].
  exists (fanout_targets g). split; [by eapply seal_copies_ok | done].
Qed.

#[local] Notation appends m t b := (forall s gid, post (m gid) s (fun r s1 => forall out, r = Ok out -> appended s s1 gid t b out)).

Lemma append_remove_appended rnd cred b : appends (fun gid => append_remove rnd gid cred b) RemoveBundleType b.
Proof.
  intros s gid. unfold append_remove. apply read_lift; [done|]. intros bundle _.
  apply read_bind; [done | apply member_vk_reads |]. intros vk. apply read_lift; [done|]. intros _ _. wp.
  eapply post_conseq; [apply fanout_copy_appended|]. intros [out|e] s1 Hr; [|done].
  destruct (Hr out eq_refl) as [(g0 & g1 & H1 & H2 & H3 & H4 & H5 & H6) _].
  unfold alter_cred, g_journal. wp. intros ? <-%Ok_inj.
  eexists g0, _. cbn. rewrite lookup_alter_eq, H2. split_and!; done.
Qed.

Lemma append_replace_appended rnd cred b :
  appends (fun gid => apply_signing_replace gid cred b;; fanout_copy rnd gid SigningKeyReplaceType b)
    SigningKeyReplaceType b.
Proof.
  intros s gid. unfold apply_signing_replace, g_wire. wp.
  destruct (map_err Wire (replace_decode b)) as [rep|e]; [|done]. wp.
  eapply post_conseq; [apply member_vk_reads|]. intros [vk|e] s1 ->; [|done].
  wp. destruct (map_err Wire (replace_verify rep vk)) as [[]|e]; [|done].
  unfold alter_cred, g_journal. wp. eapply post_conseq; [apply fanout_copy_appended|].
  intros r s1 Hr out Hout. destruct (Hr out Hout) as [(g0 & g1 & H1 & H2 & H3 & H4 & H5 & ts & H6 & H7) _].
  cbn in H1. apply lookup_alter_Some in H1 as [[_ (g & Hg & ->)]|[]]; [|done].
  exists g, g1. split_and!; [done..|]. exists ts. split; [done|]. intros f. rewrite H7.
  by apply fanout_targets_alter.
Qed.

Lemma append_reserve_appended rnd cred b :
  appends (fun gid => append_reserve rnd gid cred b) AttachmentReserveType b.
Proof.
  intros s gid. unfold append_reserve, g_journal. apply read_lift; [done|]. intros res _.
  wp. case_cond; wp; [done|]. case_cond; wp; [done|].
  eapply post_conseq; [apply fanout_copy_appended|]. intros [out|e] s1 Hr; wp; [|done].
  intros ? <-%Ok_inj. apply (Hr out eq_refl).
Qed.

Lemma append_appended rnd cred t b : appends (fun gid => append rnd gid cred t b) t b.
Proof.
  intros s gid. unfold append. apply authorized; [done|]. intros g Hg _.
  assert (forall t, post (fanout_copy rnd gid t b) s (fun r s1 => forall out, r = Ok out -> appended s s1 gid t b out)) as Hplain.
  { intros t'. eapply post_conseq; [apply fanout_copy_appended|]. intros r s1 Hr out ->. by apply Hr. }
  destruct t; first [done | apply Hplain | apply append_remove_appended | apply append_replace_appended
    | apply append_reserve_appended].
Qed.
End Fanout.

(** ** Calls by a credential *)

(** The group and the credential on whose behalf an operation is called. *)
Definition op_member (op : group_op) : option (GroupId * key) :=
  match op with
  | GInvite gid cred _ | GLookup gid cred _ | GAdmit gid cred _ _ _ | GRefresh gid cred _
  | GAppend _ gid cred _ _ | GUpload gid cred _ _ | GFetch gid cred _ => Some (gid, credential_id cred)
  | _ => None
  end.

Section Calls.
Context `{Crypto}.

Lemma denied_bind {A} gid cred (k : unit -> group_host A) s :
  authorize_live gid cred s = (s, Err Denied) -> (authorize_live gid cred ≫= k) s = (s, Err Denied).
Proof. intros Hd. unfold mbind, stM_bind. by rewrite Hd. Qed.

Lemma denied_unit {A} (m : group_host A) s :
  m s = (s, Err Denied) -> (m;; mret tt) s = (s, Err Denied).
Proof. intros Hd. unfold mbind, stM_bind. by rewrite Hd. Qed.

Lemma authorize_out gid cred s :
  out_of gid (credential_id cred) s -> authorize_live gid cred s = (s, Err Denied).
Proof.
  intros Ho. destruct (authorize_live gid cred s) as [s1 r] eqn:Ha.
  destruct (post_run _ _ _ _ _ (authorize_live_spec s gid cred) Ha) as [-> Hr].
  destruct r as [[]|e]; [|by rewrite Hr]. destruct Hr as (g & rec & Hg & Hc & Hl & _).
  by rewrite (out_cred _ _ (Ho _ Hg) _ Hc) in Hl.
Qed.

Lemma gexec_out op gid cid s :
  out_of gid cid s -> op_member op = Some (gid, cid) -> gexec op s = (s, Err Denied).
Proof.
  intros Ho Hm. destruct op; cbn in Hm; simplify_eq; cbn [gexec]; try apply denied_unit;
    apply denied_bind, authorize_out, Ho.
Qed.

(** A successful removal in a reachable state puts the named member out. *)
Lemma append_remove_out rnd gid cred b bundle D n s s1 out :
  groups_ok D n s -> remove_decode b = Ok bundle ->
  (exists g, groups s !! gid = Some g /\ live g (remove_credential_id bundle)) ->
  append rnd gid cred RemoveBundleType b s = (s1, Ok out) ->
  out_of gid (remove_credential_id bundle) s1 /\ remove_credential_id bundle ∈ D.
Proof.
  intros Hok Hdec (g & Hg & rec & Hc & Hl) Hrun. destruct (Hok _ _ Hg) as [_ Hj].
  split; [|by eapply jw_drawn]. revert Hrun.
  enough (post (append rnd gid cred RemoveBundleType b) s
    (fun r s1 => forall out, r = Ok out -> out_of gid (remove_credential_id bundle) s1)) as Hp.
  { intros Hrun. exact (post_run _ _ _ _ _ Hp Hrun out eq_refl). }
  unfold append. apply authorized; [done|]. intros g0 Hg0 _. simplify_eq.
  unfold append_remove. apply read_lift; rewrite Hdec; cbn [map_err]; [done|]. intros bd [= <-].
  apply read_bind; [done | apply member_vk_reads |]. intros vk. apply read_lift; [done|]. intros _ _. wp.
  eapply post_conseq; [apply fanout_copy_appended|]. intros [o|e] s2 Hr; [|done].
  destruct (Hr o eq_refl) as [_ (g1 & Hg1 & Hs2)]. simplify_eq.
  unfold alter_cred, g_journal. wp. intros _ _ g2 Hg2. cbn in Hg2.
  rewrite lookup_alter_eq, Hs2 in Hg2. injection Hg2 as <-. split; cbn.
  - intros r. rewrite lookup_alter_eq, Hc. by intros [= <-].
  - intros pid p Hp Heq. destruct (jw_pending _ _ Hj _ _ Hp) as (r & Hr' & Hl').
    rewrite Heq in Hr'. congruence.
Qed.
End Calls.

(** ** Properties *)

(** C18. The group host's methods refine the membership state machine: whatever
    a call does, each group either is untouched, is newly created with one
    member, or changes by guarded steps only: an invite needs a live member, a
    credential becomes live only through an unexpired pending join and a live
    admitter, and a credential, address or key changes only for a live member;
    at most one stream row per call. *)
Theorem group_methods_refine `{Crypto} op s : evolves (op_draws op) 1 s (gexec op s).1.
Proof. apply gexec_evolves. Qed.

(** C19. In every run from a fresh host whose credential draws do not collide,
    each group's stream is numbered 1, 2, ... without gaps, its byte count is
    the sum of its bodies and within 2 GiB, every live member has a signing key
    and a delivery address, every pending join names its own credential that is
    not live yet, and every stored file has exactly its reserved size. *)
Theorem group_host_invariant `{Crypto} ops :
  NoDup (run_draws ops) -> lenN ops + 1 < U64_MAX ->
  groups_ok (run_draws ops) (lenN ops) (grun ops host_new) /\ files_ok (grun ops host_new).
Proof.
  intros Hnd Hn. destruct host_new_ok as [Hg Hf].
  apply (grun_ok ops [] 0); [done | done | done | lia].
Qed.

(** C12. Removal is final: after a successful remove bundle naming a live member
    in any reachable state, in every continuation each call on behalf of that
    credential is refused without effect, and no fan-out list of the group
    contains an address because of it. *)
Theorem removed_member_stays_out `{Crypto} ops1 ops2 rnd gid cred b bundle s1 out g :
  NoDup (run_draws (ops1 ++ ops2)) -> lenN ops1 + 1 < U64_MAX ->
  remove_decode b = Ok bundle ->
  groups (grun ops1 host_new) !! gid = Some g -> live g (remove_credential_id bundle) ->
  append rnd gid cred RemoveBundleType b (grun ops1 host_new) = (s1, Ok out) ->
  let s2 := grun ops2 s1 in
  (forall op, op_member op = Some (gid, remove_credential_id bundle) -> gexec op s2 = (s2, Err Denied))
  /\ forall g2, groups s2 !! gid = Some g2 ->
       ~ live g2 (remove_credential_id bundle)
       /\ forall f, f ∈ fanout_targets g2 <-> f ∈ fanout_targets (g2 <| g_creds ::= delete (remove_credential_id bundle) |>).
Proof.
  intros Hnd Hn Hdec Hg Hl Hrun s2. rewrite run_draws_app in Hnd.
  apply NoDup_app in Hnd as (Hnd1 & Hdis & _). destruct host_new_ok as [Hg0 Hf0].
  destruct (grun_ok ops1 [] 0 host_new Hg0 Hf0 Hnd1 ltac:(lia)) as [Hok _].
  destruct (append_remove_out _ _ _ _ _ _ _ _ _ _ Hok Hdec (ex_intro _ g (conj Hg Hl)) Hrun) as [Ho Hin].
  assert (out_of gid (remove_credential_id bundle) s2) as Ho2 by (apply grun_out; [done | by apply Hdis]).
  split; [intros op; by apply gexec_out|]. intros g2 Hg2.
  pose proof (out_cred _ _ (Ho2 _ Hg2)) as Hdead. split.
  { intros (rec & Hc & Hl'). by rewrite (Hdead _ Hc) in Hl'. }
  intros f. rewrite !fanout_targets_elem. cbn. split; intros (c & rec & Hc & Hl' & Hf); exists c, rec.
  - rewrite lookup_delete_ne; [done|]. intros <-. by rewrite (Hdead _ Hc) in Hl'.
  - by apply lookup_delete_Some in Hc as [_ Hc].
Qed.

(** A copy opens at the home server it was sealed to. *)
Lemma copy_for_opens `{CryptoLaws} t b f o seed :
  copy_for t b f o -> home_hpke_public f = Hpke.public (Hpke.generate seed) ->
  exists m m' tok, pad t b = Ok m /\ same_padded m m'
    /\ Hpke.open_outer (Hpke.generate seed) o = Ok (mk_inner (target_capability f) TTL_DEFAULT tok m').
Proof.
  intros (m & tok & rnd & Hm & Hs) Hk. rewrite Hk in Hs.
  destruct (pad_ok _ _ _ Hm) as (_ & _ & Hok & _).
  destruct (Hpke.open_outer_sealed seed _ _ _ Hs) as (l & Hl & Ho & _).
  destruct (decode_encode_padded (mk_inner (target_capability f) TTL_DEFAULT tok m) l Hok) as (m' & Hm' & Hp);
    [by vm_compute | done |].
  exists m, m', tok. by rewrite Ho.
Qed.

(** C13. A successful append was made by a live member with the right secret; it
    stores exactly one row with the next sequence number, and every live member
    with a delivery address gets a copy that its home server opens to that
    member's capability and the appended type and body; every copy belongs to a
    live member. *)
Theorem append_reaches_members `{CryptoLaws} rnd s gid cred t b s1 out g :
  groups s !! gid = Some g -> append rnd gid cred t b s = (s1, Ok out) ->
  (exists rec, g_creds g !! credential_id cred = Some rec /\ cred_live rec = true
     /\ secret rec = hash_secret (credential_secret cred))
  /\ append_seq out = g_next_seq g
  /\ (exists g1, groups s1 !! gid = Some g1
        /\ g_stream g1 = g_stream g ++ [mk_stream_row (g_next_seq g) t b (gh_now s)])
  /\ (forall cid rec f seed, g_creds g !! cid = Some rec -> cred_live rec = true -> cred_fanout rec = Some f ->
        home_hpke_public f = Hpke.public (Hpke.generate seed) ->
        exists o m m' tok, o ∈ outers out /\ pad t b = Ok m /\ same_padded m m'
          /\ Hpke.open_outer (Hpke.generate seed) o = Ok (mk_inner (target_capability f) TTL_DEFAULT tok m'))
  /\ (forall o, o ∈ outers out -> exists cid rec f, g_creds g !! cid = Some rec /\ cred_live rec = true
        /\ cred_fanout rec = Some f /\ copy_for t b f o).
Proof.
  intros Hg Hrun. pose proof (post_run _ _ _ _ _ (append_appended rnd cred t b s gid) Hrun out eq_refl) as Ha.
  destruct Ha as (g0 & g1 & Hg0 & Hg1 & Hst & _ & Hseq & ts & Hcp & Hts). simplify_eq.
  split_and!; [| done | eauto | |].
  - unfold append in Hrun. apply stM_bind_ok in Hrun as (s0 & [] & Hauth & _).
    destruct (post_run _ _ _ _ _ (authorize_live_spec s gid cred) Hauth) as [_ (g2 & rec & Hg2 & Hr & Hl & Hs)].
    simplify_eq. eauto.
  - intros cid rec f seed Hc Hl Hf Hk.
    assert (f ∈ ts) as (i & Hi)%list_elem_of_lookup_1 by (apply Hts, fanout_targets_elem; eauto).
    destruct (Forall2_lookup_l _ _ _ _ _ Hcp Hi) as (o & Ho & Hcopy).
    destruct (copy_for_opens _ _ _ _ _ Hcopy Hk) as (m & m' & tok & H1 & H2 & H3).
    exists o, m, m', tok. split_and!; try done. by eapply list_elem_of_lookup_2.
  - intros o (i & Ho)%list_elem_of_lookup_1. destruct (Forall2_lookup_r _ _ _ _ _ Hcp Ho) as (f & Hf & Hcopy).
    apply list_elem_of_lookup_2, Hts, fanout_targets_elem in Hf as (cid & rec & Hc & Hl & Hf). by exists cid, rec, f.
Qed.

Section JoinFlow.
Context `{Crypto}.

Lemma accept_ok_spec gid nonce rs rc rp s :
  post (accept gid nonce rs rc rp) s (fun r s1 => forall pj, r = Ok pj ->
    join_pending_id pj = rp /\ credential_id (join_cred pj) = rc
    /\ exists g1 rec, groups s1 !! gid = Some g1 /\ g_invites g1 !! nonce = None
         /\ g_creds g1 !! rc = Some rec /\ cred_live rec = false).
Proof.
  unfold accept. apply with_group; [done|]. intros g Hg. apply read_lift; [done|]. intros st _.
  unfold put_group, g_journal. wp. case_cond; wp; [done|]. intros pj <-%Ok_inj. cbn.
  split; [done|]. split; [done|]. do 2 eexists. rewrite !lookup_insert_eq. split; [done|]. cbn.
  rewrite lookup_delete_eq, lookup_insert_eq. done.
Qed.

Lemma accept_absent gid nonce rs rc rp s g :
  groups s !! gid = Some g -> g_invites g !! nonce = None ->
  (accept gid nonce rs rc rp s).2 = Err Denied.
Proof.
  intros Hg Hn. change (post (accept gid nonce rs rc rp) s (fun r _ => r = Err Denied)).
  unfold accept. apply with_group; [done|]. intros g' Hg'. simplify_eq.
  apply read_lift; rewrite Hn; cbn; congruence.
Qed.

(** The pending joins after the expired ones are dropped. *)
Lemma gc_pending_lookup gid s g :
  groups s !! gid = Some g ->
  exists g1, groups (gc_pending gid s).1 !! gid = Some g1 /\ g_creds g1 = g_creds g
    /\ forall pid p, g_pending g1 !! pid = Some p <-> g_pending g !! pid = Some p /\ gh_now s < pending_expires_at p.
Proof.
  intros Hg. eexists. cbn. rewrite lookup_alter_eq, Hg. split; [done|]. cbn. split; [done|].
  intros pid p. apply map_lookup_filter_Some.
Qed.

Lemma host_admit_spec gid cred adm pk f s :
  post (host_admit gid cred adm pk f) s (fun r s1 =>
    r = Err Denied \/ exists g rec mpk vk p rec1 g1,
      r = Ok (credential_id (pending_cred p))
      /\ groups s !! gid = Some g /\ g_creds g !! credential_id cred = Some rec
      /\ cred_live rec = true /\ secret rec = hash_secret (credential_secret cred)
      /\ cred_signing_pk rec = Some mpk /\ vk_from_bytes mpk = Some vk /\ admit_verify adm vk = Ok tt
      /\ admit_group_id adm = group_key gid
      /\ g_pending g !! admit_pending_id adm = Some p /\ gh_now s < pending_expires_at p
      /\ groups s1 !! gid = Some g1 /\ g_pending g1 !! admit_pending_id adm = None
      /\ g_creds g1 = <[credential_id (pending_cred p) := rec1]> (g_creds g)
      /\ cred_live rec1 = true /\ cred_signing_pk rec1 = Some pk /\ cred_fanout rec1 = Some f).
Proof.
  unfold host_admit, g_deny, g_journal, put_group. wp. eapply post_conseq; [apply authorize_live_spec|].
  intros [[]|e] s0 [-> Ha]; [|subst; by left]. destruct Ha as (g & rec & Hg & Hr & Hl & Hsec).
  wp. case_cond; wp; [by left|]. apply negb_false_iff, bool_decide_eq_true in G.
  eapply post_conseq; [apply member_vk_spec|]. intros [vk|e] s0 [-> Hv]; [|subst; by left].
  destruct Hv as (mpk & Hmpk & Hvk). unfold signing_pk in Hmpk. rewrite Hg in Hmpk. cbn in Hmpk.
  rewrite Hr in Hmpk. cbn in Hmpk.
  wp. destruct (admit_verify adm vk) as [[]|e] eqn:Hver; cbn [map_err]; [|by left]. wp.
  destruct (gc_pending_lookup gid s g Hg) as (g1 & Hg1 & Hc1 & Hp1).
  unfold post at 1. set (sg := (gc_pending gid s).1) in *. change (gc_pending gid s).2 with (@Ok ServerError unit tt).
  assert (gh_now sg = gh_now s) as Hnow by done. clearbody sg. cbv iota. wp.
  eapply post_conseq; [apply get_group_spec|]. intros [g2|e] s0 [-> Hg2]; [|destruct Hg2; subst; by left].
  cbn in Hg2. rewrite Hg1 in Hg2. injection Hg2 as <-.
  destruct (g_pending g1 !! admit_pending_id adm) as [p|] eqn:Hp; cbn [ok_or]; [|by left]. wp.
  match goal with |- context [if ?c then _ else _] => destruct c end; wp; [by left|].
  match goal with |- context [ok_or ?o _] => destruct o as [rec0|] end; cbn [ok_or]; wp; [|by left].
  right. apply Hp1 in Hp as [Hp Hexp]. eexists g, rec, mpk, vk, p, _, _. split; [done|].
  do 10 (split; [done|]). cbn. rewrite lookup_insert_eq. split; [done|]. cbn.
  split; [apply lookup_delete_eq|]. split; [by rewrite Hc1 | done].
Qed.

Lemma host_admit_absent gid cred adm pk f s g :
  groups s !! gid = Some g -> g_pending g !! admit_pending_id adm = None ->
  (host_admit gid cred adm pk f s).2 = Err Denied.
Proof.
  intros Hg Hn. destruct (host_admit gid cred adm pk f s) as [s1 r] eqn:Hrun.
  destruct (post_run _ _ _ _ _ (host_admit_spec gid cred adm pk f s) Hrun)
    as [->|(g' & rec & mpk & vk & p & rec1 & g1 & -> & Hg' & _ & _ & _ & _ & _ & _ & _ & Hp & _)]; [done|].
  simplify_eq.
Qed.
End JoinFlow.


(** ** A failed append *)

Section Failed.
Context `{Crypto}.

Lemma fanout_targets_cons g f : f ∈ fanout_targets g -> exists f' ts, fanout_targets g = f' :: ts.
Proof. destruct (fanout_targets g) as [|f' ts]; [by intros ?%elem_of_nil | eauto]. Qed.

Lemma pad_too_long t b : is_attachment t = false -> T3 < 2 + lenN b -> pad t b = Err NoBucket.
Proof.
  intros Ha Hb. unfold pad, buckets. rewrite Ha. unfold TEXT_INNER. cbn [List.find].
  unfold T1, T2, T3 in *.
  repeat match goal with |- context [2 + lenN b <=? ?k] => destruct (N.leb_spec (2 + lenN b) k); [lia|] end.
  done.
Qed.

Lemma fanout_copy_too_long rnd s gid t b g f :
  groups s !! gid = Some g -> f ∈ fanout_targets g -> is_attachment t = false -> T3 < 2 + lenN b ->
  saturating_add (g_bytes g) (lenN b) <= STREAM_MAX_BYTES ->
  post (fanout_copy rnd gid t b) s (fun r s1 => r = Err (Wire NoBucket)
    /\ groups s1 !! gid = Some (with_row t b (gh_now s) g)).
Proof.
  intros Hg Hf Ha Hb Hcap. eapply post_conseq; [apply fanout_copy_spec|].
  destruct (fanout_targets_cons _ _ Hf) as (f' & ts & Hts).
  intros r s1 [(_ & _ & Hx)|(g' & D & Hg' & _ & -> & ->)]; [rewrite Hg in Hx; lia|]. simplify_eq.
  rewrite Hts, seal_copies_no_bucket by (by apply pad_too_long). split; [done | at_group].
Qed.
End Failed.

(** An append that fails while sealing is not undone: a remove bundle that
    fits no padding bucket (an MLS commit beyond 16 KiB), correctly authorised
    and signed, is reported as failed, yet its row stays in the stream under the
    next sequence number and its bytes are counted, while the named member is
    not removed. *)
Theorem failed_remove_keeps_row_and_member `{Crypto} rnd s gid cred b bundle g rec pk vk f :
  groups s !! gid = Some g -> g_creds g !! credential_id cred = Some rec -> cred_live rec = true ->
  secret rec = hash_secret (credential_secret cred) -> cred_signing_pk rec = Some pk ->
  vk_from_bytes pk = Some vk -> cred_fanout rec = Some f ->
  remove_decode b = Ok bundle -> verify_sidecar bundle vk (group_key gid) = Ok tt ->
  T3 < 2 + lenN b -> saturating_add (g_bytes g) (lenN b) <= STREAM_MAX_BYTES ->
  exists s1 g1, append rnd gid cred RemoveBundleType b s = (s1, Err (Wire NoBucket))
    /\ groups s1 !! gid = Some g1
    /\ g_stream g1 = g_stream g ++ [mk_stream_row (g_next_seq g) RemoveBundleType b (gh_now s)]
    /\ g_bytes g1 = saturating_add (g_bytes g) (lenN b)
    /\ g_creds g1 = g_creds g.
Proof.
  intros Hg Hr Hl Hs Hpk Hvk Hf Hdec Hver Hlong Hcap.
  assert (post (append rnd gid cred RemoveBundleType b) s (fun r s1 => r = Err (Wire NoBucket)
    /\ groups s1 !! gid = Some (with_row RemoveBundleType b (gh_now s) g))) as [Hres Hst].
  2:{ exists (append rnd gid cred RemoveBundleType b s).1. eexists. rewrite <- Hres.
      split; [apply surjective_pairing|]. split; [exact Hst | done]. }
  unfold append, authorize_live. wp. rewrite Hg, Hr, Hl, Hs, bool_decide_eq_true_2 by done. cbn [andb]. wp.
  unfold append_remove, g_wire, member_vk. wp. rewrite Hdec. cbn [map_err]. wp.
  replace (signing_pk s gid (credential_id cred)) with (Some pk).
  2:{ unfold signing_pk. rewrite Hg. cbn. by rewrite Hr. }
  cbn [ok_or]. wp. rewrite Hvk. cbn [ok_or]. wp. rewrite Hver. cbn [map_err]. wp.
  eapply post_conseq; [eapply (fanout_copy_too_long _ _ _ _ _ g f); try done|].
  { apply fanout_targets_elem. eauto. }
  intros r s1 [-> Hs1]. done.
Qed.

(** ** Witnesses *)

Section Witness.
#[local] Existing Instances Toy.toy Toy.toy_laws.

Definition sample_gid : GroupId := mk_group_id (arr_repeat 32 x10).
Definition sample_alice : MemberCred := mk_cred (arr_repeat 32 x1a) (arr_repeat 32 x2a).
Definition sample_bob : MemberCred := mk_cred (arr_repeat 32 x1b) (arr_repeat 32 x2b).
Definition sample_alice_key : key := arr_repeat 32 x0a.
Definition sample_alice_vk : VerifyingKey := sample_alice_key.
Definition sample_target (b : byte) : FanoutTarget := mk_fanout (arr_repeat 32 b) (arr_repeat 32 x77).
Definition sample_rnd (i : nat) : key * key := (arr_repeat 32 x61, arr_repeat 32 x62).

Definition sample_invite : GroupInvite :=
  match invite_sign sample_alice_key (group_key sample_gid) (arr_repeat 32 x31) INTRO_TTL_5_MIN None with
  | Ok i => i
  | Err _ => mk_invite (arr_repeat 32 x00) (arr_repeat 32 x00) 0 None None (arr_repeat 64 x00)
  end.

Definition sample_admit : GroupAdmit :=
  match admit_sign sample_alice_key (group_key sample_gid) (arr_repeat 32 x41) with
  | Ok a => a
  | Err _ => mk_admit (arr_repeat 32 x00) (arr_repeat 32 x00) (arr_repeat 64 x00)
  end.

Definition sample_remove (commit : bytes) : bytes :=
  match remove_sign sample_alice_key (group_key sample_gid) (credential_id sample_bob) commit ≫= remove_encode with
  | Ok b => b
  | Err _ => []
  end.

(** Alice creates the group, Bob joins by invite. *)
Definition sample_join : list group_op :=
  [GCreate sample_alice_key (sample_target x3a) None (group_key sample_gid) (arr_repeat 32 x2a) (arr_repeat 32 x1a);
   GInvite sample_gid sample_alice sample_invite;
   GAccept sample_gid (arr_repeat 32 x31) (arr_repeat 32 x2b) (arr_repeat 32 x1b) (arr_repeat 32 x41);
   GAdmit sample_gid sample_alice sample_admit (arr_repeat 32 x0b) (sample_target x3b)].

Definition sample_host : GroupHost := grun sample_join host_new.

Example sample_join_works :
  (lookup_pending sample_gid sample_bob (arr_repeat 32 x41) sample_host).2 = Err Denied
  /\ is_ok (append sample_rnd sample_gid sample_bob MlsApp [x01; x02] sample_host).2 = true.
Proof. vm_compute. done. Qed.

Example group_host_invariant_witness :
  groups_ok (run_draws sample_join) (lenN sample_join) sample_host /\ files_ok sample_host.
Proof.
  unfold sample_host.
  apply (group_host_invariant sample_join); [apply (bool_decide_unpack _); vm_compute; exact I | vm_compute; reflexivity].
Defined.

Example removed_member_stays_out_witness :
  let s2 := (append sample_rnd sample_gid sample_alice RemoveBundleType (sample_remove [x05]) sample_host).1 in
  gexec (GFetch sample_gid sample_bob (arr_repeat 32 x51)) s2 = (s2, Err Denied).
Proof.
  cbv zeta. destruct (append sample_rnd sample_gid sample_alice RemoveBundleType (sample_remove [x05]) sample_host)
    as [s1 [out|e]] eqn:Happ.
  2:{ exfalso. assert (is_ok (append sample_rnd sample_gid sample_alice RemoveBundleType (sample_remove [x05]) sample_host).2 = true)
        as Hok by (vm_compute; reflexivity). by rewrite Happ in Hok. }
  assert (bool_decide (match groups sample_host !! sample_gid with
    | Some g => match g_creds g !! credential_id sample_bob with Some rec => cred_live rec | None => false end
    | None => false end = true) = true) as Hl%bool_decide_eq_true by (vm_compute; reflexivity).
  destruct (groups sample_host !! sample_gid) as [g|] eqn:Hg; [|done].
  destruct (g_creds g !! credential_id sample_bob) as [rec|] eqn:Hr; [|done].
  destruct (remove_decode (sample_remove [x05])) as [bundle|e] eqn:Hd.
  2:{ exfalso. assert (is_ok (remove_decode (sample_remove [x05])) = true) as Hok by (vm_compute; reflexivity).
      by rewrite Hd in Hok. }
  assert (remove_credential_id bundle = credential_id sample_bob) as Hb.
  { assert (match remove_decode (sample_remove [x05]) with
      | Ok bd => bool_decide (remove_credential_id bd = credential_id sample_bob) | Err _ => false end = true) as Hok
      by (vm_compute; reflexivity). rewrite Hd in Hok. by apply bool_decide_eq_true in Hok. }
  refine (proj1 (removed_member_stays_out sample_join [] sample_rnd sample_gid sample_alice (sample_remove [x05]) bundle
    s1 out g _ _ Hd Hg _ Happ) (GFetch sample_gid sample_bob (arr_repeat 32 x51)) _).
  - apply (bool_decide_unpack _). vm_compute. exact I.
  - vm_compute. reflexivity.
  - rewrite Hb. exact (ex_intro _ rec (conj Hr Hl)).
  - rewrite Hb. reflexivity.
Defined.

Definition sample_append : GroupHost * sresult StreamAppend :=
  append sample_rnd sample_gid sample_bob MlsApp [x01; x02] sample_host.

(** The group of the sample host, as a look-up. *)
Lemma sample_group : exists g, groups sample_host !! sample_gid = Some g.
Proof.
  destruct (groups sample_host !! sample_gid) as [g|] eqn:Hg; [exact (ex_intro _ g eq_refl)|]. exfalso.
  assert (bool_decide (groups sample_host !! sample_gid = None) = false) as Hn by (vm_compute; reflexivity).
  rewrite Hg in Hn. discriminate.
Qed.

Example append_reaches_members_witness :
  exists g1 row, groups sample_append.1 !! sample_gid = Some g1 /\ row ∈ g_stream g1 /\ sr_body row = [x01; x02].
Proof.
  destruct sample_append as [s1 [out|e]] eqn:Happ.
  2:{ exfalso. assert (is_ok sample_append.2 = true) as Hok by (vm_compute; reflexivity).
      rewrite Happ in Hok. discriminate. }
  unfold sample_append in Happ. destruct sample_group as [g Hg].
  destruct (append_reaches_members sample_rnd sample_host sample_gid sample_bob MlsApp [x01; x02] s1 out g Hg Happ)
    as (_ & _ & (g1 & Hg1 & Hst) & _).
  exists g1, (mk_stream_row (g_next_seq g) MlsApp [x01; x02] (gh_now sample_host)).
  split; [exact Hg1|]. split; [|reflexivity]. rewrite Hst. apply elem_of_app. right. apply list_elem_of_here.
Defined.

(** The host before Bob is admitted. *)
Definition sample_pending : GroupHost := grun (take 3 sample_join) host_new.


Definition sample_long_remove : bytes := sample_remove (replicate (N.to_nat 16500) x05).

Example failed_remove_keeps_row_and_member_witness :
  exists s1 g g1, groups sample_host !! sample_gid = Some g
    /\ append sample_rnd sample_gid sample_alice RemoveBundleType sample_long_remove sample_host = (s1, Err (Wire NoBucket))
    /\ groups s1 !! sample_gid = Some g1 /\ g_creds g1 = g_creds g.
Proof.
  destruct sample_group as [g Hg].
  assert (match groups sample_host !! sample_gid with
    | Some g => (saturating_add (g_bytes g) (lenN sample_long_remove) <=? STREAM_MAX_BYTES) &&
        match g_creds g !! credential_id sample_alice with
        | Some rec => cred_live rec && bool_decide (secret rec = hash_secret (credential_secret sample_alice))
            && bool_decide (cred_signing_pk rec = Some sample_alice_key)
            && match cred_fanout rec with Some _ => true | None => false end
        | None => false end
    | None => false end = true) as Hc by (vm_compute; reflexivity).
  rewrite Hg in Hc. apply andb_true_iff in Hc as [Hcap%N.leb_le Hc].
  destruct (g_creds g !! credential_id sample_alice) as [rec|] eqn:Hr; [|discriminate].
  destruct (cred_fanout rec) as [f|] eqn:Hf; [|by rewrite andb_false_r in Hc].
  apply andb_true_iff in Hc as [Hc _]. apply andb_true_iff in Hc as [Hc Hpk%bool_decide_eq_true].
  apply andb_true_iff in Hc as [Hl Hs%bool_decide_eq_true].
  assert (match remove_decode sample_long_remove with
    | Ok bd => is_ok (verify_sidecar bd sample_alice_vk (group_key sample_gid)) | Err _ => false end = true) as Hd
    by (vm_compute; reflexivity).
  destruct (remove_decode sample_long_remove) as [bundle|e] eqn:Hdec; [|discriminate].
  destruct (verify_sidecar bundle sample_alice_vk (group_key sample_gid)) as [[]|e] eqn:Hver; [|discriminate].
  destruct (failed_remove_keeps_row_and_member sample_rnd sample_host sample_gid sample_alice sample_long_remove
    bundle g rec sample_alice_key sample_alice_vk f Hg Hr Hl Hs Hpk eq_refl Hf Hdec Hver) as (s1 & g1 & H1 & H2 & _ & _ & H3).
  - vm_compute. reflexivity.
  - exact Hcap.
  - exists s1, g, g1. exact (conj Hg (conj H1 (conj H2 H3))).
Defined.
End Witness.
