(* ===== verification/PgDb.v ===== *)
(** * The database

    The schema of [nemo-server/migrations] as the record [Db], one field per
    table, and the SQL statements [pg.rs] issues as its operations. A table
    with a primary key is a map from the key columns; [prekeys] and [outbound],
    which are read back in the order of a serial column, are lists in that
    order. Columns keep their SQL types: [BYTEA] is a byte list, [BIGINT],
    [INTEGER] and [SMALLINT] are integers, a nullable column is an [option].

    A statement fails with a unique or a foreign-key violation as the schema
    says; a transaction whose statement fails leaves the tables as they were. *)

From S2P Require Export Home Group.


(** ** Casts *)

(** [n as i64] for a [u64]. *)
Definition as_i64 (n : N) : Z :=
  let z := (Z.of_N n mod 2 ^ 64)%Z in if (z <? 2 ^ 63)%Z then z else (z - 2 ^ 64)%Z.

(** [z as u64] for an [i64] and [z as usize] for an [i32]. *)
Definition as_u64 (z : Z) : N := Z.to_N (z mod 2 ^ 64).

(** [n as i32] for a [u64] or [usize]. *)
Definition as_i32 (n : N) : Z :=
  let z := (Z.of_N n mod 2 ^ 32)%Z in if (z <? 2 ^ 31)%Z then z else (z - 2 ^ 32)%Z.

(** [z as u16] for an [i32]. *)
Definition as_u16 (z : Z) : N := Z.to_N (z mod 2 ^ 16).

(** [z as u8] for an [i16]. *)
Definition as_u8 (z : Z) : byte := byte_of_N (Z.to_N (z mod 2 ^ 8)).

Lemma as_u64_i64 n : n <= U64_MAX -> as_u64 (as_i64 n) = n.
Proof.
  intros Hn. unfold U64_MAX in Hn. unfold as_u64, as_i64. rewrite (Z.mod_small (Z.of_N n)) by lia.
  case_cond; [rewrite Z.mod_small by lia; lia|].
  rewrite <- (Z_mod_plus_full _ 1), Z.mod_small by lia. lia.
Qed.

Lemma as_i64_small n : n < 2 ^ 63 -> as_i64 n = Z.of_N n.
Proof. intros Hn. unfold as_i64. rewrite Z.mod_small by lia. case_cond; lia. Qed.

Lemma as_u64_i32 n : n < 2 ^ 31 -> as_u64 (as_i32 n) = n.
Proof.
  intros Hn. unfold as_u64, as_i32. rewrite (Z.mod_small (Z.of_N n)) by lia.
  case_cond; [rewrite Z.mod_small by lia; lia | lia].
Qed.

Lemma as_u16_i32 n : n <= U16_MAX -> as_u16 (as_i32 n) = n.
Proof.
  intros Hn. unfold U16_MAX in Hn. unfold as_u16, as_i32. rewrite (Z.mod_small (Z.of_N n)) by lia.
  case_cond; [rewrite Z.mod_small by lia; lia | lia].
Qed.

Lemma as_u8_to_N b : as_u8 (Z.of_N (Byte.to_N b)) = b.
Proof.
  unfold as_u8. pose proof (to_N_lt b). rewrite Z.mod_small by lia.
  rewrite N2Z.id. apply byte_of_N_to_N.
Qed.

(** ** Rows *)

Record ServerIdentityRow : Type := mk_sid_row {
  sid_hpke_secret : option bytes;
  sid_hpke_public : bytes;
  sid_sign_secret : option bytes;
  sid_sign_public : bytes;
  sid_host : rstring;
  sid_s2s_port : Z
}.

Record IdentityCols : Type := mk_identity_cols {
  c_identity_public_key : bytes;
  c_revocation_public_key : bytes;
  c_binding_cbor : bytes;
  c_binding_seq : Z;
  c_revocation_cbor : option bytes;
  c_mailbox_disabled : bool;
  c_mailbox_next_seq : Z;
  c_mailbox_bytes : Z
}.

Record MailboxCols : Type := mk_mailbox_cols {
  c_received_at : Z;
  c_expires_at : Z;
  c_inner_padded : bytes;
  c_idempotency_token : bytes
}.

Record TokenCols : Type := mk_token_cols {
  c_kind : Z;
  c_mailbox : bytes;
  c_token_expires_at : option Z;
  c_burned : bool;
  c_reserved_prekey : option bytes;
  c_grace_until : option Z;
  c_window_start : option Z;
  c_window_count : Z
}.

Record PeerCols : Type := mk_peer_cols {
  c_bundle_cbor : bytes;
  c_refused : bool;
  c_last_recv_counter : Z;
  c_last_send_counter : Z
}.

Record OutboundCols : Type := mk_outbound_cols {
  c_dest : bytes;
  c_outer_cbor : bytes;
  c_enqueued_at : Z;
  c_next_attempt : Z;
  c_backoff_secs : Z
}.

Record GroupCols : Type := mk_group_cols {
  c_next_seq : Z;
  c_bytes : Z;
  c_creator : option bytes
}.

Record CredCols : Type := mk_cred_cols {
  c_secret : bytes;
  c_live : bool;
  c_signing_pk : option bytes;
  c_fanout_capability : option bytes;
  c_fanout_hpke : option bytes
}.

Record InviteCols : Type := mk_invite_cols {
  c_invite_expires_at : Z;
  c_invite_binding : option bytes;
  c_invite_salt : option bytes
}.

Record PendingCols : Type := mk_pending_cols {
  c_pending_cred_id : bytes;
  c_pending_secret : bytes;
  c_pending_expires_at : Z;
  c_pending_binding : option bytes;
  c_pending_salt : option bytes
}.

Record StreamCols : Type := mk_stream_cols {
  c_type : Z;
  c_body : bytes;
  c_stream_received_at : Z
}.

Record FileCols : Type := mk_file_cols {
  c_file_group : bytes;
  c_owner_cred : bytes;
  c_size_bytes : Z;
  c_file_expires_at : Z;
  c_file_bytes : option bytes
}.

Record Db : Type := mk_db {
  t_server_identity : option ServerIdentityRow;
  t_identities : gmap bytes IdentityCols;
  t_mailbox_rows : gmap (bytes * Z) MailboxCols;
  t_tokens : gmap bytes TokenCols;
  t_prekeys : list (bytes * bytes);
  t_groups : gmap bytes GroupCols;
  t_group_creds : gmap (bytes * bytes) CredCols;
  t_group_invites : gmap (bytes * bytes) InviteCols;
  t_group_pending : gmap (bytes * bytes) PendingCols;
  t_group_stream : gmap (bytes * Z) StreamCols;
  t_group_files : gmap bytes FileCols;
  t_memberships : gset (bytes * bytes);
  t_peers : gmap bytes PeerCols;
  t_outbound : list OutboundCols;
  t_hpke_seen : gmap bytes Z
}.

(** The tables after the migrations. *)
Definition empty_db : Db := mk_db None ∅ ∅ ∅ [] ∅ ∅ ∅ ∅ ∅ ∅ ∅ ∅ [] ∅.

Definition eta_db (d : Db) : Db :=
  mk_db (t_server_identity d) (t_identities d) (t_mailbox_rows d) (t_tokens d) (t_prekeys d)
    (t_groups d) (t_group_creds d) (t_group_invites d) (t_group_pending d) (t_group_stream d)
    (t_group_files d) (t_memberships d) (t_peers d) (t_outbound d) (t_hpke_seen d).

#[global] Instance t_server_identity_field : Field t_server_identity := ltac:(derive_field eta_db t_server_identity).
#[global] Instance t_identities_field : Field t_identities := ltac:(derive_field eta_db t_identities).
#[global] Instance t_mailbox_rows_field : Field t_mailbox_rows := ltac:(derive_field eta_db t_mailbox_rows).
#[global] Instance t_tokens_field : Field t_tokens := ltac:(derive_field eta_db t_tokens).
#[global] Instance t_prekeys_field : Field t_prekeys := ltac:(derive_field eta_db t_prekeys).
#[global] Instance t_groups_field : Field t_groups := ltac:(derive_field eta_db t_groups).
#[global] Instance t_group_creds_field : Field t_group_creds := ltac:(derive_field eta_db t_group_creds).
#[global] Instance t_group_invites_field : Field t_group_invites := ltac:(derive_field eta_db t_group_invites).
#[global] Instance t_group_pending_field : Field t_group_pending := ltac:(derive_field eta_db t_group_pending).
#[global] Instance t_group_stream_field : Field t_group_stream := ltac:(derive_field eta_db t_group_stream).
#[global] Instance t_group_files_field : Field t_group_files := ltac:(derive_field eta_db t_group_files).
#[global] Instance t_memberships_field : Field t_memberships := ltac:(derive_field eta_db t_memberships).
#[global] Instance t_peers_field : Field t_peers := ltac:(derive_field eta_db t_peers).
#[global] Instance t_outbound_field : Field t_outbound := ltac:(derive_field eta_db t_outbound).
#[global] Instance t_hpke_seen_field : Field t_hpke_seen := ltac:(derive_field eta_db t_hpke_seen).

(** ** Errors and statements *)

(** What the database driver reports: a constraint of the schema, or a broken
    connection. *)
Inductive SqlxError : Type := UniqueViolation | ForeignKeyViolation | ConnectionLost.

Inductive IdentityFileError : Type := FileIo | FileCorrupt (what : string).

Inductive PersistError : Type :=
| Sqlx (e : SqlxError)
| Corrupt (what : string)
| Identity (e : IdentityFileError).

Notation presult := (result PersistError).
Notation tx := (stM Db PersistError).

(** [INSERT] of one row under its primary key. *)
Definition insert_key {K V} `{Countable K} (k : K) (v : V) (t : gmap K V) : presult (gmap K V) :=
  match t !! k with
  | Some _ => Err (Sqlx UniqueViolation)
  | None => Ok (<[k := v]> t)
  end.

(** [REFERENCES identities] and [REFERENCES groups]. *)
Definition references_identity (id : bytes) : tx unit :=
  db ← get; lift (ensure (bool_decide (is_Some (t_identities db !! id))) (Sqlx ForeignKeyViolation)).

Definition references_group (gid : bytes) : tx unit :=
  db ← get; lift (ensure (bool_decide (is_Some (t_groups db !! gid))) (Sqlx ForeignKeyViolation)).

(** Whether a row of the mailbox carries the idempotency token: the index
    [mailbox_idempotency]. *)
Definition idempotency_taken (owner tok : bytes) (t : gmap (bytes * Z) MailboxCols) : bool :=
  existsb (fun kv => bool_decide (kv.1.1 = owner) && bool_decide (c_idempotency_token kv.2 = tok))
    (map_to_list t).
