(* ===== verification/Pg.v ===== *)
(** * Write-through persistence

    [nemo-server/src/pg.rs], the writing half: [persist] drains the journals of
    the home server and of the group host and writes what they name in one
    transaction. One definition per function; each runs on the tables. *)

From S2P Require Export PgDb.

(** ** Row encodings *)

Definition encode_binding (b : HomeServerBinding) : bytes := Cbor.encode (binding_to_cbor_value b).

(** [IdentityRow]. *)
Record IdentityRow : Type := mk_identity_row {
  ir_pk : key;
  ir_rev_pk : key;
  ir_binding_cbor : bytes;
  ir_binding_seq : Z;
  ir_revocation_cbor : option bytes;
  ir_disabled : bool;
  ir_next_seq : Z;
  ir_bytes : Z
}.

Definition zero_key : key := arr_repeat 32 x00.

(** [identity_row], from the two map entries it reads. *)
Definition identity_row_of (dir : option DirectoryRow) (box : option Mailbox) : IdentityRow :=
  mk_identity_row
    (match dir, box with
     | Some d, _ => dir_identity_public_key d
     | None, Some b => owner_pk b
     | None, None => zero_key
     end)
    (match dir with Some d => dir_revocation_public_key d | None => zero_key end)
    (match dir with Some d => encode_binding (dir_binding d) | None => [] end)
    (match dir with Some d => as_i64 (binding_seq d) | None => 0%Z end)
    (d ← dir; revocation_encode <$> dir_revocation d)
    (match box with Some b => disabled b | None => false end)
    (match box with Some b => as_i64 (next_seq b) | None => 0%Z end)
    (match box with Some b => as_i64 (box_bytes b) | None => 0%Z end).

(** The bound columns of an [IdentityRow]. *)
Definition identity_cols (r : IdentityRow) : IdentityCols :=
  mk_identity_cols (to_vec (ir_pk r)) (to_vec (ir_rev_pk r)) (ir_binding_cbor r) (ir_binding_seq r)
    (ir_revocation_cbor r) (ir_disabled r) (ir_next_seq r) (ir_bytes r).

(** The columns of one mailbox row. *)
Definition mailbox_cols (r : StoredEnvelope) : presult MailboxCols :=
  padded ← map_err (fun _ => Corrupt "inner encode") (encode_padded (row_inner r));
  Ok (mk_mailbox_cols (as_i64 (received_at r)) (as_i64 (row_expires_at r)) padded
        (to_vec (idempotency_token (row_inner r)))).

(** The columns [upsert_token] inserts. *)
Definition token_cols (kind : TokenKind) : TokenCols :=
  match kind with
  | Share mb ex burned reserved =>
      mk_token_cols 1 (to_vec mb) (Some (as_i64 ex)) burned reserved None None 0
  | Contact mb grace ws wc =>
      mk_token_cols 2 (to_vec mb) None false None (as_i64 <$> grace) (Some (as_i64 ws)) (as_i32 wc)
  end.

(** [ON CONFLICT (token) DO UPDATE]: the columns of the other kind, and the kind
    itself, stay as they are. *)
Definition token_conflict (old : TokenCols) (kind : TokenKind) : TokenCols :=
  match kind with
  | Share mb ex burned reserved =>
      mk_token_cols (c_kind old) (to_vec mb) (Some (as_i64 ex)) burned reserved
        (c_grace_until old) (c_window_start old) (c_window_count old)
  | Contact mb grace ws wc =>
      mk_token_cols (c_kind old) (to_vec mb) (c_token_expires_at old) (c_burned old)
        (c_reserved_prekey old) (as_i64 <$> grace) (Some (as_i64 ws)) (as_i32 wc)
  end.

Definition outbound_cols (r : OutboundRow) : OutboundCols :=
  mk_outbound_cols (to_vec (dest r)) (encode_outer (outer r)) (as_i64 (enqueued_at r))
    (as_i64 (next_attempt r)) (as_i64 (backoff_secs r)).

Definition peer_cols (p : PeerState) : PeerCols :=
  mk_peer_cols (bundle_encode (peer_bundle p)) (refused p) (as_i64 (last_rx p)) (as_i64 (next_tx p)).

Definition group_cols (g : GroupState) : GroupCols :=
  mk_group_cols (as_i64 (g_next_seq g)) (as_i64 (g_bytes g)) (to_vec <$> g_creator g).

Definition cred_cols (c : CredRecord) : CredCols :=
  mk_cred_cols (to_vec (secret c)) (cred_live c) (to_vec <$> cred_signing_pk c)
    (to_vec ∘ target_capability <$> cred_fanout c) (to_vec ∘ home_hpke_public <$> cred_fanout c).

Definition invite_cols (i : StoredInvite) : InviteCols :=
  mk_invite_cols (as_i64 (si_expires_at i)) (to_vec <$> si_invitee_binding i) (to_vec <$> si_salt i).

Definition pending_cols (p : PendingRecord) : PendingCols :=
  mk_pending_cols (to_vec (credential_id (pending_cred p))) (to_vec (credential_secret (pending_cred p)))
    (as_i64 (pending_expires_at p)) (to_vec <$> pending_invitee_binding p) (to_vec <$> pending_salt p).

Definition stream_cols (r : StreamRow) : StreamCols :=
  mk_stream_cols (Z.of_N (Byte.to_N (type_byte (sr_type r)))) (sr_body r) (as_i64 (sr_received_at r)).

Definition file_cols (f : FileSlot) : FileCols :=
  mk_file_cols (to_vec (group_key (slot_group_id f))) (to_vec (slot_owner f)) (as_i32 (slot_size f))
    (as_i64 (slot_expires_at f)) (slot_bytes f).

(** ** Statements on the home server's tables *)

Section Persist.
Context `{Crypto}.

Definition identity_row (h : HomeServer) (id : key) : IdentityRow :=
  identity_row_of (directory h !! id) (mailboxes h !! id).

Definition server_identity_row (h : HomeServer) : ServerIdentityRow :=
  mk_sid_row None (to_vec (Hpke.public (hpke h))) None (to_vec (vk_to_bytes (verifying_key (sign_key h))))
    (bundle_host (bundle h)) (as_i32 (s2s_port (bundle h))).

Definition upsert_server_identity (h : HomeServer) : tx unit :=
  modify (fun db => db <| t_server_identity := Some (server_identity_row h) |>).

Definition upsert_identity (h : HomeServer) (id : key) : tx unit :=
  modify (fun db => db <| t_identities ::= <[to_vec id := identity_cols (identity_row h id)]> |>).

Definition delete_mailbox_all (owner : key) : tx unit :=
  modify (fun db => db <| t_mailbox_rows ::= filter (fun kv => kv.1.1 <> to_vec owner) |>).

Definition delete_mailbox_exact (owner : key) (sq : N) : tx unit :=
  modify (fun db => db <| t_mailbox_rows ::= delete (to_vec owner, as_i64 sq) |>).

Definition delete_mailbox_acked (owner : key) (upto : N) : tx unit :=
  modify (fun db => db <| t_mailbox_rows ::=
    filter (fun kv => ~ (kv.1.1 = to_vec owner /\ (kv.1.2 <= as_i64 upto)%Z)) |>).

(** One row of the [INSERT INTO mailbox_rows]. *)
Definition insert_mailbox_row (owner : bytes) (sq : Z) (cols : MailboxCols) : tx unit :=
  db ← get;
  lift (ensure (negb (idempotency_taken owner (c_idempotency_token cols) (t_mailbox_rows db)))
          (Sqlx UniqueViolation));;
  t ← lift (insert_key (owner, sq) cols (t_mailbox_rows db));
  references_identity owner;;
  modify (fun db => db <| t_mailbox_rows := t |>).

(** The live row a journal entry names. *)
Definition live_row (h : HomeServer) (owner : key) (sq : N) : option StoredEnvelope :=
  box ← mailboxes h !! owner; bt_get sq (rows box).

(** The loop that resolves the journal against live memory. *)
Fixpoint mailbox_values (h : HomeServer) (new_rows : list (key * N))
    : presult (list (bytes * Z * MailboxCols)) :=
  match new_rows with
  | [] => Ok []
  | (owner, sq) :: new_rows =>
      match live_row h owner sq with
      | Some row =>
          cols ← mailbox_cols row;
          vals ← mailbox_values h new_rows;
          Ok ((to_vec owner, as_i64 (row_seq row), cols) :: vals)
      | None => mailbox_values h new_rows
      end
  end.

Definition insert_mailbox_rows (h : HomeServer) (new_rows : list (key * N)) : tx unit :=
  vals ← lift (mailbox_values h new_rows);
  for_each vals (fun '(owner, sq, cols) => insert_mailbox_row owner sq cols).

Definition delete_tokens_owner (owner : key) : tx unit :=
  modify (fun db => db <| t_tokens ::= filter (fun kv => c_mailbox kv.2 <> to_vec owner) |>).

Definition delete_token_exact (token : key) : tx unit :=
  modify (fun db => db <| t_tokens ::= delete (to_vec token) |>).

(** [tokens.iter().find(..)]: the first entry with the token. *)
Definition first_token (token : key) (l : list (key * TokenKind)) : option TokenKind :=
  snd <$> List.find (fun kv => bool_decide (kv.1 = token)) l.

Definition upsert_token (h : HomeServer) (token : key) : tx unit :=
  match first_token token (tokens h) with
  | None => mret tt
  | Some kind =>
      references_identity (to_vec (token_mailbox kind));;
      modify (fun db => db <| t_tokens ::= fun t =>
        <[to_vec token := match t !! to_vec token with
                          | Some old => token_conflict old kind
                          | None => token_cols kind
                          end]> t |>)
  end.

Definition rewrite_prekeys (h : HomeServer) (owner : key) : tx unit :=
  modify (fun db => db <| t_prekeys ::= List.filter (fun r => negb (bool_decide (r.1 = to_vec owner))) |>);;
  match prekeys h !! owner with
  | None => mret tt
  | Some [] => mret tt
  | Some queue =>
      references_identity (to_vec owner);;
      modify (fun db => db <| t_prekeys ::= fun l => l ++ map (pair (to_vec owner)) queue |>)
  end.

(** One row of the [INSERT INTO memberships]. *)
Definition insert_membership (owner gid : bytes) : tx unit :=
  db ← get;
  lift (ensure (negb (bool_decide ((owner, gid) ∈ t_memberships db))) (Sqlx UniqueViolation));;
  references_identity owner;;
  modify (fun db => db <| t_memberships ::= union {[(owner, gid)]} |>).

Definition rewrite_memberships (h : HomeServer) (owner : key) : tx unit :=
  modify (fun db => db <| t_memberships ::= filter (fun r => r.1 <> to_vec owner) |>);;
  for_each (default [] (memberships h !! owner))
    (fun gid => insert_membership (to_vec owner) (to_vec (group_key gid))).

Definition upsert_peer (h : HomeServer) (peer : key) : tx unit :=
  match peers h !! peer with
  | None => mret tt
  | Some p => modify (fun db => db <| t_peers ::= <[to_vec peer := peer_cols p]> |>)
  end.

Definition rewrite_outbound (h : HomeServer) : tx unit :=
  modify (fun db => db <| t_outbound := map outbound_cols (outbound h) |>).

(** One row of the [INSERT INTO hpke_seen]. *)
Definition insert_seen (enc : bytes) (sq : Z) : tx unit :=
  db ← get;
  t ← lift (insert_key enc sq (t_hpke_seen db));
  modify (fun db => db <| t_hpke_seen := t |>).

Definition insert_seen_new (h : HomeServer) (new_encs : list key) : tx unit :=
  for_each (omap (fun enc => (fun sq => (enc, sq)) <$> seen_enc h !! enc) new_encs)
    (fun '(enc, sq) => insert_seen (to_vec enc) (as_i64 sq)).

Definition rewrite_seen (h : HomeServer) : tx unit :=
  modify (fun db => db <| t_hpke_seen := ∅ |>);;
  for_each (map_to_list (seen_enc h)) (fun '(enc, sq) => insert_seen (to_vec enc) (as_i64 sq)).

(** ** Statements on the group host's tables *)

Definition gid_vec (gid : GroupId) : bytes := to_vec (group_key gid).

Definition upsert_group (gs : GroupHost) (gid : GroupId) : tx unit :=
  match groups gs !! gid with
  | None => mret tt
  | Some g => modify (fun db => db <| t_groups ::= <[gid_vec gid := group_cols g]> |>)
  end.

Definition upsert_cred (gs : GroupHost) (gid : GroupId) (cid : key) : tx unit :=
  match groups gs !! gid ≫= (fun g => g_creds g !! cid) with
  | None => mret tt
  | Some rec =>
      references_group (gid_vec gid);;
      modify (fun db => db <| t_group_creds ::= <[(gid_vec gid, to_vec cid) := cred_cols rec]> |>)
  end.

(** One row of the [INSERT INTO group_invites]. *)
Definition insert_invite (gid nonce : bytes) (cols : InviteCols) : tx unit :=
  db ← get;
  t ← lift (insert_key (gid, nonce) cols (t_group_invites db));
  references_group gid;;
  modify (fun db => db <| t_group_invites := t |>).

Definition rewrite_invites (gs : GroupHost) (gid : GroupId) : tx unit :=
  modify (fun db => db <| t_group_invites ::= filter (fun kv => kv.1.1 <> gid_vec gid) |>);;
  match groups gs !! gid with
  | None => mret tt
  | Some g => for_each (map_to_list (g_invites g))
                (fun '(nonce, inv) => insert_invite (gid_vec gid) (to_vec nonce) (invite_cols inv))
  end.

(** One row of the [INSERT INTO group_pending]. *)
Definition insert_pending (gid pid : bytes) (cols : PendingCols) : tx unit :=
  db ← get;
  t ← lift (insert_key (gid, pid) cols (t_group_pending db));
  references_group gid;;
  modify (fun db => db <| t_group_pending := t |>).

Definition rewrite_pending (gs : GroupHost) (gid : GroupId) : tx unit :=
  modify (fun db => db <| t_group_pending ::= filter (fun kv => kv.1.1 <> gid_vec gid) |>);;
  match groups gs !! gid with
  | None => mret tt
  | Some g => for_each (map_to_list (g_pending g))
                (fun '(pid, p) => insert_pending (gid_vec gid) (to_vec pid) (pending_cols p))
  end.

(** The live stream row a journal entry names. *)
Definition live_stream_row (gs : GroupHost) (gid : GroupId) (sq : N) : option StreamRow :=
  g ← groups gs !! gid; List.find (fun r => sr_seq r =? sq) (g_stream g).

(** One row of the [INSERT INTO group_stream]. *)
Definition insert_stream_row (gid : bytes) (sq : Z) (cols : StreamCols) : tx unit :=
  db ← get;
  t ← lift (insert_key (gid, sq) cols (t_group_stream db));
  references_group gid;;
  modify (fun db => db <| t_group_stream := t |>).

Definition insert_stream_new (gs : GroupHost) (new_rows : list (GroupId * N)) : tx unit :=
  for_each (omap (fun '(gid, sq) => pair gid <$> live_stream_row gs gid sq) new_rows)
    (fun '(gid, row) => insert_stream_row (gid_vec gid) (as_i64 (sr_seq row)) (stream_cols row)).

Definition upsert_file (gs : GroupHost) (token : key) : tx unit :=
  match files gs !! token with
  | None => mret tt
  | Some slot =>
      references_group (gid_vec (slot_group_id slot));;
      modify (fun db => db <| t_group_files ::= <[to_vec token := file_cols slot]> |>)
  end.

(** ** The transaction *)

(** The home server's part of [persist_inner]. *)
Definition persist_home (h : HomeServer) (hd : HomeDirty) : tx unit :=
  when (d_server_identity hd) (upsert_server_identity h);;
  for_each (elements (d_identities hd)) (upsert_identity h);;
  for_each (elements (d_mailbox_cleared hd)) delete_mailbox_all;;
  for_each (d_mailbox_dropped hd) (fun '(owner, sq) => delete_mailbox_exact owner sq);;
  for_each (map_to_list (d_mailbox_acked hd)) (fun '(owner, upto) => delete_mailbox_acked owner upto);;
  insert_mailbox_rows h (d_mailbox_new hd);;
  for_each (elements (d_tokens_dropped hd)) delete_tokens_owner;;
  for_each (elements (d_tokens_dropped_exact hd)) delete_token_exact;;
  for_each (elements (d_tokens hd)) (upsert_token h);;
  for_each (elements (d_prekeys hd)) (rewrite_prekeys h);;
  for_each (elements (d_memberships hd)) (rewrite_memberships h);;
  for_each (elements (d_peers hd)) (upsert_peer h);;
  when (d_outbound_dirty hd) (rewrite_outbound h);;
  if d_seen_enc_cleared hd then rewrite_seen h else insert_seen_new h (d_seen_enc_new hd).

(** The group host's part of [persist_inner]. *)
Definition persist_groups (gs : GroupHost) (gd : GroupDirty) : tx unit :=
  for_each (elements (gd_groups gd)) (upsert_group gs);;
  for_each (elements (gd_creds gd)) (fun '(gid, cid) => upsert_cred gs gid cid);;
  for_each (elements (gd_invites gd)) (rewrite_invites gs);;
  for_each (elements (gd_pending gd)) (rewrite_pending gs);;
  insert_stream_new gs (gd_stream_new gd);;
  for_each (elements (gd_files gd)) (upsert_file gs).

(** What the connection does to a transaction: nothing, break before the commit
    takes effect, or break after it, so that the caller sees an error although
    the tables have changed. *)
Inductive Link : Type := LinkUp | LinkDown | AckLost.

Definition persist_inner (link : Link) (h : HomeServer) (gs : GroupHost) (hd : HomeDirty)
    (gd : GroupDirty) : tx unit := fun db =>
  match (persist_home h hd;; persist_groups gs gd) db with
  | (_, Err e) => (db, Err e)
  | (db', Ok _) =>
      match link with
      | LinkUp => (db', Ok tt)
      | LinkDown => (db, Err (Sqlx ConnectionLost))
      | AckLost => (db', Err (Sqlx ConnectionLost))
      end
  end.

(** [persist]: the state is the database and the two components. *)
Definition persist (link : Link) : stM (Db * HomeServer * GroupHost) PersistError unit :=
  fun '(db, h, gs) =>
    if is_clean (dirty h) && g_is_clean (gdirty gs) then ((db, h, gs), Ok tt)
    else
      let hd := dirty h in
      let gd := gdirty gs in
      let h := h <| dirty := clean_dirty |> in
      let gs := gs <| gdirty := clean_gdirty |> in
      let '(db, res) := persist_inner link h gs hd gd db in
      match res with
      | Ok _ => ((db, h, gs), Ok tt)
      | Err e => ((db, h <| dirty ::= fun d => absorb d hd |>, gs <| gdirty ::= fun d => g_absorb d gd |>), Err e)
      end.
End Persist.
