(* ===== verification/PgLoad.v ===== *)
(** * Reading the tables back

    [nemo-server/src/pg.rs], the reading half: [load_keys] rebuilds both
    components table by table, [load_or_init] is the start of the process; and
    the identity file of [nemo-server/src/identity.rs], which holds the secrets
    the tables do not. *)

From stdpp Require Import sorting.
From S2P Require Export Pg.

Section Rows.
Context `{Crypto}.

(** [for row in rows { .. }] with the question-mark operator in the body. *)
Fixpoint fold_rows {S R} (body : S -> R -> presult S) (s : S) (l : list R) : presult S :=
  match l with
  | [] => Ok s
  | r :: l => s ← body s r; fold_rows body s l
  end.

(** [ids::copy_fixed] with the error of the row. *)
Definition key32 (b : bytes) : presult key := map_err (fun _ => Corrupt "key length") (copy_fixed 32 b).

Definition opt_key (b : option bytes) : presult (option key) :=
  match b with
  | Some [] | None => Ok None
  | Some b => k ← key32 b; Ok (Some k)
  end.

Definition decode_binding (b : bytes) : presult HomeServerBinding :=
  v ← map_err (fun _ => Corrupt "binding cbor") (Cbor.decode b);
  map_err (fun _ => Corrupt "binding") (binding_from_cbor_value v).

(** ** The home server's tables *)

(** The directory entry of an identity row: none without a binding. *)
Definition load_directory (pk rev_pk : key) (r : IdentityCols) : presult (option DirectoryRow) :=
  match c_binding_cbor r with
  | [] => Ok None
  | cbor =>
      b ← decode_binding cbor;
      rev ← match c_revocation_cbor r with
            | Some [] | None => Ok None
            | Some l => st ← map_err (fun _ => Corrupt "revocation") (revocation_decode l); Ok (Some st)
            end;
      Ok (Some (mk_directory pk rev_pk b (as_u64 (c_binding_seq r)) rev))
  end.

Definition load_identity (h : HomeServer) (row : bytes * IdentityCols) : presult HomeServer :=
  let r := row.2 in
  id ← key32 row.1;
  pk ← key32 (c_identity_public_key r);
  rev_pk ← key32 (c_revocation_public_key r);
  let h := if (0 <? c_mailbox_next_seq r)%Z
           then h <| mailboxes ::= <[id := mk_mailbox pk (as_u64 (c_mailbox_next_seq r)) [] ∅
                                             (as_u64 (c_mailbox_bytes r)) (c_mailbox_disabled r)]> |>
           else h in
  d ← load_directory pk rev_pk r;
  Ok (match d with Some d => h <| directory ::= <[id := d]> |> | None => h end).

Definition load_mailbox_row (h : HomeServer) (row : bytes * Z * MailboxCols) : presult HomeServer :=
  let '(owner, sq, r) := row in
  id ← key32 owner;
  inner ← map_err (fun _ => Corrupt "inner") (decode_padded (c_inner_padded r));
  let stored := mk_stored (as_u64 sq) (as_u64 (c_received_at r)) (as_u64 (c_expires_at r)) inner in
  Ok (h <| mailboxes ::= alter (fun box =>
        box <| idempotency ::= <[idempotency_token inner := row_seq stored]> |>
            <| rows ::= bt_insert (row_seq stored) stored |>) id |>).

Definition load_token (h : HomeServer) (row : bytes * TokenCols) : presult HomeServer :=
  let r := row.2 in
  token ← key32 row.1;
  mailbox ← key32 (c_mailbox r);
  kind ← (if (c_kind r =? 1)%Z then
            Ok (Share mailbox (as_u64 (default 0%Z (c_token_expires_at r))) (c_burned r) (c_reserved_prekey r))
          else if (c_kind r =? 2)%Z then
            Ok (Contact mailbox (as_u64 <$> c_grace_until r) (as_u64 (default 0%Z (c_window_start r)))
                  (as_u64 (c_window_count r)))
          else Err (Corrupt "token kind"));
  Ok (h <| tokens ::= fun l => l ++ [(token, kind)] |>).

Definition load_prekey (h : HomeServer) (row : bytes * bytes) : presult HomeServer :=
  id ← key32 row.1;
  Ok (h <| prekeys ::= fun p => <[id := default [] (p !! id) ++ [row.2]]> p |>).

Definition load_membership (h : HomeServer) (row : bytes * bytes) : presult HomeServer :=
  id ← key32 row.1;
  gid ← key32 row.2;
  Ok (h <| memberships ::= fun m => <[id := default [] (m !! id) ++ [mk_group_id gid]]> m |>).

Definition load_peer (h : HomeServer) (row : bytes * PeerCols) : presult HomeServer :=
  let r := row.2 in
  sid ← key32 row.1;
  b ← map_err (fun _ => Corrupt "peer bundle") (bundle_decode (c_bundle_cbor r));
  Ok (h <| peers ::= <[sid := peer_restore b (c_refused r) (as_u64 (c_last_recv_counter r))
                                (as_u64 (c_last_send_counter r))]> |>).

Definition load_outbound (h : HomeServer) (r : OutboundCols) : presult HomeServer :=
  d ← key32 (c_dest r);
  o ← map_err (fun _ => Corrupt "outer") (decode_outer (c_outer_cbor r));
  Ok (h <| outbound ::= fun l => l ++ [mk_outbound d o (as_u64 (c_enqueued_at r))
                                         (as_u64 (c_next_attempt r)) (as_u64 (c_backoff_secs r))] |>).

Definition load_seen (h : HomeServer) (row : bytes * Z) : presult HomeServer :=
  enc ← key32 row.1;
  Ok (h <| seen_enc ::= <[enc := as_u64 row.2]> |>).

(** ** The group host's tables *)

Definition load_group (gs : GroupHost) (row : bytes * GroupCols) : presult GroupHost :=
  let r := row.2 in
  gid ← key32 row.1;
  creator ← opt_key (c_creator r);
  Ok (gs <| groups ::= <[mk_group_id gid :=
        mk_group (as_u64 (c_next_seq r)) ∅ ∅ ∅ (as_u64 (c_bytes r)) [] creator]> |>).

Definition load_cred (gs : GroupHost) (row : bytes * bytes * CredCols) : presult GroupHost :=
  let '(gid, cid, r) := row in
  gid ← key32 gid;
  cid ← key32 cid;
  sec ← key32 (c_secret r);
  spk ← opt_key (c_signing_pk r);
  cap ← opt_key (c_fanout_capability r);
  hp ← opt_key (c_fanout_hpke r);
  let fanout := match cap, hp with
                | Some cap, Some hp => Some (mk_fanout cap hp)
                | _, _ => None
                end in
  Ok (gs <| groups ::= alter (fun g =>
        g <| g_creds ::= <[cid := mk_cred_record sec (c_live r) spk fanout]> |>) (mk_group_id gid) |>).

Definition load_invite (gs : GroupHost) (row : bytes * bytes * InviteCols) : presult GroupHost :=
  let '(gid, nonce, r) := row in
  gid ← key32 gid;
  nonce ← key32 nonce;
  match groups gs !! mk_group_id gid with
  | None => Ok gs
  | Some g =>
      bind ← opt_key (c_invite_binding r);
      salt ← opt_key (c_invite_salt r);
      Ok (gs <| groups ::= <[mk_group_id gid :=
            g <| g_invites ::= <[nonce := mk_stored_invite (as_u64 (c_invite_expires_at r)) bind salt]> |>]> |>)
  end.

Definition load_pending (gs : GroupHost) (row : bytes * bytes * PendingCols) : presult GroupHost :=
  let '(gid, pid, r) := row in
  gid ← key32 gid;
  pid ← key32 pid;
  match groups gs !! mk_group_id gid with
  | None => Ok gs
  | Some g =>
      cid ← key32 (c_pending_cred_id r);
      sec ← key32 (c_pending_secret r);
      bind ← opt_key (c_pending_binding r);
      salt ← opt_key (c_pending_salt r);
      Ok (gs <| groups ::= <[mk_group_id gid :=
            g <| g_pending ::= <[pid := mk_pending (mk_cred cid sec) (as_u64 (c_pending_expires_at r))
                                          bind salt]> |>]> |>)
  end.

Definition load_stream_row (gs : GroupHost) (row : bytes * Z * StreamCols) : presult GroupHost :=
  let '(gid, sq, r) := row in
  gid ← key32 gid;
  t ← map_err (fun _ => Corrupt "stream type") (type_from_u8 (as_u8 (c_type r)));
  Ok (gs <| groups ::= alter (fun g =>
        g <| g_stream ::= fun l => l ++ [mk_stream_row (as_u64 sq) t (c_body r)
                                           (as_u64 (c_stream_received_at r))] |>) (mk_group_id gid) |>).

Definition load_file (gs : GroupHost) (row : bytes * FileCols) : presult GroupHost :=
  let r := row.2 in
  token ← key32 row.1;
  gid ← key32 (c_file_group r);
  owner ← key32 (c_owner_cred r);
  Ok (gs <| files ::= <[token := mk_slot (mk_group_id gid) owner (as_u64 (c_size_bytes r))
                                   (as_u64 (c_file_expires_at r)) (c_file_bytes r)]> |>).

(** ** Orders *)

(** [ORDER BY id, seq]. *)
Definition row_le {V} (a b : bytes * Z * V) : Prop :=
  match bytes_compare a.1.1 b.1.1 with
  | Lt => True
  | Eq => (a.1.2 <= b.1.2)%Z
  | Gt => False
  end.

#[global] Instance row_le_dec {V} : RelDecision (@row_le V).
Proof. intros a b. unfold row_le. destruct (bytes_compare _ _); apply _. Defined.

Definition select_ordered {V} (t : gmap (bytes * Z) V) : list (bytes * Z * V) :=
  merge_sort row_le (map_to_list t).

(** ** The whole database *)

Notation keys := (Hpke.HpkeKeypair * SigningKey)%type.

(** The keys of the process: the file's when there is one, else the row's. Both
    secret columns are checked for presence before either is parsed. *)
Definition load_secrets (ident : ServerIdentityRow) (file : option keys) : presult keys :=
  match file with
  | Some (hp, sk) =>
      if bool_decide (to_vec (Hpke.public hp) = sid_hpke_public ident) then Ok (hp, sk)
      else Err (Corrupt "identity file hpke does not match row")
  | None =>
      match sid_hpke_secret ident, sid_sign_secret ident with
      | Some (_ :: _ as sec), Some (_ :: _ as sg) =>
          pub ← key32 (sid_hpke_public ident);
          sec ← key32 sec;
          sg ← key32 sg;
          Ok (Hpke.mk_keypair pub sec, sk_from_bytes sg)
      | _, _ => Err (Corrupt "server identity secrets missing")
      end
  end.

(** The home server's tables, in the order [load_keys] reads them. *)
Definition load_home (db : Db) (h : HomeServer) : presult HomeServer :=
  h ← fold_rows load_identity h (map_to_list (t_identities db));
  h ← fold_rows load_mailbox_row h (select_ordered (t_mailbox_rows db));
  h ← fold_rows load_token h (map_to_list (t_tokens db));
  h ← fold_rows load_prekey h (t_prekeys db);
  fold_rows load_membership h (elements (t_memberships db)).

(** The tables read after the group host's. *)
Definition load_links (db : Db) (h : HomeServer) : presult HomeServer :=
  h ← fold_rows load_peer h (map_to_list (t_peers db));
  h ← fold_rows load_outbound h (t_outbound db);
  fold_rows load_seen h (map_to_list (t_hpke_seen db)).

Definition load_host (db : Db) (gs : GroupHost) : presult GroupHost :=
  gs ← fold_rows load_group gs (map_to_list (t_groups db));
  gs ← fold_rows load_cred gs (map_to_list (t_group_creds db));
  gs ← fold_rows load_invite gs (map_to_list (t_group_invites db));
  gs ← fold_rows load_pending gs (map_to_list (t_group_pending db));
  gs ← fold_rows load_stream_row gs (select_ordered (t_group_stream db));
  fold_rows load_file gs (map_to_list (t_group_files db)).

(** [load_keys]; the [expect] of [from_identity] is the error of a bundle that
    cannot be signed, which no host string produces. *)
Definition load_keys (file : option keys) (db : Db) : presult (option (HomeServer * GroupHost)) :=
  match t_server_identity db with
  | None => Ok None
  | Some ident =>
      '(hp, sk) ← load_secrets ident file;
      h ← map_err (fun _ => Corrupt "stored bundle")
            (from_identity hp sk (sid_host ident) (as_u16 (sid_s2s_port ident)));
      h ← load_home db h;
      gs ← load_host db host_new;
      h ← load_links db h;
      Ok (Some (h, gs))
  end.

(** [load]. *)
Definition load (db : Db) : presult (option (HomeServer * GroupHost)) := load_keys None db.

(** ** The identity file *)

(** What a read of the path finds. *)
Inductive KeyFile : Type := FileMissing | FileUnreadable | FileContents (l : bytes).

(** [identity::save]: the contents the rename puts in place. *)
Definition identity_encode (hp : Hpke.HpkeKeypair) (sk : SigningKey) : bytes :=
  Cbor.encode (Map [(0, Bytes (to_vec (Hpke.secret hp))); (1, Bytes (to_vec (Hpke.public hp)));
                 (2, Bytes (to_vec (sk_to_bytes sk)));
                 (3, Bytes (to_vec (vk_to_bytes (verifying_key sk))))]).

(** The closure [read] of [identity::load]. *)
Definition identity_field (m : list (N * Value)) (k : N) : result IdentityFileError key :=
  v ← map_err (fun _ => FileCorrupt "field") (map_get m k);
  b ← map_err (fun _ => FileCorrupt "bytes") (expect_bytes v);
  map_err (fun _ => FileCorrupt "len") (copy_fixed 32 b).

(** [identity::load] on the bytes of the file. *)
Definition identity_decode (l : bytes) : result IdentityFileError keys :=
  v ← map_err (fun _ => FileCorrupt "cbor") (Cbor.decode l);
  match v with
  | Map m =>
      sec ← identity_field m 0;
      pub ← identity_field m 1;
      sg ← identity_field m 2;
      let sk := sk_from_bytes sg in
      vk ← identity_field m 3;
      if bool_decide (vk_to_bytes (verifying_key sk) = vk) then Ok (Hpke.mk_keypair pub sec, sk)
      else Err (FileCorrupt "sign mismatch")
  | _ => Err (FileCorrupt "map")
  end.

(** ** Start-up *)

(** What [load_or_init] works on: the database and the identity file. *)
Notation boot := (stM (Db * KeyFile) PersistError).

(** [identity::load(path)] with a missing file told apart. *)
Definition read_keys : boot (option keys) :=
  st ← get;
  match st.2 with
  | FileMissing => mret None
  | FileUnreadable => throw (Identity FileIo)
  | FileContents l => k ← lift (map_err Identity (identity_decode l)); mret (Some k)
  end.

(** [identity::save(path, ..)]; [ok] is the outcome of the file operations. *)
Definition save_keys (ok : bool) (k : keys) : boot unit :=
  if ok then modify (fun st => (st.1, FileContents (identity_encode k.1 k.2)))
  else throw (Identity FileIo).

(** [persist(pool, &mut home, &mut groups).await?]. *)
Definition boot_persist (link : Link) (hg : HomeServer * GroupHost) : boot (HomeServer * GroupHost) :=
  fun '(db, f) =>
    let '(st, r) := persist link (db, hg.1, hg.2) in
    ((st.1.1, f), match r with Ok _ => Ok (st.1.2, st.2) | Err e => Err e end).

(** The conditional [rebind_host] followed by its [persist]. *)
Definition boot_rebind (link : Link) (h : rstring) (port : N) (hg : HomeServer * GroupHost)
    : boot (HomeServer * GroupHost) :=
  if negb (bool_decide (bundle_host (bundle hg.1) = h)) || negb (s2s_port (bundle hg.1) =? port) then
    let '(home, r) := rebind_host h port hg.1 in
    lift (map_err (fun _ => Corrupt "rebind bundle") r);;
    boot_persist link (home, hg.2)
  else mret hg.

(** [load_or_init]; [seed] and [sk] are the keys drawn when neither the file nor
    the row has any, the two links are those of the two possible [persist]s. *)
Definition load_or_init (save_ok : bool) (link1 link2 : Link) (h : rstring) (port : N)
    (seed : key) (sk : SigningKey) : boot (HomeServer * GroupHost) :=
  file ← read_keys;
  st ← get;
  loaded ← lift (load_keys file st.1);
  match loaded with
  | Some (home, gs) =>
      hg ← match file with
           | Some _ => mret (home, gs)
           | None =>
               save_keys save_ok (hpke home, sign_key home);;
               boot_persist link1 (home <| dirty ::= fun d => d <| d_server_identity := true |> |>, gs)
           end;
      boot_rebind link2 h port hg
  | None =>
      home ← match file with
             | Some (hp, sk) =>
                 lift (map_err (fun _ => Corrupt "stored bundle") (from_identity hp sk h port))
             | None =>
                 home ← lift (map_err (fun _ => Corrupt "stored bundle") (home_new seed sk));
                 let '(home, r) := rebind_host h port home in
                 lift (map_err (fun _ => Corrupt "rebind bundle") r);;
                 save_keys save_ok (hpke home, sign_key home);;
                 mret home
             end;
      boot_persist link1 (home, host_new)
  end.
End Rows.
