(* ===== verification/PgCover.v ===== *)
(** * What the journal covers

    The relation between the tables and the memory of the two components that
    the journals maintain: every table row either equals what [pg.rs] would
    write for the live value, or the journal names it. One predicate per table;
    for the tables that are only appended to and deleted from, the predicate
    says which rows the transaction deletes and which it may insert, so that
    no [INSERT] meets a row that is already there. *)

From S2P Require Export PgLoad HomeInv.

(** ** Views of memory *)

Section Views.
Context `{Crypto}.
Implicit Types (h : HomeServer) (gs : GroupHost) (db : Db).

Definition identity_view h (id : key) : option IdentityCols :=
  match mailboxes h !! id with
  | Some _ => Some (identity_cols (identity_row h id))
  | None => None
  end.

(** The prekeys of one owner, in the order of the serial column. *)
Definition prekey_rows (db : Db) (owner : key) : list bytes :=
  map snd (List.filter (fun r => bool_decide (r.1 = to_vec owner)) (t_prekeys db)).

Definition live_cred gs (gid : GroupId) (cid : key) : option CredRecord :=
  g ← groups gs !! gid; g_creds g !! cid.

Definition live_invite gs (gid : GroupId) (nonce : key) : option StoredInvite :=
  g ← groups gs !! gid; g_invites g !! nonce.

Definition live_pending gs (gid : GroupId) (pid : key) : option PendingRecord :=
  g ← groups gs !! gid; g_pending g !! pid.

(** The key columns and the columns of a journal entry of [mailbox_new]. *)
Definition mail_key (oq : key * N) : bytes * Z := (to_vec oq.1, as_i64 oq.2).

Definition mail_val h (oq : key * N) : option MailboxCols :=
  r ← live_row h oq.1 oq.2; ok (mailbox_cols r).

(** ** Deletions *)

(** The journal deletes the mailbox row. *)
Definition row_gone (d : HomeDirty) (o : key) (q : N) : bool :=
  bool_decide (o ∈ d_mailbox_cleared d)
  || bool_decide ((o, q) ∈ d_mailbox_dropped d)
  || match d_mailbox_acked d !! o with
     | Some u => (as_i64 q <=? as_i64 u)%Z
     | None => false
     end.

(** The row that is left after the deletions. *)
Definition kept_row (db : Db) (d : HomeDirty) (o : key) (q : N) : option MailboxCols :=
  if row_gone d o q then None else t_mailbox_rows db !! (to_vec o, as_i64 q).

(** The journal deletes the token row [r]. *)
Definition token_gone (d : HomeDirty) (tok : key) (r : TokenCols) : Prop :=
  tok ∈ d_tokens_dropped_exact d \/ exists o, o ∈ d_tokens_dropped d /\ c_mailbox r = to_vec o.

(** The upsert of [k] over [r] leaves the row of [k]. *)
Definition token_compatible (r : TokenCols) (k : TokenKind) : Prop :=
  token_conflict r k = token_cols k /\ c_mailbox r = to_vec (token_mailbox k).

(** ** The home server's tables *)

Definition cov_server db h : Prop :=
  d_server_identity (dirty h) = true \/ t_server_identity db = Some (server_identity_row h).

Definition cov_identities db h : Prop := forall id,
  (id ∈ d_identities (dirty h) -> is_Some (mailboxes h !! id))
  /\ (id ∈ d_identities (dirty h) \/ t_identities db !! to_vec id = identity_view h id).

(** A row that the journal calls new is in no table yet. *)
Definition cov_row db h (o : key) (q : N) : Prop :=
  match live_row h o q with
  | None => kept_row db (dirty h) o q = None
  | Some r => exists cols, mailbox_cols r = Ok cols /\
      if bool_decide ((o, q) ∈ d_mailbox_new (dirty h)) then kept_row db (dirty h) o q = None
      else kept_row db (dirty h) o q = Some cols
  end.

Record cov_mail db h : Prop := {
  mail_new_once : NoDup (d_mailbox_new (dirty h));
  mail_new_old : forall o q, (o, q) ∈ d_mailbox_new (dirty h) ->
      exists box, mailboxes h !! o = Some box /\ q < next_seq box;
  mail_dropped_old : forall o q, (o, q) ∈ d_mailbox_dropped (dirty h) ->
      exists box, mailboxes h !! o = Some box /\ q < next_seq box;
  mail_acked_small : forall o u, d_mailbox_acked (dirty h) !! o = Some u -> u < 2 ^ 63;
  mail_rows : forall o q, q < 2 ^ 63 -> cov_row db h o q
}.

Definition cov_token db h (tok : key) : Prop :=
  match first_token tok (tokens h) with
  | None => forall r, t_tokens db !! to_vec tok = Some r -> token_gone (dirty h) tok r
  | Some k =>
      (tok ∈ d_tokens (dirty h)
       /\ forall r, t_tokens db !! to_vec tok = Some r ->
            token_gone (dirty h) tok r \/ token_compatible r k)
      \/ (t_tokens db !! to_vec tok = Some (token_cols k) /\ ~ token_gone (dirty h) tok (token_cols k))
  end.

Definition cov_tokens db h : Prop := NoDup (map fst (tokens h)) /\ forall tok, cov_token db h tok.

Definition cov_prekeys db h : Prop := forall o,
  o ∈ d_prekeys (dirty h) \/ prekey_rows db o = default [] (prekeys h !! o).

Definition cov_memberships db h : Prop := forall o,
  NoDup (default [] (memberships h !! o))
  /\ (default [] (memberships h !! o) <> [] -> is_Some (mailboxes h !! o))
  /\ (o ∈ d_memberships (dirty h) \/ forall gid,
        (to_vec o, gid_vec gid) ∈ t_memberships db <-> gid ∈ default [] (memberships h !! o)).

Definition cov_peers db h : Prop := forall p,
  match peers h !! p with
  | None => t_peers db !! to_vec p = None
  | Some st => p ∈ d_peers (dirty h) \/ t_peers db !! to_vec p = Some (peer_cols st)
  end.

Definition cov_outbound db h : Prop :=
  d_outbound_dirty (dirty h) = true \/ t_outbound db = map outbound_cols (outbound h).

Definition cov_seen db h : Prop :=
  d_seen_enc_cleared (dirty h) = true \/
  (NoDup (d_seen_enc_new (dirty h))
   /\ (forall enc, enc ∈ d_seen_enc_new (dirty h) -> is_Some (seen_enc h !! enc))
   /\ forall enc,
   match seen_enc h !! enc with
   | None => t_hpke_seen db !! to_vec enc = None
   | Some q => if bool_decide (enc ∈ d_seen_enc_new (dirty h)) then t_hpke_seen db !! to_vec enc = None
               else t_hpke_seen db !! to_vec enc = Some (as_i64 q)
   end).

Record home_covered db h : Prop := {
  cover_server : cov_server db h;
  cover_identities : cov_identities db h;
  cover_mail : cov_mail db h;
  cover_tokens : cov_tokens db h;
  cover_prekeys : cov_prekeys db h;
  cover_memberships : cov_memberships db h;
  cover_peers : cov_peers db h;
  cover_outbound : cov_outbound db h;
  cover_seen : cov_seen db h
}.

(** ** The group host's tables *)

Definition cov_groups db gs : Prop := forall gid,
  match groups gs !! gid with
  | None => t_groups db !! gid_vec gid = None
  | Some g => gid ∈ gd_groups (gdirty gs) \/ t_groups db !! gid_vec gid = Some (group_cols g)
  end.

Definition cov_creds db gs : Prop := forall gid cid,
  match live_cred gs gid cid with
  | None => t_group_creds db !! (gid_vec gid, to_vec cid) = None
  | Some c => (gid, cid) ∈ gd_creds (gdirty gs)
              \/ t_group_creds db !! (gid_vec gid, to_vec cid) = Some (cred_cols c)
  end.

(** An invite that expired before it was presented is dropped from memory
    without a journal entry: its row may stay behind. *)
Definition cov_invites db gs : Prop := forall gid,
  (gid ∈ gd_invites (gdirty gs) /\ is_Some (groups gs !! gid)) \/ forall nonce,
  match live_invite gs gid nonce with
  | Some i => t_group_invites db !! (gid_vec gid, to_vec nonce) = Some (invite_cols i)
  | None => t_group_invites db !! (gid_vec gid, to_vec nonce) = None
            \/ exists i, t_group_invites db !! (gid_vec gid, to_vec nonce) = Some (invite_cols i)
                         /\ si_expires_at i <= gh_now gs /\ is_Some (groups gs !! gid)
  end.

Definition cov_pending db gs : Prop := forall gid,
  (gid ∈ gd_pending (gdirty gs) /\ is_Some (groups gs !! gid)) \/ forall pid,
  t_group_pending db !! (gid_vec gid, to_vec pid) = pending_cols <$> live_pending gs gid pid.

Record cov_stream db gs : Prop := {
  stream_new_once : NoDup (gd_stream_new (gdirty gs));
  stream_new_old : forall gid q, (gid, q) ∈ gd_stream_new (gdirty gs) ->
      exists g, groups gs !! gid = Some g /\ q < g_next_seq g;
  stream_rows : forall gid q, q < 2 ^ 63 ->
      match live_stream_row gs gid q with
      | None => t_group_stream db !! (gid_vec gid, as_i64 q) = None
      | Some r => if bool_decide ((gid, q) ∈ gd_stream_new (gdirty gs))
                  then t_group_stream db !! (gid_vec gid, as_i64 q) = None
                  else t_group_stream db !! (gid_vec gid, as_i64 q) = Some (stream_cols r)
      end
}.

Definition cov_files db gs : Prop := forall tok,
  match files gs !! tok with
  | None => t_group_files db !! to_vec tok = None
  | Some f => is_Some (groups gs !! slot_group_id f)
              /\ (tok ∈ gd_files (gdirty gs) \/ t_group_files db !! to_vec tok = Some (file_cols f))
  end.

Record groups_covered db gs : Prop := {
  cover_groups : cov_groups db gs;
  cover_creds : cov_creds db gs;
  cover_invites : cov_invites db gs;
  cover_pending : cov_pending db gs;
  cover_stream : cov_stream db gs;
  cover_files : cov_files db gs
}.

(** ** Agreement without a journal *)

(** Every table holds exactly what memory says. *)
Record home_synced db h : Prop := {
  sync_server : t_server_identity db = Some (server_identity_row h);
  sync_identities : forall id : key, t_identities db !! to_vec id = identity_view h id;
  sync_mail : forall o q, q < 2 ^ 63 -> t_mailbox_rows db !! mail_key (o, q) = mail_val h (o, q);
  sync_tokens : forall tok : key, t_tokens db !! to_vec tok = token_cols <$> first_token tok (tokens h);
  sync_prekeys : forall o, prekey_rows db o = default [] (prekeys h !! o);
  sync_memberships : forall o gid,
      (to_vec o, gid_vec gid) ∈ t_memberships db <-> gid ∈ default [] (memberships h !! o);
  sync_peers : forall p : key, t_peers db !! to_vec p = peer_cols <$> peers h !! p;
  sync_outbound : t_outbound db = map outbound_cols (outbound h);
  sync_seen : forall enc : key, t_hpke_seen db !! to_vec enc = as_i64 <$> seen_enc h !! enc
}.

(** Rows of expired invites may be left over. *)
Record groups_synced db gs : Prop := {
  sync_groups : forall gid, t_groups db !! gid_vec gid = group_cols <$> groups gs !! gid;
  sync_creds : forall gid (cid : key),
      t_group_creds db !! (gid_vec gid, to_vec cid) = cred_cols <$> live_cred gs gid cid;
  sync_invites : forall gid nonce,
      match live_invite gs gid nonce with
      | Some i => t_group_invites db !! (gid_vec gid, to_vec nonce) = Some (invite_cols i)
      | None => t_group_invites db !! (gid_vec gid, to_vec nonce) = None
                \/ exists i, t_group_invites db !! (gid_vec gid, to_vec nonce) = Some (invite_cols i)
                             /\ si_expires_at i <= gh_now gs /\ is_Some (groups gs !! gid)
      end;
  sync_pending : forall gid (pid : key),
      t_group_pending db !! (gid_vec gid, to_vec pid) = pending_cols <$> live_pending gs gid pid;
  sync_stream : forall gid q, q < 2 ^ 63 ->
      t_group_stream db !! (gid_vec gid, as_i64 q) = stream_cols <$> live_stream_row gs gid q;
  sync_files : forall tok : key, t_group_files db !! to_vec tok = file_cols <$> files gs !! tok
}.
End Views.

(** ** Key columns *)

(** The key columns hold what [pg.rs] binds: 32-byte keys and sequence numbers. *)
Record keys_ok (db : Db) : Prop := {
  ok_identities : forall k, is_Some (t_identities db !! k) -> exists id : key, k = to_vec id;
  ok_mail : forall k z, is_Some (t_mailbox_rows db !! (k, z)) ->
      exists (o : key) q, k = to_vec o /\ z = as_i64 q /\ q < 2 ^ 63;
  ok_tokens : forall k, is_Some (t_tokens db !! k) -> exists tok : key, k = to_vec tok;
  ok_prekeys : forall r, r ∈ t_prekeys db -> exists o : key, r.1 = to_vec o;
  ok_memberships : forall r, r ∈ t_memberships db -> exists (o : key) gid, r = (to_vec o, gid_vec gid);
  ok_peers : forall k, is_Some (t_peers db !! k) -> exists p : key, k = to_vec p;
  ok_seen : forall k, is_Some (t_hpke_seen db !! k) -> exists enc : key, k = to_vec enc;
  ok_groups : forall k, is_Some (t_groups db !! k) -> exists gid, k = gid_vec gid;
  ok_creds : forall k c, is_Some (t_group_creds db !! (k, c)) ->
      exists gid (cid : key), k = gid_vec gid /\ c = to_vec cid;
  ok_invites : forall k c, is_Some (t_group_invites db !! (k, c)) ->
      exists gid (nonce : key), k = gid_vec gid /\ c = to_vec nonce;
  ok_pending : forall k c, is_Some (t_group_pending db !! (k, c)) ->
      exists gid (pid : key), k = gid_vec gid /\ c = to_vec pid;
  ok_stream : forall k z, is_Some (t_group_stream db !! (k, z)) ->
      exists gid q, k = gid_vec gid /\ z = as_i64 q /\ q < 2 ^ 63;
  ok_files : forall k, is_Some (t_group_files db !! k) -> exists tok : key, k = to_vec tok
}.
