(* ===== verification/PgPersist.v ===== *)
(** * What a transaction writes

    Each loop of [persist_inner] against the table it works on, and their
    composition: from a covered state the transaction succeeds and leaves
    tables that agree with memory without the journal. *)

From S2P Require Export PgCover.

(** ** Loops *)

(** A loop invariant indexed by the elements already visited. *)
Lemma for_each_done {S E A} (xs : list A) (body : A -> stM S E unit) (I : list A -> S -> Prop) s :
  I [] s ->
  (forall pre x rest s, xs = pre ++ x :: rest -> I pre s ->
     post (body x) s (fun r s' => r = Ok tt /\ I (pre ++ [x]) s')) ->
  post (for_each xs body) s (fun r s' => r = Ok tt /\ I xs s').
Proof.
  intros H0 Hstep.
  assert (forall rest pre s, xs = pre ++ rest -> I pre s ->
    post (for_each rest body) s (fun r s' => r = Ok tt /\ I xs s')) as Hgen.
  { induction rest as [|x rest IH]; intros pre s1 Hxs HI; cbn.
    - rewrite app_nil_r in Hxs. subst pre. rewrite post_ret. done.
    - rewrite post_bind. eapply post_conseq; [by apply (Hstep pre x rest)|].
      intros r s2 [-> H2]. cbn. apply (IH (pre ++ [x])); [|done]. by rewrite <- app_assoc. }
  by apply (Hgen xs []).
Qed.

(** Sequencing of statements that succeed. *)
Lemma post_seq {S E} (m k : stM S E unit) s (P : S -> Prop) (Q : result E unit -> S -> Prop) :
  post m s (fun r s' => r = Ok tt /\ P s') -> (forall s', P s' -> post k s' Q) -> post (m ;; k) s Q.
Proof.
  intros Hm Hk. rewrite post_bind. eapply post_conseq; [exact Hm|]. intros r s' [-> HP]. cbn. auto.
Qed.

Lemma post_bind_assoc {S E A B C} (m : stM S E A) (k : A -> stM S E B) (l : B -> stM S E C) s Q :
  post ((m ≫= k) ≫= l) s Q = post (m ≫= fun a => k a ≫= l) s Q.
Proof. unfold post, mbind, stM_bind. by destruct (m s) as [s1 [a|e]]. Qed.

(** An infallible statement on one table, repeated: the table is a fold. *)
Lemma for_each_modify {S E A} (xs : list A) (f : A -> S -> S) s Q :
  Q (Ok tt) (foldl (fun s x => f x s) s xs) ->
  post (for_each xs (fun x => modify (E := E) (f x))) s Q.
Proof.
  revert s; induction xs as [|x xs IH]; intros s HQ; cbn; [by rewrite post_ret|].
  rewrite post_bind, post_modify. by apply IH.
Qed.

Lemma for_each_ext {S E A} (xs : list A) (b1 b2 : A -> stM S E unit) :
  (forall x, b1 x = b2 x) -> for_each xs b1 = for_each xs b2.
Proof. intros He. induction xs as [|x xs IH]; cbn; [done|]. by rewrite He, IH. Qed.

Lemma to_vec_inj {n} (a b : arr n) : to_vec a = to_vec b <-> a = b.
Proof. split; [apply arr_eq | by intros ->]. Qed.

Lemma gid_vec_inj a b : gid_vec a = gid_vec b <-> a = b.
Proof. unfold gid_vec. rewrite to_vec_inj. destruct a, b; cbn. naive_solver. Qed.

Lemma as_i64_inj a b : a < 2 ^ 63 -> b < 2 ^ 63 -> as_i64 a = as_i64 b <-> a = b.
Proof. intros Ha Hb. rewrite !as_i64_small by done. lia. Qed.

(** [ensure] as a step of the transaction. *)
Lemma post_ensure {S E} (c : bool) (e : E) (k : stM S E unit) (s : S) Q :
  c = true -> post k s Q -> post (lift (ensure c e) ;; k) s Q.
Proof. intros -> HQ. rewrite post_bind. exact HQ. Qed.

Lemma post_references_identity (id : bytes) (k : tx unit) db Q :
  is_Some (t_identities db !! id) -> post k db Q -> post (references_identity id ;; k) db Q.
Proof.
  intros Hs HQ. unfold references_identity. rewrite post_bind, post_bind, post_get. cbv beta iota.
  rewrite post_lift. rewrite bool_decide_eq_true_2 by done. exact HQ.
Qed.

Lemma post_references_group (gid : bytes) (k : tx unit) db Q :
  is_Some (t_groups db !! gid) -> post k db Q -> post (references_group gid ;; k) db Q.
Proof.
  intros Hs HQ. unfold references_group. rewrite post_bind, post_bind, post_get. cbv beta iota.
  rewrite post_lift. rewrite bool_decide_eq_true_2 by done. exact HQ.
Qed.

(** ** Tables as lenses *)

(** A table of the database, with the laws of its getter and setter. *)
Record Table (T : Type) : Type := mk_table {
  tget : Db -> T;
  tset : T -> Db -> Db;
  tget_tset : forall t db, tget (tset t db) = t;
  tset_tset : forall t t' db, tset t (tset t' db) = tset t db;
  tset_tget : forall db, tset (tget db) db = db
}.
Arguments tget {T}. Arguments tset {T}. Arguments mk_table {T}.
Arguments tget_tset {T}. Arguments tset_tset {T}. Arguments tset_tget {T}.

Ltac table_laws := by intros; repeat match goal with db : Db |- _ => destruct db end.

Definition tab_identities : Table _ :=
  mk_table t_identities (fun t db => db <| t_identities := t |>) ltac:(table_laws) ltac:(table_laws) ltac:(table_laws).
Definition tab_mail : Table _ :=
  mk_table t_mailbox_rows (fun t db => db <| t_mailbox_rows := t |>) ltac:(table_laws) ltac:(table_laws) ltac:(table_laws).
Definition tab_tokens : Table _ :=
  mk_table t_tokens (fun t db => db <| t_tokens := t |>) ltac:(table_laws) ltac:(table_laws) ltac:(table_laws).
Definition tab_memberships : Table _ :=
  mk_table t_memberships (fun t db => db <| t_memberships := t |>) ltac:(table_laws) ltac:(table_laws) ltac:(table_laws).
Definition tab_prekeys : Table _ :=
  mk_table t_prekeys (fun t db => db <| t_prekeys := t |>) ltac:(table_laws) ltac:(table_laws) ltac:(table_laws).
Definition tab_peers : Table _ :=
  mk_table t_peers (fun t db => db <| t_peers := t |>) ltac:(table_laws) ltac:(table_laws) ltac:(table_laws).
Definition tab_seen : Table _ :=
  mk_table t_hpke_seen (fun t db => db <| t_hpke_seen := t |>) ltac:(table_laws) ltac:(table_laws) ltac:(table_laws).
Definition tab_server : Table _ :=
  mk_table t_server_identity (fun t db => db <| t_server_identity := t |>) ltac:(table_laws) ltac:(table_laws) ltac:(table_laws).
Definition tab_outbound : Table _ :=
  mk_table t_outbound (fun t db => db <| t_outbound := t |>) ltac:(table_laws) ltac:(table_laws) ltac:(table_laws).
Definition tab_groups : Table _ :=
  mk_table t_groups (fun t db => db <| t_groups := t |>) ltac:(table_laws) ltac:(table_laws) ltac:(table_laws).
Definition tab_creds : Table _ :=
  mk_table t_group_creds (fun t db => db <| t_group_creds := t |>) ltac:(table_laws) ltac:(table_laws) ltac:(table_laws).
Definition tab_invites : Table _ :=
  mk_table t_group_invites (fun t db => db <| t_group_invites := t |>) ltac:(table_laws) ltac:(table_laws) ltac:(table_laws).
Definition tab_pending : Table _ :=
  mk_table t_group_pending (fun t db => db <| t_group_pending := t |>) ltac:(table_laws) ltac:(table_laws) ltac:(table_laws).
Definition tab_stream : Table _ :=
  mk_table t_group_stream (fun t db => db <| t_group_stream := t |>) ltac:(table_laws) ltac:(table_laws) ltac:(table_laws).
Definition tab_files : Table _ :=
  mk_table t_group_files (fun t db => db <| t_group_files := t |>) ltac:(table_laws) ltac:(table_laws) ltac:(table_laws).

(** A statement that succeeds and turns the table into one that [Q] describes. *)
Definition writes {T} (tab : Table T) (m : tx unit) (db : Db) (Q : T -> Prop) : Prop :=
  post m db (fun r db' => r = Ok tt /\ exists t, db' = tset tab t db /\ Q t).

Section Writes.
Context {T : Type} (tab : Table T).

Lemma writes_conseq m db (P Q : T -> Prop) : writes tab m db P -> (forall t, P t -> Q t) -> writes tab m db Q.
Proof.
  intros Hm HPQ. unfold writes in *. eapply post_conseq; [exact Hm|]. intros r db' (-> & t & -> & Ht). eauto.
Qed.

Lemma writes_ret db (Q : T -> Prop) : Q (tget tab db) -> writes tab (mret tt) db Q.
Proof. intros HQ. split; [done|]. exists (tget tab db). by rewrite tset_tget. Qed.

Lemma writes_seq m k db (P Q : T -> Prop) :
  writes tab m db P -> (forall t, P t -> writes tab k (tset tab t db) Q) -> writes tab (m ;; k) db Q.
Proof.
  intros Hm Hk. unfold writes in *. eapply post_seq; [exact Hm|]. intros db' (t & -> & Ht).
  eapply post_conseq; [apply Hk, Ht|]. intros r db' (-> & t' & -> & Ht').
  split; [done|]. exists t'. by rewrite tset_tset.
Qed.

Lemma writes_modify f db (Q : T -> Prop) :
  (exists t, f db = tset tab t db /\ Q t) -> writes tab (modify f) db Q.
Proof. intros HQ. unfold writes. rewrite post_modify. done. Qed.

(** A loop over one table; [I pre t] describes the table after the elements
    [pre]. *)
Lemma writes_each {A} (xs : list A) (body : A -> tx unit) db (I : list A -> T -> Prop) :
  I [] (tget tab db) ->
  (forall pre x rest t, xs = pre ++ x :: rest -> I pre t -> writes tab (body x) (tset tab t db) (I (pre ++ [x]))) ->
  writes tab (for_each xs body) db (I xs).
Proof.
  intros H0 Hstep. unfold writes in *. eapply post_conseq.
  - apply (for_each_done xs body (fun pre db' => exists t, db' = tset tab t db /\ I pre t)).
    + exists (tget tab db). by rewrite tset_tget.
    + intros pre x rest s Hx (t & -> & Ht). eapply post_conseq; [eapply (Hstep pre x rest); done|].
      intros r db' (-> & t' & -> & Ht'). split; [done|]. exists t'. by rewrite tset_tset.
  - auto.
Qed.
End Writes.

(** ** Upserts and inserts *)

Section Rows.
Context {K K' V : Type} `{EqDecision K, Countable K'} (tab : Table (gmap K' V)).
Context (fk : K -> K') (P : K -> Prop) (val : K -> option V) (db : Db).

(** The table after the keys [pre] have been written: [val] says which of them
    have a row; [P] delimits the keys on which the encoding [fk] is injective. *)
Definition rows_written (pre : list K) (t : gmap K' V) : Prop :=
  (forall x, P x -> t !! fk x = match val x with
                                | Some v => if bool_decide (x ∈ pre) then Some v else tget tab db !! fk x
                                | None => tget tab db !! fk x
                                end)
  /\ (forall k v, t !! k = Some v ->
        tget tab db !! k = Some v \/ exists x, P x /\ x ∈ pre /\ k = fk x /\ val x = Some v).

Lemma writes_rows (xs : list K) (body : K -> tx unit) :
  (forall a b, P a -> P b -> fk a = fk b -> a = b) ->
  (forall x, x ∈ xs -> P x) ->
  (forall pre x rest t, xs = pre ++ x :: rest -> rows_written pre t ->
     writes tab (body x) (tset tab t db) (fun t' => t' = match val x with Some v => <[fk x := v]> t | None => t end)) ->
  writes tab (for_each xs body) db (rows_written xs).
Proof.
  intros Hinj HP Hbody. apply (writes_each tab xs body db rows_written).
  - split; [|auto]. intros x _. by destruct (val x).
  - intros pre x rest t Hxs Hw. eapply writes_conseq; [by apply (Hbody pre x rest)|].
    assert (P x) as HPx by (apply HP; subst; set_solver).
    destruct Hw as [Hl Hk]. cbn. intros t' ->. split.
    + intros y HPy. destruct (decide (y = x)) as [->|Hne].
      * destruct (val x) as [v|] eqn:Hv; [|by rewrite Hl, Hv].
        rewrite lookup_insert_eq, bool_decide_eq_true_2; [done | set_solver].
      * assert (match val x with Some v => <[fk x:=v]> t | None => t end !! fk y = t !! fk y) as ->.
        { destruct (val x); [|done]. apply lookup_insert_ne. intros He. by apply Hne, Hinj. }
        rewrite Hl by done. by rewrite (bool_decide_ext (y ∈ pre ++ [x]) (y ∈ pre)) by set_solver.
    + intros k v. destruct (val x) as [w|] eqn:Hv.
      * rewrite lookup_insert_Some. intros [[<- <-]|[_ Hs]].
        -- right. exists x. split_and!; [done | set_solver | done..].
        -- destruct (Hk _ _ Hs) as [?|(y & ? & ? & ?)]; [by left|]. right. exists y. set_solver.
      * intros Hs. destruct (Hk _ _ Hs) as [?|(y & ? & ? & ?)]; [by left|]. right. exists y. set_solver.
Qed.
End Rows.

(** Upserts, which meet no constraint of their own table. *)
Lemma writes_upserts {K K' V} `{EqDecision K, Countable K'} (tab : Table (gmap K' V)) (fk : K -> K')
    (val : K -> option V) (xs : list K) (body : K -> tx unit) db :
  (forall a b, fk a = fk b -> a = b) ->
  (forall x t, x ∈ xs -> writes tab (body x) (tset tab t db)
     (fun t' => t' = match val x with Some v => <[fk x := v]> t | None => t end)) ->
  writes tab (for_each xs body) db (rows_written tab fk (fun _ => True) val db xs).
Proof.
  intros Hinj Hbody. apply writes_rows; [auto | done |].
  intros pre x rest t -> _. apply Hbody. set_solver.
Qed.

(** [for x in xs.filter_map(f) { body }]. *)
Lemma for_each_omap {S E A B} (f : A -> option B) (l : list A) (body : B -> stM S E unit) s :
  for_each (omap f l) body s = for_each l (fun x => match f x with Some y => body y | None => mret tt end) s.
Proof.
  revert s; induction l as [|x l IH]; intros s; cbn; [done|].
  destruct (f x) as [y|]; cbn.
  - unfold mbind, stM_bind. destruct (body y s) as [s1 [[]|e]]; [apply IH | done].
  - unfold mbind, stM_bind. cbn. apply IH.
Qed.

Lemma writes_insert_key {K V} `{Countable K} (tab : Table (gmap K V)) (k : K) (v : V) (m : gmap K V -> tx unit) db Q :
  tget tab db !! k = None -> writes tab (m (<[k := v]> (tget tab db))) db Q ->
  writes tab (t ← lift (insert_key k v (tget tab db)); m t) db Q.
Proof.
  intros Hn Hm. unfold writes in *. rewrite post_bind, post_lift. unfold insert_key. by rewrite Hn.
Qed.

(** ** Deletions *)

(** [t] without the rows for which [hit] holds. *)
Definition cut {K V} `{Countable K} (hit : K -> V -> bool) (t : gmap K V) (k : K) : option V :=
  v ← t !! k; if hit k v then None else Some v.

Lemma writes_deletes {A K V} `{Countable K} (tab : Table (gmap K V)) (hit : A -> K -> V -> bool)
    (xs : list A) (body : A -> tx unit) db :
  (forall x t, writes tab (body x) (tset tab t db) (fun t' => forall k, t' !! k = cut (hit x) t k)) ->
  writes tab (for_each xs body) db (fun t =>
    forall k, t !! k = cut (fun k v => existsb (fun x => hit x k v) xs) (tget tab db) k).
Proof.
  intros Hbody. apply (writes_each tab xs body db (fun pre t =>
    forall k, t !! k = cut (fun k v => existsb (fun x => hit x k v) pre) (tget tab db) k)).
  - intros k. unfold cut. cbn. by destruct (tget tab db !! k).
  - intros pre x rest t _ Ht. eapply writes_conseq; [apply Hbody|]. cbn. intros t' Ht' k.
    rewrite Ht'. unfold cut. rewrite Ht. unfold cut. destruct (tget tab db !! k) as [v|]; [|done]. cbn.
    rewrite existsb_app. cbn. rewrite orb_false_r. destruct (existsb _ pre); [done|]. cbn. by destruct (hit x k v).
Qed.

Lemma existsb_elem {A} (f : A -> bool) l : existsb f l = true <-> exists x, x ∈ l /\ f x = true.
Proof. rewrite existsb_exists. by setoid_rewrite list_elem_of_In. Qed.

Lemma existsb_iff {A} (f : A -> bool) l b :
  (b = true <-> exists x, x ∈ l /\ f x = true) -> existsb f l = b.
Proof.
  intros Hb. apply eq_true_iff_eq. rewrite existsb_exists, Hb. by setoid_rewrite list_elem_of_In.
Qed.

Lemma filter_cut {K V} `{Countable K} (P : K * V -> Prop) `{!forall kv, Decision (P kv)} (hit : K -> V -> bool)
    (t : gmap K V) k :
  (forall k v, P (k, v) <-> hit k v = false) -> filter P t !! k = cut hit t k.
Proof.
  intros HP. unfold cut. rewrite map_lookup_filter. destruct (t !! k) as [v|]; [|done]. cbn.
  specialize (HP k v). destruct (hit k v); case_guard; naive_solver.
Qed.

Lemma delete_cut {K V} `{Countable K} (x : K) (t : gmap K V) k :
  delete x t !! k = cut (fun k _ => bool_decide (k = x)) t k.
Proof.
  unfold cut. destruct (decide (k = x)) as [->|Hne].
  - rewrite lookup_delete_eq. rewrite bool_decide_eq_true_2 by done. by destruct (t !! x).
  - rewrite lookup_delete_ne by done. rewrite bool_decide_eq_false_2 by done. by destruct (t !! k).
Qed.

Section Home.
Context `{Crypto}.
Implicit Types (h : HomeServer) (db : Db).

Lemma upsert_identities h (D : gset key) db :
  writes tab_identities (for_each (elements D) (upsert_identity h)) db
    (rows_written tab_identities to_vec (fun _ => True)
       (fun id : key => Some (identity_cols (identity_row h id))) db (elements D)).
Proof.
  apply writes_upserts; [intros a b; by apply arr_eq|].
  intros id t _. apply writes_modify. eauto.
Qed.

Lemma writes_server h db :
  cov_server db h ->
  writes tab_server (when (d_server_identity (dirty h)) (upsert_server_identity h)) db
    (fun t => t = Some (server_identity_row h)).
Proof.
  intros [Hd|Hd]; [rewrite Hd; apply writes_modify; eauto|].
  destruct (d_server_identity (dirty h)); [apply writes_modify; eauto | by apply writes_ret].
Qed.

Lemma writes_outbound h db :
  cov_outbound db h ->
  writes tab_outbound (when (d_outbound_dirty (dirty h)) (rewrite_outbound h)) db
    (fun t => t = map outbound_cols (outbound h)).
Proof.
  intros [Hd|Hd]; [rewrite Hd; apply writes_modify; eauto|].
  destruct (d_outbound_dirty (dirty h)); [apply writes_modify; eauto | by apply writes_ret].
Qed.

Lemma upsert_peers h (D : gset key) db :
  writes tab_peers (for_each (elements D) (upsert_peer h)) db
    (rows_written tab_peers to_vec (fun _ => True) (fun p : key => peer_cols <$> peers h !! p) db (elements D)).
Proof.
  apply writes_upserts; [intros a b; by apply arr_eq|].
  intros p t _. unfold upsert_peer. destruct (peers h !! p); cbn; [apply writes_modify; eauto | by apply writes_ret].
Qed.

(** ** Mailbox rows *)

(** The three deletion loops together. *)
Definition delete_mail (d : HomeDirty) : tx unit :=
  for_each (elements (d_mailbox_cleared d)) delete_mailbox_all;;
  for_each (d_mailbox_dropped d) (fun '(owner, sq) => delete_mailbox_exact owner sq);;
  for_each (map_to_list (d_mailbox_acked d)) (fun '(owner, upto) => delete_mailbox_acked owner upto).

Lemma writes_delete_mail (d : HomeDirty) db :
  (forall o q, (o, q) ∈ d_mailbox_dropped d -> q < 2 ^ 63) ->
  writes tab_mail (delete_mail d) db (fun t =>
    (forall (o : key) q, q < 2 ^ 63 -> t !! (to_vec o, as_i64 q) = kept_row db d o q)
    /\ forall k, is_Some (t !! k) -> is_Some (t_mailbox_rows db !! k)).
Proof.
  intros Hdrop. unfold delete_mail.
  eapply writes_seq.
  { apply (writes_deletes tab_mail (fun (o : key) k _ => bool_decide (k.1 = to_vec o))).
    intros o t. apply writes_modify. eexists. split; [reflexivity|]. intros k. apply filter_cut.
    intros k' v. cbn. by rewrite bool_decide_eq_false. }
  cbn. intros t1 H1. eapply writes_seq.
  { apply (writes_deletes tab_mail (fun oq k _ => bool_decide (k = (to_vec (n := 32) oq.1, as_i64 oq.2)))).
    intros [o q] t. apply writes_modify. eexists. split; [reflexivity|]. intros k. apply delete_cut. }
  cbn. intros t2 H2. eapply writes_conseq.
  { apply (writes_deletes tab_mail (fun ou k _ => bool_decide (k.1 = to_vec (n := 32) ou.1 /\ (k.2 <= as_i64 ou.2)%Z))).
    intros [o u] t. apply writes_modify. eexists. split; [reflexivity|]. intros k. apply filter_cut.
    intros k' v. cbn. by rewrite bool_decide_eq_false. }
  cbn. intros t H3. split.
  - intros o q Hq. rewrite H3. unfold cut. rewrite H2. unfold cut. rewrite H1. unfold cut.
    unfold kept_row, row_gone. destruct (t_mailbox_rows db !! _) as [v|]; cbn; [|by case_cond].
    rewrite (existsb_iff _ (elements _) (bool_decide (o ∈ d_mailbox_cleared d))) by
      (rewrite bool_decide_eq_true; setoid_rewrite bool_decide_eq_true; setoid_rewrite to_vec_inj; set_solver).
    case_bool_decide; [done|]. cbn.
    rewrite (existsb_iff _ (d_mailbox_dropped d) (bool_decide ((o, q) ∈ d_mailbox_dropped d))).
    2: { rewrite bool_decide_eq_true. split.
         - intros Hin. exists (o, q). by rewrite bool_decide_eq_true_2.
         - intros ([o' q'] & Hin & Heq%bool_decide_eq_true). cbn in Heq.
           injection Heq as Ho Hq'. apply arr_eq in Ho. apply as_i64_inj in Hq'; [by subst | done | by eapply Hdrop]. }
    case_bool_decide; [done|]. cbn.
    rewrite (existsb_iff _ (map_to_list (d_mailbox_acked d))
      (match d_mailbox_acked d !! o with Some u => (as_i64 q <=? as_i64 u)%Z | None => false end)); [done|].
    split.
    + destruct (d_mailbox_acked d !! o) as [u|] eqn:Eu; [|done]. intros Hle%Z.leb_le.
      exists (o, u). rewrite elem_of_map_to_list. split; [done|]. by apply bool_decide_eq_true.
    + intros ([o' u] & Hin%elem_of_map_to_list & [Ho Hle]%bool_decide_eq_true). cbn in *.
      apply arr_eq in Ho. subst o'. rewrite Hin. by apply Z.leb_le.
  - intros k. rewrite H3. unfold cut. rewrite H2. unfold cut. rewrite H1. unfold cut.
    destruct (t_mailbox_rows db !! k); [eauto | cbn; by intros []].
Qed.

Lemma mail_key_inj a b : a.2 < 2 ^ 63 -> b.2 < 2 ^ 63 -> mail_key a = mail_key b -> a = b.
Proof.
  destruct a as [o q], b as [o' q']. unfold mail_key. cbn. intros Hq Hq' [= Ho Hs].
  apply arr_eq in Ho. apply as_i64_inj in Hs; by subst.
Qed.

(** Every live row has its sequence number and its columns. *)
Definition rows_sound h : Prop := forall o q r, live_row h o q = Some r ->
  row_seq r = q /\ q < 2 ^ 63 /\ is_Some (ok (mailbox_cols r)).

Lemma mailbox_values_ok h new :
  rows_sound h ->
  mailbox_values h new = Ok (omap (fun oq => (fun cols => (mail_key oq, cols)) <$> mail_val h oq) new).
Proof.
  intros Hs. induction new as [|[o q] new IH]; cbn; [done|]. unfold mail_val at 1. cbn.
  destruct (live_row h o q) as [r|] eqn:Er; [|exact IH].
  destruct (Hs _ _ _ Er) as (Hq & _ & [cols Hc]). destruct (mailbox_cols r) as [c|] eqn:Em; [|done].
  cbn. rewrite IH, Em. cbn. unfold mail_key at 1. cbn. by rewrite Hq.
Qed.

(** Two live rows of a mailbox with the same idempotency token are the same. *)
Definition tokens_unique h : Prop := forall o q r q' r',
  live_row h o q = Some r -> live_row h o q' = Some r' ->
  idempotency_token (row_inner r) = idempotency_token (row_inner r') -> q = q'.

Lemma mail_val_token h o q cols :
  mail_val h (o, q) = Some cols ->
  exists r, live_row h o q = Some r /\ c_idempotency_token cols = to_vec (idempotency_token (row_inner r)).
Proof.
  unfold mail_val. cbn. destruct (live_row h o q) as [r|]; [|done]. cbn. intros Hc. exists r. split; [done|].
  unfold mailbox_cols in Hc. destruct (encode_padded _); cbn in Hc; by simplify_eq.
Qed.

Lemma writes_insert_mail h (new : list (key * N)) db :
  rows_sound h -> tokens_unique h -> NoDup new -> (forall oq, oq ∈ new -> oq.2 < 2 ^ 63) ->
  (forall oq, oq ∈ new -> is_Some (live_row h oq.1 oq.2) ->
     t_mailbox_rows db !! mail_key oq = None /\ is_Some (t_identities db !! to_vec oq.1)) ->
  (forall k v, t_mailbox_rows db !! k = Some v ->
     exists oq, oq.2 < 2 ^ 63 /\ k = mail_key oq /\ mail_val h oq = Some v) ->
  writes tab_mail (insert_mailbox_rows h new) db
    (rows_written tab_mail mail_key (fun oq => oq.2 < 2 ^ 63) (mail_val h) db new).
Proof.
  intros Hs Hu Hnd Hsmall Hnew Hold. unfold insert_mailbox_rows, writes.
  rewrite post_bind, mailbox_values_ok, post_lift by done. cbv beta iota. unfold post. rewrite for_each_omap.
  apply (writes_rows tab_mail mail_key (fun oq => oq.2 < 2 ^ 63) (mail_val h) db new).
  { intros a b. apply mail_key_inj. }
  { done. }
  intros pre [o q] rest t -> [Hl Hk].
  assert ((o, q) ∈ pre ++ (o, q) :: rest) as Hin by set_solver.
  destruct (mail_val h (o, q)) as [cols|] eqn:Hv; [|apply writes_ret; cbn; done].
  destruct (mail_val_token _ _ _ _ Hv) as (r & Hr & Ht). cbn.
  destruct (Hnew _ Hin) as [Hfree Hid]; [by exists r|].
  assert (t !! mail_key (o, q) = None) as Hnone.
  { rewrite Hl by (by apply (Hsmall _ Hin)). rewrite Hv, bool_decide_eq_false_2; [done|].
    apply NoDup_app in Hnd as (_ & Hdis & _). intros Hpre. apply (Hdis _ Hpre). set_solver. }
  unfold insert_mailbox_row, writes. rewrite post_bind, post_get. cbv beta iota. cbn [t_mailbox_rows].
  apply post_ensure.
  - apply negb_true_iff. unfold idempotency_taken. apply existsb_iff. split; [done|].
    intros ([[k z] c] & Hc%elem_of_map_to_list & Hhit). cbn in Hc, Hhit.
    apply andb_true_iff in Hhit as [Hk1%bool_decide_eq_true Hk2%bool_decide_eq_true].
    assert (exists oq, oq.2 < 2 ^ 63 /\ (k, z) = mail_key oq /\ mail_val h oq = Some c) as ([o' q'] & Hq' & Hkz & Hv').
    { destruct (Hk _ _ Hc) as [Hc0|(x & ? & _ & ? & ?)]; [by apply Hold | by exists x]. }
    unfold mail_key in Hkz. cbn in Hkz. injection Hkz as -> ->. apply arr_eq in Hk1. subst o'.
    destruct (mail_val_token _ _ _ _ Hv') as (r' & Hr' & Ht').
    rewrite Ht, Ht' in Hk2. apply arr_eq in Hk2.
    rewrite (Hu _ _ _ _ _ Hr' Hr Hk2) in Hc. unfold mail_key in Hnone. cbn in *. congruence.
  - apply (writes_insert_key tab_mail (mail_key (o, q)) cols
      (fun t => references_identity (to_vec o) ;; modify (fun db => db <| t_mailbox_rows := t |>))); [done|].
    unfold writes. apply post_references_identity; [done|]. rewrite post_modify. split; [done|].
    eexists. split; [reflexivity | done].
Qed.

(** ** Tokens *)

Definition write_tokens h (d : HomeDirty) : tx unit :=
  for_each (elements (d_tokens_dropped d)) delete_tokens_owner;;
  for_each (elements (d_tokens_dropped_exact d)) delete_token_exact;;
  for_each (elements (d_tokens d)) (upsert_token h).

(** The deletions leave the rows that are not [token_gone]. *)
Lemma writes_delete_tokens (d : HomeDirty) db :
  writes tab_tokens (for_each (elements (d_tokens_dropped d)) delete_tokens_owner;;
                     for_each (elements (d_tokens_dropped_exact d)) delete_token_exact) db (fun t =>
    (forall (tok : key) r, t !! to_vec tok = Some r <->
       t_tokens db !! to_vec tok = Some r /\ ~ token_gone d tok r)
    /\ forall k, is_Some (t !! k) -> is_Some (t_tokens db !! k)).
Proof.
  eapply writes_seq.
  { apply (writes_deletes tab_tokens (fun (o : key) _ r => bool_decide (c_mailbox r = to_vec o))).
    intros o t. apply writes_modify. eexists. split; [reflexivity|]. intros k. apply filter_cut.
    intros k' v. cbn. by rewrite bool_decide_eq_false. }
  cbn. intros t1 H1. eapply writes_conseq.
  { apply (writes_deletes tab_tokens (fun (tok : key) k _ => bool_decide (k = to_vec tok))).
    intros tok t. apply writes_modify. eexists. split; [reflexivity|]. intros k. apply delete_cut. }
  cbn. intros t H2. split.
  - intros tok r. rewrite H2. unfold cut. rewrite H1. unfold cut, token_gone.
    destruct (t_tokens db !! to_vec tok) as [v|]; cbn; [|naive_solver].
    rewrite (existsb_iff _ (elements (d_tokens_dropped_exact d)) (bool_decide (tok ∈ d_tokens_dropped_exact d)))
      by (rewrite bool_decide_eq_true; setoid_rewrite bool_decide_eq_true; setoid_rewrite to_vec_inj; set_solver).
    destruct (existsb _ (elements (d_tokens_dropped d))) eqn:Ho; cbn.
    + apply existsb_elem in Ho as (o & Ho%elem_of_elements & Hm%bool_decide_eq_true).
      split; [done|]. intros [[= ->] Hng]. destruct Hng. eauto.
    + assert (~ exists o, o ∈ d_tokens_dropped d /\ c_mailbox v = to_vec o) as Hno.
      { intros (o & Hin & Hm). apply not_true_iff_false in Ho. apply Ho, existsb_elem.
        exists o. by rewrite elem_of_elements, bool_decide_eq_true. }
      case_bool_decide as He; naive_solver.
  - intros k. rewrite H2. unfold cut. rewrite H1. unfold cut.
    destruct (t_tokens db !! k); [eauto | cbn; by intros []].
Qed.

Lemma writes_tokens h db :
  cov_tokens db h ->
  (forall tok k, first_token tok (tokens h) = Some k -> is_Some (t_identities db !! to_vec (token_mailbox k))) ->
  writes tab_tokens (write_tokens h (dirty h)) db (fun t =>
    (forall tok : key, t !! to_vec tok = token_cols <$> first_token tok (tokens h))
    /\ (forall k, is_Some (t !! k) -> is_Some (t_tokens db !! k) \/ exists tok : key, k = to_vec tok)).
Proof.
  intros [_ Hc] Hid. unfold write_tokens, writes. rewrite <- post_bind_assoc.
  apply (writes_seq tab_tokens _ _ _ _ _ (writes_delete_tokens (dirty h) db)). intros t0 [H0 Hk0].
  eapply writes_conseq.
  { apply (writes_rows tab_tokens to_vec (fun _ => True) (fun tok : key => token_cols <$> first_token tok (tokens h)));
      [intros a b _ _; by apply arr_eq | done |].
    intros pre tok rest t Hxs [Hl _]. unfold upsert_token.
    destruct (first_token tok (tokens h)) as [k|] eqn:Ek; cbn; [|by apply writes_ret].
    unfold writes. apply post_references_identity; [by eapply Hid|]. rewrite post_modify. split; [done|].
    eexists. split; [reflexivity|]. cbn. f_equal.
    specialize (Hl tok I). rewrite Ek in Hl. cbn in Hl. rewrite bool_decide_eq_false_2 in Hl.
    2: { pose proof (NoDup_elements (d_tokens (dirty h))) as Hnd. rewrite Hxs in Hnd.
         apply NoDup_app in Hnd as (_ & Hdis & _). intros Hpre. apply (Hdis _ Hpre). set_solver. }
    rewrite Hl. destruct (t0 !! to_vec tok) as [r|] eqn:Er; [|done].
    apply H0 in Er as [Er Hng]. specialize (Hc tok). unfold cov_token in Hc. rewrite Ek in Hc.
    destruct Hc as [[_ Hc]|[Hc _]]; [destruct (Hc _ Er) as [|[]]; done|].
    rewrite Er in Hc. simplify_eq. by destruct k. }
  cbn. intros t [Hl Hk]. split.
  - intros tok. rewrite Hl by done. specialize (Hc tok). unfold cov_token in Hc.
    destruct (first_token tok (tokens h)) as [k|]; cbn.
    + destruct Hc as [[Hin _]|[Hdb Hng]]; [by rewrite bool_decide_eq_true_2 by set_solver|].
      case_bool_decide; [done|]. by apply H0.
    + destruct (t0 !! to_vec tok) as [r|] eqn:Er; [|done]. apply H0 in Er as [Er Hng]. destruct Hng. by apply Hc.
  - intros k [v Hs]. destruct (Hk _ _ Hs) as [Hs0|(x & _ & _ & -> & _)]; [left; apply Hk0; eauto | right; eauto].
Qed.

(** ** Prekeys *)

(** The rows of one owner in a list of prekey rows. *)
Definition rows_of (t : list (bytes * bytes)) (o : key) : list bytes :=
  map snd (List.filter (fun r => bool_decide (r.1 = to_vec o)) t).

Lemma rows_of_cut t (o x : key) :
  rows_of (List.filter (fun r => negb (bool_decide (r.1 = to_vec x))) t) o
  = if bool_decide (o = x) then [] else rows_of t o.
Proof.
  unfold rows_of. induction t as [|[k b] t IH]; cbn; [by case_cond|].
  destruct (bool_decide_reflect (k = to_vec x)) as [->|Hx]; cbn.
  - rewrite IH. destruct (bool_decide_reflect (o = x)) as [->|Hox]; [done|].
    by rewrite bool_decide_eq_false_2 by (rewrite to_vec_inj; congruence).
  - destruct (bool_decide_reflect (k = to_vec o)) as [->|Ho]; cbn; rewrite IH;
      by destruct (bool_decide_reflect (o = x)) as [->|].
Qed.

Lemma rows_of_app t u o : rows_of (t ++ u) o = rows_of t o ++ rows_of u o.
Proof. unfold rows_of. by rewrite List.filter_app, map_app. Qed.

Lemma rows_of_queue (x o : key) (queue : list bytes) :
  rows_of (map (pair (to_vec x)) queue) o = if bool_decide (o = x) then queue else [].
Proof.
  unfold rows_of. induction queue as [|b q IH]; cbn; [by case_cond|].
  destruct (bool_decide_reflect (o = x)) as [->|Hne].
  - rewrite bool_decide_eq_true_2 by done. cbn. by rewrite IH.
  - rewrite bool_decide_eq_false_2 by (rewrite to_vec_inj; congruence). exact IH.
Qed.

Lemma writes_prekeys h db :
  cov_prekeys db h ->
  (forall o, is_Some (prekeys h !! o) -> is_Some (t_identities db !! to_vec o)) ->
  writes tab_prekeys (for_each (elements (d_prekeys (dirty h))) (rewrite_prekeys h)) db (fun t =>
    (forall o, rows_of t o = default [] (prekeys h !! o))
    /\ (forall r, r ∈ t -> r ∈ t_prekeys db \/ exists o : key, r.1 = to_vec o)).
Proof.
  intros Hc Hid. eapply writes_conseq.
  - apply (writes_each tab_prekeys _ _ db (fun pre t =>
      (forall o, rows_of t o = if bool_decide (o ∈ pre) then default [] (prekeys h !! o) else prekey_rows db o)
      /\ (forall r, r ∈ t -> r ∈ t_prekeys db \/ exists o : key, r.1 = to_vec o))).
    + split; [done | auto].
    + intros pre x rest t _ [Hl Hk]. unfold rewrite_prekeys.
      set (t1 := List.filter (fun r => negb (bool_decide (r.1 = to_vec x))) t).
      apply (writes_seq tab_prekeys _ _ _ (fun t' => t' = t1)); [apply writes_modify; eauto|].
      intros _ ->. rewrite tset_tset.
      assert (forall r, r ∈ t1 -> r ∈ t) as Hsub.
      { intros r Hr%list_elem_of_In. apply filter_In in Hr as [Hr _]. by apply list_elem_of_In. }
      assert (exists t', t' = t1 ++ map (pair (to_vec x)) (default [] (prekeys h !! x))
        /\ (forall o, rows_of t' o = if bool_decide (o ∈ pre ++ [x]) then default [] (prekeys h !! o)
                                    else prekey_rows db o)
        /\ (forall r, r ∈ t' -> r ∈ t_prekeys db \/ exists o : key, r.1 = to_vec o)) as (t' & Ht' & HQ).
      { eexists. split; [reflexivity|]. split.
        - intros o. rewrite rows_of_app, rows_of_queue. unfold t1. rewrite rows_of_cut.
          destruct (bool_decide_reflect (o = x)) as [->|Hne].
          + rewrite bool_decide_eq_true_2 by set_solver. done.
          + rewrite app_nil_r, Hl. by rewrite (bool_decide_ext (o ∈ pre ++ [x]) (o ∈ pre)) by set_solver.
        - intros r [Hr|Hr]%elem_of_app; [auto|]. right. apply list_elem_of_In, in_map_iff in Hr as (b & <- & _).
          by exists x. }
      destruct (prekeys h !! x) as [[|b q]|] eqn:Eq; cbn [default map] in Ht'.
      * rewrite app_nil_r in Ht'. subst t'. by apply writes_ret.
      * unfold writes. apply post_references_identity; [apply Hid; eauto|]. rewrite post_modify.
        split; [done|]. exists t'. split; [by subst t' | done].
      * rewrite app_nil_r in Ht'. subst t'. by apply writes_ret.
  - cbn. intros t [Hl Hk]. split; [|done]. intros o. rewrite Hl.
    case_bool_decide as Hin; [done|]. destruct (Hc o) as [Hd|Hd]; [set_solver | done].
Qed.

(** ** Memberships *)

Lemma writes_memberships h db :
  cov_memberships db h ->
  (forall o, is_Some (mailboxes h !! o) -> is_Some (t_identities db !! to_vec o)) ->
  writes tab_memberships (for_each (elements (d_memberships (dirty h))) (rewrite_memberships h)) db (fun t =>
    (forall o gid, (to_vec o, gid_vec gid) ∈ t <-> gid ∈ default [] (memberships h !! o))
    /\ (forall r, r ∈ t -> r ∈ t_memberships db \/ exists (o : key) gid, r = (to_vec o, gid_vec gid))).
Proof.
  intros Hc Hid. eapply writes_conseq.
  - apply (writes_each tab_memberships _ _ db (fun pre t =>
      (forall o, o ∈ pre -> forall gid, (to_vec o, gid_vec gid) ∈ t <-> gid ∈ default [] (memberships h !! o))
      /\ (forall o, o ∉ pre -> forall g, (to_vec o, g) ∈ t <-> (to_vec o, g) ∈ t_memberships db)
      /\ (forall r, r ∈ t -> r ∈ t_memberships db \/ exists (o : key) gid, r = (to_vec o, gid_vec gid)))).
    + split_and!; [intros o Hin; set_solver | done | auto].
    + intros pre x rest t _ (Hl & Hl' & Hk). unfold rewrite_memberships.
      set (t1 := filter (fun r => r.1 <> to_vec x) t : gset (bytes * bytes)).
      apply (writes_seq tab_memberships _ _ _ (fun t' => t' = t1)); [apply writes_modify; eauto|].
      intros _ ->. rewrite tset_tset. destruct (Hc x) as (Hnd & Hbox & _).
      eapply writes_conseq.
      * apply (writes_each tab_memberships _ _ _ (fun done t' => forall r,
          r ∈ t' <-> r ∈ t1 \/ exists gid, gid ∈ done /\ r = (to_vec x, gid_vec gid))); [set_solver|].
        intros done g grest t' Hxs Ht'. unfold insert_membership, writes.
        rewrite post_bind, post_get. cbv beta iota. apply post_ensure; [|apply post_references_identity].
        -- apply negb_true_iff, bool_decide_eq_false. cbn. change (gid_vec g) with (to_vec (group_key g)).
           intros [Hin|(g' & Hg' & Heq)]%Ht'.
           ++ unfold t1 in Hin. set_solver.
           ++ injection Heq as Heq. apply (gid_vec_inj g g') in Heq. subst g'.
              rewrite Hxs in Hnd. apply NoDup_app in Hnd as (_ & Hdis & _). apply (Hdis _ Hg'). set_solver.
        -- apply Hid, Hbox. rewrite Hxs. by destruct done.
        -- rewrite post_modify. split; [done|]. eexists. split; [reflexivity|]. cbn. unfold gid_vec in *. set_solver.
      * cbn. intros t' Ht'. split_and!.
        -- intros o Ho gid. rewrite Ht'. unfold t1. destruct (decide (o = x)) as [->|Hne].
           ++ split; [intros [Hin|(g & Hg & Heq)]|]; [set_solver| |intros Hin; right; eauto].
              injection Heq as Heq. apply gid_vec_inj in Heq. by subst.
           ++ assert (to_vec o <> to_vec x) as Hv by (by rewrite to_vec_inj).
              rewrite elem_of_filter. cbn. rewrite Hl by set_solver. split; [|auto].
              intros [[_ ?]|(? & _ & ?)]; [done | congruence].
        -- intros o Ho g. rewrite Ht'. unfold t1. assert (to_vec o <> to_vec x) as Hv by (rewrite to_vec_inj; set_solver).
           rewrite elem_of_filter. cbn. rewrite Hl' by set_solver. split; [|auto].
           intros [[_ ?]|(? & _ & ?)]; [done | congruence].
        -- intros r [Hin|(g & _ & ->)]%Ht'; [|eauto]. apply Hk. unfold t1 in Hin. set_solver.
  - cbn. intros t (Hl & Hl' & Hk). split; [|done]. intros o gid.
    destruct (decide (o ∈ elements (d_memberships (dirty h)))) as [Hin|Hin]; [by apply Hl|].
    rewrite Hl' by done. destruct (Hc o) as (_ & _ & [Hd|Hd]); [set_solver | by rewrite Hd].
Qed.

(** ** Encapsulation keys seen *)

Definition write_seen h (d : HomeDirty) : tx unit :=
  if d_seen_enc_cleared d then rewrite_seen h else insert_seen_new h (d_seen_enc_new d).

Lemma writes_seen_rows (l : list (key * N)) db :
  NoDup (map fst l) -> (forall eq, eq ∈ l -> t_hpke_seen db !! to_vec eq.1 = None) ->
  writes tab_seen (for_each l (fun '(enc, sq) => insert_seen (to_vec enc) (as_i64 sq))) db (fun t =>
    (forall enc sq, (enc, sq) ∈ l -> t !! to_vec enc = Some (as_i64 sq))
    /\ (forall enc, enc ∉ map fst l -> t !! to_vec enc = t_hpke_seen db !! to_vec enc)
    /\ (forall k, is_Some (t !! k) -> is_Some (t_hpke_seen db !! k) \/ exists enc : key, k = to_vec enc)).
Proof.
  intros Hnd Hfree. apply (writes_each tab_seen l _ db (fun pre t =>
    (forall enc sq, (enc, sq) ∈ pre -> t !! to_vec enc = Some (as_i64 sq))
    /\ (forall enc, enc ∉ map fst pre -> t !! to_vec enc = t_hpke_seen db !! to_vec enc)
    /\ (forall k, is_Some (t !! k) -> is_Some (t_hpke_seen db !! k) \/ exists enc : key, k = to_vec enc))).
  - split_and!; [set_solver | done | auto].
  - intros pre [enc sq] rest t -> (Hl & Hl' & Hk). rewrite map_app in Hnd. cbn in Hnd.
    apply NoDup_app in Hnd as (_ & Hdis & _).
    assert (enc ∉ map fst pre) as Hout by (intros Hin; apply (Hdis _ Hin); set_solver).
    unfold insert_seen, writes. rewrite post_bind, post_get. cbv beta iota.
    apply (writes_insert_key tab_seen (to_vec enc) (as_i64 sq)
      (fun t => modify (fun db => db <| t_hpke_seen := t |>))).
    + cbn. rewrite Hl' by done. apply (Hfree (enc, sq)). set_solver.
    + apply writes_modify. eexists. split; [reflexivity|]. cbn. split_and!.
      * intros e q [Hin|Hin]%elem_of_app.
        -- rewrite lookup_insert_ne; [by apply Hl|]. rewrite to_vec_inj. intros ->.
           apply Hout. apply list_elem_of_In, (in_map fst _ (e, q)), list_elem_of_In. done.
        -- apply list_elem_of_singleton in Hin. simplify_eq. by rewrite lookup_insert_eq.
      * intros e. rewrite map_app. intros He. rewrite lookup_insert_ne by (rewrite to_vec_inj; set_solver).
        apply Hl'. set_solver.
      * intros k. rewrite lookup_insert_is_Some'. intros [<-|Hs]; eauto.
Qed.

Lemma writes_seen h db :
  cov_seen db h ->
  writes tab_seen (write_seen h (dirty h)) db (fun t =>
    (forall enc : key, t !! to_vec enc = as_i64 <$> seen_enc h !! enc)
    /\ (forall k, is_Some (t !! k) -> is_Some (t_hpke_seen db !! k) \/ exists enc : key, k = to_vec enc)).
Proof.
  intros Hc. unfold write_seen. destruct (d_seen_enc_cleared (dirty h)) eqn:Ed.
  - unfold rewrite_seen. apply (writes_seq tab_seen _ _ _ (fun t => t = ∅)); [apply writes_modify; eauto|].
    intros _ ->. eapply writes_conseq; [apply writes_seen_rows; [apply NoDup_fst_map_to_list | done]|].
    cbn. intros t (Hl & Hl' & Hk). split.
    + intros enc. destruct (seen_enc h !! enc) as [q|] eqn:Eq; cbn.
      * apply Hl. by apply elem_of_map_to_list.
      * rewrite Hl'; [done|]. intros Hin%list_elem_of_In. apply in_map_iff in Hin as ([e q] & He & Hin).
        apply list_elem_of_In, elem_of_map_to_list in Hin. cbn in He. congruence.
    + intros k Hs. destruct (Hk _ Hs) as [Hs'|]; [|auto]. by destruct Hs'.
  - destruct Hc as [Hc|(Hnd & _ & Hc)]; [congruence|]. unfold insert_seen_new.
    set (l := omap _ _).
    assert (forall enc sq, (enc, sq) ∈ l <-> enc ∈ d_seen_enc_new (dirty h) /\ seen_enc h !! enc = Some sq) as Hl0.
    { intros enc sq. unfold l. rewrite list_elem_of_omap. split.
      - intros (e & Hin & He). destruct (seen_enc h !! e) eqn:E; cbn in He; by simplify_eq.
      - intros [Hin He]. exists enc. by rewrite He. }
    assert (forall enc, enc ∈ map fst l <-> enc ∈ d_seen_enc_new (dirty h) /\ is_Some (seen_enc h !! enc)) as Hl1.
    { intros enc. rewrite list_elem_of_In, in_map_iff. setoid_rewrite <- list_elem_of_In. split.
      - intros ([e q] & <- & Hin%Hl0). cbn. naive_solver.
      - intros [Hin [q Hq]]. exists (enc, q). split; [done|]. by apply Hl0. }
    eapply writes_conseq; [apply writes_seen_rows|].
    + clear -Hnd. unfold l. induction Hnd as [|e es He Hnd IH]; cbn; [constructor|].
      destruct (seen_enc h !! e) as [q|]; cbn; [|done]. constructor; [|done].
      intros Hin%list_elem_of_In. apply in_map_iff in Hin as ([e' q'] & <- & Hin%list_elem_of_In).
      apply list_elem_of_omap in Hin as (e & Hin & Hq). destruct (seen_enc h !! e); cbn in Hq; by simplify_eq.
    + intros [enc q] [Hin Hq]%Hl0. specialize (Hc enc). rewrite Hq, bool_decide_eq_true_2 in Hc by done. done.
    + cbn. intros t (Hw & Hw' & Hk). split; [|done]. intros enc. specialize (Hc enc).
      destruct (seen_enc h !! enc) as [q|] eqn:Eq; cbn.
      * case_bool_decide as Hin; [by apply Hw, Hl0|]. rewrite Hw'; [done|]. rewrite Hl1. naive_solver.
      * rewrite Hw'; [done|]. rewrite Hl1, Eq. by intros [_ []].
Qed.

(** ** The home server's half of the transaction *)

Lemma live_row_box h o q r :
  live_row h o q = Some r -> exists box, mailboxes h !! o = Some box /\ In (q, r) (rows box).
Proof.
  unfold live_row. destruct (mailboxes h !! o) as [box|]; [|done]. cbn. intros Hr%bt_get_In. eauto.
Qed.

Lemma inv_rows_sound n h db : home_inv n h -> n + 1 < 2 ^ 63 -> cov_mail db h -> rows_sound h.
Proof.
  intros Hi Hn Hc o q r Hr. destruct (live_row_box _ _ _ _ Hr) as (box & Hb & Hin).
  destruct (inv_boxes _ _ Hi _ _ Hb) as (Hwf & Hnext & _).
  destruct (wf_rows _ Hwf _ _ Hin) as (Hq & Hlt & _). split_and!; [done | lia |].
  pose proof (mail_rows _ _ Hc o q ltac:(lia)) as Hrow. unfold cov_row in Hrow. rewrite Hr in Hrow.
  destruct Hrow as (cols & -> & _). by eexists.
Qed.

Lemma inv_tokens_unique n h : home_inv n h -> tokens_unique h.
Proof.
  intros Hi o q r q' r' Hr Hr' Heq.
  destruct (live_row_box _ _ _ _ Hr) as (box & Hb & Hin). destruct (live_row_box _ _ _ _ Hr') as (box' & Hb' & Hin').
  rewrite Hb in Hb'. simplify_eq. destruct (inv_boxes _ _ Hi _ _ Hb) as (Hwf & _).
  destruct (wf_rows _ Hwf _ _ Hin) as (_ & _ & H1). destruct (wf_rows _ Hwf _ _ Hin') as (_ & _ & H2). congruence.
Qed.

Definition write_mail h (d : HomeDirty) : tx unit :=
  delete_mail d ;; insert_mailbox_rows h (d_mailbox_new d).

Lemma kept_live h db o q v :
  cov_mail db h -> q < 2 ^ 63 -> kept_row db (dirty h) o q = Some v -> mail_val h (o, q) = Some v.
Proof.
  intros Hc Hq Hk. pose proof (mail_rows _ _ Hc o q Hq) as Hrow. unfold cov_row in Hrow. unfold mail_val. cbn.
  destruct (live_row h o q) as [r|]; cbn; [|congruence].
  destruct Hrow as (cols & -> & Hrow). cbn. case_bool_decide; congruence.
Qed.

Lemma writes_mail n h db :
  home_inv n h -> n + 1 < 2 ^ 63 -> cov_mail db h ->
  (forall k z, is_Some (t_mailbox_rows db !! (k, z)) ->
     exists (o : key) q, k = to_vec o /\ z = as_i64 q /\ q < 2 ^ 63) ->
  (forall o, is_Some (mailboxes h !! o) -> is_Some (t_identities db !! to_vec o)) ->
  writes tab_mail (write_mail h (dirty h)) db (fun t =>
    (forall o q, q < 2 ^ 63 -> t !! mail_key (o, q) = mail_val h (o, q))
    /\ (forall k, is_Some (t !! k) -> is_Some (t_mailbox_rows db !! k) \/ exists o q, k = mail_key (o, q) /\ q < 2 ^ 63)).
Proof.
  intros Hi Hn Hc Hko Hid. pose proof (inv_rows_sound _ _ _ Hi Hn Hc) as Hs.
  assert (forall o q box, mailboxes h !! o = Some box -> q < next_seq box -> q < 2 ^ 63) as Hsmall.
  { intros o q box Hb Hq. destruct (inv_boxes _ _ Hi _ _ Hb) as (_ & Hnext & _). lia. }
  eapply writes_seq; [apply writes_delete_mail|].
  { intros o q Hin. destruct (mail_dropped_old _ _ Hc _ _ Hin) as (box & Hb & Hq). eauto. }
  intros t0 [H0 Hk0]. eapply writes_conseq.
  { apply (writes_insert_mail h); [done | by eapply inv_tokens_unique | apply Hc | | |].
    - intros [o q] Hin. destruct (mail_new_old _ _ Hc _ _ Hin) as (box & Hb & Hq). cbn. eauto.
    - intros [o q] Hin [r Hr]. cbn in *. destruct (mail_new_old _ _ Hc _ _ Hin) as (box & Hb & Hq). split; [|eauto].
      unfold mail_key. cbn. rewrite H0 by eauto.
      pose proof (mail_rows _ _ Hc o q ltac:(eauto)) as Hrow. unfold cov_row in Hrow. rewrite Hr in Hrow.
      destruct Hrow as (cols & _ & Hrow). by rewrite bool_decide_eq_true_2 in Hrow.
    - cbn. intros [k z] v Hv. destruct (Hko k z) as (o & q & -> & -> & Hq); [apply Hk0; eauto|].
      exists (o, q). split; [done|]. split; [done|]. rewrite H0 in Hv by done. by eapply kept_live. }
  cbn. intros t [Hl Hk]. split.
  - intros o q Hq. rewrite Hl by done. cbn. unfold mail_key at 1 2. cbn. rewrite H0 by done.
    pose proof (mail_rows _ _ Hc o q Hq) as Hrow. unfold cov_row in Hrow. unfold mail_val. cbn.
    destruct (live_row h o q) as [r|]; cbn; [|done]. destruct Hrow as (cols & -> & Hrow). cbn. by case_bool_decide.
  - intros k [v Hs']. destruct (Hk _ _ Hs') as [Hv|([o q] & Hq & _ & -> & _)]; [left; apply Hk0; eauto | right; eauto].
Qed.

Lemma covered_identity h db id :
  cov_identities db h -> is_Some (mailboxes h !! id) ->
  (if bool_decide (id ∈ elements (d_identities (dirty h))) then Some (identity_cols (identity_row h id))
   else t_identities db !! to_vec id) = Some (identity_cols (identity_row h id)).
Proof.
  intros Hc [box Hb]. case_bool_decide as Hin; [done|]. destruct (Hc id) as [_ [Hd|Hd]]; [set_solver|].
  rewrite Hd. unfold identity_view. by rewrite Hb.
Qed.

Lemma first_token_In tok l k : first_token tok l = Some k -> In (tok, k) l.
Proof.
  unfold first_token. destruct (List.find _ l) as [[t k']|] eqn:E; cbn; [|done]. intros [= ->].
  apply find_some in E as [Hin Hb]. cbn in Hb. apply bool_decide_eq_true in Hb. by subst.
Qed.
End Home.
