(* ===== verification/PgTx.v ===== *)
(** * The transaction as a whole

    The group host's loops and the composition of both halves: from a covered
    state [persist_inner] succeeds, and the tables it leaves cover memory with
    empty journals. *)

From S2P Require Export PgPersist.

Section Regroup.
Context {S E : Type}.

Lemma regroup3 (a b c k : stM S E unit) s Q :
  post (a ;; b ;; c ;; k) s Q = post ((a ;; b ;; c) ;; k) s Q.
Proof.
  unfold post, mbind, stM_bind. destruct (a s) as [s1 [[]|e]]; [|done]. destruct (b s1) as [s2 [[]|e]]; [|done].
  by destruct (c s2) as [s3 [[]|e]].
Qed.

Lemma regroup4 (a b c d k : stM S E unit) s Q :
  post (a ;; b ;; c ;; d ;; k) s Q = post (((a ;; b ;; c) ;; d) ;; k) s Q.
Proof.
  rewrite regroup3. unfold post, mbind, stM_bind. destruct (a s) as [s1 [[]|e]]; [|done].
  destruct (b s1) as [s2 [[]|e]]; [|done]. by destruct (c s2) as [s3 [[]|e]].
Qed.
End Regroup.

(** A statement on one table, then the rest of the transaction. *)
Lemma writes_then {T} (tab : Table T) (m k : tx unit) db (P : T -> Prop) Q :
  writes tab m db P -> (forall t, P t -> post k (tset tab t db) Q) -> post (m ;; k) db Q.
Proof. intros Hm Hk. unfold writes in Hm. eapply post_seq; [exact Hm|]. intros db' (t & -> & Ht). by apply Hk. Qed.

Lemma writes_last {T} (tab : Table T) (m : tx unit) db (P : T -> Prop) (Q : presult unit -> Db -> Prop) :
  writes tab m db P -> (forall t, P t -> Q (Ok tt) (tset tab t db)) -> post m db Q.
Proof. intros Hm Hk. unfold writes in Hm. eapply post_conseq; [exact Hm|]. intros r db' (-> & t & -> & Ht). by apply Hk. Qed.

(** ** Tables rewritten group by group *)

Section Rewrite.
Context {V W : Type} (tab : Table (gmap (bytes * bytes) V)) (cols : W -> V).

(** The rows of one group are those of the map [m]. *)
Definition group_rows (t : gmap (bytes * bytes) V) (gid : GroupId) (m : gmap key W) : Prop :=
  (forall n : key, t !! (gid_vec gid, to_vec n) = cols <$> m !! n)
  /\ forall c, is_Some (t !! (gid_vec gid, c)) -> exists n : key, c = to_vec n.

Lemma writes_rewrite (ins : bytes -> bytes -> V -> tx unit) (gid : GroupId) (m : gmap key W) db :
  (forall n v t, t !! (gid_vec gid, n) = None ->
     writes tab (ins (gid_vec gid) n v) (tset tab t db) (fun t' => t' = <[(gid_vec gid, n) := v]> t)) ->
  (forall c, tget tab db !! (gid_vec gid, c) = None) ->
  writes tab (for_each (map_to_list m) (fun '(n, w) => ins (gid_vec gid) (to_vec n) (cols w))) db (fun t =>
    group_rows t gid m /\ forall k c, k <> gid_vec gid -> t !! (k, c) = tget tab db !! (k, c)).
Proof.
  intros Hins Hempty. eapply writes_conseq.
  - apply (writes_each tab _ _ db (fun pre t =>
      (forall n w, (n, w) ∈ pre -> t !! (gid_vec gid, to_vec n) = Some (cols w))
      /\ (forall c, is_Some (t !! (gid_vec gid, c)) -> exists n, n ∈ map fst pre /\ c = to_vec n)
      /\ forall k c, k <> gid_vec gid -> t !! (k, c) = tget tab db !! (k, c))).
    + split_and!; [set_solver | | done]. intros c. rewrite Hempty. by intros [].
    + intros pre [n w] rest t Hxs (Hl & Hk & Hf).
      assert (n ∉ map fst pre) as Hout.
      { pose proof (NoDup_fst_map_to_list m) as Hnd. change (map_to_list m).*1 with (map fst (map_to_list m)) in Hnd.
        rewrite Hxs, map_app in Hnd. apply NoDup_app in Hnd as (_ & Hdis & _). intros Hin. apply (Hdis _ Hin). set_solver. }
      eapply writes_conseq; [apply Hins|].
      * destruct (t !! _) eqn:E; [|done]. destruct (Hk (to_vec n)) as (n' & Hn' & Heq); [eauto|].
        apply arr_eq in Heq. by subst.
      * cbn. intros t' ->. split_and!.
        -- intros n' w' [Hin|Hin]%elem_of_app.
           ++ rewrite lookup_insert_ne; [by apply Hl|]. intros [= Heq]. apply arr_eq in Heq. subst n'.
              apply Hout, list_elem_of_In, (in_map fst _ (n, w')), list_elem_of_In. done.
           ++ apply list_elem_of_singleton in Hin. simplify_eq. by rewrite lookup_insert_eq.
        -- intros c. rewrite lookup_insert_is_Some'. intros [[= <-]|Hs].
           ++ exists n. rewrite map_app. set_solver.
           ++ destruct (Hk _ Hs) as (n' & Hn' & ->). exists n'. rewrite map_app. set_solver.
        -- intros k c Hne. rewrite lookup_insert_ne by congruence. by apply Hf.
  - cbn. intros t (Hl & Hk & Hf). split; [|done]. split.
    + intros n. destruct (m !! n) as [w|] eqn:E; cbn; [apply Hl; by apply elem_of_map_to_list|].
      destruct (t !! _) eqn:Et; [|done]. destruct (Hk (to_vec n)) as (n' & Hn' & Heq); [eauto|].
      apply arr_eq in Heq. subst n'. apply list_elem_of_In, in_map_iff in Hn' as ([n' w] & <- & Hin).
      apply list_elem_of_In, elem_of_map_to_list in Hin. cbn in *. congruence.
    + intros c Hs. destruct (Hk _ Hs) as (n & _ & ->). eauto.
Qed.

Lemma filter_other_group (t : gmap (bytes * bytes) V) (g k c : bytes) :
  filter (fun kv => kv.1.1 <> g) t !! (k, c) = if bool_decide (k = g) then None else t !! (k, c).
Proof.
  rewrite map_lookup_filter. destruct (t !! (k, c)) as [v|]; cbn; [|by case_cond].
  case_bool_decide; case_guard; naive_solver.
Qed.

(** [DELETE .. WHERE group_id = $1], then the rows of the group when it is there. *)
Lemma writes_replace (ins : bytes -> bytes -> V -> tx unit) (gid : GroupId) (mo : option (gmap key W)) db :
  (forall n v t, is_Some mo -> t !! (gid_vec gid, n) = None ->
     writes tab (ins (gid_vec gid) n v) (tset tab t db) (fun t' => t' = <[(gid_vec gid, n) := v]> t)) ->
  writes tab (modify (fun db => tset tab (filter (fun kv => kv.1.1 <> gid_vec gid) (tget tab db)) db) ;;
              match mo with
              | None => mret tt
              | Some m => for_each (map_to_list m) (fun '(n, w) => ins (gid_vec gid) (to_vec n) (cols w))
              end) db (fun t =>
    group_rows t gid (default ∅ mo) /\ forall k c, k <> gid_vec gid -> t !! (k, c) = tget tab db !! (k, c)).
Proof.
  intros Hins. set (t1 := filter (fun kv => kv.1.1 <> gid_vec gid) (tget tab db)).
  apply (writes_seq tab _ _ _ (fun t => t = t1)); [apply writes_modify; eauto|]. intros _ ->.
  assert (forall k c, t1 !! (k, c) = if bool_decide (k = gid_vec gid) then None else tget tab db !! (k, c)) as Ht1
    by (intros; apply filter_other_group).
  assert (forall c, t1 !! (gid_vec gid, c) = None) as Hnone by (intros; by rewrite Ht1, bool_decide_eq_true_2).
  assert (forall k c, k <> gid_vec gid -> t1 !! (k, c) = tget tab db !! (k, c)) as Hf
    by (intros; by rewrite Ht1, bool_decide_eq_false_2).
  destruct mo as [m|]; cbn.
  - eapply writes_conseq; [apply writes_rewrite|].
    + intros n v t Hn. rewrite tset_tset. apply Hins; eauto.
    + by rewrite tget_tset.
    + cbn. rewrite tget_tset. intros t [H1 H2]. split; [done|]. intros k c Hne. by rewrite H2, Hf.
  - apply writes_ret. rewrite tget_tset. split; [split|done].
    + intros n. by rewrite Hnone, lookup_empty.
    + intros c. rewrite Hnone. by intros [].
Qed.

(** The loop over the groups; [m gid] are the rows of a group that is there. *)
Lemma writes_rewrites (body : GroupId -> tx unit) (m : GroupId -> gmap key W) (xs : list GroupId) db :
  (forall gid t, gid ∈ xs -> writes tab (body gid) (tset tab t db) (fun t' =>
     group_rows t' gid (m gid) /\ forall k c, k <> gid_vec gid -> t' !! (k, c) = t !! (k, c))) ->
  writes tab (for_each xs body) db (fun t =>
    (forall gid, gid ∈ xs -> group_rows t gid (m gid))
    /\ (forall gid, gid ∉ xs -> forall c, t !! (gid_vec gid, c) = tget tab db !! (gid_vec gid, c))
    /\ (forall k c, is_Some (t !! (k, c)) -> is_Some (tget tab db !! (k, c))
           \/ exists gid (n : key), k = gid_vec gid /\ c = to_vec n)).
Proof.
  intros Hbody. apply (writes_each tab xs body db (fun pre t =>
    (forall gid, gid ∈ pre -> group_rows t gid (m gid))
    /\ (forall gid, gid ∉ pre -> forall c, t !! (gid_vec gid, c) = tget tab db !! (gid_vec gid, c))
    /\ (forall k c, is_Some (t !! (k, c)) -> is_Some (tget tab db !! (k, c))
           \/ exists gid (n : key), k = gid_vec gid /\ c = to_vec n))).
  - split_and!; [set_solver | done | auto].
  - intros pre x rest t -> (Hl & Hf & Hk). eapply writes_conseq; [apply Hbody; set_solver|].
    cbn. intros t' [Hx Hx']. split_and!.
    + intros gid Hin. destruct (decide (gid = x)) as [->|Hne]; [done|].
      assert (gid_vec gid <> gid_vec x) as Hv by (by rewrite gid_vec_inj).
      destruct (Hl gid) as [H1 H2]; [set_solver|]. split.
      * intros n. by rewrite Hx'.
      * intros c. rewrite Hx' by done. apply H2.
    + intros gid Hin c. rewrite Hx' by (rewrite gid_vec_inj; set_solver). apply Hf. set_solver.
    + intros k c Hs. destruct (decide (k = gid_vec x)) as [->|Hne].
      * destruct Hx as [_ Hx]. destruct (Hx _ Hs) as [n ->]. eauto.
      * rewrite Hx' in Hs by done. eauto.
Qed.
End Rewrite.

Section Transaction.
Context `{Crypto}.
Implicit Types (h : HomeServer) (gs : GroupHost) (db : Db).

(** The tables of one half are left alone by the other. *)
Definition same_group_tables db db' : Prop :=
  t_groups db' = t_groups db /\ t_group_creds db' = t_group_creds db /\ t_group_invites db' = t_group_invites db
  /\ t_group_pending db' = t_group_pending db /\ t_group_stream db' = t_group_stream db
  /\ t_group_files db' = t_group_files db.

Definition at_rest h : HomeServer := h <| dirty := clean_dirty |>.

Lemma persist_home_ok n h db :
  home_inv n h -> n + 1 < 2 ^ 63 -> home_covered db h -> keys_ok db ->
  post (persist_home h (dirty h)) db (fun r db' => r = Ok tt
    /\ home_synced db' h /\ keys_ok db' /\ same_group_tables db db').
Proof.
  intros Hi Hn [Hsrv Hids Hmail Htok Hpre Hmem Hpeer Hout Hseen] Hko. unfold persist_home.
  eapply writes_then; [by apply writes_server|]. intros _ ->. eapply writes_then; [apply upsert_identities|]. intros t1 [Hl1 Hk1].
  assert (forall o, is_Some (mailboxes h !! o) -> is_Some (t1 !! to_vec o)) as Hid.
  { intros o Ho. rewrite Hl1 by done. cbn. rewrite covered_identity by done. eauto. }
  rewrite regroup4. eapply writes_then.
  { apply (writes_mail n); [done | done | | | exact Hid].
    - destruct Hmail as [M1 M2 M3 M4 M5]. split; [exact M1 | exact M2 | exact M3 | exact M4 | exact M5].
    - exact (ok_mail _ Hko). }
  intros t2 [Hl2 Hk2]. rewrite regroup3. eapply writes_then.
  { apply writes_tokens; [exact Htok|]. intros tok k Hin%first_token_In. apply Hid.
    destruct (inv_tokens _ _ Hi _ _ Hin) as (box & -> & _). eauto. }
  intros t3 [Hl3 Hk3]. eapply writes_then.
  { apply writes_prekeys; [exact Hpre|]. intros o Ho. apply Hid.
    destruct (inv_prekeys _ _ Hi _ Ho) as (box & -> & _). eauto. }
  intros t4 [Hl4 Hk4]. eapply writes_then; [apply writes_memberships; [exact Hmem | exact Hid]|].
  intros t5 [Hl5 Hk5]. eapply writes_then; [apply upsert_peers|]. intros t6 [Hl6 Hk6].
  eapply writes_then; [apply writes_outbound; exact Hout|].
  intros _ ->. change (if d_seen_enc_cleared (dirty h) then _ else _) with (write_seen h (dirty h)).
  eapply writes_last; [apply (writes_seen h); exact Hseen|].
  intros t7 [Hl7 Hk7]. split; [done|]. split; [|split; [|done]].
  - split; cbn; try done.
    + intros id. rewrite Hl1 by done. cbn. unfold identity_view. destruct (mailboxes h !! id) as [box|] eqn:Eb.
      * rewrite covered_identity; [done | done | by rewrite Eb].
      * destruct (Hids id) as [Hin Hd]. rewrite Eb in Hin.
        assert (id ∉ d_identities (dirty h)) as Hout' by (intros Hm; by destruct (Hin Hm)).
        rewrite bool_decide_eq_false_2 by set_solver. destruct Hd as [Hd|Hd]; [done|].
        rewrite Hd. unfold identity_view. by rewrite Eb.
    + intros p. rewrite Hl6 by done. specialize (Hpeer p). cbn in *. destruct (peers h !! p); cbn; [|done].
      case_bool_decide; [done|]. destruct Hpeer; [set_solver | done].
  - destruct Hko as [K1 K2 K3 K4 K5 K6 K7 K8 K9 K10 K11 K12 K13]. split; cbn; try done.
    + intros k [v Hv]. destruct (Hk1 _ _ Hv) as [Hv'|(x & _ & _ & -> & _)]; [apply K1; eauto | eauto].
    + intros k z Hs. destruct (Hk2 _ Hs) as [Hv'|(o & q & Heq & Hq)]; [by apply K2|].
      unfold mail_key in Heq. cbn in Heq. injection Heq as -> ->. eauto.
    + intros k Hs. destruct (Hk3 _ Hs) as [Hv'|Hv']; [by apply K3 | done].
    + intros r Hs. destruct (Hk4 _ Hs) as [Hv'|Hv']; [by apply K4 | done].
    + intros r Hs. destruct (Hk5 _ Hs) as [Hv'|Hv']; [by apply K5 | done].
    + intros k [v Hv]. destruct (Hk6 _ _ Hv) as [Hv'|(x & _ & _ & -> & _)]; [apply K6; eauto | eauto].
    + intros k Hs. destruct (Hk7 _ Hs) as [Hv'|Hv']; [by apply K7 | done].
Qed.

(** ** The group host's half *)

Lemma upsert_groups gs (D : gset GroupId) db :
  writes tab_groups (for_each (elements D) (upsert_group gs)) db
    (rows_written tab_groups gid_vec (fun _ => True) (fun gid => group_cols <$> groups gs !! gid) db (elements D)).
Proof.
  apply writes_upserts; [intros a b; by apply gid_vec_inj|].
  intros gid t _. unfold upsert_group. destruct (groups gs !! gid); cbn; [apply writes_modify; eauto | by apply writes_ret].
Qed.

Definition cred_key (gc : GroupId * key) : bytes * bytes := (gid_vec gc.1, to_vec gc.2).

Lemma upsert_creds gs (D : gset (GroupId * key)) db :
  (forall gid, is_Some (groups gs !! gid) -> is_Some (t_groups db !! gid_vec gid)) ->
  writes tab_creds (for_each (elements D) (fun '(gid, cid) => upsert_cred gs gid cid)) db
    (rows_written tab_creds cred_key (fun _ => True) (fun gc => cred_cols <$> live_cred gs gc.1 gc.2) db (elements D)).
Proof.
  intros Hfk. apply writes_upserts.
  { intros [g c] [g' c']. unfold cred_key. cbn. intros [= Hg Hc]. apply gid_vec_inj in Hg. apply arr_eq in Hc. by subst. }
  intros [gid cid] t _. unfold upsert_cred. cbn. change (groups gs !! gid ≫= _) with (live_cred gs gid cid).
  destruct (live_cred gs gid cid) as [c|] eqn:Ec; cbn; [|by apply writes_ret].
  unfold writes. apply post_references_group; [apply Hfk; unfold live_cred in Ec; by destruct (groups gs !! gid)|].
  rewrite post_modify. split; [done|]. eexists. split; [reflexivity | done].
Qed.

Lemma upsert_files gs (D : gset key) db :
  (forall tok f, files gs !! tok = Some f -> is_Some (t_groups db !! gid_vec (slot_group_id f))) ->
  writes tab_files (for_each (elements D) (upsert_file gs)) db
    (rows_written tab_files to_vec (fun _ => True) (fun tok : key => file_cols <$> files gs !! tok) db (elements D)).
Proof.
  intros Hfk. apply writes_upserts; [intros a b; by apply arr_eq|].
  intros tok t _. unfold upsert_file. destruct (files gs !! tok) as [f|] eqn:Ef; cbn; [|by apply writes_ret].
  unfold writes. apply post_references_group; [by eapply Hfk|].
  rewrite post_modify. split; [done|]. eexists. split; [reflexivity | done].
Qed.

(** The rows of a group that is not there: none are written. *)
Definition invites_of gs gid : gmap key StoredInvite := from_option g_invites ∅ (groups gs !! gid).
Definition pending_of gs gid : gmap key PendingRecord := from_option g_pending ∅ (groups gs !! gid).

(** One [INSERT] of a row that references its group. *)
Lemma insert_group_row {K V} `{Countable K} (tab : Table (gmap K V)) (g : bytes) (k : K) (v : V)
    (upd : gmap K V -> Db -> Db) db :
  (forall t, upd t db = tset tab t db) -> tget tab db !! k = None -> is_Some (t_groups db !! g) ->
  writes tab (db ← get; t ← lift (insert_key k v (tget tab db)); references_group g ;; modify (upd t)) db
    (fun t' => t' = <[k := v]> (tget tab db)).
Proof.
  intros Hu Hn Hg. unfold writes. rewrite post_bind, post_get. cbv beta iota.
  apply (writes_insert_key tab k v (fun t => references_group g ;; modify (upd t))); [done|].
  unfold writes. apply post_references_group; [done|]. rewrite post_modify. split; [done|]. eauto.
Qed.

Lemma rewrite_invites_rows gs gid db :
  (is_Some (groups gs !! gid) -> is_Some (t_groups db !! gid_vec gid)) ->
  writes tab_invites (rewrite_invites gs gid) db (fun t =>
    group_rows invite_cols t gid (invites_of gs gid)
    /\ forall k c, k <> gid_vec gid -> t !! (k, c) = t_group_invites db !! (k, c)).
Proof.
  intros Hfk. pose proof (writes_replace tab_invites invite_cols insert_invite gid (g_invites <$> groups gs !! gid) db) as Hw.
  unfold rewrite_invites, invites_of. destruct (groups gs !! gid) as [g|]; apply Hw; [|by intros ??? []].
  intros n v t _ Hn. apply (insert_group_row tab_invites (gid_vec gid)); [done..|]. by apply Hfk.
Qed.

Lemma rewrite_pending_rows gs gid db :
  (is_Some (groups gs !! gid) -> is_Some (t_groups db !! gid_vec gid)) ->
  writes tab_pending (rewrite_pending gs gid) db (fun t =>
    group_rows pending_cols t gid (pending_of gs gid)
    /\ forall k c, k <> gid_vec gid -> t !! (k, c) = t_group_pending db !! (k, c)).
Proof.
  intros Hfk. pose proof (writes_replace tab_pending pending_cols insert_pending gid (g_pending <$> groups gs !! gid) db) as Hw.
  unfold rewrite_pending, pending_of. destruct (groups gs !! gid) as [g|]; apply Hw; [|by intros ??? []].
  intros n v t _ Hn. apply (insert_group_row tab_pending (gid_vec gid)); [done..|]. by apply Hfk.
Qed.

(** *** The stream *)

Definition stream_key (gq : GroupId * N) : bytes * Z := (gid_vec gq.1, as_i64 gq.2).

Lemma live_stream_seq gs gid q r : live_stream_row gs gid q = Some r -> sr_seq r = q.
Proof.
  unfold live_stream_row. destruct (groups gs !! gid) as [g|]; [|done]. cbn.
  intros [_ Hq]%find_some. by apply N.eqb_eq.
Qed.

Lemma stream_key_inj a b : a.2 < 2 ^ 63 -> b.2 < 2 ^ 63 -> stream_key a = stream_key b -> a = b.
Proof.
  destruct a as [g q], b as [g' q']. unfold stream_key. cbn. intros Hq Hq' [= Hg Hs].
  apply gid_vec_inj in Hg. apply as_i64_inj in Hs; by subst.
Qed.

Lemma writes_stream gs db :
  cov_stream db gs ->
  (forall gid g, groups gs !! gid = Some g -> g_next_seq g <= 2 ^ 63) ->
  (forall gid, is_Some (groups gs !! gid) -> is_Some (t_groups db !! gid_vec gid)) ->
  writes tab_stream (insert_stream_new gs (gd_stream_new (gdirty gs))) db (fun t =>
    (forall gid q, q < 2 ^ 63 -> t !! stream_key (gid, q) = stream_cols <$> live_stream_row gs gid q)
    /\ (forall k, is_Some (t !! k) -> is_Some (t_group_stream db !! k)
           \/ exists gid q, k = stream_key (gid, q) /\ q < 2 ^ 63)).
Proof.
  intros Hc Hseq Hfk. unfold insert_stream_new, writes, post. rewrite for_each_omap.
  assert (forall gq, gq ∈ gd_stream_new (gdirty gs) -> gq.2 < 2 ^ 63) as Hsmall.
  { intros [gid q] Hin. destruct (stream_new_old _ _ Hc _ _ Hin) as (g & Hg & Hq). cbn. specialize (Hseq _ _ Hg). lia. }
  eapply (writes_conseq tab_stream).
  - apply (writes_rows tab_stream stream_key (fun gq => gq.2 < 2 ^ 63)
      (fun gq => stream_cols <$> live_stream_row gs gq.1 gq.2)); [intros a b; apply stream_key_inj | exact Hsmall |].
    intros pre [gid q] rest t Hxs [Hl _]. cbn. destruct (live_stream_row gs gid q) as [r|] eqn:Er; cbn; [|by apply writes_ret].
    rewrite (live_stream_seq _ _ _ _ Er). assert ((gid, q) ∈ gd_stream_new (gdirty gs)) as Hin by (rewrite Hxs; set_solver).
    apply (insert_group_row tab_stream (gid_vec gid)); [done| |].
    + change (t !! stream_key (gid, q) = None). rewrite Hl by exact (Hsmall _ Hin). cbn. rewrite Er. cbn.
      rewrite bool_decide_eq_false_2.
      * pose proof (stream_rows _ _ Hc gid q (Hsmall _ Hin)) as Hr. rewrite Er, bool_decide_eq_true_2 in Hr by done. exact Hr.
      * pose proof (stream_new_once _ _ Hc) as Hnd. rewrite Hxs in Hnd.
        apply NoDup_app in Hnd as (_ & Hdis & _). intros Hpre. apply (Hdis _ Hpre). set_solver.
    + apply Hfk. destruct (stream_new_old _ _ Hc _ _ Hin) as (g & Hg & _). eauto.
  - cbn. intros t [Hl Hk]. split.
    + intros gid q Hq. rewrite Hl by done. cbn. pose proof (stream_rows _ _ Hc gid q Hq) as Hr. unfold stream_key. cbn.
      destruct (live_stream_row gs gid q); cbn; [|done]. by case_bool_decide.
    + intros k [v Hv]. destruct (Hk _ _ Hv) as [Hv'|([gid q] & Hq & _ & -> & _)]; [eauto | right; eauto].
Qed.

Definition groups_at_rest gs : GroupHost := gs <| gdirty := clean_gdirty |>.

Definition same_home_tables db db' : Prop :=
  t_server_identity db' = t_server_identity db /\ t_identities db' = t_identities db
  /\ t_mailbox_rows db' = t_mailbox_rows db /\ t_tokens db' = t_tokens db /\ t_prekeys db' = t_prekeys db
  /\ t_memberships db' = t_memberships db /\ t_peers db' = t_peers db /\ t_outbound db' = t_outbound db
  /\ t_hpke_seen db' = t_hpke_seen db.

Lemma persist_groups_ok gs db :
  (forall gid g, groups gs !! gid = Some g -> g_next_seq g <= 2 ^ 63) ->
  groups_covered db gs -> keys_ok db ->
  post (persist_groups gs (gdirty gs)) db (fun r db' => r = Ok tt
    /\ groups_synced db' gs /\ keys_ok db' /\ same_home_tables db db').
Proof.
  intros Hseq [Hg Hcr Hinv Hpend Hst Hfi] Hko. unfold persist_groups.
  eapply writes_then; [apply upsert_groups|]. intros t1 [Hl1 Hk1].
  assert (forall gid g, groups gs !! gid = Some g -> t1 !! gid_vec gid = Some (group_cols g)) as Hgrp.
  { intros gid g Hgid. rewrite Hl1 by done. rewrite Hgid. cbn. case_bool_decide; [done|].
    specialize (Hg gid). rewrite Hgid in Hg. destruct Hg; [set_solver | done]. }
  assert (forall gid, is_Some (groups gs !! gid) -> is_Some (t1 !! gid_vec gid)) as Hfk.
  { intros gid [g Hgid]. rewrite (Hgrp _ _ Hgid). eauto. }
  eapply writes_then; [apply upsert_creds; exact Hfk|]. intros t2 [Hl2 Hk2].
  eapply writes_then.
  { apply (writes_rewrites tab_invites invite_cols _ (invites_of gs)). intros gid t _.
    apply rewrite_invites_rows. exact (Hfk gid). }
  intros t3 (Hl3 & Hf3 & Hk3). eapply writes_then.
  { apply (writes_rewrites tab_pending pending_cols _ (pending_of gs)). intros gid t _.
    apply rewrite_pending_rows. exact (Hfk gid). }
  intros t4 (Hl4 & Hf4 & Hk4). eapply writes_then.
  { apply writes_stream; [|exact Hseq | exact Hfk].
    destruct Hst as [S1 S2 S3]. split; [exact S1 | exact S2 | exact S3]. }
  intros t5 [Hl5 Hk5]. eapply writes_last.
  { apply upsert_files. intros tok f Hf. apply Hfk. specialize (Hfi tok). rewrite Hf in Hfi. by destruct Hfi. }
  intros t6 [Hl6 Hk6]. split; [done|]. split; [|split; [|done]].
  - split; cbn.
    + intros gid. destruct (groups gs !! gid) as [g|] eqn:E; [by apply Hgrp|].
      specialize (Hg gid). rewrite E in Hg. rewrite Hl1, E by done. done.
    + intros gid cid. specialize (Hl2 (gid, cid) I). specialize (Hcr gid cid). unfold cred_key in Hl2. cbn in Hl2.
      rewrite Hl2. destruct (live_cred gs gid cid); cbn; [|done].
      case_bool_decide; [done|]. destruct Hcr; [set_solver | done].
    + intros gid nonce. destruct (decide (gid ∈ elements (gd_invites (gdirty gs)))) as [Hin|Hout].
      * destruct (Hl3 _ Hin) as [Hr _]. rewrite Hr. unfold invites_of, live_invite.
        destruct (groups gs !! gid) as [g|]; cbn; [|rewrite lookup_empty; by left].
        destruct (g_invites g !! nonce); [done | by left].
      * rewrite Hf3 by done. destruct (Hinv gid) as [[Hd _]|Hd]; [set_solver | exact (Hd nonce)].
    + intros gid pid. destruct (decide (gid ∈ elements (gd_pending (gdirty gs)))) as [Hin|Hout].
      * destruct (Hl4 _ Hin) as [Hr _]. rewrite Hr. unfold pending_of, live_pending.
        by destruct (groups gs !! gid) as [g|]; cbn; [|rewrite lookup_empty].
      * rewrite Hf4 by done. destruct (Hpend gid) as [[Hd _]|Hd]; [set_solver | exact (Hd pid)].
    + exact Hl5.
    + intros tok. specialize (Hl6 tok I). specialize (Hfi tok). cbn in Hl6. rewrite Hl6.
      destruct (files gs !! tok) as [f|]; cbn; [|done]. destruct Hfi as [Hgf Hfi].
      case_bool_decide; [done|]. destruct Hfi; [set_solver | done].
  - destruct Hko as [K1 K2 K3 K4 K5 K6 K7 K8 K9 K10 K11 K12 K13]. split; cbn; try done.
    + intros k [v Hv]. destruct (Hk1 _ _ Hv) as [Hv'|(x & _ & _ & -> & _)]; [apply K8; eauto | eauto].
    + intros k c [v Hv]. destruct (Hk2 _ _ Hv) as [Hv'|([gid cid] & _ & _ & Heq & _)]; [apply K9; eauto|].
      unfold cred_key in Heq. cbn in Heq. injection Heq as -> ->. eauto.
    + intros k c Hs. destruct (Hk3 _ _ Hs) as [Hv'|Hv']; [by apply K10 | done].
    + intros k c Hs. destruct (Hk4 _ _ Hs) as [Hv'|Hv']; [by apply K11 | done].
    + intros k z Hs. destruct (Hk5 _ Hs) as [Hv'|(gid & q & Heq & Hq)]; [by apply K12|].
      unfold stream_key in Heq. cbn in Heq. injection Heq as -> ->. eauto.
    + intros k [v Hv]. destruct (Hk6 _ _ Hv) as [Hv'|(x & _ & _ & -> & _)]; [apply K13; eauto | eauto].
Qed.

(** ** Agreement covers memory *)

(** What the journals' predicates ask of memory alone. *)
Record home_tidy h : Prop := {
  tidy_tokens : NoDup (map fst (tokens h));
  tidy_memberships : forall o, NoDup (default [] (memberships h !! o))
      /\ (default [] (memberships h !! o) <> [] -> is_Some (mailboxes h !! o));
  tidy_rows : rows_sound h
}.

Lemma synced_home_covered db h : home_synced db h -> home_tidy h -> home_covered db (at_rest h).
Proof.
  intros [S1 S2 S3 S4 S5 S6 S7 S8 S9] [T1 T2 T3]. split.
  - by right.
  - intros id. split; [set_solver|]. right. exact (S2 id).
  - split; [constructor | set_solver | set_solver | intros o u; cbn; by rewrite lookup_empty |]. intros o q Hq. specialize (S3 o q Hq).
    unfold cov_row, kept_row, row_gone. cbn. rewrite !bool_decide_eq_false_2 by set_solver. rewrite lookup_empty. cbn.
    unfold mail_key, mail_val in S3. cbn in S3. rewrite S3. change (live_row (at_rest h) o q) with (live_row h o q).
    destruct (live_row h o q) as [r|] eqn:Er; [|done]. cbn. destruct (T3 _ _ _ Er) as (_ & _ & [cols Hc]).
    exists cols. destruct (mailbox_cols r); [|done]. cbn in *. by simplify_eq.
  - split; [done|]. intros tok. unfold cov_token. change (tokens (at_rest h)) with (tokens h).
    cbn -[first_token]. rewrite S4. destruct (first_token tok (tokens h)) as [k|]; cbn; [|intros r Hr; discriminate].
    right. split; [done|]. intros [Hin|(o & Hin & _)]; set_solver.
  - intros o. right. exact (S5 o).
  - intros o. destruct (T2 o). split_and!; [done | done |]. right. exact (S6 o).
  - intros p. cbn. rewrite S7. destruct (peers h !! p); [by right | done].
  - by right.
  - right. split; [constructor|]. split; [set_solver|]. intros enc. cbn. rewrite S9. by destruct (seen_enc h !! enc).
Qed.

Lemma synced_groups_covered db gs :
  groups_synced db gs -> (forall tok f, files gs !! tok = Some f -> is_Some (groups gs !! slot_group_id f)) ->
  groups_covered db (groups_at_rest gs).
Proof.
  intros [S1 S2 S3 S4 S5 S6] Hf. split.
  - intros gid. cbn. rewrite S1. destruct (groups gs !! gid); [by right | done].
  - intros gid cid. change (live_cred (groups_at_rest gs) gid cid) with (live_cred gs gid cid). rewrite S2.
    destruct (live_cred gs gid cid); [by right | done].
  - intros gid. right. exact (S3 gid).
  - intros gid. right. exact (S4 gid).
  - split; [constructor | set_solver |]. intros gid q Hq. rewrite S5 by done.
    change (live_stream_row (groups_at_rest gs) gid q) with (live_stream_row gs gid q).
    by destruct (live_stream_row gs gid q).
  - intros tok. cbn. rewrite S6. destruct (files gs !! tok) as [f|] eqn:E; cbn; [|done]. split; [by eapply Hf | by right].
Qed.
End Transaction.
