(* ===== verification/PgTouch.v ===== *)
(** * Changes the journal records

    One lemma per kind of change the methods of the home server make to what
    the tables hold: when memory changes in this way and the journal gets the
    entries the method adds, the coverage of the table survives. *)

From S2P Require Export PgTx.

Section Touch.
Context `{Crypto} (db : Db).
Implicit Types (h : HomeServer) (d : HomeDirty).

(** ** Identities *)

(** The entries of one identity changed and it is marked. *)
Lemma touch_identity h h' id :
  (forall i, i <> id -> directory h' !! i = directory h !! i /\ mailboxes h' !! i = mailboxes h !! i) ->
  is_Some (mailboxes h' !! id) ->
  d_identities (dirty h') = {[id]} ∪ d_identities (dirty h) ->
  cov_identities db h -> cov_identities db h'.
Proof.
  intros Hne Hid Hd Hc i. destruct (decide (i = id)) as [->|Hi].
  - split; [done|]. left. rewrite Hd. set_solver.
  - destruct (Hne i Hi) as [Hdir Hbox]. destruct (Hc i) as [H1 H2]. rewrite Hd. split.
    + rewrite Hbox. set_solver.
    + destruct H2 as [H2|H2]; [left; set_solver|]. right. rewrite H2.
      unfold identity_view, identity_row. by rewrite Hdir, Hbox.
Qed.

(** ** Mailbox rows *)

Lemma live_row_ne h h' o q :
  mailboxes h' !! o = mailboxes h !! o -> live_row h' o q = live_row h o q.
Proof. unfold live_row. by intros ->. Qed.

(** Rows of the other mailboxes are as they were. *)
Lemma cov_row_same h h' o q :
  live_row h' o q = live_row h o q ->
  ((o, q) ∈ d_mailbox_new (dirty h') <-> (o, q) ∈ d_mailbox_new (dirty h)) ->
  row_gone (dirty h') o q = row_gone (dirty h) o q ->
  cov_row db h o q -> cov_row db h' o q.
Proof.
  intros Hl Hn Hg. unfold cov_row, kept_row. rewrite Hl, Hg. by rewrite (bool_decide_ext _ _ Hn).
Qed.

(** A row that is deleted and not live is covered. *)
Lemma cov_row_gone h' o q :
  live_row h' o q = None -> row_gone (dirty h') o q = true -> cov_row db h' o q.
Proof. intros Hl Hg. unfold cov_row, kept_row. by rewrite Hl, Hg. Qed.

(** A row that was not there stays covered whatever the journal deletes. *)
Lemma cov_row_absent h h' o q :
  live_row h o q = None -> live_row h' o q = None ->
  (row_gone (dirty h) o q = true -> row_gone (dirty h') o q = true) ->
  cov_row db h o q -> cov_row db h' o q.
Proof.
  intros Hl Hl' Hg. unfold cov_row, kept_row. rewrite Hl, Hl'.
  destruct (row_gone (dirty h) o q); [by rewrite Hg|]. by case_cond.
Qed.

Lemma row_gone_ext d d' o q :
  (o ∈ d_mailbox_cleared d' <-> o ∈ d_mailbox_cleared d) ->
  ((o, q) ∈ d_mailbox_dropped d' <-> (o, q) ∈ d_mailbox_dropped d) ->
  d_mailbox_acked d' !! o = d_mailbox_acked d !! o -> row_gone d' o q = row_gone d o q.
Proof. intros H1 H2 H3. unfold row_gone. rewrite H3. by rewrite (bool_decide_ext _ _ H1), (bool_decide_ext _ _ H2). Qed.

(** A fresh mailbox has no rows. *)
Lemma touch_mail_register h h' id box :
  mailboxes h !! id = None -> rows box = [] -> mailboxes h' = <[id := box]> (mailboxes h) ->
  d_mailbox_new (dirty h') = d_mailbox_new (dirty h) -> d_mailbox_dropped (dirty h') = d_mailbox_dropped (dirty h) ->
  d_mailbox_cleared (dirty h') = d_mailbox_cleared (dirty h) -> d_mailbox_acked (dirty h') = d_mailbox_acked (dirty h) ->
  cov_mail db h -> cov_mail db h'.
Proof.
  intros Hn Hr Hm Hnew Hdrop Hcl Hack [M1 M2 M3 M4 M5].
  assert (forall o b, mailboxes h !! o = Some b -> mailboxes h' !! o = Some b) as Hmono.
  { intros o b Hb. rewrite Hm, lookup_insert_ne; [done | congruence]. }
  assert (forall o q, row_gone (dirty h') o q = row_gone (dirty h) o q) as Hg.
  { intros o q. apply row_gone_ext; by rewrite ?Hcl, ?Hdrop, ?Hack. }
  split.
  - by rewrite Hnew.
  - rewrite Hnew. intros o q Hin. destruct (M2 _ _ Hin) as (b & Hb & Hq). eauto.
  - rewrite Hdrop. intros o q Hin. destruct (M3 _ _ Hin) as (b & Hb & Hq). eauto.
  - by rewrite Hack.
  - intros o q Hq. specialize (M5 o q Hq). destruct (decide (o = id)) as [->|Hne].
    + apply (cov_row_absent h); [| |by rewrite Hg|done].
      * unfold live_row. by rewrite Hn.
      * unfold live_row. rewrite Hm, lookup_insert_eq. cbn. by rewrite Hr.
    + apply (cov_row_same h); [|by rewrite Hnew | by rewrite Hg | done].
      apply live_row_ne. by rewrite Hm, lookup_insert_ne.
Qed.

(** One mailbox changed; the journal entries of the others are as they were. *)
Lemma touch_mail_box h h' id box box' :
  mailboxes h !! id = Some box -> mailboxes h' = <[id := box']> (mailboxes h) -> next_seq box <= next_seq box' ->
  NoDup (d_mailbox_new (dirty h')) ->
  (forall o q, o <> id -> ((o, q) ∈ d_mailbox_new (dirty h') <-> (o, q) ∈ d_mailbox_new (dirty h))
     /\ ((o, q) ∈ d_mailbox_dropped (dirty h') <-> (o, q) ∈ d_mailbox_dropped (dirty h))
     /\ (o ∈ d_mailbox_cleared (dirty h') <-> o ∈ d_mailbox_cleared (dirty h))
     /\ d_mailbox_acked (dirty h') !! o = d_mailbox_acked (dirty h) !! o) ->
  (forall q, (id, q) ∈ d_mailbox_new (dirty h') -> (id, q) ∈ d_mailbox_new (dirty h) \/ q < next_seq box') ->
  (forall q, (id, q) ∈ d_mailbox_dropped (dirty h') -> (id, q) ∈ d_mailbox_dropped (dirty h) \/ q < next_seq box') ->
  (forall u, d_mailbox_acked (dirty h') !! id = Some u -> d_mailbox_acked (dirty h) !! id = Some u \/ u < 2 ^ 63) ->
  (forall q, q < 2 ^ 63 -> cov_row db h id q -> cov_row db h' id q) ->
  cov_mail db h -> cov_mail db h'.
Proof.
  intros Hb Hm Hnext Hnd Hother Hnew Hdrop Hack Hrow [M1 M2 M3 M4 M5]. split; [done| | | |].
  - intros o q Hin. destruct (decide (o = id)) as [->|Hne].
    + exists box'. rewrite Hm, lookup_insert_eq. split; [done|].
      destruct (Hnew _ Hin) as [Hin'|]; [|done]. destruct (M2 _ _ Hin') as (b & Hb' & Hq). simplify_eq. lia.
    + rewrite Hm, lookup_insert_ne by done. by apply M2, Hother.
  - intros o q Hin. destruct (decide (o = id)) as [->|Hne].
    + exists box'. rewrite Hm, lookup_insert_eq. split; [done|].
      destruct (Hdrop _ Hin) as [Hin'|]; [|done]. destruct (M3 _ _ Hin') as (b & Hb' & Hq). simplify_eq. lia.
    + rewrite Hm, lookup_insert_ne by done. destruct (Hother o q Hne) as (_ & Hd & _). by apply M3, Hd.
  - intros o u Hu. destruct (decide (o = id)) as [->|Hne]; [destruct (Hack _ Hu); [by eapply M4 | done]|].
    destruct (Hother o 0 Hne) as (_ & _ & _ & Ha). rewrite Ha in Hu. by eapply M4.
  - intros o q Hq. specialize (M5 o q Hq). destruct (decide (o = id)) as [->|Hne]; [by apply Hrow|].
    destruct (Hother o q Hne) as (Hn & Hd & Hc & Ha). apply (cov_row_same h); [|done | by apply row_gone_ext | done].
    apply live_row_ne. by rewrite Hm, lookup_insert_ne.
Qed.

Lemma live_row_insert h h' id box' q :
  mailboxes h' = <[id := box']> (mailboxes h) -> live_row h' id q = bt_get q (rows box').
Proof. intros Hm. unfold live_row. by rewrite Hm, lookup_insert_eq. Qed.

Lemma bt_get_app_last {V} (t : btree V) k v q :
  Forall (fun kv => kv.1 < k) t -> bt_get q (t ++ [(k, v)]) = if q =? k then Some v else bt_get q t.
Proof.
  unfold bt_get. induction 1 as [|[k' v'] t Hk Ht IH]; cbn in *.
  - rewrite N.eqb_sym. by destruct (q =? k).
  - destruct (N.eqb_spec k' q) as [->|Hne]; cbn; [|exact IH]. destruct (N.eqb_spec q k); [lia | done].
Qed.

Lemma bt_get_filter {V} (t : btree V) (ks : list N) q :
  bt_get q (List.filter (fun kv => negb (bool_decide (kv.1 ∈ ks))) t) = if bool_decide (q ∈ ks) then None else bt_get q t.
Proof.
  unfold bt_get. induction t as [|[k v] t IH]; cbn; [by case_cond|].
  destruct (bool_decide_reflect (k ∈ ks)) as [Hk|Hk]; cbn.
  - rewrite IH. destruct (bool_decide_reflect (q ∈ ks)); [done|]. destruct (N.eqb_spec k q); [congruence | done].
  - destruct (N.eqb_spec k q) as [->|Hne]; cbn; [by rewrite bool_decide_eq_false_2|]. exact IH.
Qed.

(** [append_inner]: one new row under the next sequence number. *)
Lemma touch_mail_push h h' id box box' sq r :
  mailboxes h !! id = Some box -> mailboxes h' = <[id := box']> (mailboxes h) -> box_wf box ->
  sq = next_seq box -> rows box' = rows box ++ [(sq, r)] -> next_seq box' = sq + 1 ->
  is_Some (ok (mailbox_cols r)) ->
  d_mailbox_new (dirty h') = d_mailbox_new (dirty h) ++ [(id, sq)] ->
  d_mailbox_dropped (dirty h') = d_mailbox_dropped (dirty h) ->
  d_mailbox_cleared (dirty h') = d_mailbox_cleared (dirty h) -> d_mailbox_acked (dirty h') = d_mailbox_acked (dirty h) ->
  cov_mail db h -> cov_mail db h'.
Proof.
  intros Hb Hm Hwf -> Hr Hn Hcols Hnew Hdrop Hcl Hack Hc.
  assert (Forall (fun kv => kv.1 < next_seq box) (rows box)) as Hlt.
  { rewrite Forall_forall. intros [k v] Hin%list_elem_of_In. cbn. destruct (wf_rows _ Hwf _ _ Hin) as (_ & [_ Hk] & _). exact Hk. }
  assert ((id, next_seq box) ∉ d_mailbox_new (dirty h)) as Hfresh.
  { intros Hin. destruct (mail_new_old _ _ Hc _ _ Hin) as (b & Hb' & Hq). simplify_eq. lia. }
  assert (bt_get (next_seq box) (rows box) = None) as Hnone.
  { destruct (bt_get _ _) as [v|] eqn:E; [|done]. apply bt_get_In in E. destruct (wf_rows _ Hwf _ _ E) as (_ & ? & _). lia. }
  apply (touch_mail_box h h' id box box'); [done | done | lia | | | | | | | done].
  - rewrite Hnew. apply NoDup_app. split_and!; [apply Hc | set_solver | apply NoDup_singleton].
  - intros o q Hne. rewrite Hnew, Hdrop, Hcl, Hack. split_and!; [set_solver | done | done | done].
  - intros q. rewrite Hnew, Hn. intros [Hin|Hin]%elem_of_app; [by left|]. right.
    apply list_elem_of_singleton in Hin. simplify_eq. lia.
  - rewrite Hdrop. auto.
  - rewrite Hack. auto.
  - intros q Hq Hrow. assert (row_gone (dirty h') id q = row_gone (dirty h) id q) as Hg
      by (apply row_gone_ext; by rewrite ?Hdrop, ?Hcl, ?Hack).
    unfold cov_row, kept_row in *. rewrite Hg, (live_row_insert _ _ _ _ _ Hm), Hr, bt_get_app_last by done.
    assert (live_row h id q = bt_get q (rows box)) as Hl by (unfold live_row; by rewrite Hb). rewrite Hl in Hrow.
    destruct (N.eqb_spec q (next_seq box)) as [->|Hne].
    + rewrite Hnone in Hrow. destruct Hcols as [cols Hcols]. exists cols. destruct (mailbox_cols r); [|done].
      cbn in Hcols. simplify_eq. split; [done|]. rewrite bool_decide_eq_true_2; [done|]. rewrite Hnew. set_solver.
    + rewrite (bool_decide_ext ((id, q) ∈ d_mailbox_new (dirty h')) ((id, q) ∈ d_mailbox_new (dirty h))); [done|].
      rewrite Hnew. set_solver.
Qed.

(** [gc_mailbox]: the rows numbered [ks] are dropped. *)
Lemma touch_mail_drop h h' id box box' (ks : list N) :
  mailboxes h !! id = Some box -> mailboxes h' = <[id := box']> (mailboxes h) ->
  rows box' = List.filter (fun kv => negb (bool_decide (kv.1 ∈ ks))) (rows box) -> next_seq box' = next_seq box ->
  (forall q, q ∈ ks -> q < next_seq box) ->
  d_mailbox_new (dirty h') = d_mailbox_new (dirty h) ->
  d_mailbox_dropped (dirty h') = d_mailbox_dropped (dirty h) ++ map (pair id) ks ->
  d_mailbox_cleared (dirty h') = d_mailbox_cleared (dirty h) -> d_mailbox_acked (dirty h') = d_mailbox_acked (dirty h) ->
  cov_mail db h -> cov_mail db h'.
Proof.
  intros Hb Hm Hr Hn Hks Hnew Hdrop Hcl Hack Hc.
  assert (forall o q, (o, q) ∈ d_mailbox_dropped (dirty h') <-> (o, q) ∈ d_mailbox_dropped (dirty h) \/ (o = id /\ q ∈ ks)) as Hd.
  { intros o q. rewrite Hdrop, elem_of_app. rewrite (list_elem_of_In (map _ _) (o, q)), in_map_iff.
    setoid_rewrite <- list_elem_of_In. naive_solver. }
  apply (touch_mail_box h h' id box box'); [done | done | lia | rewrite Hnew; apply Hc | | | | | | done].
  - intros o q Hne. rewrite Hd, Hnew, Hcl, Hack. naive_solver.
  - rewrite Hnew. auto.
  - intros q [Hin|[_ Hin]]%Hd; [by left|]. right. rewrite Hn. auto.
  - rewrite Hack. auto.
  - intros q Hq Hrow. assert (live_row h id q = bt_get q (rows box)) as Hl by (unfold live_row; by rewrite Hb).
    pose proof (live_row_insert h h' id box' q Hm) as Hl'. rewrite Hr, bt_get_filter in Hl'.
    case_bool_decide as Hin.
    + apply cov_row_gone; [done|]. unfold row_gone. rewrite (bool_decide_eq_true_2 ((id, q) ∈ d_mailbox_dropped (dirty h'))).
      * by rewrite orb_true_r.
      * apply Hd. auto.
    + apply (cov_row_same h); [congruence | by rewrite Hnew | | done].
      apply row_gone_ext; rewrite ?Hcl, ?Hack; [done | rewrite Hd; naive_solver | done].
Qed.

(** [disable_mailbox]: the mailbox is emptied. *)
Lemma touch_mail_clear h h' id box box' :
  mailboxes h !! id = Some box -> mailboxes h' = <[id := box']> (mailboxes h) ->
  rows box' = [] -> next_seq box' = next_seq box ->
  d_mailbox_new (dirty h') = d_mailbox_new (dirty h) -> d_mailbox_dropped (dirty h') = d_mailbox_dropped (dirty h) ->
  d_mailbox_cleared (dirty h') = {[id]} ∪ d_mailbox_cleared (dirty h) ->
  d_mailbox_acked (dirty h') = d_mailbox_acked (dirty h) ->
  cov_mail db h -> cov_mail db h'.
Proof.
  intros Hb Hm Hr Hn Hnew Hdrop Hcl Hack Hc.
  apply (touch_mail_box h h' id box box'); [done | done | lia | rewrite Hnew; apply Hc | | | | | | done].
  - intros o q Hne. rewrite Hdrop, Hnew, Hcl, Hack. set_solver.
  - rewrite Hnew. auto.
  - rewrite Hdrop. auto.
  - rewrite Hack. auto.
  - intros q Hq Hrow. apply cov_row_gone; [by rewrite (live_row_insert _ _ _ _ _ Hm), Hr|].
    unfold row_gone. rewrite bool_decide_eq_true_2; [done|]. rewrite Hcl. set_solver.
Qed.

(** [ack]: the rows up to [upto] are gone. *)
Lemma touch_mail_ack h h' id box box' upto :
  mailboxes h !! id = Some box -> mailboxes h' = <[id := box']> (mailboxes h) -> upto < 2 ^ 63 ->
  (forall q, bt_get q (rows box') = if q <=? upto then None else bt_get q (rows box)) ->
  next_seq box' = next_seq box ->
  d_mailbox_new (dirty h') = d_mailbox_new (dirty h) -> d_mailbox_dropped (dirty h') = d_mailbox_dropped (dirty h) ->
  d_mailbox_cleared (dirty h') = d_mailbox_cleared (dirty h) ->
  d_mailbox_acked (dirty h') = d_mailbox_acked (ack_upto id upto (dirty h)) ->
  cov_mail db h -> cov_mail db h'.
Proof.
  intros Hb Hm Hup Hr Hn Hnew Hdrop Hcl Hack Hc. cbn in Hack.
  apply (touch_mail_box h h' id box box'); [done | done | lia | rewrite Hnew; apply Hc | | | | | | done].
  - intros o q Hne. rewrite Hdrop, Hnew, Hcl, Hack, lookup_insert_ne by done. done.
  - rewrite Hnew. auto.
  - rewrite Hdrop. auto.
  - intros u. rewrite Hack, lookup_insert_eq. intros [= <-]. right.
    destruct (d_mailbox_acked (dirty h) !! id) as [u|] eqn:Eu; [|done]. pose proof (mail_acked_small _ _ Hc _ _ Eu). lia.
  - intros q Hq Hrow. assert (live_row h id q = bt_get q (rows box)) as Hl by (unfold live_row; by rewrite Hb).
    pose proof (live_row_insert h h' id box' q Hm) as Hl'. rewrite Hr in Hl'.
    set (u := match d_mailbox_acked (dirty h) !! id with Some u => N.max u upto | None => upto end) in Hack.
    assert (u < 2 ^ 63 /\ upto <= u) as [Hu Hup'].
    { unfold u. destruct (d_mailbox_acked (dirty h) !! id) as [u'|] eqn:Eu; [|lia]. pose proof (mail_acked_small _ _ Hc _ _ Eu). lia. }
    assert (row_gone (dirty h') id q = row_gone (dirty h) id q || (q <=? upto)) as Hg.
    { unfold row_gone. rewrite Hcl, Hdrop, Hack, lookup_insert_eq.
      rewrite <- (orb_assoc (_ || _)). f_equal. unfold u.
      destruct (d_mailbox_acked (dirty h) !! id) as [u'|] eqn:Eu; rewrite !as_i64_small by (try done; pose proof (mail_acked_small _ _ Hc _ _ Eu); lia); lia. }
    destruct (q <=? upto) eqn:Eq.
    + apply cov_row_gone; [done|]. rewrite Hg. by rewrite orb_true_r.
    + apply (cov_row_same h); [congruence | by rewrite Hnew | | done]. rewrite Hg. by rewrite orb_false_r.
Qed.

(** ** Tokens *)

Lemma first_token_None tok (l : list (key * TokenKind)) : first_token tok l = None <-> tok ∉ map fst l.
Proof.
  unfold first_token. induction l as [|[t k] l IH]; cbn; [set_solver|].
  destruct (bool_decide_reflect (t = tok)) as [->|Hne]; cbn; [set_solver|]. rewrite IH. set_solver.
Qed.

Lemma first_token_find tok l : NoDup (map fst l) -> first_token tok l = find_token tok l.
Proof.
  unfold first_token, find_token. induction l as [|[t k] l IH]; cbn; [done|]. intros [Ht Hnd]%NoDup_cons.
  destruct (bool_decide_reflect (t = tok)) as [->|Hne].
  - assert (token_idx tok l = None) as -> by (by apply token_idx_None). done.
  - rewrite IH by done. by destruct (token_idx tok l).
Qed.

Lemma first_token_filter tok f (l : list (key * TokenKind)) :
  NoDup (map fst l) ->
  first_token tok (List.filter f l) = match first_token tok l with
                                      | Some k => if f (tok, k) then Some k else None
                                      | None => None
                                      end.
Proof.
  induction l as [|[t k] l IH]; [done|]. intros [Ht Hnd]%NoDup_cons. cbn [List.filter].
  change (first_token tok ((t, k) :: l)) with
    (snd <$> (if bool_decide (t = tok) then Some (t, k) else List.find (fun kv => bool_decide (kv.1 = tok)) l)).
  destruct (bool_decide_reflect (t = tok)) as [->|Hne]; cbn [fmap option_fmap option_map snd].
  - destruct (f (tok, k)) eqn:Ef.
    + unfold first_token. cbn. by rewrite bool_decide_eq_true_2.
    + rewrite IH by done. by rewrite (proj2 (first_token_None tok l)).
  - destruct (f (t, k)); [|by apply IH]. unfold first_token at 1. cbn. rewrite bool_decide_eq_false_2 by done. by apply IH.
Qed.

Lemma NoDup_map_filter {A B} (g : A -> B) f (l : list A) : NoDup (map g l) -> NoDup (map g (List.filter f l)).
Proof.
  induction l as [|x l IH]; cbn; [done|]. intros [Hx Hl]%NoDup_cons. destruct (f x); cbn; [|auto].
  apply NoDup_cons. split; [|auto]. intros Hin. apply Hx. rewrite list_elem_of_In in *.
  apply in_map_iff in Hin as (y & Hy & Hin). apply filter_In in Hin as [Hin _]. apply in_map_iff. eauto.
Qed.

(** The journal only gained token entries that concern other rows. *)
Lemma cov_token_same h h' tok :
  first_token tok (tokens h') = first_token tok (tokens h) ->
  (tok ∈ d_tokens (dirty h) -> tok ∈ d_tokens (dirty h')) ->
  (forall r, token_gone (dirty h) tok r -> token_gone (dirty h') tok r) ->
  (forall k, first_token tok (tokens h) = Some k ->
     token_gone (dirty h') tok (token_cols k) -> token_gone (dirty h) tok (token_cols k)) ->
  cov_token db h tok -> cov_token db h' tok.
Proof.
  intros Hf Hd Hg Hg' Hc. unfold cov_token in *. rewrite Hf. destruct (first_token tok (tokens h)) as [k|]; [|naive_solver].
  destruct Hc as [[Hm Hr]|[Hr Hng]]; [left; naive_solver | right; naive_solver].
Qed.

Definition same_drops d d' : Prop :=
  d_tokens_dropped d' = d_tokens_dropped d /\ d_tokens_dropped_exact d' = d_tokens_dropped_exact d.

Lemma same_drops_gone d d' tok r : same_drops d d' -> token_gone d' tok r <-> token_gone d tok r.
Proof. intros [H1 H2]. unfold token_gone. by rewrite H1, H2. Qed.

(** A fresh token is appended. *)
Lemma touch_token_new h h' tok k :
  tok ∉ map fst (tokens h) -> tokens h' = tokens h ++ [(tok, k)] ->
  d_tokens (dirty h') = {[tok]} ∪ d_tokens (dirty h) -> same_drops (dirty h) (dirty h') ->
  cov_tokens db h -> cov_tokens db h'.
Proof.
  intros Hfresh Ht Hd Hs [Hnd Hc].
  assert (NoDup (map fst (tokens h'))) as Hnd'.
  { rewrite Ht, map_app. apply NoDup_app. split_and!; [done | set_solver | apply NoDup_singleton]. }
  split; [done|]. intros t. specialize (Hc t).
  assert (first_token t (tokens h') = if decide (t = tok) then Some k else first_token t (tokens h)) as Hf.
  { rewrite !first_token_find by done. rewrite Ht. apply find_token_app. }
  destruct (decide (t = tok)) as [->|Hne].
  - unfold cov_token in *. rewrite Hf. rewrite (proj2 (first_token_None tok (tokens h))) in Hc by done.
    left. split; [rewrite Hd; set_solver|]. intros r Hr. left. rewrite (same_drops_gone (dirty h) (dirty h')) by done. auto.
  - apply (cov_token_same h); [done | rewrite Hd; set_solver | | | done].
    + intros r. by rewrite (same_drops_gone (dirty h) (dirty h')).
    + intros k' _. by rewrite (same_drops_gone (dirty h) (dirty h')).
Qed.

(** A write through [token_mut] that keeps the kind and the mailbox. *)
Definition same_shape (k k' : TokenKind) : Prop :=
  token_mailbox k' = token_mailbox k
  /\ match k, k' with Share _ _ _ _, Share _ _ _ _ | Contact _ _ _ _, Contact _ _ _ _ => True | _, _ => False end.

Lemma compatible_shape r k k' : same_shape k k' -> token_compatible r k -> token_compatible r k'.
Proof.
  intros [Hm Hs] [Hc Hmb]. split; [|congruence]. destruct k, k'; try done; cbn in *; simplify_eq; congruence.
Qed.

Lemma compatible_self k : token_compatible (token_cols k) k.
Proof. by destruct k. Qed.

Lemma touch_token_set h h' tok k k' :
  find_token tok (tokens h) = Some k -> tokens h' = set_token tok k' (tokens h) -> same_shape k k' ->
  d_tokens (dirty h') = {[tok]} ∪ d_tokens (dirty h) -> same_drops (dirty h) (dirty h') ->
  cov_tokens db h -> cov_tokens db h'.
Proof.
  intros Hf Ht Hsh Hd Hs [Hnd Hc].
  assert (NoDup (map fst (tokens h'))) as Hnd' by (by rewrite Ht, set_token_keys).
  split; [done|]. intros t. specialize (Hc t).
  assert (first_token t (tokens h') = if decide (t = tok) then Some k' else first_token t (tokens h)) as Hft.
  { rewrite !first_token_find by done. rewrite Ht, find_set_token, Hf. done. }
  destruct (decide (t = tok)) as [->|Hne].
  - unfold cov_token in *. rewrite Hft. rewrite first_token_find, Hf in Hc by done.
    left. split; [rewrite Hd; set_solver|]. intros r Hr. rewrite (same_drops_gone (dirty h) (dirty h')) by done.
    destruct Hc as [[_ Hc]|[Hc _]].
    + destruct (Hc _ Hr) as [|Hcomp]; [by left|]. right. by eapply compatible_shape.
    + rewrite Hr in Hc. simplify_eq. right. eapply compatible_shape; [done | apply compatible_self].
  - apply (cov_token_same h); [done | rewrite Hd; set_solver | | | done].
    + intros r. by rewrite (same_drops_gone (dirty h) (dirty h')).
    + intros k0 _. by rewrite (same_drops_gone (dirty h) (dirty h')).
Qed.

(** [drop_tokens_exact]. *)
Lemma touch_token_drop h h' (dead : list key) :
  tokens h' = List.filter (fun kv => negb (bool_decide (kv.1 ∈ dead))) (tokens h) ->
  d_tokens (dirty h') = d_tokens (dirty h) ∖ list_to_set dead ->
  d_tokens_dropped (dirty h') = d_tokens_dropped (dirty h) ->
  d_tokens_dropped_exact (dirty h') = d_tokens_dropped_exact (dirty h) ∪ list_to_set dead ->
  cov_tokens db h -> cov_tokens db h'.
Proof.
  intros Ht Hd Hdo Hde [Hnd Hc]. split; [rewrite Ht; by apply NoDup_map_filter|]. intros t. specialize (Hc t).
  pose proof (first_token_filter t (fun kv => negb (bool_decide (kv.1 ∈ dead))) (tokens h) Hnd) as Hf.
  rewrite <- Ht in Hf. cbn in Hf. destruct (bool_decide_reflect (t ∈ dead)) as [Hin|Hout]; cbn in Hf.
  - unfold cov_token. replace (first_token t (tokens h')) with (@None TokenKind) by (rewrite Hf; by destruct (first_token t (tokens h))).
    intros r _. left. rewrite Hde. set_solver.
  - apply (cov_token_same h); [rewrite Hf; by destruct (first_token t (tokens h)) | rewrite Hd; set_solver | | | done];
      intros; unfold token_gone in *; rewrite ?Hdo, ?Hde in *; set_solver.
Qed.

(** [disable_mailbox]: the tokens of one owner go. *)
Lemma touch_token_owner h h' owner :
  tokens h' = List.filter (fun kv => negb (bool_decide (token_mailbox kv.2 = owner))) (tokens h) ->
  d_tokens (dirty h') = d_tokens (dirty h) ->
  d_tokens_dropped (dirty h') = {[owner]} ∪ d_tokens_dropped (dirty h) ->
  d_tokens_dropped_exact (dirty h') = d_tokens_dropped_exact (dirty h) ->
  cov_tokens db h -> cov_tokens db h'.
Proof.
  intros Ht Hd Hdo Hde [Hnd Hc]. split; [rewrite Ht; by apply NoDup_map_filter|]. intros t. specialize (Hc t).
  pose proof (first_token_filter t (fun kv => negb (bool_decide (token_mailbox kv.2 = owner))) (tokens h) Hnd) as Hf.
  rewrite <- Ht in Hf. cbn in Hf.
  assert (forall r, token_gone (dirty h) t r -> token_gone (dirty h') t r) as Hmono.
  { intros r. unfold token_gone. rewrite Hdo, Hde. set_solver. }
  destruct (first_token t (tokens h)) as [k|] eqn:Ek.
  - destruct (bool_decide_reflect (token_mailbox k = owner)) as [Hm|Hm]; cbn in Hf.
    + unfold cov_token in *. rewrite Hf. rewrite Ek in Hc. intros r Hr.
      assert (c_mailbox r = to_vec owner -> token_gone (dirty h') t r) as Hown.
      { intros Hmb. right. exists owner. rewrite Hdo. set_solver. }
      destruct Hc as [[_ Hc]|[Hc _]].
      * destruct (Hc _ Hr) as [|[_ Hmb]]; [by apply Hmono|]. apply Hown. congruence.
      * rewrite Hr in Hc. simplify_eq. apply Hown. by destruct k.
    + apply (cov_token_same h); [congruence | by rewrite Hd | done | | done].
      intros k' Hk'. rewrite Ek in Hk'. simplify_eq. unfold token_gone. rewrite Hdo, Hde.
      intros [|(o & Ho & Hmb)]; [by left|]. right. exists o. split; [|done].
      assert (o <> owner); [|set_solver]. intros ->. apply Hm. apply arr_eq. by destruct k'.
  - apply (cov_token_same h); [congruence | by rewrite Hd | done | congruence | done].
Qed.
End Touch.
