(* ===== verification/PgJournal.v ===== *)
(** * Every method journals what it changes

    Coverage survives each method of the home server and of the federation
    layer: whatever a method changes of the durable state, the journal names. *)

From S2P Require Export PgTouch Federation.
From S2P Require Export S2s.

(** ** Garbage collection as a fold *)

Lemma evict_fold fuel max box :
  (evict fuel max box).1 = foldl remove_row box (evict fuel max box).2.
Proof.
  revert box; induction fuel as [|fuel IH]; intros box; cbn; [done|].
  case_cond; [|done]. destruct (rows box) as [|[k r] t]; [done|].
  specialize (IH (remove_row box k)). destruct (evict _ _ _) as [b d]. exact IH.
Qed.

Lemma gc_box_fold nw l box : (gc_box nw l box).1 = foldl remove_row box (gc_box nw l box).2.
Proof.
  unfold gc_box. set (ex := map fst _). set (b := foldl _ _ ex).
  pose proof (evict_fold (length (rows b)) (mailbox_max_bytes l) b) as He.
  destruct (evict _ _ _) as [b' d]. cbn in *. by rewrite foldl_app.
Qed.

Lemma evict_keys fuel max box q :
  box_wf box -> q ∈ (evict fuel max box).2 -> q < next_seq box.
Proof.
  revert box; induction fuel as [|fuel IH]; intros box Hwf; cbn; [set_solver|].
  case_cond; [|set_solver]. destruct (rows box) as [|[k r] t] eqn:Er; [set_solver|].
  specialize (IH (remove_row box k) (remove_row_wf _ _ Hwf)).
  destruct (remove_row_spec box k Hwf) as (_ & Hn & _). rewrite Hn in IH.
  destruct (evict _ _ _) as [b d]. cbn in *. intros [->|Hin]%elem_of_cons; [|auto].
  destruct (wf_rows _ Hwf k r) as (_ & ? & _); [rewrite Er; by left | lia].
Qed.

Lemma gc_box_keys nw l box q : box_wf box -> q ∈ (gc_box nw l box).2 -> q < next_seq box.
Proof.
  intros Hwf. unfold gc_box. set (ex := map fst _). set (b := foldl _ _ ex).
  destruct (fold_remove_row ex box Hwf) as (Hwfb & _ & Hn & _). fold b in Hwfb, Hn.
  pose proof (evict_keys (length (rows b)) (mailbox_max_bytes l) b q Hwfb) as He.
  destruct (evict _ _ _) as [b' d]. cbn in *. rewrite <- Hn.
  intros [Hin|Hin]%elem_of_app; [|auto]. rewrite Hn.
  apply list_elem_of_In, in_map_iff in Hin as ([k r] & <- & [Hin _]%filter_In).
  by destruct (wf_rows _ Hwf k r Hin) as (_ & [_ ?] & _).
Qed.

Section Journal.
Context `{Crypto} (db : Db).
Implicit Types (s : HomeServer).

(** ** Frames *)

(** The durable fields and the journal are as they were. *)
Lemma covered_frame s s' :
  bundle s' = bundle s -> hpke s' = hpke s -> sign_key s' = sign_key s ->
  mailboxes s' = mailboxes s -> directory s' = directory s -> memberships s' = memberships s ->
  tokens s' = tokens s -> prekeys s' = prekeys s -> seen_enc s' = seen_enc s -> peers s' = peers s ->
  outbound s' = outbound s -> dirty s' = dirty s -> home_covered db s -> home_covered db s'.
Proof.
  intros E1 E2 E3 E4 E5 E6 E7 E8 E9 E10 E11 E12 Hc.
  destruct s, s'. cbn in *. subst. destruct Hc as [C1 C2 C3 C4 C5 C6 C7 C8 C9].
  split; [exact C1 | exact C2 | | exact C4 | exact C5 | exact C6 | exact C7 | exact C8 | exact C9].
  destruct C3 as [M1 M2 M3 M4 M5]. split; [exact M1 | exact M2 | exact M3 | exact M4 | exact M5].
Qed.

Lemma cov_mail_frame s s' :
  mailboxes s' = mailboxes s -> d_mailbox_new (dirty s') = d_mailbox_new (dirty s) ->
  d_mailbox_dropped (dirty s') = d_mailbox_dropped (dirty s) ->
  d_mailbox_cleared (dirty s') = d_mailbox_cleared (dirty s) ->
  d_mailbox_acked (dirty s') = d_mailbox_acked (dirty s) -> cov_mail db s -> cov_mail db s'.
Proof.
  intros Em E1 E2 E3 E4 [M1 M2 M3 M4 M5]. split.
  - by rewrite E1.
  - by rewrite E1, Em.
  - by rewrite E2, Em.
  - by rewrite E4.
  - intros o q Hq. apply (cov_row_same db s); [unfold live_row; by rewrite Em | by rewrite E1 | | by apply M5].
    apply row_gone_ext; by rewrite ?E2, ?E3, ?E4.
Qed.

Lemma cov_memberships_mono s s' :
  memberships s' = memberships s -> d_memberships (dirty s') = d_memberships (dirty s) ->
  (forall o, is_Some (mailboxes s !! o) -> is_Some (mailboxes s' !! o)) ->
  cov_memberships db s -> cov_memberships db s'.
Proof.
  intros E1 E2 Hm Hc o. destruct (Hc o) as (H1 & H2 & H3). rewrite E1, E2. split_and!; [done | auto | done].
Qed.
End Journal.

(** Closes the tables that a change does not reach. *)
Ltac same_table :=
  lazymatch goal with
  | |- cov_mail _ _ => eapply cov_mail_frame; [..|eassumption]; reflexivity
  | C : ?P ?d ?s |- ?P ?d ?s' => exact C
  end.

Section Methods.
Context `{Crypto} (db : Db).
Implicit Types (s : HomeServer).
Local Notation covered := (home_covered db).

(** ** Registration *)

Lemma register_covers s id pk : covered s -> post (register id pk) s (fun _ => covered).
Proof.
  intros Hc. unfold register, journal. wp. destruct (mailboxes s !! id) as [b|] eqn:E; wp; [done|].
  set (s' := s <| mailboxes ::= _ |> <| dirty ::= _ |>). destruct Hc as [C1 C2 C3 C4 C5 C6 C7 C8 C9]. split; try same_table.
  - apply (touch_identity db s s' id); [|unfold s'; cbn; by rewrite lookup_insert_eq | done | done].
    intros i Hne. split; [done|]. by apply lookup_insert_ne.
  - by apply (touch_mail_register db s s' id (mk_mailbox pk 1 [] ∅ 0 false)).
  - apply (cov_memberships_mono db s s'); [done..| |done]. intros o Ho. apply lookup_insert_is_Some'. by right.
Qed.

(** A directory entry of a marked identity. *)
Lemma covered_directory_marked s id row :
  id ∈ d_identities (dirty s) -> covered s -> covered (s <| directory ::= <[id := row]> |>).
Proof.
  intros Hid Hc. destruct Hc as [C1 C2 C3 C4 C5 C6 C7 C8 C9]. split; try same_table. intros i. destruct (C2 i) as [H1 H2].
  split; [done|]. destruct (decide (i = id)) as [->|Hne]; [by left|]. destruct H2 as [H2|H2]; [by left|]. right.
  rewrite H2. unfold identity_view, identity_row. cbn. by rewrite lookup_insert_ne.
Qed.

Lemma covered_directory s id f :
  (forall i, i <> id -> f (directory s) !! i = directory s !! i) -> is_Some (mailboxes s !! id) ->
  covered s -> covered (s <| directory ::= f |> <| dirty ::= fun d => d <| d_identities ::= union {[id]} |> |>).
Proof.
  intros Hf Hid Hc. destruct Hc as [C1 C2 C3 C4 C5 C6 C7 C8 C9]. split; try same_table.
  eapply (touch_identity db s); [|done | reflexivity | done]. intros i Hne. split; [by apply Hf | done].
Qed.

(** ** Tokens *)

Lemma covered_token_new s tok k :
  tok ∉ map fst (tokens s) -> covered s ->
  covered (s <| tokens ::= fun l => l ++ [(tok, k)] |> <| dirty ::= fun d => d <| d_tokens ::= union {[tok]} |> |>).
Proof.
  intros Hf Hc. destruct Hc as [C1 C2 C3 C4 C5 C6 C7 C8 C9]. split; try same_table. by eapply (touch_token_new db s).
Qed.

Lemma covered_token_set s tok k k' :
  find_token tok (tokens s) = Some k -> same_shape k k' -> covered s ->
  covered (s <| tokens ::= set_token tok k' |> <| dirty ::= fun d => d <| d_tokens ::= union {[tok]} |> |>).
Proof.
  intros Hf Hs Hc. destruct Hc as [C1 C2 C3 C4 C5 C6 C7 C8 C9]. split; try same_table. by eapply (touch_token_set db s).
Qed.

Lemma require_mailbox_covers s owner : covered s -> post (require_mailbox owner) s (fun _ s1 => covered s1 /\ s1 = s).
Proof. intros Hc. eapply post_conseq; [apply require_mailbox_spec|]. intros r s1 [-> _]. done. Qed.

Lemma register_share_token_covers s owner tok ttl :
  tok ∉ map fst (tokens s) -> covered s -> post (register_share_token owner tok ttl) s (fun _ => covered).
Proof.
  intros Hf Hc. unfold register_share_token, journal. wp.
  eapply post_conseq; [by apply require_mailbox_covers|]. intros [[]|e] s1 [Hc1 ->]; wp; [|done].
  case_cond; wp; [done|]. by apply covered_token_new.
Qed.

Lemma register_marks s id pk :
  post (register id pk) s (fun r s1 => tokens s1 = tokens s /\ (r = Ok tt -> id ∈ d_identities (dirty s1))).
Proof.
  unfold register, journal. wp. destruct (mailboxes s !! id); wp; [done|]. split; [done|]. cbn. set_solver.
Qed.

Lemma register_from_card_covers s card :
  share_token card ∉ map fst (tokens s) -> covered s -> post (register_from_card card) s (fun _ => covered).
Proof.
  intros Hf Hc. unfold register_from_card, wire. wp. destruct (map_err Wire _) as [[]|e]; wp; [|done].
  case_cond; wp; [done|].
  eapply post_conseq; [apply post_and; [by apply register_covers | apply register_marks]|].
  intros [[]|e] s1 (Hc1 & Ht & Hid); wp; [|done].
  eapply post_conseq; [apply register_share_token_covers|by intros [] s2 Hc2; wp].
  - cbn. by rewrite Ht.
  - apply covered_directory_marked; auto.
Qed.

Lemma drop_tokens_exact_covers s dead :
  covered s -> post (drop_tokens_exact dead) s (fun _ s1 => covered s1 /\ map fst (tokens s1) ⊆ map fst (tokens s)).
Proof.
  intros Hc. unfold drop_tokens_exact, journal. wp. case_bool_decide; wp; [done|]. split.
  - destruct Hc as [C1 C2 C3 C4 C5 C6 C7 C8 C9]. split; try same_table. by eapply (touch_token_drop db s).
  - cbn. intros t. rewrite !list_elem_of_In, !in_map_iff. intros (x & Hx & [Hin _]%filter_In). eauto.
Qed.

Lemma mint_contact_covers s owner rnd :
  rnd ∉ map fst (tokens s) -> covered s -> post (mint_contact_capability owner rnd) s (fun _ => covered).
Proof.
  intros Hf Hc. unfold mint_contact_capability, sweep_dead_tokens_for, journal. wp.
  eapply post_conseq; [by apply require_mailbox_covers|]. intros [[]|e] s1 [Hc1 ->]; wp; [|done].
  eapply post_conseq; [by apply drop_tokens_exact_covers|]. intros [c|e] s1 [Hc2 Hsub]; wp; [|done].
  apply covered_token_new; [set_solver | done].
Qed.

Lemma rotate_contact_covers s owner old confirm rnd :
  rnd ∉ map fst (tokens s) -> covered s -> post (rotate_contact owner old confirm rnd) s (fun _ => covered).
Proof.
  intros Hf Hc. unfold rotate_contact, journal. wp.
  eapply post_conseq; [by apply mint_contact_covers|]. intros [new|e] s1 Hc1; wp; [|done].
  destruct (find_token old (tokens s1)) as [[]|] eqn:E; wp; try done. case_cond; wp; [|done].
  by eapply covered_token_set.
Qed.

(** ** Prekeys *)

Lemma covered_prekeys s owner f :
  (forall o, o <> owner -> default [] (f (prekeys s) !! o) = default [] (prekeys s !! o)) -> covered s ->
  covered (s <| prekeys ::= f |> <| dirty ::= fun d => d <| d_prekeys ::= union {[owner]} |> |>).
Proof.
  intros Hf Hc. destruct Hc as [C1 C2 C3 C4 C5 C6 C7 C8 C9]. split; try same_table. intros o. cbn.
  destruct (decide (o = owner)) as [->|Hne]; [left; set_solver|].
  destruct (C5 o) as [Hd|Hd]; [left; set_solver | right; by rewrite Hf].
Qed.

Lemma publish_prekey_covers s owner blob : covered s -> post (publish_prekey owner blob) s (fun _ => covered).
Proof.
  intros Hc. unfold publish_prekey, journal. wp.
  eapply post_conseq; [by apply require_mailbox_covers|]. intros [[]|e] s1 [Hc1 ->]; wp; [|done].
  apply covered_prekeys; [|done]. intros o Hne. by rewrite lookup_insert_ne.
Qed.

Lemma fetch_prekey_covers s tok : covered s -> post (fetch_prekey tok) s (fun _ => covered).
Proof.
  intros Hc. unfold fetch_prekey, journal. wp.
  destruct (find_token tok (tokens s)) as [[mb ex bu re|]|] eqn:E; wp; try done.
  case_cond; wp; [done|]. destruct re; wp; [done|]. destruct (prekeys s !! mb) as [[|blob q]|] eqn:Ep; wp; try done.
  assert (covered (s <| prekeys ::= <[mb := q]> |> <| dirty ::= fun d => d <| d_prekeys ::= union {[mb]} |> |>)) as H1
    by (apply covered_prekeys; [intros o Hne; by rewrite lookup_insert_ne | done]).
  by apply (covered_token_set _ tok (Share mb ex bu None) (Share mb ex bu (Some blob))) in H1.
Qed.

(** ** Disabling *)

Lemma alter_as_insert {V} (f : V -> V) (id : key) (m : gmap key V) v :
  m !! id = Some v -> alter f id m = <[id := f v]> m.
Proof.
  intros Hv. apply map_eq. intros i. destruct (decide (i = id)) as [->|Hne].
  - by rewrite lookup_alter_eq, lookup_insert_eq, Hv.
  - by rewrite lookup_alter_ne, lookup_insert_ne.
Qed.

Lemma disable_mailbox_covers s id box :
  mailboxes s !! id = Some box -> box_wf box -> covered s -> post (disable_mailbox id) s (fun _ => covered).
Proof.
  intros Hb Hwf Hc. unfold disable_mailbox, journal. wp.
  set (s' := s <| mailboxes ::= _ |> <| prekeys ::= _ |> <| tokens ::= _ |> <| dirty ::= _ |>).
  set (box' := (foldl remove_row box (bt_keys (rows box))) <| disabled := true |>).
  destruct (disabled_box_wf box Hwf) as (_ & Hr & Hn & _).
  assert (mailboxes s' = <[id := box']> (mailboxes s)) as Hm
    by (exact (alter_as_insert _ _ _ _ Hb)).
  destruct Hc as [C1 C2 C3 C4 C5 C6 C7 C8 C9]. split; try same_table.
  - apply (touch_identity db s s' id); [|rewrite Hm, lookup_insert_eq; eauto | done | done].
    intros i Hne. split; [done|]. by rewrite Hm, lookup_insert_ne.
  - by apply (touch_mail_clear db s s' id box box').
  - by eapply (touch_token_owner db s s' id).
  - intros o. unfold s'. cbn. destruct (decide (o = id)) as [->|Hne]; [left; set_solver|].
    destruct (C5 o) as [Hd|Hd]; [left; set_solver | right; by rewrite lookup_delete_ne].
  - apply (cov_memberships_mono db s s'); [done..| |done]. intros o Ho. rewrite Hm. apply lookup_insert_is_Some'. by right.
Qed.

Lemma inv_box_wf n s id box : home_inv n s -> mailboxes s !! id = Some box -> box_wf box.
Proof. intros Hi Hb. by destruct (inv_boxes _ _ Hi _ _ Hb). Qed.

Lemma known_key_box n s id pk : home_inv n s -> known_key s id = Some pk -> exists box, mailboxes s !! id = Some box.
Proof.
  intros Hi. unfold known_key. destruct (directory s !! id) as [row|] eqn:E.
  - intros _. destruct (inv_directory _ _ Hi _ _ E) as [[b Hb] _]. eauto.
  - destruct (mailboxes s !! id); [eauto | done].
Qed.

Lemma observe_binding_covers n s id b : home_inv n s -> covered s -> post (observe_binding id b) s (fun _ => covered).
Proof.
  intros Hi Hc. unfold observe_binding, deny, journal. wp.
  destruct (known_key s id) as [pk|] eqn:Hk; cbn [ok_or]; [|done].
  destruct (known_key_box _ _ _ _ Hi Hk) as [box Hb].
  destruct (vk_from_bytes pk) as [vk|]; cbn [ok_or]; [|done].
  wp. case_cond; wp; [done|]. destruct (map_err _ _) as [[]|e]; wp; [|done].
  case_cond; wp; [done|].
  match goal with |- context [s <| directory ::= ?f |>] => pose proof (covered_directory s id f) as Hcov end.
  assert (covered (s <| directory ::= fun d => match d !! id with
        | Some row => <[id := row <| dir_binding := b |> <| binding_seq := b_seq b |>]> d
        | None => <[id := mk_directory pk (arr_repeat 32 x00) b (b_seq b) None]> d
        end |> <| dirty ::= fun d => d <| d_identities ::= union {[id]} |> |>)) as H1.
  { apply Hcov; [|eauto | done]. intros i Hne. destruct (directory s !! id); by rewrite lookup_insert_ne. }
  case_cond; [|exact H1]. eapply (disable_mailbox_covers _ id box); [exact Hb | by eapply inv_box_wf | exact H1].
Qed.

Lemma ingest_revocation_covers n s stmt : home_inv n s -> covered s -> post (ingest_revocation stmt) s (fun _ => covered).
Proof.
  intros Hi Hc. unfold ingest_revocation, deny, journal. wp.
  destruct (directory s !! _) as [row|] eqn:Hrow; cbn [ok_or]; [|done].
  destruct (map_err _ _) as [pk|e]; wp; [|done]. destruct (map_err _ _) as [[]|e]; wp; [|done].
  case_cond; wp; [done|]. set (id := revoked_identity_id stmt) in *.
  destruct (inv_directory _ _ Hi _ _ Hrow) as [[box Hb] _].
  eapply post_conseq; [eapply (disable_mailbox_covers _ id box)|].
  - exact Hb.
  - by eapply inv_box_wf.
  - apply covered_directory; [|eauto | done]. intros i Hne. by rewrite lookup_alter_ne.
  - intros [[]|e] s1 Hc1; wp; [|done].
    assert (forall D, (memberships s1 !! id = None -> D = dirty s1) ->
      (is_Some (memberships s1 !! id) -> D = (dirty s1) <| d_memberships ::= union {[id]} |>) ->
      covered (s1 <| memberships ::= delete id |> <| dirty := D |>)) as Hcov.
    { intros D HD1 HD2. destruct (memberships s1 !! id) as [l|] eqn:El.
      - rewrite HD2 by eauto. destruct Hc1 as [C1 C2 C3 C4 C5 C6 C7 C8 C9]. split; try same_table.
        intros o. cbn. destruct (C6 o) as (M1 & M2 & M3). destruct (decide (o = id)) as [->|Hne].
        + rewrite lookup_delete_eq. cbn. split_and!; [constructor | done | left; set_solver].
        + rewrite lookup_delete_ne by done. split_and!; [done | done |]. destruct M3; [left; set_solver | by right].
      - rewrite HD1 by done. replace (s1 <| memberships ::= delete id |> <| dirty := dirty s1 |>) with s1; [done|].
        destruct s1. cbn in *. unfold upd, memberships_field, dirty_field. cbn. by rewrite delete_id. }
    destruct (bool_decide_reflect (is_Some (memberships s1 !! id))) as [Hs|Hs]; wp.
    + apply (Hcov ((dirty s1) <| d_memberships ::= union {[id]} |>)); [|done]. intros Hn. rewrite Hn in Hs. by destruct Hs.
    + rewrite <- eq_None_not_Some in Hs. specialize (Hcov (dirty s1) ltac:(done)).
      apply (covered_frame db (s1 <| memberships ::= delete id |> <| dirty := dirty s1 |>)); try reflexivity.
      apply Hcov. rewrite Hs. by intros [].
Qed.

(** ** Appending *)

Lemma set_token_same tok k l : find_token tok l = Some k -> set_token tok k l = l.
Proof.
  unfold find_token, set_token. destruct (token_idx tok l) as [i|] eqn:Ei; [|done]. cbn.
  destruct (token_idx_Some _ _ _ Ei) as [k' Hk']. rewrite Hk'. cbn. intros [= ->].
  apply list_eq. intros j. destruct (decide (j = i)) as [->|Hne].
  - by rewrite list_lookup_alter_eq, Hk'.
  - by rewrite list_lookup_alter_ne.
Qed.

Lemma set_tokens_id s l : l = tokens s -> s <| tokens ::= fun _ => l |> = s.
Proof. intros ->. by destruct s. Qed.

Lemma authorize_append_covers s tok : covered s -> post (authorize_append tok) s (fun _ => covered).
Proof.
  intros Hc. unfold authorize_append, journal. wp.
  destruct (find_token tok (tokens s)) as [[mb ex bu re|mb gr ws wc]|] eqn:E; wp.
  - case_cond; wp; [|done]. case_cond; by wp.
  - case_cond; wp; [done|].
    destruct (60 <=? saturating_sub (now s) ws) eqn:Ew; wp.
    + case_cond; wp; [cbv in G0; discriminate|].
      pose proof (covered_token_set s tok _ (Contact mb gr (now s) (0 + 1)) E ltac:(done) Hc) as Hc1.
      assert (covered (s <| tokens ::= set_token tok (Contact mb gr (now s) 0) |>
                         <| tokens ::= set_token tok (Contact mb gr (now s) (0 + 1)) |>
                         <| dirty ::= fun d => d <| d_tokens ::= union {[tok]} |> |>)) as Hc2.
      { revert Hc1. apply covered_frame; try reflexivity. cbn. apply set_token_twice. }
      by case_cond; wp.
    + case_cond; wp.
      * revert Hc. apply covered_frame; try reflexivity. cbn. by apply set_token_same.
      * pose proof (covered_token_set s tok _ (Contact mb gr ws (wc + 1)) E ltac:(done) Hc) as Hc1.
        assert (covered (s <| tokens ::= set_token tok (Contact mb gr ws wc) |>
                           <| tokens ::= set_token tok (Contact mb gr ws (wc + 1)) |>
                           <| dirty ::= fun d => d <| d_tokens ::= union {[tok]} |> |>)) as Hc2.
        { revert Hc1. apply covered_frame; try reflexivity. cbn. apply set_token_twice. }
        by case_cond; wp.
  - done.
Qed.

Lemma burn_if_share_covers s tok : covered s -> post (burn_if_share tok) s (fun _ => covered).
Proof.
  intros Hc. unfold burn_if_share, journal. wp.
  destruct (find_token tok (tokens s)) as [[mb ex [] re|]|] eqn:E; wp; try done. by eapply covered_token_set.
Qed.

Lemma gc_mailbox_covers s owner :
  (forall box, mailboxes s !! owner = Some box -> box_wf box) -> covered s ->
  post (gc_mailbox owner) s (fun _ => covered).
Proof.
  intros Hwf Hc. unfold gc_mailbox, journal. wp. destruct (mailboxes s !! owner) as [box|] eqn:Eb; wp; [|done].
  specialize (Hwf _ eq_refl).
  pose proof (gc_box_fold (now s) (limits s) box) as Hfold. pose proof (fun q => gc_box_keys (now s) (limits s) box q Hwf) as Hks.
  destruct (gc_box (now s) (limits s) box) as [box' ks]. cbn in Hfold, Hks. wp.
  destruct (fold_remove_row ks box Hwf) as (_ & Hr & Hn & _). rewrite <- Hfold in Hr, Hn.
  case_bool_decide as Hk; cbn [negb].
  - subst ks. cbn in Hfold. subst box'. revert Hc. apply covered_frame; try reflexivity. cbn. by apply insert_id.
  - set (s' := s <| mailboxes ::= _ |> <| dirty ::= _ |>). destruct Hc as [C1 C2 C3 C4 C5 C6 C7 C8 C9]. split; try same_table.
    + apply (touch_identity db s s' owner); [|unfold s'; cbn; rewrite lookup_insert_eq; eauto | done | done].
      intros i Hne. split; [done|]. by apply lookup_insert_ne.
    + by apply (touch_mail_drop db s s' owner box box' ks).
    + apply (cov_memberships_mono db s s'); [done..| |done]. intros o Ho. apply lookup_insert_is_Some'. by right.
Qed.

Lemma append_inner_covers n s inner :
  home_inv n s -> n + 1 < U64_MAX -> covered s -> post (append_inner inner) s (fun _ => covered).
Proof.
  intros Hi Hn Hc. unfold append_inner, wire, journal. wp.
  eapply post_conseq; [apply post_and; [by apply authorize_append_covers | apply authorize_append_spec]|].
  intros r s1 (Hc1 & (T & D & Hs1 & _) & Hr).
  assert (mailboxes s1 = mailboxes s) as Hm by (by rewrite Hs1).
  destruct r as [mb|e]; wp; [|done]. destruct Hr as (Hdis & _). unfold mailbox_disabled in Hdis. rewrite <- Hm in Hdis.
  destruct (mailboxes s1 !! mb) as [box|] eqn:Hbox; wp; [|done].
  destruct (idempotency box !! idempotency_token inner) as [sq|] eqn:Hid; wp; [done|].
  destruct (encode_padded inner) as [b|e] eqn:Henc; cbn [map_err]; wp; [|done].
  pose proof Hbox as Hbox'. rewrite Hm in Hbox'. pose proof (inv_box_wf _ _ _ _ Hi Hbox') as Hwf.
  pose proof (home_inv_room _ _ _ _ _ _ Hi Hn Hbox' Henc) as Hroom.
  destruct (push_row_spec (now s1) (limits s1) inner (lenN b) box Hwf Hroom) as (Hrows & Hnext & _).
  pose proof (push_row_wf (now s1) (limits s1) inner b box Hwf Hroom Hdis Hid Henc) as Hwf'.
  set (box' := push_row _ _ _ _ box) in *.
  match goal with |- post _ ?x _ => set (s2 := x) end.
  assert (covered s2) as Hc2.
  { destruct Hc1 as [C1 C2 C3 C4 C5 C6 C7 C8 C9]. split; try same_table.
    - apply (touch_identity db s1 s2 mb); [|unfold s2; cbn; rewrite lookup_insert_eq; eauto | done | done].
      intros i Hne. split; [done|]. by apply lookup_insert_ne.
    - eapply (touch_mail_push db s1 s2 mb box box' (next_seq box)); try done. unfold mailbox_cols. cbn.
      rewrite Henc. cbn. by eexists.
    - apply (cov_memberships_mono db s1 s2); [done..| |done]. intros o Ho. apply lookup_insert_is_Some'. by right. }
  eapply post_conseq; [apply post_and; [by apply burn_if_share_covers | apply burn_if_share_spec]|].
  intros r s3 (Hc3 & -> & T3 & D3 & Hs3 & _). wp.
  eapply post_conseq; [apply gc_mailbox_covers; [|done]|by intros [] s4 Hc4; wp].
  intros bx. rewrite Hs3. unfold s2. cbn. rewrite lookup_insert_eq. by intros [= <-].
Qed.

(** ** Encapsulation keys *)

Lemma ingest_covers n s o :
  home_inv n s -> n + 1 < U64_MAX -> covered s -> post (ingest o) s (fun _ => covered).
Proof.
  intros Hi Hn Hc. unfold ingest, wire, journal. wp. destruct (Hpke.encap_key _) as [enc|]; cbn [map_err]; wp; [|done].
  destruct (seen_enc s !! enc) as [sq|] eqn:Hs; wp; [done|].
  destruct (Hpke.open_outer _ _) as [inner|]; cbn [map_err]; wp; [|done].
  eapply post_conseq; [apply post_and; [by apply (append_inner_covers n) | apply append_inner_spec]|].
  intros r s1 (Hc1 & (M & T & D & Hs1 & _) & _). destruct r as [sq|e]; wp; [|done].
  assert (seen_enc s1 !! enc = None) as Hs' by (by rewrite Hs1).
  destruct Hc1 as [C1 C2 C3 C4 C5 C6 C7 C8 C9].
  destruct (HPKE_ENC_WINDOW <=? _); wp.
  { split; try same_table. by left. }
  destruct (d_seen_enc_cleared (dirty s1)) eqn:Ed; cbn [negb]; wp.
  { cbn. rewrite Ed. cbn. split; try same_table. by left. }
  cbn. rewrite Ed. cbn. split; try same_table.
  destruct C9 as [C9|(S1 & S2 & S3)]; [congruence|]. right. cbn.
  assert (enc ∉ d_seen_enc_new (dirty s1)) as Hout by (intros Hin; destruct (S2 _ Hin); congruence).
  split_and!.
  - apply NoDup_app. split_and!; [done | set_solver | apply NoDup_singleton].
  - intros e [Hin|Hin]%elem_of_app; rewrite lookup_insert_is_Some'; [right; auto | left].
    by apply list_elem_of_singleton in Hin.
  - intros e. destruct (decide (e = enc)) as [->|Hne].
    + rewrite lookup_insert_eq, bool_decide_eq_true_2 by set_solver. specialize (S3 enc). by rewrite Hs' in S3.
    + rewrite lookup_insert_ne by done. specialize (S3 e). destruct (seen_enc s1 !! e); [|done].
      by rewrite (bool_decide_ext (e ∈ d_seen_enc_new (dirty s1) ++ [enc]) (e ∈ d_seen_enc_new (dirty s1))) by set_solver.
Qed.

(** ** Owner requests *)

Lemma check_owner_covers s owner auth nw ex : covered s -> post (check_owner owner auth nw ex) s (fun _ => covered).
Proof.
  intros Hc. eapply post_conseq; [apply check_owner_spec|]. intros [[]|e] s1.
  - intros (box & pk & _ & _ & _ & _ & _ & _ & ->). revert Hc. by apply covered_frame.
  - intros [_ [->| ->]]; [done|]. revert Hc. by apply covered_frame.
Qed.

Lemma fetch_covers n s owner auth nw : home_inv n s -> covered s -> post (fetch owner auth nw) s (fun _ => covered).
Proof.
  intros Hi Hc. unfold fetch. wp.
  eapply post_conseq; [apply post_and; [by apply check_owner_covers | by apply (check_owner_preserves n)]|].
  intros [[]|e] s1 [Hc1 Hi1]; wp; [|done]. case_cond; wp; [done|].
  eapply post_conseq; [apply gc_mailbox_covers; [intros b Hb; by eapply inv_box_wf | done]|].
  intros [[]|e] s2 Hc2; wp; [|done]. by destruct (mailboxes s2 !! owner); wp.
Qed.

Lemma ack_rows_get box upto q :
  box_wf box ->
  bt_get q (rows (foldl ack_row box (List.filter (fun k => k <=? upto) (bt_keys (rows box)))))
  = if q <=? upto then None else bt_get q (rows box).
Proof.
  intros Hwf. destruct (fold_ack_row (List.filter (fun k => k <=? upto) (bt_keys (rows box))) box Hwf) as (_ & Hr & _).
  rewrite Hr, bt_get_filter. destruct (N.leb_spec q upto) as [Hle|Hgt].
  - case_bool_decide as Hin; [done|]. destruct (bt_get q (rows box)) as [v|] eqn:E; [|done]. destruct Hin.
    apply list_elem_of_In, filter_In. split; [|lia]. apply bt_get_In in E. by apply (in_map fst) in E.
  - rewrite bool_decide_eq_false_2; [done|]. intros [_ Hin]%list_elem_of_In%filter_In. lia.
Qed.

(** Acknowledgements below [2^63], the range of the column. *)
Lemma ack_covers n s owner auth nw :
  home_inv n s -> cursor auth < 2 ^ 63 -> covered s -> post (ack owner auth nw) s (fun _ => covered).
Proof.
  intros Hi Hcur Hc. unfold ack, journal. wp.
  eapply post_conseq; [apply post_and; [by apply check_owner_covers | by apply (check_owner_preserves n)]|].
  intros [[]|e] s1 [Hc1 Hi1]; wp; [|done]. destruct (mailboxes s1 !! owner) as [box|] eqn:Hb; wp; [|done].
  case_bool_decide; wp; [done|]. pose proof (inv_box_wf _ _ _ _ Hi1 Hb) as Hwf.
  set (drop := List.filter _ _) in *. set (box' := foldl ack_row box drop).
  match goal with |- home_covered db ?x => set (s2 := x) end.
  destruct (fold_ack_row drop box Hwf) as (_ & _ & Hn & _).
  destruct Hc1 as [C1 C2 C3 C4 C5 C6 C7 C8 C9]. split; try same_table.
  - apply (touch_identity db s1 s2 owner); [|unfold s2; cbn; rewrite lookup_insert_eq; eauto | done | done].
    intros i Hne. split; [done|]. by apply lookup_insert_ne.
  - apply (touch_mail_ack db s1 s2 owner box box' (cursor auth)); try done. intros q. by apply ack_rows_get.
  - apply (cov_memberships_mono db s1 s2); [done..| |done]. intros o Ho. apply lookup_insert_is_Some'. by right.
Qed.

(** ** The rest *)

Lemma note_group_membership_covers s id gid :
  is_Some (mailboxes s !! id) -> covered s -> post (note_group_membership id gid) s (fun _ => covered).
Proof.
  intros Hid Hc. unfold note_group_membership, journal. wp. destruct Hc as [C1 C2 C3 C4 C5 C6 C7 C8 C9].
  case_bool_decide as Hin; wp; (split; try same_table); intros o; cbn; destruct (C6 o) as (M1 & M2 & M3);
    (destruct (decide (o = id)) as [->|Hne]; [rewrite lookup_insert_eq | rewrite lookup_insert_ne by done]); cbn.
  - done.
  - done.
  - split_and!; [|done | left; set_solver]. apply NoDup_app. split_and!; [done | set_solver | apply NoDup_singleton].
  - split_and!; [done | done |]. destruct M3; [left; set_solver | by right].
Qed.

Lemma covered_outbound s f :
  covered s -> covered (s <| outbound ::= f |> <| dirty ::= fun d => d <| d_outbound_dirty := true |> |>).
Proof. intros Hc. destruct Hc as [C1 C2 C3 C4 C5 C6 C7 C8 C9]. split; try same_table. by left. Qed.

Lemma enqueue_covers n s o :
  home_inv n s -> n + 1 < U64_MAX -> covered s -> post (enqueue o) s (fun _ => covered).
Proof.
  intros Hi Hn Hc. unfold enqueue, mark_outbound_dirty, journal. wp. case_cond; wp; [|by apply covered_outbound].
  eapply post_conseq; [by apply (ingest_covers n)|]. by intros [] s1 Hc1; wp.
Qed.

Lemma enqueue_from_owner_covers n s owner auth nw o :
  home_inv n s -> n + 1 < U64_MAX -> covered s -> post (enqueue_from_owner owner auth nw o) s (fun _ => covered).
Proof.
  intros Hi Hn Hc. unfold enqueue_from_owner. wp.
  eapply post_conseq; [apply post_and; [by apply check_owner_covers | by apply (check_owner_preserves n)]|].
  intros [[]|e] s1 [Hc1 Hi1]; wp; [|done].
  eapply post_conseq; [by apply require_mailbox_covers|]. intros [[]|e] s2 [Hc2 ->]; wp; [|done].
  by apply (enqueue_covers n).
Qed.

Lemma defer_outbound_covers s until : covered s -> post (defer_outbound until) s (fun _ => covered).
Proof.
  intros Hc. unfold defer_outbound, mark_outbound_dirty, journal. wp. case_bool_decide as He; cbn [negb]; wp.
  - revert Hc. apply covered_frame; try reflexivity. cbn in *.
    destruct (outbound s); [done|]. rewrite map_cons, lenN_cons in He. lia.
  - by apply covered_outbound.
Qed.

Lemma rebind_host_covers s h port : covered s -> post (rebind_host h port) s (fun _ => covered).
Proof.
  intros Hc. unfold rebind_host, wire, journal. wp. destruct (advertised _ _ _ _); cbn [map_err]; wp; [|done].
  destruct Hc as [C1 C2 C3 C4 C5 C6 C7 C8 C9]. split; try same_table. by left.
Qed.
End Methods.

(** * Links and runs

    Coverage survives the methods of [federation.rs] and [s2s.rs], and with the
    methods of the home server every run of operations. *)

Section Links.
Context `{Crypto} (db : Db).
Implicit Types (s : HomeServer).
Local Notation covered := (home_covered db).

(** A written and marked peer. *)
Lemma covered_peer s id p :
  covered s -> covered (s <| peers ::= <[id := p]> |> <| dirty ::= fun d => d <| d_peers ::= union {[id]} |> |>).
Proof.
  intros Hc. destruct Hc as [C1 C2 C3 C4 C5 C6 C7 C8 C9]. split; try same_table. intros i. cbn. specialize (C7 i).
  destruct (decide (i = id)) as [->|Hne].
  - rewrite lookup_insert_eq. left. set_solver.
  - rewrite lookup_insert_ne by done. destruct (peers s !! i); [|done]. destruct C7; [left; set_solver | by right].
Qed.

(** A write to the fields of a peer that are not stored. *)
Lemma covered_peer_volatile s id p p' :
  peers s !! id = Some p -> peer_cols p' = peer_cols p -> covered s -> covered (s <| peers ::= <[id := p']> |>).
Proof.
  intros Hp Hcols Hc. destruct Hc as [C1 C2 C3 C4 C5 C6 C7 C8 C9]. split; try same_table. intros i. cbn. specialize (C7 i).
  destruct (decide (i = id)) as [->|Hne].
  - rewrite lookup_insert_eq. rewrite Hp in C7. by rewrite Hcols.
  - by rewrite lookup_insert_ne.
Qed.

Lemma pin_covers s b : covered s -> post (pin b) s (fun _ => covered).
Proof.
  intros Hc. unfold pin, wire, put_peer, mark_peer_dirty, journal. wp. destruct (map_err Wire _) as [[]|e]; wp; [|done].
  case_cond; wp; [done|]. destruct (peers s !! bundle_server_id b); wp; by apply covered_peer.
Qed.

Lemma refuse_covers s peer : covered s -> post (refuse peer) s (fun _ => covered).
Proof.
  intros Hc. unfold refuse, put_peer, mark_peer_dirty, journal. wp. destruct (peers s !! peer); wp; [by apply covered_peer | done].
Qed.

Lemma reset_link_covers s peer : covered s -> post (reset_link peer) s (fun _ => covered).
Proof.
  intros Hc. unfold reset_link, put_peer, mark_peer_dirty, journal. wp. destruct (peers s !! peer); wp; [by apply covered_peer | done].
Qed.

Lemma apply_sign_rotate_covers s peer r : covered s -> post (apply_sign_rotate peer r) s (fun _ => covered).
Proof.
  intros Hc. unfold apply_sign_rotate, get_peer, wire, put_peer, mark_peer_dirty, journal. wp.
  destruct (peers s !! peer) as [p|]; cbn [ok_or]; wp; [|done].
  destruct (vk_from_bytes _) as [vk|]; cbn [ok_or]; wp; [|done].
  destruct (map_err Wire _) as [[]|e]; wp; [by apply covered_peer | done].
Qed.

Lemma take_frame_covers s peer pl : covered s -> post (take_frame peer pl) s (fun _ => covered).
Proof.
  intros Hc. unfold take_frame, get_peer, put_peer, mark_peer_dirty, journal. wp.
  destruct (peers s !! peer) as [p|]; cbn [ok_or]; wp; [|done]. case_cond; wp; [done | by apply covered_peer].
Qed.

Lemma handle_ciphertext_covers n s from ct :
  home_inv n s -> n + 1 < U64_MAX -> covered s -> post (handle_ciphertext from ct) s (fun _ => covered).
Proof.
  intros Hi Hn Hc. unfold handle_ciphertext, get_peer, wire, put_peer. wp. case_cond; wp; [done|].
  destruct (copy_fixed 32 _) as [enc|e]; cbn [map_err]; wp; [|done].
  destruct (peers s !! from) as [p|] eqn:Hp; cbn [ok_or]; wp; [|done].
  set (p1 := if negb (window_sec p =? now s) then _ else p).
  assert (covered (s <| peers ::= <[from := p1]> |>)) as Hc1
    by (apply (covered_peer_volatile s from p); [done | unfold p1; by case_cond | done]).
  assert (home_inv n (s <| peers ::= <[from := p1]> |>)) as Hi1 by (by eapply home_inv_frame; last apply Hi).
  case_cond; wp; [done|]. destruct (peer_seen_enc p1 !! enc) as [sq|]; wp; [done|]. rewrite post_attempt.
  eapply post_conseq; [by apply (ingest_covers db n)|]. intros r s2 Hc2. destruct r as [sq|e]; wp; [|done].
  destruct (peers s2 !! from) as [p2|] eqn:Hp2; cbn [ok_or]; wp; [|done].
  apply (covered_peer_volatile s2 from p2); [done | | done]. by case_cond.
Qed.

Lemma accept_frame_covers n s from frame :
  home_inv n s -> n + 1 < U64_MAX -> covered s -> post (accept_frame from frame) s (fun _ => covered).
Proof.
  intros Hi Hn Hc. unfold accept_frame, get_peer, wire, put_peer, mark_peer_dirty, journal. wp.
  destruct (peers s !! from) as [p|]; cbn [ok_or]; wp; [|done].
  case_cond; wp; [done|]. case_cond; wp; [done|]. case_cond; wp; [done|].
  set (s1 := s <| peers ::= _ |> <| dirty ::= _ |>).
  assert (covered s1) as Hc1 by (by apply covered_peer).
  assert (home_inv n s1) as Hi1 by (by eapply home_inv_frame; last apply Hi).
  destruct (parse_payload _) as [[]|e]; cbn [map_err]; wp; try done; [by case_cond; wp | by apply (handle_ciphertext_covers n)].
Qed.

Lemma remove_matching_covers s row : covered s -> post (remove_matching_outbound row) s (fun _ => covered).
Proof.
  intros Hc. unfold remove_matching_outbound, mark_outbound_dirty, journal. wp.
  destruct (position _ _); wp; [by apply covered_outbound | done].
Qed.

Lemma backoff_row_covers s row : covered s -> post (backoff_row row) s (fun _ => covered).
Proof.
  intros Hc. unfold backoff_row, mark_outbound_dirty, journal. wp.
  destruct (position _ _); wp; [|done]. exact (covered_outbound db s (alter (back_off (now s)) _) Hc).
Qed.

Lemma filter_same_length {A} (f : A -> bool) l : lenN l - lenN (List.filter f l) = 0 -> List.filter f l = l.
Proof.
  unfold lenN. induction l as [|x l IH]; cbn; [done|]. pose proof (filter_length_le f l).
  destruct (f x); cbn; intros Hl; [f_equal; apply IH; lia | lia].
Qed.

Lemma purge_expired_covers s dst : covered s -> post (purge_expired dst) s (fun _ => covered).
Proof.
  intros Hc. unfold purge_expired, mark_outbound_dirty, journal. wp. set (kept := List.filter _ _).
  destruct (N.ltb_spec 0 (lenN (outbound s) - lenN kept)) as [Hlt|Hle]; wp.
  - exact (covered_outbound db s (fun _ => kept) Hc).
  - revert Hc. apply covered_frame; try reflexivity. cbn. unfold kept in *. apply filter_same_length. lia.
Qed.

Lemma set_hello_done_covers s peer : covered s -> post (set_hello_done peer) s (fun _ => covered).
Proof.
  intros Hc. unfold set_hello_done. wp. destruct (peers s !! peer) as [p|] eqn:Hp.
  - apply (covered_peer_volatile s peer p (p <| hello_done := true |>)) in Hc; [|done..].
    revert Hc. apply covered_frame; try reflexivity. cbn. exact (alter_as_insert _ _ _ _ Hp).
  - revert Hc. apply covered_frame; try reflexivity. cbn. apply map_eq. intros i.
    destruct (decide (i = peer)) as [->|Hne]; [by rewrite lookup_alter_eq, Hp | by rewrite lookup_alter_ne].
Qed.

(** ** Operations *)

(** What the process does to the home server between two transactions. *)
Inductive server_op : Type :=
| SHome (op : home_op)
| SPin (b : ServerBundle)
| SRefuse (peer : key)
| SRotate (peer : key) (r : ServerSignRotate)
| SReset (peer : key)
| STake (peer : key) (pl : bytes)
| SAccept (peer : key) (f : S2sFrame)
| SHelloDone (peer : key)
| SSent (row : OutboundRow)
| SBackoff (row : OutboundRow)
| SPurge (dst : key)
| SCheck (owner : key) (auth : MailboxOwnerAuth) (nw : N) (expect : AuthScope).

Definition sexec (op : server_op) s : HomeServer :=
  match op with
  | SHome op => exec op s
  | SPin b => (pin b s).1
  | SRefuse peer => (refuse peer s).1
  | SRotate peer r => (apply_sign_rotate peer r s).1
  | SReset peer => (reset_link peer s).1
  | STake peer pl => (take_frame peer pl s).1
  | SAccept peer f => (accept_frame peer f s).1
  | SHelloDone peer => (set_hello_done peer s).1
  | SSent row => (remove_matching_outbound row s).1
  | SBackoff row => (backoff_row row s).1
  | SPurge dst => (purge_expired dst s).1
  | SCheck owner auth nw expect => (check_owner owner auth nw expect s).1
  end.

(** The token an operation adds. *)
Definition op_token (op : server_op) : option key :=
  match op with
  | SHome (OpRegisterCard card) => Some (share_token card)
  | SHome (OpShare _ tok _) => Some tok
  | SHome (OpMintShare _ _ rnd) | SHome (OpContact _ rnd) | SHome (OpRotate _ _ _ rnd) => Some rnd
  | _ => None
  end.

(** The conditions under which the journal is enough: the token an operation
    adds is not in use, an acknowledged cursor fits the [BIGINT] column, and a
    membership is noted for a registered identity. *)
Definition storable (op : server_op) s : Prop :=
  (forall tok, op_token op = Some tok -> tok ∉ map fst (tokens s))
  /\ match op with
     | SHome (OpAck _ auth _) => cursor auth < 2 ^ 63
     | SHome (OpMembership id _) => is_Some (mailboxes s !! id)
     | _ => True
     end.

Lemma exec_covers n op s :
  home_inv n s -> n + 1 < U64_MAX -> storable (SHome op) s -> covered s -> covered (exec op s).
Proof.
  intros Hi Hn [Htok Hok] Hc. destruct op; cbn [exec op_token] in *; try specialize (Htok _ eq_refl).
  - revert Hc. by apply covered_frame.
  - exact (register_covers db s id pk Hc).
  - exact (register_from_card_covers db s card Htok Hc).
  - exact (register_share_token_covers db s owner tok ttl Htok Hc).
  - change (post (mint_share_token owner ttl rnd) s (fun _ => covered)). unfold mint_share_token. wp.
    eapply post_conseq; [by apply register_share_token_covers|]. by intros [] s1 Hc1; wp.
  - exact (mint_contact_covers db s owner rnd Htok Hc).
  - exact (rotate_contact_covers db s owner old confirm rnd Htok Hc).
  - exact (publish_prekey_covers db s owner blob Hc).
  - exact (fetch_prekey_covers db s tok Hc).
  - exact (append_inner_covers db n s inner Hi Hn Hc).
  - exact (ingest_covers db n s o Hi Hn Hc).
  - exact (fetch_covers db n s owner auth nw Hi Hc).
  - exact (ack_covers db n s owner auth nw Hi Hok Hc).
  - exact (observe_binding_covers db n s id b Hi Hc).
  - exact (ingest_revocation_covers db n s stmt Hi Hc).
  - exact (note_group_membership_covers db s id gid Hok Hc).
  - change (post (sweep_dead_tokens_for owner) s (fun _ => covered)). unfold sweep_dead_tokens_for. wp.
    eapply post_conseq; [by apply drop_tokens_exact_covers|]. by intros r s1 [].
  - change (post sweep_dead_tokens s (fun _ => covered)). unfold sweep_dead_tokens. wp.
    eapply post_conseq; [by apply drop_tokens_exact_covers|]. by intros r s1 [].
  - revert Hc. by apply covered_frame.
  - exact (rebind_host_covers db s h port Hc).
  - exact (enqueue_covers db n s o Hi Hn Hc).
  - exact (enqueue_from_owner_covers db n s owner auth nw o Hi Hn Hc).
  - exact (defer_outbound_covers db s until Hc).
Qed.

Lemma sexec_covers n op s :
  home_inv n s -> n + 1 < U64_MAX -> storable op s -> covered s -> covered (sexec op s).
Proof.
  intros Hi Hn Hok Hc. destruct op; cbn [sexec].
  - by apply (exec_covers n).
  - exact (pin_covers s b Hc).
  - exact (refuse_covers s peer Hc).
  - exact (apply_sign_rotate_covers s peer r Hc).
  - exact (reset_link_covers s peer Hc).
  - exact (take_frame_covers s peer pl Hc).
  - exact (accept_frame_covers n s peer f Hi Hn Hc).
  - exact (set_hello_done_covers s peer Hc).
  - exact (remove_matching_covers s row Hc).
  - exact (backoff_row_covers s row Hc).
  - exact (purge_expired_covers s dst Hc).
  - exact (check_owner_covers db s owner auth nw expect Hc).
Qed.
End Links.
