(* ===== verification/PgGroups.v ===== *)
(** * The group host journals what it changes

    Coverage of the group tables survives every method of [group.rs]. *)

From S2P Require Export PgTx GroupInv.

Section Touch.
Context (db : Db).
Implicit Types (gs : GroupHost).

(** The journal only grew. *)
Definition journal_grew (d e : GroupDirty) : Prop :=
  gd_groups d ⊆ gd_groups e /\ gd_creds d ⊆ gd_creds e /\ gd_invites d ⊆ gd_invites e
  /\ gd_pending d ⊆ gd_pending e /\ gd_files d ⊆ gd_files e.

(** What one group may change of its rows outside the stream, given the marks. *)
Record marked_change (nw : N) (d : GroupDirty) (gid : GroupId) (g g' : GroupState) : Prop := {
  mc_group : group_cols g' = group_cols g \/ gid ∈ gd_groups d;
  mc_creds : forall cid, g_creds g' !! cid = g_creds g !! cid
      \/ (is_Some (g_creds g' !! cid) /\ (gid, cid) ∈ gd_creds d);
  mc_invites : gid ∈ gd_invites d \/ forall nonce, g_invites g' !! nonce = g_invites g !! nonce
      \/ (g_invites g' !! nonce = None /\ exists i, g_invites g !! nonce = Some i /\ si_expires_at i <= nw);
  mc_pending : gid ∈ gd_pending d \/ g_pending g' = g_pending g
}.

(** The stream of one group and its journal: unchanged, or one row longer. *)
Definition stream_step (d e : GroupDirty) (gid : GroupId) (g g' : GroupState) : Prop :=
  (g_stream g' = g_stream g /\ g_next_seq g' = g_next_seq g /\ gd_stream_new e = gd_stream_new d)
  \/ exists n r, group_wf n g /\ g_stream g' = g_stream g ++ [r] /\ sr_seq r = g_next_seq g /\ g_next_seq g' = g_next_seq g + 1
       /\ gd_stream_new e = gd_stream_new d ++ [(gid, g_next_seq g)].

Lemma find_app_new (l : list StreamRow) r q :
  (forall x, In x l -> sr_seq x < sr_seq r) ->
  List.find (fun x => sr_seq x =? q) (l ++ [r])
  = if q =? sr_seq r then Some r else List.find (fun x => sr_seq x =? q) l.
Proof.
  induction l as [|x l IH]; intros Hlt; cbn.
  - rewrite N.eqb_sym. by destruct (q =? sr_seq r).
  - destruct (N.eqb_spec (sr_seq x) q) as [<-|Hne].
    + destruct (N.eqb_spec (sr_seq x) (sr_seq r)); [|done]. specialize (Hlt x ltac:(by left)). lia.
    + apply IH. intros y Hy. apply Hlt. by right.
Qed.

Lemma touch_stream gs gs' gid g g' :
  groups gs !! gid = Some g -> groups gs' = <[gid := g']> (groups gs) ->
  stream_step (gdirty gs) (gdirty gs') gid g g' -> cov_stream db gs -> cov_stream db gs'.
Proof.
  intros Hg Hgs Hst [S1 S2 S3].
  assert (forall i, i <> gid -> groups gs' !! i = groups gs !! i) as Hne by (intros i Hi; by rewrite Hgs, lookup_insert_ne).
  assert (groups gs' !! gid = Some g') as Hg' by (by rewrite Hgs, lookup_insert_eq).
  assert (forall i q, i <> gid -> live_stream_row gs' i q = live_stream_row gs i q) as Hlive
    by (intros i q Hi; unfold live_stream_row; by rewrite Hne).
  assert (live_stream_row gs gid = fun q => List.find (fun r => sr_seq r =? q) (g_stream g)) as Hl.
  { unfold live_stream_row. by rewrite Hg. }
  assert (live_stream_row gs' gid = fun q => List.find (fun r => sr_seq r =? q) (g_stream g')) as Hl'.
  { unfold live_stream_row. by rewrite Hg'. }
  destruct Hst as [(E1 & E2 & E3)|(n & r & Hwf & E1 & E2 & E3 & E4)].
  - split; rewrite ?E3; [done | |].
    + intros i q Hin. destruct (S2 _ _ Hin) as (x & Hx & Hq). destruct (decide (i = gid)) as [->|Hi].
      * exists g'. rewrite Hg in Hx. simplify_eq. by rewrite E2.
      * exists x. by rewrite Hne.
    + intros i q Hq. specialize (S3 i q Hq). destruct (decide (i = gid)) as [->|Hi]; [|by rewrite Hlive].
      rewrite Hl', E1. by rewrite Hl in S3.
  - assert (forall x, In x (g_stream g) -> sr_seq x < g_next_seq g) as Hlt.
    { intros x [i Hx]%list_elem_of_In%list_elem_of_lookup. pose proof (gw_numbered _ _ Hwf _ _ Hx) as Hn.
      pose proof (gw_next _ _ Hwf) as Hnext. apply lookup_lt_Some in Hx. unfold lenN in Hnext. lia. }
    assert ((gid, g_next_seq g) ∉ gd_stream_new (gdirty gs)) as Hfresh.
    { intros Hin. destruct (S2 _ _ Hin) as (x & Hx & Hq). rewrite Hg in Hx. simplify_eq. lia. }
    split; rewrite ?E4.
    + apply NoDup_app. split_and!; [done | set_solver | apply NoDup_singleton].
    + intros i q [Hin|Hin]%elem_of_app.
      * destruct (S2 _ _ Hin) as (x & Hx & Hq). destruct (decide (i = gid)) as [->|Hi].
        -- exists g'. rewrite Hg in Hx. simplify_eq. split; [done | lia].
        -- exists x. by rewrite Hne.
      * apply list_elem_of_singleton in Hin. simplify_eq. exists g'. split; [done | lia].
    + intros i q Hq. specialize (S3 i q Hq). destruct (decide (i = gid)) as [->|Hi].
      * rewrite Hl', E1, find_app_new by (by rewrite E2). rewrite Hl in S3. rewrite E2.
        destruct (N.eqb_spec q (g_next_seq g)) as [->|Hqn].
        -- rewrite bool_decide_eq_true_2 by set_solver. destruct (List.find _ (g_stream g)) as [x|] eqn:Ef; [|done].
           apply find_some in Ef as [Hin Hs]. apply N.eqb_eq in Hs. specialize (Hlt _ Hin). lia.
        -- rewrite (bool_decide_ext _ ((gid, q) ∈ gd_stream_new (gdirty gs))); [done|]. set_solver.
      * rewrite Hlive by done. destruct (live_stream_row gs i q); [|done].
        rewrite (bool_decide_ext _ ((i, q) ∈ gd_stream_new (gdirty gs))); [done|]. set_solver.
Qed.

(** One group changed. *)
Lemma covered_group gs gs' gid g g' :
  groups gs !! gid = Some g -> groups gs' = <[gid := g']> (groups gs) -> files gs' = files gs ->
  gh_now gs' = gh_now gs -> journal_grew (gdirty gs) (gdirty gs') ->
  marked_change (gh_now gs) (gdirty gs') gid g g' -> stream_step (gdirty gs) (gdirty gs') gid g g' ->
  groups_covered db gs -> groups_covered db gs'.
Proof.
  intros Hg Hgs Hf Hnow (J1 & J2 & J3 & J4 & J5) [M1 M2 M3 M4] Hst [C1 C2 C3 C4 C5 C6].
  assert (forall i, i <> gid -> groups gs' !! i = groups gs !! i) as Hne by (intros i Hi; by rewrite Hgs, lookup_insert_ne).
  assert (groups gs' !! gid = Some g') as Hg' by (by rewrite Hgs, lookup_insert_eq).
  assert (forall i, is_Some (groups gs !! i) -> is_Some (groups gs' !! i)) as Hmono.
  { intros i. destruct (decide (i = gid)) as [->|Hi]; [by rewrite Hg' | by rewrite Hne]. }
  split.
  - intros i. specialize (C1 i). destruct (decide (i = gid)) as [->|Hi].
    + rewrite Hg'. rewrite Hg in C1. destruct M1 as [->|M1]; [|by left]. destruct C1; [left; set_solver | by right].
    + rewrite Hne by done. destruct (groups gs !! i); [|done]. destruct C1; [left; set_solver | by right].
  - intros i cid. specialize (C2 i cid). unfold live_cred in *. destruct (decide (i = gid)) as [->|Hi].
    + rewrite Hg'. rewrite Hg in C2. cbn in *. destruct (M2 cid) as [->|[[c Hc] Hm]]; [|rewrite Hc; by left].
      destruct (g_creds g !! cid); [|done]. destruct C2; [left; set_solver | by right].
    + rewrite Hne by done. destruct (groups gs !! i ≫= _); [|done]. destruct C2; [left; set_solver | by right].
  - intros i. destruct (C3 i) as [[Hin Hs]|Hr]; [left; split; [set_solver | auto]|].
    destruct (decide (i = gid)) as [->|Hi].
    + destruct M3 as [M3|M3]; [left; rewrite Hg'; eauto|]. right. intros nonce. specialize (Hr nonce). specialize (M3 nonce).
      unfold live_invite in *. rewrite Hg'. rewrite Hg in Hr. cbn in *. rewrite Hnow.
      destruct M3 as [->|[-> (inv & Hi & He)]].
      * destruct (g_invites g !! nonce); [done|]. destruct Hr as [Hr|(j & Hj & Hle & _)]; [by left | right; eauto 6].
      * rewrite Hi in Hr. right. eauto 6.
    + right. intros nonce. specialize (Hr nonce). unfold live_invite in *. rewrite Hne by done. by rewrite Hnow.
  - intros i. destruct (C4 i) as [[Hin Hs]|Hr]; [left; split; [set_solver | auto]|].
    destruct (decide (i = gid)) as [->|Hi].
    + destruct M4 as [M4|M4]; [left; rewrite Hg'; eauto|]. right. intros pid. specialize (Hr pid).
      unfold live_pending in *. rewrite Hg'. rewrite Hg in Hr. cbn in *. by rewrite M4.
    + right. intros pid. specialize (Hr pid). unfold live_pending in *. by rewrite Hne.
  - exact (touch_stream gs gs' gid g g' Hg Hgs Hst C5).
  - intros tok. specialize (C6 tok). rewrite Hf. destruct (files gs !! tok) as [f|]; [|done].
    destruct C6 as [Hgf C6]. split; [auto|]. destruct C6; [left; set_solver | by right].
Qed.
End Touch.

(** Reads and clock. *)
Ltac g_mono := unfold journal_grew; cbn; split_and!; set_solver.

Section Methods.
Context `{Crypto} (db : Db).
Implicit Types (s : GroupHost).
Local Notation gcov := (groups_covered db).

(** The clock does not go back: leftover rows stay expired. *)
Lemma clock_covers s t : gh_now s <= t -> gcov s -> gcov (s <| gh_now := t |>).
Proof.
  intros Ht [C1 C2 C3 C4 C5 C6]. split; [exact C1 | exact C2 | | exact C4 | | exact C6].
  - intros gid. destruct (C3 gid) as [Hl|Hr]; [by left|]. right. intros nonce. specialize (Hr nonce).
    change (live_invite (s <| gh_now := t |>) gid nonce) with (live_invite s gid nonce).
    destruct (live_invite s gid nonce); [done|]. destruct Hr as [Hr|(i & Hi & He & Hs)]; [by left|]. right.
    exists i. split_and!; [done | cbn; lia | done].
  - destruct C5 as [S1 S2 S3]. split; [exact S1 | exact S2 | exact S3].
Qed.

(** A group under a new identifier. *)
Lemma create_group_for_covers s pk f creator rg rs rc :
  groups s !! mk_group_id rg = None -> gcov s -> post (create_group_for pk f creator rg rs rc) s (fun _ => gcov).
Proof.
  intros Hfresh Hc. unfold create_group_for, put_group, g_journal. wp.
  match goal with |- context [if ?c then _ else _] => destruct c end; wp; [done|].
  set (gid := mk_group_id rg) in *. set (s' := s <| groups ::= _ |> <| gdirty ::= _ |>).
  assert (forall i, i <> gid -> groups s' !! i = groups s !! i) as Hne by (intros i Hi; by apply lookup_insert_ne).
  assert (exists g, groups s' !! gid = Some g /\ g_invites g = ∅ /\ g_pending g = ∅ /\ g_stream g = []
    /\ (forall cid, is_Some (g_creds g !! cid) -> cid = rc)) as (g & Hg & Hi0 & Hp0 & Hs0 & Hc0).
  { eexists. split; [by apply lookup_insert_eq|]. cbn. split_and!; try done.
    intros cid [c [<- _]%lookup_singleton_Some]. done. }
  destruct Hc as [C1 C2 C3 C4 C5 C6]. split.
  - intros i. specialize (C1 i). destruct (decide (i = gid)) as [->|Hi]; [rewrite Hg; left; cbn; set_solver|].
    rewrite Hne by done. destruct (groups s !! i); [|done]. destruct C1; [left; cbn; set_solver | by right].
  - intros i cid. specialize (C2 i cid). unfold live_cred in *. destruct (decide (i = gid)) as [->|Hi].
    + rewrite Hg. rewrite Hfresh in C2. cbn in *. destruct (g_creds g !! cid) eqn:Ec; [|done]. left.
      rewrite (Hc0 cid) by eauto. set_solver.
    + rewrite Hne by done. destruct (groups s !! i ≫= _); [|done]. destruct C2; [left; cbn; set_solver | by right].
  - intros i. destruct (C3 i) as [[Hin Hs]|Hr].
    + left. split; [done|]. destruct (decide (i = gid)) as [->|Hi]; [by rewrite Hg | by rewrite Hne].
    + right. intros nonce. specialize (Hr nonce). unfold live_invite in *. destruct (decide (i = gid)) as [->|Hi].
      * rewrite Hg. cbn. rewrite Hi0, lookup_empty. rewrite Hfresh in Hr. destruct Hr as [Hr|(j & _ & _ & [x Hx])]; [by left | done].
      * by rewrite Hne.
  - intros i. destruct (C4 i) as [[Hin Hs]|Hr].
    + left. split; [done|]. destruct (decide (i = gid)) as [->|Hi]; [by rewrite Hg | by rewrite Hne].
    + right. intros pid. specialize (Hr pid). unfold live_pending in *. destruct (decide (i = gid)) as [->|Hi].
      * rewrite Hg. cbn. rewrite Hp0, lookup_empty. by rewrite Hfresh in Hr.
      * by rewrite Hne.
  - destruct C5 as [S1 S2 S3]. split; [done | |].
    + intros i q Hin. destruct (S2 _ _ Hin) as (x & Hx & Hq). exists x. rewrite Hne; [done|]. congruence.
    + intros i q Hq. specialize (S3 i q Hq). unfold live_stream_row in *. destruct (decide (i = gid)) as [->|Hi].
      * rewrite Hg. cbn. rewrite Hs0. cbn. by rewrite Hfresh in S3.
      * by rewrite Hne.
  - intros tok. specialize (C6 tok). change (files s') with (files s). destruct (files s !! tok) as [x|]; [|done].
    destruct C6 as [Hx C6]. split; [|done]. destruct (decide (slot_group_id x = gid)) as [->|Hi]; [by rewrite Hg | by rewrite Hne].
Qed.

Lemma store_invite_covers s gid cred inv : gcov s -> post (store_invite gid cred inv) s (fun _ => gcov).
Proof.
  intros Hc. unfold store_invite. apply authorized; [done|]. intros g Hg Hl.
  rewrite post_if. case_cond; wp; [done|].
  eapply post_conseq; [apply member_vk_reads|]. intros [vk|e] s1 ->; [|done].
  apply read_lift; intros ? _; [done|]. apply with_group; [done|]. intros g' Hg'. simplify_eq.
  unfold put_group, g_journal. wp.
  eapply (covered_group db s); [done | reflexivity | done | done | g_mono | | by left | done].
  split; cbn; auto. left. set_solver.
Qed.

Lemma accept_covers s gid nonce rs rc rp : gcov s -> post (accept gid nonce rs rc rp) s (fun _ => gcov).
Proof.
  intros Hc. unfold accept. apply with_group; [done|]. intros g Hg.
  apply read_lift; [done|]. intros st Hst.
  destruct (g_invites g !! nonce) as [st'|] eqn:Hi; simplify_eq/=. unfold put_group, g_journal. wp. case_cond; wp.
  - eapply (covered_group db s); [done | reflexivity | done | done | g_mono | | by left | done].
    split; cbn; auto. right. intros n. destruct (decide (n = nonce)) as [->|Hne].
    + right. rewrite lookup_delete_eq. split; [done|]. exists st. split; [done | cbn in *; lia].
    + left. by rewrite lookup_delete_ne.
  - eapply (covered_group db s); [done | cbn; apply insert_insert_eq | done | done | g_mono | | by left | done].
    split; cbn; [by left | | left; set_solver | left; set_solver]. intros cid.
    destruct (decide (cid = rc)) as [->|Hne]; [right; rewrite lookup_insert_eq | left; by rewrite lookup_insert_ne].
    split; [eauto | set_solver].
Qed.

Lemma alter_group (f : GroupState -> GroupState) (gid : GroupId) (m : gmap GroupId GroupState) g :
  m !! gid = Some g -> alter f gid m = <[gid := f g]> m.
Proof.
  intros Hg. apply map_eq. intros i. destruct (decide (i = gid)) as [->|Hne].
  - by rewrite lookup_alter_eq, lookup_insert_eq, Hg.
  - by rewrite lookup_alter_ne, lookup_insert_ne.
Qed.

Lemma host_admit_covers s gid cred adm pk f : gcov s -> post (host_admit gid cred adm pk f) s (fun _ => gcov).
Proof.
  intros Hc. unfold host_admit. apply authorized; [done|]. intros g Hg Hl.
  rewrite post_if. case_cond; wp; [done|].
  eapply post_conseq; [apply member_vk_reads|]. intros [vk|e] s1 ->; [|done].
  apply read_lift; intros ? _; [done|]. unfold gc_pending, g_journal. wp.
  match goal with |- post _ ?x _ => set (s1 := x) end.
  set (g1 := g <| g_pending ::= filter (fun kv => gh_now s < pending_expires_at kv.2) |>
               <| g_invites ::= filter (fun kv => gh_now s < si_expires_at kv.2) |>).
  assert (groups s1 = <[gid := g1]> (groups s)) as Hs1 by (exact (alter_group _ _ _ _ Hg)).
  assert (gcov s1) as Hc1.
  { eapply (covered_group db s); [done | exact Hs1 | done | done | g_mono | | by left | done].
    split; cbn; auto; left; set_solver. }
  assert (groups s1 !! gid = Some g1) as Hg1 by (by rewrite Hs1, lookup_insert_eq).
  eapply post_conseq; [apply get_group_spec|]. intros [g'|e] s2 [-> Hg']; wp; [|done]. simplify_eq.
  destruct (g_pending g1 !! _) as [p|] eqn:Hp; cbn [ok_or]; [|done]. unfold put_group. wp.
  set (g2 := g1 <| g_pending ::= delete (admit_pending_id adm) |>).
  assert (gcov (s1 <| groups ::= <[gid := g2]> |>)) as Hc2.
  { eapply (covered_group db s1); [done | reflexivity | done | done | g_mono | | by left | done].
    split; cbn; auto. left. set_solver. }
  case_cond; wp; [done|]. destruct (g_creds _ !! _) as [rec|] eqn:Er; cbn [ok_or]; wp; [|done].
  eapply (covered_group db s1); [done | cbn; apply insert_insert_eq | done | done | g_mono | | by left | done].
  split; cbn; [by left | | by right; auto | left; set_solver]. intros cid.
  destruct (decide (cid = credential_id (pending_cred p))) as [->|Hne];
    [right; rewrite lookup_insert_eq | left; by rewrite lookup_insert_ne]. split; [eauto | set_solver].
Qed.

(** *** The stream *)

Lemma fanout_copy_covers n rnd s gid t b :
  (forall g, groups s !! gid = Some g -> group_wf n g) -> n + 1 < U64_MAX -> gcov s ->
  post (fanout_copy rnd gid t b) s (fun _ => gcov).
Proof.
  intros Hwf Hn Hc. unfold fanout_copy, put_group, g_journal, g_wire. apply with_group; [done|]. intros g Hg. wp.
  case_cond; wp; [done|]. match goal with |- match ?x with _ => _ end => destruct x end.
  all: try (wp; eapply (covered_group db s); [done | reflexivity | done | done | g_mono | | right | done]).
  all: try (split; cbn; [right; set_solver | by left | by right; auto | by right]).
  all: pose proof (Hwf _ Hg) as Hw; exists n; eexists; split_and!; [done | reflexivity | done | | done];
    cbn; apply u64_add_small; pose proof (gw_next _ _ Hw); pose proof (gw_count _ _ Hw); lia.
Qed.

Lemma set_groups_id s f : f (groups s) = groups s -> s <| groups ::= f |> = s.
Proof. destruct s as [a b c d e]. intros Hf. change (mk_host a (f b) c d e = mk_host a b c d e). cbn in Hf. by rewrite Hf. Qed.

Lemma alter_cred_covers s gid cid f : gcov s -> post (alter_cred gid cid f) s (fun _ => gcov).
Proof.
  intros Hc. unfold alter_cred, g_journal. wp. destruct (groups s !! gid) as [g|] eqn:Hg.
  - eapply (covered_group db s); [done | cbn; by apply alter_group | done | done | g_mono | | by left | done].
    split; cbn; [by left | | by right; auto | by right]. intros c. destruct (decide (c = cid)) as [->|Hne].
    + rewrite lookup_alter_eq. destruct (g_creds g !! cid); cbn; [right; split; [eauto | set_solver] | by left].
    + left. by rewrite lookup_alter_ne.
  - destruct Hc as [C1 C2 C3 C4 C5 C6].
    assert (alter (fun g => g <| g_creds ::= alter f cid |>) gid (groups s) = groups s) as Ha.
    { apply map_eq. intros i. destruct (decide (i = gid)) as [->|Hne]; [by rewrite lookup_alter_eq, Hg | by rewrite lookup_alter_ne]. }
    assert (s <| groups ::= alter (fun g => g <| g_creds ::= alter f cid |>) gid |> = s) as ->.
    { by apply set_groups_id. }
    split; [exact C1 | | exact C3 | exact C4 | | exact C6].
    + intros i c. specialize (C2 i c). change (live_cred (s <| gdirty ::= _ |>) i c) with (live_cred s i c).
      destruct (live_cred s i c); [|done]. destruct C2; [left; cbn; set_solver | by right].
    + destruct C5 as [S1 S2 S3]. split; [exact S1 | exact S2 | exact S3].
Qed.

(** The wider hypothesis of the methods that append. *)
Definition streams_wf (n : N) s : Prop := forall gid g, groups s !! gid = Some g -> group_wf n g.

Lemma append_host_revocation_covers n rnd s gid stmt :
  streams_wf n s -> n + 1 < U64_MAX -> gcov s -> post (append_host_revocation rnd gid stmt) s (fun _ => gcov).
Proof.
  intros Hw Hn Hc. unfold append_host_revocation. wp. case_bool_decide; wp; [done|].
  apply (fanout_copy_covers n); [|done|done]. intros g. apply Hw.
Qed.

Lemma refresh_fanout_covers s gid cred f : gcov s -> post (refresh_fanout gid cred f) s (fun _ => gcov).
Proof.
  intros Hc. unfold refresh_fanout. apply authorized; [done|]. intros g Hg Hl.
  apply with_group; [done|]. intros g' Hg'. by apply alter_cred_covers.
Qed.

Lemma append_remove_covers n rnd s gid cred b :
  streams_wf n s -> n + 1 < U64_MAX -> gcov s -> post (append_remove rnd gid cred b) s (fun _ => gcov).
Proof.
  intros Hw Hn Hc. unfold append_remove, g_wire. apply read_lift; intros bundle _; [done|].
  apply read_bind; [done | apply member_vk_reads |]. intros vk. apply read_lift; intros ? _; [done|]. wp.
  eapply post_conseq; [apply (fanout_copy_covers n); [intros g; apply Hw | done | done]|].
  intros [out|e] s1 Hc1; wp; [|done]. eapply post_conseq; [by apply alter_cred_covers|]. by intros [] s2 Hc2; wp.
Qed.

Lemma apply_signing_replace_covers s gid cred b :
  gcov s -> post (apply_signing_replace gid cred b) s (fun _ => gcov).
Proof.
  intros Hc. unfold apply_signing_replace, g_wire. apply read_lift; intros rep _; [done|].
  apply read_bind; [done | apply member_vk_reads |]. intros vk. apply read_lift; intros ? _; [done|].
  by apply alter_cred_covers.
Qed.

(** A file slot of a group that is there. *)
Lemma covered_file s tok slot :
  is_Some (groups s !! slot_group_id slot) -> gcov s ->
  gcov (s <| files ::= <[tok := slot]> |> <| gdirty ::= fun d => d <| gd_files ::= union {[tok]} |> |>).
Proof.
  intros Hg [C1 C2 C3 C4 C5 C6]. split; [exact C1 | exact C2 | exact C3 | exact C4 | |].
  - destruct C5 as [S1 S2 S3]. split; [exact S1 | exact S2 | exact S3].
  - intros t. specialize (C6 t). cbn. destruct (decide (t = tok)) as [->|Hne].
    + rewrite lookup_insert_eq. split; [done | left; set_solver].
    + rewrite lookup_insert_ne by done. destruct (files s !! t); [|done]. destruct C6 as [? C6].
      split; [done|]. destruct C6; [left; set_solver | by right].
Qed.

Lemma fanout_copy_group rnd s gid t b :
  post (fanout_copy rnd gid t b) s (fun r s1 => match r with Ok _ => is_Some (groups s1 !! gid) | Err _ => True end).
Proof.
  eapply post_conseq; [apply fanout_copy_spec|].
  intros r s1 [(-> & -> & _)|(g & D & Hg & _ & -> & _)]; [done|]. destruct r; [|done]. cbn. by rewrite lookup_insert_eq.
Qed.

Lemma append_reserve_covers n rnd s gid cred b :
  streams_wf n s -> n + 1 < U64_MAX -> gcov s -> post (append_reserve rnd gid cred b) s (fun _ => gcov).
Proof.
  intros Hw Hn Hc. unfold append_reserve, g_journal, g_wire. apply read_lift; intros res _; [done|].
  wp. case_cond; wp; [done|]. case_cond; wp; [done|].
  eapply post_conseq; [apply post_and; [apply (fanout_copy_covers n); [intros g; apply Hw | done | done] | apply fanout_copy_group]|].
  intros [out|e] s1 [Hc1 Hg1]; wp; [|done]. by apply covered_file.
Qed.

Lemma apply_signing_replace_streams n s gid cred b :
  streams_wf n s -> post (apply_signing_replace gid cred b) s (fun _ => streams_wf n).
Proof.
  intros Hw. unfold apply_signing_replace, g_wire. apply read_lift; intros rep _; [done|].
  apply read_bind; [done | apply member_vk_reads |]. intros vk. apply read_lift; intros ? _; [done|].
  unfold alter_cred, g_journal. wp. intros i x. cbn. intros [[-> (g & Hg & ->)]|[_ Hx]]%lookup_alter_Some; [|by eapply Hw].
  apply (group_wf_creds n g); try done; [|by eapply Hw]. cbn.
  intros cid rec [[_ (r & Hr & ->)]|[_ Hr]]%lookup_alter_Some Hlive; cbn in *.
  - split; [eauto|]. by apply (gw_live _ _ (Hw _ _ Hg) _ _ Hr).
  - by apply (gw_live _ _ (Hw _ _ Hg) _ _ Hr).
Qed.

Lemma append_covers n rnd s gid cred t b :
  streams_wf n s -> n + 1 < U64_MAX -> gcov s -> post (append rnd gid cred t b) s (fun _ => gcov).
Proof.
  intros Hw Hn Hc. unfold append. apply authorized; [done|]. intros g Hg Hl.
  assert (forall t, post (fanout_copy rnd gid t b) s (fun _ => gcov)) as Hf
    by (intros t'; apply (fanout_copy_covers n); [intros x; apply Hw | done | done]).
  destruct t; wp; try done; try apply Hf.
  - by apply (append_remove_covers n).
  - eapply post_conseq; [apply post_and; [by apply apply_signing_replace_covers | by apply (apply_signing_replace_streams n)]|].
    intros [[]|e] s1 [Hc1 Hw1]; [|done]. apply (fanout_copy_covers n); [intros x; apply Hw1 | done | done].
  - by apply (append_reserve_covers n).
Qed.

Lemma upload_file_covers s gid cred tok b : gcov s -> post (upload_file gid cred tok b) s (fun _ => gcov).
Proof.
  intros Hc. unfold upload_file, g_journal. apply authorized; [done|]. intros g Hg Hl. wp.
  destruct (files s !! tok) as [slot|] eqn:Hs; cbn [ok_or]; wp; [|done].
  case_cond; wp; [done|]. case_cond; wp; [done|].
  apply covered_file; [|done]. pose proof (cover_files _ _ Hc tok) as Hf. rewrite Hs in Hf. by destruct Hf.
Qed.

(** ** Operations *)

(** The clock is monotone and a new group gets an unused identifier. *)
Definition g_storable (op : group_op) s : Prop :=
  match op with
  | GNow t => gh_now s <= t
  | GCreate _ _ _ rg _ _ => groups s !! mk_group_id rg = None
  | _ => True
  end.

Lemma gexec_covers n op s :
  streams_wf n s -> n + 1 < U64_MAX -> g_storable op s -> gcov s -> gcov (gexec op s).1.
Proof.
  intros Hw Hn Hok Hc. assert (post (gexec op) s (fun _ => gcov)); [|done].
  destruct op; cbn [gexec]; try apply (post_unit _ s gcov).
  - wp. by apply clock_covers.
  - by apply create_group_for_covers.
  - by apply store_invite_covers.
  - by apply accept_covers.
  - eapply post_conseq; [apply lookup_pending_reads|]. by intros r s1 ->.
  - by apply host_admit_covers.
  - by apply (append_host_revocation_covers n).
  - by apply refresh_fanout_covers.
  - by apply (append_covers n).
  - by apply upload_file_covers.
  - unfold fetch_file. apply authorized; [done|]. intros g Hg Hl. wp. destruct (files s !! tok) as [slot|]; wp; [|done].
    destruct (slot_bytes slot); wp; [|done]. by case_cond; wp.
Qed.
End Methods.
