(* ===== verification/PgRows.v ===== *)
(** * Folding tables back into maps

    What a loop over the rows of a table builds, for any table and any state:
    when every row stands for one entry of a live map, the loop succeeds and
    visits each live entry exactly once. *)

From S2P Require Export PgTx.

(** ** The loop *)

Section Loop.
Context {S R Y : Type} (body : S -> R -> presult S) (stands : R -> Y -> Prop) (step : S -> Y -> S).

(** Rows that decode are folded one after the other. *)
Lemma fold_rows_decoded xs s :
  (forall x, x ∈ xs -> exists y, stands x y) ->
  (forall x y s, x ∈ xs -> stands x y -> body s x = Ok (step s y)) ->
  exists ys, Forall2 stands xs ys /\ fold_rows body s xs = Ok (foldl step s ys).
Proof.
  revert s; induction xs as [|x xs IH]; intros s Hdec Hbody; [by exists []|].
  destruct (Hdec x) as [y Hy]; [set_solver|].
  destruct (IH (step s y)) as (ys & Hys & Hf); [set_solver | intros; apply Hbody; set_solver |].
  exists (y :: ys). split; [by constructor|]. cbn. rewrite (Hbody x y s) by set_solver. exact Hf.
Qed.
End Loop.

(** The rows of a keyed table: [enc] writes the key columns, [rel] relates an
    entry to the other columns. *)
Section Keyed.
Context {S K V C Q : Type} `{Countable Q} (enc : K -> Q) (rel : K -> V -> C -> Prop).
Context (t : gmap Q C) (body : S -> Q * C -> presult S) (step : S -> K * V -> S).

(** [ys] are the entries of the table, each key once. *)
Record entries (ys : list (K * V)) : Prop := {
  entries_once : NoDup (map fst ys);
  entries_sound : forall k v, (k, v) ∈ ys -> exists c, t !! enc k = Some c /\ rel k v c;
  entries_complete : forall q c, t !! q = Some c -> exists k v, q = enc k /\ (k, v) ∈ ys /\ rel k v c
}.

Definition row_stands (x : Q * C) (y : K * V) : Prop :=
  x.1 = enc y.1 /\ rel y.1 y.2 x.2.

Lemma stands_keys xs ys : Forall2 row_stands xs ys -> map fst xs = map (fun y => enc y.1) ys.
Proof. induction 1 as [|[q c] [k v] xs ys [Hk _] _ IH]; cbn in *; congruence. Qed.

Lemma load_entries xs s :
  xs ≡ₚ map_to_list t ->
  (forall q c, t !! q = Some c -> exists k v, q = enc k /\ rel k v c) ->
  (forall s k v c, t !! enc k = Some c -> rel k v c -> body s (enc k, c) = Ok (step s (k, v))) ->
  exists ys, Forall2 row_stands xs ys /\ entries ys /\ fold_rows body s xs = Ok (foldl step s ys).
Proof.
  intros Hxs Hdec Hbody.
  assert (forall x, x ∈ xs <-> t !! x.1 = Some x.2) as Hin.
  { intros [q c]. rewrite Hxs. apply elem_of_map_to_list. }
  destruct (fold_rows_decoded body row_stands step xs s) as (ys & Hys & Hf).
  - intros [q c] Hx%Hin. cbn in Hx. destruct (Hdec _ _ Hx) as (k & v & Hk & Hr). by exists (k, v).
  - intros [q c] [k v] s' Hx%Hin [Hq Hr]. cbn in *. subst q. by apply Hbody.
  - exists ys. split; [done|]. split; [|done].
    assert (forall k v, (k, v) ∈ ys -> exists c, t !! enc k = Some c /\ rel k v c) as Hsound.
    { intros k v [i Hi]%list_elem_of_lookup.
      destruct (Forall2_lookup_r _ _ _ _ _ Hys Hi) as ([q c] & Hx & [Hq Hr]). cbn in *. subst q.
      exists c. split; [|done]. apply (Hin (enc k, c)). by eapply list_elem_of_lookup_2. }
    split; [|exact Hsound|].
    + assert (NoDup (map fst xs)) as Hnd.
      { change (NoDup (xs.*1)). rewrite Hxs. apply NoDup_fst_map_to_list. }
      rewrite (stands_keys _ _ Hys) in Hnd.
      change (NoDup ((fun y => enc y.1) <$> ys)) in Hnd.
      assert ((fun y : K * V => enc y.1) <$> ys = enc <$> (map fst ys)) as Heq
        by (change (map fst ys) with (ys.*1); by rewrite <- list_fmap_compose).
      rewrite Heq in Hnd. by apply NoDup_fmap_1 in Hnd.
    + intros q c Hc. assert ((q, c) ∈ xs) as Hx by by apply Hin.
      apply list_elem_of_lookup in Hx as [i Hi].
      destruct (Forall2_lookup_l _ _ _ _ _ Hys Hi) as ([k' v] & Hy & [Hq Hr]). cbn in *.
      exists k', v. split_and!; [done | by eapply list_elem_of_lookup_2 | done].
Qed.
End Keyed.

(** ** The maps *)

Section Maps.
Context {K V W : Type} `{Countable K}.
Implicit Types (m : gmap K V) (l : list (K * W)).

(** [insert] of an entry that may be missing. *)
Definition put (k : K) (ov : option V) m : gmap K V := match ov with Some v => <[k := v]> m | None => m end.

Lemma foldl_put_other (f : K -> W -> option V) l m k :
  k ∉ map fst l -> foldl (fun m kv => put kv.1 (f kv.1 kv.2) m) m l !! k = m !! k.
Proof.
  revert m; induction l as [|[k' w] l IH]; intros m Hout; cbn [foldl map fst snd] in *; [done|].
  apply not_elem_of_cons in Hout as [Hne Hout]. rewrite IH by done. unfold put.
  destruct (f k' w); [by rewrite lookup_insert_ne | done].
Qed.

(** Inserting the entries of a map gives the map. *)
Lemma foldl_put_map (f : K -> W -> option V) l (m' : gmap K V) :
  NoDup (map fst l) ->
  (forall k w, (k, w) ∈ l -> m' !! k = f k w) ->
  (forall k v, m' !! k = Some v -> exists w, (k, w) ∈ l) ->
  foldl (fun m kv => put kv.1 (f kv.1 kv.2) m) ∅ l = m'.
Proof.
  intros Hnd Hs Hc. apply map_eq. intros k.
  assert (forall m, m !! k = None ->
    foldl (fun m kv => put kv.1 (f kv.1 kv.2) m) m l !! k = if decide (k ∈ map fst l) then m' !! k else None) as Hgo.
  { clear Hc. induction l as [|[k' w] l IH]; intros m Hm; cbn [foldl map fst snd] in *; [done|].
    apply NoDup_cons in Hnd as [Hout Hnd]. destruct (decide (k' = k)) as [->|Hne].
    - rewrite foldl_put_other, decide_True by set_solver. rewrite (Hs k w) by set_solver. unfold put.
      destruct (f k w); [by rewrite lookup_insert_eq | done].
    - rewrite IH; [|done | intros; apply Hs; set_solver |].
      + destruct (decide (k ∈ map fst l)); [by rewrite decide_True by set_solver | by rewrite decide_False by set_solver].
      + unfold put. destruct (f k' w); [by rewrite lookup_insert_ne | done]. }
  rewrite Hgo by apply lookup_empty. destruct (decide _) as [|Hout]; [done|]. symmetry.
  destruct (m' !! k) as [v|] eqn:Em; [|done]. destruct (Hc _ _ Em) as [w Hin]. destruct Hout.
  apply list_elem_of_In, in_map_iff. exists (k, w). by rewrite <- list_elem_of_In.
Qed.

Lemma foldl_insert_list (f : W -> V) l :
  NoDup (map fst l) ->
  foldl (fun m kv => <[kv.1 := f kv.2]> m) ∅ l = list_to_map (map (fun kv => (kv.1, f kv.2)) l).
Proof.
  intros Hnd. assert (NoDup (map fst (map (fun kv => (kv.1, f kv.2)) l))) as Hnd' by by rewrite map_map.
  apply (foldl_put_map (fun _ w => Some (f w))); [done | |].
  - intros k w Hin. apply elem_of_list_to_map; [exact Hnd'|]. apply list_elem_of_In, in_map_iff.
    exists (k, w). by rewrite <- list_elem_of_In.
  - intros k v. rewrite <- elem_of_list_to_map by exact Hnd'. rewrite list_elem_of_In, in_map_iff.
    intros ([k' w] & [= <- <-] & Hin). exists w. by apply list_elem_of_In.
Qed.

(** Updates of single entries, seen from one key. *)
Lemma foldl_alter_lookup {Y} (key_of : Y -> K) (F : Y -> V -> V) (l : list Y) m k :
  foldl (fun m y => alter (F y) (key_of y) m) m l !! k =
  (fun v => foldl (fun v y => F y v) v (filter (fun y => key_of y = k) l)) <$> m !! k.
Proof.
  revert m; induction l as [|y l IH]; intros m; cbn [foldl]; [by destruct (m !! k)|].
  rewrite IH, filter_cons. destruct (decide (key_of y = k)) as [<-|Hne].
  - rewrite lookup_alter_eq. by destruct (m !! key_of y).
  - by rewrite lookup_alter_ne.
Qed.
End Maps.

(** A loop that updates one field of the state. *)
Lemma foldl_field {S A Y} (u : (A -> A) -> S -> S) (g : Y -> A -> A) (l : list Y) s :
  (forall s, u id s = s) -> (forall f g s, u f (u g s) = u (f ∘ g) s) ->
  foldl (fun s y => u (g y) s) s l = u (fun a => foldl (fun a y => g y a) a l) s.
Proof.
  intros Hid Hc. revert s; induction l as [|y l IH]; intros s; cbn; [by rewrite <- (Hid s) at 1|].
  by rewrite IH, Hc.
Qed.

(** ** Ordered maps *)

Section Ordered.
Context {V : Type}.
Implicit Types (t : btree V).

Lemma bt_insert_In k v t k' v' :
  In (k', v') (bt_insert k v t) -> (k' = k /\ v' = v) \/ In (k', v') t.
Proof.
  induction t as [|[k0 v0] t IH]; cbn; [naive_solver|].
  repeat case_cond; cbn; naive_solver.
Qed.

Lemma bt_insert_sorted k v t : bt_sorted t -> bt_sorted (bt_insert k v t).
Proof.
  induction t as [|[k0 v0] t IH]; cbn; [by repeat constructor|]. intros [Hf Hs].
  repeat case_cond; cbn.
  - split; [|by split]. constructor; cbn; [lia|]. eapply Forall_impl; [exact Hf|]. cbn. lia.
  - split; [|done]. eapply Forall_impl; [exact Hf|]. cbn. lia.
  - split; [|by apply IH]. apply Forall_forall. intros [k' v'] Hin%list_elem_of_In.
    apply bt_insert_In in Hin as [[-> ->]|Hin]; cbn; [lia|]. rewrite Forall_forall in Hf.
    apply (Hf (k', v')). by apply list_elem_of_In.
Qed.

Lemma bt_insert_get k v t k' :
  bt_sorted t -> bt_get k' (bt_insert k v t) = if k =? k' then Some v else bt_get k' t.
Proof.
  unfold bt_get. induction t as [|[k0 v0] t IH]; cbn; intros Hs.
  - by destruct (k =? k').
  - destruct Hs as [Hf Hs]. specialize (IH Hs). repeat case_cond; cbn; repeat case_cond; try done; try lia; try apply IH.
    all: try (rewrite IH; by repeat case_cond; try lia).
Qed.

(** Sorted maps are determined by their lookups. *)
Lemma bt_ext t1 t2 : bt_sorted t1 -> bt_sorted t2 -> (forall k, bt_get k t1 = bt_get k t2) -> t1 = t2.
Proof.
  revert t2; induction t1 as [|[k1 v1] t1 IH]; intros [|[k2 v2] t2] H1 H2 Hget; [done|..].
  - specialize (Hget k2). cbn in Hget. unfold bt_get in Hget. cbn in Hget. by rewrite N.eqb_refl in Hget.
  - specialize (Hget k1). unfold bt_get in Hget. cbn in Hget. by rewrite N.eqb_refl in Hget.
  - assert (bt_get k1 ((k2, v2) :: t2) = Some v1) as Hk1.
    { rewrite <- Hget. unfold bt_get. cbn. by rewrite N.eqb_refl. }
    assert (bt_get k2 ((k1, v1) :: t1) = Some v2) as Hk2.
    { rewrite Hget. unfold bt_get. cbn. by rewrite N.eqb_refl. }
    apply bt_get_In in Hk1, Hk2. cbn in H1, H2, Hk1, Hk2. destruct H1 as [F1 S1], H2 as [F2 S2].
    rewrite List.Forall_forall in F1, F2.
    assert (k1 = k2) as <-.
    { destruct Hk1 as [[=]|Hk1]; [done|]. destruct Hk2 as [[=]|Hk2]; [done|].
      apply F2 in Hk1. apply F1 in Hk2. cbn in *. lia. }
    assert (v1 = v2) as <- by (destruct Hk1 as [[=]|Hk1]; [done | apply F2 in Hk1; cbn in Hk1; lia]).
    f_equal. apply IH; [done..|]. intros k. specialize (Hget k). unfold bt_get in *. cbn in Hget.
    destruct (N.eqb_spec k1 k) as [Heq|Hne]; [|exact Hget]. subst k. clear Hget.
    assert (forall t, (forall x, In x t -> k1 < x.1) -> List.find (fun kv : N * V => kv.1 =? k1) t = None) as Hno.
    { clear. intros t Ht. destruct (List.find _ t) as [x|] eqn:E; [|done]. apply List.find_some in E as [Hx Heq].
      apply Ht in Hx. apply N.eqb_eq in Heq. lia. }
    rewrite !Hno; [done | exact F2 | exact F1].
Qed.
End Ordered.

(** ** Tables that mirror a map *)

Section Mirror.
Context {S K V W C Q : Type} `{Countable K} `{Countable Q} (enc : K -> Q) `{!Inj (=) (=) enc}.
Context (t : gmap Q C) (m : gmap K V) (cols : V -> C) (f : V -> W).
Context (body : S -> Q * C -> presult S) (st : gmap K W -> S).

Lemma load_map :
  (forall k, t !! enc k = cols <$> m !! k) -> (forall q, is_Some (t !! q) -> exists k, q = enc k) ->
  (forall w k v, m !! k = Some v -> body (st w) (enc k, cols v) = Ok (st (<[k := f v]> w))) ->
  fold_rows body (st ∅) (map_to_list t) = Ok (st (f <$> m)).
Proof.
  intros Ht Hk Hbody.
  set (P := fun (x : Q * C) (y : K * V) => x = (enc y.1, cols y.2) /\ m !! y.1 = Some y.2).
  assert (exists ys, Forall2 P (map_to_list t) ys) as [ys Hys].
  { assert (forall xs, (forall x, x ∈ xs -> exists y, P x y) -> exists ys, Forall2 P xs ys) as Hall.
    { induction xs as [|x xs IH]; intros Hx; [by exists []|]. destruct (Hx x) as [y Hy]; [set_solver|].
      destruct IH as [ys Hys]; [set_solver|]. exists (y :: ys). by constructor. }
    apply Hall. intros [q c] Hin%elem_of_map_to_list. destruct (Hk q) as [k ->]; [eauto|]. rewrite Ht in Hin.
    destruct (m !! k) as [v|] eqn:E; [|done]. cbn in Hin. simplify_eq. by exists (k, v). }
  assert (map_to_list t = map (fun y => (enc y.1, cols y.2)) ys) as Heq.
  { clear -Hys. induction Hys as [|x y xs ys [-> _] _ IH]; cbn; [done|]. by f_equal. }
  assert (forall w, fold_rows body (st w) (map_to_list t) = Ok (st (foldl (fun w y => put y.1 (Some (f y.2)) w) w ys))) as ->.
  { clear Heq. induction Hys as [|x [k v] xs ys [-> Hm] _ IH]; intros w; cbn [fold_rows foldl]; [done|].
    cbn [fst snd] in *. rewrite Hbody by done. apply IH. }
  f_equal. f_equal. apply (foldl_put_map (fun _ v => Some (f v))).
  - apply (NoDup_fmap_1 enc). assert (enc <$> map fst ys = (map_to_list t).*1) as ->; [|apply NoDup_fst_map_to_list].
    rewrite Heq. change (map fst ys) with (ys.*1). change (map (fun y => (enc y.1, cols y.2)) ys) with ((fun y => (enc y.1, cols y.2)) <$> ys).
    by rewrite <- !list_fmap_compose.
  - intros k v Hin. apply list_elem_of_lookup in Hin as [i Hi].
    destruct (Forall2_lookup_r _ _ _ _ _ Hys Hi) as (x & _ & _ & Hm). cbn in Hm. by rewrite lookup_fmap, Hm.
  - intros k w. rewrite lookup_fmap. destruct (m !! k) as [v|] eqn:E; [|done]. intros _.
    assert ((enc k, cols v) ∈ map_to_list t) as Hin by (apply elem_of_map_to_list; by rewrite Ht, E).
    apply list_elem_of_lookup in Hin as [i Hi]. destruct (Forall2_lookup_l _ _ _ _ _ Hys Hi) as ([k' v'] & Hy & Hx & Hm).
    cbn in Hx, Hm. injection Hx as Hkk _. apply (inj enc) in Hkk. subst k'. exists v'. by eapply list_elem_of_lookup_2.
Qed.
End Mirror.

(** * The types of the state

    What the Rust types say of the values in memory, where the model uses wider
    ones: 64-bit times, counters and sizes, and envelopes that came off the
    wire. The columns of a typed row decode to the row. *)

(** ** The types *)

(** An envelope that [decode_padded] produced. *)
Definition wire_inner (e : InnerEnvelope) : Prop := exists l, decode_padded l = Ok e.

Record row_typed (r : StoredEnvelope) : Prop := {
  ty_received : received_at r <= U64_MAX;
  ty_row_expires : row_expires_at r <= U64_MAX;
  ty_inner : wire_inner (row_inner r)
}.

Record dir_typed (d : DirectoryRow) : Prop := {
  ty_binding : binding_fits (dir_binding d);
  ty_binding_seq : binding_seq d <= U64_MAX;
  ty_revocation : forall st, dir_revocation d = Some st -> coarse_timestamp st <= U64_MAX
}.

Definition token_typed (k : TokenKind) : Prop :=
  match k with
  | Share _ ex _ _ => ex <= U64_MAX
  | Contact _ grace ws wc => (forall g, grace = Some g -> g <= U64_MAX) /\ ws <= U64_MAX /\ wc < 2 ^ 31
  end.

Definition bundle_typed (b : ServerBundle) : Prop :=
  s2s_port b <= U16_MAX /\ lenN (as_bytes (bundle_host b)) <= U64_MAX.

Definition peer_typed (p : PeerState) : Prop :=
  bundle_typed (peer_bundle p) /\ last_rx p <= U64_MAX /\ next_tx p <= U64_MAX.

Definition outbound_typed (r : OutboundRow) : Prop :=
  lenN (hpke_ciphertext (outer r)) <= U32_MAX
  /\ enqueued_at r <= U64_MAX /\ next_attempt r <= U64_MAX /\ backoff_secs r <= U64_MAX.

Section Home.
Context `{Crypto}.
Implicit Types (h : HomeServer).

Record home_typed h : Prop := {
  ty_now : now h <= U64_MAX;
  ty_bundle : advertised (hpke h) (sign_key h) (bundle_host (bundle h)) (s2s_port (bundle h)) = Ok (bundle h);
  ty_port : s2s_port (bundle h) <= U16_MAX;
  ty_rows : forall id box k r, mailboxes h !! id = Some box -> In (k, r) (rows box) -> row_typed r;
  ty_directory : forall id d, directory h !! id = Some d -> dir_typed d;
  ty_owner : forall id d box, directory h !! id = Some d -> mailboxes h !! id = Some box ->
      dir_identity_public_key d = owner_pk box;
  ty_tokens : forall t k, In (t, k) (tokens h) -> token_typed k;
  ty_peers : forall id p, peers h !! id = Some p -> peer_typed p;
  ty_outbound : forall r, In r (outbound h) -> outbound_typed r;
  ty_seen : forall enc q, seen_enc h !! enc = Some q -> q <= U64_MAX
}.
End Home.

Record group_typed (g : GroupState) : Prop := {
  ty_g_invites : forall n i, g_invites g !! n = Some i -> si_expires_at i <= U64_MAX;
  ty_g_pending : forall n p, g_pending g !! n = Some p -> pending_expires_at p <= U64_MAX;
  ty_g_stream : forall r, r ∈ g_stream g -> sr_received_at r <= U64_MAX
}.

Record slot_typed (f : FileSlot) : Prop := {
  ty_size : slot_size f < 2 ^ 31;
  ty_slot_expires : slot_expires_at f <= U64_MAX
}.

Record host_typed (gs : GroupHost) : Prop := {
  ty_gh_now : gh_now gs <= U64_MAX;
  ty_groups : forall gid g, groups gs !! gid = Some g -> group_typed g;
  ty_files : forall tok f, files gs !! tok = Some f -> slot_typed f
}.

(** ** Columns decode *)

#[global] Arguments key32 _ : simpl never.
#[global] Arguments opt_key _ : simpl never.

Lemma key32_to_vec (k : key) : key32 (to_vec k) = Ok k.
Proof. unfold key32. by rewrite copy_fixed_to_vec. Qed.

Lemma key32_gid gid : key32 (gid_vec gid) = Ok (group_key gid).
Proof. apply key32_to_vec. Qed.

Lemma opt_key_to_vec (k : option key) : opt_key (to_vec <$> k) = Ok k.
Proof.
  unfold opt_key.   destruct k as [k|]; cbn; [|done]. pose proof (arr_len k) as Hl. pose proof (key32_to_vec k) as Hk.
  destruct (to_vec k) as [|b l]; [done|]. cbn. by rewrite Hk.
Qed.

Lemma decode_binding_encode b : binding_fits b -> decode_binding (encode_binding b) = Ok b.
Proof.
  intros Hb%binding_value_wf. unfold decode_binding, encode_binding. rewrite decode_encode_wf by done.
  cbn -[binding_from_cbor_value binding_to_cbor_value]. by rewrite binding_value_roundtrip.
Qed.

(** An identity row gives back the directory entry and the empty mailbox. *)
Lemma load_directory_row id_pk d box :
  dir_typed d -> dir_identity_public_key d = id_pk ->
  load_directory id_pk (dir_revocation_public_key d) (identity_cols (identity_row_of (Some d) box)) = Ok (Some d).
Proof.
  intros [Hb Hs Hr] <-. unfold load_directory. cbn [c_binding_cbor identity_cols ir_binding_cbor identity_row_of].
  pose proof (decode_binding_encode _ Hb) as Hd. destruct (encode_binding (dir_binding d)) as [|x l] eqn:E; [done|].
  rewrite Hd. cbn [mbind result_bind c_revocation_cbor ir_revocation_cbor identity_cols identity_row_of c_binding_seq ir_binding_seq option_bind].
  rewrite as_u64_i64 by done. destruct d as [pk rpk b sq [st|]]; cbn in *; [|done].
  pose proof (revocation_decode_encode _ (Hr _ eq_refl)) as Hst.
  destruct (revocation_encode st) as [|y k] eqn:Er; [done|]. by rewrite Hst.
Qed.

Lemma load_mailbox_cols o q r cols `{Crypto} (h : HomeServer) :
  row_typed r -> row_seq r = q -> q <= U64_MAX -> mailbox_cols r = Ok cols ->
  load_mailbox_row h (to_vec o, as_i64 q, cols) =
  Ok (h <| mailboxes ::= alter (fun box =>
        box <| idempotency ::= <[idempotency_token (row_inner r) := q]> |> <| rows ::= bt_insert q r |>) o |>).
Proof.
  intros [Hr He (l & Hl)] <- Hq. unfold mailbox_cols, load_mailbox_row.
  destruct (decode_padded_stable _ _ Hl) as (l' & -> & Hd). intros [= <-]. cbn -[decode_padded].
  rewrite key32_to_vec. cbn -[decode_padded]. rewrite Hd. cbn. rewrite !as_u64_i64 by done. by destruct r.
Qed.

Lemma load_token_cols tok k `{Crypto} (h : HomeServer) :
  token_typed k -> load_token h (to_vec tok, token_cols k) = Ok (h <| tokens ::= fun l => l ++ [(tok, k)] |>).
Proof.
  unfold load_token. destruct k as [mb ex b r|mb grace ws wc]; cbn; intros Hk; rewrite key32_to_vec; cbn;
    rewrite key32_to_vec; cbn.
  - by rewrite as_u64_i64.
  - destruct Hk as (Hg & Hw & Hc). rewrite as_u64_i64, as_u64_i32 by done.
    destruct grace as [g|]; cbn; [|done]. by rewrite as_u64_i64 by auto.
Qed.

Lemma load_peer_cols id p `{Crypto} (h : HomeServer) :
  peer_typed p ->
  load_peer h (to_vec id, peer_cols p) =
  Ok (h <| peers ::= <[id := peer_restore (peer_bundle p) (refused p) (last_rx p) (next_tx p)]> |>).
Proof.
  intros ((Hp & Hh) & Hr & Ht). unfold load_peer. cbn -[bundle_decode bundle_encode].
  rewrite key32_to_vec. cbn -[bundle_decode bundle_encode].
  rewrite bundle_decode_encode by (unfold U16_MAX, U64_MAX in *; lia). cbn. by rewrite !as_u64_i64.
Qed.

Lemma load_outbound_cols r `{Crypto} (h : HomeServer) :
  outbound_typed r -> load_outbound h (outbound_cols r) = Ok (h <| outbound ::= fun l => l ++ [r] |>).
Proof.
  intros (Hc & He & Hn & Hb). unfold load_outbound. cbn -[decode_outer encode_outer]. rewrite key32_to_vec.
  cbn -[decode_outer encode_outer]. rewrite decode_encode_outer by done. cbn. rewrite !as_u64_i64 by done. by destruct r.
Qed.
