(* ===== verification/PgRestore.v ===== *)
(** * What a restart brings back: the home server

    From tables in agreement with a typed memory, the reading loops rebuild
    that memory: every map equal, lists that carry no order up to order, and
    of the idempotency tokens those of the rows still queued. *)

From stdpp Require Import sorting.
From S2P Require Export PgRows PgTouch.

(** ** Lists keyed by their first component *)

Lemma NoDup_fst_eq {K V} (l : list (K * V)) k v v' : NoDup (map fst l) -> (k, v) ∈ l -> (k, v') ∈ l -> v = v'.
Proof.
  induction l as [|[k0 v0] l IH]; cbn; [set_solver|]. intros [Hn Hnd]%NoDup_cons.
  rewrite !elem_of_cons. assert (forall w, (k0, w) ∈ l -> False) as Hout.
  { intros w Hw. apply Hn, list_elem_of_In, in_map_iff. exists (k0, w). by rewrite <- list_elem_of_In. }
  naive_solver.
Qed.

(** ** Ordered maps from unordered insertions *)

Lemma foldl_bt_insert {V} (l : list (N * V)) (t : btree V) :
  NoDup (map fst l) -> bt_sorted t -> (forall k v, (k, v) ∈ l <-> In (k, v) t) ->
  foldl (fun t kv => bt_insert kv.1 kv.2 t) [] l = t.
Proof.
  intros Hnd Hs Hl.
  assert (forall t0, bt_sorted t0 -> (forall k, k ∈ map fst l -> bt_get k t0 = None) ->
    let t' := foldl (fun t kv => bt_insert kv.1 kv.2 t) t0 l in
    bt_sorted t' /\ forall k v, bt_get k t' = Some v <-> bt_get k t0 = Some v \/ (k, v) ∈ l) as Hgo.
  { clear Hl. induction l as [|[k v] l IH]; intros t0 Hs0 Hout; cbn [foldl map fst snd] in *.
    - split; [done|]. set_solver.
    - apply NoDup_cons in Hnd as [Hk Hnd]. destruct (IH Hnd (bt_insert k v t0)) as [Hs' Hg'].
      + by apply bt_insert_sorted.
      + intros k' Hk'. rewrite bt_insert_get by done. destruct (N.eqb_spec k k') as [<-|]; [done|]. set_solver.
      + split; [done|]. intros k' v'. rewrite Hg', bt_insert_get by done. rewrite elem_of_cons.
        destruct (N.eqb_spec k k') as [<-|Hne]; [|naive_solver].
        rewrite Hout by set_solver. split; [naive_solver|].
        intros [|[|Hin]]; [done | naive_solver |]. exfalso. apply Hk, list_elem_of_In, in_map_iff.
        exists (k, v'). by rewrite <- list_elem_of_In. }
  destruct (Hgo [] I) as [Hs' Hg']; [done|]. apply bt_ext; [done..|]. intros k. apply option_eq. intros v.
  rewrite Hg'. rewrite Hl. split; [|intros; right; by apply bt_get_In].
  intros [Hn|Hin]; [done | by apply bt_In_get].
Qed.

Lemma bt_sorted_NoDup {V} (t : btree V) : bt_sorted t -> NoDup (map fst t).
Proof.
  induction t as [|[k v] t IH]; cbn; [constructor|]. intros [Hf Hs]. constructor; [|by apply IH].
  intros ([k' v'] & Heq & Hin)%list_elem_of_In%in_map_iff. cbn in Heq. subst k'.
  rewrite List.Forall_forall in Hf. apply Hf in Hin. cbn in Hin. lia.
Qed.

(** ** The restored state *)

(** The idempotency tokens of the queued rows. *)
Definition row_tokens (t : btree StoredEnvelope) : gmap key N :=
  list_to_map (map (fun kv => (idempotency_token (row_inner kv.2), kv.1)) t).

Definition restored_box (b : Mailbox) : Mailbox :=
  mk_mailbox (owner_pk b) (next_seq b) (rows b) (row_tokens (rows b)) (box_bytes b) (disabled b).

Definition empty_box (b : Mailbox) : Mailbox :=
  mk_mailbox (owner_pk b) (next_seq b) [] ∅ (box_bytes b) (disabled b).

Definition restored_peer (p : PeerState) : PeerState :=
  peer_restore (peer_bundle p) (refused p) (last_rx p) (next_tx p).

Section Restore.
Context `{Crypto}.
Implicit Types (h : HomeServer) (db : Db) (n : N).

Record home_restored h h' : Prop := {
  re_hpke : hpke h' = hpke h;
  re_sign_key : sign_key h' = sign_key h;
  re_bundle : bundle h' = bundle h;
  re_now : now h' = 1700000000;
  re_limits : limits h' = default_limits;
  re_boxes : mailboxes h' = restored_box <$> mailboxes h;
  re_directory : directory h' = directory h;
  re_tokens : tokens h' ≡ₚ tokens h;
  re_prekeys : forall o, default [] (prekeys h' !! o) = default [] (prekeys h !! o);
  re_prekeys_some : forall o, prekeys h' !! o <> Some [];
  re_memberships : forall o, default [] (memberships h' !! o) ≡ₚ default [] (memberships h !! o);
  re_peers : peers h' = restored_peer <$> peers h;
  re_outbound : outbound h' = outbound h;
  re_seen : seen_enc h' = seen_enc h;
  re_dirty : dirty h' = clean_dirty;
  re_nonces : owner_nonces h' = ∅
}.

(** ** Identities *)

Definition identity_step (s : HomeServer) (y : key * (Mailbox * option DirectoryRow)) : HomeServer :=
  s <| mailboxes ::= put y.1 (Some (empty_box y.2.1)) |> <| directory ::= put y.1 y.2.2 |>.

Lemma load_identity_step h s id box :
  mailboxes h !! id = Some box -> 1 <= next_seq box < 2 ^ 63 -> box_bytes box <= U64_MAX -> home_typed h ->
  load_identity s (to_vec id, identity_cols (identity_row h id)) = Ok (identity_step s (id, (box, directory h !! id))).
Proof.
  intros Hb Hn Hbytes Ht. unfold load_identity, identity_row. rewrite Hb. cbn [fst snd].
  assert (as_i64 (next_seq box) = Z.of_N (next_seq box)) as Hi by (apply as_i64_small; lia).
  assert (as_u64 (as_i64 (next_seq box)) = next_seq box) as Hu by (apply as_u64_i64; unfold U64_MAX; lia).
  rewrite key32_to_vec. cbn [mbind result_bind]. destruct (directory h !! id) as [d|] eqn:Hd.
  - cbn -[load_directory identity_cols identity_row_of]. cbn [c_identity_public_key c_revocation_public_key
      c_mailbox_next_seq c_mailbox_bytes c_mailbox_disabled identity_cols identity_row_of ir_pk ir_rev_pk ir_next_seq ir_bytes ir_disabled].
    rewrite !key32_to_vec. cbn [mbind result_bind].
    rewrite load_directory_row by (by eapply ty_directory || done).
    cbn [mbind result_bind]. rewrite Hu, Hi, (proj2 (Z.ltb_lt 0 _)) by lia. rewrite as_u64_i64 by done.
    rewrite (ty_owner _ Ht _ _ _ Hd Hb). done.
  - cbn -[key32 to_vec as_u64 as_i64 Z.ltb zero_key]. rewrite !key32_to_vec.
    cbn [mbind result_bind]. rewrite Hu, Hi, (proj2 (Z.ltb_lt 0 _)) by lia. by rewrite as_u64_i64 by done.
Qed.

Lemma identity_steps s ys :
  foldl identity_step s ys =
  s <| mailboxes := foldl (fun m y => put y.1 (Some (empty_box y.2.1)) m) (mailboxes s) ys |>
    <| directory := foldl (fun m y => put y.1 y.2.2 m) (directory s) ys |>.
Proof. revert s; induction ys as [|y ys IH]; intros s; cbn [foldl]; [by destruct s|]. by rewrite IH. Qed.

Lemma restore_identities n h db s :
  home_inv n h -> n + 1 < 2 ^ 63 -> home_typed h -> home_synced db h -> keys_ok db ->
  mailboxes s = ∅ -> directory s = ∅ ->
  fold_rows load_identity s (map_to_list (t_identities db)) =
  Ok (s <| mailboxes := empty_box <$> mailboxes h |> <| directory := directory h |>).
Proof.
  intros Hi Hn Ht Hsy Hko Hm Hd.
  destruct (load_entries (to_vec (n := 32)) (fun id v c => mailboxes h !! id = Some v.1 /\ directory h !! id = v.2
      /\ c = identity_cols (identity_row h id)) (t_identities db) load_identity identity_step
      (map_to_list (t_identities db)) s) as (ys & _ & [Hnd Hsound Hcomp] & ->).
  - done.
  - intros q c Hq. destruct (ok_identities _ Hko q) as [id ->]; [eauto|]. rewrite (sync_identities _ _ Hsy) in Hq.
    unfold identity_view in Hq. destruct (mailboxes h !! id) as [box|] eqn:E; [|done]. simplify_eq.
    by exists id, (box, directory h !! id).
  - intros s' id [box od] c _ (Hb & Hod & ->). cbn in Hb, Hod. subst od. destruct (inv_boxes _ _ Hi _ _ Hb) as (Hwf & Hnext & Hby).
    pose proof (wf_next _ Hwf). pose proof (inv_limits _ _ Hi). apply load_identity_step; [done | lia | lia | done].
  - rewrite identity_steps. assert (forall id box, mailboxes h !! id = Some box -> exists v, (id, v) ∈ ys) as Hall.
    { intros id box Hb. destruct (Hcomp (to_vec id) (identity_cols (identity_row h id))) as (id' & v & Heq%arr_eq & Hin & _).
      - rewrite (sync_identities _ _ Hsy). unfold identity_view. by rewrite Hb.
      - subst id'. eauto. }
    assert (forall f : Mailbox * option DirectoryRow -> option Mailbox, (forall v, f v = Some (empty_box v.1)) ->
      foldl (fun m y => put y.1 (f y.2) m) ∅ ys = empty_box <$> mailboxes h) as Hbox.
    { intros f Hf. apply (foldl_put_map (fun _ => f)); [done | |].
      - intros id v Hin. destruct (Hsound _ _ Hin) as (c & _ & Hb & _). by rewrite lookup_fmap, Hb, Hf.
      - intros id b. rewrite lookup_fmap. destruct (mailboxes h !! id) as [box|] eqn:E; [|done]. eauto. }
    assert (foldl (fun m y => put y.1 y.2.2 m) ∅ ys = directory h) as Hdir.
    { apply (foldl_put_map (fun _ v => v.2)); [done | |].
      - intros id v Hin. by destruct (Hsound _ _ Hin) as (c & _ & _ & Hdv & _).
      - intros id d Hd'. destruct (inv_directory _ _ Hi _ _ Hd') as [[box Hb] _]. eauto. }
    by rewrite Hm, Hd, (Hbox (fun v => Some (empty_box v.1))), Hdir.
Qed.
(** ** Mailbox rows *)

Definition mail_step (s : HomeServer) (y : key * N * StoredEnvelope) : HomeServer :=
  s <| mailboxes ::= alter (fun box =>
         box <| idempotency ::= <[idempotency_token (row_inner y.2) := y.1.2]> |>
             <| rows ::= bt_insert y.1.2 y.2 |>) y.1.1 |>.

Lemma box_steps (ys : list (key * N * StoredEnvelope)) box :
  foldl (fun b y => b <| idempotency ::= <[idempotency_token (row_inner y.2) := y.1.2]> |>
                      <| rows ::= bt_insert y.1.2 y.2 |>) box ys =
  let l := map (fun y => (y.1.2, y.2)) ys in
  box <| idempotency ::= fun m => foldl (fun m kv => <[idempotency_token (row_inner kv.2) := kv.1]> m) m l |>
      <| rows ::= fun t => foldl (fun t kv => bt_insert kv.1 kv.2 t) t l |>.
Proof. revert box; induction ys as [|y ys IH]; intros box; cbn [foldl map]; [by destruct box|]. by rewrite IH. Qed.

Definition row_token (kv : N * StoredEnvelope) : key * N := (idempotency_token (row_inner kv.2), kv.1).

(** Tokens are unique among the rows of a mailbox. *)
Lemma row_tokens_once box (l : list (N * StoredEnvelope)) :
  box_wf box -> NoDup (map fst l) -> (forall kv, kv ∈ l -> In kv (rows box)) -> NoDup (map fst (map row_token l)).
Proof.
  intros Hwf. induction l as [|[k r] l IH]; cbn; [constructor|]. intros [Hk Hnd]%NoDup_cons Hin.
  constructor; [|apply IH; [done | set_solver]]. rewrite map_map. intros ([k' r'] & Heq & Hin')%list_elem_of_In%in_map_iff.
  cbn in Heq. apply Hk. apply list_elem_of_In in Hin'.
  destruct (wf_rows _ Hwf k r) as (_ & _ & H1); [apply Hin; set_solver|].
  destruct (wf_rows _ Hwf k' r') as (_ & _ & H2); [apply Hin; set_solver|].
  rewrite Heq in H2. assert (k' = k) as <- by congruence. apply list_elem_of_In, in_map_iff. exists (k', r').
  by rewrite <- list_elem_of_In.
Qed.

Lemma row_tokens_lookup box t q :
  box_wf box -> row_tokens (rows box) !! t = Some q <-> exists r, In (q, r) (rows box) /\ idempotency_token (row_inner r) = t.
Proof.
  intros Hwf. unfold row_tokens. rewrite <- elem_of_list_to_map.
  - rewrite list_elem_of_In, in_map_iff. split.
    + intros ([k r] & [= <- <-] & Hin). eauto.
    + intros (r & Hin & <-). by exists (q, r).
  - apply (row_tokens_once box); [done | apply bt_sorted_NoDup, Hwf | by intros kv ?%list_elem_of_In].
Qed.

Lemma foldl_row_tokens (l : list (N * StoredEnvelope)) box :
  box_wf box -> NoDup (map fst l) -> (forall k r, (k, r) ∈ l <-> In (k, r) (rows box)) ->
  foldl (fun m kv => <[idempotency_token (row_inner kv.2) := kv.1]> m) ∅ l = row_tokens (rows box).
Proof.
  intros Hwf Hnd Hl.
  assert (forall m, foldl (fun m kv => <[idempotency_token (row_inner kv.2) := kv.1]> m) m l
          = foldl (fun m kv => put kv.1 (Some kv.2) m) m (map row_token l)) as ->.
  { clear. induction l as [|kv l IH]; intros m; cbn [foldl map]; [done|]. apply IH. }
  apply (foldl_put_map (fun _ => Some)).
  - apply (row_tokens_once box); [done | done |]. by intros [k r] ?%Hl.
  - intros t q ([k r] & [= <- <-] & Hin)%list_elem_of_In%in_map_iff. apply list_elem_of_In, Hl in Hin.
    apply row_tokens_lookup; eauto.
  - intros t q (r & Hin & <-)%row_tokens_lookup; [|done]. apply Hl in Hin.
    exists q. apply list_elem_of_In, in_map_iff. exists (q, r). by rewrite <- list_elem_of_In.
Qed.

Lemma mail_steps s ys :
  foldl mail_step s ys = s <| mailboxes := foldl (fun m y => alter (fun box =>
     box <| idempotency ::= <[idempotency_token (row_inner y.2) := y.1.2]> |>
         <| rows ::= bt_insert y.1.2 y.2 |>) y.1.1 m) (mailboxes s) ys |>.
Proof. revert s; induction ys as [|y ys IH]; intros s; cbn [foldl]; [by destruct s|]. by rewrite IH. Qed.

Lemma NoDup_owner_seqs (ys : list (key * N * StoredEnvelope)) o :
  NoDup (map fst ys) -> NoDup (map fst (map (fun y => (y.1.2, y.2)) (filter (fun y => y.1.1 = o) ys))).
Proof.
  induction ys as [|[[o' q] r] ys IH]; cbn [map]; [constructor|]. intros [Hn Hnd]%NoDup_cons.
  rewrite filter_cons. case_decide as Ho; [|by apply IH]. cbn in Ho. subst o'. cbn [map fst snd].
  constructor; [|by apply IH]. intros Hin. apply Hn. rewrite map_map in Hin.
  apply list_elem_of_In, in_map_iff in Hin as ([[o' q'] r'] & Heq & Hin). cbn in Heq. subst q'.
  apply list_elem_of_In, list_elem_of_filter in Hin as [Ho Hin]. cbn in Ho. subst o'.
  apply list_elem_of_In, in_map_iff. exists (o, q, r'). by rewrite <- list_elem_of_In.
Qed.

Lemma restore_mail n h db s :
  home_inv n h -> n + 1 < 2 ^ 63 -> home_typed h -> home_synced db h -> keys_ok db ->
  mailboxes s = empty_box <$> mailboxes h ->
  fold_rows load_mailbox_row s (select_ordered (t_mailbox_rows db)) =
  Ok (s <| mailboxes := restored_box <$> mailboxes h |>).
Proof.
  intros Hi Hn Ht Hsy Hko Hm.
  assert (forall o q r, live_row h o q = Some r -> row_seq r = q /\ q < 2 ^ 63 /\ row_typed r) as Hlive.
  { intros o q r Hr. destruct (live_row_box _ _ _ _ Hr) as (box & Hb & Hin).
    destruct (inv_boxes _ _ Hi _ _ Hb) as (Hwf & Hnext & _). destruct (wf_rows _ Hwf _ _ Hin) as (Hq & Hlt & _).
    split_and!; [done | lia | by eapply ty_rows]. }
  destruct (load_entries mail_key (fun oq r c => live_row h oq.1 oq.2 = Some r /\ mailbox_cols r = Ok c)
    (t_mailbox_rows db) load_mailbox_row mail_step (select_ordered (t_mailbox_rows db)) s)
    as (ys & _ & [Hnd Hsound Hcomp] & ->).
  - apply merge_sort_Permutation.
  - intros [k z] c Hk. destruct (ok_mail _ Hko k z) as (o & q & -> & -> & Hq); [eauto|].
    pose proof (sync_mail _ _ Hsy o q Hq) as Hmv. unfold mail_key in Hmv. cbn in Hmv. rewrite Hk in Hmv.
    unfold mail_val in Hmv. cbn in Hmv. destruct (live_row h o q) as [r|] eqn:Er; [|done]. cbn in Hmv.
    exists (o, q), r. split; [done|]. split; [done|]. destruct (mailbox_cols r); cbn in Hmv; congruence.
  - intros s' [o q] r c _ [Hr Hc]. cbn in Hr. destruct (Hlive _ _ _ Hr) as (Hq & Hlt & Hty).
    apply (load_mailbox_cols o q); [done | done | unfold U64_MAX; lia | done].
  - rewrite mail_steps, Hm.
    match goal with |- Ok (_ <| mailboxes := ?m |>) = _ => enough (m = restored_box <$> mailboxes h) as ->; [done|] end.
    apply map_eq. intros o.
    rewrite foldl_alter_lookup, !lookup_fmap. destruct (mailboxes h !! o) as [box|] eqn:Hb; [|done]. cbn [fmap option_fmap option_map].
    f_equal. rewrite box_steps. cbv zeta. destruct (inv_boxes _ _ Hi _ _ Hb) as (Hwf & _).
    set (l := map _ (filter _ ys)).
    assert (forall k r, (k, r) ∈ l <-> In (k, r) (rows box)) as Hl.
    { intros k r. transitivity (live_row h o k = Some r).
      - unfold l. rewrite list_elem_of_In, in_map_iff. split.
        + intros ([[o' q] r'] & [= <- <-] & Hin%list_elem_of_In). apply list_elem_of_filter in Hin as [Ho Hin]. cbn in Ho. subst o'.
          by destruct (Hsound _ _ Hin) as (c & _ & Hr & _).
        + intros Hr. destruct (Hlive _ _ _ Hr) as (Hq & Hlt & Hty). destruct (ty_inner _ Hty) as [w Hw].
          destruct (decode_padded_stable _ _ Hw) as (w' & Hw' & _).
          assert (exists c, t_mailbox_rows db !! mail_key (o, k) = Some c) as [c Hc].
          { rewrite (sync_mail _ _ Hsy) by done. unfold mail_val, mailbox_cols. cbn. rewrite Hr. cbn. rewrite Hw'. cbn. eauto. }
          destruct (Hcomp _ _ Hc) as ([o' q] & r' & Heq & Hin & Hr' & _). cbn in Hr'. unfold mail_key in Heq. cbn in Heq.
          destruct (Hlive _ _ _ Hr') as (_ & Hlt' & _). injection Heq as Ho Hk. apply arr_eq in Ho. subst o'.
          apply as_i64_inj in Hk; [|done..]. subst q. assert (r' = r) as -> by congruence.
          exists (o, k, r). split; [done|]. apply list_elem_of_In, list_elem_of_filter. done.
      - unfold live_row. rewrite Hb. cbn. split; [apply bt_get_In | apply bt_In_get, Hwf]. }
    assert (NoDup (map fst l)) as Hndl by by apply NoDup_owner_seqs.
    unfold restored_box. rewrite <- (foldl_row_tokens l box) by done.
    rewrite <- (foldl_bt_insert l (rows box)) at 1 by (done || apply Hwf). done.
Qed.
(** ** Tokens, prekeys and memberships *)

Lemma token_steps (s : HomeServer) (ys : list (key * TokenKind)) :
  foldl (fun s y => s <| tokens ::= fun l => l ++ [y] |>) s ys = s <| tokens := tokens s ++ ys |>.
Proof.
  revert s; induction ys as [|y ys IH]; intros s; cbn [foldl]; [rewrite app_nil_r; by destruct s|].
  rewrite IH. cbn. by rewrite <- app_assoc.
Qed.

Lemma restore_tokens h db s :
  NoDup (map fst (tokens h)) -> home_typed h -> home_synced db h -> keys_ok db -> tokens s = [] ->
  exists l, l ≡ₚ tokens h
    /\ fold_rows load_token s (map_to_list (t_tokens db)) = Ok (s <| tokens := l |>).
Proof.
  intros Hndt Ht Hsy Hko Hs.
  assert (forall tok k, first_token tok (tokens h) = Some k <-> (tok, k) ∈ tokens h) as Hfirst.
  { intros tok k. rewrite first_token_find by done. split; [intros ?%find_token_In; by apply list_elem_of_In|].
    intros Hin. destruct (find_token tok (tokens h)) as [k'|] eqn:E.
    - apply find_token_In, list_elem_of_In in E. f_equal. by eapply (NoDup_fst_eq _ _ _ _ Hndt).
    - apply find_token_None in E. destruct E. apply list_elem_of_In, in_map_iff. exists (tok, k). by rewrite <- list_elem_of_In. }
  destruct (load_entries (to_vec (n := 32)) (fun tok k c => (tok, k) ∈ tokens h /\ c = token_cols k)
    (t_tokens db) load_token (fun s y => s <| tokens ::= fun l => l ++ [y] |>) (map_to_list (t_tokens db)) s)
    as (ys & _ & [Hnd Hsound Hcomp] & ->).
  - done.
  - intros q c Hq. destruct (ok_tokens _ Hko q) as [tok ->]; [eauto|]. rewrite (sync_tokens _ _ Hsy) in Hq.
    destruct (first_token tok (tokens h)) as [k|] eqn:E; cbn in Hq; [|done]. simplify_eq. apply Hfirst in E. eauto.
  - intros s' tok k c _ [Hin ->]. rewrite load_token_cols; [done|]. apply (ty_tokens _ Ht tok). by apply list_elem_of_In.
  - exists ys. rewrite token_steps, Hs. split; [|done].
    apply NoDup_Permutation; [by eapply NoDup_fmap_1 | by eapply NoDup_fmap_1 |]. intros [tok k]. split.
    + intros Hin. by destruct (Hsound _ _ Hin) as (c & _ & Hin' & _).
    + intros Hin. destruct (Hcomp (to_vec tok) (token_cols k)) as (tok' & k' & Heq%arr_eq & Hin' & Hin2 & _).
      * rewrite (sync_tokens _ _ Hsy). by rewrite (proj2 (Hfirst tok k)).
      * subst tok'. by rewrite (NoDup_fst_eq _ _ _ _ Hndt Hin Hin2).
Qed.

(** Rows appended to the list of their owner. *)
Definition append_to {V} (m : gmap key (list V)) (y : key * V) : gmap key (list V) :=
  <[y.1 := default [] (m !! y.1) ++ [y.2]]> m.

Lemma append_to_lookup {V} (ys : list (key * V)) m o :
  default [] (foldl append_to m ys !! o) = default [] (m !! o) ++ map snd (filter (fun y => y.1 = o) ys).
Proof.
  revert m; induction ys as [|[k v] ys IH]; intros m; [by rewrite app_nil_r|].
  cbn [foldl]. rewrite IH, filter_cons. unfold append_to at 1. cbn [fst snd]. case_decide as Ho; cbn in Ho.
  - subst k. rewrite lookup_insert_eq. cbn. by rewrite <- app_assoc.
  - by rewrite lookup_insert_ne.
Qed.

Lemma append_to_some {V} (ys : list (key * V)) m :
  (forall o, m !! o <> Some []) -> forall o, foldl append_to m ys !! o <> Some [].
Proof.
  revert m; induction ys as [|[k v] ys IH]; intros m Hm; cbn [foldl]; [done|]. apply IH. intros o. unfold append_to. cbn.
  intros [[_ Hn]|[_ Ho]]%lookup_insert_Some; [|by eapply Hm]. by destruct (default [] (m !! k)).
Qed.

Lemma prekey_steps (s : HomeServer) ys :
  foldl (fun s y => s <| prekeys ::= fun p => append_to p y |>) s ys = s <| prekeys := foldl append_to (prekeys s) ys |>.
Proof. revert s; induction ys as [|y ys IH]; intros s; cbn [foldl]; [by destruct s|]. by rewrite IH. Qed.

Lemma membership_steps (s : HomeServer) ys :
  foldl (fun s y => s <| memberships ::= fun p => append_to p y |>) s ys =
  s <| memberships := foldl append_to (memberships s) ys |>.
Proof. revert s; induction ys as [|y ys IH]; intros s; cbn [foldl]; [by destruct s|]. by rewrite IH. Qed.

Lemma restore_prekeys h db s :
  home_synced db h -> keys_ok db -> prekeys s = ∅ ->
  exists p, ((forall o, default [] (p !! o) = default [] (prekeys h !! o)) /\ forall o, p !! o <> Some [])
    /\ fold_rows load_prekey s (t_prekeys db) = Ok (s <| prekeys := p |>).
Proof.
  intros Hsy Hko Hs.
  destruct (fold_rows_decoded load_prekey (fun x y => x = (to_vec y.1, y.2))
    (fun s y => s <| prekeys ::= fun p => append_to p y |>) (t_prekeys db) s) as (ys & Hys & ->).
  - intros [k v] Hin. destruct (ok_prekeys _ Hko _ Hin) as [o Ho]. cbn in Ho. subst k. by exists (o, v).
  - intros x [o v] s' _ ->. unfold load_prekey. cbn [fst snd]. by rewrite key32_to_vec.
  - rewrite prekey_steps, Hs. eexists. split; [split; [|apply append_to_some; intros o; by rewrite lookup_empty]|done].
    intros o. rewrite append_to_lookup, lookup_empty. cbn.
    rewrite <- (sync_prekeys _ _ Hsy o). unfold prekey_rows. clear -Hys.
    induction Hys as [|x [k v] xs ys -> _ IH]; [done|]. rewrite filter_cons. cbn [fst snd List.filter map].
    case_decide as Ho; cbn in Ho.
    + subst. rewrite bool_decide_eq_true_2 by done. cbn. by rewrite IH.
    + rewrite bool_decide_eq_false_2; [done|]. by intros ?%arr_eq.
Qed.

Lemma restore_memberships h db s :
  (forall o, NoDup (default [] (memberships h !! o))) -> home_synced db h -> keys_ok db -> memberships s = ∅ ->
  exists m, (forall o, default [] (m !! o) ≡ₚ default [] (memberships h !! o))
    /\ fold_rows load_membership s (elements (t_memberships db)) = Ok (s <| memberships := m |>).
Proof.
  intros Hndm Hsy Hko Hs. set (enc := fun y : key * GroupId => (to_vec y.1, gid_vec y.2)).
  destruct (fold_rows_decoded load_membership (fun x y => x = enc y)
    (fun s y => s <| memberships ::= fun p => append_to p y |>) (elements (t_memberships db)) s) as (ys & Hys & ->).
  - intros x Hin%elem_of_elements. destruct (ok_memberships _ Hko _ Hin) as (o & gid & ->). by exists (o, gid).
  - intros x [o [g]] s' _ ->. unfold load_membership. cbn [fst snd enc]. rewrite key32_to_vec. cbn. by rewrite key32_gid.
  - rewrite membership_steps, Hs. eexists. split; [|done]. intros o. rewrite append_to_lookup, lookup_empty. cbn [default app].
    assert (elements (t_memberships db) = map enc ys) as Heq.
    { clear -Hys. induction Hys as [|x y xs ys -> _ IH]; cbn; [done|]. by f_equal. }
    assert (NoDup ys) as Hnd.
    { apply (NoDup_fmap_1 enc). change (NoDup (map enc ys)). rewrite <- Heq. apply NoDup_elements. }
    apply NoDup_Permutation; [| apply Hndm |].
    + apply NoDup_fmap_2_strong; [|by apply NoDup_filter].
      intros [o1 g1] [o2 g2] [H1 _]%list_elem_of_filter [H2 _]%list_elem_of_filter Hg. cbn in *. by subst.
    + intros gid. rewrite <- (sync_memberships _ _ Hsy o gid).
      rewrite <- elem_of_elements, Heq. rewrite !list_elem_of_In, !in_map_iff. split.
      * intros ([o' g] & <- & Hin). apply list_elem_of_In, list_elem_of_filter in Hin as [Ho Hin]. cbn in Ho. subst o'.
        exists (o, g). split; [done|]. by apply list_elem_of_In.
      * intros ([o' [g]] & Henc & Hin). unfold enc, gid_vec in Henc. injection Henc as H1 H2. apply arr_eq in H1, H2.
        cbn in H1, H2. subst. exists (o, gid). split; [done|]. apply list_elem_of_In, list_elem_of_filter.
        split; [done|]. apply list_elem_of_In. by destruct gid.
Qed.

(** ** Links *)

#[global] Instance to_vec_inj {k} : Inj (=) (=) (to_vec (n := k)).
Proof. intros a b. apply arr_eq. Qed.

Lemma restore_peers h db s :
  home_typed h -> home_synced db h -> keys_ok db -> peers s = ∅ ->
  fold_rows load_peer s (map_to_list (t_peers db)) = Ok (s <| peers := restored_peer <$> peers h |>).
Proof.
  intros Ht Hsy Hko Hs. assert (s = s <| peers := ∅ |>) as Heq by (destruct s; cbn in Hs; by subst). rewrite Heq at 1.
  apply (load_map (to_vec (n := 32)) _ (peers h) peer_cols restored_peer load_peer (fun p => s <| peers := p |>)).
  - apply (sync_peers _ _ Hsy).
  - apply (ok_peers _ Hko).
  - intros w id p Hp. rewrite load_peer_cols by by eapply ty_peers. done.
Qed.

Lemma restore_seen h db s :
  home_typed h -> home_synced db h -> keys_ok db -> seen_enc s = ∅ ->
  fold_rows load_seen s (map_to_list (t_hpke_seen db)) = Ok (s <| seen_enc := seen_enc h |>).
Proof.
  intros Ht Hsy Hko Hs. assert (s = s <| seen_enc := ∅ |>) as Heq by (destruct s; cbn in Hs; by subst). rewrite Heq at 1.
  rewrite <- (map_fmap_id (seen_enc h)).
  apply (load_map (to_vec (n := 32)) _ (seen_enc h) as_i64 id load_seen (fun p => s <| seen_enc := p |>)).
  - apply (sync_seen _ _ Hsy).
  - apply (ok_seen _ Hko).
  - intros w enc q Hq. unfold load_seen. cbn [fst snd]. rewrite key32_to_vec. cbn. by rewrite as_u64_i64 by by eapply ty_seen.
Qed.

Lemma restore_outbound h db s :
  home_typed h -> home_synced db h -> outbound s = [] ->
  fold_rows load_outbound s (t_outbound db) = Ok (s <| outbound := outbound h |>).
Proof.
  intros Ht Hsy Hs. rewrite (sync_outbound _ _ Hsy). pose proof (ty_outbound _ Ht) as Hty.
  assert (forall l s, (forall r, In r l -> outbound_typed r) ->
    fold_rows load_outbound s (map outbound_cols l) = Ok (s <| outbound := outbound s ++ l |>)) as Hgo.
  { clear. induction l as [|r l IH]; intros s Hl; cbn [map fold_rows]; [rewrite app_nil_r; by destruct s|].
    rewrite load_outbound_cols by (apply Hl; by left). cbn [mbind result_bind]. rewrite IH by (intros; apply Hl; by right).
    cbn. by rewrite <- app_assoc. }
  rewrite Hgo by done. by rewrite Hs.
Qed.

(** ** The home server *)

Lemma restore_home n h db s :
  home_inv n h -> n + 1 < 2 ^ 63 -> home_typed h -> home_tidy h -> home_synced db h -> keys_ok db ->
  mailboxes s = ∅ -> directory s = ∅ -> tokens s = [] -> prekeys s = ∅ -> memberships s = ∅ ->
  exists l p m, l ≡ₚ tokens h
    /\ ((forall o, default [] (p !! o) = default [] (prekeys h !! o)) /\ forall o, p !! o <> Some [])
    /\ (forall o, default [] (m !! o) ≡ₚ default [] (memberships h !! o))
    /\ load_home db s = Ok (s <| mailboxes := restored_box <$> mailboxes h |> <| directory := directory h |>
                              <| tokens := l |> <| prekeys := p |> <| memberships := m |>).
Proof.
  intros Hi Hn Ht [T1 T2 _] Hsy Hko Hm Hd Htk Hp Hmb. unfold load_home.
  rewrite (restore_identities n h) by done. cbn [mbind result_bind].
  rewrite (restore_mail n h) by done. cbn [mbind result_bind].
  match goal with |- context [fold_rows load_token ?s0] => destruct (restore_tokens h db s0) as (l & Hl & ->) end; [done..|].
  cbn [mbind result_bind].
  match goal with |- context [fold_rows load_prekey ?s0] => destruct (restore_prekeys h db s0) as (p & Hp' & ->) end; [done..|].
  cbn [mbind result_bind].
  match goal with |- context [fold_rows load_membership ?s0] => destruct (restore_memberships h db s0) as (m & Hm' & ->) end;
    [intros o; apply T2 | done.. |].
  exists l, p, m. done.
Qed.

Lemma restore_links h db s :
  home_typed h -> home_synced db h -> keys_ok db -> peers s = ∅ -> outbound s = [] -> seen_enc s = ∅ ->
  load_links db s = Ok (s <| peers := restored_peer <$> peers h |> <| outbound := outbound h |>
                          <| seen_enc := seen_enc h |>).
Proof.
  intros Ht Hsy Hko Hp Ho Hs. unfold load_links.
  rewrite (restore_peers h) by done. cbn [mbind result_bind]. rewrite (restore_outbound h) by done. cbn [mbind result_bind].
  by rewrite (restore_seen h).
Qed.
End Restore.
