(* ===== verification/PgRestoreGroups.v ===== *)
(** * What a restart brings back: the group host

    The group tables rebuild every group: credentials, pending joins and files
    as they were, the stream in order, and the invites, with rows of invites
    that expired before they were presented possibly left over. *)

From stdpp Require Import sorting.
From S2P Require Export PgRestore PgGroups.

(** ** The order of the stream table *)

Lemma bytes_compare_eq a b : bytes_compare a b = Eq <-> a = b.
Proof.
  revert b; induction a as [|x a IH]; intros [|y b]; cbn; try done.
  destruct (N.compare_spec (Byte.to_N x) (Byte.to_N y)) as [Hx|Hx|Hx].
  - apply to_N_inj in Hx. subst y. rewrite IH. naive_solver.
  - split; [done|]. intros [= -> ->]. lia.
  - split; [done|]. intros [= -> ->]. lia.
Qed.

Lemma bytes_compare_antisym a b : bytes_compare b a = CompOpp (bytes_compare a b).
Proof.
  revert b; induction a as [|x a IH]; intros [|y b]; cbn; try done.
  rewrite (N.compare_antisym (Byte.to_N x) (Byte.to_N y)). destruct (Byte.to_N x ?= Byte.to_N y); cbn; auto.
Qed.

Lemma bytes_compare_trans a b c : bytes_compare a b = Lt -> bytes_compare b c = Lt -> bytes_compare a c = Lt.
Proof.
  revert b c; induction a as [|x a IH]; intros [|y b] [|z c]; cbn; try done.
  destruct (N.compare_spec (Byte.to_N x) (Byte.to_N y)) as [Hx|Hx|Hx],
    (N.compare_spec (Byte.to_N y) (Byte.to_N z)) as [Hy|Hy|Hy]; try done.
  - rewrite Hx, Hy, N.compare_refl. apply IH.
  - intros _ _. by rewrite (proj2 (N.compare_lt_iff _ _)) by lia.
  - intros _ _. by rewrite (proj2 (N.compare_lt_iff _ _)) by lia.
  - intros _ _. by rewrite (proj2 (N.compare_lt_iff _ _)) by lia.
Qed.

#[global] Instance row_le_trans {V} : Transitive (@row_le V).
Proof.
  intros [[a i] v] [[b j] w] [[c k] u]. unfold row_le. cbn.
  destruct (bytes_compare a b) eqn:Eab, (bytes_compare b c) eqn:Ebc; try done.
  - apply bytes_compare_eq in Eab, Ebc. subst. rewrite (proj2 (bytes_compare_eq c c)) by done. lia.
  - apply bytes_compare_eq in Eab. subst. by rewrite Ebc.
  - apply bytes_compare_eq in Ebc. subst. by rewrite Eab.
  - by rewrite (bytes_compare_trans _ _ _ Eab Ebc).
Qed.

#[global] Instance row_le_total {V} : Total (@row_le V).
Proof.
  intros [[a i] v] [[b j] w]. unfold row_le. cbn. rewrite (bytes_compare_antisym a b).
  destruct (bytes_compare a b); cbn; [lia | by left | by right].
Qed.

#[global] Instance gid_vec_inj : Inj (=) (=) gid_vec.
Proof. intros [a] [b] Heq%arr_eq. cbn in Heq. by subst. Qed.

(** ** Maps inside the groups *)

Definition group_enc (k : GroupId * key) : bytes * bytes := (gid_vec k.1, to_vec k.2).

#[global] Instance group_enc_inj : Inj (=) (=) group_enc.
Proof. intros [g a] [g' b] [= Hg%(inj gid_vec) Ha%arr_eq]. cbn in *. by subst. Qed.

Section Nested.
Context {W C : Type} (t : gmap (bytes * bytes) C) (rel : GroupId * key -> W -> C -> Prop).
Context (body : GroupHost -> bytes * bytes * C -> presult GroupHost).
Context (ins : key -> W -> GroupState -> GroupState) (setf : gmap key W -> GroupState -> GroupState).

(** The entries of one group. *)
Definition group_part (ys : list (GroupId * key * W)) (gid : GroupId) : list (key * W) :=
  map (fun y => (y.1.2, y.2)) (filter (fun y => y.1.1 = gid) ys).

Lemma group_part_once ys gid : NoDup (map fst ys) -> NoDup (map fst (group_part ys gid)).
Proof.
  intros Hnd. unfold group_part. rewrite map_map. apply NoDup_fmap_2_strong; [|apply NoDup_filter; by eapply NoDup_fmap_1].
  intros [[g1 c1] v1] [[g2 c2] v2] [H1 I1]%list_elem_of_filter [H2 I2]%list_elem_of_filter Hc. cbn in *. subst.
  by rewrite (NoDup_fst_eq _ _ _ _ Hnd I1 I2).
Qed.

Lemma group_part_In ys gid c v : (c, v) ∈ group_part ys gid <-> (gid, c, v) ∈ ys.
Proof.
  unfold group_part. rewrite list_elem_of_In, in_map_iff. split.
  - intros ([[g c'] v'] & [= <- <-] & Hin%list_elem_of_In). by apply list_elem_of_filter in Hin as [<- Hin].
  - intros Hin. exists (gid, c, v). split; [done|]. by apply list_elem_of_In, list_elem_of_filter.
Qed.

Lemma group_steps (s : GroupHost) (ys : list (GroupId * key * W)) :
  foldl (fun s y => s <| groups ::= alter (ins y.1.2 y.2) y.1.1 |>) s ys =
  s <| groups := foldl (fun m y => alter (ins y.1.2 y.2) y.1.1 m) (groups s) ys |>.
Proof. revert s; induction ys as [|y ys IH]; intros s; cbn [foldl]; [by destruct s|]. by rewrite IH. Qed.

(** The loop over a table of group maps fills the map of every group with the
    rows of the group. *)
Lemma load_nested s :
  (forall q c, t !! q = Some c -> exists k v, q = group_enc k /\ rel k v c) ->
  (forall s k v c, t !! group_enc k = Some c -> rel k v c ->
     body s (group_enc k, c) = Ok (s <| groups ::= alter (ins k.2 v) k.1 |>)) ->
  (forall c v w g, ins c v (setf w g) = setf (<[c := v]> w) g) ->
  (forall gid g, groups s !! gid = Some g -> setf ∅ g = g) ->
  exists M : GroupId -> gmap key W,
    (forall gid c v, M gid !! c = Some v -> exists cs, t !! group_enc (gid, c) = Some cs /\ rel (gid, c) v cs)
    /\ (forall gid c cs, t !! group_enc (gid, c) = Some cs -> exists v, M gid !! c = Some v /\ rel (gid, c) v cs)
    /\ fold_rows body s (map_to_list t)
       = Ok (s <| groups := map_imap (fun gid g => Some (setf (M gid) g)) (groups s) |>).
Proof.
  intros Hdec Hbody Hins Hempty.
  destruct (load_entries group_enc rel t body (fun s y => s <| groups ::= alter (ins y.1.2 y.2) y.1.1 |>) (map_to_list t) s)
    as (ys & _ & [Hnd Hsound Hcomp] & ->); [done | exact Hdec | exact Hbody |].
  exists (fun gid => list_to_map (group_part ys gid)).
  assert (forall gid c v, (list_to_map (group_part ys gid) : gmap key W) !! c = Some v <-> (gid, c, v) ∈ ys) as Hlook.
  { intros gid c v. rewrite <- elem_of_list_to_map by by apply group_part_once. apply group_part_In. }
  split_and!.
  - intros gid c v Hv%Hlook. by apply Hsound.
  - intros gid c cs Hc. destruct (Hcomp _ _ Hc) as ([g' c'] & v & Heq%(inj group_enc) & Hin & Hr). simplify_eq.
    exists v. split; [by apply Hlook | done].
  - rewrite group_steps. match goal with |- Ok (_ <| groups := ?m |>) = Ok (_ <| groups := ?m' |>) => enough (m = m') as ->; [done|] end.
    apply map_eq. intros gid. rewrite foldl_alter_lookup, map_lookup_imap.
    destruct (groups s !! gid) as [g|] eqn:E; [|done]. cbn. f_equal. rewrite <- (Hempty _ _ E) at 1.
    pose proof (foldl_insert_list id (group_part ys gid) (group_part_once _ gid Hnd)) as Hfold.
    rewrite (map_ext _ id), map_id in Hfold by by intros []. rewrite <- Hfold. unfold group_part. clear -Hins.
    generalize (∅ : gmap key W). induction (filter _ ys) as [|y l IH]; intros w; cbn [foldl map]; [done|]. by rewrite Hins, IH.
Qed.
End Nested.

(** ** The restored state *)

Record group_restored (t : N) (g g' : GroupState) : Prop := {
  re_next_seq : g_next_seq g' = g_next_seq g;
  re_bytes : g_bytes g' = g_bytes g;
  re_creator : g_creator g' = g_creator g;
  re_creds : g_creds g' = g_creds g;
  re_pending : g_pending g' = g_pending g;
  re_stream : g_stream g' = g_stream g;
  re_invites : forall n i, g_invites g !! n = Some i -> g_invites g' !! n = Some i;
  re_leftover : forall n i, g_invites g' !! n = Some i -> g_invites g !! n = Some i \/ si_expires_at i <= t
}.

Record host_restored (gs gs' : GroupHost) : Prop := {
  re_gh_now : gh_now gs' = gh_now host_new;
  re_group : forall gid g, groups gs !! gid = Some g ->
      exists g', groups gs' !! gid = Some g' /\ group_restored (gh_now gs) g g';
  re_no_group : forall gid, groups gs !! gid = None -> groups gs' !! gid = None;
  re_files : files gs' = files gs;
  re_gdirty : gdirty gs' = clean_gdirty
}.

Definition empty_group (g : GroupState) : GroupState :=
  mk_group (g_next_seq g) ∅ ∅ ∅ (g_bytes g) [] (g_creator g).

Section Tables.
Implicit Types (gs s : GroupHost) (db : Db).

Lemma restore_groups gs db s :
  (forall gid g, groups gs !! gid = Some g -> g_next_seq g <= U64_MAX /\ g_bytes g <= U64_MAX) ->
  groups_synced db gs -> keys_ok db -> groups s = ∅ ->
  fold_rows load_group s (map_to_list (t_groups db)) = Ok (s <| groups := empty_group <$> groups gs |>).
Proof.
  intros Hty Hsy Hko Hs. assert (s = s <| groups := ∅ |>) as Heq by (destruct s; cbn in Hs; by subst). rewrite Heq at 1.
  apply (load_map gid_vec _ (groups gs) group_cols empty_group load_group (fun m => s <| groups := m |>)).
  - apply (sync_groups _ _ Hsy).
  - apply (ok_groups _ Hko).
  - intros w gid g Hg. destruct (Hty _ _ Hg). unfold load_group. cbn [fst snd group_cols c_creator c_next_seq c_bytes].
    rewrite key32_gid. cbn [mbind result_bind]. rewrite opt_key_to_vec. cbn [mbind result_bind].
    rewrite !as_u64_i64 by done. by destruct gid.
Qed.

Lemma restore_creds gs db s :
  groups_synced db gs -> keys_ok db ->
  (forall gid g, groups s !! gid = Some g -> g_creds g = ∅) ->
  exists M, (forall gid cid, M gid !! cid = live_cred gs gid cid)
    /\ fold_rows load_cred s (map_to_list (t_group_creds db))
       = Ok (s <| groups := map_imap (fun gid g => Some (g <| g_creds := M gid |>)) (groups s) |>).
Proof.
  intros Hsy Hko Hs.
  destruct (load_nested (t_group_creds db) (fun k v c => live_cred gs k.1 k.2 = Some v /\ c = cred_cols v) load_cred
    (fun c v g => g <| g_creds ::= <[c := v]> |>) (fun m g => g <| g_creds := m |>) s) as (M & H1 & H2 & Hf).
  - intros [k c] cs Hc. destruct (ok_creds _ Hko k c) as (gid & cid & -> & ->); [eauto|].
    rewrite (sync_creds _ _ Hsy) in Hc. destruct (live_cred gs gid cid) as [v|] eqn:E; cbn in Hc; [|done]. simplify_eq.
    by exists (gid, cid), v.
  - intros s' [gid cid] v c _ [_ ->]. unfold load_cred, group_enc. cbn [fst snd].
    rewrite key32_gid. cbn [mbind result_bind]. rewrite key32_to_vec. cbn [mbind result_bind cred_cols c_secret c_signing_pk c_fanout_capability c_fanout_hpke c_live].
    rewrite key32_to_vec. cbn [mbind result_bind]. rewrite opt_key_to_vec. cbn [mbind result_bind].
    destruct gid, v as [sec lv spk [[cap hp]|]]; cbn [cred_fanout fmap option_fmap option_map compose target_capability home_hpke_public].
    + pose proof (opt_key_to_vec (Some cap)) as E1. pose proof (opt_key_to_vec (Some hp)) as E2. cbn in E1, E2. cbn. by rewrite E1, E2.
    + done.
  - done.
  - intros gid g Hg. specialize (Hs _ _ Hg). by destruct g; cbn in *; subst.
  - exists M. split; [|done]. intros gid cid. apply option_eq. intros v. split.
    + intros Hv. by destruct (H1 _ _ _ Hv) as (cs & _ & Hl & _).
    + intros Hl. destruct (H2 gid cid (cred_cols v)) as (v' & Hv' & Hl' & _).
      * unfold group_enc. cbn. by rewrite (sync_creds _ _ Hsy), Hl.
      * cbn in Hl'. congruence.
Qed.

Lemma alter_or_skip {V} (m : gmap GroupId V) k (f : V -> V) :
  match m !! k with Some g => <[k := f g]> m | None => m end = alter f k m.
Proof.
  apply map_eq. intros i. destruct (decide (i = k)) as [->|Hne].
  - rewrite lookup_alter_eq. destruct (m !! k) eqn:E; [by rewrite lookup_insert_eq | by rewrite E].
  - rewrite lookup_alter_ne by done. destruct (m !! k); [by rewrite lookup_insert_ne | done].
Qed.

Lemma load_into s k (f : GroupState -> GroupState) :
  match groups s !! k with Some g => Ok (s <| groups ::= <[k := f g]> |>) | None => Ok s end
  = (Ok (s <| groups ::= alter f k |>) : presult GroupHost).
Proof.
  transitivity (Ok (s <| groups := alter f k (groups s) |>) : presult GroupHost); [|done].
  rewrite <- alter_or_skip. destruct (groups s !! k) eqn:E; [done | by destruct s].
Qed.

Lemma restore_invites gs db s :
  host_typed gs -> groups_synced db gs -> keys_ok db ->
  (forall gid g, groups s !! gid = Some g -> g_invites g = ∅) ->
  exists M, (forall gid n i, live_invite gs gid n = Some i -> M gid !! n = Some i)
    /\ (forall gid n i, M gid !! n = Some i -> live_invite gs gid n = Some i \/ si_expires_at i <= gh_now gs)
    /\ (forall gid n, t_group_invites db !! (gid_vec gid, to_vec n) = invite_cols <$> M gid !! n)
    /\ fold_rows load_invite s (map_to_list (t_group_invites db))
       = Ok (s <| groups := map_imap (fun gid g => Some (g <| g_invites := M gid |>)) (groups s) |>).
Proof.
  intros Hty Hsy Hko Hs.
  destruct (load_nested (t_group_invites db) (fun k v c =>
      (forall i, live_invite gs k.1 k.2 = Some i -> v = i) /\ c = invite_cols v
      /\ (live_invite gs k.1 k.2 = Some v \/ si_expires_at v <= gh_now gs)) load_invite
    (fun c v g => g <| g_invites ::= <[c := v]> |>) (fun m g => g <| g_invites := m |>) s) as (M & H1 & H2 & Hf).
  - intros [k c] cs Hc. destruct (ok_invites _ Hko k c) as (gid & n & -> & ->); [eauto|].
    pose proof (sync_invites _ _ Hsy gid n) as Hi. destruct (live_invite gs gid n) as [v|] eqn:E.
    + exists (gid, n), v. split; [done|]. cbn. rewrite E. split_and!; [naive_solver | congruence | by left].
    + destruct Hi as [Hn|(i & Hi & He & _)]; [congruence|]. exists (gid, n), i. split; [done|]. cbn. rewrite E.
      split_and!; [naive_solver | congruence | by right].
  - intros s' [gid n] v c _ (_ & -> & Hlive). cbn in Hlive.
    assert (si_expires_at v <= U64_MAX) as Hexp.
    { pose proof (ty_gh_now _ Hty). destruct Hlive as [Hl|]; [|lia]. unfold live_invite in Hl.
      destruct (groups gs !! gid) as [g|] eqn:Eg; [|done]. exact (ty_g_invites _ (ty_groups _ Hty _ _ Eg) _ _ Hl). }
    unfold load_invite, group_enc. cbn [fst snd]. rewrite key32_gid. cbn [mbind result_bind]. rewrite key32_to_vec.
    cbn [mbind result_bind invite_cols c_invite_binding c_invite_salt c_invite_expires_at]. rewrite !opt_key_to_vec. cbn [mbind result_bind].
    rewrite as_u64_i64 by done. destruct gid as [gid], v. cbn. rewrite <- load_into. by destruct (groups s' !! _).
  - done.
  - intros gid g Hg. specialize (Hs _ _ Hg). by destruct g; cbn in *; subst.
  - exists M. split_and!; [| | | done].
    + intros gid n i Hl. pose proof (sync_invites _ _ Hsy gid n) as Hi. rewrite Hl in Hi.
      destruct (H2 gid n _ Hi) as (v & Hv & Hr & _). cbn in Hr. by rewrite <- (Hr _ Hl).
    + intros gid n i Hm. by destruct (H1 _ _ _ Hm) as (cs & _ & _ & _ & Hr).
    + intros gid n. destruct (M gid !! n) as [i|] eqn:Hm; cbn.
      * by destruct (H1 _ _ _ Hm) as (cs & Hcs & _ & -> & _).
      * destruct (t_group_invites db !! _) as [cs|] eqn:Hcs; [|done]. destruct (H2 gid n cs Hcs) as (v & Hv & _). congruence.
Qed.

Lemma restore_pending gs db s :
  host_typed gs -> groups_synced db gs -> keys_ok db ->
  (forall gid g, groups s !! gid = Some g -> g_pending g = ∅) ->
  exists M, (forall gid pid, M gid !! pid = live_pending gs gid pid)
    /\ fold_rows load_pending s (map_to_list (t_group_pending db))
       = Ok (s <| groups := map_imap (fun gid g => Some (g <| g_pending := M gid |>)) (groups s) |>).
Proof.
  intros Hty Hsy Hko Hs.
  destruct (load_nested (t_group_pending db) (fun k v c => live_pending gs k.1 k.2 = Some v /\ c = pending_cols v) load_pending
    (fun c v g => g <| g_pending ::= <[c := v]> |>) (fun m g => g <| g_pending := m |>) s) as (M & H1 & H2 & Hf).
  - intros [k c] cs Hc. destruct (ok_pending _ Hko k c) as (gid & pid & -> & ->); [eauto|].
    rewrite (sync_pending _ _ Hsy) in Hc. destruct (live_pending gs gid pid) as [v|] eqn:E; cbn in Hc; [|done]. simplify_eq.
    by exists (gid, pid), v.
  - intros s' [gid pid] v c _ [Hl ->]. cbn in Hl.
    assert (pending_expires_at v <= U64_MAX) as Hexp.
    { unfold live_pending in Hl. destruct (groups gs !! gid) as [g|] eqn:Eg; [|done].
      exact (ty_g_pending _ (ty_groups _ Hty _ _ Eg) _ _ Hl). }
    unfold load_pending, group_enc. cbn [fst snd]. rewrite key32_gid. cbn [mbind result_bind]. rewrite key32_to_vec.
    cbn [mbind result_bind pending_cols c_pending_cred_id c_pending_secret c_pending_binding c_pending_salt c_pending_expires_at].
    rewrite !key32_to_vec, !opt_key_to_vec. cbn [mbind result_bind].
    rewrite as_u64_i64 by done. destruct gid as [gid], v as [[] ? ? ?]. cbn. rewrite <- load_into. by destruct (groups s' !! _).
  - done.
  - intros gid g Hg. specialize (Hs _ _ Hg). by destruct g; cbn in *; subst.
  - exists M. split; [|done]. intros gid pid. apply option_eq. intros v. split.
    + intros Hv. by destruct (H1 _ _ _ Hv) as (cs & _ & Hl & _).
    + intros Hl. destruct (H2 gid pid (pending_cols v)) as (v' & Hv' & Hl' & _).
      * unfold group_enc. cbn. by rewrite (sync_pending _ _ Hsy), Hl.
      * cbn in Hl'. congruence.
Qed.

Lemma restore_files gs db s :
  host_typed gs -> groups_synced db gs -> keys_ok db -> files s = ∅ ->
  fold_rows load_file s (map_to_list (t_group_files db)) = Ok (s <| files := files gs |>).
Proof.
  intros Hty Hsy Hko Hs. assert (s = s <| files := ∅ |>) as Heq by (destruct s; cbn in Hs; by subst). rewrite Heq at 1.
  rewrite <- (map_fmap_id (files gs)).
  apply (load_map (to_vec (n := 32)) _ (files gs) file_cols id load_file (fun m => s <| files := m |>)).
  - apply (sync_files _ _ Hsy).
  - apply (ok_files _ Hko).
  - intros w tok f Hf. destruct (ty_files _ Hty _ _ Hf) as [Hsz Hex]. unfold load_file. cbn [fst snd]. rewrite key32_to_vec.
    cbn [mbind result_bind file_cols c_file_group c_owner_cred c_size_bytes c_file_expires_at c_file_bytes]. rewrite !key32_to_vec.
    cbn [mbind result_bind]. rewrite as_u64_i32, as_u64_i64 by done. by destruct f as [[] ? ? ? ?].
Qed.
End Tables.

(** ** The stream *)

Lemma bt_ext_In {V} (t1 t2 : btree V) :
  bt_sorted t1 -> bt_sorted t2 -> (forall k v, In (k, v) t1 <-> In (k, v) t2) -> t1 = t2.
Proof.
  intros H1 H2 Hin. apply bt_ext; [done..|]. intros k. apply option_eq. intros v.
  split; intros Hv%bt_get_In%Hin; by apply bt_In_get.
Qed.

Section Stream.
Implicit Types (gs s : GroupHost) (db : Db).

Definition stream_enc (k : GroupId * N) : bytes * Z := (gid_vec k.1, as_i64 k.2).

(** The rows of one group, in the order they were read. *)
Definition stream_part {V} (ys : list (GroupId * N * V)) (gid : GroupId) : btree V :=
  map (fun y => (y.1.2, y.2)) (filter (fun y => y.1.1 = gid) ys).

Lemma stream_part_In {V} (ys : list (GroupId * N * V)) gid q v : In (q, v) (stream_part ys gid) <-> (gid, q, v) ∈ ys.
Proof.
  unfold stream_part. rewrite in_map_iff. split.
  - intros ([[g c'] v'] & [= <- <-] & Hin%list_elem_of_In). by apply list_elem_of_filter in Hin as [<- Hin].
  - intros Hin. exists (gid, q, v). split; [done|]. by apply list_elem_of_In, list_elem_of_filter.
Qed.

(** [ORDER BY group_id, seq] reads every group in the order of its sequence. *)
Lemma stream_part_sorted {V C} (rel : GroupId * N -> V -> C -> Prop) xs ys gid :
  StronglySorted row_le xs -> Forall2 (row_stands stream_enc rel) xs ys -> NoDup (map fst ys) ->
  (forall y, y ∈ ys -> y.1.2 < 2 ^ 63) -> bt_sorted (stream_part ys gid).
Proof.
  intros Hsort Hys. induction Hys as [|x [[g q] v] xs ys [Hx _] Hall IH]; [done|]. intros [Hn Hnd]%NoDup_cons Hlt.
  apply StronglySorted_inv in Hsort as [Hsort Hle]. unfold stream_part. rewrite filter_cons.
  assert (bt_sorted (stream_part ys gid)) as Hrest by (apply IH; [done..|set_solver]).
  case_decide as Hg; [|exact Hrest]. cbn in Hg. subst g. cbn. split; [|exact Hrest].
  apply List.Forall_forall. intros [q' v'] Hin. apply (stream_part_In ys) in Hin. cbn.
  assert (q <> q') as Hne.
  { intros <-. apply Hn, list_elem_of_In, in_map_iff. exists (gid, q, v'). by rewrite <- list_elem_of_In. }
  pose proof (Hlt (gid, q, v) ltac:(set_solver)) as Hq. pose proof (Hlt (gid, q', v') ltac:(set_solver)) as Hq'. cbn in Hq, Hq'.
  apply list_elem_of_lookup in Hin as [i Hi]. destruct (Forall2_lookup_r _ _ _ _ _ Hall Hi) as (x' & Hx' & [Hk _]).
  rewrite List.Forall_forall in Hle. specialize (Hle x' ltac:(apply list_elem_of_In; by eapply list_elem_of_lookup_2)).
  unfold row_le in Hle. rewrite Hx, Hk in Hle. unfold stream_enc in Hle. cbn in Hle.
  rewrite (proj2 (bytes_compare_eq _ _)) in Hle by done. rewrite !as_i64_small in Hle by done. lia.
Qed.

Lemma numbered_sorted (l : list StreamRow) k :
  (forall i row, l !! i = Some row -> sr_seq row = N.of_nat i + k) ->
  bt_sorted (map (fun r => (sr_seq r, r)) l).
Proof.
  revert k; induction l as [|r l IH]; intros k Hl; cbn; [done|]. split.
  - apply List.Forall_forall. intros kv (r' & <- & Hin)%in_map_iff. apply list_elem_of_In, list_elem_of_lookup in Hin as [i Hi].
    pose proof (Hl 0%nat _ eq_refl). pose proof (Hl (S i) _ Hi). cbn. lia.
  - apply (IH (k + 1)). intros i row Hi. pose proof (Hl (S i) _ Hi). lia.
Qed.

Lemma live_stream_In n gs gid g q r :
  streams_wf n gs -> groups gs !! gid = Some g ->
  live_stream_row gs gid q = Some r <-> r ∈ g_stream g /\ sr_seq r = q.
Proof.
  intros Hw Hg. unfold live_stream_row. rewrite Hg. cbn. split.
  - intros [Hin Hq]%List.find_some. split; [by apply list_elem_of_In | by apply N.eqb_eq].
  - intros [Hin Hq]. destruct (List.find _ _) as [r'|] eqn:E.
    + apply List.find_some in E as [Hin' Hq']. apply N.eqb_eq in Hq'. apply list_elem_of_In in Hin'.
      apply list_elem_of_lookup in Hin as [i Hi]. apply list_elem_of_lookup in Hin' as [j Hj].
      pose proof (gw_numbered _ _ (Hw _ _ Hg) _ _ Hi). pose proof (gw_numbered _ _ (Hw _ _ Hg) _ _ Hj).
      assert (i = j) as <- by lia. congruence.
    + apply list_elem_of_In, (List.find_none _ _ E) in Hin. apply N.eqb_neq in Hin. done.
Qed.

Lemma live_stream_known n gs gid q r :
  streams_wf n gs -> live_stream_row gs gid q = Some r ->
  exists g, groups gs !! gid = Some g /\ r ∈ g_stream g /\ sr_seq r = q /\ q <= n.
Proof.
  intros Hw Hr. destruct (groups gs !! gid) as [g|] eqn:Hg; [|unfold live_stream_row in Hr; by rewrite Hg in Hr].
  destruct (proj1 (live_stream_In n gs gid g q r Hw Hg) Hr) as [Hin Hq]. exists g. split_and!; [done..|].
  apply list_elem_of_lookup in Hin as [i Hi]. pose proof (gw_numbered _ _ (Hw _ _ Hg) _ _ Hi).
  pose proof (gw_count _ _ (Hw _ _ Hg)). apply lookup_lt_Some in Hi. unfold lenN in *. lia.
Qed.

Lemma stream_steps s (ys : list (GroupId * N * StreamRow)) :
  foldl (fun s y => s <| groups ::= alter (fun g => g <| g_stream ::= fun l => l ++ [y.2] |>) y.1.1 |>) s ys =
  s <| groups := foldl (fun m y => alter (fun g => g <| g_stream ::= fun l => l ++ [y.2] |>) y.1.1 m) (groups s) ys |>.
Proof. revert s; induction ys as [|y ys IH]; intros s; cbn [foldl]; [by destruct s|]. by rewrite IH. Qed.

Lemma restore_stream n gs db s :
  streams_wf n gs -> n < 2 ^ 63 -> host_typed gs -> groups_synced db gs -> keys_ok db ->
  (forall gid g, groups s !! gid = Some g -> g_stream g = [] /\ is_Some (groups gs !! gid)) ->
  fold_rows load_stream_row s (select_ordered (t_group_stream db))
  = Ok (s <| groups := map_imap (fun gid g =>
        Some (g <| g_stream := default [] (g_stream <$> groups gs !! gid) |>)) (groups s) |>).
Proof.
  intros Hw Hn Hty Hsy Hko Hs.
  destruct (load_entries stream_enc (fun k r c => live_stream_row gs k.1 k.2 = Some r /\ c = stream_cols r)
    (t_group_stream db) load_stream_row
    (fun s y => s <| groups ::= alter (fun g => g <| g_stream ::= fun l => l ++ [y.2] |>) y.1.1 |>)
    (select_ordered (t_group_stream db)) s) as (ys & Hys & [Hnd Hsound Hcomp] & ->).
  - apply merge_sort_Permutation.
  - intros [k z] c Hk. destruct (ok_stream _ Hko k z) as (gid & q & -> & -> & Hq); [eauto|].
    rewrite (sync_stream _ _ Hsy) in Hk by done. destruct (live_stream_row gs gid q) as [r|] eqn:E; cbn in Hk; [|done].
    simplify_eq. by exists (gid, q), r.
  - intros s' [gid q] r c _ [Hr ->]. cbn in Hr. destruct (live_stream_known n gs _ _ _ Hw Hr) as (g & Hg & Hin & Hq & Hle).
    unfold load_stream_row, stream_enc. cbn [fst snd]. rewrite key32_gid. cbn [mbind result_bind stream_cols c_type c_body c_stream_received_at].
    rewrite as_u8_to_N, type_from_u8_byte. cbn [map_err mbind result_bind].
    rewrite !as_u64_i64; [by destruct gid, r; cbn in *; subst | exact (ty_g_stream _ (ty_groups _ Hty _ _ Hg) _ Hin) | unfold U64_MAX; lia].
  - rewrite stream_steps. match goal with |- Ok (_ <| groups := ?m |>) = Ok (_ <| groups := ?m' |>) => enough (m = m') as ->; [done|] end.
    apply map_eq. intros gid. rewrite foldl_alter_lookup, map_lookup_imap. destruct (groups s !! gid) as [g0|] eqn:E; [|done].
    cbn. f_equal. destruct (Hs _ _ E) as [Hempty [g Hg]]. rewrite Hg. cbn.
    assert (stream_part ys gid = map (fun r => (sr_seq r, r)) (g_stream g)) as Hpart.
    { apply bt_ext_In.
      - eapply stream_part_sorted; [apply (StronglySorted_merge_sort row_le) | exact Hys | done |].
        intros [[g' q] r] Hin. destruct (Hsound _ _ Hin) as (c & _ & Hr & _). cbn in *.
        destruct (live_stream_known n gs _ _ _ Hw Hr) as (? & _ & _ & _ & ?). lia.
      - apply (numbered_sorted _ 1), (gw_numbered _ _ (Hw _ _ Hg)).
      - intros q r. rewrite stream_part_In, in_map_iff. transitivity (live_stream_row gs gid q = Some r).
        + split; [intros Hin; by destruct (Hsound _ _ Hin) as (c & _ & Hr & _)|]. intros Hr.
          destruct (live_stream_known n gs _ _ _ Hw Hr) as (? & _ & _ & _ & Hle).
          destruct (Hcomp (stream_enc (gid, q)) (stream_cols r)) as ([g' q'] & r' & Heq & Hin & Hr' & _).
          { unfold stream_enc. cbn. rewrite (sync_stream _ _ Hsy) by lia. by rewrite Hr. }
          cbn in Hr'. destruct (live_stream_known n gs _ _ _ Hw Hr') as (? & _ & _ & _ & Hle').
          injection Heq as Hgid%(inj gid_vec) Hq%as_i64_inj; [|lia..]. subst. by assert (r = r') as <- by congruence.
        + rewrite (live_stream_In n gs gid g) by done. rewrite list_elem_of_In. naive_solver. }
    assert (forall l (g0 : GroupState), foldl (fun g (y : GroupId * N * StreamRow) => g <| g_stream ::= fun l => l ++ [y.2] |>) g0 l
      = g0 <| g_stream := g_stream g0 ++ map snd l |>) as ->.
    { clear. induction l as [|y l IH]; intros g0; cbn [foldl map]; [rewrite app_nil_r; by destruct g0|].
      rewrite IH. cbn. by rewrite <- app_assoc. }
    rewrite Hempty. cbn. enough (map snd (filter (fun y => y.1.1 = gid) ys) = g_stream g) as ->; [done|].
    transitivity (map snd (stream_part ys gid)); [unfold stream_part; by rewrite map_map|].
    rewrite Hpart, map_map. apply map_id.
Qed.
End Stream.

(** ** The whole database *)

Lemma restore_host n gs db :
  streams_wf n gs -> n + 1 < 2 ^ 63 -> host_typed gs -> groups_synced db gs -> keys_ok db ->
  exists gs', load_host db host_new = Ok gs' /\ host_restored gs gs'
    /\ forall gid n, t_group_invites db !! (gid_vec gid, to_vec n) = invite_cols <$> live_invite gs' gid n.
Proof.
  intros Hw Hn Hty Hsy Hko. unfold load_host. rewrite (restore_groups gs) by (try done; intros gid g Hg;
    destruct (Hw _ _ Hg) as [_ -> Hc _ Hcap _]; unfold U64_MAX, STREAM_MAX_BYTES in *; lia). cbn [mbind result_bind].
  match goal with |- context [fold_rows load_cred ?s0] => destruct (restore_creds gs db s0) as (MC & HC & ->) end; [done..| |].
  { intros gid g. cbn. rewrite lookup_fmap. destruct (groups gs !! gid); [by intros [= <-] | done]. }
  cbn [mbind result_bind].
  match goal with |- context [fold_rows load_invite ?s0] => destruct (restore_invites gs db s0) as (MI & HI1 & HI2 & HI3 & ->) end; [done..| |].
  { intros gid g. cbn. rewrite map_lookup_imap, lookup_fmap. destruct (groups gs !! gid); [by intros [= <-] | done]. }
  cbn [mbind result_bind].
  match goal with |- context [fold_rows load_pending ?s0] => destruct (restore_pending gs db s0) as (MP & HP & ->) end; [done..| |].
  { intros gid g. cbn. rewrite !map_lookup_imap, lookup_fmap. destruct (groups gs !! gid); [by intros [= <-] | done]. }
  cbn [mbind result_bind]. rewrite (restore_stream n gs); [|done | lia | done.. |].
  2: { intros gid g. cbn. rewrite !map_lookup_imap, lookup_fmap. destruct (groups gs !! gid) eqn:E; [|done]. intros [= <-]. eauto. }
  cbn [mbind result_bind]. rewrite (restore_files gs) by done. eexists. split; [done|].
  split; [split; cbn [groups files gdirty upd groups_field files_field]; try done|].
  - intros gid g Hg. eexists. split; [by cbn; rewrite !map_lookup_imap, lookup_fmap, Hg|]. cbn.
    split; cbn; rewrite ?Hg; try done.
    + apply map_eq. intros cid. rewrite HC. unfold live_cred. by rewrite Hg.
    + apply map_eq. intros pid. rewrite HP. unfold live_pending. by rewrite Hg.
    + intros k i Hi. apply HI1. unfold live_invite. by rewrite Hg.
    + intros k i [Hi|Hi]%HI2; [left | by right]. unfold live_invite in Hi. by rewrite Hg in Hi.
  - intros gid Hg. cbn. by rewrite !map_lookup_imap, lookup_fmap, Hg.
  - intros gid k. unfold live_invite. cbn. rewrite !map_lookup_imap, lookup_fmap. destruct (groups gs !! gid) as [g|] eqn:Hg; cbn; [apply HI3|].
    pose proof (sync_invites _ _ Hsy gid k) as Hi. unfold live_invite in Hi. rewrite Hg in Hi. by destruct Hi as [|(i & _ & _ & [? ?])].
Qed.

Section Load.
Context `{Crypto}.

(** With the keys of the identity file, the tables of a settled server load. *)
Lemma restore_all n h gs db :
  home_inv n h -> streams_wf n gs -> n + 1 < 2 ^ 63 -> home_typed h -> host_typed gs -> home_tidy h ->
  home_synced db h -> groups_synced db gs -> keys_ok db ->
  exists h' gs', load_keys (Some (hpke h, sign_key h)) db = Ok (Some (h', gs'))
    /\ home_restored h h' /\ host_restored gs gs'
    /\ forall gid k, t_group_invites db !! (gid_vec gid, to_vec k) = invite_cols <$> live_invite gs' gid k.
Proof.
  intros Hi Hw Hn Ht Hty Htidy Hsy Hgsy Hko. unfold load_keys. rewrite (sync_server _ _ Hsy).
  unfold load_secrets, server_identity_row. cbn [sid_hpke_public sid_host sid_s2s_port].
  rewrite bool_decide_eq_true_2 by done. cbn [mbind result_bind].
  rewrite as_u16_i32 by apply (ty_port _ Ht). unfold from_identity. rewrite (ty_bundle _ Ht). cbn [mbind result_bind map_err].
  match goal with |- context [load_home db ?s0] => destruct (restore_home n h db s0) as (l & p & m & Hl & [Hp Hps] & Hm & ->) end; [done..|].
  cbn [mbind result_bind]. destruct (restore_host n gs db) as (gs' & -> & Hgs & Hinv); [done..|]. cbn [mbind result_bind].
  rewrite (restore_links h) by done. cbn [mbind result_bind]. do 2 eexists. split; [done|]. split; [by split | done].
Qed.
End Load.
