(* ===== verification/HomeTyped.v ===== *)
(** * Types are preserved: the home server

    Every operation keeps the state within the ranges of its Rust types, given
    arguments that are: times and counters of 64 bits, envelopes and bindings
    that were decoded from the wire. *)

From S2P Require Export PgJournal PgRestore.
From S2P Require Export PgRestoreGroups.

(** ** Arithmetic stays in range *)

Lemma u64_add_le a b : u64_add a b <= U64_MAX.
Proof. unfold u64_add, U64_MAX. pose proof (N.mod_lt (a + b) (2 ^ 64)). lia. Qed.

Lemma saturating_add_le a b : saturating_add a b <= U64_MAX.
Proof. unfold saturating_add. lia. Qed.

Lemma envelope_expiry_le nw ttl age : envelope_expiry nw ttl age <= U64_MAX.
Proof.
  unfold envelope_expiry. pose proof (saturating_add_le nw age). destruct (ttl_secs ttl); [|done].
  pose proof (saturating_add_le nw n). lia.
Qed.

Lemma rows_remove_row box sq kv : In kv (rows (remove_row box sq)) -> In kv (rows box).
Proof.
  unfold remove_row. destruct (bt_get sq (rows box)); [|done]. cbn. by intros [? _]%bt_remove_In.
Qed.

Lemma rows_ack_row box sq kv : In kv (rows (ack_row box sq)) -> In kv (rows box).
Proof. unfold ack_row. destruct (bt_get sq (rows box)); [|done]. cbn. by intros [? _]%bt_remove_In. Qed.

Lemma rows_fold (f : Mailbox -> N -> Mailbox) ks box kv :
  (forall b k, In kv (rows (f b k)) -> In kv (rows b)) -> In kv (rows (foldl f box ks)) -> In kv (rows box).
Proof. intros Hf. revert box; induction ks as [|k ks IH]; intros box; cbn; [done|]. eauto. Qed.

Lemma rows_gc_box nw l box kv : In kv (rows (gc_box nw l box).1) -> In kv (rows box).
Proof. rewrite gc_box_fold. apply rows_fold. intros b k. apply rows_remove_row. Qed.

Create HintDb typed.
#[export] Hint Resolve u64_add_le saturating_add_le envelope_expiry_le : typed.

Section Typed.
Context `{Crypto}.
Implicit Types (s : HomeServer).

(** ** Updates of one field *)

Lemma typed_frame s s' :
  now s' = now s -> hpke s' = hpke s -> sign_key s' = sign_key s -> bundle s' = bundle s ->
  mailboxes s' = mailboxes s -> directory s' = directory s -> tokens s' = tokens s ->
  peers s' = peers s -> outbound s' = outbound s -> seen_enc s' = seen_enc s -> home_typed s -> home_typed s'.
Proof.
  intros E1 E2 E3 E4 E5 E6 E7 E8 E9 E10 [T1 T2 T3 T4 T5 T6 T7 T8 T9 T10].
  split; rewrite ?E1, ?E2, ?E3, ?E4, ?E5, ?E6, ?E7, ?E8, ?E9, ?E10; assumption.
Qed.

Lemma typed_dirty s f : home_typed s -> home_typed (s <| dirty ::= f |>).
Proof. by apply typed_frame. Qed.

Lemma typed_prekeys s f : home_typed s -> home_typed (s <| prekeys ::= f |>).
Proof. by apply typed_frame. Qed.

Lemma typed_nonces s f : home_typed s -> home_typed (s <| owner_nonces ::= f |>).
Proof. by apply typed_frame. Qed.

Lemma typed_memberships s f : home_typed s -> home_typed (s <| memberships ::= f |>).
Proof. by apply typed_frame. Qed.

Lemma typed_sweep s f : home_typed s -> home_typed (s <| last_token_sweep ::= f |>).
Proof. by apply typed_frame. Qed.

Lemma typed_tokens s f :
  (forall t k, In (t, k) (f (tokens s)) -> token_typed k) -> home_typed s -> home_typed (s <| tokens ::= f |>).
Proof. intros Hf [T1 T2 T3 T4 T5 T6 T7 T8 T9 T10]. by split. Qed.

Lemma typed_peers s f :
  (forall id p, f (peers s) !! id = Some p -> peer_typed p) -> home_typed s -> home_typed (s <| peers ::= f |>).
Proof. intros Hf [T1 T2 T3 T4 T5 T6 T7 T8 T9 T10]. by split. Qed.

Lemma typed_outbound s f :
  (forall r, In r (f (outbound s)) -> outbound_typed r) -> home_typed s -> home_typed (s <| outbound ::= f |>).
Proof. intros Hf [T1 T2 T3 T4 T5 T6 T7 T8 T9 T10]. by split. Qed.

Lemma typed_seen s f :
  (forall enc q, f (seen_enc s) !! enc = Some q -> q <= U64_MAX) -> home_typed s -> home_typed (s <| seen_enc ::= f |>).
Proof. intros Hf [T1 T2 T3 T4 T5 T6 T7 T8 T9 T10]. by split. Qed.

(** A mailbox is replaced: its rows are typed, its owner is the same. *)
Lemma typed_box s id box box' :
  mailboxes s !! id = Some box -> owner_pk box' = owner_pk box ->
  (forall k r, In (k, r) (rows box') -> row_typed r) -> home_typed s ->
  home_typed (s <| mailboxes ::= <[id := box']> |>).
Proof.
  intros Hb Ho Hr [T1 T2 T3 T4 T5 T6 T7 T8 T9 T10]. split; try done.
  - intros i b k r. cbn. intros [[<- <-]|[_ Hi]]%lookup_insert_Some; eauto.
  - intros i d b Hd. cbn in *. intros [[<- <-]|[_ Hi]]%lookup_insert_Some; [rewrite Ho|]; eauto.
Qed.

Lemma typed_box_shrink s id box box' :
  mailboxes s !! id = Some box -> owner_pk box' = owner_pk box ->
  (forall kv, In kv (rows box') -> In kv (rows box)) -> home_typed s ->
  home_typed (s <| mailboxes ::= <[id := box']> |>).
Proof. intros Hb Ho Hr Ht. apply (typed_box s id box); try done. intros k r Hin. eapply ty_rows; [done | exact Hb | by apply Hr]. Qed.

(** A directory entry is written. *)
Lemma typed_directory s id d' :
  dir_typed d' -> (forall box, mailboxes s !! id = Some box -> dir_identity_public_key d' = owner_pk box) ->
  home_typed s -> home_typed (s <| directory ::= <[id := d']> |>).
Proof.
  intros Hd Ho [T1 T2 T3 T4 T5 T6 T7 T8 T9 T10]. split; try done.
  - intros i d. cbn. intros [[<- <-]|[_ Hi]]%lookup_insert_Some; eauto.
  - intros i d b. cbn. intros [[<- <-]|[_ Hi]]%lookup_insert_Some; eauto.
Qed.

(** ** Registration *)

Lemma set_token_typed t k' l :
  token_typed k' -> (forall t k, In (t, k) l -> token_typed k) ->
  forall t0 k, In (t0, k) (set_token t k' l) -> token_typed k.
Proof. intros Hk Hl t0 k [Hin|[_ ->]]%set_token_In; eauto. Qed.

Lemma find_token_typed s t k : home_typed s -> find_token t (tokens s) = Some k -> token_typed k.
Proof. intros Ht Hf%find_token_In. by eapply ty_tokens. Qed.

Lemma register_typed n s id pk :
  home_inv n s -> home_typed s -> post (register id pk) s (fun r s1 => home_typed s1
    /\ match r with Ok _ => mailboxes s !! id = None /\ mailboxes s1 = <[id := mk_mailbox pk 1 [] ∅ 0 false]> (mailboxes s)
       | Err _ => s1 = s end).
Proof.
  intros Hi Ht. unfold register, journal. wp. destruct (mailboxes s !! id) as [b|] eqn:E; wp; [done|].
  split; [|done]. apply typed_dirty. destruct Ht as [T1 T2 T3 T4 T5 T6 T7 T8 T9 T10]. split; try done.
  - intros i b k r. cbn. intros [[<- <-]|[_ Hi']]%lookup_insert_Some; eauto. done.
  - intros i d b Hd. cbn in *. intros [[<- <-]|[_ Hi']]%lookup_insert_Some; [|eauto].
    destruct (inv_directory _ _ Hi _ _ Hd) as [[b Hb] _]. congruence.
Qed.

Lemma register_share_token_typed s owner tok ttl :
  home_typed s -> post (register_share_token owner tok ttl) s (fun _ => home_typed).
Proof.
  intros Ht. unfold register_share_token, journal. wp. apply require_mailbox_boxes. intros [[]|e]; wp; [|done].
  case_cond; wp; [done|]. apply typed_dirty, typed_tokens; [|done].
  intros t k [Hin|[[= <- <-]|[]]]%in_app_or; [by eapply ty_tokens | apply u64_add_le].
Qed.

Lemma register_from_card_typed n s card :
  binding_fits (card_binding card) -> home_inv n s -> home_typed s ->
  post (register_from_card card) s (fun _ => home_typed).
Proof.
  intros Hf Hi Ht. unfold register_from_card, wire. wp. destruct (map_err Wire _) as [[]|e]; wp; [|done].
  case_cond; wp; [done|]. eapply post_conseq; [by apply (register_typed n)|]. intros [[]|e] s1 [Ht1 Hr]; wp; [|done].
  destruct Hr as [Hn Hm]. eapply post_conseq; [apply register_share_token_typed|].
  - apply typed_directory; [|intros box|done].
    + split; cbn; [done | apply Hf | done].
    + rewrite Hm. by rewrite lookup_insert_eq; intros [= <-].
  - by intros [[]|e] s2 Ht2; wp.
Qed.

(** ** Disabling and rebinding *)

Lemma disable_mailbox_typed s owner : home_typed s -> post (disable_mailbox owner) s (fun _ => home_typed).
Proof.
  intros Ht. unfold disable_mailbox, journal. wp. apply typed_dirty, typed_tokens; [|apply typed_prekeys].
  - intros t k [Hin _]%filter_In. by eapply ty_tokens.
  - destruct (mailboxes s !! owner) as [box|] eqn:E.
    + set (f := fun b : Mailbox => (foldl remove_row b (bt_keys (rows b))) <| disabled := true |>).
      apply (typed_frame (s <| mailboxes ::= <[owner := f box]> |>)); try reflexivity.
      * cbn. exact (alter_as_insert f owner (mailboxes s) box E).
      * apply (typed_box_shrink s owner box); [done | | | done].
        -- cbn. apply (owner_fold remove_row). intros. apply owner_remove_row.
        -- intros kv. cbn. apply rows_fold. intros. by eapply rows_remove_row.
    + revert Ht. apply typed_frame; try reflexivity. cbn. apply map_eq. intros i.
      destruct (decide (i = owner)) as [->|Hne]; [by rewrite lookup_alter_eq, E | by rewrite lookup_alter_ne].
Qed.

Lemma observe_binding_typed s id b :
  binding_fits b -> home_typed s -> post (observe_binding id b) s (fun _ => home_typed).
Proof.
  intros Hf Ht. unfold observe_binding, deny, journal. wp.
  destruct (known_key s id) as [pk|] eqn:Hk; cbn [ok_or]; [|done].
  destruct (vk_from_bytes pk) as [vk|]; cbn [ok_or]; [|done].
  wp. case_cond; wp; [done|]. destruct (map_err _ _) as [[]|e]; wp; [|done].
  case_cond; wp; [done|].
  assert (forall f, home_typed ((s <| directory ::= fun d =>
        match d !! id with
        | Some row => <[id := row <| dir_binding := b |> <| binding_seq := b_seq b |>]> d
        | None => <[id := mk_directory pk (arr_repeat 32 x00) b (b_seq b) None]> d
        end |>) <| dirty ::= f |>)) as Hd.
  { intros f. apply typed_dirty. unfold known_key in Hk. destruct (directory s !! id) as [row|] eqn:E.
    - apply (typed_frame (s <| directory ::= <[id := row <| dir_binding := b |> <| binding_seq := b_seq b |>]> |>));
        try reflexivity; [cbn; by rewrite E |]. destruct (ty_directory _ Ht _ _ E) as [D1 D2 D3]. apply typed_directory; [|intros box Hb|done].
      + split; cbn; [done | apply Hf | done].
      + exact (ty_owner _ Ht id row box E Hb).
    - apply (typed_frame (s <| directory ::= <[id := mk_directory pk (arr_repeat 32 x00) b (b_seq b) None]> |>));
        try reflexivity; [cbn; by rewrite E|]. apply typed_directory; [|intros box Hb|done].
      + split; cbn; [done | apply Hf | done].
      + cbn. rewrite Hb in Hk. cbn in Hk. congruence. }
  case_cond; [by apply disable_mailbox_typed | done].
Qed.

Lemma ingest_revocation_typed s stmt :
  coarse_timestamp stmt <= U64_MAX -> home_typed s -> post (ingest_revocation stmt) s (fun _ => home_typed).
Proof.
  intros Hc Ht. unfold ingest_revocation, deny, journal. wp.
  destruct (directory s !! _) as [row|] eqn:Hrow; cbn [ok_or]; [|done].
  destruct (map_err _ _) as [pk|e]; wp; [|done]. destruct (map_err _ _) as [[]|e]; wp; [|done].
  case_cond; wp; [done|]. eapply post_conseq; [apply disable_mailbox_typed|].
  - apply typed_dirty. set (f := fun row : DirectoryRow => row <| dir_revocation := Some stmt |>).
    apply (typed_frame (s <| directory ::= <[revoked_identity_id stmt := f row]> |>)); try reflexivity.
    + cbn. exact (alter_as_insert f _ (directory s) row Hrow).
    + destruct (ty_directory _ Ht _ _ Hrow) as [D1 D2 D3]. apply typed_directory; [|intros box Hb|done].
      * split; cbn; [done | done | by intros st [= <-]].
      * exact (ty_owner _ Ht _ row box Hrow Hb).
  - intros [[]|e] s1 Ht1; wp; [|done]. case_cond; wp; [apply typed_dirty|]; by apply typed_memberships.
Qed.
(** ** Tokens and prekeys *)

Lemma drop_tokens_exact_typed dead : preserves home_typed (drop_tokens_exact dead).
Proof.
  intros s Ht. unfold drop_tokens_exact, journal. wp. case_bool_decide; wp; [done|]. apply typed_dirty, typed_tokens; [|done].
  intros t k [Hin _]%filter_In. by eapply ty_tokens.
Qed.

Lemma mint_contact_typed s owner rnd : home_typed s -> post (mint_contact_capability owner rnd) s (fun _ => home_typed).
Proof.
  intros Ht. unfold mint_contact_capability, sweep_dead_tokens_for, journal. wp.
  apply require_mailbox_boxes. intros [[]|e]; wp; [|done].
  eapply post_conseq; [by apply drop_tokens_exact_typed|]. intros [c|e] s1 Ht1; wp; [|done].
  apply typed_dirty, typed_tokens; [|done]. intros t k [Hin|[[= <- <-]|[]]]%in_app_or; [by eapply ty_tokens|].
  split_and!; [done | apply (ty_now _ Ht1) | done].
Qed.

Lemma rotate_contact_typed s owner old confirm rnd :
  home_typed s -> post (rotate_contact owner old confirm rnd) s (fun _ => home_typed).
Proof.
  intros Ht. unfold rotate_contact, journal. wp. eapply post_conseq; [by apply mint_contact_typed|].
  intros [new|e] s1 Ht1; wp; [|done].
  destruct (find_token old (tokens s1)) as [[|mb gr ws wc]|] eqn:E; wp; try done. case_cond; wp; [|done].
  apply typed_dirty, typed_tokens; [|done]. apply set_token_typed; [|intros; by eapply ty_tokens].
  destruct (find_token_typed _ _ _ Ht1 E) as (_ & ? & ?). split_and!; [|done..]. intros g [= <-]. apply u64_add_le.
Qed.

Lemma fetch_prekey_typed s tok : home_typed s -> post (fetch_prekey tok) s (fun _ => home_typed).
Proof.
  intros Ht. unfold fetch_prekey, journal. wp.
  destruct (find_token tok (tokens s)) as [[mb ex bu re|]|] eqn:E; wp; try done.
  case_cond; wp; [done|]. destruct re; wp; [done|]. destruct (prekeys s !! mb) as [[]|]; wp; try done.
  apply typed_dirty, typed_tokens; [|by apply typed_prekeys]. apply set_token_typed; [|intros; by eapply ty_tokens].
  exact (find_token_typed _ _ _ Ht E).
Qed.

(** ** Appending *)

Lemma authorize_append_typed s tok : home_typed s -> post (authorize_append tok) s (fun _ => home_typed).
Proof.
  intros Ht. unfold authorize_append, journal. wp.
  destruct (find_token tok (tokens s)) as [[mb ex bu re|mb gr ws wc]|] eqn:E; wp; [|case_cond; wp; [done|]|done].
  - case_cond; wp; [|done]. case_cond; by wp.
  - destruct (find_token_typed _ _ _ Ht E) as (Hg & Hws & Hwc). pose proof (ty_now _ Ht) as Hnow.
    assert (forall w c, w <= U64_MAX -> c < 2 ^ 31 -> home_typed (s <| tokens ::= set_token tok (Contact mb gr w c) |>)) as Hset.
    { intros w c Hw Hcc. apply typed_tokens; [|done]. apply set_token_typed; [done|]. intros; by eapply ty_tokens. }
    assert (forall w c k, w <= U64_MAX -> c < 2 ^ 31 -> token_typed k ->
      home_typed (s <| tokens ::= set_token tok (Contact mb gr w c) |> <| tokens ::= set_token tok k |>)) as Hset2.
    { intros w c k Hw Hcc Hk. apply typed_tokens; [|by apply Hset]. apply set_token_typed; [done|].
      intros t0 k0. apply (ty_tokens _ (Hset w c Hw Hcc)). }
    destruct (60 <=? saturating_sub (now s) ws); wp.
    + case_cond; wp; [by apply Hset|]. case_cond; wp; apply typed_dirty, Hset2; done.
    + case_cond; wp; [by apply Hset|]. apply N.leb_gt in G0. unfold RATE_PER_MIN in G0.
      case_cond; wp; apply typed_dirty, Hset2; try done; split_and!; (done || lia).
Qed.

Lemma burn_if_share_typed s tok : home_typed s -> post (burn_if_share tok) s (fun _ => home_typed).
Proof.
  intros Ht. unfold burn_if_share, journal. wp. destruct (find_token tok (tokens s)) as [[mb ex [] re|]|] eqn:E; wp; try done.
  apply typed_dirty, typed_tokens; [|done]. apply set_token_typed; [|intros; by eapply ty_tokens].
  exact (find_token_typed _ _ _ Ht E).
Qed.

Lemma gc_mailbox_typed s owner : home_typed s -> post (gc_mailbox owner) s (fun _ => home_typed).
Proof.
  intros Ht. unfold gc_mailbox, journal. wp. destruct (mailboxes s !! owner) as [box|] eqn:E; wp; [|done].
  pose proof (owner_gc_box (now s) (limits s) box) as Ho. pose proof (rows_gc_box (now s) (limits s) box) as Hr.
  destruct (gc_box _ _ _) as [box' d]. cbn in Ho, Hr. wp.
  assert (home_typed (s <| mailboxes ::= <[owner := box']> |>)) by by apply (typed_box_shrink s owner box).
  case_cond; wp; [by apply typed_dirty | done].
Qed.

(** The sequence number an append returns is one of the mailbox's. *)
Lemma append_inner_typed n s inner :
  wire_inner inner -> home_inv n s -> n + 1 < U64_MAX -> home_typed s ->
  post (append_inner inner) s (fun r s1 => home_typed s1 /\ forall sq, r = Ok sq -> sq <= U64_MAX).
Proof.
  intros Hw Hi Hn Ht. unfold append_inner, wire, journal. wp.
  eapply post_conseq; [apply post_and; [by apply authorize_append_typed | apply authorize_append_spec]|].
  intros r s1 (Ht1 & (T & D & Hs1 & _) & Hr). assert (mailboxes s1 = mailboxes s) as Hm by (by rewrite Hs1).
  destruct r as [mb|e]; wp; [|done]. destruct (mailboxes s1 !! mb) as [box|] eqn:Hbox; wp; [|done].
  pose proof Hbox as Hbox'. rewrite Hm in Hbox'. destruct (inv_boxes _ _ Hi _ _ Hbox') as (Hwf & Hnext & _).
  destruct (idempotency box !! idempotency_token inner) as [sq|] eqn:Hid; wp.
  { split; [done|]. intros ? [= <-]. apply (wf_idem _ Hwf) in Hid. lia. }
  destruct (encode_padded inner) as [b|e] eqn:Henc; cbn [map_err]; wp; [|done].
  match goal with |- post _ ?x _ => assert (home_typed x) as Ht2 end.
  { apply typed_dirty, (typed_box s1 mb box); [done | done | | done]. intros k r. cbn.
    intros [[-> ->]|Hin]%bt_insert_In; [|by eapply ty_rows]. split; cbn; [apply (ty_now _ Ht1) | apply envelope_expiry_le | done]. }
  eapply post_conseq; [by apply burn_if_share_typed|]. intros [[]|e] s3 Ht3; wp; [|done].
  eapply post_conseq; [by apply gc_mailbox_typed|]. intros [[]|e] s4 Ht4; wp; [|done].
  split; [done|]. intros ? [= <-]. lia.
Qed.

Lemma ingest_typed n s o :
  home_inv n s -> n + 1 < U64_MAX -> home_typed s -> post (ingest o) s (fun _ => home_typed).
Proof.
  intros Hi Hn Ht. unfold ingest, wire, journal. wp. destruct (map_err _ _) as [enc|e]; wp; [|done].
  destruct (seen_enc s !! enc); wp; [done|].
  destruct (Hpke.open_outer (hpke s) o) as [inner|e] eqn:Ho; cbn [map_err]; wp; [|done].
  assert (wire_inner inner) as Hw.
  { unfold Hpke.open_outer in Ho. case_cond; [done|]. apply result_bind_ok in Ho as (pt & _ & Hd). by exists pt. }
  eapply post_conseq; [by apply (append_inner_typed n)|]. intros [sq|e] s1 [Ht1 Hsq]; wp; [|done].
  specialize (Hsq _ eq_refl).
  assert (forall s2, home_typed s2 -> home_typed (s2 <| seen_enc ::= <[enc := sq]> |>)) as Hput.
  { intros s2 Ht2. apply typed_seen; [|done]. intros e q [[_ <-]|[_ Hq]]%lookup_insert_Some; [done | by eapply ty_seen]. }
  assert (home_typed (s1 <| seen_enc := ∅ |>)) as Hempty by (by apply typed_seen).
  case_cond; wp; case_cond; wp; repeat apply typed_dirty; apply Hput; try done; by apply typed_dirty.
Qed.

(** ** Owner requests *)

Lemma check_owner_typed s owner auth nw ex : home_typed s -> post (check_owner owner auth nw ex) s (fun _ => home_typed).
Proof.
  intros Ht. eapply post_conseq; [apply check_owner_spec|]. intros [[]|e] s1 Hs.
  - destruct Hs as (? & ? & _ & _ & _ & _ & _ & _ & ->). revert Ht. by apply typed_frame.
  - destruct Hs as [_ [-> | ->]]; [done|]. revert Ht. by apply typed_frame.
Qed.

Lemma fetch_typed s owner auth nw : home_typed s -> post (fetch owner auth nw) s (fun _ => home_typed).
Proof.
  intros Ht. unfold fetch. wp. eapply post_conseq; [by apply check_owner_typed|]. intros [[]|e] s1 Ht1; wp; [|done].
  case_cond; wp; [done|]. eapply post_conseq; [by apply gc_mailbox_typed|]. intros [[]|e] s2 Ht2; wp; [|done].
  by destruct (mailboxes s2 !! owner); wp.
Qed.

Lemma ack_typed s owner auth nw : home_typed s -> post (ack owner auth nw) s (fun _ => home_typed).
Proof.
  intros Ht. unfold ack, journal. wp. eapply post_conseq; [by apply check_owner_typed|]. intros [[]|e] s1 Ht1; wp; [|done].
  destruct (mailboxes s1 !! owner) as [box|] eqn:E; wp; [|done]. case_bool_decide; wp; [done|].
  apply typed_dirty, (typed_box_shrink s1 owner box); [done | | | done].
  - apply owner_fold, owner_ack_row.
  - intros kv. apply rows_fold. intros b k. apply rows_ack_row.
Qed.

Lemma enqueue_typed n s o :
  lenN (hpke_ciphertext o) <= U32_MAX -> home_inv n s -> n + 1 < U64_MAX -> home_typed s ->
  post (enqueue o) s (fun _ => home_typed).
Proof.
  intros Ho Hi Hn Ht. unfold enqueue, mark_outbound_dirty, journal. wp. case_bool_decide; wp.
  - eapply post_conseq; [by apply (ingest_typed n)|]. by intros [sq|e] s1 Ht1; wp.
  - apply typed_dirty, typed_outbound; [|done]. intros r [Hin|[<-|[]]]%in_app_or; [by apply (ty_outbound _ Ht)|].
    pose proof (ty_now _ Ht). by split_and!.
Qed.

Lemma enqueue_from_owner_typed n s owner auth nw o :
  lenN (hpke_ciphertext o) <= U32_MAX -> home_inv n s -> n + 1 < U64_MAX -> home_typed s ->
  post (enqueue_from_owner owner auth nw o) s (fun _ => home_typed).
Proof.
  intros Ho Hi Hn Ht. unfold enqueue_from_owner. wp.
  eapply post_conseq; [apply post_and; [by apply check_owner_typed | by apply (check_owner_preserves n)]|].
  intros [[]|e] s1 [Ht1 Hi1]; wp; [|done]. apply require_mailbox_boxes. intros [[]|e]; wp; [|done].
  by apply (enqueue_typed n).
Qed.

Lemma defer_outbound_typed s t : t <= U64_MAX -> home_typed s -> post (defer_outbound t) s (fun _ => home_typed).
Proof.
  intros Hle Ht. unfold defer_outbound, mark_outbound_dirty, journal. wp.
  assert (home_typed (s <| outbound ::= map (fun r => r <| next_attempt := t |>) |>)) as Ht1.
  { apply typed_outbound; [|done]. intros r (r0 & <- & Hin)%in_map_iff.
    destruct (ty_outbound _ Ht _ Hin) as (? & ? & ? & ?). by split_and!. }
  case_cond; wp; [by apply typed_dirty | done].
Qed.

Lemma advertised_fields k sk h port b :
  advertised k sk h port = Ok b -> bundle_host b = h /\ s2s_port b = port.
Proof.
  unfold advertised, bundle_sign. repeat (case_cond; [done|]). by intros (sg & _ & <-%Ok_inj)%result_bind_ok.
Qed.

Lemma rebind_host_typed s h port : port <= U16_MAX -> home_typed s -> post (rebind_host h port) s (fun _ => home_typed).
Proof.
  intros Hp Ht. unfold rebind_host, wire, journal. wp.
  destruct (advertised (hpke s) (sign_key s) h port) as [b|e] eqn:E; cbn [map_err]; wp; [|done].
  apply typed_dirty. destruct (advertised_fields _ _ _ _ _ E) as [Hh Hpt]. destruct Ht as [T1 T2 T3 T4 T5 T6 T7 T8 T9 T10].
  split; try done; cbn; [by rewrite Hh, Hpt | by rewrite Hpt].
Qed.

(** ** Links *)

Lemma put_peer_typed s id p : peer_typed p -> home_typed s -> home_typed (s <| peers ::= <[id := p]> |>).
Proof.
  intros Hp Ht. apply typed_peers; [|done]. intros i q [[_ <-]|[_ Hq]]%lookup_insert_Some; [done | by eapply ty_peers].
Qed.

Lemma get_peer_typed {B} s id (k : PeerState -> home B) :
  home_typed s -> (forall p, peer_typed p -> post (k p) s (fun _ => home_typed)) ->
  post (p ← get_peer id; k p) s (fun _ => home_typed).
Proof.
  intros Ht Hk. unfold get_peer. wp. destruct (peers s !! id) as [p|] eqn:E; cbn [ok_or]; [|done].
  apply Hk. by eapply ty_peers.
Qed.

Lemma pin_typed s b : bundle_typed b -> home_typed s -> post (pin b) s (fun _ => home_typed).
Proof.
  intros Hb Ht. unfold pin, put_peer, mark_peer_dirty, journal, wire. wp. destruct (map_err _ _) as [[]|e]; wp; [|done].
  case_bool_decide; wp; [done|]. destruct (peers s !! _) as [p|] eqn:E; wp; apply typed_dirty, put_peer_typed; try done.
  destruct (ty_peers _ Ht _ _ E) as (_ & ? & ?). by split_and!.
Qed.

Lemma refuse_typed s peer : home_typed s -> post (refuse peer) s (fun _ => home_typed).
Proof.
  intros Ht. unfold refuse, put_peer, mark_peer_dirty, journal. wp. destruct (peers s !! peer) as [p|] eqn:E; wp; [|done].
  apply typed_dirty, put_peer_typed; [|done]. exact (ty_peers _ Ht _ _ E).
Qed.

Lemma apply_sign_rotate_typed s peer r : home_typed s -> post (apply_sign_rotate peer r) s (fun _ => home_typed).
Proof.
  intros Ht. unfold apply_sign_rotate, put_peer, mark_peer_dirty, journal, wire. apply get_peer_typed; [done|]. intros p Hp. wp.
  destruct (ok_or _ _); wp; [|done]. destruct (map_err _ _) as [[]|e]; wp; [|done]. by apply typed_dirty, put_peer_typed.
Qed.

Lemma reset_link_typed s peer : home_typed s -> post (reset_link peer) s (fun _ => home_typed).
Proof.
  intros Ht. unfold reset_link, put_peer, mark_peer_dirty, journal. wp. destruct (peers s !! peer) as [p|] eqn:E; wp; [|done].
  apply typed_dirty, put_peer_typed; [|done]. destruct (ty_peers _ Ht _ _ E) as (? & _ & _). by split_and!.
Qed.

Lemma take_frame_typed s peer pl : home_typed s -> post (take_frame peer pl) s (fun _ => home_typed).
Proof.
  intros Ht. unfold take_frame, put_peer, mark_peer_dirty, journal. apply get_peer_typed; [done|]. intros p (Hb & Hr & Hx). wp.
  case_cond; wp; [done|]. apply typed_dirty, put_peer_typed; [|done]. split_and!; [done | done | apply u64_add_le].
Qed.

Lemma handle_ciphertext_typed n s from ct :
  home_inv n s -> n + 1 < U64_MAX -> home_typed s -> post (handle_ciphertext from ct) s (fun _ => home_typed).
Proof.
  intros Hi Hn Ht. unfold handle_ciphertext, get_peer, wire, put_peer. wp. case_cond; wp; [done|].
  destruct (map_err _ _) as [enc|e]; wp; [|done]. destruct (peers s !! from) as [p|] eqn:Hp; cbn [ok_or]; wp; [|done].
  pose proof (ty_peers _ Ht _ _ Hp) as Htp. set (p1 := if negb (window_sec p =? now s) then _ else p).
  assert (peer_typed p1) as Hp1 by (unfold p1; by case_cond).
  assert (home_typed (s <| peers ::= <[from := p1]> |>)) as Ht1 by by apply put_peer_typed.
  assert (home_inv n (s <| peers ::= <[from := p1]> |>)) as Hi1 by (by eapply home_inv_frame; last apply Hi).
  case_cond; wp; [done|]. destruct (peer_seen_enc p1 !! enc); wp; [done|].
  rewrite post_attempt. eapply post_conseq; [by apply (ingest_typed n)|].
  intros [sq|e] s2 Ht2; wp; [|done]. destruct (peers s2 !! from) as [q|] eqn:Hq; cbn [ok_or]; wp; [|done].
  apply put_peer_typed; [|done]. pose proof (ty_peers _ Ht2 _ _ Hq). by case_cond.
Qed.

Lemma accept_frame_typed n s from f :
  counter f <= U64_MAX -> home_inv n s -> n + 1 < U64_MAX -> home_typed s ->
  post (accept_frame from f) s (fun _ => home_typed).
Proof.
  intros Hc Hi Hn Ht. unfold accept_frame, put_peer, mark_peer_dirty, journal, wire. apply get_peer_typed; [done|].
  intros p (Hb & Hr & Hx). wp. case_cond; wp; [done|]. case_cond; wp; [done|]. case_cond; wp; [done|].
  match goal with |- context [s <| peers ::= ?g |> <| dirty ::= ?d |>] =>
    assert (home_typed (s <| peers ::= g |> <| dirty ::= d |>)) as Ht1 by (by apply typed_dirty, put_peer_typed);
    assert (home_inv n (s <| peers ::= g |> <| dirty ::= d |>)) as Hi1 by (revert Hi; by apply home_inv_frame)
  end.
  destruct (map_err _ _) as [pl|e]; wp; [|done]. destruct pl; wp; try done; [by case_cond|].
  by apply (handle_ciphertext_typed n).
Qed.

Lemma set_hello_done_typed s peer : home_typed s -> post (set_hello_done peer) s (fun _ => home_typed).
Proof.
  intros Ht. unfold set_hello_done. wp. apply typed_peers; [|done].
  intros i q [[_ (p & Hp & ->)]|[_ Hq]]%lookup_alter_Some; [exact (ty_peers _ Ht _ _ Hp) | by eapply ty_peers].
Qed.

Lemma remove_matching_typed s row : home_typed s -> post (remove_matching_outbound row) s (fun _ => home_typed).
Proof.
  intros Ht. unfold remove_matching_outbound, mark_outbound_dirty, journal. wp. destruct (position _ _) as [i|]; wp; [|done].
  apply typed_dirty, typed_outbound; [|done]. intros r Hin. apply (ty_outbound _ Ht).
  apply list_elem_of_In in Hin. by apply list_elem_of_In, (list_elem_of_delete_inv _ i).
Qed.

Lemma backoff_row_typed s row : home_typed s -> post (backoff_row row) s (fun _ => home_typed).
Proof.
  intros Ht. unfold backoff_row, mark_outbound_dirty, journal. wp. destruct (position _ _) as [i|]; wp; [|done].
  apply typed_dirty, typed_outbound; [|done]. intros r Hin. apply list_elem_of_In, list_elem_of_lookup in Hin as [j Hj].
  destruct (decide (i = j)) as [<-|Hne].
  - rewrite list_lookup_alter_eq in Hj. destruct (outbound s !! i) as [r0|] eqn:E; [|done]. injection Hj as <-.
    apply list_elem_of_lookup_2, list_elem_of_In, (ty_outbound _ Ht) in E as (? & ? & ? & ?). unfold back_off.
    split_and!; cbn; try done; [apply saturating_add_le | unfold BACKOFF_CAP_SECS, U64_MAX; lia].
  - rewrite list_lookup_alter_ne in Hj by done. by apply list_elem_of_lookup_2, list_elem_of_In, (ty_outbound _ Ht) in Hj.
Qed.

Lemma purge_expired_typed s dst : home_typed s -> post (purge_expired dst) s (fun _ => home_typed).
Proof.
  intros Ht. unfold purge_expired, mark_outbound_dirty, journal. wp.
  match goal with |- context [s <| outbound := ?l |>] => assert (home_typed (s <| outbound := l |>)) as Ht1 end.
  { apply typed_outbound; [|done]. intros r [Hin _]%filter_In. by apply (ty_outbound _ Ht). }
  case_cond; wp; [by apply typed_dirty | done].
Qed.

(** ** Runs *)

(** The arguments of an operation are values of their Rust types. *)
Definition op_typed (op : server_op) : Prop :=
  match op with
  | SHome (OpNow t) | SHome (OpDefer t) => t <= U64_MAX
  | SHome (OpRegisterCard card) => binding_fits (card_binding card)
  | SHome (OpAppend inner) => wire_inner inner
  | SHome (OpObserve _ b) => binding_fits b
  | SHome (OpRevoke stmt) => coarse_timestamp stmt <= U64_MAX
  | SHome (OpRebind _ port) => port <= U16_MAX
  | SHome (OpEnqueue o) | SHome (OpEnqueueOwner _ _ _ o) => lenN (hpke_ciphertext o) <= U32_MAX
  | SPin b => bundle_typed b
  | SAccept _ f => counter f <= U64_MAX
  | _ => True
  end.

Lemma exec_typed n op s :
  home_inv n s -> n + 1 < U64_MAX -> op_typed (SHome op) -> home_typed s -> home_typed (exec op s).
Proof.
  intros Hi Hn Hop Ht. destruct op; cbn [exec op_typed] in *.
  - destruct Ht as [T1 T2 T3 T4 T5 T6 T7 T8 T9 T10]. by split.
  - exact (proj1 (register_typed n s id pk Hi Ht)).
  - exact (register_from_card_typed n s card Hop Hi Ht).
  - exact (register_share_token_typed s owner tok ttl Ht).
  - change (post (mint_share_token owner ttl rnd) s (fun _ => home_typed)). unfold mint_share_token. wp.
    eapply post_conseq; [by apply register_share_token_typed|]. by intros [] s1 Ht1; wp.
  - exact (mint_contact_typed s owner rnd Ht).
  - exact (rotate_contact_typed s owner old confirm rnd Ht).
  - change (post (publish_prekey owner blob) s (fun _ => home_typed)). unfold publish_prekey, journal. wp.
    apply require_mailbox_boxes. intros [[]|e]; wp; [|done]. by apply typed_dirty, typed_prekeys.
  - exact (fetch_prekey_typed s tok Ht).
  - exact (proj1 (append_inner_typed n s inner Hop Hi Hn Ht)).
  - exact (ingest_typed n s o Hi Hn Ht).
  - exact (fetch_typed s owner auth nw Ht).
  - exact (ack_typed s owner auth nw Ht).
  - exact (observe_binding_typed s id b Hop Ht).
  - exact (ingest_revocation_typed s stmt Hop Ht).
  - change (post (note_group_membership id gid) s (fun _ => home_typed)). unfold note_group_membership, journal. wp.
    case_bool_decide; wp; [|apply typed_dirty]; by apply typed_memberships.
  - change (post (sweep_dead_tokens_for owner) s (fun _ => home_typed)). unfold sweep_dead_tokens_for. wp.
    by apply drop_tokens_exact_typed.
  - change (post sweep_dead_tokens s (fun _ => home_typed)). unfold sweep_dead_tokens. wp. by apply drop_tokens_exact_typed.
  - by apply typed_sweep.
  - exact (rebind_host_typed s h port Hop Ht).
  - exact (enqueue_typed n s o Hop Hi Hn Ht).
  - exact (enqueue_from_owner_typed n s owner auth nw o Hop Hi Hn Ht).
  - exact (defer_outbound_typed s until Hop Ht).
Qed.

Lemma sexec_typed n op s :
  home_inv n s -> n + 1 < U64_MAX -> op_typed op -> home_typed s -> home_typed (sexec op s).
Proof.
  intros Hi Hn Hop Ht. destruct op; cbn [sexec].
  - by apply (exec_typed n).
  - exact (pin_typed s b Hop Ht).
  - exact (refuse_typed s peer Ht).
  - exact (apply_sign_rotate_typed s peer r Ht).
  - exact (reset_link_typed s peer Ht).
  - exact (take_frame_typed s peer pl Ht).
  - exact (accept_frame_typed n s peer f Hop Hi Hn Ht).
  - exact (set_hello_done_typed s peer Ht).
  - exact (remove_matching_typed s row Ht).
  - exact (backoff_row_typed s row Ht).
  - exact (purge_expired_typed s dst Ht).
  - exact (check_owner_typed s owner auth nw expect Ht).
Qed.

Lemma from_identity_typed k sk h port s : port <= U16_MAX -> from_identity k sk h port = Ok s -> home_typed s.
Proof.
  intros Hp. unfold from_identity. intros (b & Hb & <-%Ok_inj)%result_bind_ok.
  destruct (advertised_fields _ _ _ _ _ Hb) as [Hh Hpt]. split; cbn; try done.
  - by rewrite Hh, Hpt.
  - by rewrite Hpt.
Qed.
End Typed.

(** * Types are preserved: the group host *)

Section Typed.
Context `{Crypto}.
Implicit Types (s : GroupHost).

Lemma host_typed_frame s s' :
  gh_now s' = gh_now s -> groups s' = groups s -> files s' = files s -> host_typed s -> host_typed s'.
Proof. intros E1 E2 E3 [T1 T2 T3]. split; by rewrite ?E1, ?E2, ?E3. Qed.

Lemma g_typed_dirty s f : host_typed s -> host_typed (s <| gdirty ::= f |>).
Proof. by apply host_typed_frame. Qed.

Lemma g_typed_group s gid g : group_typed g -> host_typed s -> host_typed (s <| groups ::= <[gid := g]> |>).
Proof. intros Hg [T1 T2 T3]. split; try done. intros i x. cbn. intros [[_ <-]|[_ Hx]]%lookup_insert_Some; eauto. Qed.

Lemma g_typed_alter s gid f :
  (forall g, group_typed g -> group_typed (f g)) -> host_typed s -> host_typed (s <| groups ::= alter f gid |>).
Proof. intros Hf [T1 T2 T3]. split; try done. intros i x. cbn. intros [[_ (g & Hg & ->)]|[_ Hx]]%lookup_alter_Some; eauto. Qed.

Lemma g_typed_file s tok f : slot_typed f -> host_typed s -> host_typed (s <| files ::= <[tok := f]> |>).
Proof. intros Hf [T1 T2 T3]. split; try done. intros i x. cbn. intros [[_ <-]|[_ Hx]]%lookup_insert_Some; eauto. Qed.

Lemma create_group_for_typed s pk f creator rg rs rc :
  host_typed s -> post (create_group_for pk f creator rg rs rc) s (fun _ => host_typed).
Proof.
  intros Ht. unfold create_group_for, put_group, g_journal. wp. case_cond; wp; [done|]. apply g_typed_dirty, g_typed_group; [|done].
  split; cbn; [by intros ? ? ?%lookup_empty_Some.. | set_solver].
Qed.

Lemma store_invite_typed s gid cred inv : host_typed s -> post (store_invite gid cred inv) s (fun _ => host_typed).
Proof.
  intros Ht. unfold store_invite, put_group, g_journal, g_deny. apply authorized; [done|]. intros g Hg _.
  case_bool_decide; cbn [negb]; wp; [|done].
  rewrite <- post_bind. apply read_bind; [done | apply member_vk_reads |]. intros vk. apply read_lift; intros ? _; [done|].
  apply with_group; [done|]. intros g' Hg'. wp. apply g_typed_dirty, g_typed_group; [|done].
  destruct (ty_groups _ Ht _ _ Hg') as [I P S]. split; cbn; try done.
  intros n i [[_ <-]|[_ Hi]]%lookup_insert_Some; [apply saturating_add_le | eauto].
Qed.

Lemma accept_typed s gid nonce rs rc rp : host_typed s -> post (accept gid nonce rs rc rp) s (fun _ => host_typed).
Proof.
  intros Ht. unfold accept, put_group, g_journal. apply with_group; [done|]. intros g Hg. apply read_lift; [done|].
  intros i Hi. destruct (ty_groups _ Ht _ _ Hg) as [I P S].
  assert (g_invites g !! nonce = Some i) as Hin by (by destruct (g_invites g !! nonce); cbn in Hi; simplify_eq).
  assert (host_typed (s <| groups ::= <[gid := g <| g_invites ::= delete nonce |>]> |>)) as Ht1.
  { apply g_typed_group; [|done]. split; cbn; try done. intros n j [_ Hj]%lookup_delete_Some. eauto. }
  wp. case_cond; wp; [done|]. apply g_typed_dirty, g_typed_group; [|done].
  split; cbn; try done.
  - intros n j [_ Hj]%lookup_delete_Some. eauto.
  - intros n p [[_ <-]|[_ Hp]]%lookup_insert_Some; [cbn; eauto | eauto].
Qed.

Lemma gc_pending_typed s gid : host_typed s -> post (gc_pending gid) s (fun _ => host_typed).
Proof.
  intros Ht. unfold gc_pending. wp. apply g_typed_alter; [|done]. intros g [I P S]. split; cbn; try done.
  - intros n i [Hi _]%map_lookup_filter_Some. eauto.
  - intros n p [Hp _]%map_lookup_filter_Some. eauto.
Qed.

Lemma host_admit_typed s gid cred adm pk f : host_typed s -> post (host_admit gid cred adm pk f) s (fun _ => host_typed).
Proof.
  intros Ht. unfold host_admit, put_group, g_journal, g_deny. apply authorized; [done|]. intros g0 Hg0 _.
  case_bool_decide; cbn [negb]; wp; [|done].
  rewrite <- post_bind. apply read_bind; [done | apply member_vk_reads |]. intros vk. apply read_lift; intros ? _; [done|].
  wp. eapply post_conseq; [by apply gc_pending_typed|]. intros [[]|e] s1 Ht1; wp; [|done]. rewrite <- post_bind.
  match goal with |- post _ ?x _ => assert (host_typed x) as Ht2 by by apply g_typed_dirty; set (s2 := x) in * end.
  apply with_group; [done|]. intros g Hg. apply read_lift; [done|]. intros p _. destruct (ty_groups _ Ht2 _ _ Hg) as [I P S].
  assert (group_typed (g <| g_pending ::= delete (admit_pending_id adm) |>)) as Hdel.
  { split; cbn; try done. intros n q [_ Hq]%lookup_delete_Some. eauto. }
  wp. case_cond; wp; [by apply g_typed_group|]. destruct (ok_or _ _); wp; [|by apply g_typed_group].
  apply g_typed_dirty, g_typed_group; [|by apply g_typed_group]. by split; apply Hdel.
Qed.

Lemma fanout_copy_typed s rnd gid t b : host_typed s -> post (fanout_copy rnd gid t b) s (fun _ => host_typed).
Proof.
  intros Ht. unfold fanout_copy, put_group, g_journal, g_wire. apply with_group; [done|]. intros g Hg. wp.
  case_cond; wp; [done|]. destruct (ty_groups _ Ht _ _ Hg) as [I P S].
  match goal with |- context [map_err Wire ?m] => destruct (map_err Wire m); wp end;
    (apply g_typed_dirty, g_typed_group; [|done]; split; cbn; try done;
     intros r [Hin|Hin]%elem_of_app; [eauto|]; apply list_elem_of_singleton in Hin; subst r; apply (ty_gh_now _ Ht)).
Qed.

Lemma alter_cred_typed s gid cid f : host_typed s -> post (alter_cred gid cid f) s (fun _ => host_typed).
Proof.
  intros Ht. unfold alter_cred, g_journal. wp. apply g_typed_dirty, g_typed_alter; [|done]. intros g [I P S]. by split.
Qed.

Lemma append_typed s rnd gid cred t b : host_typed s -> post (append rnd gid cred t b) s (fun _ => host_typed).
Proof.
  intros Ht. unfold append. apply authorized; [done|]. intros g Hg _.
  destruct t; wp; try done; try by apply fanout_copy_typed.
  - unfold append_remove, g_wire. apply read_lift; intros bundle _; [done|]. apply read_bind; [done | apply member_vk_reads |].
    intros vk. apply read_lift; intros ? _; [done|]. wp. eapply post_conseq; [by apply fanout_copy_typed|].
    intros [out|e] s1 Ht1; wp; [|done]. eapply post_conseq; [by apply alter_cred_typed|]. by intros [[]|e] s2 Ht2; wp.
  - eapply (post_conseq _ _ (fun _ => host_typed)).
    + unfold apply_signing_replace, g_wire. apply read_lift; intros rep _; [done|]. apply read_bind; [done | apply member_vk_reads |].
      intros vk. apply read_lift; intros ? _; [done|]. by apply alter_cred_typed.
    + intros [[]|e] s1 Ht1; [|done]. by apply fanout_copy_typed.
  - unfold append_reserve, g_journal, g_wire. apply read_lift; intros res _; [done|]. wp. case_cond; wp; [done|].
    case_cond; wp; [done|]. eapply post_conseq; [by apply fanout_copy_typed|]. intros [out|e] s1 Ht1; wp; [|done].
    apply g_typed_dirty, g_typed_file; [|done]. split; cbn.
    + by destruct (reserve_size_bucket res).
    + destruct (ttl_secs _); apply saturating_add_le.
Qed.

Lemma upload_file_typed s gid cred tok b : host_typed s -> post (upload_file gid cred tok b) s (fun _ => host_typed).
Proof.
  intros Ht. unfold upload_file, g_journal. apply authorized; [done|]. intros g Hg _. wp.
  destruct (files s !! tok) as [slot|] eqn:E; cbn [ok_or]; [|done]. wp. case_cond; wp; [done|]. case_cond; wp; [done|].
  apply g_typed_dirty, g_typed_file; [|done]. destruct (ty_files _ Ht _ _ E). by split.
Qed.

(** The clock that is set is a 64-bit number. *)
Definition gop_typed (op : group_op) : Prop := match op with GNow t => t <= U64_MAX | _ => True end.

Lemma gexec_typed op s : gop_typed op -> host_typed s -> host_typed (gexec op s).1.
Proof.
  intros Hop Ht. assert (post (gexec op) s (fun _ => host_typed)); [|done].
  destruct op; cbn [gexec]; try apply (post_unit _ s host_typed).
  - wp. destruct Ht. by split.
  - by apply create_group_for_typed.
  - by apply store_invite_typed.
  - by apply accept_typed.
  - eapply post_conseq; [apply lookup_pending_reads|]. by intros r s1 ->.
  - by apply host_admit_typed.
  - unfold append_host_revocation. wp. case_bool_decide; wp; [done | by apply fanout_copy_typed].
  - unfold refresh_fanout. apply authorized; [done|]. intros g Hg _. apply with_group; [done|]. intros g' _. by apply alter_cred_typed.
  - by apply append_typed.
  - by apply upload_file_typed.
  - eapply post_conseq; [apply fetch_file_reads|]. by intros r s1 ->.
Qed.

Lemma host_new_typed : host_typed host_new.
Proof. split; [done | cbn; by intros ? ? ?%lookup_empty_Some..]. Qed.
End Typed.
