(* ===== verification/PgProcess.v ===== *)
(** * The server process over its database

    The process as a machine: requests change memory, [persist] drains the
    journals into the tables (or fails with the connection), and a restart
    rebuilds memory from the tables with the keys of the identity file. The
    invariant of the machine says that the tables and the journals together
    always determine memory, and that the tables alone determine the memory
    of the last successful [persist]. *)

From S2P Require Export HomeTyped FedProps.

(** ** What no operation changes *)

Section Fixed.
Context `{Crypto} (k : Hpke.HpkeKeypair) (sk : SigningKey) (l : Limits).

Definition fixed (s : HomeServer) : Prop := hpke s = k /\ sign_key s = sk /\ limits s = l.

Lemma attempt_fixed {A} (m : home A) : preserves fixed m -> preserves fixed (attempt m).
Proof. intros Hm s Hs. rewrite post_attempt. exact (Hm s Hs). Qed.

Lemma ingest_fixed o : preserves fixed (ingest o).
Proof.
  unfold ingest, append_inner, authorize_append, burn_if_share, gc_mailbox, wire, journal. walk ltac:(done).
Qed.

Lemma sexec_fixed op s : fixed s -> fixed (sexec op s).
Proof.
  intros Hs. assert (forall A (m : home A), preserves fixed m -> fixed (m s).1) as Hp by (intros A m Hm; exact (Hm s Hs)).
  destruct op as [op| | | | | | | | | | |]; cbn [sexec]; [destruct op; cbn [exec]; try done | ..]; apply Hp;
  unfold mint_share_token, register_from_card, rotate_contact, mint_contact_capability, register, register_share_token,
    publish_prekey, fetch_prekey, fetch, ack, observe_binding, ingest_revocation, note_group_membership,
    sweep_dead_tokens_for, sweep_dead_tokens, drop_tokens_exact, record_token_sweep, rebind_host, enqueue_from_owner,
    enqueue, append_inner, authorize_append, burn_if_share, defer_outbound, disable_mailbox, check_owner, gc_owner_nonces, gc_mailbox, require_mailbox,
    pin, refuse, apply_sign_rotate, reset_link, take_frame, accept_frame, handle_ciphertext, set_hello_done,
    remove_matching_outbound, backoff_row, purge_expired, get_peer, put_peer, mark_peer_dirty,
    mark_outbound_dirty, wire, deny, journal;
  walk ltac:(solve [apply ingest_fixed | apply attempt_fixed, ingest_fixed]).
Qed.
End Fixed.

(** ** Invariants of one component *)

Section Steps.
Context `{Crypto}.
Implicit Types (s : HomeServer) (gs : GroupHost).

Lemma outbound_inv n s f : home_inv n s -> home_inv n (s <| outbound ::= f |>).
Proof. by apply home_inv_frame. Qed.

Lemma sexec_inv n op s : home_inv n s -> n + 1 < U64_MAX -> home_inv (n + 1) (sexec op s).
Proof.
  intros Hi Hn.
  assert (forall A (m : home A), preserves (home_inv n) m -> home_inv (n + 1) (m s).1) as Hp.
  { intros A m Hm. apply (home_inv_mono n); [lia|]. exact (Hm s Hi). }
  destruct op; cbn [sexec].
  - by apply exec_inv.
  - apply Hp, pin_preserves.
  - apply Hp, refuse_preserves.
  - apply Hp, apply_sign_rotate_preserves.
  - apply Hp. unfold reset_link. intros s1 Hi1. unfold put_peer, mark_peer_dirty, journal. wp.
    destruct (peers s1 !! peer); wp; [|done]. revert Hi1. by apply home_inv_frame.
  - apply Hp, take_frame_preserves.
  - exact (proj1 (accept_frame_spec n peer f s Hi Hn)).
  - apply Hp. unfold set_hello_done. intros s1 Hi1. wp. revert Hi1. by apply home_inv_frame.
  - apply Hp. unfold remove_matching_outbound. intros s1 Hi1. wp. destruct (position _ _); [|done].
    unfold mark_outbound_dirty, journal. wp. by apply home_inv_dirty, outbound_inv.
  - apply Hp. unfold backoff_row. intros s1 Hi1. wp. destruct (position _ _) as [i|]; [|done].
    unfold mark_outbound_dirty, journal. wp. by apply home_inv_dirty, outbound_inv.
  - apply Hp. unfold purge_expired, mark_outbound_dirty, journal. intros s1 Hi1. wp.
    case_cond; wp; [apply home_inv_dirty|]; by apply outbound_inv.
  - apply Hp, check_owner_preserves.
Qed.

Lemma gexec_streams n op gs : streams_wf n gs -> n + 2 < U64_MAX -> streams_wf (n + 1) (gexec op gs).1.
Proof.
  intros Hw Hn gid g1 Hg1. pose proof (gexec_evolves op gs gid) as He. rewrite Hg1 in He. unfold group_evolves in He.
  destruct (groups gs !! gid) as [g|] eqn:Hg; [|by eapply born_wf].
  destruct He as [(ls & Ht & Hr & _)|Hb]; [|by eapply born_wf].
  apply (group_wf_mono (n + trace_rows ls)); [lia|]. eapply gtrace_wf; [done | by eapply Hw | lia].
Qed.

Lemma streams_wf_mono n m gs : n <= m -> streams_wf n gs -> streams_wf m gs.
Proof. intros Hle Hw gid g Hg. apply (group_wf_mono n); [done | by eapply Hw]. Qed.

(** ** Journals *)

Lemma absorb_clean d : absorb clean_dirty d = d.
Proof.
  destruct d. unfold absorb, clean_dirty. cbn. f_equal; try apply (left_id_L _ _).
Qed.

Lemma g_absorb_clean d : g_absorb clean_gdirty d = d.
Proof. destruct d. unfold g_absorb, clean_gdirty. cbn. f_equal; apply (left_id_L _ _). Qed.

Lemma is_clean_eq d : is_clean d = true -> d = clean_dirty.
Proof.
  unfold is_clean. destruct d; cbn. rewrite !andb_true_iff, !negb_true_iff, !bool_decide_eq_true.
  intros. destruct_and!. by subst.
Qed.

Lemma g_is_clean_eq d : g_is_clean d = true -> d = clean_gdirty.
Proof.
  unfold g_is_clean. destruct d; cbn. rewrite !andb_true_iff, !bool_decide_eq_true. intros. destruct_and!. by subst.
Qed.
End Steps.

(** ** One transaction *)

Section Transaction.
Context `{Crypto}.
Implicit Types (db : Db) (h : HomeServer) (gs : GroupHost).

(** What is always true of the memory of the process. *)
Record sound (n : N) h gs : Prop := {
  so_inv : home_inv n h;
  so_streams : streams_wf n gs;
  so_typed : home_typed h;
  so_host_typed : host_typed gs;
  so_limits : limits h = default_limits
}.

(** The tables and the journals determine memory. *)
Record journaled db h gs : Prop := {
  jo_home : home_covered db h;
  jo_groups : groups_covered db gs;
  jo_keys : keys_ok db
}.

(** The tables alone determine memory. *)
Record durable db h gs : Prop := {
  du_home : home_synced db h;
  du_groups : groups_synced db gs;
  du_tidy : home_tidy h;
  du_files : forall tok f, files gs !! tok = Some f -> is_Some (groups gs !! slot_group_id f);
  du_keys : keys_ok db
}.

Lemma covered_tidy n db h : home_inv n h -> n + 1 < 2 ^ 63 -> home_covered db h -> home_tidy h.
Proof.
  intros Hi Hn Hc. split.
  - apply (cover_tokens _ _ Hc).
  - intros o. destruct (cover_memberships _ _ Hc o) as (? & ? & _). done.
  - by eapply inv_rows_sound, (cover_mail _ _ Hc).
Qed.

Lemma covered_files db gs tok f : groups_covered db gs -> files gs !! tok = Some f -> is_Some (groups gs !! slot_group_id f).
Proof. intros Hc Hf. pose proof (cover_files _ _ Hc tok) as Hx. rewrite Hf in Hx. by destruct Hx. Qed.

Lemma dirty_same h d : d = dirty h -> h <| dirty := d |> = h.
Proof. destruct h. cbn. by intros ->. Qed.

Lemma gdirty_same gs d : d = gdirty gs -> gs <| gdirty := d |> = gs.
Proof. destruct gs. cbn. by intros ->. Qed.

Lemma at_rest_clean h : dirty h = clean_dirty -> at_rest h = h.
Proof. intros Hd. by apply dirty_same. Qed.

Lemma groups_at_rest_clean gs : gdirty gs = clean_gdirty -> groups_at_rest gs = gs.
Proof. intros Hd. by apply gdirty_same. Qed.

Lemma groups_covered_tables db db' gs : same_group_tables db db' -> groups_covered db gs -> groups_covered db' gs.
Proof.
  intros (E1 & E2 & E3 & E4 & E5 & E6) [C1 C2 C3 C4 [S1 S2 S3] C6].
  split; unfold cov_groups, cov_creds, cov_invites, cov_pending, cov_files; rewrite ?E1, ?E2, ?E3, ?E4, ?E6; try assumption.
  split; rewrite ?E5; assumption.
Qed.

Lemma home_synced_tables db db' h : same_home_tables db db' -> home_synced db h -> home_synced db' h.
Proof.
  intros (E1 & E2 & E3 & E4 & E5 & E6 & E7 & E8 & E9) [S1 S2 S3 S4 S5 S6 S7 S8 S9].
  split; unfold prekey_rows in *; rewrite ?E1, ?E2, ?E3, ?E4, ?E5, ?E6, ?E7, ?E8, ?E9; assumption.
Qed.

(** The transaction of a covered state commits. *)
Lemma transaction_ok n db h gs :
  sound n h gs -> n + 1 < 2 ^ 63 -> journaled db h gs ->
  exists db', (persist_home h (dirty h);; persist_groups gs (gdirty gs)) db = (db', Ok tt) /\ durable db' h gs.
Proof.
  intros [Hi Hw Ht Hgt Hl] Hn [Hc Hgc Hk].
  assert (post (persist_home h (dirty h);; persist_groups gs (gdirty gs)) db (fun r db' => r = Ok tt /\ durable db' h gs)) as Hpost.
  { eapply post_seq; [by apply (persist_home_ok n)|]. intros db1 (Hs1 & Hk1 & Hg1).
    eapply post_conseq; [apply persist_groups_ok|]; [| by eapply groups_covered_tables | done |].
    - intros gid g Hg. destruct (Hw _ _ Hg) as [_ -> Hcount _ _ _]. lia.
    - intros r db2 (-> & Hs2 & Hk2 & Hh2). split; [done|]. split; [by eapply home_synced_tables | done | | | done].
      + by eapply covered_tidy.
      + intros tok f. by eapply covered_files. }
  unfold post in Hpost. destruct ((persist_home h (dirty h);; persist_groups gs (gdirty gs)) db) as [db' r].
  cbn in Hpost. destruct Hpost as [-> Hd]. by exists db'.
Qed.

Lemma mailbox_values_at_rest h new : mailbox_values (at_rest h) new = mailbox_values h new.
Proof.
  induction new as [|[o q] new IH]; [done|]. cbn [mailbox_values]. rewrite IH.
  change (live_row (at_rest h) o q) with (live_row h o q). done.
Qed.

Lemma persist_home_at_rest h hd : persist_home (at_rest h) hd = persist_home h hd.
Proof.
  assert (insert_mailbox_rows (at_rest h) (d_mailbox_new hd) = insert_mailbox_rows h (d_mailbox_new hd)) as Heq
    by (unfold insert_mailbox_rows; by rewrite mailbox_values_at_rest).
  unfold persist_home. by rewrite Heq.
Qed.

Lemma persist_inner_at_rest link h gs hd gd :
  persist_inner link (h <| dirty := clean_dirty |>) (gs <| gdirty := clean_gdirty |>) hd gd = persist_inner link h gs hd gd.
Proof.
  unfold persist_inner. change (h <| dirty := clean_dirty |>) with (at_rest h). rewrite persist_home_at_rest. reflexivity.
Qed.

Lemma clean_durable n db h gs :
  sound n h gs -> n + 1 < 2 ^ 63 -> journaled db h gs -> dirty h = clean_dirty -> gdirty gs = clean_gdirty -> durable db h gs.
Proof.
  intros Hs Hn Hj Hd Hgd. destruct (transaction_ok n db h gs Hs Hn Hj) as (db' & Heq & Hdu).
  rewrite Hd, Hgd in Heq. cbn in Heq. by injection Heq as <-.
Qed.

Lemma persist_up n db h gs :
  sound n h gs -> n + 1 < 2 ^ 63 -> journaled db h gs ->
  exists db', persist LinkUp (db, h, gs) = ((db', at_rest h, groups_at_rest gs), Ok tt) /\ durable db' h gs.
Proof.
  intros Hs Hn Hj. unfold persist. destruct (is_clean (dirty h) && g_is_clean (gdirty gs)) eqn:E.
  - apply andb_true_iff in E as [Hd%is_clean_eq Hgd%g_is_clean_eq]. exists db.
    rewrite at_rest_clean, groups_at_rest_clean by done. split; [done|]. by apply (clean_durable n).
  - rewrite persist_inner_at_rest. destruct (transaction_ok n db h gs Hs Hn Hj) as (db' & Heq & Hdu).
    exists db'. unfold persist_inner. by rewrite Heq.
Qed.

(** A failed [persist] whose transaction did not commit changes nothing. *)
Lemma persist_fails link db h gs st e :
  persist link (db, h, gs) = (st, Err e) -> link <> AckLost -> st = (db, h, gs).
Proof.
  unfold persist. destruct (is_clean _ && _); [done|]. rewrite persist_inner_at_rest. intros Hp Hl.
  assert (forall e', (persist_inner link h gs (dirty h) (gdirty gs) db).2 = Err e' ->
    (persist_inner link h gs (dirty h) (gdirty gs) db).1 = db) as Hdb.
  { intros e'. unfold persist_inner.
    destruct ((persist_home h (dirty h);; persist_groups gs (gdirty gs)) db) as [db' [[]|]]; [|done]. by destruct link. }
  destruct (persist_inner _ _ _ _ _ _) as [db' [u|e']]; [done|]. specialize (Hdb e' eq_refl). cbn in Hdb. subst db'.
  injection Hp as <- _. f_equal; [f_equal|].
  - apply (dirty_same h (absorb clean_dirty (dirty h))), absorb_clean.
  - apply (gdirty_same gs (g_absorb clean_gdirty (gdirty gs))), g_absorb_clean.
Qed.

Lemma durable_journaled db h gs : durable db h gs -> journaled db (at_rest h) (groups_at_rest gs).
Proof. intros [Hs Hg Ht Hf Hk]. split; [by apply synced_home_covered | by apply synced_groups_covered | done]. Qed.
End Transaction.

(** * A restart is a step of the process

    The memory that [load_keys] rebuilds satisfies the invariants of the memory
    it was saved from, and agrees with the same tables: a restarted server can
    go on, be persisted and be restarted again. *)

Lemma restored_box_wf box : box_wf box -> box_wf (restored_box box).
Proof.
  intros Hwf. pose proof (row_tokens_lookup box) as Ht. pose proof Hwf as [Hs Hr Hi Hb Hn Hd]. split; cbn; try done.
  - intros k r Hin. destruct (Hr _ _ Hin) as (? & ? & _). do 2 (split; [done|]). apply Ht; eauto.
  - intros t k (r & Hin & _)%Ht; [|done]. by destruct (Hr _ _ Hin) as (_ & ? & _).
Qed.

Lemma first_token_perm l l' tok :
  NoDup (map fst l) -> l' ≡ₚ l -> first_token tok l' = first_token tok l.
Proof.
  intros Hnd Hp. assert (NoDup (map fst l')) as Hnd' by (change (NoDup (l'.*1)); by rewrite Hp).
  rewrite !first_token_find by done. apply option_eq. intros k.
  assert (forall x, NoDup (map fst x) -> find_token tok x = Some k <-> (tok, k) ∈ x) as Hf.
  { intros x Hx. split; [intros ?%find_token_In; by apply list_elem_of_In|]. intros Hin.
    destruct (find_token tok x) as [k'|] eqn:E.
    - apply find_token_In, list_elem_of_In in E. f_equal. by eapply (NoDup_fst_eq _ _ _ _ Hx).
    - apply find_token_None in E. destruct E. apply list_elem_of_In, in_map_iff. exists (tok, k). by rewrite <- list_elem_of_In. }
  rewrite !Hf by done. by rewrite Hp.
Qed.

Section Restart.
Context `{Crypto}.
Implicit Types (db : Db) (h : HomeServer) (gs : GroupHost).

Lemma restored_live_row h h' o q : home_restored h h' -> live_row h' o q = live_row h o q.
Proof.
  intros Hr. unfold live_row. rewrite (re_boxes _ _ Hr), lookup_fmap. by destruct (mailboxes h !! o).
Qed.

Lemma restored_inv n h h' : limits h = default_limits -> home_inv n h -> home_restored h h' -> home_inv n h'.
Proof.
  intros Hl [I1 I2 I3 I4 I5] Hr.
  assert (forall id, live h id -> live h' id) as Hlive.
  { intros id (box & Hb & Hd). exists (restored_box box). by rewrite (re_boxes _ _ Hr), lookup_fmap, Hb. }
  split.
  - intros id box. rewrite (re_boxes _ _ Hr), lookup_fmap. destruct (mailboxes h !! id) as [b|] eqn:E; [|done].
    intros [= <-]. destruct (I1 _ _ E) as (Hw & ? & ?). rewrite (re_limits _ _ Hr), <- Hl. by split; [apply restored_box_wf|].
  - intros t k Hin. apply Hlive, (I2 t). apply list_elem_of_In. rewrite <- (re_tokens _ _ Hr). by apply list_elem_of_In.
  - intros id [l Hp]. apply Hlive, I3. pose proof (re_prekeys _ _ Hr id) as Heq. rewrite Hp in Heq. cbn in Heq.
    destruct (prekeys h !! id); [done|]. cbn in Heq. subst l. by destruct (re_prekeys_some _ _ Hr id).
  - intros id row. rewrite (re_directory _ _ Hr). intros Hd. destruct (I4 _ _ Hd) as [[b Hb] Hrev].
    unfold mailbox_disabled in *. rewrite (re_boxes _ _ Hr), lookup_fmap. rewrite Hb in *. split; [by eexists | done].
  - by rewrite (re_limits _ _ Hr), <- Hl.
Qed.

Lemma restored_typed h h' : home_typed h -> home_restored h h' -> home_typed h'.
Proof.
  intros [T1 T2 T3 T4 T5 T6 T7 T8 T9 T10] Hr. split.
  - by rewrite (re_now _ _ Hr).
  - by rewrite (re_hpke _ _ Hr), (re_sign_key _ _ Hr), (re_bundle _ _ Hr).
  - by rewrite (re_bundle _ _ Hr).
  - intros id box k r. rewrite (re_boxes _ _ Hr), lookup_fmap. destruct (mailboxes h !! id) as [b|] eqn:E; [|done].
    intros [= <-] Hin. by eapply T4.
  - rewrite (re_directory _ _ Hr). done.
  - intros id d box. rewrite (re_directory _ _ Hr), (re_boxes _ _ Hr), lookup_fmap. intros Hd.
    destruct (mailboxes h !! id) as [b|] eqn:E; [|done]. intros [= <-]. exact (T6 id d b Hd E).
  - intros t k Hin. apply (T7 t), list_elem_of_In. rewrite <- (re_tokens _ _ Hr). by apply list_elem_of_In.
  - intros id p. rewrite (re_peers _ _ Hr), lookup_fmap. destruct (peers h !! id) as [q|] eqn:E; [|done].
    intros [= <-]. exact (T8 _ _ E).
  - by rewrite (re_outbound _ _ Hr).
  - by rewrite (re_seen _ _ Hr).
Qed.

Lemma restored_tidy h h' : home_tidy h -> home_restored h h' -> home_tidy h'.
Proof.
  intros [T1 T2 T3] Hr. split.
  - change (NoDup ((tokens h').*1)). by rewrite (re_tokens _ _ Hr).
  - intros o. destruct (T2 o) as [Hnd Hs]. split; [by rewrite (re_memberships _ _ Hr o)|]. intros Hne.
    rewrite (re_boxes _ _ Hr), lookup_fmap, fmap_is_Some. apply Hs. intros Hn. apply Hne.
    pose proof (re_memberships _ _ Hr o) as Hp. rewrite Hn in Hp. by apply Permutation_nil_r in Hp.
  - intros o q r. rewrite (restored_live_row h) by done. apply T3.
Qed.

Lemma restored_synced db h h' : home_tidy h -> home_synced db h -> home_restored h h' -> home_synced db h'.
Proof.
  intros [T1 T2 T3] [S1 S2 S3 S4 S5 S6 S7 S8 S9] Hr. split.
  - rewrite S1. unfold server_identity_row. by rewrite (re_hpke _ _ Hr), (re_sign_key _ _ Hr), (re_bundle _ _ Hr).
  - intros id. rewrite S2. unfold identity_view, identity_row. rewrite (re_boxes _ _ Hr), (re_directory _ _ Hr), lookup_fmap.
    by destruct (mailboxes h !! id), (directory h !! id).
  - intros o q Hq. rewrite S3 by done. unfold mail_val. cbn. by rewrite (restored_live_row h h').
  - intros tok. by rewrite S4, (first_token_perm (tokens h) (tokens h')) by (done || apply (re_tokens _ _ Hr)).
  - intros o. by rewrite S5, (re_prekeys _ _ Hr).
  - intros o gid. by rewrite S6, (re_memberships _ _ Hr).
  - intros p. rewrite S7, (re_peers _ _ Hr), lookup_fmap. by destruct (peers h !! p).
  - by rewrite S8, (re_outbound _ _ Hr).
  - intros enc. by rewrite S9, (re_seen _ _ Hr).
Qed.

Lemma restored_lookup gs gs' gid :
  host_restored gs gs' ->
  match groups gs !! gid, groups gs' !! gid with
  | Some g, Some g' => group_restored (gh_now gs) g g'
  | None, None => True
  | _, _ => False
  end.
Proof.
  intros Hr. destruct (groups gs !! gid) as [g|] eqn:E.
  - destruct (re_group _ _ Hr _ _ E) as (g' & -> & Hg). done.
  - by rewrite (re_no_group _ _ Hr _ E).
Qed.

Lemma restored_groups_synced db gs gs' :
  groups_synced db gs -> host_restored gs gs' ->
  (forall gid k, t_group_invites db !! (gid_vec gid, to_vec k) = invite_cols <$> live_invite gs' gid k) ->
  groups_synced db gs'.
Proof.
  intros [S1 S2 S3 S4 S5 S6] Hr Hi. split.
  - intros gid. rewrite S1. pose proof (restored_lookup gs gs' gid Hr) as Hg.
    destruct (groups gs !! gid), (groups gs' !! gid); try done. destruct Hg. cbn. unfold group_cols. congruence.
  - intros gid cid. rewrite S2. unfold live_cred. pose proof (restored_lookup gs gs' gid Hr) as Hg.
    destruct (groups gs !! gid), (groups gs' !! gid); try done. cbn. by rewrite (re_creds _ _ _ Hg).
  - intros gid k. specialize (Hi gid k). destruct (live_invite gs' gid k); [done | by left].
  - intros gid pid. rewrite S4. unfold live_pending. pose proof (restored_lookup gs gs' gid Hr) as Hg.
    destruct (groups gs !! gid), (groups gs' !! gid); try done. cbn. by rewrite (re_pending _ _ _ Hg).
  - intros gid q Hq. rewrite S5 by done. unfold live_stream_row. pose proof (restored_lookup gs gs' gid Hr) as Hg.
    destruct (groups gs !! gid), (groups gs' !! gid); try done. cbn. by rewrite (re_stream _ _ _ Hg).
  - intros tok. by rewrite S6, (re_files _ _ Hr).
Qed.

Lemma restored_streams n gs gs' : streams_wf n gs -> host_restored gs gs' -> streams_wf n gs'.
Proof.
  intros Hw Hr gid g' Hg'. pose proof (restored_lookup gs gs' gid Hr) as Hg. rewrite Hg' in Hg.
  destruct (groups gs !! gid) as [g|] eqn:E; [|done]. destruct (Hw _ _ E) as [W1 W2 W3 W4 W5 W6].
  destruct Hg as [E1 E2 E3 E4 E5 E6 _ _]. split; rewrite ?E1, ?E2, ?E4, ?E6; done.
Qed.

Lemma restored_host_typed gs gs' : host_typed gs -> host_restored gs gs' -> host_typed gs'.
Proof.
  intros [T1 T2 T3] Hr. split; [by rewrite (re_gh_now _ _ Hr) | | by rewrite (re_files _ _ Hr)].
  intros gid g' Hg'. pose proof (restored_lookup gs gs' gid Hr) as Hg. rewrite Hg' in Hg.
  destruct (groups gs !! gid) as [g|] eqn:E; [|done]. destruct (T2 _ _ E) as [I P S].
  destruct Hg as [E1 E2 E3 E4 E5 E6 E7 E8]. split; rewrite ?E5, ?E6; try done.
  intros k i [Hi|Hi]%E8; [by eapply I | lia].
Qed.

(** From durable tables the process comes back, sound and durable again. *)
Lemma restart_ok n db h gs :
  sound n h gs -> n + 1 < 2 ^ 63 -> durable db h gs ->
  exists h' gs', load_keys (Some (hpke h, sign_key h)) db = Ok (Some (h', gs'))
    /\ home_restored h h' /\ host_restored gs gs'
    /\ sound n h' gs' /\ durable db h' gs'.
Proof.
  intros [Hi Hw Ht Hgt Hl] Hn [Hs Hgs Htd Hf Hk].
  destruct (restore_all n h gs db) as (h' & gs' & Hload & Hr & Hgr & Hinv); [done..|].
  exists h', gs'. split_and!; [done | done | done | |].
  - split; [by apply (restored_inv n h) | by apply (restored_streams n gs) | by apply (restored_typed h)
           | by apply (restored_host_typed gs) | apply (re_limits _ _ Hr)].
  - split; [by apply (restored_synced db h) | by apply (restored_groups_synced db gs) | by apply (restored_tidy h) | | done].
    intros tok f. rewrite (re_files _ _ Hgr). intros [g Hg]%Hf. destruct (re_group _ _ Hgr _ _ Hg) as (g' & -> & _). eauto.
Qed.
End Restart.
