(* ===== verification/PgRun.v ===== *)
(** * Runs of the process

    The process as a machine over the database and the identity file, started
    by [load_or_init], and its invariant. *)

From S2P Require Export PgProcess.

(** ** The identity file *)

Section File.
Context `{CryptoLaws}.

Lemma identity_field_found (m : list (N * Value)) i (v : key) :
  map_get m i = Ok (Bytes (to_vec v)) -> identity_field m i = Ok v.
Proof. intros Hm. unfold identity_field. rewrite Hm. cbn -[copy_fixed to_vec]. by rewrite copy_fixed_to_vec. Qed.

Lemma identity_roundtrip hp sk : identity_decode (identity_encode hp sk) = Ok (hp, sk).
Proof.
  unfold identity_decode, identity_encode. rewrite decode_encode_wf by solve_wf. cbn [map_err mbind result_bind].
  rewrite (identity_field_found _ 0 (Hpke.secret hp)) by done. cbn [mbind result_bind].
  rewrite (identity_field_found _ 1 (Hpke.public hp)) by done. cbn [mbind result_bind].
  rewrite (identity_field_found _ 2 (sk_to_bytes sk)) by done. cbn [mbind result_bind].
  rewrite (identity_field_found _ 3 (vk_to_bytes (verifying_key sk))) by done. cbn [mbind result_bind].
  rewrite sk_bytes_roundtrip, bool_decide_eq_true_2 by done. by destruct hp.
Qed.
End File.

(** ** The machine *)

(** A request to the home server, a request to the group host, a [persist], or
    the death of the process followed by a start with the given host and port. *)
Inductive proc_op : Type :=
| Request (op : server_op)
| GroupRequest (op : group_op)
| Save (link : Link)
| Restart (h : rstring) (port : N).

Section Machine.
Context `{CryptoLaws}.

(** [p_saved] is the memory of the last successful [persist]. *)
Record proc : Type := mk_proc {
  p_db : Db;
  p_file : KeyFile;
  p_home : HomeServer;
  p_host : GroupHost;
  p_saved : HomeServer * GroupHost
}.

(** The keys drawn by a start that finds none; a running server has them. *)
Context (seed : key) (fresh_sk : SigningKey).

Definition start (h : rstring) (port : N) (db : Db) (file : KeyFile) :
    Db * KeyFile * presult (HomeServer * GroupHost) :=
  load_or_init true LinkUp LinkUp h port seed fresh_sk (db, file).

Definition pexec (op : proc_op) (p : proc) : proc :=
  match op with
  | Request op => mk_proc (p_db p) (p_file p) (sexec op (p_home p)) (p_host p) (p_saved p)
  | GroupRequest op => mk_proc (p_db p) (p_file p) (p_home p) (gexec op (p_host p)).1 (p_saved p)
  | Save link =>
      let '(db, h, gs, r) := persist link (p_db p, p_home p, p_host p) in
      mk_proc db (p_file p) h gs (match r with Ok _ => (h, gs) | Err _ => p_saved p end)
  | Restart h port =>
      match start h port (p_db p) (p_file p) with
      | (db, file, Ok (h, gs)) => mk_proc db file h gs (h, gs)
      | (db, file, Err _) => mk_proc db file (p_home p) (p_host p) (p_saved p)
      end
  end.

Definition prun (ops : list proc_op) (p : proc) : proc := foldl (fun p op => pexec op p) p ops.

(** What the environment provides for an operation: arguments of their Rust
    types, fresh random values, a clock that does not go back, a link that does
    not lose the acknowledgement of a commit. *)
Definition admissible (op : proc_op) (p : proc) : Prop :=
  match op with
  | Request op => op_typed op /\ storable op (p_home p)
  | GroupRequest op => gop_typed op /\ g_storable op (p_host p)
  | Save link => link <> AckLost
  | Restart _ port => port <= U16_MAX
  end.

Fixpoint admissible_run (ops : list proc_op) (p : proc) : Prop :=
  match ops with
  | [] => True
  | op :: ops => admissible op p /\ admissible_run ops (pexec op p)
  end.

(** ** The invariant *)

Record proc_inv (n : N) (p : proc) : Prop := {
  pi_sound : sound n (p_home p) (p_host p);
  pi_journaled : journaled (p_db p) (p_home p) (p_host p);
  pi_saved_sound : sound n (p_saved p).1 (p_saved p).2;
  pi_durable : durable (p_db p) (p_saved p).1 (p_saved p).2;
  pi_keys : hpke (p_home p) = hpke (p_saved p).1 /\ sign_key (p_home p) = sign_key (p_saved p).1;
  pi_file : p_file p = FileContents (identity_encode (hpke (p_saved p).1) (sign_key (p_saved p).1))
}.

Lemma sound_mono n m h gs : n <= m -> sound n h gs -> sound m h gs.
Proof.
  intros Hle [Hi Hw Ht Hgt Hl]. split; [by apply (home_inv_mono n) | by apply (streams_wf_mono n) | done | done | done].
Qed.

Lemma sexec_sound n op h gs :
  op_typed op -> sound n h gs -> n + 1 < U64_MAX -> sound (n + 1) (sexec op h) gs.
Proof.
  intros Hop [Hi Hw Ht Hgt Hl] Hn. destruct (sexec_fixed (hpke h) (sign_key h) (limits h) op h) as (_ & _ & Hlim); [done|].
  split; [by apply sexec_inv | apply (streams_wf_mono n); [lia | done] | by apply (sexec_typed n) | done | congruence].
Qed.

Lemma gexec_sound n op h gs :
  gop_typed op -> sound n h gs -> n + 2 < U64_MAX -> sound (n + 1) h (gexec op gs).1.
Proof.
  intros Hop [Hi Hw Ht Hgt Hl] Hn.
  split; [apply (home_inv_mono n); [lia | done] | by apply gexec_streams | done | by apply gexec_typed | done].
Qed.

Lemma at_rest_sound n h gs : sound n h gs -> sound n (at_rest h) (groups_at_rest gs).
Proof.
  intros [Hi Hw Ht Hgt Hl]. split; [by apply home_inv_dirty | done | by apply typed_dirty | by apply g_typed_dirty | done].
Qed.

Lemma at_rest_durable db h gs : durable db h gs -> durable db (at_rest h) (groups_at_rest gs).
Proof.
  intros [[S1 S2 S3 S4 S5 S6 S7 S8 S9] Hg [T1 T2 T3] Hf Hk]. split; [by split | | by split | done | done].
  destruct Hg as [G1 G2 G3 G4 G5 G6]. by split.
Qed.

Lemma clean_journaled db h gs :
  durable db h gs -> dirty h = clean_dirty -> gdirty gs = clean_gdirty -> journaled db h gs.
Proof.
  intros Hd H1 H2. pose proof (durable_journaled _ _ _ Hd) as Hj. by rewrite at_rest_clean, groups_at_rest_clean in Hj.
Qed.
(** ** Starting *)

Lemma rebind_host_ok h port s : (rebind_host h port s).2 = Ok tt.
Proof.
  unfold rebind_host, wire, journal, mbind, stM_bind, get, lift, modify.
  pose proof (advertised_ok (hpke s) (sign_key s) h port) as Hok. by destruct (advertised _ _ _ _).
Qed.

(** The bundle is the only field [rebind_host] changes, next to the journal. *)
Lemma rebind_host_bundle h port s :
  let s1 := sexec (SHome (OpRebind h port)) s in
  bundle_host (bundle s1) = h /\ s2s_port (bundle s1) = port /\ at_rest s1 = at_rest (s <| bundle := bundle s1 |>).
Proof.
  cbn [sexec exec]. unfold rebind_host, wire, journal, mbind, stM_bind, get, lift, modify.
  pose proof (advertised_ok (hpke s) (sign_key s) h port) as Hok.
  destruct (advertised _ _ _ _) as [b|] eqn:E; [|done]. cbn. by destruct (advertised_fields _ _ _ _ _ E).
Qed.

(** What a start finds of the memory that was saved. *)
Definition resumed (h : rstring) (port : N) (saved : HomeServer * GroupHost) (s : HomeServer) (gs : GroupHost) : Prop :=
  exists s', home_restored saved.1 s' /\ host_restored saved.2 gs
    /\ s = s' <| bundle := bundle s |> /\ bundle_host (bundle s) = h /\ s2s_port (bundle s) = port.

Lemma boot_rebind_ok n h port db file s gs :
  sound n s gs -> n + 2 < 2 ^ 63 -> durable db s gs -> dirty s = clean_dirty -> gdirty gs = clean_gdirty -> port <= U16_MAX ->
  exists db' s1, boot_rebind LinkUp h port (s, gs) (db, file) = ((db', file), Ok (s1, gs))
    /\ s1 = s <| bundle := bundle s1 |> /\ bundle_host (bundle s1) = h /\ s2s_port (bundle s1) = port
    /\ sound (n + 1) s1 gs /\ durable db' s1 gs.
Proof.
  intros Hs Hn Hd Hcl Hgcl Hp. unfold boot_rebind. cbn [fst snd].
  destruct (negb _ || negb _) eqn:E.
  - set (s1 := sexec (SHome (OpRebind h port)) s). pose proof (rebind_host_bundle h port s) as (Hh & Hpt & Hb). fold s1 in Hh, Hpt, Hb.
    assert (rebind_host h port s = (s1, Ok tt)) as ->
      by (unfold s1; cbn [sexec exec]; rewrite <- (rebind_host_ok h port s); apply surjective_pairing).
    assert (sound (n + 1) s1 gs) as Hs1 by (apply sexec_sound; [exact Hp | done | unfold U64_MAX; lia]).
    assert (journaled db s1 gs) as Hj.
    { destruct (clean_journaled _ _ _ Hd Hcl Hgcl) as [J1 J2 J3]. split; [|done|done].
      apply (sexec_covers db n); [apply Hs | unfold U64_MAX; lia | by split | done]. }
    destruct (persist_up (n + 1) db s1 gs Hs1 ltac:(lia) Hj) as (db' & Hper & Hdu).
    exists db', (at_rest s1). unfold boot_persist, mbind, stM_bind, lift. cbn [map_err fst snd]. rewrite Hper. cbn [fst snd].
    rewrite groups_at_rest_clean by done.
    split_and!; [done | rewrite Hb at 1; by apply at_rest_clean | done | done | |].
    + apply at_rest_sound in Hs1. by rewrite groups_at_rest_clean in Hs1.
    + apply at_rest_durable in Hdu. by rewrite groups_at_rest_clean in Hdu.
  - apply orb_false_iff in E as [Eh%negb_false_iff Ep%negb_false_iff]. apply bool_decide_eq_true in Eh. apply N.eqb_eq in Ep.
    exists db, s. split_and!; [done | by destruct s | done | done | apply (sound_mono n); [lia | done] | done].
Qed.

(** A start over the database of a running server resumes what was saved. *)
Lemma start_resumes n h port db s gs :
  sound n s gs -> n + 2 < 2 ^ 63 -> durable db s gs -> port <= U16_MAX ->
  let file := FileContents (identity_encode (hpke s) (sign_key s)) in
  exists db' s1 gs1, start h port db file = ((db', file), Ok (s1, gs1))
    /\ resumed h port (s, gs) s1 gs1 /\ sound (n + 1) s1 gs1 /\ durable db' s1 gs1
    /\ dirty s1 = clean_dirty /\ gdirty gs1 = clean_gdirty.
Proof.
  intros Hs Hn Hd Hp file. destruct (restart_ok n db s gs Hs ltac:(lia) Hd) as (s' & gs' & Hload & Hr & Hgr & Hs' & Hd').
  destruct (boot_rebind_ok n h port db file s' gs' Hs' Hn Hd' (re_dirty _ _ Hr) (re_gdirty _ _ Hgr) Hp)
    as (db' & s1 & Hre & Hb & Hh & Hpt & Hs1 & Hd1).
  exists db', s1, gs'. split_and!; [| | done | done | | apply (re_gdirty _ _ Hgr)].
  - unfold start, load_or_init, read_keys, mbind, stM_bind, get, lift, mret, stM_ret. cbn [fst snd file].
    rewrite identity_roundtrip. cbn [map_err fst]. rewrite Hload. exact Hre.
  - exists s'. by split_and!.
  - rewrite Hb. apply (re_dirty _ _ Hr).
Qed.
(** A new server is covered by the empty database. *)
Lemma new_covered k sk h0 port0 h port s :
  from_identity k sk h0 port0 = Ok s -> journaled empty_db (sexec (SHome (OpRebind h port)) s) host_new.
Proof.
  unfold from_identity. intros (b0 & _ & <-%Ok_inj)%result_bind_ok. cbn [sexec exec].
  unfold rebind_host, wire, journal, mbind, stM_bind, get, lift, modify. cbn [hpke sign_key].
  pose proof (advertised_ok k sk h port) as Hok. destruct (advertised k sk h port) as [b|]; [|done]. cbn. split.
  - split.
    + by left.
    + intros id. split; [set_solver|]. right. unfold identity_view. cbn. by rewrite !lookup_empty.
    + split; cbn; [constructor | set_solver | set_solver | by intros ? ? ?%lookup_empty_Some |].
      intros o q _. unfold cov_row, live_row, kept_row. cbn. rewrite !lookup_empty. cbn. by destruct (row_gone _ _ _).
    + split; [constructor|]. intros tok. unfold cov_token. cbn. intros r. by rewrite lookup_empty.
    + intros o. right. cbn. by rewrite lookup_empty.
    + intros o. cbn. rewrite lookup_empty. cbn. split_and!; [constructor | done |]. right. set_solver.
    + intros p. cbn. by rewrite !lookup_empty.
    + by right.
    + right. split_and!; [constructor | set_solver |]. intros enc. cbn. by rewrite !lookup_empty.
  - split.
    + intros gid. cbn. by rewrite !lookup_empty.
    + intros gid cid. unfold live_cred. cbn. by rewrite !lookup_empty.
    + intros gid. right. intros nonce. unfold live_invite. cbn. rewrite !lookup_empty. by left.
    + intros gid. right. intros pid. unfold live_pending. cbn. by rewrite !lookup_empty.
    + split; cbn; [constructor | set_solver |]. intros gid q _. unfold live_stream_row. cbn. by rewrite !lookup_empty.
    + intros tok. cbn. by rewrite !lookup_empty.
  - split; cbn; intros *; rewrite ?lookup_empty; try (by intros [? ?]); set_solver.
Qed.

Lemma new_sound k sk h port s : port <= U16_MAX -> from_identity k sk h port = Ok s -> sound 0 s host_new.
Proof.
  intros Hp Hs. split; [by eapply fresh_inv | | by eapply from_identity_typed | apply host_new_typed |].
  - intros gid g. cbn. by rewrite lookup_empty.
  - unfold from_identity in Hs. by apply result_bind_ok in Hs as (b & _ & <-%Ok_inj).
Qed.

(** The process right after its first start. *)
Definition booted (h : rstring) (port : N) : option proc :=
  match start h port empty_db FileMissing with
  | (db, file, Ok (s, gs)) => Some (mk_proc db file s gs (s, gs))
  | _ => None
  end.

Lemma boot_ok h port : port <= U16_MAX -> exists p, booted h port = Some p /\ proc_inv 1 p.
Proof.
  intros Hp. unfold booted, start, load_or_init, read_keys, mbind, stM_bind, get, lift, mret, stM_ret. cbn [fst snd].
  cbn [load_keys t_server_identity empty_db].
  destruct (home_new seed fresh_sk) as [s0|] eqn:E0.
  2: { unfold home_new, from_identity in E0. pose proof (advertised_ok (Hpke.generate seed) fresh_sk (lit "local") 8443) as Hok.
       by destruct (advertised _ _ _ _). }
  cbn [map_err].
  set (s1 := sexec (SHome (OpRebind h port)) s0). pose proof (rebind_host_bundle h port s0) as (Hh & Hpt & Hb). fold s1 in Hh, Hpt, Hb.
  assert (rebind_host h port s0 = (s1, Ok tt)) as ->
    by (unfold s1; cbn [sexec exec]; rewrite <- (rebind_host_ok h port s0); apply surjective_pairing).
  cbn [map_err save_keys modify].
  assert (sound 1 s1 host_new) as Hs1 by (apply (sexec_sound 0); [exact Hp | by apply (new_sound (Hpke.generate seed) fresh_sk (lit "local") 8443) | done]).
  destruct (persist_up 1 empty_db s1 host_new Hs1 ltac:(done) (new_covered _ _ _ _ h port s0 E0)) as (db & Hper & Hdu).
  unfold boot_persist. cbn [fst snd]. rewrite Hper. cbn [fst snd]. eexists. split; [done|].
  change (groups_at_rest host_new) with host_new.
  pose proof (at_rest_sound 1 s1 host_new Hs1) as Hs2. pose proof (at_rest_durable db s1 host_new Hdu) as Hd2.
  by split; [| apply clean_journaled | | | |].
Qed.

(** ** The invariant along runs *)

(** A [persist] that returns [Ok] did what it does over a working link. *)
Lemma persist_ok_up link st st' u : persist link st = (st', Ok u) -> persist LinkUp st = (st', Ok u).
Proof.
  destruct st as [[db h] gs]. unfold persist. destruct (is_clean _ && _); [done|]. unfold persist_inner.
  match goal with |- context [(?a ;; ?b) db] => destruct ((a ;; b) db) as [db' [[]|]] end; [|done]. by destruct link.
Qed.

Lemma pexec_inv n op p : proc_inv n p -> n + 2 < 2 ^ 63 -> admissible op p -> proc_inv (n + 1) (pexec op p).
Proof.
  intros [Hs Hj Hss Hd [Hk Hsk] Hf] Hn Hok. assert (n + 1 < U64_MAX) as HnU by (unfold U64_MAX; lia).
  pose proof (sound_mono n (n + 1) _ _ ltac:(lia) Hss) as Hss'. pose proof (sound_mono n (n + 1) _ _ ltac:(lia) Hs) as Hs'.
  destruct op as [op|op|link|h port]; cbn [pexec].
  - destruct Hok as [Hty Hst]. destruct (sexec_fixed (hpke (p_home p)) (sign_key (p_home p)) (limits (p_home p)) op (p_home p)) as (E1 & E2 & _); [done|].
    split; cbn; [by apply sexec_sound | | done | done | by rewrite E1, E2 | done].
    destruct Hj as [J1 J2 J3]. split; cbn; [|done|done]. apply (sexec_covers _ n); [apply Hs | done | done | done].
  - destruct Hok as [Hty Hst]. split; cbn; [apply gexec_sound; [done | done | unfold U64_MAX; lia] | | done | done | done | done].
    destruct Hj as [J1 J2 J3]. split; cbn; [done | | done]. apply (gexec_covers _ n); [apply Hs | done | done | done].
  - destruct (persist link _) as [[[db h] gs] r] eqn:E. destruct r as [[]|e].
    + assert (exists db', persist LinkUp (p_db p, p_home p, p_host p) = (db', at_rest (p_home p), groups_at_rest (p_host p), Ok tt)
        /\ durable db' (p_home p) (p_host p)) as (db' & Hper & Hdu) by (apply (persist_up n); [done | lia | done]).
      apply persist_ok_up in E. rewrite Hper in E. injection E as <- <- <-.
      split; cbn; [by apply at_rest_sound | by apply durable_journaled | by apply at_rest_sound | by apply at_rest_durable | done | by rewrite Hf, Hk, Hsk].
    + apply persist_fails in E; [|done]. injection E as -> -> ->. by split.
  - destruct p as [db file s gs [s0 gs0]]. cbn in *. rewrite Hf.
    destruct (start_resumes n h port db s0 gs0 Hss Hn Hd Hok) as (db' & s1 & gs1 & Heq & Hre & Hs1 & Hd1 & Hc1 & Hc2).
    rewrite Heq. destruct Hre as (s' & Hr & _ & Hb & _).
    assert (hpke s1 = hpke s0 /\ sign_key s1 = sign_key s0) as [E1 E2] by (rewrite Hb; cbn; split; apply Hr).
    split; cbn; [done | by apply clean_journaled | done | done | done | by rewrite E1, E2].
Qed.
Lemma prun_inv n ops p :
  proc_inv n p -> n + lenN ops + 1 < 2 ^ 63 -> admissible_run ops p -> proc_inv (n + lenN ops) (prun ops p).
Proof.
  revert n p; induction ops as [|op ops IH]; intros n p Hp Hn Hok.
  - rewrite N.add_0_r. exact Hp.
  - rewrite lenN_cons in *. destruct Hok as [Hop Hok]. cbn.
    replace (n + (1 + lenN ops)) with (n + 1 + lenN ops) by lia.
    apply IH; [apply pexec_inv; [done | lia | done] | lia | done].
Qed.
End Machine.
