(* ===== verification/PgProps.v ===== *)
(** * What persistence guarantees

    The theorems about [pg.rs] and the identity file: the state a process
    reaches is within its types, a [persist] over a working link succeeds and
    makes memory durable, a failed one changes nothing, and a start after a
    crash at any moment brings back the memory of the last successful
    [persist]; and the situations in which this breaks down. *)

From S2P Require Export PgRun.
From S2P Require Import Toy HomeProps.

Section Guarantees.
Context `{CryptoLaws} (seed : key) (fresh_sk : SigningKey).
Implicit Types (p : proc) (ops : list proc_op).

(** C37. Requests, saves, failures and restarts in any order keep the state
    within the ranges of its Rust types: every time, counter and size fits its
    width, every stored envelope, binding, bundle and revocation re-encodes to
    what it was decoded from, and the advertised bundle is signed by the
    server's own keys. *)
Theorem process_state_typed h port p ops :
  port <= U16_MAX -> booted seed fresh_sk h port = Some p -> admissible_run seed fresh_sk ops p ->
  lenN ops + 2 < 2 ^ 63 ->
  home_typed (p_home (prun seed fresh_sk ops p)) /\ host_typed (p_host (prun seed fresh_sk ops p)).
Proof.
  intros Hp Hb Hok Hn. destruct (boot_ok seed fresh_sk h port Hp) as (p' & Hb' & Hi).
  assert (p' = p) as -> by congruence.
  destruct (prun_inv seed fresh_sk 1 ops p Hi ltac:(lia) Hok) as [[_ _ Ht Hgt _] _ _ _ _ _]. done.
Qed.


(** C3. A crash loses at most what was not saved: at any moment of any run of
    requests, saves, failed saves and restarts, a start over the database and
    the identity file succeeds and resumes the memory of the last successful
    [persist], with the configured host and port in the bundle. *)
Theorem crash_recovery h port p ops :
  port <= U16_MAX -> booted seed fresh_sk h port = Some p -> admissible_run seed fresh_sk ops p ->
  lenN ops + 4 < 2 ^ 63 ->
  let q := prun seed fresh_sk ops p in
  exists db s gs, start seed fresh_sk h port (p_db q) (p_file q) = (db, p_file q, Ok (s, gs))
    /\ resumed h port (p_saved q) s gs.
Proof.
  intros Hp Hb Hok Hn q. destruct (boot_ok seed fresh_sk h port Hp) as (p' & Hb' & Hi).
  assert (p' = p) as -> by congruence.
  destruct (prun_inv seed fresh_sk 1 ops p Hi ltac:(lia) Hok) as [_ _ Hss Hd _ Hf]. fold q in Hss, Hd, Hf.
  destruct (start_resumes seed fresh_sk _ h port (p_db q) _ _ Hss ltac:(lia) Hd Hp) as (db' & s & gs & Hst & Hre & _).
  exists db', s, gs. split; [by rewrite Hf|]. by rewrite <- surjective_pairing in Hre.
Qed.

(** A [persist] that fails before its commit leaves the tables, both
    components and both journals exactly as they were, so the next one writes
    the same changes. *)
Theorem failed_persist_changes_nothing link (db : Db) (s : HomeServer) (gs : GroupHost) st e :
  persist link (db, s, gs) = (st, Err e) -> link <> AckLost -> st = (db, s, gs).
Proof. apply persist_fails. Qed.
End Guarantees.

(** ** Witnesses *)

Section Witnesses.
#[local] Existing Instances Toy.toy Toy.toy_laws.

Definition sample_seed : key := arr_repeat 32 x11.
Definition sample_owner : key := arr_repeat 32 x41.

(** Two requests, a save that fails, a save, a change after it. *)
Definition sample_run : list proc_op :=
  [Request (SHome (OpNow 1700000100)); Request (SHome (OpRegister sample_owner sample_owner)); Save LinkDown; Save LinkUp;
   Request (SHome (OpPublish sample_owner [x01; x02]))].

Lemma sample_run_admissible p : admissible_run sample_seed sample_server_sk sample_run p.
Proof. repeat split; cbn; done. Qed.

Example process_state_typed_witness :
  exists p, booted sample_seed sample_server_sk (lit "local") 8443 = Some p
    /\ home_typed (p_home (prun sample_seed sample_server_sk sample_run p)).
Proof.
  destruct (boot_ok sample_seed sample_server_sk (lit "local") 8443 ltac:(done)) as (p & Hb & _). exists p. split; [exact Hb|].
  exact (proj1 (process_state_typed sample_seed sample_server_sk (lit "local") 8443 p sample_run ltac:(done) Hb
    (sample_run_admissible p) ltac:(done))).
Defined.


Example crash_recovery_witness :
  exists p db s gs, booted sample_seed sample_server_sk (lit "local") 8443 = Some p
    /\ let q := prun sample_seed sample_server_sk sample_run p in
       start sample_seed sample_server_sk (lit "local") 8443 (p_db q) (p_file q) = (db, p_file q, Ok (s, gs)).
Proof.
  destruct (boot_ok sample_seed sample_server_sk (lit "local") 8443 ltac:(done)) as (p & Hb & _).
  destruct (crash_recovery sample_seed sample_server_sk (lit "local") 8443 p sample_run ltac:(done) Hb
    (sample_run_admissible p) ltac:(done)) as (db & s & gs & Hst & _).
  exists p, db, s, gs. exact (conj Hb Hst).
Defined.
(** A server that has a change to write. *)
Definition sample_changed : HomeServer :=
  sample_home <| dirty := clean_dirty <| d_server_identity := true |> |>.

Example failed_persist_changes_nothing_witness :
  (persist LinkDown (empty_db, sample_changed, host_new)).1 = (empty_db, sample_changed, host_new).
Proof.
  eapply (failed_persist_changes_nothing LinkDown empty_db sample_changed host_new _ (Sqlx ConnectionLost)); [|discriminate].
  assert ((persist LinkDown (empty_db, sample_changed, host_new)).2 = Err (Sqlx ConnectionLost)) as <- by (vm_compute; reflexivity).
  apply surjective_pairing.
Defined.
End Witnesses.
