(* ===== verification/PgGaps.v ===== *)
(** * Where persistence breaks down

    Three situations in which durable state and memory part for good: an
    identity file without a [server_identity] row, a commit whose
    acknowledgement is lost, and an acknowledged cursor beyond the range of the
    [BIGINT] column. *)

From S2P Require Export PgRun.
From S2P Require Import Toy HomeProps.

(** ** A row that is never written *)

Section NoRow.
Context `{CryptoLaws} (seed : key) (fresh_sk : SigningKey).
Implicit Types (s : HomeServer) (gs : GroupHost) (db : Db).

Definition unmarked s : Prop := d_server_identity (dirty s) = false.

Lemma attempt_unmarked {A} (m : home A) : preserves unmarked m -> preserves unmarked (attempt m).
Proof. intros Hm s Hs. rewrite post_attempt. exact (Hm s Hs). Qed.

Lemma ingest_unmarked o : preserves unmarked (ingest o).
Proof. unfold ingest, append_inner, authorize_append, burn_if_share, gc_mailbox, wire, journal. walk ltac:(done). Qed.

(** Requests of the servers and the members; the host is not rebound. *)
Definition no_rebind (op : server_op) : bool := match op with SHome (OpRebind _ _) => false | _ => true end.

Lemma sexec_unmarked op s : no_rebind op = true -> unmarked s -> unmarked (sexec op s).
Proof.
  intros Hop Hs. assert (forall A (m : home A), preserves unmarked m -> unmarked (m s).1) as Hp by (intros A m Hm; exact (Hm s Hs)).
  destruct op as [op| | | | | | | | | | |]; cbn [sexec]; [destruct op; cbn [exec]; try done | ..]; apply Hp;
  unfold mint_share_token, register_from_card, rotate_contact, mint_contact_capability, register, register_share_token,
    publish_prekey, fetch_prekey, fetch, ack, ack_upto, observe_binding, ingest_revocation, note_group_membership,
    sweep_dead_tokens_for, sweep_dead_tokens, drop_tokens_exact, record_token_sweep, enqueue_from_owner,
    enqueue, append_inner, authorize_append, burn_if_share, defer_outbound, disable_mailbox, check_owner, gc_owner_nonces, gc_mailbox, require_mailbox,
    pin, refuse, apply_sign_rotate, reset_link, take_frame, accept_frame, handle_ciphertext, set_hello_done,
    remove_matching_outbound, backoff_row, purge_expired, get_peer, put_peer, mark_peer_dirty,
    mark_outbound_dirty, wire, deny, journal;
  walk ltac:(solve [apply ingest_unmarked | apply attempt_unmarked, ingest_unmarked]).
Qed.

Definition rowless_db db : Prop := t_server_identity db = None.

Lemma statement_rowless (f : Db -> Db) :
  (forall db, t_server_identity (f db) = t_server_identity db) -> preserves (E := PersistError) rowless_db (modify f).
Proof. intros Hf. apply preserves_modify. intros db Hdb. unfold rowless_db. by rewrite Hf. Qed.

Ltac rowless :=
  repeat match goal with
  | |- preserves _ (for_each _ _) => apply preserves_for_each; intros ?
  | |- preserves _ (modify _) => apply statement_rowless; intros ?; reflexivity
  | |- preserves _ (_ ≫= _) => apply preserves_bind; [|intros ?]
  | |- preserves _ (when false _) => apply preserves_ret
  | |- preserves _ (when _ _) => apply preserves_when
  | |- preserves _ (if ?c then _ else _) => destruct c
  | |- preserves _ (match ?o with _ => _ end) => destruct o
  | |- preserves _ get => apply preserves_get
  | |- preserves _ (mret _) => apply preserves_ret
  | |- preserves _ (lift _) => apply preserves_lift
  | |- preserves _ (throw _) => apply preserves_throw
  end.

Lemma transaction_rowless s gs hd gd :
  d_server_identity hd = false -> preserves rowless_db (persist_home s hd;; persist_groups gs gd).
Proof.
  intros Hd. unfold persist_home, persist_groups. rewrite Hd.
  unfold upsert_identity, delete_mailbox_all, delete_mailbox_exact, delete_mailbox_acked, insert_mailbox_rows, insert_mailbox_row,
    delete_tokens_owner, delete_token_exact, upsert_token, rewrite_prekeys, rewrite_memberships, upsert_peer, rewrite_outbound,
    rewrite_seen, insert_seen_new, upsert_group, upsert_cred, rewrite_invites, rewrite_pending, insert_stream_new,
    insert_stream_row, upsert_file, insert_membership, insert_seen, insert_invite, insert_pending, references_identity, references_group.
  rowless.
Qed.

Lemma persist_rowless link db s gs :
  rowless_db db -> unmarked s ->
  let st := (persist link (db, s, gs)).1 in rowless_db st.1.1 /\ unmarked st.1.2.
Proof.
  intros Hdb Hs. unfold persist. destruct (is_clean _ && _); [done|]. cbv zeta.
  assert (rowless_db (persist_inner link (s <| dirty := clean_dirty |>) (gs <| gdirty := clean_gdirty |>) (dirty s) (gdirty gs) db).1) as Hin.
  { unfold persist_inner. pose proof (transaction_rowless (s <| dirty := clean_dirty |>) (gs <| gdirty := clean_gdirty |>) (dirty s) (gdirty gs) Hs db Hdb) as Ht.
    unfold post in Ht. destruct ((_ : tx unit) db) as [db' [[]|e]]; [|done]. by destruct link. }
  destruct (persist_inner _ _ _ _ _ _) as [db' [u|e]]; cbn in *; done.
Qed.

(** A start that finds an identity file and no row begins with nothing. *)
Definition blank (s : HomeServer) (gs : GroupHost) : Prop :=
  mailboxes s = ∅ /\ directory s = ∅ /\ tokens s = [] /\ prekeys s = ∅ /\ peers s = ∅ /\ outbound s = [] /\ gs = host_new.

Lemma start_rowless h port db k sk :
  rowless_db db ->
  let file := FileContents (identity_encode k sk) in
  exists s, start seed fresh_sk h port db file = ((db, file), Ok (s, host_new)) /\ blank s host_new /\ unmarked s.
Proof.
  intros Hdb file. unfold start, load_or_init, read_keys, mbind, stM_bind, get, lift, mret, stM_ret. cbn [fst snd file].
  rewrite identity_roundtrip. cbn [map_err fst]. unfold load_keys. rewrite Hdb.
  destruct (from_identity k sk h port) as [s|] eqn:E.
  - cbn [map_err]. unfold from_identity in E. apply result_bind_ok in E as (b & _ & <-%Ok_inj).
    eexists. split; [reflexivity | by split_and!].
  - unfold from_identity in E. pose proof (advertised_ok k sk h port) as Hok. by destruct (advertised _ _ _ _).
Qed.

(** The process has an identity file, no row, and nothing marks the row. *)
Definition rowless (p : proc) : Prop :=
  rowless_db (p_db p) /\ unmarked (p_home p) /\ exists k sk, p_file p = FileContents (identity_encode k sk).

Definition no_rebind_op (op : proc_op) : bool := match op with Request op => no_rebind op | _ => true end.

Lemma pexec_rowless op p : no_rebind_op op = true -> rowless p -> rowless (pexec seed fresh_sk op p).
Proof.
  intros Hop (Hdb & Hs & k & sk & Hf). destruct op as [op|op|link|h port]; cbn [pexec].
  - split; [done|]. split; [by apply sexec_unmarked | by exists k, sk].
  - split; [done|]. split; [done | by exists k, sk].
  - pose proof (persist_rowless link (p_db p) (p_home p) (p_host p) Hdb Hs) as [H1 H2].
    destruct (persist link _) as [[[db s] gs] r]. split; [done|]. split; [done | by exists k, sk].
  - rewrite Hf. destruct (start_rowless h port (p_db p) k sk Hdb) as (s & -> & _ & Hu).
    split; [done|]. split; [done | by exists k, sk].
Qed.

Lemma prun_rowless ops p : forallb no_rebind_op ops = true -> rowless p -> rowless (prun seed fresh_sk ops p).
Proof.
  revert p; induction ops as [|op ops IH]; intros p Hops Hp; [done|]. apply andb_true_iff in Hops as [Hop Hops].
  cbn. apply IH; [done | by apply pexec_rowless].
Qed.

Lemma rebind_host_marks h port s : is_clean (dirty (sexec (SHome (OpRebind h port)) s)) = false.
Proof.
  cbn [sexec exec]. unfold rebind_host, wire, journal, mbind, stM_bind, get, lift, modify.
  pose proof (advertised_ok (hpke s) (sign_key s) h port) as Hok. by destruct (advertised _ _ _ _).
Qed.

(** The first start over a link that breaks before the commit. *)
Lemma first_start_down h port :
  port <= U16_MAX ->
  load_or_init true LinkDown LinkUp h port seed fresh_sk (empty_db, FileMissing)
  = ((empty_db, FileContents (identity_encode (Hpke.generate seed) fresh_sk)), Err (Sqlx ConnectionLost)).
Proof.
  intros Hp. unfold load_or_init, read_keys, mbind, stM_bind, get, lift, mret, stM_ret. cbn [fst snd].
  cbn [load_keys t_server_identity empty_db]. destruct (home_new seed fresh_sk) as [s0|] eqn:E0.
  2: { unfold home_new, from_identity in E0. pose proof (advertised_ok (Hpke.generate seed) fresh_sk (lit "local") 8443) as Hok.
       by destruct (advertised _ _ _ _). }
  cbn [map_err]. set (s1 := sexec (SHome (OpRebind h port)) s0).
  assert (rebind_host h port s0 = (s1, Ok tt)) as ->
    by (unfold s1; cbn [sexec exec]; rewrite <- (rebind_host_ok h port s0); apply surjective_pairing).
  cbn [map_err save_keys modify].
  destruct (sexec_fixed (Hpke.generate seed) fresh_sk (limits s0) (SHome (OpRebind h port)) s0) as (E1 & E2 & _).
  { unfold home_new, from_identity in E0. by apply result_bind_ok in E0 as (b & _ & <-%Ok_inj). }
  fold s1 in E1, E2. rewrite E1, E2. unfold boot_persist. cbn [fst snd].
  assert (sound 1 s1 host_new) as Hs1
    by (apply (sexec_sound 0); [exact Hp | by apply (new_sound (Hpke.generate seed) fresh_sk (lit "local") 8443) | done]).
  destruct (transaction_ok 1 empty_db s1 host_new Hs1 ltac:(done) (new_covered _ _ _ _ h port s0 E0)) as (db & Htx & _).
  assert (is_clean (dirty s1) = false) as Hcl by (unfold s1; by rewrite rebind_host_marks).
  unfold persist. rewrite Hcl. cbn [andb]. rewrite persist_inner_at_rest. unfold persist_inner. rewrite Htx. reflexivity.
Qed.

(** When the database is unreachable at the end of the very first start,
    the identity file is already written and the [server_identity] row is not;
    no later start writes it. Whatever the server then does and saves, every
    further start comes up with no mailbox, no directory entry, no token, no
    peer and no group. *)
Theorem interrupted_first_start_loses_all h port ops :
  port <= U16_MAX -> forallb no_rebind_op ops = true ->
  exists file s0,
    load_or_init true LinkDown LinkUp h port seed fresh_sk (empty_db, FileMissing)
      = ((empty_db, file), Err (Sqlx ConnectionLost))
    /\ start seed fresh_sk h port empty_db file = ((empty_db, file), Ok (s0, host_new))
    /\ let q := prun seed fresh_sk ops (mk_proc empty_db file s0 host_new (s0, host_new)) in
       exists s gs, start seed fresh_sk h port (p_db q) (p_file q) = ((p_db q, p_file q), Ok (s, gs)) /\ blank s gs.
Proof.
  intros Hp Hops. set (k := Hpke.generate seed). set (file := FileContents (identity_encode k fresh_sk)).
  destruct (start_rowless h port empty_db k fresh_sk eq_refl) as (s0 & Hst & _ & Hu). fold file in Hst.
  exists file, s0. split; [by apply first_start_down|]. split; [done|]. intros q.
  assert (rowless q) as (Hdb & _ & k' & sk' & Hf).
  { apply prun_rowless; [done|]. split; [done|]. split; [done | by exists k, fresh_sk]. }
  rewrite Hf. destruct (start_rowless h port (p_db q) k' sk' Hdb) as (s & Hs & Hb & _). by exists s, host_new.
Qed.
End NoRow.

(** ** A cursor beyond the column *)

Section Cursor.
Context `{Crypto}.

Lemma as_i64_big u : 2 ^ 63 <= u <= U64_MAX -> (as_i64 u < 0)%Z.
Proof.
  unfold U64_MAX. intros Hu. unfold as_i64. rewrite Z.mod_small by lia. case_cond; [|lia]. apply Z.ltb_lt in G. lia.
Qed.

Lemma filter_all_out {A} (f : A -> bool) l : (forall x, In x l -> f x = false) -> List.filter f l = [].
Proof. induction l as [|x l IH]; intros Hl; cbn; [done|]. rewrite Hl by by left. apply IH. intros y Hy. apply Hl. by right. Qed.

(** The [DELETE] of an acknowledged cursor of 2^63 or more deletes nothing. *)
Lemma delete_acked_nothing db (o : key) u :
  keys_ok db -> 2 ^ 63 <= u <= U64_MAX -> delete_mailbox_acked o u db = (db, Ok tt).
Proof.
  intros Hk Hu%as_i64_big. unfold delete_mailbox_acked, modify. cbn. f_equal.
  enough (filter (fun kv : bytes * Z * MailboxCols => ~ (kv.1.1 = to_vec o /\ (kv.1.2 <= as_i64 u)%Z)) (t_mailbox_rows db)
    = t_mailbox_rows db) as Heq.
  { transitivity (db <| t_mailbox_rows := t_mailbox_rows db |>); [|by destruct db].
    rewrite <- Heq. done. }
  apply map_filter_id. intros [k z] c Hc [_ Hle]. destruct (ok_mail _ Hk k z) as (o' & q & _ & -> & Hq); [eauto|]. cbn in Hle.
  rewrite as_i64_small in Hle by done. lia.
Qed.

(** An owner who acknowledges with a cursor of 2^63 or more empties the
    mailbox in memory, but the [DELETE] that [persist] derives from the journal
    compares with a negative number and removes no row: the acknowledged
    envelopes come back with the next start. *)
Theorem huge_cursor_keeps_rows n s owner auth nw db :
  home_inv n s -> n + 1 < 2 ^ 63 -> 2 ^ 63 <= cursor auth <= U64_MAX -> keys_ok db ->
  (ack owner auth nw s).2 = Ok tt ->
  (exists box1, mailboxes (ack owner auth nw s).1 !! owner = Some box1 /\ rows box1 = [])
  /\ delete_mailbox_acked owner (cursor auth) db = (db, Ok tt).
Proof.
  intros Hi Hn Hc Hk Hok. split; [|by apply delete_acked_nothing].
  destruct (ack_post s owner auth nw Hok) as (box & Hb & Hm & _). destruct (inv_boxes _ _ Hi _ _ Hb) as (Hwf & Hnext & _).
  eexists. split; [by rewrite Hm, lookup_insert_eq|]. destruct (fold_ack_row (List.filter (fun k => k <=? cursor auth) (bt_keys (rows box))) box Hwf) as (_ & -> & _).
  apply filter_all_out. intros [k r] Hin. destruct (wf_rows _ Hwf _ _ Hin) as (_ & Hlt & _).
  apply negb_false_iff, bool_decide_eq_true. apply list_elem_of_In, filter_In. cbn. split; [|apply N.leb_le; lia].
  apply in_map_iff. by exists (k, r).
Qed.
End Cursor.

(** ** A commit whose acknowledgement is lost *)

Section LostAck.
Context `{Crypto}.
Implicit Types (s : HomeServer) (gs : GroupHost) (db : Db).

Definition fails {A} (m : tx A) db : Prop := post m db (fun r _ => exists e, r = Err e).

Lemma bind_fails {A B} (I : Db -> Prop) (m : tx A) (k : A -> tx B) db :
  preserves I m -> I db -> (forall a db1, I db1 -> fails (k a) db1) -> fails (m ≫= k) db.
Proof.
  intros Hm Hdb Hk. unfold fails. rewrite post_bind. eapply post_conseq; [by apply Hm|].
  intros [a|e] db1 Hi; [by apply Hk | eauto].
Qed.

Lemma bind_fails_first {A B} (m : tx A) (k : A -> tx B) db : fails m db -> fails (m ≫= k) db.
Proof. unfold fails. rewrite post_bind. intros Hm. eapply post_conseq; [exact Hm|]. intros r db1 (e & ->). eauto. Qed.

Lemma for_each_keeps {A} (I : Db -> Prop) (xs : list A) (body : A -> tx unit) :
  (forall x, x ∈ xs -> preserves I (body x)) -> preserves I (for_each xs body).
Proof.
  induction xs as [|x xs IH]; intros Hb; cbn; [by intros db Hi|].
  apply preserves_bind; [apply Hb; set_solver | intros _; apply IH; set_solver].
Qed.

(** The row is in the table. *)
Definition present (o : key) (q : N) db : Prop := is_Some (t_mailbox_rows db !! (to_vec o, as_i64 q)).

Lemma statement_present o q (f : Db -> Db) :
  (forall db, present o q db -> present o q (f db)) -> preserves (E := PersistError) (present o q) (modify f).
Proof. apply preserves_modify. Qed.

Lemma insert_present o q owner sq cols : preserves (present o q) (insert_mailbox_row owner sq cols).
Proof.
  intros db Hp. unfold insert_mailbox_row, references_identity. wp. destruct (ensure _ _) as [[]|]; wp; [|done].
  unfold insert_key. destruct (t_mailbox_rows db !! (owner, sq)) eqn:E; wp; [done|]. destruct (ensure _ _) as [[]|]; wp; [|done].
  unfold present. cbn. apply lookup_insert_is_Some'. by right.
Qed.

Lemma insert_again_fails o q cols db : present o q db -> fails (insert_mailbox_row (to_vec o) (as_i64 q) cols) db.
Proof.
  intros [c Hc]. unfold fails, insert_mailbox_row. wp. destruct (ensure _ _) as [[]|]; wp; [|eauto].
  unfold insert_key. rewrite Hc. wp. eauto.
Qed.

Lemma inserts_fail o q cols vals db :
  (to_vec o, as_i64 q, cols) ∈ vals -> present o q db ->
  fails (for_each vals (fun '(owner, sq, cols) => insert_mailbox_row owner sq cols)) db.
Proof.
  revert db; induction vals as [|[[ow sq] c] vals IH]; intros db Hin Hp; [set_solver|]. cbn.
  apply elem_of_cons in Hin as [[= <- <- <-]|Hin].
  - apply bind_fails_first. by apply insert_again_fails.
  - apply (bind_fails (present o q)); [apply insert_present | done |]. intros _ db1 Hp1. by apply IH.
Qed.

(** A transaction that inserts a row that is there fails. *)
Lemma transaction_fails s gs gd db o q :
  rows_sound s -> (forall o q, (o, q) ∈ d_mailbox_dropped (dirty s) -> q < 2 ^ 63) -> (o, q) ∈ d_mailbox_new (dirty s) -> is_Some (live_row s o q) -> row_gone (dirty s) o q = false ->
  present o q db -> fails (persist_home s (dirty s);; persist_groups gs gd) db.
Proof.
  intros Hrs Hold Hnew [r Hr] Hgone Hp. unfold row_gone in Hgone. rewrite !orb_false_iff, !bool_decide_eq_false in Hgone.
  destruct Hgone as [[Hcl Hdr] Hack]. apply bind_fails_first. unfold persist_home.
  apply (bind_fails (present o q)); [|done|]; [destruct (d_server_identity _); [by apply statement_present | by apply preserves_ret]|].
  intros _ db1 Hp1. apply (bind_fails (present o q)); [|done|]; [by apply for_each_keeps; intros; apply statement_present|].
  intros _ db2 Hp2. apply (bind_fails (present o q)); [|done|].
  { apply for_each_keeps. intros ow How%elem_of_elements. apply statement_present. intros db' [c Hc]. exists c. cbn.
    apply map_lookup_filter_Some. split; [done|]. cbn. intros Heq%arr_eq. by subst. }
  intros _ db3 Hp3. apply (bind_fails (present o q)); [|done|].
  { apply for_each_keeps. intros [ow sq] Hin. apply statement_present. intros db' [c Hc]. exists c. cbn.
    apply lookup_delete_Some. split; [|done]. intros [= Ho%arr_eq Hq]. subst ow. destruct (Hrs _ _ _ Hr) as (_ & Hlt & _).
    apply as_i64_inj in Hq; [|by eapply Hold | done]. by subst. }
  intros _ db4 Hp4. apply (bind_fails (present o q)); [|done|].
  { apply for_each_keeps. intros [ow u] Hin%elem_of_map_to_list. apply statement_present. intros db' [c Hc]. exists c. cbn.
    apply map_lookup_filter_Some. split; [done|]. cbn. intros [Heq%arr_eq Hle]. subst ow. rewrite Hin in Hack.
    apply Z.leb_gt in Hack. lia. }
  intros _ db5 Hp5. apply bind_fails_first. unfold insert_mailbox_rows.
  rewrite mailbox_values_ok by done. destruct (Hrs _ _ _ Hr) as (_ & _ & [cols Hcols]).
  apply (inserts_fail o q cols); [|exact Hp5]. apply list_elem_of_omap. exists (o, q). split; [done|].
  unfold mail_val. cbn. rewrite Hr. cbn. by rewrite Hcols.
Qed.

(** C40. When the connection breaks after the database has committed but before
    the answer arrives, [persist] merges the journal back although the tables
    already have its rows: every retry then fails on the primary key of the new
    mailbox rows, with the journal and the tables unchanged. *)
Theorem lost_acknowledgement_blocks_saves n db s gs o q :
  sound n s gs -> n + 1 < 2 ^ 63 -> journaled db s gs ->
  (o, q) ∈ d_mailbox_new (dirty s) -> is_Some (live_row s o q) -> row_gone (dirty s) o q = false ->
  exists db', persist AckLost (db, s, gs) = ((db', s, gs), Err (Sqlx ConnectionLost))
    /\ durable db' s gs
    /\ forall link, exists e, persist link (db', s, gs) = ((db', s, gs), Err e).
Proof.
  intros Hs Hn Hj Hnew Hlive Hgone. destruct (transaction_ok n db s gs Hs Hn Hj) as (db' & Htx & Hd).
  assert (is_clean (dirty s) = false) as Hcl.
  { destruct (is_clean (dirty s)) eqn:E; [|done]. apply is_clean_eq in E. rewrite E in Hnew. set_solver. }
  assert (forall D, (D, s <| dirty := clean_dirty |> <| dirty ::= fun d => absorb d (dirty s) |>,
    gs <| gdirty := clean_gdirty |> <| gdirty ::= fun d => g_absorb d (gdirty gs) |>) = (D : Db, s, gs)) as Hback.
  { intros D. f_equal; [f_equal|].
    - apply (dirty_same s (absorb clean_dirty (dirty s))), absorb_clean.
    - apply (gdirty_same gs (g_absorb clean_gdirty (gdirty gs))), g_absorb_clean. }
  exists db'. split_and!; [|done|].
  - unfold persist. rewrite Hcl. cbn [andb]. rewrite persist_inner_at_rest. unfold persist_inner. rewrite Htx. by rewrite Hback.
  - intros link. assert (fails (persist_home s (dirty s);; persist_groups gs (gdirty gs)) db') as Hf.
    { apply (transaction_fails s gs (gdirty gs) db' o q); [apply Hd | | done | done | done |].
      - intros o' q' Hin. destruct (mail_dropped_old _ _ (cover_mail _ _ (jo_home _ _ _ Hj)) _ _ Hin) as (box & Hb & Hq').
        destruct (inv_boxes _ _ (so_inv _ _ _ Hs) _ _ Hb) as (_ & ? & _). lia.
      - unfold present. destruct Hlive as [r Hr]. destruct (tidy_rows _ (du_tidy _ _ _ Hd) _ _ _ Hr) as (_ & Hq & [c Hc]).
        pose proof (sync_mail _ _ (du_home _ _ _ Hd) o q Hq) as Hm. unfold mail_key in Hm. cbn in Hm. rewrite Hm.
        unfold mail_val. cbn. rewrite Hr. cbn. destruct (mailbox_cols r); [by eexists | done]. }
    unfold fails, post in Hf. unfold persist. rewrite Hcl. cbn [andb]. rewrite persist_inner_at_rest. unfold persist_inner.
    destruct ((persist_home s (dirty s);; persist_groups gs (gdirty gs)) db') as [db2 r2]. cbn in Hf. destruct Hf as (e & ->).
    exists e. by rewrite Hback.
Qed.
End LostAck.

(** ** Witnesses *)

Section Witnesses.
#[local] Existing Instances Toy.toy Toy.toy_laws.

Definition gap_owner : key := arr_repeat 32 x41.

Example interrupted_first_start_loses_all_witness :
  exists file s0 s gs,
    start gap_owner sample_server_sk (lit "local") 8443 empty_db file = ((empty_db, file), Ok (s0, host_new))
    /\ let q := prun gap_owner sample_server_sk [Request (SHome (OpRegister gap_owner gap_owner)); Save LinkUp]
                  (mk_proc empty_db file s0 host_new (s0, host_new)) in
       start gap_owner sample_server_sk (lit "local") 8443 (p_db q) (p_file q) = ((p_db q, p_file q), Ok (s, gs))
       /\ blank s gs.
Proof.
  destruct (interrupted_first_start_loses_all gap_owner sample_server_sk (lit "local") 8443
    [Request (SHome (OpRegister gap_owner gap_owner)); Save LinkUp] ltac:(vm_compute; discriminate) ltac:(reflexivity))
    as (file & s0 & _ & H1 & s & gs & H2 & H3).
  exists file, s0, s, gs. exact (conj H1 (conj H2 H3)).
Defined.

(** An envelope as the wire delivers it. *)
Definition gap_inner : InnerEnvelope :=
  match encode_padded sample_inner ≫= decode_padded with Ok e => e | Err _ => sample_inner end.

Lemma gap_inner_wire : wire_inner gap_inner.
Proof.
  assert (is_ok (encode_padded sample_inner ≫= decode_padded) = true) as Hok by (vm_compute; reflexivity).
  unfold gap_inner. destruct (encode_padded sample_inner) as [l|] eqn:El; cbn [mbind result_bind] in *; [|done].
  destruct (decode_padded l) as [e|] eqn:Ed; [|done]. by exists l.
Qed.

Definition gap_ops : list server_op :=
  [SHome (OpRebind (lit "local") 8443); SHome (OpRegister gap_owner gap_owner);
   SHome (OpContact gap_owner (arr_repeat 32 x44)); SHome (OpAppend gap_inner)].

(** A new server that has one envelope to write. *)
Definition gap_home : HomeServer := foldl (fun s op => sexec op s) sample_home gap_ops.

Lemma run_sound ops n s :
  sound n s host_new -> n + lenN ops < U64_MAX -> Forall op_typed ops ->
  sound (n + lenN ops) (foldl (fun s op => sexec op s) s ops) host_new.
Proof.
  revert n s. induction ops as [|op ops IH]; intros n s Hs Hn Hty; [by rewrite N.add_0_r|]. apply Forall_cons in Hty as [Hop Hty].
  rewrite lenN_cons in *. replace (n + (1 + lenN ops)) with (n + 1 + lenN ops) by lia. cbn.
  apply IH; [apply sexec_sound; [done | done | lia] | lia | done].
Qed.

Lemma sample_sound : sound 0 sample_home host_new.
Proof. apply (new_sound sample_keys sample_server_sk (lit "local") 8443); [vm_compute; discriminate | apply sample_home_ok]. Qed.

Lemma gap_sound : sound 4 gap_home host_new.
Proof.
  apply (run_sound gap_ops 0 sample_home sample_sound); [vm_compute; reflexivity|].
  repeat constructor; [vm_compute; discriminate | apply gap_inner_wire].
Qed.

Lemma gap_journaled : journaled empty_db gap_home host_new.
Proof.
  pose proof (new_covered sample_keys sample_server_sk (lit "local") 8443 (lit "local") 8443 sample_home sample_home_ok) as [J1 J2 J3].
  split; [|done|done]. unfold gap_home, gap_ops. cbn [foldl].
  set (s1 := sexec (SHome (OpRebind (lit "local") 8443)) sample_home) in *.
  assert (home_inv 1 s1) as H1 by (apply (sexec_inv 0); [exact (fresh_inv _ _ _ _ _ sample_home_ok) | done]).
  assert (home_inv 2 (sexec (SHome (OpRegister gap_owner gap_owner)) s1)) as H2 by by apply (sexec_inv 1).
  set (s2 := sexec _ s1) in *.
  assert (home_inv 3 (sexec (SHome (OpContact gap_owner (arr_repeat 32 x44))) s2)) as H3 by by apply (sexec_inv 2).
  assert (tokens s2 = []) as Htok by (vm_compute; reflexivity).
  assert (home_covered empty_db s2) as C2.
  { apply (sexec_covers empty_db 1 (SHome (OpRegister gap_owner gap_owner)) s1 H1 ltac:(reflexivity)); [|exact J1].
    split; [discriminate | exact I]. }
  set (s3 := sexec _ s2) in *.
  assert (home_covered empty_db s3) as C3.
  { apply (sexec_covers empty_db 2 (SHome (OpContact gap_owner (arr_repeat 32 x44))) s2 H2 ltac:(reflexivity)); [|exact C2].
    split; [|exact I]. intros tok _. rewrite Htok. apply not_elem_of_nil. }
  apply (sexec_covers empty_db 3 (SHome (OpAppend gap_inner)) s3 H3 ltac:(reflexivity)); [|exact C3].
  split; [discriminate | exact I].
Qed.

Example lost_acknowledgement_blocks_saves_witness :
  exists db', persist AckLost (empty_db, gap_home, host_new) = ((db', gap_home, host_new), Err (Sqlx ConnectionLost))
    /\ exists e, persist LinkUp (db', gap_home, host_new) = ((db', gap_home, host_new), Err e).
Proof.
  destruct (lost_acknowledgement_blocks_saves 4 empty_db gap_home host_new gap_owner 1 gap_sound ltac:(done) gap_journaled)
    as (db' & H1 & _ & H2).
  - apply (bool_decide_eq_true_1 _). vm_compute. reflexivity.
  - apply (bool_decide_eq_true_1 _). vm_compute. reflexivity.
  - vm_compute. reflexivity.
  - exists db'. exact (conj H1 (H2 LinkUp)).
Defined.

Definition gap_ack : MailboxOwnerAuth := sample_request (lit "/v1/mailbox/ack") (2 ^ 63) 1 x73.

Example huge_cursor_keeps_rows_witness :
  exists box1, mailboxes (ack sample_id gap_ack 1700000000 sample_delivered).1 !! sample_id = Some box1 /\ rows box1 = [].
Proof.
  destruct (huge_cursor_keeps_rows 2 sample_delivered sample_id gap_ack 1700000000 empty_db) as [Hb _].
  - apply reachable_inv; [exact sample_delivered_reach | reflexivity].
  - reflexivity.
  - split; vm_compute; discriminate.
  - exact (jo_keys _ _ _ gap_journaled).
  - vm_compute. reflexivity.
  - exact Hb.
Defined.
End Witnesses.
