(* ===== verification/Turn.v ===== *)
(** * TURN credentials

    [turn.rs]: time-limited credentials for the relay, an expiry and a nonce as
    user name and its HMAC as password. The MAC, the base64 alphabet, the clock,
    the random nonce and the environment are arguments. *)

From S2P Require Export Ids.

(** [ring::hmac] with SHA-1 (key, then message) and base64's [STANDARD]. *)
Class TurnLib := {
  hmac_sha1 : bytes -> bytes -> bytes;
  b64_standard : bytes -> rstring
}.

(** ** Decimal numerals, the [Display] of [u64] *)

Definition dec_digit (n : N) : byte := byte_of_N (48 + n mod 10).

Fixpoint dec_bytes (fuel : nat) (n : N) : bytes :=
  match fuel with
  | O => [dec_digit n]
  | S fuel => (if n <? 10 then [] else dec_bytes fuel (n / 10)) ++ [dec_digit n]
  end.

(** [u64::MAX] has twenty digits. *)
Definition DEC_FUEL : nat := 20.

Lemma dec_digit_ascii n : byte_le (dec_digit n) x7f = true.
Proof.
  unfold dec_digit. assert (n mod 10 < 10) as Hn by (apply N.mod_lt; lia). revert Hn. generalize (n mod 10). intros m Hm.
  assert (m = 0 \/ m = 1 \/ m = 2 \/ m = 3 \/ m = 4 \/ m = 5 \/ m = 6 \/ m = 7 \/ m = 8 \/ m = 9) as Hc by lia.
  by destruct_or! Hc; subst m.
Qed.

Lemma dec_bytes_ascii fuel n : is_ascii (dec_bytes fuel n) = true.
Proof.
  unfold is_ascii. revert n. induction fuel as [|fuel IH]; intros n; cbn [dec_bytes].
  - cbn [forallb]. by rewrite dec_digit_ascii.
  - rewrite forallb_app. cbn [forallb]. rewrite dec_digit_ascii. case_cond; [done|]. by rewrite IH.
Qed.

Definition dec_string (n : N) : rstring :=
  exist _ (dec_bytes DEC_FUEL n) (utf8_ascii _ (dec_bytes_ascii DEC_FUEL n)).

(** ** Credentials *)

Definition TURN_TTL_SECS : N := 3600.

Record TurnCred : Type := mk_turn {
  turn_url : rstring;
  turn_username : rstring;
  turn_credential : rstring;
  turn_ttl_secs : N
}.

(** What [issue] takes from its surroundings: the clock, sixteen random bytes,
    [NEMO_TURN_URL], [NEMO_TURN_SECRET] and the secret drawn once per process
    when the variable is missing. *)
Record TurnEnv : Type := mk_turn_env {
  env_now : N;
  env_nonce : arr 16;
  env_url : option rstring;
  env_secret : option rstring;
  env_drawn : key
}.

Section Turn.
Context `{TurnLib}.

Definition turn_secret (env : TurnEnv) : bytes :=
  match env_secret env with
  | Some s => if bool_decide (as_bytes s = []) then to_vec (env_drawn env) else as_bytes s
  | None => to_vec (env_drawn env)
  end.

Definition issue (env : TurnEnv) : TurnCred :=
  let expiry := saturating_add (env_now env) TURN_TTL_SECS in
  let username := str_cat (dec_string expiry) (str_cat (lit ":") (to_hex (to_vec (env_nonce env)))) in
  let tag := hmac_sha1 (turn_secret env) (as_bytes username) in
  mk_turn (default (lit "turn:127.0.0.1:3478") (env_url env)) username (b64_standard tag) TURN_TTL_SECS.
End Turn.

(** ** What a relay reads back *)

(** The numeral before the first colon, as the relay parses the user name. *)
Fixpoint dec_value (acc : N) (l : bytes) : N :=
  match l with
  | [] => acc
  | b :: l => dec_value (10 * acc + (Byte.to_N b - 48)) l
  end.

Fixpoint before_colon (l : bytes) : bytes :=
  match l with
  | [] => []
  | b :: l => if bool_decide (b = x3a) then [] else b :: before_colon l
  end.

Lemma dec_digit_range n : 48 <= Byte.to_N (dec_digit n) <= 57 /\ Byte.to_N (dec_digit n) - 48 = n mod 10.
Proof.
  unfold dec_digit. assert (n mod 10 < 10) as Hn by (apply N.mod_lt; lia). rewrite to_N_byte_of_N by lia. lia.
Qed.

Lemma dec_value_app acc l k : dec_value acc (l ++ k) = dec_value (dec_value acc l) k.
Proof. revert acc. induction l as [|b l IH]; intros acc; cbn; [done | by rewrite IH]. Qed.

Lemma dec_value_bytes fuel n : n < 10 ^ N.of_nat (S fuel) -> dec_value 0 (dec_bytes fuel n) = n.
Proof.
  revert n. induction fuel as [|fuel IH]; intros n Hn; cbn [dec_bytes].
  - cbn [dec_value]. destruct (dec_digit_range n) as [_ ->]. apply N.mod_small. by cbn in Hn.
  - rewrite dec_value_app. cbn [dec_value]. destruct (dec_digit_range n) as [_ ->].
    destruct (n <? 10) eqn:E.
    + apply N.ltb_lt in E. cbn [dec_value]. by rewrite N.mod_small.
    + rewrite IH; [rewrite N.add_comm, N.add_comm, <- N.div_mod by done; done|].
      apply N.Div0.div_lt_upper_bound. by rewrite <- N.pow_succ_r', <- Nnat.Nat2N.inj_succ.
Qed.

Lemma dec_bytes_digits fuel n : Forall (fun b => 48 <= Byte.to_N b <= 57) (dec_bytes fuel n).
Proof.
  revert n. induction fuel as [|fuel IH]; intros n; cbn [dec_bytes].
  - apply Forall_singleton, dec_digit_range.
  - apply Forall_app. split; [|apply Forall_singleton, dec_digit_range]. by case_cond.
Qed.

Lemma before_colon_dec fuel n l : before_colon (dec_bytes fuel n ++ x3a :: l) = dec_bytes fuel n.
Proof.
  pose proof (dec_bytes_digits fuel n) as Hd. induction Hd as [|b k Hb _ IH]; cbn; [done|].
  rewrite bool_decide_eq_false_2; [by rewrite IH|]. intros ->. by destruct Hb as [_ []].
Qed.

(** The relay reads the expiry the server meant, and recomputes the password
    from the user name and the shared secret. *)
Theorem turn_credential_checks `{TurnLib} (env : TurnEnv) :
  env_now env <= U64_MAX ->
  let cred := issue env in
  dec_value 0 (before_colon (as_bytes (turn_username cred))) = N.min (env_now env + TURN_TTL_SECS) U64_MAX
  /\ turn_credential cred = b64_standard (hmac_sha1 (turn_secret env) (as_bytes (turn_username cred))).
Proof.
  intros _. split; [|done]. cbn [issue turn_username].
  change (as_bytes (str_cat ?a (str_cat ?b ?c))) with (as_bytes a ++ as_bytes b ++ as_bytes c).
  change (as_bytes (lit ":")) with [x3a]. cbn [app].
  change (as_bytes (dec_string ?n)) with (dec_bytes DEC_FUEL n).
  rewrite before_colon_dec. apply dec_value_bytes. unfold saturating_add.
  assert (U64_MAX < 10 ^ N.of_nat (S DEC_FUEL)) by (vm_compute; reflexivity). lia.
Qed.
