(* ===== verification/Http.v ===== *)
(** * The HTTP interface

    [http.rs]: the routes, the two middleware layers and one handler per
    endpoint, over the home server and the group host. A handler takes the
    mutexes one after the other, so it is a program of locked sections; other
    requests run between two sections of the same request. *)

From S2P Require Export Turn S2s Group PgLoad.

(** ** Requests and responses *)

(** The methods the routes answer. *)
Inductive Method : Type := GET | POST.

#[global] Instance method_eq_decision : EqDecision Method.
Proof. solve_decision. Defined.

(** A request as axum hands it over: the segments of the path, the headers with
    lower-case names, the body, and the outcome of the [WebSocketUpgrade]
    extractor, a refusal with its status or an upgrade. *)
Record HttpRequest : Type := mk_request {
  req_method : Method;
  req_path : list rstring;
  req_headers : list (rstring * bytes);
  req_body : bytes;
  req_ws : result N unit
}.

(** Status, [content-type], the signature header and the body. *)
Record HttpResponse : Type := mk_response {
  res_status : N;
  res_type : option rstring;
  res_sig : option rstring;
  res_body : bytes
}.

Definition SWITCHING_PROTOCOLS : N := 101.
Definition HTTP_OK : N := 200.
Definition NO_CONTENT : N := 204.
Definition BAD_REQUEST : N := 400.
Definition UNAUTHORIZED : N := 401.
Definition FORBIDDEN : N := 403.
Definition NOT_FOUND : N := 404.
Definition METHOD_NOT_ALLOWED : N := 405.
Definition CONFLICT : N := 409.
Definition PAYLOAD_TOO_LARGE : N := 413.
Definition INTERNAL_SERVER_ERROR : N := 500.

(** [StatusCode::into_response]. *)
Definition status (code : N) : HttpResponse := mk_response code None None [].

(** [StatusCode::is_success]. *)
Definition is_success (r : HttpResponse) : bool := (200 <=? res_status r) && (res_status r <? 300).

Definition BODY_LIMIT : N := 18000000.
Definition WAKE_COALESCE : N := 10.

Definition RESPONSE_NONCE_HEADER : rstring := lit "nemo-nonce".
Definition RESPONSE_SIG_HEADER : rstring := lit "nemo-server-sig".

Definition denied : N := FORBIDDEN.

(** [map_err]. *)
Definition error_status (err : ServerError) : N :=
  match err with
  | AlreadyRegistered => CONFLICT
  | OwnerAuth => UNAUTHORIZED
  | FetchLimit => BAD_REQUEST
  | Wire _ => BAD_REQUEST
  | _ => denied
  end.

Definition cbor_ok (l : bytes) : HttpResponse := mk_response HTTP_OK (Some (lit "application/cbor")) None l.
Definition octets (l : bytes) : HttpResponse := mk_response HTTP_OK (Some (lit "application/octet-stream")) None l.

(** ** The web framework *)

(** Patterns of axum's routes: fixed segments and captures. *)
Inductive Segment : Type := Static (s : rstring) | Param.

(** What the code uses of axum: whether a pattern matches the segments of a path
    and with which captures, and [HeaderValue::to_str]. *)
Class Axum := {
  match_path : list Segment -> list rstring -> option (list rstring);
  to_str : bytes -> option rstring
}.

(** The documented matching, segment by segment, and the documented conversion,
    which accepts visible ASCII. *)
Fixpoint fit_path (pattern : list Segment) (path : list rstring) : option (list rstring) :=
  match pattern, path with
  | [], [] => Some []
  | Static s :: pattern, seg :: path => if bool_decide (s = seg) then fit_path pattern path else None
  | Param :: pattern, seg :: path => params ← fit_path pattern path; Some (seg :: params)
  | _, _ => None
  end.

Definition visible_str (v : bytes) : option rstring :=
  if forallb (fun b => ((32 <=? Byte.to_N b) && (Byte.to_N b <? 127)) || (Byte.to_N b =? 9)) v
  then from_utf8 v else None.

Class AxumLaws `{Axum} := {
  match_path_fit pattern path : match_path pattern path = fit_path pattern path;
  to_str_visible v : to_str v = visible_str v
}.

(** ** Reading requests *)

Section Headers.
Context `{Axum}.

(** [HeaderMap::get] with [to_str]. *)
Definition header_str (headers : list (rstring * bytes)) (name : rstring) : option rstring :=
  match List.find (fun kv => bool_decide (kv.1 = name)) headers with
  | Some kv => to_str kv.2
  | None => None
  end.

Definition parse_key_hex (s : rstring) : option key :=
  l ← ok (from_hex s); ok (copy_fixed 32 l).

Definition parse_group_id (id : rstring) : option GroupId := mk_group_id <$> parse_key_hex id.

Definition header_token (headers : list (rstring * bytes)) (name : rstring) : option key :=
  raw ← header_str headers name; parse_key_hex raw.

Definition header_cred (headers : list (rstring * bytes)) : option MemberCred :=
  cid ← header_token headers (lit "nemo-cred-id");
  secret ← header_token headers (lit "nemo-cred-secret");
  Some (mk_cred cid secret).

End Headers.

Definition body_map (l : bytes) : option (list (N * Value)) :=
  match Cbor.decode l with Ok (Map m) => Some m | _ => None end.

Definition read_key (m : list (N * Value)) (k : N) : sresult key :=
  map_err Wire (v ← map_get m k; l ← expect_bytes v; copy_fixed 32 l).

Definition read_uint (m : list (N * Value)) (k : N) : sresult N :=
  map_err Wire (v ← map_get m k; expect_uint v).

Definition read_bytes (m : list (N * Value)) (k : N) : sresult bytes :=
  map_err Wire (v ← map_get m k; expect_bytes v).

Definition read_cred (m : list (N * Value)) : sresult MemberCred :=
  cid ← read_key m 0;
  secret ← read_key m 1;
  Ok (mk_cred cid secret).

(** ** What a request draws from its surroundings *)

(** Readings of the clock for [home.now], for [check_owner] and for [host.now],
    random values, the draws of the [i]-th fan-out of the request as [fan i], and
    the surroundings of [turn::issue]. *)
Record Draws : Type := mk_draws {
  t_home : N;
  t_owner : N;
  t_host : N;
  rnd : nat -> key;
  fan : nat -> nat -> key * key;
  turn_env : TurnEnv
}.

Section Http.
Context `{Crypto} `{TurnLib} `{Axum}.

Definition owner_id (auth : MailboxOwnerAuth) : option key := ok (copy_fixed 32 (mailbox_hint auth)).

Definition header_owner (headers : list (rstring * bytes)) : option MailboxOwnerAuth :=
  raw ← header_str headers (lit "nemo-owner");
  l ← ok (from_hex raw);
  ok (auth_decode l).

Definition require_owner (headers : list (rstring * bytes)) : result N (key * MailboxOwnerAuth) :=
  auth ← ok_or (header_owner headers) UNAUTHORIZED;
  owner ← ok_or (owner_id auth) BAD_REQUEST;
  Ok (owner, auth).

Definition fanout_ok (s : HomeServer) (cap hpke : key) : bool :=
  match capability_mailbox s cap with
  | Some _ => bool_decide (hpke = hpke_public s)
  | None => negb (bool_decide (hpke = hpke_public s)) && fanout_hpke_allowed s hpke
  end.

(** ** Handlers as programs of locked sections *)

(** [AtHome] and [AtHost] hold one mutex for the section and change what it
    guards, [ReadHome] and [ReadHost] only read it, [AtBoth] takes the home mutex
    and then also the group mutex; [Wake] notifies the waiting connections;
    [Persist] is [AppState::persist], which holds both mutexes. *)
Inductive prog (A : Type) : Type :=
| Done (a : A)
| ReadHome (X : Type) (f : HomeServer -> X) (k : X -> prog A)
| ReadHost (X : Type) (f : GroupHost -> X) (k : X -> prog A)
| AtHome (X : Type) (m : HomeServer -> HomeServer * X) (k : X -> prog A)
| AtHost (X : Type) (m : GroupHost -> GroupHost * X) (k : X -> prog A)
| AtBoth (X : Type) (m : HomeServer * GroupHost -> HomeServer * GroupHost * X) (k : X -> prog A)
| Wake (k : prog A)
| Persist (k : prog A).
Arguments Done {A} _.
Arguments ReadHome {A X} _ _.
Arguments ReadHost {A X} _ _.
Arguments AtHome {A X} _ _.
Arguments AtHost {A X} _ _.
Arguments AtBoth {A X} _ _.
Arguments Wake {A} _.
Arguments Persist {A} _.

Fixpoint prog_bind {A B} (f : A -> prog B) (p : prog A) : prog B :=
  match p with
  | Done a => f a
  | ReadHome g k => ReadHome g (fun x => prog_bind f (k x))
  | ReadHost g k => ReadHost g (fun x => prog_bind f (k x))
  | AtHome m k => AtHome m (fun x => prog_bind f (k x))
  | AtHost m k => AtHost m (fun x => prog_bind f (k x))
  | AtBoth m k => AtBoth m (fun x => prog_bind f (k x))
  | Wake k => Wake (prog_bind f k)
  | Persist k => Persist (prog_bind f k)
  end.

(** Handlers return early with a response. *)
Definition http (A : Type) : Type := prog (result HttpResponse A).

#[global] Instance http_ret : MRet http := fun A a => Done (Ok a).
#[global] Instance http_bind : MBind http := fun A B f m =>
  prog_bind (fun r => match r with Ok a => f a | Err e => Done (Err e) end) m.

Definition respond (p : http HttpResponse) : prog HttpResponse :=
  prog_bind (fun r => match r with Ok res | Err res => Done res end) p.

(** [let Ok(x) = r else { return BAD_REQUEST }], and the same for options with
    the given status. *)
Definition decoded {E A} (r : result E A) : http A := Done (map_err (fun _ => status BAD_REQUEST) r).
Definition some_or {A} (code : N) (o : option A) : http A := Done (ok_or o (status code)).
Definition status_or {A} (r : result N A) : http A := Done (map_err status r).
Definition return_if (c : bool) (code : N) : http unit := Done (if c then Err (status code) else Ok tt).

Definition lock_home {A} (m : stM HomeServer HttpResponse A) : http A := AtHome m Done.
Definition lock_host {A} (m : stM GroupHost HttpResponse A) : http A := AtHost m Done.
Definition read_home {A} (f : HomeServer -> result HttpResponse A) : http A := ReadHome f Done.
Definition read_host {A} (f : GroupHost -> result HttpResponse A) : http A := ReadHost f Done.

(** A method call whose error becomes the response. *)
Definition call {S A} (f : ServerError -> N) (m : stM S ServerError A) : stM S HttpResponse A :=
  fun s => let '(s', r) := m s in (s', map_err (fun e => status (f e)) r).

Definition set_now (t : N) : stM HomeServer HttpResponse unit := modify (fun s => s <| now := t |>).
Definition set_gh_now (t : N) : stM GroupHost HttpResponse unit := modify (fun gs => gs <| gh_now := t |>).

(** [check_owner] for a [nemo-owner] header, with the status of its refusal. *)
Definition check_header (owner : key) (auth : MailboxOwnerAuth) (t : N) (meth path : rstring) (l : bytes)
    : stM HomeServer HttpResponse unit :=
  s ← get;
  call error_status (check_owner owner auth t (scope_header (home_server_id s) meth path l)).

(** ** Endpoints of the home server *)

Definition http_bundle : http HttpResponse := read_home (fun s => Ok (cbor_ok (bundle_encode (bundle s)))).

Definition http_register (d : Draws) (l : bytes) : http HttpResponse :=
  card ← decoded (card_decode l);
  lock_home (set_now (t_home d);; call error_status (register_from_card card));;
  mret (status NO_CONTENT).

Definition observe_card_binding (d : Draws) (l : bytes) : http HttpResponse :=
  card ← decoded (card_decode l);
  lock_home (set_now (t_home d);; call error_status (observe_binding (card_identity_id card) (card_binding card)));;
  mret (status NO_CONTENT).

Definition http_discovery (id : rstring) : http HttpResponse :=
  identity_id ← decoded (parse_identity_id id);
  read_home (fun s =>
    match discovery s identity_id with
    | Ok row => Ok (cbor_ok (discovery_encode row))
    | Err _ => Err (status denied)
    end).

Definition http_fetch_prekey (d : Draws) (headers : list (rstring * bytes)) : http HttpResponse :=
  token ← some_or denied (header_token headers (lit "nemo-token"));
  blob ← lock_home (set_now (t_home d);; call (fun _ => denied) (fetch_prekey token));
  mret (octets blob).

Definition upload_prekey (d : Draws) (headers : list (rstring * bytes)) (l : bytes) : http HttpResponse :=
  '(owner, auth) ← status_or (require_owner headers);
  lock_home (
    set_now (t_home d);;
    check_header owner auth (t_owner d) (lit "POST") (lit "/v1/prekeys") l;;
    call error_status (publish_prekey owner l));;
  mret (status NO_CONTENT).

Definition post_envelope (d : Draws) (headers : list (rstring * bytes)) (l : bytes) : http HttpResponse :=
  '(owner, auth) ← status_or (require_owner headers);
  outer ← decoded (decode_outer l);
  e ← lock_home (set_now (t_home d);; call error_status (enqueue_from_owner owner auth (t_owner d) outer));
  mret (cbor_ok (Cbor.encode (Map
    match e with
    | Local sq => [(0, Text (lit "ok")); (1, Uint sq)]
    | Queued => [(0, Text (lit "queued"))]
    end))).

(** The rows of a fetch; a row that does not encode is skipped. *)
Definition fetch_items (rows : list StoredEnvelope) : list Value :=
  omap (fun r => inner ← ok (encode_padded (row_inner r));
                 Some (Map [(0, Uint (row_seq r)); (1, Bytes inner)])) rows.

Definition mailbox_fetch (d : Draws) (l : bytes) : http HttpResponse :=
  auth ← decoded (auth_decode l);
  owner ← some_or BAD_REQUEST (owner_id auth);
  rows ← lock_home (set_now (t_home d);; call error_status (fetch owner auth (t_owner d)));
  mret (cbor_ok (Cbor.encode (Array (fetch_items rows)))).

Definition mailbox_ack (d : Draws) (l : bytes) : http HttpResponse :=
  auth ← decoded (auth_decode l);
  owner ← some_or BAD_REQUEST (owner_id auth);
  lock_home (set_now (t_home d);; call error_status (ack owner auth (t_owner d)));;
  mret (status NO_CONTENT).

Definition mint_token (d : Draws) (headers : list (rstring * bytes)) (share : bool) : http HttpResponse :=
  '(owner, auth) ← status_or (require_owner headers);
  token ← lock_home (
    set_now (t_home d);;
    check_header owner auth (t_owner d) (lit "POST") (if share then lit "/v1/tokens/share" else lit "/v1/tokens/contact") [];;
    call error_status
      (if share then mint_share_token owner None (rnd d 0) else mint_contact_capability owner (rnd d 0)));
  mret (cbor_ok (Cbor.encode (Map [(0, Bytes (to_vec token))]))).

Definition mint_share (d : Draws) (headers : list (rstring * bytes)) : http HttpResponse := mint_token d headers true.
Definition mint_contact (d : Draws) (headers : list (rstring * bytes)) : http HttpResponse := mint_token d headers false.

Definition issue_turn (d : Draws) (headers : list (rstring * bytes)) : http HttpResponse :=
  '(owner, auth) ← status_or (require_owner headers);
  lock_home (check_header owner auth (t_owner d) (lit "POST") (lit "/v1/turn") []);;
  let cred := issue (turn_env d) in
  mret (cbor_ok (Cbor.encode (Map [(0, Text (turn_url cred)); (1, Text (turn_username cred));
    (2, Text (turn_credential cred)); (3, Uint (turn_ttl_secs cred))]))).

(** The loop of [revocation] over the hosted groups. *)
Fixpoint append_revocations (d : Draws) (i : nat) (groups : list GroupId) (stmt : RevocationStatement)
    : stM GroupHost ServerError unit :=
  match groups with
  | [] => mret tt
  | gid :: groups =>
      attempt (append_host_revocation (fan d i) gid stmt);;
      append_revocations d (S i) groups stmt
  end.

Definition revocation (d : Draws) (l : bytes) : http HttpResponse :=
  stmt ← decoded (revocation_decode l);
  (AtBoth (fun '(h, gs) =>
    match (set_now (t_home d);; call error_status (ingest_revocation stmt)) h with
    | (h, Err res) => (h, gs, Err res)
    | (h, Ok groups) => (h, (append_revocations d 0 groups stmt gs <| gh_now := t_host d |>).1, Ok tt)
    end) Done : http unit);;
  mret (status NO_CONTENT).

(** [wakeup] up to the upgrade; [run_wakeup] then serves the connection. *)
Definition wakeup (d : Draws) (headers : list (rstring * bytes)) (ws : result N unit) : http HttpResponse :=
  status_or ws;;
  '(owner, auth) ← status_or (require_owner headers);
  lock_home (check_header owner auth (t_owner d) (lit "GET") (lit "/v1/wakeup") []);;
  mret (status SWITCHING_PROTOCOLS).

(** ** Endpoints of the group host *)

Definition http_create_group (d : Draws) (headers : list (rstring * bytes)) (l : bytes) : http HttpResponse :=
  '(owner, auth) ← status_or (require_owner headers);
  m ← some_or BAD_REQUEST (body_map l);
  signing_pk ← decoded (read_key m 0);
  cap ← decoded (read_key m 1);
  hpke ← decoded (read_key m 2);
  lock_home (
    check_header owner auth (t_owner d) (lit "POST") (lit "/v1/groups") l;;
    s ← get;
    if negb (bool_decide (capability_mailbox s cap = Some owner)) || negb (fanout_ok s cap hpke)
    then throw (status denied) else mret tt);;
  created ← lock_host (set_gh_now (t_host d);;
    call error_status (create_group_for signing_pk (mk_fanout cap hpke) (Some owner) (rnd d 0) (rnd d 1) (rnd d 2)));
  mret (cbor_ok (Cbor.encode (Map [(0, Bytes (to_vec (group_key (created_group_id created))));
    (1, Bytes (to_vec (credential_id (created_cred created))));
    (2, Bytes (to_vec (credential_secret (created_cred created))))]))).

Definition group_append (d : Draws) (id : rstring) (l : bytes) : http HttpResponse :=
  gid ← some_or BAD_REQUEST (parse_group_id id);
  m ← some_or BAD_REQUEST (body_map l);
  cid ← decoded (read_key m 0);
  secret ← decoded (read_key m 1);
  type_u ← decoded (read_uint m 2);
  return_if (U8_MAX <? type_u) BAD_REQUEST;;
  type_ ← decoded (type_from_u8 (byte_of_N type_u));
  body_bytes ← decoded (read_bytes m 3);
  appended ← lock_host (set_gh_now (t_host d);;
    call error_status (append (fan d 0) gid (mk_cred cid secret) type_ body_bytes));
  lock_home (set_now (t_home d);; call error_status (for_each (outers appended) (fun o => attempt (enqueue o);; mret tt)));;
  mret (cbor_ok (Cbor.encode (Map [(0, Uint (append_seq appended))]))).

Definition group_invite (d : Draws) (id : rstring) (l : bytes) : http HttpResponse :=
  gid ← some_or BAD_REQUEST (parse_group_id id);
  m ← some_or BAD_REQUEST (body_map l);
  cred ← decoded (read_cred m);
  invite_bytes ← decoded (read_bytes m 2);
  invite ← decoded (invite_decode invite_bytes);
  lock_host (set_gh_now (t_host d);; call error_status (store_invite gid cred invite));;
  mret (status NO_CONTENT).

(** A key under [k] when there is one. *)
Definition opt_pair (k : N) (o : option key) : list (N * Value) :=
  match o with Some b => [(k, Bytes (to_vec b))] | None => [] end.

Definition group_accept (d : Draws) (id : rstring) (l : bytes) : http HttpResponse :=
  gid ← some_or BAD_REQUEST (parse_group_id id);
  m ← some_or BAD_REQUEST (body_map l);
  nonce ← decoded (read_key m 0);
  pending ← lock_host (set_gh_now (t_host d);; call error_status (accept gid nonce (rnd d 0) (rnd d 1) (rnd d 2)));
  mret (cbor_ok (Cbor.encode (Map ([(0, Bytes (to_vec (join_pending_id pending)));
    (1, Bytes (to_vec (credential_id (join_cred pending))));
    (2, Bytes (to_vec (credential_secret (join_cred pending))))]
    ++ opt_pair 3 (join_invitee_binding pending) ++ opt_pair 4 (join_salt pending))))).

(** The section that checks a fan-out address. *)
Definition check_fanout (cap hpke : key) : http unit :=
  read_home (fun s => if negb (fanout_ok s cap hpke) then Err (status denied) else Ok tt).

Definition group_admit (d : Draws) (id : rstring) (l : bytes) : http HttpResponse :=
  gid ← some_or BAD_REQUEST (parse_group_id id);
  m ← some_or BAD_REQUEST (body_map l);
  admitter ← decoded (read_cred m);
  admit_bytes ← decoded (read_bytes m 2);
  adm ← decoded (admit_decode admit_bytes);
  joiner_pk ← decoded (read_key m 3);
  cap ← decoded (read_key m 4);
  hpke ← decoded (read_key m 5);
  check_fanout cap hpke;;
  cred_id ← lock_host (set_gh_now (t_host d);;
    call error_status (host_admit gid admitter adm joiner_pk (mk_fanout cap hpke)));
  mret (cbor_ok (Cbor.encode (Map [(0, Bytes (to_vec cred_id))]))).

Definition group_fanout (d : Draws) (id : rstring) (l : bytes) : http HttpResponse :=
  gid ← some_or BAD_REQUEST (parse_group_id id);
  m ← some_or BAD_REQUEST (body_map l);
  cred ← decoded (read_cred m);
  cap ← decoded (read_key m 2);
  hpke ← decoded (read_key m 3);
  check_fanout cap hpke;;
  lock_host (set_gh_now (t_host d);; call error_status (refresh_fanout gid cred (mk_fanout cap hpke)));;
  mret (status NO_CONTENT).

Definition group_upload_file (d : Draws) (id token : rstring) (headers : list (rstring * bytes)) (l : bytes)
    : http HttpResponse :=
  gid ← some_or BAD_REQUEST (parse_group_id id);
  fetch_token ← some_or BAD_REQUEST (parse_key_hex token);
  cred ← some_or denied (header_cred headers);
  lock_host (set_gh_now (t_host d);; call error_status (upload_file gid cred fetch_token l));;
  mret (status NO_CONTENT).

Definition group_fetch_file (id token : rstring) (headers : list (rstring * bytes)) : http HttpResponse :=
  gid ← some_or BAD_REQUEST (parse_group_id id);
  fetch_token ← some_or BAD_REQUEST (parse_key_hex token);
  cred ← some_or denied (header_cred headers);
  blob ← read_host (fun gs => (call error_status (fetch_file gid cred fetch_token) gs).2);
  mret (octets blob).

Definition group_pending_lookup (id : rstring) (l : bytes) : http HttpResponse :=
  gid ← some_or BAD_REQUEST (parse_group_id id);
  m ← some_or BAD_REQUEST (body_map l);
  cred ← decoded (read_cred m);
  pending_id ← decoded (read_key m 2);
  looked ← read_host (fun gs => (call error_status (lookup_pending gid cred pending_id) gs).2);
  mret (cbor_ok (Cbor.encode (Map ([(0, Bytes (to_vec (lookup_credential_id looked)))]
    ++ opt_pair 1 (lookup_invitee_binding looked) ++ opt_pair 2 (lookup_salt looked))))).

(** ** Routing *)

(** What the routes call; the parameters are those of the path. *)
Definition Handler : Type := list rstring -> Draws -> HttpRequest -> http HttpResponse.

Definition param (i : nat) (ps : list rstring) : rstring := default (lit "") (ps !! i).

(** The [Bytes] extractor under [DefaultBodyLimit::max(BODY_LIMIT)]. *)
Definition with_body (req : HttpRequest) (f : bytes -> http HttpResponse) : http HttpResponse :=
  return_if (BODY_LIMIT <? lenN (req_body req)) PAYLOAD_TOO_LARGE;; f (req_body req).

Definition v1 (l : list Segment) : list Segment := Static (lit "v1") :: l.
Definition group_path (l : list Segment) : list Segment := v1 (Static (lit "groups") :: Param :: l).

Definition routes : list (list Segment * list (Method * Handler)) :=
  [(v1 [Static (lit "bundle")], [(GET, fun _ _ _ => http_bundle)]);
   (v1 [Static (lit "register")], [(POST, fun _ d req => with_body req (http_register d))]);
   (v1 [Static (lit "binding")], [(POST, fun _ d req => with_body req (observe_card_binding d))]);
   (v1 [Static (lit "discovery"); Param], [(GET, fun ps _ _ => http_discovery (param 0 ps))]);
   (v1 [Static (lit "prekeys")],
     [(GET, fun _ d req => http_fetch_prekey d (req_headers req));
      (POST, fun _ d req => with_body req (upload_prekey d (req_headers req)))]);
   (v1 [Static (lit "envelopes")], [(POST, fun _ d req => with_body req (post_envelope d (req_headers req)))]);
   (v1 [Static (lit "mailbox"); Static (lit "fetch")], [(POST, fun _ d req => with_body req (mailbox_fetch d))]);
   (v1 [Static (lit "mailbox"); Static (lit "ack")], [(POST, fun _ d req => with_body req (mailbox_ack d))]);
   (v1 [Static (lit "tokens"); Static (lit "share")], [(POST, fun _ d req => mint_share d (req_headers req))]);
   (v1 [Static (lit "tokens"); Static (lit "contact")], [(POST, fun _ d req => mint_contact d (req_headers req))]);
   (v1 [Static (lit "revocation")], [(POST, fun _ d req => with_body req (revocation d))]);
   (v1 [Static (lit "wakeup")], [(GET, fun _ d req => wakeup d (req_headers req) (req_ws req))]);
   (v1 [Static (lit "turn")], [(POST, fun _ d req => issue_turn d (req_headers req))]);
   (v1 [Static (lit "groups")], [(POST, fun _ d req => with_body req (http_create_group d (req_headers req)))]);
   (group_path [Static (lit "append")], [(POST, fun ps d req => with_body req (group_append d (param 0 ps)))]);
   (group_path [Static (lit "invites")], [(POST, fun ps d req => with_body req (group_invite d (param 0 ps)))]);
   (group_path [Static (lit "accept")], [(POST, fun ps d req => with_body req (group_accept d (param 0 ps)))]);
   (group_path [Static (lit "admit")], [(POST, fun ps d req => with_body req (group_admit d (param 0 ps)))]);
   (group_path [Static (lit "fanout")], [(POST, fun ps d req => with_body req (group_fanout d (param 0 ps)))]);
   (group_path [Static (lit "pending-lookup")],
     [(POST, fun ps _ req => with_body req (group_pending_lookup (param 0 ps)))]);
   (group_path [Static (lit "files"); Param],
     [(GET, fun ps _ req => group_fetch_file (param 0 ps) (param 1 ps) (req_headers req));
      (POST, fun ps d req => with_body req (group_upload_file d (param 0 ps) (param 1 ps) (req_headers req)))])].

(** The first route whose pattern matches, 404 without one, 405 when it has no
    handler for the method. *)
Fixpoint dispatch (table : list (list Segment * list (Method * Handler))) (d : Draws) (req : HttpRequest)
    : http HttpResponse :=
  match table with
  | [] => mret (status NOT_FOUND)
  | (pattern, handlers) :: table =>
      match match_path pattern (req_path req) with
      | None => dispatch table d req
      | Some ps =>
          match List.find (fun kv => bool_decide (kv.1 = req_method req)) handlers with
          | Some kv => kv.2 ps d req
          | None => mret (status METHOD_NOT_ALLOWED)
          end
      end
  end.

(** ** Layers *)

(** The guard of [persist_after]. *)
Definition mutating (req : HttpRequest) : bool :=
  (negb (bool_decide (req_method req = GET)) || bool_decide (req_path req = [lit "v1"; lit "prekeys"]))
  && negb (bool_decide (req_path req = [lit "v1"; lit "turn"])).

Definition persist_after (req : HttpRequest) (next : prog HttpResponse) : prog HttpResponse :=
  prog_bind (fun res =>
    if mutating req && is_success res then Wake (Persist (Done res)) else Done res) next.

Definition sign_after (req : HttpRequest) (next : prog HttpResponse) : prog HttpResponse :=
  let nonce := header_token (req_headers req) RESPONSE_NONCE_HEADER in
  prog_bind (fun res =>
    match nonce with
    | None => Done res
    | Some nonce =>
        if BODY_LIMIT <? lenN (res_body res) then Done (status INTERNAL_SERVER_ERROR)
        else
          ReadHome (fun s => sign_response (sign_key s) nonce (res_status res) (res_body res)) (fun r =>
            match r with
            | Ok sg => Done (mk_response (res_status res) (res_type res) (Some (to_hex (to_vec sg))) (res_body res))
            | Err _ => Done (status INTERNAL_SERVER_ERROR)
            end)
    end) next.

Definition router (d : Draws) (req : HttpRequest) : prog HttpResponse :=
  sign_after req (persist_after req (respond (dispatch routes d req))).

(** ** Serving *)

(** [AppState]; [app_wakes] counts the notifications. *)
Record AppState : Type := mk_app {
  app_home : HomeServer;
  app_groups : GroupHost;
  app_db : option Db;
  app_wakes : N
}.

Definition from_parts (h : HomeServer) (gs : GroupHost) : AppState := mk_app h gs None 0.
Definition with_db (a : AppState) (db : Db) : AppState := mk_app (app_home a) (app_groups a) (Some db) (app_wakes a).

(** [AppState::persist]: an error is logged and dropped. *)
Definition app_persist (link : Link) (a : AppState) : AppState :=
  match app_db a with
  | None => a
  | Some db =>
      let '(db, h, gs, _) := persist link (db, app_home a, app_groups a) in
      mk_app h gs (Some db) (app_wakes a)
  end.

(** One section of a program; [link] is the outcome of a [persist]. *)
Definition step {A} (link : Link) (p : prog A) (a : AppState) : AppState * prog A :=
  match p with
  | Done r => (a, Done r)
  | ReadHome f k => (a, k (f (app_home a)))
  | ReadHost f k => (a, k (f (app_groups a)))
  | AtHome m k => let '(h, x) := m (app_home a) in (mk_app h (app_groups a) (app_db a) (app_wakes a), k x)
  | AtHost m k => let '(gs, x) := m (app_groups a) in (mk_app (app_home a) gs (app_db a) (app_wakes a), k x)
  | AtBoth m k => let '(h, gs, x) := m (app_home a, app_groups a) in (mk_app h gs (app_db a) (app_wakes a), k x)
  | Wake k => (mk_app (app_home a) (app_groups a) (app_db a) (app_wakes a + 1), k)
  | Persist k => (app_persist link a, k)
  end.

(** A program that no other request interrupts. *)
Fixpoint run_prog {A} (link : Link) (p : prog A) (a : AppState) : AppState * A :=
  match p with
  | Done r => (a, r)
  | ReadHome f k => run_prog link (k (f (app_home a))) a
  | ReadHost f k => run_prog link (k (f (app_groups a))) a
  | AtHome m k => let '(h, x) := m (app_home a) in run_prog link (k x) (mk_app h (app_groups a) (app_db a) (app_wakes a))
  | AtHost m k => let '(gs, x) := m (app_groups a) in run_prog link (k x) (mk_app (app_home a) gs (app_db a) (app_wakes a))
  | AtBoth m k =>
      let '(h, gs, x) := m (app_home a, app_groups a) in run_prog link (k x) (mk_app h gs (app_db a) (app_wakes a))
  | Wake k => run_prog link k (mk_app (app_home a) (app_groups a) (app_db a) (app_wakes a + 1))
  | Persist k => run_prog link k (app_persist link a)
  end.

Definition serve (link : Link) (d : Draws) (req : HttpRequest) (a : AppState) : AppState * HttpResponse :=
  run_prog link (router d req) a.
End Http.
Arguments Done {_ A} _.
Arguments ReadHome {_ A X} _ _.
Arguments ReadHost {_ A X} _ _.
Arguments AtHome {_ A X} _ _.
Arguments AtHost {_ A X} _ _.
Arguments AtBoth {_ A X} _ _.
Arguments Wake {_ A} _.
Arguments Persist {_ A} _.

(** ** Wake-up connections *)

(** The state of [run_wakeup]: the head last announced and the time of the last
    frame, [None] before the first one ([Instant::now() - WAKE_COALESCE]). *)
Record Waker : Type := mk_waker { last_seen : N; last_wake : option N }.

Definition waker_new (cursor : N) : Waker := mk_waker cursor None.

(** The check at the top of the loop, at time [t] with the mailbox's head:
    whether a frame is sent. *)
Definition wake_check (t head : N) (w : Waker) : Waker * bool :=
  if (last_seen w <? head) && match last_wake w with None => true | Some l => WAKE_COALESCE <=? t - l end
  then (mk_waker head (Some t), true) else (w, false).

(** What ends the wait at the bottom of the loop: a notification, a frame of
    the client, or the end of the connection. *)
Inductive WakeEvent : Type := Notified | ClientFrame | ClientGone.

(** A connection over the events it sees, each with the time and the head read
    after it; the frames sent, with their times. The connection ends with the
    list or with the client. *)
Fixpoint run_wakeup (events : list (WakeEvent * N * N)) (t head : N) (w : Waker) : list N :=
  let '(w, sent) := wake_check t head w in
  (if sent then [t] else []) ++
  match events with
  | [] => []
  | (ClientGone, _, _) :: _ => []
  | (_, t, head) :: events => run_wakeup events t head w
  end.
