(* ===== verification/HttpTyped.v ===== *)
(** * What the handlers decode

    The objects a request body decodes to are within the ranges of their Rust
    types, and so are the envelopes a group append hands to the home server. *)

From S2P Require Export Http PgRun.
From S2P Require Export TokenProps.

(** ** Decoded records *)

Lemma map_get_wf m k v : map_get m k = Ok v -> wf_value (Map m) = true -> wf_value v = true.
Proof.
  unfold map_get, map_get_opt. intros Hg [_ Hw]%andb_true_iff.
  destruct (List.find _ m) as [kv|] eqn:Hf; cbn in Hg; simplify_eq. apply find_some in Hf as [Hin _].
  rewrite forallb_forall in Hw. specialize (Hw _ Hin). by apply andb_true_iff in Hw as [_ Hw].
Qed.

Lemma get_uint_le m k n : get_uint m k = Ok n -> wf_value (Map m) = true -> n <= U64_MAX.
Proof.
  unfold get_uint. intros (v & Hv & He)%result_bind_ok Hw. apply (map_get_wf _ _ _ Hv) in Hw.
  destruct v; cbn in He; simplify_eq. by apply N.leb_le.
Qed.

Lemma get_text_le m k t : get_text m k = Ok t -> wf_value (Map m) = true -> lenN (as_bytes t) <= U64_MAX.
Proof.
  unfold get_text. intros (v & Hv & He)%result_bind_ok Hw. apply (map_get_wf _ _ _ Hv) in Hw.
  destruct v; cbn in He; simplify_eq. by apply N.leb_le.
Qed.

Lemma decode_map_wf what l m : decode_map what l = Ok m -> wf_value (Map m) = true.
Proof.
  unfold decode_map. intros (v & Hv & He)%result_bind_ok. apply decode_ok_wf in Hv. by destruct v; simplify_eq.
Qed.

Lemma binding_from_fits v b : binding_from_cbor_value v = Ok b -> wf_value v = true -> binding_fits b.
Proof.
  unfold binding_from_cbor_value. destruct v as [| | | |m]; try done. cbn [expect_map mbind result_bind]. intros Hb Hw.
  apply result_bind_ok in Hb as (sid & _ & Hb). apply result_bind_ok in Hb as (pk & _ & Hb).
  apply result_bind_ok in Hb as (h & Hh & Hb). apply result_bind_ok in Hb as (sq & Hsq & Hb).
  apply result_bind_ok in Hb as (ex & Hex & Hb). apply result_bind_ok in Hb as (sg & _ & Hb). simplify_eq.
  unfold binding_fits. cbn. split_and!; eauto using get_uint_le, get_text_le.
Qed.

Lemma card_decode_fits l card : card_decode l = Ok card -> binding_fits (card_binding card).
Proof.
  unfold card_decode. case_cond; [done|]. intros (m & Hm%decode_map_wf & Hc)%result_bind_ok.
  apply result_bind_ok in Hc as (? & _ & Hc). apply result_bind_ok in Hc as (? & _ & Hc).
  apply result_bind_ok in Hc as (? & _ & Hc). apply result_bind_ok in Hc as (? & _ & Hc).
  apply result_bind_ok in Hc as (v & Hv & Hc). apply result_bind_ok in Hc as (b & Hb & Hc). simplify_eq. cbn.
  eauto using binding_from_fits, map_get_wf.
Qed.

Lemma revocation_decode_fits l stmt : revocation_decode l = Ok stmt -> coarse_timestamp stmt <= U64_MAX.
Proof.
  unfold revocation_decode. intros (m & Hm%decode_map_wf & Hc)%result_bind_ok.
  apply result_bind_ok in Hc as (? & _ & Hc). apply result_bind_ok in Hc as (? & _ & Hc).
  apply result_bind_ok in Hc as (? & _ & Hc). apply result_bind_ok in Hc as (? & _ & Hc).
  apply result_bind_ok in Hc as (t & Ht & Hc). apply result_bind_ok in Hc as (? & _ & Hc). simplify_eq. cbn.
  eauto using get_uint_le.
Qed.

Lemma decode_outer_fits l o : decode_outer l = Ok o -> lenN (hpke_ciphertext o) <= U32_MAX.
Proof.
  unfold decode_outer. do 2 (case_cond; [done|]). intros (dest & _ & Ho)%result_bind_ok. cbv zeta in Ho.
  case_cond; [done|]. apply Ok_inj in Ho as <-. cbn.
  apply negb_false_iff, N.eqb_eq in G1 as ->. pose proof (from_be_bound (takeN 4 (dropN (1 + KEY_LEN) l))) as Hb.
  rewrite lenN_takeN, lenN_dropN in Hb. unfold U32_MAX.
  assert (256 ^ N.min 4 (lenN l - (1 + KEY_LEN)) <= 256 ^ 4) by (apply N.pow_le_mono_r; lia).
  change (2 ^ 32 - 1) with (256 ^ 4 - 1). lia.
Qed.

(** ** Results of a method *)

(** Every success of the method satisfies [Q]. *)
Definition yields {S E A} (Q : A -> Prop) (m : stM S E A) : Prop :=
  forall s, post m s (fun r _ => match r with Ok a => Q a | Err _ => True end).

Section Yields.
Context {S E : Type}.

Lemma yields_bind {A B} (P : A -> Prop) (Q : B -> Prop) (m : stM S E A) (k : A -> stM S E B) :
  yields P m -> (forall a, P a -> yields Q (k a)) -> yields Q (m ≫= k).
Proof. intros Hm Hk s. wp. eapply post_conseq; [apply Hm|]. intros [a|e] s1 Ha; [by apply Hk | done]. Qed.

Lemma yields_any {A} (m : stM S E A) : yields (fun _ => True) m.
Proof. intros s. eapply (post_conseq m s (fun _ _ => True)); [done|]. by intros []. Qed.

Lemma yields_then {A B} (Q : B -> Prop) (m : stM S E A) (k : A -> stM S E B) :
  (forall a, yields Q (k a)) -> yields Q (m ≫= k).
Proof. intros Hk. apply (yields_bind (fun _ => True)); [apply yields_any | auto]. Qed.

Lemma yields_ret {A} (Q : A -> Prop) (a : A) : Q a -> yields Q (mret a : stM S E A).
Proof. by intros Ha s. Qed.

Lemma yields_throw {A} (Q : A -> Prop) e : yields Q (throw e : stM S E A).
Proof. by intros s. Qed.

Lemma yields_lift {A} (Q : A -> Prop) (r : result E A) : (forall a, r = Ok a -> Q a) -> yields Q (lift r : stM S E A).
Proof. intros Hr s. wp. destruct r; auto. Qed.
End Yields.

(** ** Envelopes of a fan-out *)

Section Fanout.
Context `{CryptoLaws}.

Definition outer_fits (o : OuterEnvelope) : Prop := lenN (hpke_ciphertext o) <= U32_MAX.

Lemma seal_len pk dest pt rnd ct : Hpke.seal pk dest pt rnd = Ok ct -> lenN ct = lenN pt + 48.
Proof.
  unfold Hpke.seal. intros (p & _ & Hc)%result_bind_ok. apply result_bind_ok in Hc as ([enc c] & Hc & Hct).
  apply Ok_inj in Hct as <-. destruct (single_shot_seal p _ pt _ rnd) as [[e' c']|] eqn:E; cbn in Hc; simplify_eq.
  apply hpke_ct_len in E. rewrite lenN_app, arr_len, E. lia.
Qed.

Lemma seal_to_server_fits pk inner rnd o : Hpke.seal_to_server pk inner rnd = Ok o -> outer_fits o.
Proof.
  intros (_ & l & Hl & Hs)%Hpke.seal_to_server_ok. unfold outer_fits.
  rewrite (seal_len _ _ _ _ _ Hs), (encode_padded_len _ _ Hl). pose proof (Hpke.outer_len_bound inner).
  unfold A4_OUTER, U32_MAX in *. lia.
Qed.

Lemma seal_copies_fit rnd i t b targets os : seal_copies rnd i t b targets = Ok os -> Forall outer_fits os.
Proof.
  revert i os. induction targets as [|f targets IH]; intros i os; cbn [seal_copies].
  - intros [= <-]. constructor.
  - intros (m & _ & Hc)%result_bind_ok. apply result_bind_ok in Hc as (o & Ho & Hc).
    apply result_bind_ok in Hc as (os' & Hos & Hc). apply Ok_inj in Hc as <-.
    constructor; [by eapply seal_to_server_fits | by eapply IH].
Qed.

Definition append_fits (a : StreamAppend) : Prop := Forall outer_fits (outers a).

Lemma fanout_copy_fits rnd gid t b : yields append_fits (fanout_copy rnd gid t b).
Proof.
  unfold fanout_copy, g_wire. apply yields_then. intros g. apply yields_then. intros s. cbv zeta.
  case_cond; [apply yields_throw|]. do 2 (apply yields_then; intros _).
  eapply (yields_bind (Forall outer_fits)); [|intros os Hos; by apply yields_ret].
  apply yields_lift. intros os Hos. destruct (seal_copies _ _ _ _ _) as [os'|] eqn:E; cbn in Hos; simplify_eq.
  by eapply seal_copies_fit.
Qed.

Lemma append_envelopes_fit rnd gid cred t b : yields append_fits (append rnd gid cred t b).
Proof.
  unfold append. apply yields_then. intros _.
  destruct t; try apply yields_throw; try apply fanout_copy_fits.
  - unfold append_remove. do 3 (apply yields_then; intros ?).
    eapply yields_bind; [apply fanout_copy_fits|]. intros out Hout. apply yields_then. intros _. by apply yields_ret.
  - apply yields_then. intros _. apply fanout_copy_fits.
  - unfold append_reserve. do 2 (apply yields_then; intros ?). cbv zeta. case_bool_decide; [apply yields_throw|].
    case_cond; [apply yields_throw|]. eapply yields_bind; [apply fanout_copy_fits|]. intros out Hout.
    do 2 (apply yields_then; intros _). by apply yields_ret.
Qed.
End Fanout.

(** * The sections of the handlers

    Every locked section of every handler is a sequence of operations of the
    component whose mutex it holds, so a server that interleaves the sections of
    many requests is a run of the process of [PgRun]. *)

Section Traces.
Context `{CryptoLaws}.
Implicit Types (s : HomeServer) (gs : GroupHost).

(** ** Operations of a section *)

Definition srun (ops : list server_op) s : HomeServer := foldl (fun s op => sexec op s) s ops.

(** The operations are of their types and storable where they are executed. *)
Fixpoint home_trace (ops : list server_op) s : Prop :=
  match ops with
  | [] => True
  | op :: ops => op_typed op /\ storable op s /\ home_trace ops (sexec op s)
  end.

Fixpoint host_trace (ops : list group_op) gs : Prop :=
  match ops with
  | [] => True
  | op :: ops => gop_typed op /\ g_storable op gs /\ host_trace ops (gexec op gs).1
  end.

Definition home_does {X} (m : HomeServer -> HomeServer * X) s : Prop :=
  exists ops, home_trace ops s /\ (m s).1 = srun ops s.

Definition host_does {X} (m : GroupHost -> GroupHost * X) gs : Prop :=
  exists ops, host_trace ops gs /\ (m gs).1 = grun ops gs.

Lemma home_trace_app ops ops' s : home_trace ops s -> home_trace ops' (srun ops s) -> home_trace (ops ++ ops') s.
Proof. revert s. induction ops as [|op ops IH]; intros s; cbn; [done|]. intros (? & ? & ?) ?. auto. Qed.

Lemma host_trace_app ops ops' gs : host_trace ops gs -> host_trace ops' (grun ops gs) -> host_trace (ops ++ ops') gs.
Proof. revert gs. induction ops as [|op ops IH]; intros gs; cbn; [done|]. intros (? & ? & ?) ?. auto. Qed.

Lemma home_does_bind {E A B} (m : stM HomeServer E A) (k : A -> stM HomeServer E B) s :
  home_does m s -> (forall a, (m s).2 = Ok a -> home_does (k a) (m s).1) -> home_does (m ≫= k) s.
Proof.
  intros (ops & Ht & Hm) Hk. unfold home_does, mbind, stM_bind. destruct (m s) as [s1 [a|e]]; cbn in *; [|by exists ops].
  destruct (Hk a eq_refl) as (ops' & Ht' & Hm'). exists (ops ++ ops'). subst s1. split; [by apply home_trace_app|].
  rewrite Hm'. unfold srun. by rewrite foldl_app.
Qed.

Lemma host_does_bind {E A B} (m : stM GroupHost E A) (k : A -> stM GroupHost E B) gs :
  host_does m gs -> (forall a, (m gs).2 = Ok a -> host_does (k a) (m gs).1) -> host_does (m ≫= k) gs.
Proof.
  intros (ops & Ht & Hm) Hk. unfold host_does, mbind, stM_bind. destruct (m gs) as [s1 [a|e]]; cbn in *; [|by exists ops].
  destruct (Hk a eq_refl) as (ops' & Ht' & Hm'). exists (ops ++ ops'). subst s1. split; [by apply host_trace_app|].
  rewrite Hm'. unfold grun. by rewrite foldl_app.
Qed.

Lemma home_does_op {X} op (m : HomeServer -> HomeServer * X) s :
  op_typed op -> storable op s -> (m s).1 = sexec op s -> home_does m s.
Proof. intros. by exists [op]. Qed.

Lemma host_does_op {X} op (m : GroupHost -> GroupHost * X) gs :
  gop_typed op -> g_storable op gs -> (m gs).1 = (gexec op gs).1 -> host_does m gs.
Proof. intros. by exists [op]. Qed.

Lemma home_does_nothing {X} (m : HomeServer -> HomeServer * X) s : (m s).1 = s -> home_does m s.
Proof. intros. by exists []. Qed.

Lemma home_does_call {A} f (m : home A) s : home_does m s -> home_does (call f m) s.
Proof. intros (ops & Ht & Hm). exists ops. split; [done|]. unfold call. by destruct (m s). Qed.

Lemma host_does_call {A} f (m : group_host A) gs : host_does m gs -> host_does (call f m) gs.
Proof. intros (ops & Ht & Hm). exists ops. split; [done|]. unfold call. by destruct (m gs). Qed.

Lemma set_now_does t s : t <= U64_MAX -> home_does (set_now t) s.
Proof. intros Ht. by apply (home_does_op (SHome (OpNow t))). Qed.

Lemma set_gh_now_does t gs : t <= U64_MAX -> gh_now gs <= t -> host_does (set_gh_now t) gs.
Proof. intros Ht Hle. by apply (host_does_op (GNow t)). Qed.

Lemma check_header_does owner auth t meth path l s : home_does (check_header owner auth t meth path l) s.
Proof.
  apply (home_does_op (SCheck owner auth t (scope_header (home_server_id s) meth path l))); [done | done|].
  unfold check_header, call, mbind, stM_bind, get. cbn [sexec]. by destruct (check_owner _ _ _ _ s).
Qed.

Lemma check_header_tokens owner auth t meth path l s :
  tokens (check_header owner auth t meth path l s).1 = tokens s.
Proof.
  pose proof (check_owner_tokens s owner auth t (scope_header (home_server_id s) meth path l)) as Hc.
  unfold check_header, call, mbind, stM_bind, get. unfold post in Hc. by destruct (check_owner _ _ _ _ s).
Qed.

(** The enqueueing of a fan-out. *)
Lemma enqueue_all_does os s :
  Forall outer_fits os -> home_does (for_each os (fun o => attempt (enqueue o);; mret tt) : home unit) s.
Proof.
  intros Hos. revert s. induction Hos as [|o os Ho _ IH]; intros s; cbn [for_each]; [by apply home_does_nothing|].
  apply home_does_bind; [|intros [] _; apply IH].
  apply home_does_bind; [|intros r _; by apply home_does_nothing].
  apply (home_does_op (SHome (OpEnqueue o))); [done | done|]. unfold attempt. cbn [sexec exec]. by destruct (enqueue o s).
Qed.

(** The loop over the groups of a revoked identity. *)
Lemma append_revocations_does d i gids stmt gs : host_does (append_revocations d i gids stmt) gs.
Proof.
  revert i gs. induction gids as [|gid gids IH]; intros i gs; cbn [append_revocations]; [by exists []|].
  apply host_does_bind; [|intros r _; apply IH].
  apply (host_does_op (GRevocation (fan d i) gid stmt)); [done | done|]. cbn [gexec].
  unfold attempt, mbind, stM_bind. by destruct (append_host_revocation _ _ _ gs) as [gs1 [a|e]].
Qed.
End Traces.

(** ** Sections of a request *)

Section Sections.
Context `{CryptoLaws} `{TurnLib} `{AxumLaws} (d : Draws) (req : HttpRequest).
Implicit Types (s : HomeServer) (gs : GroupHost).

(** What a section relies on: a clock within [u64] that does not go back, drawn
    values that are not in use, and of the request that a registered card brings
    an unused share token and an acknowledged cursor fits the [BIGINT] column. *)
Definition home_env s : Prop :=
  t_home d <= U64_MAX /\ rnd d 0 ∉ map fst (tokens s)
  /\ (req_path req = [lit "v1"; lit "register"] ->
      forall card, card_decode (req_body req) = Ok card -> share_token card ∉ map fst (tokens s))
  /\ (req_path req = [lit "v1"; lit "mailbox"; lit "ack"] ->
      forall auth, auth_decode (req_body req) = Ok auth -> cursor auth < 2 ^ 63).

Definition host_env gs : Prop :=
  gh_now gs <= t_host d <= U64_MAX /\ groups gs !! mk_group_id (rnd d 0) = None.

(** Every section performs operations of its components, and what the program
    returns satisfies [Q]. *)
Fixpoint sect {A} (Q : A -> Prop) (p : prog A) : Prop :=
  match p with
  | Done a => Q a
  | ReadHome f k => forall s, sect Q (k (f s))
  | ReadHost f k => forall gs, sect Q (k (f gs))
  | AtHome m k => forall s, home_env s -> home_does m s /\ sect Q (k (m s).2)
  | AtHost m k => forall gs, host_env gs -> host_does m gs /\ sect Q (k (m gs).2)
  | AtBoth m k => forall s gs, home_env s -> host_env gs ->
      home_does (fun s => (m (s, gs)).1) s /\ host_does (fun gs => ((m (s, gs)).1.2, tt)) gs /\ sect Q (k (m (s, gs)).2)
  | Wake k | Persist k => sect Q k
  end.

Lemma sect_bind {A B} (Q : A -> Prop) (R : B -> Prop) (f : A -> prog B) p :
  sect Q p -> (forall a, Q a -> sect R (f a)) -> sect R (prog_bind f p).
Proof.
  intros Hp Hf. induction p as [a|X g k IH|X g k IH|X m k IH|X m k IH|X m k IH|k IH|k IH]; cbn in *; auto.
  - intros s Hs. destruct (Hp s Hs). auto.
  - intros gs Hs. destruct (Hp gs Hs). auto.
  - intros s gs Hs Hgs. destruct (Hp s gs Hs Hgs) as (? & ? & ?). auto.
Qed.

Definition handles {A} (Q : A -> Prop) (p : http A) : Prop :=
  sect (fun r => match r with Ok a => Q a | Err _ => True end) p.

Lemma handles_bind {A B} (Q : A -> Prop) (R : B -> Prop) (m : http A) (k : A -> http B) :
  handles Q m -> (forall a, Q a -> handles R (k a)) -> handles R (m ≫= k).
Proof. intros Hm Hk. eapply sect_bind; [exact Hm|]. intros [a|e] Ha; [by apply Hk | done]. Qed.

Lemma handles_ret (a : HttpResponse) : handles (fun _ => True) (mret a : http HttpResponse).
Proof. done. Qed.

Lemma handles_result {E A} (f : E -> HttpResponse) (r : result E A) :
  handles (fun a => r = Ok a) (Done (map_err f r) : http A).
Proof. by destruct r. Qed.

Lemma handles_option {A} code (o : option A) : handles (fun a => o = Some a) (some_or code o).
Proof. by destruct o. Qed.

Lemma handles_guard c code : handles (fun _ => True) (return_if c code).
Proof. by destruct c. Qed.

Lemma handles_home {A} (Q : A -> Prop) (m : stM HomeServer HttpResponse A) :
  (forall s, home_env s -> home_does m s) -> yields Q m -> handles Q (lock_home m).
Proof.
  intros Hm Hq s Hs. split; [by apply Hm|]. specialize (Hq s). unfold post in Hq. cbn. by destruct (m s) as [s1 [a|e]].
Qed.

Lemma handles_host {A} (Q : A -> Prop) (m : stM GroupHost HttpResponse A) :
  (forall gs, host_env gs -> host_does m gs) -> yields Q m -> handles Q (lock_host m).
Proof.
  intros Hm Hq s Hs. split; [by apply Hm|]. specialize (Hq s). unfold post in Hq. cbn. by destruct (m s) as [s1 [a|e]].
Qed.

Lemma handles_read_home {A} (f : HomeServer -> result HttpResponse A) : handles (fun _ => True) (read_home f).
Proof. intros s. cbn. by destruct (f s). Qed.

Lemma handles_read_host {A} (f : GroupHost -> result HttpResponse A) : handles (fun _ => True) (read_host f).
Proof. intros s. cbn. by destruct (f s). Qed.

(** A section that sets the clock and calls one method. *)
Lemma handles_home_op {A} op f (m : home A) :
  op_typed op -> (forall s, home_env s -> storable op (s <| now := t_home d |>)) -> (forall s, (m s).1 = sexec op s) ->
  handles (fun _ => True) (lock_home (set_now (t_home d);; call f m)).
Proof.
  intros Hty Hst Hm. apply handles_home; [|apply yields_any]. intros s Hs.
  apply home_does_bind; [apply set_now_does, Hs|]. intros [] _. apply home_does_call.
  apply (home_does_op op); [done | by apply Hst | apply Hm].
Qed.

Lemma handles_host_op {A} op f (Q : A -> Prop) (m : group_host A) :
  gop_typed op -> (forall gs, host_env gs -> g_storable op (gs <| gh_now := t_host d |>)) ->
  (forall gs, (m gs).1 = (gexec op gs).1) -> yields Q m ->
  handles Q (lock_host (set_gh_now (t_host d);; call f m)).
Proof.
  intros Hty Hst Hm Hq. apply handles_host.
  - intros gs Hs. destruct Hs as [[Hle Hmax] Hg].
    apply host_does_bind; [by apply set_gh_now_does|]. intros [] _. apply host_does_call.
    apply (host_does_op op); [done | by apply Hst | apply Hm].
  - apply yields_then. intros _ gs. specialize (Hq gs). unfold post, call in *. by destruct (m gs) as [gs1 [a|e]].
Qed.

(** ** The handlers *)

(** Steps over the parts of a handler that hold no mutex. *)
Ltac reads :=
  repeat (eapply handles_bind;
    [first [apply handles_result | apply handles_option | apply handles_guard | apply handles_read_home
           | apply handles_read_host] |
     let x := fresh "x" in let Hx := fresh "Hx" in intros x Hx; cbv beta in Hx]).

Notation served := (handles (fun _ => True)).

Lemma home_env_now s t : home_env s -> home_env (s <| now := t |>).
Proof. done. Qed.

Lemma http_register_served :
  req_path req = [lit "v1"; lit "register"] -> served (http_register d (req_body req)).
Proof.
  intros Hp. unfold http_register. reads. eapply handles_bind; [|by intros].
  apply (handles_home_op (SHome (OpRegisterCard x))); [by eapply card_decode_fits | | done].
  intros s (_ & _ & Hc & _). split; [|done]. intros tok [= <-]. by apply Hc.
Qed.

Lemma observe_card_binding_served l : served (observe_card_binding d l).
Proof.
  unfold observe_card_binding. reads. eapply handles_bind; [|by intros].
  by apply (handles_home_op (SHome (OpObserve (card_identity_id x) (card_binding x)))); [eapply card_decode_fits | |].
Qed.

Lemma http_discovery_served id : served (http_discovery id).
Proof. unfold http_discovery. reads. apply handles_read_home. Qed.

Lemma http_fetch_prekey_served headers : served (http_fetch_prekey d headers).
Proof.
  unfold http_fetch_prekey. reads. eapply handles_bind; [|by intros].
  by apply (handles_home_op (SHome (OpFetchPrekey x))).
Qed.

(** A section that checks a [nemo-owner] header before the method. *)
Lemma handles_owner_op {A} op f owner auth meth path l (m : home A) :
  op_typed op -> (forall s, home_env s -> storable op s) -> (forall s, (m s).1 = sexec op s) ->
  served (lock_home (set_now (t_home d);; check_header owner auth (t_owner d) meth path l;; call f m)).
Proof.
  intros Hty Hst Hm. apply handles_home; [|apply yields_any]. intros s Hs.
  apply home_does_bind; [apply set_now_does, Hs|]. intros [] _. cbn [fst].
  apply home_does_bind; [apply check_header_does|]. intros [] _. apply home_does_call.
  apply (home_does_op op); [done | | apply Hm]. apply Hst.
  unfold home_env in *. by rewrite check_header_tokens.
Qed.

Lemma upload_prekey_served headers l : served (upload_prekey d headers l).
Proof.
  unfold upload_prekey. reads. destruct x as [owner auth]. eapply handles_bind; [|by intros].
  by apply (handles_owner_op (SHome (OpPublish owner l))).
Qed.

Lemma post_envelope_served headers l : served (post_envelope d headers l).
Proof.
  unfold post_envelope. reads. destruct x as [owner auth]. reads. eapply handles_bind; [|by intros].
  by apply (handles_home_op (SHome (OpEnqueueOwner owner auth (t_owner d) x))); [eapply decode_outer_fits | |].
Qed.

Lemma mailbox_fetch_served l : served (mailbox_fetch d l).
Proof.
  unfold mailbox_fetch. reads. eapply handles_bind; [|by intros].
  by apply (handles_home_op (SHome (OpFetch x0 x (t_owner d)))).
Qed.

Lemma mailbox_ack_served :
  req_path req = [lit "v1"; lit "mailbox"; lit "ack"] -> served (mailbox_ack d (req_body req)).
Proof.
  intros Hp. unfold mailbox_ack. reads. eapply handles_bind; [|by intros].
  apply (handles_home_op (SHome (OpAck x0 x (t_owner d)))); [done | | done].
  intros s (_ & _ & _ & Hc). split; [done|]. by apply Hc.
Qed.

Lemma mint_token_served headers share : served (mint_token d headers share).
Proof.
  unfold mint_token. reads. destruct x as [owner auth]. eapply handles_bind; [|by intros].
  apply (handles_owner_op (SHome (if share then OpMintShare owner None (rnd d 0) else OpContact owner (rnd d 0))));
    [by destruct share | | by destruct share].
  intros s (_ & Hr & _). by destruct share; (split; [|done]); intros tok [= <-].
Qed.

Lemma issue_turn_served headers : served (issue_turn d headers).
Proof.
  unfold issue_turn. reads. destruct x as [owner auth]. eapply handles_bind; [|by intros].
  apply handles_home; [intros; apply check_header_does | apply yields_any].
Qed.

Lemma wakeup_served headers ws : served (wakeup d headers ws).
Proof.
  unfold wakeup. reads. destruct x0 as [owner auth]. eapply handles_bind; [|by intros].
  apply handles_home; [intros; apply check_header_does | apply yields_any].
Qed.

Lemma revocation_served l : served (revocation d l).
Proof.
  unfold revocation. reads. eapply (handles_bind (fun _ => True)); [|by intros]. intros s gs Hs [[Hle Hmax] _].
  assert (home_does (set_now (t_home d);; call error_status (ingest_revocation x)) s) as Hh.
  { apply home_does_bind; [apply set_now_does, Hs|]. intros [] _. apply home_does_call.
    by apply (home_does_op (SHome (OpRevoke x))); [eapply revocation_decode_fits | |]. }
  destruct Hh as (ops & Ht & Hm).
  destruct ((set_now (t_home d);; call error_status (ingest_revocation x)) s) as [s1 [gids|res]] eqn:E; cbn in Hm; subst s1.
  - split; [exists ops; split; [done|]; cbv beta iota; by rewrite E|].
    split; [|done].
    destruct (append_revocations_does d 0 gids x (gs <| gh_now := t_host d |>)) as (gops & Hgt & Hgm).
    exists (GNow (t_host d) :: gops). split; [by split_and!|]. exact Hgm.
  - split; [exists ops; split; [done|]; cbv beta iota; by rewrite E|].
    by split; [exists []|].
Qed.

Lemma unit_result {A} (m : group_host A) gs : (m gs).1 = ((m;; mret tt) gs).1.
Proof. unfold mbind, stM_bind. by destruct (m gs) as [gs1 [a|e]]. Qed.

Lemma http_create_group_served headers l : served (http_create_group d headers l).
Proof.
  unfold http_create_group. reads. destruct x as [owner auth]. reads. eapply handles_bind.
  - apply handles_home; [|apply (yields_any (A := unit))]. intros s _. apply home_does_bind; [apply check_header_does|].
    intros [] _. apply home_does_bind; [by apply home_does_nothing|]. intros s1 _. by case_cond; apply home_does_nothing.
  - intros [] _. eapply handles_bind; [|by intros].
    apply (handles_host_op (GCreate x0 (mk_fanout x1 x2) (Some owner) (rnd d 0) (rnd d 1) (rnd d 2))); [done | | | apply yields_any].
    + by intros gs [_ Hg].
    + intros gs. apply unit_result.
Qed.

Lemma group_append_served id l : served (group_append d id l).
Proof.
  unfold group_append. reads. eapply handles_bind.
  - apply (handles_host_op (GAppend (fan d 0) x (mk_cred x1 x2) x5 x6) _ append_fits); [done | done | |].
    + intros gs. apply unit_result.
    + apply append_envelopes_fit.
  - intros a Ha. eapply handles_bind; [|by intros]. apply handles_home; [|apply (yields_any (A := unit))]. intros s Hs.
    apply home_does_bind; [apply set_now_does, Hs|]. intros [] _. by apply home_does_call, enqueue_all_does.
Qed.

Lemma group_invite_served id l : served (group_invite d id l).
Proof.
  unfold group_invite. reads. eapply handles_bind; [|by intros].
  by apply (handles_host_op (GInvite x x1 x3)); [| | | apply yields_any].
Qed.

Lemma group_accept_served id l : served (group_accept d id l).
Proof.
  unfold group_accept. reads. eapply handles_bind; [|by intros].
  apply (handles_host_op (GAccept x x1 (rnd d 0) (rnd d 1) (rnd d 2))); [done | done | | apply yields_any].
  intros gs. apply unit_result.
Qed.

Lemma group_admit_served id l : served (group_admit d id l).
Proof.
  unfold group_admit, check_fanout. reads. eapply handles_bind; [|by intros].
  apply (handles_host_op (GAdmit x x1 x3 x4 (mk_fanout x5 x6))); [done | done | | apply yields_any].
  intros gs. apply unit_result.
Qed.

Lemma group_fanout_served id l : served (group_fanout d id l).
Proof.
  unfold group_fanout, check_fanout. reads. eapply handles_bind; [|by intros].
  by apply (handles_host_op (GRefresh x x1 (mk_fanout x2 x3))); [| | | apply yields_any].
Qed.

Lemma group_upload_file_served id token headers l : served (group_upload_file d id token headers l).
Proof.
  unfold group_upload_file. reads. eapply handles_bind; [|by intros].
  by apply (handles_host_op (GUpload x x1 x0 l)); [| | | apply yields_any].
Qed.

Lemma group_fetch_file_served id token headers : served (group_fetch_file id token headers).
Proof. unfold group_fetch_file. reads. done. Qed.

Lemma group_pending_lookup_served id l : served (group_pending_lookup id l).
Proof. unfold group_pending_lookup. reads. done. Qed.

(** ** Routing *)

Lemma match_static seg pattern path ps :
  match_path (Static seg :: pattern) path = Some ps -> exists rest, path = seg :: rest /\ match_path pattern rest = Some ps.
Proof.
  rewrite match_path_fit. destruct path as [|p path]; cbn; [done|]. case_bool_decide; [|done].
  intros Hp. subst. exists path. by rewrite match_path_fit.
Qed.

Lemma match_end path ps : match_path [] path = Some ps -> path = [].
Proof. rewrite match_path_fit. by destruct path. Qed.

Lemma with_body_served f : served (f (req_body req)) -> served (with_body req f).
Proof. intros Hf. unfold with_body. reads. exact Hf. Qed.

Lemma dispatch_table table :
  Forall (fun entry => forall ps, match_path entry.1 (req_path req) = Some ps ->
            Forall (fun h => served (h.2 ps d req)) entry.2) table ->
  served (dispatch table d req).
Proof.
  induction 1 as [|[pattern handlers] table He _ IH]; cbn [dispatch]; [done|].
  destruct (match_path pattern (req_path req)) as [ps|] eqn:Hp; [|exact IH].
  match goal with |- context [List.find ?f handlers] => destruct (List.find f handlers) as [h|] eqn:Hf end; [|done]. apply find_some in Hf as [Hin _].
  specialize (He ps Hp). rewrite Forall_forall in He. apply He. by apply list_elem_of_In.
Qed.

#[local] Hint Resolve with_body_served observe_card_binding_served http_discovery_served http_fetch_prekey_served
  upload_prekey_served post_envelope_served mailbox_fetch_served mint_token_served revocation_served wakeup_served
  issue_turn_served http_create_group_served group_append_served group_invite_served group_accept_served
  group_admit_served group_fanout_served group_upload_file_served group_fetch_file_served
  group_pending_lookup_served handles_read_home : core.

Lemma dispatch_served : served (dispatch routes d req).
Proof.
  apply dispatch_table. unfold routes.
  repeat (apply List.Forall_cons; [intros ps Hps; cbn [fst snd] in *|]); [..|constructor];
    try (repeat (apply List.Forall_cons; [cbn [snd]; unfold http_bundle, mint_share, mint_contact; by eauto|]); by apply List.Forall_nil).
  - apply List.Forall_cons; [|constructor]. cbv beta iota delta [snd]. apply with_body_served, http_register_served.
    apply match_static in Hps as (p1 & -> & Hps). by apply match_static in Hps as (p2 & -> & ->%match_end).
  - apply List.Forall_cons; [|constructor]. cbv beta iota delta [snd]. apply with_body_served, mailbox_ack_served.
    apply match_static in Hps as (p1 & -> & Hps). apply match_static in Hps as (p2 & -> & Hps).
    by apply match_static in Hps as (p3 & -> & ->%match_end).
Qed.

Lemma router_sections : sect (fun _ => True) (router d req).
Proof.
  unfold router, sign_after, persist_after, respond.
  apply (sect_bind (fun _ => True)); [apply (sect_bind (fun _ => True)); [eapply sect_bind; [exact dispatch_served|]|]|].
  - intros [res|res] _; exact I.
  - intros res _. by case_cond.
  - intros res _. destruct (header_token _ _); [|done]. case_cond; [done|]. intros s. by destruct (sign_response _ _ _ _).
Qed.
End Sections.
