(* ===== verification/HttpRun.v ===== *)
(** * The server at work

    The process with the requests it is serving: sections of different requests,
    of the federation tasks and of start-ups interleave in any order, and the
    process may die at any moment. *)

From S2P Require Export HttpTyped.

(** ** Saving before answering *)

Section Acks.
Context `{Crypto} `{TurnLib} `{Axum} (req : HttpRequest).

(** A successful answer to a mutating request comes after a [Persist] that
    follows the last section that changes anything; [unsaved] says whether such
    a section has run since the last [Persist]. *)
Fixpoint acks_saved (unsaved : bool) (p : prog HttpResponse) : Prop :=
  match p with
  | Done res => mutating req = true -> is_success res = true -> unsaved = false
  | ReadHome f k => forall x, acks_saved unsaved (k x)
  | ReadHost f k => forall x, acks_saved unsaved (k x)
  | AtHome m k => forall x, acks_saved true (k x)
  | AtHost m k => forall x, acks_saved true (k x)
  | AtBoth m k => forall x, acks_saved true (k x)
  | Wake k => acks_saved unsaved k
  | Persist k => acks_saved false k
  end.

Lemma persist_after_acks u next : acks_saved u (persist_after req next).
Proof.
  unfold persist_after. revert u. induction next as [res|X f k IH|X f k IH|X m k IH|X m k IH|X m k IH|k IH|k IH]; intros u; cbn; auto.
  destruct (mutating req) eqn:Hm, (is_success res) eqn:Hs; cbn; congruence.
Qed.

Lemma sign_after_acks u next : acks_saved u next -> acks_saved u (sign_after req next).
Proof.
  unfold sign_after. revert u. induction next as [res|X f k IH|X f k IH|X m k IH|X m k IH|X m k IH|k IH|k IH]; intros u; cbn; auto.
  intros Hu. destruct (header_token _ _); [|done]. case_cond; [done|]. by intros [sg|e].
Qed.

Lemma router_acks d : acks_saved true (router d req).
Proof. apply sign_after_acks, persist_after_acks. Qed.
End Acks.

(** ** The machine *)

Section Server.
Context `{CryptoLaws} `{TurnLib} `{AxumLaws} (seed : key) (fresh_sk : SigningKey).

(** A request in progress, the moment after its last section that could change
    memory, and whether its own [persist] succeeded. *)
Record thread : Type := mk_thread {
  th_req : HttpRequest;
  th_draws : Draws;
  th_prog : prog HttpResponse;
  th_changed : nat;
  th_saved : bool
}.

(** The shared state, the identity file, the requests in progress, and for the
    statements the memory at every moment, and the memory and the moment of the
    last successful [persist]. *)
Record server : Type := mk_server {
  sv_app : AppState;
  sv_file : KeyFile;
  sv_threads : list thread;
  sv_history : list (HomeServer * GroupHost);
  sv_saved : HomeServer * GroupHost;
  sv_saved_at : nat
}.

Definition sv_db (sv : server) : Db := default empty_db (app_db (sv_app sv)).

Definition memory (a : AppState) : HomeServer * GroupHost := (app_home a, app_groups a).

Definition save_ok (link : Link) (sv : server) : bool :=
  is_ok (persist link (sv_db sv, app_home (sv_app sv), app_groups (sv_app sv))).2.

(** The shared state becomes [a]; [saves] says that this was a successful
    [persist]. *)
Definition moved (a : AppState) (saves : bool) (sv : server) : server :=
  mk_server a (sv_file sv) (sv_threads sv) (sv_history sv ++ [memory a])
    (if saves then memory a else sv_saved sv) (if saves then length (sv_history sv) else sv_saved_at sv).

Definition with_threads (ths : list thread) (sv : server) : server :=
  mk_server (sv_app sv) (sv_file sv) ths (sv_history sv) (sv_saved sv) (sv_saved_at sv).

(** The next section of the [i]-th request. *)
Definition run_section (link : Link) (i : nat) (th : thread) (sv : server) : server :=
  let '(a, p) := step link (th_prog th) (sv_app sv) in
  let saves := match th_prog th with Persist _ => save_ok link sv | _ => false end in
  let changed := match th_prog th with
                 | AtHome _ _ | AtHost _ _ | AtBoth _ _ => length (sv_history sv)
                 | _ => th_changed th
                 end in
  let saved := match th_prog th with Persist _ => saves | _ => th_saved th end in
  moved a saves (with_threads (<[i := mk_thread (th_req th) (th_draws th) p changed saved]> (sv_threads sv)) sv).

Definition on_home (f : HomeServer -> HomeServer) (a : AppState) : AppState :=
  mk_app (f (app_home a)) (app_groups a) (app_db a) (app_wakes a).

(** The state as the process of [PgRun]. *)
Definition proc_of (sv : server) : proc :=
  mk_proc (sv_db sv) (sv_file sv) (app_home (sv_app sv)) (app_groups (sv_app sv)) (sv_saved sv).

(** What the next section relies on. *)
Definition section_env (th : thread) (sv : server) : Prop :=
  let home := home_env (th_draws th) (th_req th) (app_home (sv_app sv)) in
  let host := host_env (th_draws th) (app_groups (sv_app sv)) in
  match th_prog th with
  | AtHome _ _ => home
  | AtHost _ _ => host
  | AtBoth _ _ => home /\ host
  | _ => True
  end.

(** The operations a section performs. *)
Definition performs {A} (link : Link) (p : prog A) (pr : proc) (ops : list proc_op) : Prop :=
  match p with
  | AtHome m _ => exists l, ops = map Request l /\ home_trace l (p_home pr) /\ (m (p_home pr)).1 = srun l (p_home pr)
  | AtHost m _ => exists l, ops = map GroupRequest l /\ host_trace l (p_host pr) /\ (m (p_host pr)).1 = grun l (p_host pr)
  | AtBoth m _ => exists l l', ops = map Request l ++ map GroupRequest l'
      /\ home_trace l (p_home pr) /\ host_trace l' (p_host pr)
      /\ (m (p_home pr, p_host pr)).1 = (srun l (p_home pr), grun l' (p_host pr))
  | Persist _ => ops = [Save link]
  | _ => ops = []
  end.

(** One step, labelled with the number of operations it performs: a request
    arrives, a request runs its next section, a federation task runs an
    operation or saves, or the process dies and is started again. *)
Inductive sstep (sv : server) : N -> server -> Prop :=
| S_arrive req d :
    sstep sv 0 (with_threads (sv_threads sv ++ [mk_thread req d (router d req) 0 false]) sv)
| S_section i th link ops :
    sv_threads sv !! i = Some th -> link <> AckLost -> section_env th sv ->
    performs link (th_prog th) (proc_of sv) ops ->
    sstep sv (lenN ops) (run_section link i th sv)
| S_peer op :
    op_typed op -> storable op (app_home (sv_app sv)) ->
    sstep sv 1 (moved (on_home (sexec op) (sv_app sv)) false sv)
| S_save link :
    link <> AckLost -> sstep sv 1 (moved (app_persist link (sv_app sv)) (save_ok link sv) sv)
| S_crash h port db file s gs :
    port <= U16_MAX -> start seed fresh_sk h port (sv_db sv) (sv_file sv) = (db, file, Ok (s, gs)) ->
    sstep sv 1 (mk_server (with_db (from_parts s gs) db) file [] (sv_history sv ++ [(s, gs)]) (s, gs)
                  (length (sv_history sv))).

Inductive sruns : server -> N -> server -> Prop :=
| R_refl sv : sruns sv 0 sv
| R_step sv n sv1 m sv2 : sruns sv n sv1 -> sstep sv1 m sv2 -> sruns sv (n + m) sv2.

Lemma sruns_trans a n b m c : sruns a n b -> sruns b m c -> sruns a (n + m) c.
Proof.
  intros Hab Hbc. induction Hbc as [|? ? ? ? ? ? IH ?]; [by rewrite N.add_0_r|].
  rewrite N.add_assoc. econstructor; [by apply IH | done].
Qed.

(** A server that has just been started. *)
Definition just_booted (p : proc) : server :=
  mk_server (with_db (from_parts (p_home p) (p_host p)) (p_db p)) (p_file p) [] [(p_home p, p_host p)] (p_saved p) 0.

(** ** Sections perform operations *)

Lemma prun_requests l pr :
  prun seed fresh_sk (map Request l) pr = mk_proc (p_db pr) (p_file pr) (srun l (p_home pr)) (p_host pr) (p_saved pr).
Proof. revert pr. induction l as [|op l IH]; intros pr; [by destruct pr|]. exact (IH (pexec seed fresh_sk (Request op) pr)). Qed.

Lemma prun_group_requests l pr :
  prun seed fresh_sk (map GroupRequest l) pr = mk_proc (p_db pr) (p_file pr) (p_home pr) (grun l (p_host pr)) (p_saved pr).
Proof. revert pr. induction l as [|op l IH]; intros pr; [by destruct pr|]. exact (IH (pexec seed fresh_sk (GroupRequest op) pr)). Qed.

Lemma admissible_requests l pr : home_trace l (p_home pr) -> admissible_run seed fresh_sk (map Request l) pr.
Proof.
  revert pr. induction l as [|op l IH]; intros pr; [done|]. intros (Hty & Hst & Ht). split; [done|]. by apply IH.
Qed.

Lemma admissible_group_requests l pr : host_trace l (p_host pr) -> admissible_run seed fresh_sk (map GroupRequest l) pr.
Proof.
  revert pr. induction l as [|op l IH]; intros pr; [done|]. intros (Hty & Hst & Ht). split; [done|]. by apply IH.
Qed.

Lemma admissible_app ops ops' pr :
  admissible_run seed fresh_sk ops pr -> admissible_run seed fresh_sk ops' (prun seed fresh_sk ops pr) ->
  admissible_run seed fresh_sk (ops ++ ops') pr.
Proof. revert pr. induction ops as [|op ops IH]; intros pr; [done|]. intros [Hop Hops] Hops'. split; [done|]. by apply IH. Qed.

Lemma prun_app ops ops' pr :
  prun seed fresh_sk (ops ++ ops') pr = prun seed fresh_sk ops' (prun seed fresh_sk ops pr).
Proof. unfold prun. apply foldl_app. Qed.

(** A section is the run of its operations. *)
Lemma performs_run link i th sv ops :
  link <> AckLost -> is_Some (app_db (sv_app sv)) -> performs link (th_prog th) (proc_of sv) ops ->
  admissible_run seed fresh_sk ops (proc_of sv)
  /\ proc_of (run_section link i th sv) = prun seed fresh_sk ops (proc_of sv)
  /\ is_Some (app_db (sv_app (run_section link i th sv))).
Proof.
  intros Hl [db Hdb] Hp. destruct sv as [[h gs db' w] file ths hist [s0 gs0] at_]. cbn in Hdb. subst db'.
  unfold run_section, save_ok, performs, proc_of, sv_db in *. cbn [sv_app app_db app_home app_groups sv_file sv_saved default p_home p_host] in *.
  destruct (th_prog th) as [res|X f k|X f k|X m k|X m k|X m k|k|k]; cbn [step app_home app_groups app_db app_wakes] in *;
    try (subst ops; by split_and!).
  - destruct Hp as (l & -> & Ht & Hm). rewrite prun_requests.
    split; [by apply admissible_requests|]. destruct (m h) as [h1 x]; cbn in *. by subst h1.
  - destruct Hp as (l & -> & Ht & Hm). rewrite prun_group_requests.
    split; [by apply admissible_group_requests|]. destruct (m gs) as [gs1 x]; cbn in *. by subst gs1.
  - destruct Hp as (l & l' & -> & Ht & Ht' & Hm). rewrite prun_app, prun_requests, prun_group_requests.
    split; [apply admissible_app; [by apply admissible_requests|]; rewrite prun_requests; by apply admissible_group_requests|].
    destruct (m (h, gs)) as [[h1 gs1] x]; cbn in *. by simplify_eq.
  - subst ops. split; [done|]. unfold app_persist. cbn -[persist].
    by destruct (persist link (db, h, gs)) as [[[db1 h1] gs1] [[]|e]].
Qed.

(** Every section the server runs performs operations. *)
Lemma section_performs link th sv :
  sect (th_draws th) (th_req th) (fun _ => True) (th_prog th) -> section_env th sv ->
  exists ops, performs link (th_prog th) (proc_of sv) ops.
Proof.
  unfold section_env, performs, proc_of. intros Hs He.
  destruct (th_prog th) as [res|X f k|X f k|X m k|X m k|X m k|k|k]; cbn in *; eauto.
  - destruct (Hs _ He) as [(l & ? & ?) _]. eauto.
  - destruct (Hs _ He) as [(l & ? & ?) _]. eauto.
  - destruct He as [He He']. destruct (Hs _ _ He He') as ((l & ? & Hm) & (l' & ? & Hm') & _).
    exists (map Request l ++ map GroupRequest l'), l, l'. split_and!; [done..|]. cbn in Hm, Hm'.
    destruct (m _) as [[h1 gs1] x]. cbn in *. by subst.
Qed.

(** ** The invariant *)

(** A request will answer only after a save; when its own save succeeded, the
    memory saved last is not older than its last change. *)
Definition thread_ok (moments saved_at : nat) (th : thread) : Prop :=
  sect (th_draws th) (th_req th) (fun _ => True) (th_prog th) /\ (th_changed th <= moments)%nat
  /\ exists unsaved, acks_saved (th_req th) unsaved (th_prog th)
       /\ (unsaved = false -> th_saved th = true -> (th_changed th <= saved_at)%nat).

Record server_inv (n : N) (sv : server) : Prop := {
  si_proc : proc_inv n (proc_of sv);
  si_db : is_Some (app_db (sv_app sv));
  si_saved : sv_history sv !! sv_saved_at sv = Some (sv_saved sv);
  si_threads : forall i th, sv_threads sv !! i = Some th -> thread_ok (length (sv_history sv)) (sv_saved_at sv) th
}.

Lemma thread_ok_later k k' a a' th : (k <= k')%nat -> (a <= a')%nat -> thread_ok k a th -> thread_ok k' a' th.
Proof.
  intros Hk Ha (Hs & Hc & u & Hu & Hsa). split; [done|]. split; [lia|]. exists u. split; [done|].
  intros. etrans; [by apply Hsa | done].
Qed.

Lemma saved_at_bound n sv : server_inv n sv -> (sv_saved_at sv < length (sv_history sv))%nat.
Proof. intros [_ _ Hs _]. by apply lookup_lt_Some in Hs. Qed.

Lemma history_moved a saves sv :
  sv_history sv !! sv_saved_at sv = Some (sv_saved sv) ->
  sv_history (moved a saves sv) !! sv_saved_at (moved a saves sv) = Some (sv_saved (moved a saves sv)).
Proof.
  intros Hs. destruct saves; cbn; [by apply list_lookup_middle|].
  rewrite lookup_app_l; [done|]. by apply lookup_lt_Some in Hs.
Qed.

(** Threads that did not move. *)
Lemma threads_moved n a saves ths sv :
  server_inv n sv ->
  (forall i th, ths !! i = Some th ->
     sv_threads sv !! i = Some th
     \/ thread_ok (S (length (sv_history sv))) (if saves : bool then length (sv_history sv) else sv_saved_at sv) th) ->
  forall i th, sv_threads (moved a saves (with_threads ths sv)) !! i = Some th ->
    thread_ok (length (sv_history (moved a saves (with_threads ths sv)))) (sv_saved_at (moved a saves (with_threads ths sv))) th.
Proof.
  intros Hi Hths i th Hth. pose proof (saved_at_bound n sv Hi) as Hb. cbn in *. rewrite length_app. cbn.
  replace (length (sv_history sv) + 1)%nat with (S (length (sv_history sv))) by lia.
  destruct (Hths i th Hth) as [Hold|Hok]; [|done].
  apply (si_threads _ _ Hi) in Hold. eapply thread_ok_later; [..|exact Hold]; [lia|]. destruct saves; lia.
Qed.

(** The thread that ran its section. *)
Lemma thread_section n link i th sv :
  server_inv n sv -> sv_threads sv !! i = Some th -> section_env th sv ->
  forall j th', sv_threads (run_section link i th sv) !! j = Some th' ->
    thread_ok (length (sv_history (run_section link i th sv))) (sv_saved_at (run_section link i th sv)) th'.
Proof.
  intros Hi Hth He. pose proof (si_threads _ _ Hi _ _ Hth) as (Hs & Hc & u & Hu & Hsa).
  unfold run_section. destruct (step link (th_prog th) (sv_app sv)) as [a p] eqn:Hst.
  apply (threads_moved n); [done|]. intros j th' Hj.
  apply list_lookup_insert_Some in Hj as [(-> & <- & _)|[_ Hj]]; [right | by left].
  unfold section_env in He. unfold thread_ok. cbn [th_draws th_req th_prog th_changed th_saved].
  destruct (th_prog th) as [res|X f k|X f k|X m k|X m k|X m k|k|k]; cbn in Hst, Hs, Hu, He; try (injection Hst as <- <-).
  - split_and!; [done | lia | by exists u].
  - split_and!; [apply Hs | lia | by exists u].
  - split_and!; [apply Hs | lia | by exists u].
  - destruct (Hs _ He) as [_ Hk]. destruct (m _) as [h1 x]. injection Hst as <- <-. split_and!; [done | lia | by exists true].
  - destruct (Hs _ He) as [_ Hk]. destruct (m _) as [h1 x]. injection Hst as <- <-. split_and!; [done | lia | by exists true].
  - destruct He as [He He']. destruct (Hs _ _ He He') as (_ & _ & Hk). destruct (m _) as [[h1 gs1] x]. injection Hst as <- <-.
    split_and!; [done | lia | by exists true].
  - split_and!; [done | lia | by exists u].
  - split_and!; [done | lia|]. exists false. split; [done|]. intros _ ->. done.
Qed.

Lemma sstep_inv n sv m sv' :
  server_inv n sv -> n + m + 2 < 2 ^ 63 -> sstep sv m sv' -> server_inv (n + m) sv'.
Proof.
  intros Hi Hn Hstep. pose proof Hi as [Hp Hdb Hsv Hth].
  destruct Hstep as [req d|i th link ops Hi' Hl He Hper|op Hty Hst|link Hl|h port db file s gs Hport Hstart].
  - rewrite N.add_0_r. split; [done | done | done|]. intros i th [Ho|(_ & Ht)]%lookup_app_Some; [by eapply Hth|].
    apply list_lookup_singleton_Some in Ht as [_ <-]. split; [apply router_sections|]. split; [cbn; lia|].
    exists true. split; [apply router_acks | done].
  - destruct (performs_run link i th sv ops Hl Hdb Hper) as (Hadm & Hproc & Hdb').
    split; [rewrite Hproc; apply prun_inv; [done | lia | done] | done | | by eapply thread_section].
    unfold run_section. destruct (step link (th_prog th) (sv_app sv)) as [a p]. by apply history_moved.
  - change (moved (on_home (sexec op) (sv_app sv)) false sv)
      with (moved (on_home (sexec op) (sv_app sv)) false (with_threads (sv_threads sv) sv)).
    split; [exact (pexec_inv seed fresh_sk n (Request op) (proc_of sv) Hp ltac:(lia) (conj Hty Hst)) | done
           | by apply history_moved | apply (threads_moved n); auto].
  - change (moved ?a ?b sv) with (moved a b (with_threads (sv_threads sv) sv)).
    pose proof (pexec_inv seed fresh_sk n (Save link) (proc_of sv) Hp ltac:(lia) Hl) as Hp'.
    destruct Hdb as [db Hdb].
    split; [ | | by apply history_moved | apply (threads_moved n); auto];
      revert Hp'; unfold save_ok, proc_of, sv_db, app_persist, pexec; cbn -[persist]; rewrite Hdb; cbn -[persist];
      by destruct (persist link _) as [[[db1 h1] gs1] [[]|e]].
  - split; [|done|by apply list_lookup_middle|done].
    pose proof (pexec_inv seed fresh_sk n (Restart h port) (proc_of sv) Hp ltac:(lia) Hport) as Hp'.
    revert Hp'. unfold pexec. cbn -[start]. by rewrite Hstart.
Qed.

Lemma sruns_inv n sv m sv' :
  server_inv n sv -> sruns sv m sv' -> n + m + 2 < 2 ^ 63 -> server_inv (n + m) sv'.
Proof.
  intros Hi Hr. induction Hr as [sv|sv k sv1 m sv2 Hr IH Hs]; intros Hn; [by rewrite N.add_0_r|].
  replace (n + (k + m)) with (n + k + m) by lia. apply (sstep_inv _ sv1); [apply IH; [done | lia] | lia | done].
Qed.

Lemma just_booted_inv h port p :
  port <= U16_MAX -> booted seed fresh_sk h port = Some p -> server_inv 1 (just_booted p).
Proof.
  intros Hport Hb. destruct (boot_ok seed fresh_sk h port Hport) as (p' & Hb' & Hi). assert (p' = p) as -> by congruence.
  unfold booted in Hb. destruct (start seed fresh_sk h port empty_db FileMissing) as [[db file] [[s gs]|e]]; [|done].
  injection Hb as <-. by split.
Qed.

(** ** A request that nothing disturbs *)

Lemma run_section_thread link i th sv :
  (i < length (sv_threads sv))%nat ->
  exists ch sa, sv_threads (run_section link i th sv) !! i =
    Some (mk_thread (th_req th) (th_draws th) (step link (th_prog th) (sv_app sv)).2 ch sa)
  /\ sa = match th_prog th with Persist _ => save_ok link sv | _ => th_saved th end.
Proof.
  intros Hi. unfold run_section. destruct (step link (th_prog th) (sv_app sv)) as [a p]. cbn.
  do 2 eexists. split; [by apply list_lookup_insert_eq | by destruct (th_prog th)].
Qed.

Lemma save_ok_up n sv : server_inv n sv -> n + 2 < 2 ^ 63 -> save_ok LinkUp sv = true.
Proof.
  intros [[Hs Hj _ _ _ _] _ _ _] Hn. cbn in Hs, Hj. unfold save_ok.
  by destruct (persist_up n _ _ _ Hs ltac:(lia) Hj) as (db & -> & _).
Qed.

(** A request of one section that succeeds runs to its answer and is saved. *)
Lemma answered n sv i th X (m : HomeServer -> HomeServer * X) K res ops :
  server_inv n sv -> n + lenN ops + 5 < 2 ^ 63 -> sv_threads sv !! i = Some th -> th_prog th = AtHome m K ->
  section_env th sv -> performs LinkUp (th_prog th) (proc_of sv) ops ->
  K (m (app_home (sv_app sv))).2 = Wake (Persist (Done res)) ->
  exists sv' th', sruns sv (lenN ops + 1) sv' /\ sv_threads sv' !! i = Some th' /\ th_prog th' = Done res
    /\ th_req th' = th_req th /\ th_saved th' = true.
Proof.
  intros Hi Hn Hth Hprog He Hper HK. assert (i < length (sv_threads sv))%nat as Hlt by by eapply lookup_lt_Some.
  set (sv1 := run_section LinkUp i th sv).
  assert (sruns sv (lenN ops) sv1) as R1 
    by exact (R_step _ _ _ _ _ (R_refl sv) (S_section sv i th LinkUp ops Hth ltac:(done) He Hper)).
  destruct (run_section_thread LinkUp i th sv Hlt) as (c1 & a1 & T1 & _). fold sv1 in T1. rewrite Hprog in T1. cbn in T1.
  destruct (m (app_home (sv_app sv))) as [h1 x]. cbn in T1, HK. rewrite HK in T1. clear HK.
  set (th1 := mk_thread _ _ _ c1 a1) in T1. set (sv2 := run_section LinkUp i th1 sv1).
  assert (sruns sv (lenN ops) sv2) as R2.
  { rewrite <- (N.add_0_r (lenN ops)).
    exact (R_step _ _ _ _ _ R1 (S_section sv1 i th1 LinkUp [] T1 ltac:(done) I eq_refl)). }
  destruct (run_section_thread LinkUp i th1 sv1 ltac:(by eapply lookup_lt_Some)) as (c2 & a2 & T2 & _). fold sv2 in T2. cbn in T2.
  set (th2 := mk_thread _ _ _ c2 a2) in T2. set (sv3 := run_section LinkUp i th2 sv2).
  assert (sruns sv (lenN ops + 1) sv3) as R3.
  { exact (R_step _ _ _ _ _ R2 (S_section sv2 i th2 LinkUp [Save LinkUp] T2 ltac:(done) I eq_refl)). }
  destruct (run_section_thread LinkUp i th2 sv2 ltac:(by eapply lookup_lt_Some)) as (c3 & a3 & T3 & Ha3). fold sv3 in T3. cbn in T3, Ha3.
  exists sv3, (mk_thread (th_req th) (th_draws th) (Done res) c3 a3). split_and!; [done | exact T3 | done | done|].
  cbn. rewrite Ha3. apply (save_ok_up (n + lenN ops)); [|lia]. apply (sruns_inv _ sv); [done | done | lia].
Qed.
End Server.
