(* ===== verification/HttpProps.v ===== *)
(** * What the HTTP interface guarantees

    The server as a run of the process, answers that are saved before they are
    given, signed answers, wake-ups, and where these stop. *)

From S2P Require Export HttpRun.
From S2P Require Import Toy HomeProps.

Section Programs.
Context `{Crypto} `{TurnLib} `{Axum}.

Lemma run_prog_bind {A B} link (f : A -> prog B) (p : prog A) a :
  run_prog link (prog_bind f p) a = let '(a1, x) := run_prog link p a in run_prog link (f x) a1.
Proof.
  revert a. induction p as [x|X g k IH|X g k IH|X m k IH|X m k IH|X m k IH|k IH|k IH]; intros a; cbn; auto.
  - by destruct (m (app_home a)) as [h x].
  - by destruct (m (app_groups a)) as [gs x].
  - by destruct (m (app_home a, app_groups a)) as [[h gs] x].
Qed.
End Programs.

Section Guarantees.
Context `{CryptoLaws} `{TurnLib} `{AxumLaws} (seed : key) (fresh_sk : SigningKey).
Implicit Types (sv : server) (th : thread).

(** C6. Every section of every request that a server has in progress is a
    sequence of operations of the home server and the group host within the
    conditions of the persistence theorems, so any interleaving of requests,
    federation tasks, saves and restarts is a run of the process. *)
Theorem http_sections_refine h port p n sv i th link :
  port <= U16_MAX -> booted seed fresh_sk h port = Some p -> sruns seed fresh_sk (just_booted p) n sv ->
  n + 3 < 2 ^ 63 -> sv_threads sv !! i = Some th -> section_env th sv -> link <> AckLost ->
  exists ops, admissible_run seed fresh_sk ops (proc_of sv)
    /\ proc_of (run_section link i th sv) = prun seed fresh_sk ops (proc_of sv)
    /\ sstep seed fresh_sk sv (lenN ops) (run_section link i th sv).
Proof.
  intros Hp Hb Hr Hn Hth He Hl.
  destruct (sruns_inv seed fresh_sk 1 _ _ _ (just_booted_inv _ _ _ _ _ Hp Hb) Hr ltac:(lia)) as [_ Hdb _ Hths].
  destruct (Hths _ _ Hth) as (Hs & _ & _). destruct (section_performs link th sv Hs He) as (ops & Hper).
  destruct (performs_run seed fresh_sk link i th sv ops Hl Hdb Hper) as (Hadm & Hrun & _).
  exists ops. split; [done|]. split; [done|]. by econstructor.
Qed.

(** C5. A mutating request that was answered with success survives a crash:
    once its own [persist] has succeeded, a start at any later moment resumes a
    memory of the server that is at least as recent as the last change the
    request made, whatever other requests, tasks and restarts came between. *)
Theorem acknowledged_is_durable h port p n sv i th res h' port' :
  port <= U16_MAX -> booted seed fresh_sk h port = Some p -> sruns seed fresh_sk (just_booted p) n sv ->
  n + 4 < 2 ^ 63 -> sv_threads sv !! i = Some th -> th_prog th = Done res ->
  mutating (th_req th) = true -> is_success res = true -> th_saved th = true -> port' <= U16_MAX ->
  exists k mem db s gs,
    sv_history sv !! k = Some mem /\ (th_changed th <= k)%nat
    /\ start seed fresh_sk h' port' (sv_db sv) (sv_file sv) = (db, sv_file sv, Ok (s, gs))
    /\ resumed h' port' mem s gs.
Proof.
  intros Hp Hb Hr Hn Hth Hdone Hmut Hok Hsaved Hp'.
  destruct (sruns_inv seed fresh_sk 1 _ _ _ (just_booted_inv _ _ _ _ _ Hp Hb) Hr ltac:(lia)) as [Hproc _ Hhist Hths].
  destruct (Hths _ _ Hth) as (_ & _ & u & Hu & Hle). rewrite Hdone in Hu. cbn in Hu.
  destruct Hproc as [_ _ Hss Hd _ Hf]. cbn in Hss, Hd, Hf.
  destruct (start_resumes seed fresh_sk _ h' port' _ _ _ Hss ltac:(lia) Hd Hp') as (db & s & gs & Hst & Hre & _).
  exists (sv_saved_at sv), (sv_saved sv), db, s, gs. split; [done|]. split; [by apply Hle; [apply Hu|]|].
  split; [by rewrite Hf|]. by rewrite <- surjective_pairing in Hre.
Qed.

(** ** Signed answers *)

(** What [sign_after] makes of the answer of the layers below it. *)
Lemma serve_layers link d req (a : AppState) :
  serve link d req a =
  let '(a1, res) := run_prog link (persist_after req (respond (dispatch routes d req))) a in
  match header_token (req_headers req) RESPONSE_NONCE_HEADER with
  | None => (a1, res)
  | Some nonce =>
      (a1, if BODY_LIMIT <? lenN (res_body res) then status INTERNAL_SERVER_ERROR
           else match sign_response (sign_key (app_home a1)) nonce (res_status res) (res_body res) with
                | Ok sg => mk_response (res_status res) (res_type res) (Some (to_hex (to_vec sg))) (res_body res)
                | Err _ => status INTERNAL_SERVER_ERROR
                end)
  end.
Proof.
  unfold serve, router, sign_after. rewrite run_prog_bind. destruct (run_prog _ _ a) as [a1 res].
  destruct (header_token _ _); [|done]. case_cond; [done|]. cbn. by destruct (sign_response _ _ _ _).
Qed.

Lemma response_context : Sign.SERVER_RESPONSE ∈ Sign.contexts.
Proof. apply (bool_decide_unpack _). vm_compute. exact I. Qed.

Lemma sign_response_total sk nonce st l :
  exists sg msg, sign_response sk nonce st l = Ok sg /\ Sign.message Sign.SERVER_RESPONSE (response_payload nonce st l) = Ok msg.
Proof.
  unfold sign_response, Sign.sign. destruct (Sign.message _ _) as [msg|e] eqn:E; [by eexists _, msg|].
  by destruct (Sign.context_spec _ response_context) as [Hm _]; rewrite Hm in E.
Qed.

Lemma response_payload_inj n1 st1 l1 n2 st2 l2 :
  st1 <= U64_MAX -> st2 <= U64_MAX -> response_payload n1 st1 l1 = response_payload n2 st2 l2 ->
  n1 = n2 /\ st1 = st2 /\ (l1 = l2 \/ collision).
Proof.
  intros Hs1 Hs2 He. apply cbor_encode_inj in He; [|solve_wf..]. injection He as Hn -> Hh.
  apply arr_eq in Hn as ->. apply arr_eq, sha256_inj_or_collision in Hh. done.
Qed.

(** A request that carries a response nonce is answered with a signature
    that verifies under the server's key for exactly this nonce, status and body
    and for no other server message, unless the body exceeds 18 MB, which is
    answered 500. *)
Theorem responses_are_signed link d req (a : AppState) nonce a' res :
  header_token (req_headers req) RESPONSE_NONCE_HEADER = Some nonce -> serve link d req a = (a', res) ->
  (res = status INTERNAL_SERVER_ERROR
   /\ BODY_LIMIT < lenN (res_body (run_prog link (persist_after req (respond (dispatch routes d req))) a).2))
  \/ exists sg msg, res_sig res = Some (to_hex (to_vec sg))
       /\ verify_response (verifying_key (sign_key (app_home a'))) nonce (res_status res) (res_body res) sg = Ok tt
       /\ Sign.message Sign.SERVER_RESPONSE (response_payload nonce (res_status res) (res_body res)) = Ok msg
       /\ forall ctx n2 st2 l2, ctx ∈ Sign.contexts -> res_status res <= U64_MAX -> st2 <= U64_MAX ->
            Sign.message ctx (response_payload n2 st2 l2) = Ok msg ->
            ctx = Sign.SERVER_RESPONSE /\ n2 = nonce /\ st2 = res_status res /\ (l2 = res_body res \/ collision).
Proof.
  rewrite serve_layers. intros -> Hs. destruct (run_prog _ _ a) as [a1 r] eqn:E. cbn [snd].
  destruct (BODY_LIMIT <? lenN (res_body r)) eqn:Hlim; [left; apply N.ltb_lt in Hlim; by simplify_eq | right].
  destruct (sign_response_total (sign_key (app_home a1)) nonce (res_status r) (res_body r)) as (sg & msg & Hsg & Hmsg).
  rewrite Hsg in Hs. simplify_eq. cbn [res_status res_body res_sig]. exists sg, msg. split; [done|].
  split; [by apply Sign.sign_verify|]. split; [done|]. intros ctx n2 st2 l2 Hctx Hst Hst2 Hm2.
  destruct (Sign.message_contexts_inj _ _ _ _ _ Hctx response_context Hm2 Hmsg) as [-> Heq].
  apply response_payload_inj in Heq as (-> & -> & Hl); [|done|done]. split_and!; done.
Qed.

(** ** Fetches beyond the response limit *)

Lemma dispatch_fetch d req :
  req_method req = POST -> req_path req = [lit "v1"; lit "mailbox"; lit "fetch"] ->
  dispatch routes d req = with_body req (mailbox_fetch d).
Proof.
  destruct req as [m p hd l ws]. cbn [req_method req_path]. intros -> ->. unfold routes. cbn [dispatch req_path].
  by rewrite !match_path_fit.
Qed.

(** The layers below [sign_after] on a fetch that the home server grants. *)
Lemma fetch_answer link d req (a : AppState) auth owner rows s1 :
  req_method req = POST -> req_path req = [lit "v1"; lit "mailbox"; lit "fetch"] -> lenN (req_body req) <= BODY_LIMIT ->
  auth_decode (req_body req) = Ok auth -> owner_id auth = Some owner ->
  fetch owner auth (t_owner d) (app_home a) <| now := t_home d |> = (s1, Ok rows) ->
  run_prog link (persist_after req (respond (dispatch routes d req))) a =
  (app_persist link (mk_app s1 (app_groups a) (app_db a) (app_wakes a + 1)),
   cbor_ok (Cbor.encode (Array (fetch_items rows)))).
Proof.
  intros Hm Hp Hl Ha Ho Hf. unfold persist_after. rewrite run_prog_bind, dispatch_fetch by done.
  unfold respond. rewrite run_prog_bind. unfold with_body, mailbox_fetch, return_if, decoded, some_or.
  assert (BODY_LIMIT <? lenN (req_body req) = false) as -> by (apply N.ltb_ge; lia). rewrite Ha. cbn. rewrite Ho. cbn.
  unfold mbind, stM_bind, call. cbn. rewrite Hf. cbn.
  assert (mutating req = true) as ->; [|done]. unfold mutating. rewrite Hm, Hp. reflexivity.
Qed.

Lemma item_length r l :
  encode_padded (row_inner r) = Ok l ->
  exists v, fetch_items [r] = [v] /\ lenN l <= lenN (write_value v).
Proof.
  intros Hl. unfold fetch_items. cbn -[write_value]. rewrite Hl. cbn -[write_value]. eexists. split; [done|].
  cbn -[write_head lenN app]. rewrite !lenN_app. lia.
Qed.

Lemma fetch_items_app rows rows' : fetch_items (rows ++ rows') = fetch_items rows ++ fetch_items rows'.
Proof. apply omap_app. Qed.

Lemma two_items_length p1 r1 p2 r2 p3 l1 l2 :
  encode_padded (row_inner r1) = Ok l1 -> encode_padded (row_inner r2) = Ok l2 ->
  lenN l1 + lenN l2 <= lenN (Cbor.encode (Array (fetch_items (p1 ++ [r1] ++ p2 ++ [r2] ++ p3)))).
Proof.
  intros (v1 & E1 & L1)%item_length (v2 & E2 & L2)%item_length. rewrite !fetch_items_app, E1, E2.
  unfold Cbor.encode. cbn [write_value]. rewrite lenN_app, !map_app, !concat_app. cbn [map concat].
  rewrite !lenN_app. lia.
Qed.

Lemma persist_mailboxes link db s gs db' s' gs' r :
  persist link (db, s, gs) = ((db', s', gs'), r) -> mailboxes s' = mailboxes s.
Proof.
  unfold persist. case_cond; [by intros; simplify_eq|].
  destruct (persist_inner _ _ _ _ _ _) as [db1 [[]|e]]; intros; by simplify_eq.
Qed.

Lemma app_persist_mailboxes link (a : AppState) : mailboxes (app_home (app_persist link a)) = mailboxes (app_home a).
Proof.
  unfold app_persist. destruct (app_db a) as [db|]; [|done].
  destruct (persist link _) as [[[db1 h1] gs1] r] eqn:E. by apply persist_mailboxes in E.
Qed.

(** A mailbox that holds two attachments of the largest bucket cannot be
    fetched by a client that asks for signed answers: the handler succeeds, but
    the answer exceeds what the signing layer reads back and becomes a 500
    without a signature. The rows stay, so the next fetch meets them again. *)
Theorem signed_fetch_over_limit_fails link d req (a : AppState) nonce auth owner rows s1 p1 r1 p2 r2 p3 l1 l2 :
  req_method req = POST -> req_path req = [lit "v1"; lit "mailbox"; lit "fetch"] -> lenN (req_body req) <= BODY_LIMIT ->
  header_token (req_headers req) RESPONSE_NONCE_HEADER = Some nonce ->
  auth_decode (req_body req) = Ok auth -> owner_id auth = Some owner ->
  fetch owner auth (t_owner d) (app_home a) <| now := t_home d |> = (s1, Ok rows) ->
  rows = p1 ++ [r1] ++ p2 ++ [r2] ++ p3 ->
  encode_padded (row_inner r1) = Ok l1 -> encode_padded (row_inner r2) = Ok l2 ->
  lenN l1 = A4_OUTER -> lenN l2 = A4_OUTER ->
  (serve link d req a).2 = status INTERNAL_SERVER_ERROR
  /\ mailboxes (app_home (serve link d req a).1) = mailboxes s1.
Proof.
  intros Hm Hp Hl Hn Ha Ho Hf Hrows E1 E2 L1 L2. rewrite serve_layers, Hn, (fetch_answer _ _ _ _ _ _ _ _ Hm Hp Hl Ha Ho Hf).
  pose proof (two_items_length p1 r1 p2 r2 p3 l1 l2 E1 E2) as Hlen. rewrite <- Hrows in Hlen. cbn [res_body cbor_ok fst snd].
  rewrite L1, L2 in Hlen. split; [|apply app_persist_mailboxes].
  assert (BODY_LIMIT <? lenN (Cbor.encode (Array (fetch_items rows))) = true) as ->; [|done].
  apply N.ltb_lt. unfold BODY_LIMIT, A4_OUTER in *. lia.
Qed.
End Guarantees.

(** ** Wake-ups *)

Fixpoint times_from (t : N) (events : list (WakeEvent * N * N)) : Prop :=
  match events with
  | [] => True
  | (_, t', _) :: events => t <= t' /\ times_from t' events
  end.

Definition rested (t : N) (w : Waker) : Prop := forall l, last_wake w = Some l -> l <= t.

(** Frames are at least [WAKE_COALESCE] apart, from the last one before them. *)
Fixpoint spaced (last : option N) (frames : list N) : Prop :=
  match frames with
  | [] => True
  | f :: frames => match last with Some l => l + WAKE_COALESCE <= f | None => True end /\ spaced (Some f) frames
  end.

Lemma wake_check_spaced t head w w' sent :
  rested t w -> wake_check t head w = (w', sent) ->
  rested t w' /\ (sent = true -> last_wake w' = Some t
    /\ match last_wake w with Some l => l + WAKE_COALESCE <= t | None => True end)
  /\ (sent = false -> w' = w).
Proof.
  intros Hr. unfold wake_check. case_cond; intros; simplify_eq; split_and!; try done.
  - intros l. cbn. intros [= <-]. lia.
  - intros _. split; [done|]. apply andb_true_iff in G as [_ G]. destruct (last_wake w) as [l|] eqn:E; [|done].
    specialize (Hr l E). apply N.leb_le in G. lia.
Qed.

(** A wake-up connection never sends two frames within ten seconds, whatever
    notifications and client frames it sees. *)
Theorem wake_frames_coalesced events t head w :
  rested t w -> times_from t events -> spaced (last_wake w) (run_wakeup events t head w).
Proof.
  revert t head w. induction events as [|[[e t'] head'] events IH]; intros t head w Hr Ht; cbn [run_wakeup];
    destruct (wake_check t head w) as [w' sent] eqn:E; destruct (wake_check_spaced _ _ _ _ _ Hr E) as (Hr' & Hs & Hn).
  - rewrite app_nil_r. destruct sent; [|done]. by destruct (Hs eq_refl).
  - destruct Ht as [Hle Ht]. assert (rested t' w') as Hr2 by (intros l Hl; specialize (Hr' l Hl); lia).
    specialize (IH t' head' w' Hr2 Ht).
    assert (spaced (last_wake w') (match e with ClientGone => [] | _ => run_wakeup events t' head' w' end)) as Hrest
      by by destruct e.
    destruct sent; cbn [app]; [destruct (Hs eq_refl) as [Hl Hsp]; rewrite Hl in Hrest; by destruct e|].
    rewrite (Hn eq_refl) in *. by destruct e.
Qed.

(** An envelope that arrives within ten seconds after a frame is not
    announced when the ten seconds are over: the loop sleeps until another
    notification or client frame, however long that takes. *)
Theorem coalesced_wake_not_sent t head w t' head' t'' head'' e :
  last_seen w < head -> last_wake w = None -> head < head' -> t <= t' < t + WAKE_COALESCE ->
  run_wakeup [(Notified, t', head')] t head w = [t]
  /\ (e <> ClientGone -> head' <= head'' -> t + WAKE_COALESCE <= t'' ->
      run_wakeup [(Notified, t', head'); (e, t'', head'')] t head w = [t; t'']).
Proof.
  intros Hs Hw Hh Ht. cbn [run_wakeup]. unfold wake_check at 1 3. rewrite Hw.
  apply N.ltb_lt in Hs. rewrite Hs. cbn [andb app].
  assert (wake_check t' head' (mk_waker head (Some t)) = (mk_waker head (Some t), false)) as ->.
  { unfold wake_check. cbn. assert (WAKE_COALESCE <=? t' - t = false) as -> by (apply N.leb_gt; lia). by rewrite andb_false_r. }
  split; [done|]. intros He Hh' Ht'.
  assert (wake_check t'' head'' (mk_waker head (Some t)) = (mk_waker head'' (Some t''), true)) as Hc.
  { unfold wake_check. cbn. assert (WAKE_COALESCE <=? t'' - t = true) as -> by (apply N.leb_le; lia).
    by assert (head <? head'' = true) as -> by (apply N.ltb_lt; lia). }
  destruct e; [| |done]; cbn [run_wakeup app]; by rewrite Hc.
Qed.

(** ** Witnesses *)

Section Witnesses.
#[local] Existing Instances Toy.toy Toy.toy_laws.
#[local] Instance doc_axum : Axum := {| match_path := fit_path; to_str := visible_str |}.
#[local] Instance doc_axum_laws : AxumLaws.
Proof. by split. Qed.
#[local] Instance toy_turn : TurnLib := {| hmac_sha1 k l := k ++ l; b64_standard l := to_hex l |}.

(** The server whose key the sample card names, right after its first start. *)
Definition card_seed : key := arr_repeat 32 x22.

Definition sample_draws : Draws :=
  mk_draws 1700000100 1700000100 1700000100 (fun _ => arr_repeat 32 x66) (fun _ _ => (arr_repeat 32 x67, arr_repeat 32 x68))
    (mk_turn_env 1700000100 (arr_repeat 16 x01) None None (arr_repeat 32 x69)).

Definition card_bytes : bytes := match card_encode sample_card with Ok l => l | Err _ => [] end.

Definition register_request : HttpRequest := mk_request POST [lit "v1"; lit "register"] [] card_bytes (Err 400).

Lemma card_bytes_decode : card_decode card_bytes = Ok sample_card.
Proof. vm_compute. reflexivity. Qed.

Lemma register_program :
  exists K, router sample_draws register_request
            = AtHome (set_now 1700000100;; call error_status (register_from_card sample_card)) K
    /\ forall id, K (Ok id) = Wake (Persist (Done (status NO_CONTENT))).
Proof.
  assert (dispatch routes sample_draws register_request = with_body register_request (http_register sample_draws)) as Hd
    by reflexivity.
  unfold router, persist_after, sign_after, respond. rewrite Hd. unfold with_body, http_register, decoded.
  change (req_body register_request) with card_bytes. rewrite card_bytes_decode.
  assert (BODY_LIMIT <? lenN card_bytes = false) as -> by (vm_compute; reflexivity).
  eexists. split; [reflexivity | done].
Qed.

(** The server with the registration in progress. *)
Definition registering (p : proc) : server :=
  with_threads [mk_thread register_request sample_draws (router sample_draws register_request) 0 false] (just_booted p).

Lemma registering_runs p : sruns card_seed sample_server_sk (just_booted p) 0 (registering p).
Proof. exact (R_step _ _ _ _ _ _ _ (R_refl _ _ _) (S_arrive _ _ (just_booted p) register_request sample_draws)). Qed.

Definition sample_proc : proc :=
  match booted card_seed sample_server_sk (lit "local") 8443 with
  | Some p => p
  | None => mk_proc empty_db FileMissing sample_home host_new (sample_home, host_new)
  end.

Lemma sample_proc_booted : booted card_seed sample_server_sk (lit "local") 8443 = Some sample_proc.
Proof. unfold sample_proc. by destruct (boot_ok card_seed sample_server_sk (lit "local") 8443 ltac:(done)) as (p & -> & _). Qed.

Definition register_ops : list server_op := [SHome (OpNow 1700000100); SHome (OpRegisterCard sample_card)].

Lemma register_env (s : HomeServer) : tokens s = [] -> home_env sample_draws register_request s /\ home_trace register_ops s.
Proof.
  intros Ht. split.
  - split; [vm_compute; discriminate|]. rewrite Ht. split; [by intros ?%not_elem_of_nil|].
    split; [by intros _ card _ ?%not_elem_of_nil|].
    intros Hp. apply (f_equal length) in Hp. change (2%nat = 3%nat) in Hp. discriminate Hp.
  - split; [vm_compute; discriminate|]. split; [split; [intros tok Hn; discriminate Hn | exact I]|].
    split; [exact (card_decode_fits _ _ card_bytes_decode)|]. split; [|exact I]. split; [|exact I].
    intros tok _. change (tok ∉ map fst (tokens s)). rewrite Ht. apply not_elem_of_nil.
Qed.

Lemma sample_tokens : tokens (p_home sample_proc) = [].
Proof. vm_compute. reflexivity. Qed.

Lemma sample_registers :
  is_ok ((set_now 1700000100;; call error_status (register_from_card sample_card)) (p_home sample_proc)).2 = true.
Proof. vm_compute. reflexivity. Qed.

Example http_sections_refine_witness :
  exists ops, proc_of (run_section LinkUp 0 (mk_thread register_request sample_draws
      (router sample_draws register_request) 0 false) (registering sample_proc))
    = prun card_seed sample_server_sk ops (proc_of (registering sample_proc)).
Proof.
  destruct (http_sections_refine card_seed sample_server_sk (lit "local") 8443 sample_proc 0 (registering sample_proc) 0
    (mk_thread register_request sample_draws (router sample_draws register_request) 0 false) LinkUp
    ltac:(vm_compute; discriminate) sample_proc_booted (registering_runs sample_proc) ltac:(reflexivity) eq_refl) as (ops & _ & Hrun & _).
  - unfold section_env. cbn [th_prog th_draws th_req]. destruct register_program as (K & -> & _).
    exact (proj1 (register_env _ sample_tokens)).
  - discriminate.
  - exists ops. exact Hrun.
Defined.

Lemma register_answered p :
  booted card_seed sample_server_sk (lit "local") 8443 = Some p -> tokens (p_home p) = [] ->
  is_ok ((set_now 1700000100;; call error_status (register_from_card sample_card)) (p_home p)).2 = true ->
  exists sv th, sruns card_seed sample_server_sk (just_booted p) 3 sv /\ sv_threads sv !! 0%nat = Some th
    /\ th_prog th = Done (status NO_CONTENT) /\ th_req th = register_request /\ th_saved th = true.
Proof.
  intros Hb Htok Hok. destruct register_program as (K & Hprog & HK).
  set (th := mk_thread register_request sample_draws (router sample_draws register_request) 0 false).
  assert (server_inv 1 (registering p)) as Hi.
  { apply (sruns_inv card_seed sample_server_sk 1 (just_booted p) 0);
      [exact (just_booted_inv card_seed sample_server_sk (lit "local") 8443 _ ltac:(vm_compute; discriminate) Hb)
      | exact (registering_runs p) | reflexivity]. }
  destruct (register_env _ Htok) as [He Ht].
  destruct ((set_now 1700000100;; call error_status (register_from_card sample_card)) (p_home p)) as [h1 [id|]] eqn:Er;
    [|discriminate Hok].
  destruct (answered card_seed sample_server_sk 1 (registering p) 0 th _ _ K (status NO_CONTENT) (map Request register_ops)
    Hi ltac:(reflexivity) eq_refl Hprog) as (sv & th' & Hr & Hrest).
  - unfold section_env. cbn [th_prog th]. rewrite Hprog. exact He.
  - cbn [th_prog th]. rewrite Hprog. exists register_ops. split; [reflexivity|]. split; [exact Ht|].
    change (p_home (proc_of (registering p))) with (p_home p). rewrite Er. cbn [fst].
    unfold register_ops, srun. cbn [foldl sexec exec].
    unfold mbind, stM_bind, set_now, modify, call in Er. destruct (register_from_card sample_card _) as [h2 r2]. by injection Er as -> _.
  - change (app_home (sv_app (registering p))) with (p_home p). rewrite Er. apply HK.
  - exists sv, th'. exact (conj (sruns_trans card_seed sample_server_sk _ _ _ _ _ (registering_runs p) Hr) Hrest).
Qed.

Example acknowledged_is_durable_witness :
  exists sv k mem db s gs, sv_history sv !! k = Some mem
    /\ start card_seed sample_server_sk (lit "local") 8443 (sv_db sv) (sv_file sv) = (db, sv_file sv, Ok (s, gs))
    /\ resumed (lit "local") 8443 mem s gs.
Proof.
  destruct (register_answered sample_proc sample_proc_booted sample_tokens sample_registers) as (sv & th & Hr & Hth & Hd & Hq & Hs).
  destruct (acknowledged_is_durable card_seed sample_server_sk (lit "local") 8443 sample_proc 3 sv 0 th (status NO_CONTENT)
    (lit "local") 8443 ltac:(vm_compute; discriminate) sample_proc_booted Hr ltac:(reflexivity) Hth Hd
    ltac:(rewrite Hq; vm_compute; reflexivity) ltac:(reflexivity) Hs ltac:(vm_compute; discriminate))
    as (k & mem & db & s & gs & H1 & _ & H2 & H3).
  exists sv, k, mem, db, s, gs. exact (conj H1 (conj H2 H3)).
Defined.

(** *** Signed answers *)

Definition signed_headers : list (rstring * bytes) := [(RESPONSE_NONCE_HEADER, hex_encode (to_vec (arr_repeat 32 x51)))].

Definition bundle_request : HttpRequest := mk_request GET [lit "v1"; lit "bundle"] signed_headers [] (Err 400).

Example responses_are_signed_witness :
  exists sg : sig64, res_sig (serve LinkUp sample_draws bundle_request (from_parts sample_home host_new)).2 = Some (to_hex (to_vec sg)).
Proof.
  assert (header_token (req_headers bundle_request) RESPONSE_NONCE_HEADER = Some (arr_repeat 32 x51)) as Hn
    by (vm_compute; reflexivity).
  destruct (serve LinkUp sample_draws bundle_request (from_parts sample_home host_new)) as [a' res] eqn:Hs.
  destruct (responses_are_signed LinkUp sample_draws bundle_request (from_parts sample_home host_new) (arr_repeat 32 x51) a' res Hn Hs)
    as [[_ Hb]|(sg & msg & Hsg & _)]; [exfalso | exists sg; exact Hsg].
  vm_compute in Hb. discriminate Hb.
Defined.

(** A mailbox with two attachments of the largest bucket. *)
Definition big_row (sq : N) (tok : byte) : StoredEnvelope :=
  mk_stored sq 1700000000 1700100000
    (mk_inner (arr_repeat 32 x44) TTL_DEFAULT (arr_repeat 32 tok) (mk_padded AttachmentDr [] A4)).

Definition big_box (box : Mailbox) : Mailbox :=
  box <| next_seq := 3 |> <| rows := [(1, big_row 1 x01); (2, big_row 2 x02)] |> <| box_bytes := 2 * A4_OUTER |>.

Definition big_home : HomeServer := sample_registered <| mailboxes ::= alter big_box sample_id |>.

Definition fetch_request : HttpRequest :=
  mk_request POST [lit "v1"; lit "mailbox"; lit "fetch"] signed_headers (auth_encode sample_fetch) (Err 400).

Definition fetch_draws : Draws :=
  mk_draws 1700000000 1700000000 1700000000 (rnd sample_draws) (fan sample_draws) (turn_env sample_draws).

Lemma big_fetch :
  (fetch sample_id sample_fetch 1700000000 big_home <| now := 1700000000 |>).2 = Ok [big_row 1 x01; big_row 2 x02].
Proof. vm_compute. reflexivity. Qed.

Lemma big_row_encodes sq tok : exists l, encode_padded (row_inner (big_row sq tok)) = Ok l /\ lenN l = A4_OUTER.
Proof.
  assert (msg_ok (padded_message (row_inner (big_row sq tok)))) as Hok by (split; [apply (bool_decide_unpack _); vm_compute; exact I | vm_compute; discriminate]).
  apply encode_padded_ok in Hok. eexists. split; [exact Hok|]. by apply encode_padded_len in Hok.
Qed.

Example signed_fetch_over_limit_fails_witness :
  (serve LinkUp fetch_draws fetch_request (from_parts big_home host_new)).2 = status INTERNAL_SERVER_ERROR.
Proof.
  destruct (fetch sample_id sample_fetch 1700000000 big_home <| now := 1700000000 |>) as [s1 r] eqn:Hf.
  pose proof big_fetch as Hr. rewrite Hf in Hr. cbn [snd] in Hr. rewrite Hr in Hf. clear Hr r.
  destruct (big_row_encodes 1 x01) as (l1 & E1 & L1), (big_row_encodes 2 x02) as (l2 & E2 & L2).
  exact (proj1 (signed_fetch_over_limit_fails LinkUp fetch_draws fetch_request (from_parts big_home host_new) (arr_repeat 32 x51)
    sample_fetch sample_id _ s1 [] (big_row 1 x01) [] (big_row 2 x02) [] l1 l2 eq_refl eq_refl
    ltac:(vm_compute; discriminate) ltac:(vm_compute; reflexivity) ltac:(vm_compute; reflexivity) ltac:(vm_compute; reflexivity)
    Hf eq_refl E1 E2 L1 L2)).
Defined.
End Witnesses.

Example wake_frames_coalesced_witness :
  run_wakeup [(Notified, 103, 2); (Notified, 111, 3)] 100 1 (waker_new 0) = [100; 111]
  /\ spaced None (run_wakeup [(Notified, 103, 2); (Notified, 111, 3)] 100 1 (waker_new 0)).
Proof.
  split; [reflexivity|].
  apply (wake_frames_coalesced [(Notified, 103, 2); (Notified, 111, 3)] 100 1 (waker_new 0)); [by intros l [=]|].
  cbn. split_and!; [lia | lia | exact I].
Defined.

Example coalesced_wake_not_sent_witness : run_wakeup [(Notified, 105, 2)] 100 1 (waker_new 0) = [100].
Proof.
  exact (proj1 (coalesced_wake_not_sent 100 1 (waker_new 0) 105 2 110 2 Notified ltac:(cbn; lia) eq_refl ltac:(lia)
    ltac:(unfold WAKE_COALESCE; lia))).
Defined.
