(* ===== verification/CoreErr.v ===== *)
(** * Errors of the client crate

    [nemo-core/src/error.rs]. Messages of external crates ([Call], [Mls],
    [Transport], [VaultIo]) are dropped where they only carry a display text;
    the literal messages the code writes itself are kept. *)

From S2P Require Export Ids.

(** [nemo_core::CoreError]; variants that share a name with another error type
    carry the prefix [Core]. *)
Inductive CoreError : Type :=
| CoreWire (e : WireError)
| Signal
| Mnemonic
| EmptyPrekeyStock
| IdentityMismatch
| BadKey
| BadCiphertext
| TextTooLong
| EmojiTooLong
| DirectIceForbidden
| DtlsFingerprintMismatch
| CallError (msg : message_text)
| Mls (msg : message_text)
| MlsWrongEpoch
| StaleMlsUpdate
| UnframedRemove
| ExternalMlsJoin
| MlsReinit
| WrongCiphersuite
| BadRemoveBundle
| PendingCommit
| LeafExtensionViolation
| UnannouncedSignerChange
| CredentialIdMismatch
| BadIntro
| UnsignedResponse
| ServerPinMismatch
| WrongMailboxType
| MaximumNotShipped
| CoverNotShipped
| CallsUnavailable
| Revoked
| BoundInvite
| BindingDowngrade
| CoreDenied
| CoreAlreadyRegistered
| HomeHttp (status : N)
| Transport (msg : message_text)
| UnknownContact
| NotRegistered
| WeakPassphrase
| VaultExists
| VaultMissing
| VaultLocked
| VaultCorrupt
| VaultIo (msg : message_text)
| VaultDetached.

Notation cresult := (result CoreError).

#[global] Instance core_error_eq_decision : EqDecision CoreError.
Proof. solve_decision. Defined.

(** [CoreError::mls_retryable]. *)
Definition mls_retryable (e : CoreError) : bool :=
  match e with
  | MlsWrongEpoch | PendingCommit | UnframedRemove | BadRemoveBundle | ExternalMlsJoin
  | MlsReinit | LeafExtensionViolation | CredentialIdMismatch | WrongCiphersuite
  | UnannouncedSignerChange => true
  | _ => false
  end.

(** The conversion [From<WireError>] that [?] applies. *)
Definition cwire {A} (m : wresult A) : cresult A := map_err CoreWire m.

(** [.map_err(|_| CoreError::VaultCorrupt)?]. *)
Definition corrupt {E A} (m : result E A) : cresult A := map_err (fun _ => VaultCorrupt) m.

(** ** Strings

    What the client uses of [str]: comparison, [to_ascii_lowercase] and
    [split_whitespace] over the UTF-8 bytes. *)

Definition str_is (t s : rstring) : bool := bool_decide (t = s).

Definition ascii_lower (b : byte) : byte :=
  if in_range x41 b x5a then byte_of_N (Byte.to_N b + 32) else b.

(** The characters with the property [White_Space], by the length of their
    encoding. *)
Definition ws1 (a : byte) : bool := in_range x09 a x0d || Byte.eqb a x20.
Definition ws2 (a b : byte) : bool := Byte.eqb a xc2 && (Byte.eqb b x85 || Byte.eqb b xa0).
Definition ws3 (a b c : byte) : bool :=
  (Byte.eqb a xe1 && Byte.eqb b x9a && Byte.eqb c x80)
  || (Byte.eqb a xe2 && Byte.eqb b x80
      && (in_range x80 c x8a || Byte.eqb c xa8 || Byte.eqb c xa9 || Byte.eqb c xaf))
  || (Byte.eqb a xe2 && Byte.eqb b x81 && Byte.eqb c x9f)
  || (Byte.eqb a xe3 && Byte.eqb b x80 && Byte.eqb c x80).

(** Ends the token [cur], when there is one. *)
Definition token (cur : bytes) (rest : list bytes) : list bytes :=
  match cur with [] => rest | _ => cur :: rest end.

(** [split_whitespace]; no byte of a longer character starts a whitespace
    character, so the scan may step byte by byte. *)
Fixpoint split_ws (cur l : bytes) : list bytes :=
  match l with
  | [] => token cur []
  | a :: r =>
      if ws1 a then token cur (split_ws [] r)
      else match r with
           | b :: r1 =>
               if ws2 a b then token cur (split_ws [] r1)
               else match r1 with
                    | c :: r2 =>
                        if ws3 a b c then token cur (split_ws [] r2)
                        else split_ws (cur ++ [a]) r
                    | [] => split_ws (cur ++ [a]) r
                    end
           | [] => split_ws (cur ++ [a]) r
           end
  end.

Definition split_whitespace (l : bytes) : list bytes := split_ws [] l.

(** ** Lemmas *)

Lemma str_is_refl s : str_is s s = true.
Proof. by apply bool_decide_eq_true_2. Qed.

Lemma wire_ok {A} (m : wresult A) a : cwire m = Ok a -> m = Ok a.
Proof. destruct m; cbn; congruence. Qed.

Lemma corrupt_ok {E A} (m : result E A) a : corrupt m = Ok a -> m = Ok a.
Proof. destruct m; cbn; congruence. Qed.

(** Decides comparisons of string literals. *)
Ltac eval_str :=
  repeat match goal with
  | |- context [str_is ?a ?b] =>
      let v := eval vm_compute in (str_is a b) in
      lazymatch v with true => idtac | false => idtac end;
      change (str_is a b) with v; cbn [negb andb orb]
  end.
