(* ===== verification/AppMsg.v ===== *)
(** * Application messages

    [nemo-core/src/app.rs]: the plaintext that two clients exchange inside the
    end-to-end layer, its CBOR encoding, the limits on its fields, and the
    signed self-introduction of a contact capability. *)

From S2P Require Export CoreErr Envelope Card.
From S2P Require Import Toy Records.

Definition TEXT_MAX_BYTES : N := 8192.
Definition EMOJI_MAX_BYTES : N := 32.
Definition GROUP_NAME_MAX_BYTES : N := 128.
Notation CALL_ID_LEN := 16.

(** ** Data *)

Record CapabilityIntro : Type := mk_intro {
  intro_identity_id : key;
  intro_identity_public_key : key;
  intro_revocation_public_key : key;
  intro_dest_hpke : key;
  intro_binding_seq : N;
  session_key : bytes;
  recipient : key;
  intro_signature : sig64
}.

Record AppHeader : Type := mk_app_header {
  conv_seq : N;
  sent_at : N;
  reply_to : option N
}.

Record FileMeta : Type := mk_file_meta { meta_name : rstring; meta_mime : rstring; meta_size : N }.

Notation CallId := (arr CALL_ID_LEN).

Inductive AppBody : Type :=
| AppText (text : rstring)
| AppAttachment (enc_file : bytes) (meta : FileMeta) (fetch_token : option key)
| AppReaction (target : N) (emoji : rstring)
| AppDelete (target : N)
| AppProtocolAck (upto : N)
| AppRead (upto : N)
| AppCapability (contact_capability : key) (intro : option CapabilityIntro)
| AppBindingGossip (identity_id : key) (seq : N) (server_id : key)
| AppDisappear (seconds : N)
| AppGroupName (group_id : key) (name : rstring)
| AppCallInvite (call_id : CallId) (sdp dtls_fp : rstring) (ice : list rstring) (expires_at : N)
| AppCallRinging (call_id : CallId)
| AppCallAnswer (call_id : CallId) (sdp dtls_fp : rstring) (ice : list rstring)
| AppCallIce (call_id : CallId) (ice : list rstring)
| AppCallReject (call_id : CallId)
| AppCallCancel (call_id : CallId)
| AppCallEnd (call_id : CallId)
| AppUnknown (msg_type : rstring).

Record AppMessage : Type := mk_app_msg { app_header : AppHeader; app_body : AppBody }.

(** [AppMessage::text]. *)
Definition app_text (sq t : N) (text : rstring) : AppMessage :=
  mk_app_msg (mk_app_header sq t None) (AppText text).

(** [AppMessage::msg_type]. *)
Definition msg_type (msg : AppMessage) : rstring :=
  match app_body msg with
  | AppText _ => lit "text"
  | AppAttachment _ _ _ => lit "attachment"
  | AppReaction _ _ => lit "reaction"
  | AppDelete _ => lit "delete"
  | AppProtocolAck _ => lit "protocol_ack"
  | AppRead _ => lit "read"
  | AppCapability _ _ => lit "capability"
  | AppBindingGossip _ _ _ => lit "binding_gossip"
  | AppDisappear _ => lit "disappear"
  | AppGroupName _ _ => lit "group_name"
  | AppCallInvite _ _ _ _ _ => lit "call_invite"
  | AppCallRinging _ => lit "call_ringing"
  | AppCallAnswer _ _ _ _ => lit "call_answer"
  | AppCallIce _ _ => lit "call_ice"
  | AppCallReject _ => lit "call_reject"
  | AppCallCancel _ => lit "call_cancel"
  | AppCallEnd _ => lit "call_end"
  | AppUnknown t => t
  end.

Definition invite_ttl_bucket : TtlBucket := TTL_SECONDS_60.

(** ** Candidates *)

(** The scan of [ice_typ] with its variable [prev]. *)
Fixpoint ice_typ_from (prev : bytes) (toks : list bytes) (typ : bytes) : bool :=
  match toks with
  | [] => false
  | tok :: toks =>
      if bool_decide (prev = String.list_byte_of_string "typ") && bool_decide (tok = typ) then true
      else ice_typ_from tok toks typ
  end.

Definition ice_typ (candidate typ : bytes) : bool :=
  ice_typ_from [] (split_whitespace candidate) typ.

(** Whether the loop of [reject_direct_ice] returns an error at [c]. *)
Definition direct_candidate (c : rstring) : bool :=
  let lower := map ascii_lower (as_bytes c) in
  ice_typ lower (String.list_byte_of_string "host") || ice_typ lower (String.list_byte_of_string "srflx").

Fixpoint reject_direct_ice (ice : list rstring) : cresult unit :=
  match ice with
  | [] => Ok tt
  | c :: ice => if direct_candidate c then Err DirectIceForbidden else reject_direct_ice ice
  end.

(** ** Limits *)

(** [validate]. *)
Definition validate (msg : AppMessage) : cresult unit :=
  match app_body msg with
  | AppText text => if TEXT_MAX_BYTES <? lenN (as_bytes text) then Err TextTooLong else Ok tt
  | AppGroupName _ name => if GROUP_NAME_MAX_BYTES <? lenN (as_bytes name) then Err TextTooLong else Ok tt
  | AppReaction _ emoji => if EMOJI_MAX_BYTES <? lenN (as_bytes emoji) then Err EmojiTooLong else Ok tt
  | AppCallInvite _ _ _ ice _ | AppCallAnswer _ _ _ ice | AppCallIce _ ice => reject_direct_ice ice
  | _ => Ok tt
  end.

(** ** Encoding *)

Definition encode_meta (meta : FileMeta) : Value :=
  Map [(0, Text (meta_name meta)); (1, Text (meta_mime meta)); (2, Uint (meta_size meta))].

Definition ice_value (ice : list rstring) : Value := Array (map Text ice).

(** [extra_fields]: the pairs it pushes. *)
Definition extra_fields (body : AppBody) : list (N * Value) :=
  match body with
  | AppText text => [(5, Text text)]
  | AppAttachment enc_file meta fetch_token =>
      [(5, Bytes enc_file); (6, encode_meta meta)]
      ++ match fetch_token with Some t => [(7, Bytes (to_vec t))] | None => [] end
  | AppReaction target emoji => [(5, Uint target); (6, Text emoji)]
  | AppDelete target => [(5, Uint target)]
  | AppProtocolAck upto => [(5, Uint upto)]
  | AppRead upto => [(5, Uint upto)]
  | AppCapability cap intro =>
      [(5, Bytes (to_vec cap))]
      ++ match intro with
         | Some i =>
             [(6, Bytes (to_vec (intro_identity_id i)));
              (7, Bytes (to_vec (intro_identity_public_key i)));
              (8, Bytes (to_vec (intro_revocation_public_key i)));
              (9, Bytes (to_vec (intro_dest_hpke i)));
              (10, Uint (intro_binding_seq i));
              (11, Bytes (session_key i));
              (12, Bytes (to_vec (recipient i)));
              (13, Bytes (to_vec (intro_signature i)))]
         | None => []
         end
  | AppBindingGossip id sq sid => [(5, Bytes (to_vec id)); (6, Uint sq); (7, Bytes (to_vec sid))]
  | AppDisappear seconds => [(5, Uint seconds)]
  | AppGroupName gid name => [(5, Bytes (to_vec gid)); (6, Text name)]
  | AppCallInvite cid sdp fp ice ex =>
      [(5, Bytes (to_vec cid)); (6, Text sdp); (7, Text fp); (8, ice_value ice); (9, Uint ex)]
  | AppCallRinging cid => [(5, Bytes (to_vec cid))]
  | AppCallAnswer cid sdp fp ice =>
      [(5, Bytes (to_vec cid)); (6, Text sdp); (7, Text fp); (8, ice_value ice)]
  | AppCallIce cid ice => [(5, Bytes (to_vec cid)); (6, ice_value ice)]
  | AppCallReject cid | AppCallCancel cid | AppCallEnd cid => [(5, Bytes (to_vec cid))]
  | AppUnknown _ => []
  end.

Definition is_unknown (body : AppBody) : bool :=
  match body with AppUnknown _ => true | _ => false end.

(** The pairs of an encoded message. *)
Definition app_pairs (msg : AppMessage) : list (N * Value) :=
  [(0, Uint PROTOCOL_VERSION); (1, Text (msg_type msg)); (2, Uint (conv_seq (app_header msg)));
   (3, Uint (sent_at (app_header msg)))]
  ++ match reply_to (app_header msg) with Some r => [(4, Uint r)] | None => [] end
  ++ extra_fields (app_body msg).

(** [app::encode]. *)
Definition app_encode (msg : AppMessage) : cresult bytes :=
  if is_unknown (app_body msg) then Err (CoreWire (Cbor "cannot encode unknown msg_type"))
  else
    validate msg;;
    Ok (encode (Map (app_pairs msg))).

Definition encode_text (sq t : N) (text : rstring) : cresult bytes := app_encode (app_text sq t text).

(** ** Decoding *)

Definition app_fixed (n : N) (l : bytes) : cresult (arr n) := cwire (copy_fixed n l).

Definition app_call_id (v : Value) : cresult CallId := l ← cwire (expect_bytes v); app_fixed CALL_ID_LEN l.

Definition decode_meta (v : Value) : cresult FileMeta :=
  m ← cwire (expect_map v);
  name ← cwire (get_text m 0);
  mime ← cwire (get_text m 1);
  size ← cwire (get_uint m 2);
  Ok (mk_file_meta name mime size).

Fixpoint decode_ice_items (items : list Value) : cresult (list rstring) :=
  match items with
  | [] => Ok []
  | item :: items => s ← cwire (expect_text item); ice ← decode_ice_items items; Ok (s :: ice)
  end.

Definition decode_ice (v : Value) : cresult (list rstring) :=
  items ← cwire (expect_array v); decode_ice_items items.

(** The intro of a capability, when field 6 is present. *)
Definition parse_intro (m : list (N * Value)) : cresult (option CapabilityIntro) :=
  match map_get_opt m 6 with
  | None => Ok None
  | Some v =>
      l ← cwire (expect_bytes v); id ← app_fixed KEY_LEN l;
      ik ← cwire (get_fixed KEY_LEN m 7);
      rk ← cwire (get_fixed KEY_LEN m 8);
      hpke ← cwire (get_fixed KEY_LEN m 9);
      sq ← cwire (get_uint m 10);
      v11 ← map_err (fun _ => BadIntro) (map_get m 11); sk ← cwire (expect_bytes v11);
      v12 ← map_err (fun _ => BadIntro) (map_get m 12); l12 ← cwire (expect_bytes v12);
      rcpt ← app_fixed KEY_LEN l12;
      v13 ← map_err (fun _ => BadIntro) (map_get m 13); l13 ← cwire (expect_bytes v13);
      sg ← app_fixed SIG_LEN l13;
      Ok (Some (mk_intro id ik rk hpke sq sk rcpt sg))
  end.

Definition parse_call_id (m : list (N * Value)) : cresult CallId :=
  v ← cwire (map_get m 5); app_call_id v.

(** [parse_body]. *)
Definition parse_body (t : rstring) (m : list (N * Value)) : cresult AppBody :=
  if str_is t (lit "text") then s ← cwire (get_text m 5); Ok (AppText s)
  else if str_is t (lit "attachment") then
    f ← cwire (get_bytes m 5);
    v ← cwire (map_get m 6); meta ← decode_meta v;
    tok ← match map_get_opt m 7 with
          | Some v => l ← cwire (expect_bytes v); k ← app_fixed KEY_LEN l; Ok (Some k)
          | None => Ok None
          end;
    Ok (AppAttachment f meta tok)
  else if str_is t (lit "reaction") then
    target ← cwire (get_uint m 5); emoji ← cwire (get_text m 6); Ok (AppReaction target emoji)
  else if str_is t (lit "delete") then n ← cwire (get_uint m 5); Ok (AppDelete n)
  else if str_is t (lit "protocol_ack") then n ← cwire (get_uint m 5); Ok (AppProtocolAck n)
  else if str_is t (lit "read") then n ← cwire (get_uint m 5); Ok (AppRead n)
  else if str_is t (lit "capability") then
    cap ← cwire (get_fixed KEY_LEN m 5);
    intro ← parse_intro m;
    Ok (AppCapability cap intro)
  else if str_is t (lit "binding_gossip") then
    id ← cwire (get_fixed KEY_LEN m 5); sq ← cwire (get_uint m 6); sid ← cwire (get_fixed KEY_LEN m 7);
    Ok (AppBindingGossip id sq sid)
  else if str_is t (lit "disappear") then n ← cwire (get_uint m 5); Ok (AppDisappear n)
  else if str_is t (lit "group_name") then
    gid ← cwire (get_fixed KEY_LEN m 5); name ← cwire (get_text m 6); Ok (AppGroupName gid name)
  else if str_is t (lit "call_invite") then
    cid ← parse_call_id m; sdp ← cwire (get_text m 6); fp ← cwire (get_text m 7);
    v ← cwire (map_get m 8); ice ← decode_ice v; ex ← cwire (get_uint m 9);
    Ok (AppCallInvite cid sdp fp ice ex)
  else if str_is t (lit "call_ringing") then cid ← parse_call_id m; Ok (AppCallRinging cid)
  else if str_is t (lit "call_answer") then
    cid ← parse_call_id m; sdp ← cwire (get_text m 6); fp ← cwire (get_text m 7);
    v ← cwire (map_get m 8); ice ← decode_ice v;
    Ok (AppCallAnswer cid sdp fp ice)
  else if str_is t (lit "call_ice") then
    cid ← parse_call_id m; v ← cwire (map_get m 6); ice ← decode_ice v; Ok (AppCallIce cid ice)
  else if str_is t (lit "call_reject") then cid ← parse_call_id m; Ok (AppCallReject cid)
  else if str_is t (lit "call_cancel") then cid ← parse_call_id m; Ok (AppCallCancel cid)
  else if str_is t (lit "call_end") then cid ← parse_call_id m; Ok (AppCallEnd cid)
  else Ok (AppUnknown t).

(** [app::decode]. *)
Definition app_decode (l : bytes) : cresult AppMessage :=
  m ← cwire (decode_map "app message must be a map" l);
  cwire (check_version m 0);;
  t ← cwire (get_text m 1);
  sq ← cwire (get_uint m 2);
  sent ← cwire (get_uint m 3);
  reply ← match map_get_opt m 4 with
          | Some v => n ← cwire (expect_uint v); Ok (Some n)
          | None => Ok None
          end;
  body ← parse_body t m;
  let msg := mk_app_msg (mk_app_header sq sent reply) body in
  (if is_unknown body then Ok tt else validate msg);;
  Ok msg.

Definition decode_text (l : bytes) : cresult (N * rstring) :=
  msg ← app_decode l;
  match app_body msg with
  | AppText text => Ok (conv_seq (app_header msg), text)
  | _ => Err (CoreWire (Cbor "expected text"))
  end.

(** ** Introductions *)

Definition intro_payload_value (i : CapabilityIntro) (contact_capability : key) : Value :=
  Map [(0, Uint PROTOCOL_VERSION);
       (1, Bytes (to_vec (recipient i)));
       (2, Bytes (session_key i));
       (3, Bytes (to_vec contact_capability));
       (4, Bytes (to_vec (intro_identity_public_key i)));
       (5, Bytes (to_vec (intro_revocation_public_key i)));
       (6, Bytes (to_vec (intro_dest_hpke i)));
       (7, Uint (intro_binding_seq i))].

(** [CapabilityIntro::signed_payload]. *)
Definition signed_payload (i : CapabilityIntro) (contact_capability : key) : bytes :=
  encode (intro_payload_value i contact_capability).

Section WithCrypto.
Context `{Crypto}.

(** [CapabilityIntro::verify]. *)
Definition intro_verify (i : CapabilityIntro) (contact_capability rcpt : key) : cresult unit :=
  if negb (bool_decide (recipient i = rcpt)) then Err BadIntro
  else if negb (bool_decide (identity_id (intro_identity_public_key i) = intro_identity_id i))
  then Err BadIntro
  else
    pk ← ok_or (vk_from_bytes (intro_identity_public_key i)) BadIntro;
    map_err (fun _ => BadIntro)
      (Sign.verify pk Sign.CAPABILITY_INTRO (signed_payload i contact_capability) (intro_signature i)).
End WithCrypto.

(** ** Lemmas *)

(** A message whose integers fit [u64] and whose lengths fit [usize]. *)
Definition text_fits (s : rstring) : Prop := lenN (as_bytes s) <= U64_MAX.

Definition ice_fits (ice : list rstring) : Prop := lenN ice <= U64_MAX /\ Forall text_fits ice.

Definition intro_fits (i : CapabilityIntro) : Prop :=
  intro_binding_seq i <= U64_MAX /\ lenN (session_key i) <= U64_MAX.

Definition body_fits (body : AppBody) : Prop :=
  match body with
  | AppText s => text_fits s
  | AppAttachment f meta _ =>
      lenN f <= U64_MAX /\ text_fits (meta_name meta) /\ text_fits (meta_mime meta)
      /\ meta_size meta <= U64_MAX
  | AppReaction n s => n <= U64_MAX /\ text_fits s
  | AppDelete n | AppProtocolAck n | AppRead n | AppDisappear n => n <= U64_MAX
  | AppCapability _ i => match i with Some i => intro_fits i | None => True end
  | AppBindingGossip _ n _ => n <= U64_MAX
  | AppGroupName _ s => text_fits s
  | AppCallInvite _ a b ice ex => text_fits a /\ text_fits b /\ ice_fits ice /\ ex <= U64_MAX
  | AppCallAnswer _ a b ice => text_fits a /\ text_fits b /\ ice_fits ice
  | AppCallIce _ ice => ice_fits ice
  | AppCallRinging _ | AppCallReject _ | AppCallCancel _ | AppCallEnd _ => True
  | AppUnknown t => text_fits t
  end.

Definition app_fits (msg : AppMessage) : Prop :=
  let h := app_header msg in
  conv_seq h <= U64_MAX /\ sent_at h <= U64_MAX
  /\ match reply_to h with Some r => r <= U64_MAX | None => True end
  /\ body_fits (app_body msg).

Lemma ice_value_wf ice : ice_fits ice -> wf_value (ice_value ice) = true.
Proof.
  intros [Hl Hi]. cbn -[N.leb lenN U64_MAX]. apply andb_true_intro. split.
  - apply N.leb_le. unfold lenN in *. by rewrite length_map.
  - clear Hl. induction Hi as [|s ice Hs _ IH]; cbn -[N.leb lenN U64_MAX]; [done|].
    by rewrite IH, (proj2 (N.leb_le _ _) Hs).
Qed.

Lemma decode_ice_value ice : decode_ice (ice_value ice) = Ok ice.
Proof.
  unfold decode_ice, ice_value. cbn. induction ice as [|s ice IH]; cbn; [done|]. by rewrite IH.
Qed.

Lemma encode_meta_wf meta :
  text_fits (meta_name meta) -> text_fits (meta_mime meta) -> meta_size meta <= U64_MAX ->
  wf_value (encode_meta meta) = true.
Proof. unfold text_fits. intros. solve_wf. Qed.

Lemma decode_encode_meta meta : decode_meta (encode_meta meta) = Ok meta.
Proof. by destruct meta. Qed.

Lemma app_pairs_wf msg : app_fits msg -> wf_value (Map (app_pairs msg)) = true.
Proof.
  destruct msg as [[sq t r] body]. intros (? & ? & ? & Hb). unfold app_pairs. cbn [app_header app_body conv_seq sent_at reply_to] in *.
  destruct r, body as [| ? ? [] | | | | | ? [] | | | | | | | | | | |]; cbn [body_fits extra_fields] in Hb;
    unfold intro_fits, text_fits in Hb; destruct_and?; cbn -[N.leb lenN to_vec as_bytes U64_MAX ice_value encode_meta];
    rewrite ?arr_len, ?ice_value_wf, ?encode_meta_wf by done;
    repeat (apply andb_true_intro; split); first [reflexivity | apply N.leb_le; ilia | idtac].
Qed.

(** Field reads over the pairs of a message. *)
Lemma app_pairs_header msg :
  check_version (app_pairs msg) 0 = Ok tt
  /\ get_text (app_pairs msg) 1 = Ok (msg_type msg)
  /\ get_uint (app_pairs msg) 2 = Ok (conv_seq (app_header msg))
  /\ get_uint (app_pairs msg) 3 = Ok (sent_at (app_header msg))
  /\ map_get_opt (app_pairs msg) 4 = Uint <$> reply_to (app_header msg).
Proof.
  destruct msg as [[sq t [r|]] body]; split_and!; try reflexivity.
  by destruct body as [| ? ? [] | | | | | ? [] | | | | | | | | | | |].
Qed.

Lemma map_get_opt_extra msg k :
  5 <= k -> map_get_opt (app_pairs msg) k = map_get_opt (extra_fields (app_body msg)) k.
Proof.
  intros Hk. unfold app_pairs, map_get_opt. f_equal.
  assert (forall j, j < 5 -> (j =? k) = false) as Hj by (intros; apply N.eqb_neq; lia).
  destruct (reply_to (app_header msg)); cbn [app List.find fst]; by rewrite !Hj by lia.
Qed.

(** [parse_body] reads the extra fields alone. *)
Lemma parse_body_ext t m m' :
  (forall k, 5 <= k -> map_get_opt m k = map_get_opt m' k) -> parse_body t m = parse_body t m'.
Proof.
  intros Hm. unfold parse_body, parse_intro, parse_call_id, get_text, get_uint, get_bytes, get_fixed, map_get.
  by rewrite !Hm by lia.
Qed.

Lemma parse_extra msg :
  is_unknown (app_body msg) = false ->
  parse_body (msg_type msg) (extra_fields (app_body msg)) = Ok (app_body msg).
Proof.
  destruct msg as [h body]. unfold msg_type. cbn [app_body].
  destruct body as [| ? meta [] | | | | | ? [[]|] | | | | | | | | | | |]; cbn [is_unknown]; intros Hu; try discriminate;
    unfold parse_body; eval_str; unfold parse_intro, parse_call_id, app_call_id, app_fixed;
    cbn -[to_vec copy_fixed ice_value encode_meta decode_ice decode_meta];
    rewrite ?copy_fixed_to_vec, ?decode_ice_value, ?decode_encode_meta; reflexivity.
Qed.

Lemma app_decode_pairs msg :
  app_fits msg -> validate msg = Ok tt -> is_unknown (app_body msg) = false ->
  app_decode (encode (Map (app_pairs msg))) = Ok msg.
Proof.
  intros Hf Hv Hu. unfold app_decode. rewrite decode_map_encode by by apply app_pairs_wf.
  destruct (app_pairs_header msg) as (H0 & H1 & H2 & H3 & H4).
  cbn [mbind result_bind cwire map_err]. rewrite H0, H1, H2, H3, H4. cbn [mbind result_bind cwire map_err].
  rewrite (parse_body_ext _ _ _ (map_get_opt_extra msg)), parse_extra by done.
  destruct msg as [[sq t r] body]. cbn in Hu. destruct r; cbn; rewrite Hu; cbn; by rewrite Hv.
Qed.

(** The candidate types that [validate] looks for: the word [typ] directly
    before the type. *)
Lemma ice_typ_from_spec prev toks typ :
  ice_typ_from prev toks typ = true <->
  exists pre post, prev :: toks = pre ++ String.list_byte_of_string "typ" :: typ :: post.
Proof.
  revert prev. induction toks as [|tok toks IH]; intros prev; cbn.
  - split; [done|]. intros ([|? []] & post & ?); simplify_eq/=.
  - destruct (_ && _) eqn:E.
    + apply andb_true_iff in E as [Hp%bool_decide_eq_true Ht%bool_decide_eq_true]. subst.
      split; [intros _; by exists [], toks | done].
    + rewrite IH. split.
      * intros (pre & post & He). exists (prev :: pre), post. by rewrite He.
      * intros (pre & post & He). destruct pre as [|x pre]; simplify_eq/=; [|eauto].
        by rewrite !bool_decide_eq_true_2 in E.
Qed.

Definition lower_tokens (c : rstring) : list bytes := split_whitespace (map ascii_lower (as_bytes c)).

(** A candidate that names the given type. *)
Definition has_typ (typ : message_text) (c : rstring) : Prop :=
  exists pre post,
    lower_tokens c = pre ++ String.list_byte_of_string "typ" :: String.list_byte_of_string typ :: post.

Lemma ice_typ_spec typ c :
  ice_typ (map ascii_lower (as_bytes c)) (String.list_byte_of_string typ) = true <-> has_typ typ c.
Proof.
  unfold ice_typ, has_typ, lower_tokens. rewrite ice_typ_from_spec. split.
  - intros ([|x pre] & post & He); simplify_eq/=; eauto.
  - intros (pre & post & ->). by exists ([] :: pre), post.
Qed.

Lemma reject_direct_ice_spec ice :
  reject_direct_ice ice = Ok tt <-> Forall (fun c => ~ has_typ "host" c /\ ~ has_typ "srflx" c) ice.
Proof.
  induction ice as [|c ice IH]; cbn [reject_direct_ice]; [split; constructor|].
  rewrite Forall_cons, <- IH, <- !ice_typ_spec. unfold direct_candidate.
  destruct (ice_typ _ _); cbn [orb]; [split; [done | intros [[[] ?] ?]; done]|].
  destruct (ice_typ _ _); [split; [done | intros [[? []] ?]; done] | naive_solver].
Qed.

Lemma reject_direct_ice_cases ice : reject_direct_ice ice = Ok tt \/ reject_direct_ice ice = Err DirectIceForbidden.
Proof. induction ice as [|c ice IH]; cbn; [by left | case_match; auto]. Qed.

(** The limits of the protocol on a message. *)
Definition within_limits (body : AppBody) : Prop :=
  match body with
  | AppText s => lenN (as_bytes s) <= 8192
  | AppReaction _ s => lenN (as_bytes s) <= 32
  | AppGroupName _ s => lenN (as_bytes s) <= 128
  | AppCallInvite _ _ _ ice _ | AppCallAnswer _ _ _ ice | AppCallIce _ ice =>
      Forall (fun c => ~ has_typ "host" c /\ ~ has_typ "srflx" c) ice
  | _ => True
  end.

Lemma validate_spec msg : validate msg = Ok tt <-> within_limits (app_body msg).
Proof.
  destruct msg as [h body]. unfold validate, TEXT_MAX_BYTES, EMOJI_MAX_BYTES, GROUP_NAME_MAX_BYTES. cbn [app_body].
  destruct body; cbn [within_limits]; rewrite ?reject_direct_ice_spec; try done;
    case_cond; split; intros; first [done | lia].
Qed.

Lemma app_decode_ok l msg :
  app_decode l = Ok msg -> is_unknown (app_body msg) = true \/ validate msg = Ok tt.
Proof.
  unfold app_decode. intros (m & _ & H)%result_bind_ok.
  do 6 (apply result_bind_ok in H as (? & _ & H)).
  apply result_bind_ok in H as ([] & Hv & [= <-]). cbn [app_body]. case_cond; auto.
Qed.

(** ** Properties *)

(** Application messages survive the end-to-end layer: a message of a known
    type is encoded exactly when it respects the limits of the protocol (8192
    bytes of text, 32 of a reaction, 128 of a group name, no host or
    server-reflexive candidate in call signalling), and then the receiver decodes
    the same header and body, for all seventeen types and every combination of
    optional fields. What a receiver accepts of a known type respects the same
    limits. *)
Theorem app_message_roundtrip msg :
  app_fits msg ->
  (is_ok (app_encode msg) = true <-> is_unknown (app_body msg) = false /\ within_limits (app_body msg))
  /\ (forall l, app_encode msg = Ok l -> app_decode l = Ok msg)
  /\ (forall l msg', app_decode l = Ok msg' -> is_unknown (app_body msg') = false ->
       within_limits (app_body msg')).
Proof.
  intros Hf. split_and!.
  - unfold app_encode. rewrite <- validate_spec. destruct (is_unknown _); [by split; [|intros [? _]]|].
    destruct (validate msg) as [[]|e]; cbn; naive_solver.
  - intros l. unfold app_encode. destruct (is_unknown _) eqn:Hu; [done|].
    destruct (validate msg) as [[]|e] eqn:Hv; [|done]. intros [= <-]. by apply app_decode_pairs.
  - intros l msg' [Hu|Hv]%app_decode_ok Hk; [congruence | by apply validate_spec].
Qed.

Definition sample_invite_msg : AppMessage :=
  mk_app_msg (mk_app_header 7 1700000000 (Some 3))
    (AppCallInvite (arr_repeat 16 x05) (lit "v=0") (lit "sha-256 AA")
       [lit "candidate:1 1 udp 1 198.51.100.7 3478 typ relay"] 1700000060).

Example app_message_roundtrip_witness :
  exists l, app_encode sample_invite_msg = Ok l /\ app_decode l = Ok sample_invite_msg.
Proof.
  eexists. split; [reflexivity|].
  apply (app_message_roundtrip sample_invite_msg); [|reflexivity].
  unfold app_fits, sample_invite_msg, body_fits, ice_fits, text_fits. cbn [app_header app_body conv_seq sent_at reply_to].
  repeat first [apply conj | apply List.Forall_cons | apply List.Forall_nil]; vm_compute; discriminate.
Defined.

Section Intro.
Context `{CryptoLaws}.

Lemma intro_payload_wf i cap : intro_fits i -> wf_value (intro_payload_value i cap) = true.
Proof. intros [? ?]. solve_wf. Qed.

Lemma intro_verify_ok i cap rcpt :
  intro_verify i cap rcpt = Ok tt ->
  recipient i = rcpt /\ intro_identity_id i = identity_id (intro_identity_public_key i)
  /\ exists pk, vk_from_bytes (intro_identity_public_key i) = Some pk
      /\ Sign.verify pk Sign.CAPABILITY_INTRO (signed_payload i cap) (intro_signature i) = Ok tt.
Proof.
  unfold intro_verify. destruct (bool_decide_reflect (recipient i = rcpt)); [|done].
  destruct (bool_decide_reflect (identity_id (intro_identity_public_key i) = intro_identity_id i)); [|done].
  cbn. destruct (vk_from_bytes _) as [pk|]; [|done]. cbn.
  destruct (Sign.verify _ _ _ _) as [[]|] eqn:Hv; [|done]. intros _. eauto 6.
Qed.

(** Two introductions with the same signed bytes offer the same capability for
    the same session, keys and sequence number. *)
Lemma signed_payload_inj i j c d :
  intro_fits i -> intro_fits j -> signed_payload i c = signed_payload j d ->
  c = d /\ recipient i = recipient j /\ session_key i = session_key j
  /\ intro_identity_public_key i = intro_identity_public_key j
  /\ intro_revocation_public_key i = intro_revocation_public_key j
  /\ intro_dest_hpke i = intro_dest_hpke j /\ intro_binding_seq i = intro_binding_seq j.
Proof.
  intros Hi Hj He. apply cbor_encode_inj in He; [|by apply intro_payload_wf..].
  unfold intro_payload_value in He. injection He as H1 H2 H3 H4 H5 H6 H7.
  split_and!; try by apply arr_eq. all: done.
Qed.
End Intro.
