(* ===== verification/Privacy.v ===== *)
(** * Privacy modes and the client's envelopes

    [nemo-core/src/privacy.rs] and [mailbox.rs]: building and opening mailbox
    envelopes, the four privacy modes, and the transport that delays and batches
    envelopes in front of a sink. Random bytes are arguments of the calls that
    draw them. *)

From S2P Require Export CoreErr Hpke.
From S2P Require Import Toy.

(** ** Mailbox envelopes *)

Section Mailbox.
Context `{Crypto}.

(** [mailbox::wrap]; [token] is its [random_token()] and [rnd] the HPKE seed. *)
Definition wrap (dest_hpke_public delivery_capability : key) (ttl : TtlBucket) (t : MessageType)
    (body : bytes) (token rnd : key) : cresult OuterEnvelope :=
  m ← cwire (pad t body);
  cwire (Hpke.seal_to_server dest_hpke_public (mk_inner delivery_capability ttl token m) rnd).

(** [mailbox::deliver]. *)
Definition deliver (server : Hpke.HpkeKeypair) (outer : OuterEnvelope) : cresult InnerEnvelope :=
  cwire (Hpke.open_outer server outer).
End Mailbox.

Definition expect_type (inner : InnerEnvelope) (want : MessageType) : cresult bytes :=
  if negb (bool_decide (type_ (padded_message inner) = want)) then Err WrongMailboxType
  else Ok (body (padded_message inner)).

Definition expect_ratchet (inner : InnerEnvelope) : cresult bytes :=
  match type_ (padded_message inner) with
  | DoubleRatchet | AttachmentDr => Ok (body (padded_message inner))
  | _ => Err WrongMailboxType
  end.

Definition messages_lost (last_acked_seq first_fetched_seq : N) : bool :=
  saturating_add last_acked_seq 1 <? first_fetched_seq.

(** ** Modes *)

Definition PRIVATE_EXTRA_MIN_MS : N := 20.
Definition PRIVATE_EXTRA_MAX_MS : N := 200.
Definition PRIVATE_BATCH_MAX_MS : N := 5000.
Definition WAKE_COALESCE_MS : N := 10000.
Definition HIGH_COVER_MIN_MS : N := 8000.
Definition HIGH_COVER_MAX_MS : N := 30000.
Definition MAXIMUM_SLOT_MS : N := 2000.

Inductive PrivacyMode : Type := Normal | Private | High | Maximum.

#[global] Instance privacy_mode_eq_decision : EqDecision PrivacyMode.
Proof. solve_decision. Defined.

Inductive Hop : Type := Direct | Tor.

#[global] Instance hop_eq_decision : EqDecision Hop.
Proof. solve_decision. Defined.

Definition hop_for (mode : PrivacyMode) : Hop :=
  match mode with Normal | Private => Direct | High | Maximum => Tor end.

(** [u64::from_le_bytes]. *)
Definition from_le (b : arr 8) : N := from_be (rev (to_vec b)).

Definition uniform (mn mx : N) (b : arr 8) : N :=
  if mx <=? mn then mn
  else
    let span := u64_add (mx - mn) 1 in
    u64_add mn (from_le b mod span).

(** The bytes that one call of [private_send_delay_ms] draws. *)
Record Jitter : Type := mk_jitter { j_extra : arr 8; j_batch : arr 8 }.

Definition extra_delay_ms (j : Jitter) : N := uniform PRIVATE_EXTRA_MIN_MS PRIVATE_EXTRA_MAX_MS (j_extra j).
Definition batch_jitter_ms (j : Jitter) : N := uniform 0 PRIVATE_BATCH_MAX_MS (j_batch j).
Definition private_send_delay_ms (j : Jitter) : N := u64_add (extra_delay_ms j) (batch_jitter_ms j).

Definition cover_interval_ms (mode : PrivacyMode) (b : arr 8) : option N :=
  match mode with
  | Normal | Private => None
  | High => Some (uniform HIGH_COVER_MIN_MS HIGH_COVER_MAX_MS b)
  | Maximum => Some MAXIMUM_SLOT_MS
  end.

Definition calls_allowed (mode : PrivacyMode) : bool :=
  match mode with Maximum => false | _ => true end.

Definition reject_maximum : cresult unit := Ok tt.

Definition dummy_outer `{Crypto} (dest_hpke_public delivery_capability token rnd : key)
    : cresult OuterEnvelope :=
  wrap dest_hpke_public delivery_capability TTL_DEFAULT DoubleRatchet [] token rnd.

(** ** The delaying transport *)

(** The trait [EnvelopeSink] of a sink type. *)
Class EnvelopeSink (S : Type) := emit : Hop -> bytes -> stM S CoreError unit.

(** [MemSink]. *)
Definition MemSink : Type := list (Hop * bytes).
#[global] Instance mem_sink : EnvelopeSink MemSink := fun hop l s => (s ++ [(hop, l)], Ok tt).

Record Pending : Type := mk_queued { p_bytes : bytes; ready_at_ms : N }.

Record PrivacyTransport (S : Type) : Type := mk_ptransport {
  pt_mode : PrivacyMode;
  pt_hop : Hop;
  pt_now_ms : N;
  pt_pending : list Pending;
  pt_sink : S
}.
Arguments mk_ptransport {S} _ _ _ _ _.
Arguments pt_mode {S} _.
Arguments pt_hop {S} _.
Arguments pt_now_ms {S} _.
Arguments pt_pending {S} _.
Arguments pt_sink {S} _.

Section Transport.
Context {S : Type} `{EnvelopeSink S}.
Notation pt := (PrivacyTransport S).
Notation method := (stM pt CoreError).

Definition eta_transport (t : pt) : pt :=
  mk_ptransport (pt_mode t) (pt_hop t) (pt_now_ms t) (pt_pending t) (pt_sink t).
#[global] Instance pt_now_ms_field : Field (@pt_now_ms S).
Proof. derive_field eta_transport (@pt_now_ms S). Defined.
#[global] Instance pt_pending_field : Field (@pt_pending S).
Proof. derive_field eta_transport (@pt_pending S). Defined.
#[global] Instance pt_sink_field : Field (@pt_sink S).
Proof. derive_field eta_transport (@pt_sink S). Defined.

(** [PrivacyTransport::new]. *)
Definition new_transport (mode : PrivacyMode) (sink : S) : pt := mk_ptransport mode (hop_for mode) 0 [] sink.

(** [PrivacyTransport::delay_ms]. *)
Definition delay_ms (mode : PrivacyMode) (j : Jitter) : N :=
  match mode with
  | Normal | Maximum => 0
  | Private | High => u64_add (extra_delay_ms j) (batch_jitter_ms j)
  end.

(** [self.sink.emit(self.hop, bytes)]. *)
Definition emit_bytes (l : bytes) : method unit :=
  fun t => let '(s', r) := emit (pt_hop t) l (pt_sink t) in (t <| pt_sink := s' |>, r).

(** [PrivacyTransport::send], which draws the delay twice. *)
Definition pt_send (outer : OuterEnvelope) (j1 j2 : Jitter) : method unit :=
  t ← get;
  let l := encode_outer outer in
  let ready := saturating_add (pt_now_ms t) (delay_ms (pt_mode t) j1) in
  if delay_ms (pt_mode t) j2 =? 0 then emit_bytes l
  else modify (fun t => t <| pt_pending ::= fun ps => ps ++ [mk_queued l ready] |>).

Definition send_cover (outer : OuterEnvelope) (j1 j2 : Jitter) : method unit := pt_send outer j1 j2.

(** The loop of [flush_ready] with its variables [rest] and [n]. *)
Fixpoint flush_loop (now : N) (ps rest : list Pending) (n : N) : method (list Pending * N) :=
  match ps with
  | [] => mret (rest, n)
  | p :: ps =>
      if ready_at_ms p <=? now then emit_bytes (p_bytes p);; flush_loop now ps rest (n + 1)
      else flush_loop now ps (rest ++ [p]) n
  end.

(** [PrivacyTransport::flush_ready]: [drain(..)] leaves the vector empty, also
    when the loop returns early. *)
Definition flush_ready : method N :=
  t ← get;
  modify (fun t => t <| pt_pending := [] |>);;
  '(rest, n) ← flush_loop (pt_now_ms t) (pt_pending t) [] 0;
  modify (fun t => t <| pt_pending := rest |>);;
  mret n.

(** [PrivacyTransport::advance]. *)
Definition pt_advance (now : N) : method N :=
  modify (fun t => t <| pt_now_ms := now |>);;
  flush_ready.
End Transport.

(** ** Push wake-ups *)

Record WakeCoalesce : Type := mk_wake { last_wake_ms : option N }.

(** [WakeCoalesce::should_wake]. *)
Definition should_wake (now : N) (w : WakeCoalesce) : WakeCoalesce * bool :=
  match last_wake_ms w with
  | Some t => if saturating_sub now t <? WAKE_COALESCE_MS then (w, false) else (mk_wake (Some now), true)
  | None => (mk_wake (Some now), true)
  end.

(** ** Lemmas *)

Lemma uniform_bounds mn mx b : mn <= mx -> mx < U64_MAX -> mn <= uniform mn mx b <= mx.
Proof.
  intros Hle Hmx. unfold uniform. destruct (N.leb_spec mx mn); [lia|].
  rewrite u64_add_small by ilia.
  pose proof (N.mod_lt (from_le b) (mx - mn + 1) ltac:(lia)).
  rewrite u64_add_small by (unfold U64_MAX in *; lia). lia.
Qed.

Lemma private_delay_bounds j : 20 <= private_send_delay_ms j <= 5200.
Proof.
  pose proof (uniform_bounds 20 200 (j_extra j) ltac:(lia) ltac:(reflexivity)).
  pose proof (uniform_bounds 0 5000 (j_batch j) ltac:(lia) ltac:(reflexivity)).
  unfold private_send_delay_ms, extra_delay_ms, batch_jitter_ms, PRIVATE_EXTRA_MIN_MS, PRIVATE_EXTRA_MAX_MS,
    PRIVATE_BATCH_MAX_MS. rewrite u64_add_small by (unfold U64_MAX; lia). lia.
Qed.

Section WrapLemmas.
Context `{CryptoLaws}.

(** What the sender wraps for a server's key, the server unwraps. *)
Lemma deliver_wrap seed cap ttl t b tok rnd o :
  Byte.to_N (ttl_u8 ttl) <= 3 ->
  wrap (Hpke.public (Hpke.generate seed)) cap ttl t b tok rnd = Ok o ->
  exists m m', pad t b = Ok m /\ same_padded m m'
    /\ deliver (Hpke.generate seed) o = Ok (mk_inner cap ttl tok m').
Proof.
  intros Httl (m & Hm%wire_ok & Ho%wire_ok)%result_bind_ok.
  destruct (pad_ok _ _ _ Hm) as (_ & _ & Hok & _).
  destruct (Hpke.open_outer_sealed seed _ _ _ Ho) as (l & Hl & Hopen & _).
  destruct (decode_encode_padded (mk_inner cap ttl tok m) l Hok Httl Hl) as (m' & Hd & Hs).
  exists m, m'. split_and!; [done | done |]. unfold deliver. by rewrite Hopen, Hd.
Qed.
End WrapLemmas.

Section FlushLemmas.
Context {S : Type} `{EnvelopeSink S}.
Implicit Types (t : PrivacyTransport S).

(** A failed emission leaves the queue empty: neither the envelopes behind the
    failed one nor those that were not due yet come back. *)
Lemma flush_loop_pending now ps rest n t :
  pt_pending (flush_loop now ps rest n t).1 = pt_pending t.
Proof.
  revert rest n t. induction ps as [|p ps IH]; intros rest n t; cbn [flush_loop]; [done|].
  destruct (_ <=? _); [|apply IH]. unfold mbind, stM_bind, emit_bytes at 1.
  destruct (emit _ _ _) as [s' [[]|e]]; [by rewrite IH | done].
Qed.

Lemma flush_failure t t' e : flush_ready t = (t', Err e) -> pt_pending t' = [].
Proof.
  unfold flush_ready, mbind, stM_bind, get, modify.
  pose proof (flush_loop_pending (pt_now_ms t) (pt_pending t) [] 0 (t <| pt_pending := [] |>)) as Hp.
  destruct (flush_loop _ _ _ _ _) as [t1 [[rest n]|e1]]; intros; simplify_eq. exact Hp.
Qed.
End FlushLemmas.

(** ** Runs over a collecting sink *)

Definition ready (now : N) (p : Pending) : bool := ready_at_ms p <=? now.

Lemma flush_loop_mem now ps rest n (t : PrivacyTransport MemSink) :
  flush_loop now ps rest n t =
  (mk_ptransport (pt_mode t) (pt_hop t) (pt_now_ms t) (pt_pending t)
     (pt_sink t ++ map (fun p => (pt_hop t, p_bytes p)) (List.filter (ready now) ps)),
   Ok (rest ++ List.filter (fun p => negb (ready now p)) ps, n + lenN (List.filter (ready now) ps))).
Proof.
  revert rest n t. induction ps as [|p ps IH]; intros rest n [mode hop cl pend sink]; cbn [flush_loop List.filter].
  - cbn. by rewrite !app_nil_r, N.add_0_r.
  - change (ready_at_ms p <=? now) with (ready now p). destruct (ready now p); cbn [negb].
    + unfold mbind, stM_bind, emit_bytes. cbn. rewrite IH. cbn. rewrite <- !app_assoc. cbn.
      rewrite lenN_cons. do 3 f_equal. lia.
    + rewrite IH. cbn. by rewrite <- app_assoc.
Qed.

Lemma advance_mem now (t : PrivacyTransport MemSink) :
  (pt_advance now t).1 =
  mk_ptransport (pt_mode t) (pt_hop t) now (List.filter (fun p => negb (ready now p)) (pt_pending t))
    (pt_sink t ++ map (fun p => (pt_hop t, p_bytes p)) (List.filter (ready now) (pt_pending t))).
Proof.
  unfold pt_advance, flush_ready, mbind, stM_bind, modify, get. rewrite flush_loop_mem. by destruct t.
Qed.

Inductive pt_op : Type :=
| PtSend (outer : OuterEnvelope) (j1 j2 : Jitter)
| PtAdvance (now : N).

Definition pt_step (t : PrivacyTransport MemSink) (op : pt_op) : PrivacyTransport MemSink :=
  match op with
  | PtSend o j1 j2 => (pt_send o j1 j2 t).1
  | PtAdvance now => (pt_advance now t).1
  end.

Definition pt_run (mode : PrivacyMode) (ops : list pt_op) : PrivacyTransport MemSink :=
  foldl pt_step (new_transport mode []) ops.

(** The bytes that the operations hand to the transport. *)
Definition op_bytes (op : pt_op) : list bytes :=
  match op with PtSend o _ _ => [encode_outer o] | PtAdvance _ => [] end.

(** The clock readings of a run. *)
Definition op_clock (op : pt_op) : list N :=
  match op with PtSend _ _ _ => [] | PtAdvance now => [now] end.

Definition delayed (mode : PrivacyMode) : bool :=
  match mode with Private | High => true | Normal | Maximum => false end.

Lemma send_mem o j1 j2 (t : PrivacyTransport MemSink) :
  (pt_send o j1 j2 t).1 =
  if delayed (pt_mode t)
  then mk_ptransport (pt_mode t) (pt_hop t) (pt_now_ms t)
         (pt_pending t ++ [mk_queued (encode_outer o) (saturating_add (pt_now_ms t) (private_send_delay_ms j1))])
         (pt_sink t)
  else mk_ptransport (pt_mode t) (pt_hop t) (pt_now_ms t) (pt_pending t) (pt_sink t ++ [(pt_hop t, encode_outer o)]).
Proof.
  destruct t as [mode hop cl pend sink]. unfold pt_send, mbind, stM_bind, get. cbn [pt_mode pt_now_ms pt_hop pt_pending pt_sink].
  pose proof (private_delay_bounds j2). unfold private_send_delay_ms in *.
  destruct mode; cbn [delay_ms delayed]; try reflexivity;
    (destruct (N.eqb_spec (u64_add (extra_delay_ms j2) (batch_jitter_ms j2)) 0); [lia | reflexivity]).
Qed.

(** What holds after every run: the mode stays, nothing is lost, duplicated or
    rewritten, the hop is the mode's, and no queue time exceeds the latest clock
    by more than 5200 ms. *)
Record pt_inv (mode : PrivacyMode) (sent : list bytes) (clocks : list N) (t : PrivacyTransport MemSink) : Prop := {
  pi_mode : pt_mode t = mode;
  pi_hop : pt_hop t = hop_for mode;
  pi_now : pt_now_ms t ∈ 0 :: clocks;
  pi_kept : map snd (pt_sink t) ++ map p_bytes (pt_pending t) ≡ₚ sent;
  pi_hops : Forall (fun e => e.1 = hop_for mode) (pt_sink t);
  pi_order : delayed mode = false -> pt_pending t = [] /\ map snd (pt_sink t) = sent;
  pi_late : Forall (fun p => exists c, c ∈ 0 :: clocks /\ ready_at_ms p <= c + 5200) (pt_pending t)
}.

Lemma filter_split {A} (f : A -> bool) (l : list A) :
  List.filter f l ++ List.filter (fun x => negb (f x)) l ≡ₚ l.
Proof.
  induction l as [|x l IH]; cbn; [done|]. destruct (f x); cbn; [by rewrite IH|].
  rewrite <- Permutation_middle. by rewrite IH.
Qed.

Lemma pt_inv_step mode sent clocks t op :
  pt_inv mode sent clocks t -> pt_inv mode (sent ++ op_bytes op) (clocks ++ op_clock op) (pt_step t op).
Proof.
  intros [Hm Hh Hn Hk Hp Ho Hl]. destruct op as [o j1 j2|now]; cbn [pt_step op_bytes op_clock].
  - rewrite send_mem, app_nil_r, Hm. destruct (delayed mode) eqn:Hd; split; cbn; try done.
    + rewrite map_app, app_assoc, Hk. done.
    + congruence.
    + apply Forall_app. split; [done|]. apply Forall_singleton. exists (pt_now_ms t). split; [done|]. cbn.
      pose proof (private_delay_bounds j1). unfold saturating_add. lia.
    + destruct (Ho eq_refl) as [-> _]. rewrite map_app. destruct (Ho eq_refl) as [_ ->]. cbn. by rewrite app_nil_r.
    + by apply Forall_app; split; [|apply Forall_singleton].
    + intros _. destruct (Ho eq_refl) as [-> <-]. split; [done|]. by rewrite map_app.
  - rewrite advance_mem, app_nil_r. split; cbn; try done.
    + set_solver.
    + rewrite map_app, map_map. cbn. rewrite <- app_assoc, <- map_app, filter_split. done.
    + apply Forall_app. split; [done|]. apply Forall_map, Forall_true. done.
    + intros Hd. destruct (Ho Hd) as [-> <-]. cbn. by rewrite app_nil_r.
    + apply List.Forall_forall. intros p [Hin _]%filter_In.
      destruct (proj1 (List.Forall_forall _ _) Hl p Hin) as (c & Hc & ?). exists c. set_solver.
Qed.

Lemma pt_run_inv mode ops :
  pt_inv mode (mjoin (map op_bytes ops)) (mjoin (map op_clock ops)) (pt_run mode ops).
Proof.
  induction ops as [|op ops IH] using rev_ind.
  - split; cbn; set_solver.
  - unfold pt_run. rewrite foldl_app. cbn [foldl]. rewrite !map_app, !join_app. cbn [map].
    replace (mjoin [op_bytes op]) with (op_bytes op) by (cbn; by rewrite app_nil_r).
    replace (mjoin [op_clock op]) with (op_clock op) by (cbn; by rewrite app_nil_r).
    by apply pt_inv_step.
Qed.

(** Until [d], nothing leaves a queue whose rows are due from [d] on, when all
    sends happen within the 20 ms before [d]. *)
Lemma held_back d ops t :
  delayed (pt_mode t) = true -> d <= U64_MAX -> d <= pt_now_ms t + 20 ->
  Forall (fun p => d <= ready_at_ms p) (pt_pending t) ->
  Forall (fun c => d <= c + 20 /\ c < d) (mjoin (map op_clock ops)) ->
  pt_sink (foldl pt_step t ops) = pt_sink t.
Proof.
  intros Hd Hmax. revert t Hd. induction ops as [|[o j1 j2|now] ops IH]; intros t Hd Hnow Hp Hc; cbn [foldl]; [done| |].
  - cbn [pt_step]. rewrite send_mem, Hd. rewrite IH; [done | done | done | | done]. cbn.
    apply Forall_app. split; [done|]. apply Forall_singleton. cbn.
    pose proof (private_delay_bounds j1). unfold saturating_add. lia.
  - cbn in Hc. apply Forall_cons in Hc as [[? ?] Hc]. cbn [pt_step]. rewrite advance_mem.
    assert (List.filter (ready now) (pt_pending t) = []) as Hf.
    { induction Hp as [|p ps Hp0 _ IHp]; cbn; [done|]. unfold ready at 1.
      destruct (N.leb_spec (ready_at_ms p) now); [lia | done]. }
    rewrite IH; [cbn; rewrite Hf; cbn; by rewrite app_nil_r | done | cbn; lia | | done]. cbn.
    apply List.Forall_forall. intros p [Hin _]%filter_In. by apply (proj1 (List.Forall_forall _ _) Hp).
Qed.

(** ** Properties *)

(** The privacy transport changes when envelopes leave and nothing else. After
    every sequence of sends and clock steps, the bytes at the sink and in the queue
    are the sealed bytes that were sent, each once; all of them left over the
    mode's hop. Normal and Maximum emit in order and at once. Private and High
    hold each envelope for at least 20 ms, and once the clock is 5200 ms past
    every earlier reading the queue is empty. *)
Theorem privacy_transport_exact mode ops :
  let t := pt_run mode ops in
  let sent := mjoin (map op_bytes ops) in
  map snd (pt_sink t) ++ map p_bytes (pt_pending t) ≡ₚ sent
  /\ Forall (fun e => e.1 = hop_for mode) (pt_sink t)
  /\ (delayed mode = false -> pt_pending t = [] /\ map snd (pt_sink t) = sent)
  /\ (forall now, (forall c, c ∈ 0 :: mjoin (map op_clock ops) -> c + 5200 <= now) ->
      pt_pending (pt_run mode (ops ++ [PtAdvance now])) = [])
  /\ (delayed mode = true -> pt_pending t = [] ->
      forall later, pt_now_ms t + 20 <= U64_MAX ->
        Forall (fun c => pt_now_ms t <= c < pt_now_ms t + 20) (mjoin (map op_clock later)) ->
        pt_sink (pt_run mode (ops ++ later)) = pt_sink t).
Proof.
  cbv zeta. destruct (pt_run_inv mode ops) as [Hm Hh Hn Hk Hp Ho Hl]. split_and!; [done..| |].
  - intros now Hnow. unfold pt_run. rewrite foldl_app. cbn [foldl pt_step]. rewrite advance_mem. cbn.
    fold (pt_run mode ops). clear - Hl Hnow. induction Hl as [|p ps (c & Hc & Hp) _ IH]; cbn; [done|].
    unfold ready at 1. destruct (N.leb_spec (ready_at_ms p) now); [done | specialize (Hnow c Hc); lia].
  - intros Hd Hpend later Hmax Hc. unfold pt_run. rewrite foldl_app. fold (pt_run mode ops).
    apply (held_back (pt_now_ms (pt_run mode ops) + 20)); [by rewrite Hm | done | done | by rewrite Hpend |].
    eapply Forall_impl; [exact Hc|]. intros c [? ?]. lia.
Qed.

Section FlushWitness.
(** A sink that refuses the second emission. *)
Definition FlakySink : Type := list bytes * bool.
#[local] Instance flaky_sink : EnvelopeSink FlakySink := fun _ l s =>
  if s.2 then (s, Err (Transport "down")) else ((s.1 ++ [l], true), Ok tt).

Definition flaky_queue : PrivacyTransport FlakySink :=
  mk_ptransport Private Direct 100
    [mk_queued [x01] 50; mk_queued [x02] 60; mk_queued [x03] 70; mk_queued [x04] 500] ([], false).

(** A single refused emission empties the queue: of four envelopes one has left,
    and the three others, one of them not even due, are gone. *)
Theorem failed_flush_loses_queue :
  exists t', flush_ready flaky_queue = (t', Err (Transport "down"))
    /\ (pt_sink t').1 = [[x01]] /\ pt_pending t' = [].
Proof.
  eexists. split; [reflexivity|]. split; [reflexivity|].
  exact (flush_failure flaky_queue _ _ eq_refl).
Qed.
End FlushWitness.

(** Wake-ups of a device over a sequence of clock readings. *)
Fixpoint wakes (w : WakeCoalesce) (clocks : list N) : list N :=
  match clocks with
  | [] => []
  | now :: clocks => let '(w', b) := should_wake now w in (if b then [now] else []) ++ wakes w' clocks
  end.

(** Any two wake-ups that follow each other are at least ten seconds apart. *)
Fixpoint wake_spaced (last : option N) (ts : list N) : Prop :=
  match ts with
  | [] => True
  | t :: ts => match last with Some l => l + 10000 <= t | None => True end /\ wake_spaced (Some t) ts
  end.

Theorem wakes_are_spaced clocks w : wake_spaced (last_wake_ms w) (wakes w clocks).
Proof.
  revert w. induction clocks as [|now clocks IH]; intros [last]; cbn; [done|].
  unfold should_wake, saturating_sub, WAKE_COALESCE_MS. cbn. destruct last as [l|].
  - destruct (N.ltb_spec (now - l) 10000); cbn; [apply (IH (mk_wake (Some l))) | split; [lia | apply (IH (mk_wake (Some now)))]].
  - cbn. split; [done | apply (IH (mk_wake (Some now)))].
Qed.
