(* ===== verification/Contacts.v ===== *)
(** * Pinned contacts and group files

    [nemo-core/src/discovery.rs]: the checks a client makes on a discovery row
    before it trusts a binding, and the pin it keeps per contact; and
    [attachment.rs]: group files sealed to a key that travels in the group's
    end-to-end plaintext. *)

From S2P Require Export CoreErr Records HostFrame Hpke.
From S2P Require Import Toy.

Definition DISCOVERY_REFRESH_SECS : N := 12 * 3600.
Definition DISCOVERY_REFRESH_SHOULD_SECS : N := 4 * 3600.

Record Discovery : Type := mk_disc {
  d_identity_public_key : key;
  d_revocation_public_key : key;
  d_binding : HomeServerBinding;
  d_revocation : option RevocationStatement
}.

Record ContactPin : Type := mk_pin {
  pin_identity_id : key;
  pin_identity_public_key : key;
  pin_revocation_public_key : key;
  pin_seq : N
}.

Definition eta_pin (p : ContactPin) : ContactPin :=
  mk_pin (pin_identity_id p) (pin_identity_public_key p) (pin_revocation_public_key p) (pin_seq p).
#[global] Instance pin_seq_field : Field pin_seq.
Proof. derive_field eta_pin pin_seq. Defined.

Inductive BindingGossipCheck : Type := Match | Ahead | Conflict.

Definition classify_binding_gossip (pin_sq : N) (pin_server : key) (gossip_sq : N) (gossip_server : key)
    : BindingGossipCheck :=
  if (gossip_sq =? pin_sq) && bool_decide (gossip_server = pin_server) then Match
  else if pin_sq <? gossip_sq then Ahead
  else Conflict.

(** [Discovery::check_not_revoked]. *)
Definition check_not_revoked (d : Discovery) : cresult unit :=
  match d_revocation d with Some _ => Err Revoked | None => Ok tt end.

Section WithCrypto.
Context `{Crypto}.

Definition disc_identity_id (d : Discovery) : key := identity_id (d_identity_public_key d).

(** [Discovery::verify]. *)
Definition disc_verify (d : Discovery) (now_unix : N) : cresult unit :=
  pk ← ok_or (vk_from_bytes (d_identity_public_key d)) (CoreWire Signature);
  cwire (binding_verify (d_binding d) pk now_unix);;
  match d_revocation d with
  | Some stmt =>
      rpk ← cwire (revocation_verifying_key (d_revocation_public_key d));
      cwire (revocation_verify stmt rpk);;
      if negb (bool_decide (revoked_identity_id stmt = disc_identity_id d)) then Err IdentityMismatch
      else Ok tt
  | None => Ok tt
  end.

Definition resolve_contact (card : ContactCard) (d : Discovery) (now_unix : N) : cresult HomeServerBinding :=
  cwire (card_verify card now_unix);;
  disc_verify d now_unix;;
  if negb (bool_decide (d_identity_public_key d = card_identity_public_key card)) then Err IdentityMismatch
  else if negb (bool_decide (d_revocation_public_key d = card_revocation_public_key card))
  then Err IdentityMismatch
  else
    check_not_revoked d;;
    if b_seq (d_binding d) <? b_seq (card_binding card) then Err BindingDowngrade
    else Ok (d_binding d).

(** [ContactPin::from_card]. *)
Definition pin_from_card (card : ContactCard) : ContactPin :=
  mk_pin (card_identity_id card) (card_identity_public_key card) (card_revocation_public_key card)
    (b_seq (card_binding card)).

(** [ContactPin::refresh]. *)
Definition pin_refresh (d : Discovery) (now_unix : N) : stM ContactPin CoreError HomeServerBinding :=
  lift (disc_verify d now_unix);;
  pin ← get;
  if negb (bool_decide (d_identity_public_key d = pin_identity_public_key pin)) then throw IdentityMismatch
  else
    lift (check_not_revoked d);;
    if b_seq (d_binding d) <? pin_seq pin then throw BindingDowngrade
    else
      modify (fun pin => pin <| pin_seq := b_seq (d_binding d) |>);;
      mret (d_binding d).

(** ** Group files *)

Definition KEY_MATERIAL : N := KEY_LEN * 2.

(** [seal_group_file]; [seed] generates the key pair and [rnd] is the HPKE seed.
    The copies into [blob] are in range because the bucket holds [need] bytes. *)
Definition seal_group_file (plaintext : bytes) (seed rnd : key)
    : cresult (bytes * AttachmentSizeBucket * bytes) :=
  let kp := Hpke.generate seed in
  let dest := Hpke.keypair_server_id kp in
  sealed ← cwire (Hpke.seal (Hpke.public kp) dest plaintext rnd);
  let need := saturating_add 4 (lenN sealed) in
  bucket ← cwire (size_for_len need);
  n ← ok_or (u32_try_from (lenN sealed)) (CoreWire NoBucket);
  let blob := be_bytes 4 n ++ sealed ++ replicate (N.to_nat (size_inner_len bucket - 4 - lenN sealed)) x00 in
  Ok (to_vec (Hpke.secret kp) ++ to_vec (Hpke.public kp), bucket, blob).

(** [open_group_file]. *)
Definition open_group_file (k blob : bytes) : cresult bytes :=
  if negb (lenN k =? KEY_MATERIAL) || (lenN blob <? 4) then Err BadCiphertext
  else
    let n := from_be (takeN 4 blob) in
    if lenN blob <? saturating_add 4 n then Err BadCiphertext
    else
      secret ← cwire (copy_fixed KEY_LEN (takeN KEY_LEN k));
      public ← cwire (copy_fixed KEY_LEN (dropN KEY_LEN k));
      let dest := server_id public in
      cwire (Hpke.open secret dest (takeN n (dropN 4 blob))).
End WithCrypto.

(** ** Lemmas *)

Section Lemmas.
Context `{CryptoLaws}.

(** What a verified row promises. *)
Definition row_authentic (ik : key) (b : HomeServerBinding) (now_unix : N) : Prop :=
  exists pk, vk_from_bytes ik = Some pk
    /\ binding_server_id b = server_id (server_hpke_public_key b)
    /\ now_unix <= u64_add (expires_at b) CLOCK_SKEW_SECS
    /\ Sign.verify pk Sign.HOME_SERVER_BINDING (binding_unsigned_cbor b) (binding_signature b) = Ok tt.

Lemma disc_verify_ok d now :
  disc_verify d now = Ok tt ->
  row_authentic (d_identity_public_key d) (d_binding d) now
  /\ forall stmt, d_revocation d = Some stmt ->
     revoked_identity_id stmt = disc_identity_id d
     /\ exists rpk, vk_from_bytes (d_revocation_public_key d) = Some rpk /\ revocation_verify stmt rpk = Ok tt.
Proof.
  unfold disc_verify. destruct (vk_from_bytes (d_identity_public_key d)) as [pk|] eqn:Hpk; [cbn|done].
  intros ([] & (Hh & Hs & He & Hv)%wire_ok%binding_verify_ok & Hr)%result_bind_ok.
  split; [by exists pk|]. intros stmt Hst. rewrite Hst in Hr.
  apply result_bind_ok in Hr as (rpk & Hk%wire_ok & Hr).
  apply result_bind_ok in Hr as ([] & Hrv%wire_ok & Hr).
  unfold revocation_verifying_key in Hk. destruct (vk_from_bytes (d_revocation_public_key d)) as [k|]; simplify_eq/=.
  destruct (bool_decide_reflect (revoked_identity_id stmt = disc_identity_id d)); [|done].
  split; [done|]. by eexists.
Qed.

Lemma resolve_contact_ok card d now b :
  resolve_contact card d now = Ok b ->
  b = d_binding d /\ d_revocation d = None
  /\ row_authentic (card_identity_public_key card) b now
  /\ b_seq (card_binding card) <= b_seq b
  /\ d_revocation_public_key d = card_revocation_public_key card.
Proof.
  unfold resolve_contact. intros ([] & _ & Hd)%result_bind_ok.
  apply result_bind_ok in Hd as ([] & [Ha _]%disc_verify_ok & Hd).
  do 2 (case_bool_decide; cbn in Hd; [|done]).
  apply result_bind_ok in Hd as ([] & Hr & Hd). unfold check_not_revoked in Hr.
  destruct (d_revocation d); [done|]. destruct (N.ltb_spec (b_seq (d_binding d)) (b_seq (card_binding card))); simplify_eq.
  split_and!; try done. congruence.
Qed.

(** Every outcome of a refresh. *)
Lemma pin_refresh_cases d now pin pin' r :
  pin_refresh d now pin = (pin', r) ->
  match r with
  | Ok b =>
      b = d_binding d /\ d_revocation d = None
      /\ row_authentic (pin_identity_public_key pin) b now
      /\ pin_seq pin <= b_seq b /\ pin' = pin <| pin_seq := b_seq b |>
  | Err _ => pin' = pin
  end.
Proof.
  unfold pin_refresh, mbind, stM_bind, lift, get, throw, modify, mret, stM_ret.
  destruct (disc_verify d now) as [[]|e] eqn:Hd; [|intros; by simplify_eq].
  apply disc_verify_ok in Hd as [Ha _].
  case_bool_decide as Hk; cbn [negb]; [|intros; by simplify_eq].
  unfold check_not_revoked. destruct (d_revocation d); [intros; by simplify_eq|].
  destruct (N.ltb_spec (b_seq (d_binding d)) (pin_seq pin)); intros; simplify_eq; [done|].
  split_and!; try done. congruence.
Qed.

Lemma size_for_len_ok n b : size_for_len n = Ok b -> n <= size_inner_len b.
Proof.
  unfold size_for_len. cbn [List.find].
  repeat (case_cond; [intros [= <-]; by apply N.leb_le|]). done.
Qed.

Lemma open_group_file_layout (secret public : key) hd sealed zs :
  lenN hd = 4 -> from_be hd = lenN sealed -> lenN sealed <= U32_MAX ->
  open_group_file (to_vec secret ++ to_vec public) (hd ++ sealed ++ zs)
  = cwire (Hpke.open secret (server_id public) sealed).
Proof.
  intros Hl4 Hf4 Hu. unfold open_group_file.
  assert (lenN (to_vec secret ++ to_vec public) =? KEY_MATERIAL = true) as ->.
  { apply N.eqb_eq. rewrite lenN_app, !arr_len. reflexivity. }
  assert (lenN (hd ++ sealed ++ zs) = 4 + lenN sealed + lenN zs) as Hlen by (rewrite !lenN_app; lia).
  assert (takeN 4 (hd ++ sealed ++ zs) = hd) as -> by by apply takeN_app_exact.
  assert (dropN 4 (hd ++ sealed ++ zs) = sealed ++ zs) as -> by by apply dropN_app_exact.
  rewrite Hf4. cbn [negb orb]. clear Hf4.
  assert (lenN (hd ++ sealed ++ zs) <? 4 = false) as -> by (apply N.ltb_ge; lia).
  assert (lenN (hd ++ sealed ++ zs) <? saturating_add 4 (lenN sealed) = false) as ->
   by (apply N.ltb_ge; unfold saturating_add; lia).
  rewrite (takeN_app_exact KEY_LEN (to_vec secret)), (dropN_app_exact KEY_LEN (to_vec secret)) by apply arr_len.
  rewrite (takeN_app_exact _ sealed), !copy_fixed_to_vec by done. reflexivity.
Qed.

Lemma saturating_add_fits a b c : a + b <= U64_MAX -> saturating_add a b <= c -> a + b <= c.
Proof. unfold saturating_add. intros H1. by rewrite N.min_l. Qed.

Lemma blob_len (hd sealed : bytes) total :
  lenN hd = 4 -> 4 + lenN sealed <= total ->
  lenN (hd ++ sealed ++ replicate (N.to_nat (total - 4 - lenN sealed)) x00) = total.
Proof.
  intros Hh Ht. rewrite !lenN_app, Hh.
  assert (lenN (replicate (N.to_nat (total - 4 - lenN sealed)) x00) = total - 4 - lenN sealed) as ->
    by (unfold lenN at 1; rewrite length_replicate; lia). lia.
Qed.

Lemma u32_prefix n : n <= U32_MAX -> lenN (be_bytes 4 n) = 4 /\ from_be (be_bytes 4 n) = n /\ 4 + n <= U64_MAX.
Proof.
  intros Hn. split; [apply lenN_be_bytes|]. split; [apply from_be_bytes; unfold U32_MAX in Hn; cbn; lia | ilia].
Qed.

Lemma open_sealed_group_file plaintext seed rnd k bucket blob :
  seal_group_file plaintext seed rnd = Ok (k, bucket, blob) ->
  lenN blob = size_inner_len bucket /\ lenN k = 64 /\ open_group_file k blob = Ok plaintext.
Proof.
  unfold seal_group_file. intros (sealed & Hs%wire_ok & Hr)%result_bind_ok.
  apply result_bind_ok in Hr as (b & Hb%wire_ok%size_for_len_ok & Hr).
  apply result_bind_ok in Hr as (n & Hn & Hr).
  assert (n = lenN sealed /\ lenN sealed <= U32_MAX) as [-> Hu].
  { unfold u32_try_from in Hn. destruct (N.leb_spec (lenN sealed) U32_MAX) as [Hu|]; [|discriminate Hn].
    split; [|done]. by apply Ok_inj in Hn. }
  destruct (u32_prefix _ Hu) as (Hl4 & Hf4 & Hmax). revert Hr Hl4 Hf4.
  generalize (be_bytes 4 (lenN sealed)). intros hd Hr Hl4 Hf4. simplify_eq. split_and!.
  - apply (blob_len _ _ _ Hl4), (saturating_add_fits _ _ _ Hmax Hb).
  - by rewrite lenN_app, !arr_len.
  - rewrite (open_group_file_layout _ _ _ _ _ Hl4 Hf4 Hu). destruct (Hpke.open_seal _ _ _ _ _ Hs) as [Ho _].
    unfold Hpke.keypair_server_id in Ho. by rewrite Ho.
Qed.
End Lemmas.

(** ** Properties *)

(** The outcomes of refreshing a pin with a sequence of discovery rows, each
    with the clock it was checked at. *)
Fixpoint pin_refreshes `{Crypto} (pin : ContactPin) (rows : list (Discovery * N))
    : ContactPin * list (cresult HomeServerBinding) :=
  match rows with
  | [] => (pin, [])
  | (d, now) :: rows =>
      let '(pin1, r) := pin_refresh d now pin in
      let '(pin2, rs) := pin_refreshes pin1 rows in
      (pin2, r :: rs)
  end.

(** The sequence numbers of the accepted bindings. *)
Definition accepted_seqs (rs : list (cresult HomeServerBinding)) : list N :=
  omap (fun r => b_seq <$> ok r) rs.

Fixpoint ascending (from : N) (l : list N) : Prop :=
  match l with [] => True | n :: l => from <= n /\ ascending n l end.

Lemma last_cons_default {A} (l : list A) x d : List.last (x :: l) d = List.last l x.
Proof.
  revert x d. induction l as [|y l IH]; intros x d; [done|].
  change (List.last (y :: l) d = List.last (y :: l) x). by rewrite !IH.
Qed.

(** C36. A pinned contact never moves backwards, whatever rows the untrusted servers
    return: over any sequence of refreshes the identity keys stay those of the
    pin, accepted bindings never have a smaller sequence number than the pin or
    than an earlier accepted one, every accepted binding is signed by the pinned
    identity, names the server whose key it carries, is not expired and comes
    from a row without revocation; and a refused row leaves the pin as it was. *)
Theorem pin_never_downgrades `{CryptoLaws} pin rows pin' rs :
  pin_refreshes pin rows = (pin', rs) ->
  pin_identity_id pin' = pin_identity_id pin
  /\ pin_identity_public_key pin' = pin_identity_public_key pin
  /\ pin_revocation_public_key pin' = pin_revocation_public_key pin
  /\ ascending (pin_seq pin) (accepted_seqs rs)
  /\ pin_seq pin' = List.last (accepted_seqs rs) (pin_seq pin)
  /\ Forall2 (fun row r => forall b, r = Ok b ->
        d_revocation row.1 = None /\ row_authentic (pin_identity_public_key pin) b row.2) rows rs.
Proof.
  revert pin rs. induction rows as [|[d now] rows IH]; intros pin rs; cbn; [intros; by simplify_eq|].
  destruct (pin_refresh d now pin) as [pin1 r] eqn:Hr. destruct (pin_refreshes pin1 rows) as [pin2 rs2] eqn:Hrs.
  intros; simplify_eq. apply pin_refresh_cases in Hr. destruct (IH _ _ Hrs) as (-> & -> & -> & Ha & Hl & HF).
  destruct r as [b|e].
  - destruct Hr as (-> & Hn & Hauth & Hle & ->). cbn. split_and!; try done.
    + rewrite Hl. symmetry. apply last_cons_default.
    + constructor; [|done]. intros b [= <-]. done.
  - subst pin1. split_and!; try done. constructor; [|done]. done.
Qed.

(** Group files open to what was sealed: when sealing succeeds, the blob fills
    its size bucket exactly, the key material is 64 bytes, and the holder of that
    material recovers the plaintext. *)
Theorem group_file_roundtrip `{CryptoLaws} plaintext seed rnd k bucket blob :
  seal_group_file plaintext seed rnd = Ok (k, bucket, blob) ->
  lenN blob = size_inner_len bucket /\ lenN k = KEY_MATERIAL /\ open_group_file k blob = Ok plaintext.
Proof. apply open_sealed_group_file. Qed.

Section Witnesses.
#[local] Existing Instances Toy.toy Toy.toy_laws.

Definition sample_disc (sq : N) : Discovery :=
  match binding_sign sample_sk (mk_binding (server_id (arr_repeat 32 x22)) (arr_repeat 32 x22)
          (lit "home.example") sq 2000 (arr_repeat 64 x00)) with
  | Ok b => mk_disc (arr_repeat 32 x11) (arr_repeat 32 x33) b None
  | Err _ => mk_disc (arr_repeat 32 x11) (arr_repeat 32 x33) sample_binding None
  end.

Example pin_never_downgrades_witness :
  exists pin' rs, pin_refreshes (pin_from_card sample_card) [(sample_disc 9, 1000); (sample_disc 4, 1000)] = (pin', rs)
    /\ accepted_seqs rs = [9] /\ ascending (pin_seq (pin_from_card sample_card)) (accepted_seqs rs).
Proof.
  eexists _, _. split; [vm_compute; reflexivity|]. split; [reflexivity|].
  eapply (pin_never_downgrades (pin_from_card sample_card) [(sample_disc 9, 1000); (sample_disc 4, 1000)]).
  vm_compute. reflexivity.
Defined.

Example group_file_roundtrip_witness :
  exists k bucket blob, seal_group_file [x68; x69] (arr_repeat 32 x0a) (arr_repeat 32 x0b) = Ok (k, bucket, blob)
    /\ open_group_file k blob = Ok [x68; x69].
Proof.
  destruct (seal_group_file [x68; x69] (arr_repeat 32 x0a) (arr_repeat 32 x0b)) as [[[k bucket] blob]|e] eqn:E.
  - exists k, bucket, blob. destruct (group_file_roundtrip _ _ _ _ _ _ E) as (_ & _ & Ho). exact (conj eq_refl Ho).
  - exfalso. assert (is_ok (seal_group_file [x68; x69] (arr_repeat 32 x0a) (arr_repeat 32 x0b)) = true) as Hok by (vm_compute; reflexivity).
    rewrite E in Hok. discriminate Hok.
Defined.
End Witnesses.
