(* ===== verification/SignalStore.v ===== *)
(** * The libsignal stores of an installation

    [nemo-core/src/store.rs]: the five maps behind libsignal's store traits, the
    move of a peer's state to another address, and the CBOR dump of all of it
    that goes into the vault. The types of the [libsignal_protocol] crate and
    their byte encodings are parameters; its numeric identifiers ([PreKeyId] and
    the like) are their [u32]. *)

From stdpp Require Export sorting.
From S2P Require Export CoreErr Card.

Notation DEVICE_ID := 1.

(** What the code uses of the crate's data types. *)
Class SignalTypes := {
  ProtocolAddress : Type;
  DeviceId : Type;
  IdentityKey : Type;
  IdentityKeyPair : Type;
  PreKeyRecord : Type;
  SignedPreKeyRecord : Type;
  KyberPreKeyRecord : Type;
  SessionRecord : Type;
  LsPublicKey : Type;
  address_eq_decision :: EqDecision ProtocolAddress;
  address_countable :: Countable ProtocolAddress;
  identity_key_eq_decision :: EqDecision IdentityKey;
  ls_public_eq_decision :: EqDecision LsPublicKey;
  device_new : N -> option DeviceId;
  device_u32 : DeviceId -> N;
  device_id : DeviceId;                     (* bundle::device_id *)
  address_new : rstring -> DeviceId -> ProtocolAddress;
  address_name : ProtocolAddress -> rstring;
  address_device : ProtocolAddress -> DeviceId;
  key_pair_serialize : IdentityKeyPair -> bytes;
  key_pair_try_from : bytes -> option IdentityKeyPair;
  identity_serialize : IdentityKey -> bytes;
  identity_key_decode : bytes -> option IdentityKey;
  pre_key_serialize : PreKeyRecord -> option bytes;
  pre_key_deserialize : bytes -> option PreKeyRecord;
  signed_serialize : SignedPreKeyRecord -> option bytes;
  signed_deserialize : bytes -> option SignedPreKeyRecord;
  kyber_serialize : KyberPreKeyRecord -> option bytes;
  kyber_deserialize : bytes -> option KyberPreKeyRecord;
  session_serialize : SessionRecord -> option bytes;
  session_deserialize : bytes -> option SessionRecord;
  ls_public_serialize : LsPublicKey -> bytes;
  ls_public_deserialize : bytes -> option LsPublicKey
}.

(** An address is its name and its device, device ids are 1 to 127, and the
    encodings decode to what was encoded. *)
Class SignalTypesLaws `{SignalTypes} := {
  device_new_id : device_new DEVICE_ID = Some device_id;
  device_new_u32 n d : device_new n = Some d -> device_u32 d = n;
  device_u32_new d : device_new (device_u32 d) = Some d /\ 1 <= device_u32 d <= 127;
  address_new_parts n d : address_name (address_new n d) = n /\ address_device (address_new n d) = d;
  address_new_eta a : address_new (address_name a) (address_device a) = a;
  key_pair_roundtrip k : key_pair_try_from (key_pair_serialize k) = Some k;
  identity_roundtrip k : identity_key_decode (identity_serialize k) = Some k;
  pre_key_roundtrip r b : pre_key_serialize r = Some b -> pre_key_deserialize b = Some r;
  signed_roundtrip r b : signed_serialize r = Some b -> signed_deserialize b = Some r;
  kyber_roundtrip r b : kyber_serialize r = Some b -> kyber_deserialize b = Some r;
  session_roundtrip r b : session_serialize r = Some b -> session_deserialize b = Some r;
  ls_public_roundtrip k : ls_public_deserialize (ls_public_serialize k) = Some k
}.

(** [n as u32] for a [u64]. *)
Definition as_u32 (n : N) : N := n mod 2 ^ 32.

(** [for x in xs { .. ?; .. }] over an accumulator, and the same building a
    vector. *)
Fixpoint try_fold {E A B} (f : B -> A -> result E B) (b : B) (l : list A) : result E B :=
  match l with [] => Ok b | x :: l => b' ← f b x; try_fold f b' l end.

Fixpoint try_map {E A B} (f : A -> result E B) (l : list A) : result E (list B) :=
  match l with [] => Ok [] | x :: l => y ← f x; ys ← try_map f l; Ok (y :: ys) end.

(** The entries of a map in the order of its sorted keys. *)
Definition sorted_entries `{Countable K} {V} (le : K -> K -> bool) (m : gmap K V) : list (K * V) :=
  merge_sort (fun a b => Is_true (le a.1 b.1)) (map_to_list m).

Section Store.
Context `{SignalTypes}.

Inductive IdentityChange : Type := NewOrUnchanged | ReplacedExisting.

(** ** The stores *)

Record Identities : Type := mk_identities {
  key_pair : IdentityKeyPair;
  registration_id : N;
  known : gmap ProtocolAddress IdentityKey
}.

(** [KyberPreKeys]; the other three stores are one map each. *)
Record KyberPreKeys : Type := mk_kyber {
  kyber_keys : gmap N KyberPreKeyRecord;
  kyber_used : gmap (N * N) (list LsPublicKey)
}.

Record SignalStore : Type := mk_store {
  session_store : gmap ProtocolAddress SessionRecord;
  pre_key_store : gmap N PreKeyRecord;
  signed_pre_key_store : gmap N SignedPreKeyRecord;
  kyber_pre_key_store : KyberPreKeys;
  identity_store : Identities
}.

Definition eta_identities (s : Identities) : Identities := mk_identities (key_pair s) (registration_id s) (known s).
#[global] Instance known_field : Field known.
Proof. derive_field eta_identities known. Defined.

Definition eta_kyber (s : KyberPreKeys) : KyberPreKeys := mk_kyber (kyber_keys s) (kyber_used s).
#[global] Instance kyber_keys_field : Field kyber_keys.
Proof. derive_field eta_kyber kyber_keys. Defined.
#[global] Instance kyber_used_field : Field kyber_used.
Proof. derive_field eta_kyber kyber_used. Defined.

Definition eta_store (s : SignalStore) : SignalStore :=
  mk_store (session_store s) (pre_key_store s) (signed_pre_key_store s) (kyber_pre_key_store s) (identity_store s).
#[global] Instance session_store_field : Field session_store.
Proof. derive_field eta_store session_store. Defined.
#[global] Instance pre_key_store_field : Field pre_key_store.
Proof. derive_field eta_store pre_key_store. Defined.
#[global] Instance signed_pre_key_store_field : Field signed_pre_key_store.
Proof. derive_field eta_store signed_pre_key_store. Defined.
#[global] Instance kyber_pre_key_store_field : Field kyber_pre_key_store.
Proof. derive_field eta_store kyber_pre_key_store. Defined.
#[global] Instance identity_store_field : Field identity_store.
Proof. derive_field eta_store identity_store. Defined.

(** [SignalStore::new]. *)
Definition new_store (kp : IdentityKeyPair) (rid : N) : SignalStore :=
  mk_store ∅ ∅ ∅ (mk_kyber ∅ ∅) (mk_identities kp rid ∅).

(** ** The store traits *)

Definition save_identity (a : ProtocolAddress) (k : IdentityKey) : stM SignalStore CoreError IdentityChange :=
  s ← get;
  match known (identity_store s) !! a with
  | None =>
      modify (fun s => s <| identity_store ::= fun i => i <| known ::= <[a := k]> |> |>);;
      mret NewOrUnchanged
  | Some k' =>
      if bool_decide (k' = k) then mret NewOrUnchanged
      else
        modify (fun s => s <| identity_store ::= fun i => i <| known ::= <[a := k]> |> |>);;
        mret ReplacedExisting
  end.

Definition is_trusted_identity (a : ProtocolAddress) (k : IdentityKey) (s : SignalStore) : bool :=
  match known (identity_store s) !! a with Some k' => bool_decide (k' = k) | None => true end.

Definition get_identity (a : ProtocolAddress) (s : SignalStore) : option IdentityKey :=
  known (identity_store s) !! a.

Definition get_pre_key (id : N) (s : SignalStore) : cresult PreKeyRecord := ok_or (pre_key_store s !! id) Signal.
Definition save_pre_key (id : N) (r : PreKeyRecord) (s : SignalStore) : SignalStore :=
  s <| pre_key_store ::= <[id := r]> |>.
Definition remove_pre_key (id : N) (s : SignalStore) : SignalStore := s <| pre_key_store ::= delete id |>.

Definition get_signed_pre_key (id : N) (s : SignalStore) : cresult SignedPreKeyRecord :=
  ok_or (signed_pre_key_store s !! id) Signal.
Definition save_signed_pre_key (id : N) (r : SignedPreKeyRecord) (s : SignalStore) : SignalStore :=
  s <| signed_pre_key_store ::= <[id := r]> |>.

Definition get_kyber_pre_key (id : N) (s : SignalStore) : cresult KyberPreKeyRecord :=
  ok_or (kyber_keys (kyber_pre_key_store s) !! id) Signal.
Definition save_kyber_pre_key (id : N) (r : KyberPreKeyRecord) (s : SignalStore) : SignalStore :=
  s <| kyber_pre_key_store ::= fun k => k <| kyber_keys ::= <[id := r]> |> |>.

(** A base key is used once per pair of kyber and signed prekey. *)
Definition mark_kyber_pre_key_used (kid sid : N) (base : LsPublicKey) : stM SignalStore CoreError unit :=
  s ← get;
  let seen := default [] (kyber_used (kyber_pre_key_store s) !! (kid, sid)) in
  if bool_decide (base ∈ seen) then throw Signal
  else modify (fun s => s <| kyber_pre_key_store ::= fun k =>
         k <| kyber_used ::= <[(kid, sid) := seen ++ [base]]> |> |>).

Definition load_session (a : ProtocolAddress) (s : SignalStore) : option SessionRecord := session_store s !! a.
Definition store_session (a : ProtocolAddress) (r : SessionRecord) (s : SignalStore) : SignalStore :=
  s <| session_store ::= <[a := r]> |>.

(** ** Addresses *)

(** [SignalStore::all_pre_key_ids], counted. *)
Definition all_pre_key_ids (s : SignalStore) : list N := (map_to_list (pre_key_store s)).*1.

(** [Vec::dedup] of a sorted vector. *)
Fixpoint dedup `{EqDecision A} (l : list A) : list A :=
  match l with
  | x :: (y :: _) as l' => if bool_decide (x = y) then dedup l' else x :: dedup l'
  | _ => l
  end.

Definition bytes_leb (a b : bytes) : bool :=
  match bytes_compare a b with Gt => false | _ => true end.

Definition sort_by {A} (le : A -> A -> bool) (l : list A) : list A :=
  merge_sort (fun a b => Is_true (le a b)) l.

(** [SignalStore::peer_address_names]. *)
Definition peer_address_names (s : SignalStore) : list rstring :=
  dedup (sort_by (fun a b => bytes_leb (as_bytes a) (as_bytes b))
    (map address_name ((map_to_list (session_store s)).*1 ++ (map_to_list (known (identity_store s))).*1))).

(** Moves the value of [from] to [to] unless [to] has one. *)
Definition move_entry {V} (from to : ProtocolAddress) (m : gmap ProtocolAddress V) : gmap ProtocolAddress V :=
  match m !! from with
  | Some v =>
      let m' := delete from m in
      match m' !! to with Some _ => m' | None => <[to := v]> m' end
  | None => m
  end.

(** [SignalStore::rematerialize_peer]. *)
Definition store_rematerialize (from to : ProtocolAddress) (s : SignalStore) : SignalStore :=
  if bool_decide (from = to) then s
  else s <| session_store ::= move_entry from to |>
         <| identity_store ::= fun i => i <| known ::= move_entry from to |> |>.

(** ** Encoding *)

(** The order of [sort_addrs]. *)
Definition addr_leb (a b : ProtocolAddress) : bool :=
  match bytes_compare (as_bytes (address_name a)) (as_bytes (address_name b)) with
  | Lt => true
  | Eq => device_u32 (address_device a) <=? device_u32 (address_device b)
  | Gt => false
  end.

Definition addr_entry (a : ProtocolAddress) (l : bytes) : Value :=
  Array [Text (address_name a); Uint (device_u32 (address_device a)); Bytes l].

Definition id_entry (id : N) (l : bytes) : Value := Array [Uint id; Bytes l].

(** A row whose record is serialised with [?]. *)
Definition record_row {K R} (ser : R -> option bytes) (entry : K -> bytes -> Value) (kr : K * R) : cresult Value :=
  l ← ok_or (ser kr.2) Signal; Ok (entry kr.1 l).

Definition used_leb (a b : N * N) : bool := (a.1 <? b.1) || ((a.1 =? b.1) && (a.2 <=? b.2)).

Definition used_rows (e : N * N * list LsPublicKey) : list Value :=
  map (fun pk => Array [Uint e.1.1; Uint e.1.2; Bytes (ls_public_serialize pk)]) e.2.

(** [SignalStore::to_cbor]. *)
Definition store_to_cbor (s : SignalStore) : cresult Value :=
  let i := identity_store s in
  let ks := kyber_pre_key_store s in
  let kn := map (fun e => addr_entry e.1 (identity_serialize e.2)) (sorted_entries addr_leb (known i)) in
  prekeys ← try_map (record_row pre_key_serialize id_entry) (sorted_entries N.leb (pre_key_store s));
  signed ← try_map (record_row signed_serialize id_entry) (sorted_entries N.leb (signed_pre_key_store s));
  kyber ← try_map (record_row kyber_serialize id_entry) (sorted_entries N.leb (kyber_keys ks));
  let used := concat (map used_rows (sorted_entries used_leb (kyber_used ks))) in
  sessions ← try_map (record_row session_serialize addr_entry) (sorted_entries addr_leb (session_store s));
  Ok (Map [(0, Bytes (key_pair_serialize (key_pair i))); (1, Uint (registration_id i)); (2, Array kn);
           (3, Array prekeys); (4, Array signed); (5, Array kyber); (6, Array used); (7, Array sessions)]).

(** [SignalStore::encode]. *)
Definition store_encode (s : SignalStore) : cresult bytes :=
  v ← store_to_cbor s; Ok (encode v).

(** ** Decoding *)

Definition array_at (m : list (N * Value)) (k : N) : cresult (list Value) :=
  v ← corrupt (map_get m k); corrupt (expect_array v).

(** [address]. *)
Definition parse_address (name : rstring) (device : N) : cresult ProtocolAddress :=
  if 127 <? device then Err VaultCorrupt
  else if device =? device_u32 device_id then Ok (address_new name device_id)
  else
    dev ← (if device <=? U8_MAX then Ok device else Err VaultCorrupt);
    d ← ok_or (device_new dev) VaultCorrupt;
    Ok (address_new name d).

Definition parse_addr_bytes (item : Value) : cresult (ProtocolAddress * bytes) :=
  match item with
  | Array [v0; v1; v2] =>
      name ← corrupt (expect_text v0);
      dev ← corrupt (expect_uint v1);
      l ← corrupt (expect_bytes v2);
      a ← parse_address name dev;
      Ok (a, l)
  | _ => Err VaultCorrupt
  end.

Definition parse_id_bytes (item : Value) : cresult (N * bytes) :=
  match item with
  | Array [v0; v1] =>
      id ← corrupt (expect_uint v0);
      l ← corrupt (expect_bytes v1);
      Ok (as_u32 id, l)
  | _ => Err VaultCorrupt
  end.

(** One step of the loops of [from_map] over rows with an address or with an id. *)
Definition load_addr {R} (de : bytes -> option R) (m : gmap ProtocolAddress R) (item : Value)
    : cresult (gmap ProtocolAddress R) :=
  '(a, l) ← parse_addr_bytes item; r ← ok_or (de l) VaultCorrupt; Ok (<[a := r]> m).

Definition load_id {R} (de : bytes -> option R) (m : gmap N R) (item : Value) : cresult (gmap N R) :=
  '(id, l) ← parse_id_bytes item; r ← ok_or (de l) VaultCorrupt; Ok (<[id := r]> m).

Definition load_used (m : gmap (N * N) (list LsPublicKey)) (item : Value)
    : cresult (gmap (N * N) (list LsPublicKey)) :=
  match item with
  | Array [v0; v1; v2] =>
      kid ← corrupt (expect_uint v0);
      sid ← corrupt (expect_uint v1);
      l ← corrupt (expect_bytes v2);
      pk ← ok_or (ls_public_deserialize l) VaultCorrupt;
      let k := (as_u32 kid, as_u32 sid) in
      Ok (<[k := default [] (m !! k) ++ [pk]]> m)
  | _ => Err VaultCorrupt
  end.

(** The session rows deserialise the record before they check the device. *)
Definition load_session_row (m : gmap ProtocolAddress SessionRecord) (item : Value)
    : cresult (gmap ProtocolAddress SessionRecord) :=
  match item with
  | Array [v0; v1; v2] =>
      name ← corrupt (expect_text v0);
      dev ← corrupt (expect_uint v1);
      l ← corrupt (expect_bytes v2);
      r ← ok_or (session_deserialize l) VaultCorrupt;
      a ← parse_address name dev;
      Ok (<[a := r]> m)
  | _ => Err VaultCorrupt
  end.

(** [SignalStore::from_map]. *)
Definition store_from_map (m : list (N * Value)) : cresult SignalStore :=
  v0 ← corrupt (map_get m 0);
  pair_bytes ← corrupt (expect_bytes v0);
  kp ← ok_or (key_pair_try_from pair_bytes) VaultCorrupt;
  v1 ← corrupt (map_get m 1);
  rid ← corrupt (expect_uint v1);
  i2 ← array_at m 2; kn ← try_fold (load_addr identity_key_decode) ∅ i2;
  i3 ← array_at m 3; prekeys ← try_fold (load_id pre_key_deserialize) ∅ i3;
  i4 ← array_at m 4; signed ← try_fold (load_id signed_deserialize) ∅ i4;
  i5 ← array_at m 5; kyber ← try_fold (load_id kyber_deserialize) ∅ i5;
  i6 ← array_at m 6; used ← try_fold load_used ∅ i6;
  i7 ← array_at m 7; sessions ← try_fold load_session_row ∅ i7;
  Ok (mk_store sessions prekeys signed (mk_kyber kyber used) (mk_identities kp (as_u32 rid) kn)).

(** [SignalStore::decode]. *)
Definition store_decode (l : bytes) : cresult SignalStore :=
  v ← corrupt (decode l);
  match v with Map m => store_from_map m | _ => Err VaultCorrupt end.
End Store.

(** ** Lemmas *)

Lemma as_u32_small n : n <= U32_MAX -> as_u32 n = n.
Proof. unfold as_u32, U32_MAX. intros. apply N.mod_small. lia. Qed.

Lemma sorted_entries_perm `{Countable K} {V} le (m : gmap K V) : sorted_entries le m ≡ₚ map_to_list m.
Proof. apply merge_sort_Permutation. Qed.

Lemma sorted_entries_lookup `{Countable K} {V} le (m : gmap K V) k v :
  (k, v) ∈ sorted_entries le m <-> m !! k = Some v.
Proof. rewrite sorted_entries_perm. apply elem_of_map_to_list. Qed.

Lemma sorted_entries_nodup `{Countable K} {V} le (m : gmap K V) : NoDup (sorted_entries le m).*1.
Proof. rewrite sorted_entries_perm. apply NoDup_fst_map_to_list. Qed.

(** Reading back rows that each put one entry into a map. *)
Lemma try_fold_entries {E A} `{Countable K} {V} (f : gmap K V -> A -> result E (gmap K V))
    (row : K * V -> A) (entries : list (K * V)) acc :
  (forall m e, e ∈ entries -> m !! e.1 = None -> f m (row e) = Ok (<[e.1 := e.2]> m)) ->
  NoDup entries.*1 -> (forall e, e ∈ entries -> acc !! e.1 = None) ->
  try_fold f acc (map row entries) = Ok (list_to_map entries ∪ acc).
Proof.
  revert acc. induction entries as [|[k v] entries IH]; intros acc Hf Hnd Hacc; cbn.
  - by rewrite (left_id_L ∅ (∪)).
  - cbn in Hnd. apply NoDup_cons in Hnd as [Hk Hnd].
    rewrite (Hf acc (k, v)); [|set_solver|apply (Hacc (k, v)); set_solver]. cbn. rewrite IH; [| |done|].
    + f_equal. rewrite <- insert_union_l. rewrite <- insert_union_r; [done|].
      by apply not_elem_of_list_to_map_1.
    + intros m e He. apply Hf. set_solver.
    + intros e He. rewrite lookup_insert_ne; [apply Hacc; set_solver|].
      intros ->. apply Hk. apply list_elem_of_fmap. eauto.
Qed.

Lemma load_sorted {E A} `{Countable K} {V} le (f : gmap K V -> A -> result E (gmap K V))
    (row : K * V -> A) (m : gmap K V) :
  (forall acc k v, m !! k = Some v -> acc !! k = None -> f acc (row (k, v)) = Ok (<[k := v]> acc)) ->
  try_fold f ∅ (map row (sorted_entries le m)) = Ok m.
Proof.
  intros Hf. rewrite try_fold_entries.
  - f_equal. rewrite (right_id_L ∅ (∪)). rewrite <- (list_to_map_to_list m) at 2.
    apply list_to_map_proper; [apply sorted_entries_nodup | apply sorted_entries_perm].
  - intros acc [k v] He%sorted_entries_lookup Hn. by apply Hf.
  - apply sorted_entries_nodup.
  - intros. apply lookup_empty.
Qed.

(** Reading back rows written with [?]. *)
Lemma try_map_ok {E A B} (f : A -> result E B) l l' :
  try_map f l = Ok l' -> Forall2 (fun a b => f a = Ok b) l l'.
Proof.
  revert l'. induction l as [|x l IH]; intros l'; cbn; [intros; simplify_eq; constructor|].
  intros (y & Hy & H)%result_bind_ok. apply result_bind_ok in H as (ys & Hys & H). simplify_eq. constructor; auto.
Qed.

Lemma load_sorted_rows {E F A} `{Countable K} {V} le (f : gmap K V -> A -> result E (gmap K V))
    (row : K * V -> result F A) (m : gmap K V) rows :
  try_map row (sorted_entries le m) = Ok rows ->
  (forall acc k v x, m !! k = Some v -> row (k, v) = Ok x -> f acc x = Ok (<[k := v]> acc)) ->
  try_fold f ∅ rows = Ok m.
Proof.
  intros Hr%try_map_ok Hf.
  assert (forall es acc, Forall2 (fun a b => row a = Ok b) es rows -> (forall e, e ∈ es -> m !! e.1 = Some e.2) ->
    try_fold f acc rows = try_fold (fun acc e => @Ok E _ (<[e.1 := e.2]> acc)) acc es) as Hsame.
  { clear Hr. induction rows as [|x rows IH]; intros es acc Hes Hin; inversion Hes as [|[k v] ? es' ? Hx Hes']; subst; cbn; [done|].
    rewrite (Hf acc k v x) by (try apply (Hin (k, v)); set_solver). cbn. apply IH; [done|]. intros e He. apply Hin. set_solver. }
  rewrite (Hsame (sorted_entries le m)); [|done | intros [k v]; apply sorted_entries_lookup].
  rewrite <- (map_id (sorted_entries le m)). apply load_sorted. intros acc k v _ _. done.
Qed.

Section Lemmas.
Context `{SignalTypesLaws}.
Implicit Types (s : SignalStore).

(** A store of the Rust types: identifiers are [u32], and no list of used base
    keys is empty. *)
Record store_typed s : Prop := {
  st_registration : registration_id (identity_store s) <= U32_MAX;
  st_pre_keys k v : pre_key_store s !! k = Some v -> k <= U32_MAX;
  st_signed k v : signed_pre_key_store s !! k = Some v -> k <= U32_MAX;
  st_kyber k v : kyber_keys (kyber_pre_key_store s) !! k = Some v -> k <= U32_MAX;
  st_used k v : kyber_used (kyber_pre_key_store s) !! k = Some v -> k.1 <= U32_MAX /\ k.2 <= U32_MAX /\ v <> []
}.

Lemma parse_address_parts a : parse_address (address_name a) (device_u32 (address_device a)) = Ok a.
Proof.
  destruct (device_u32_new (address_device a)) as [Hd Hr]. unfold parse_address.
  destruct (N.ltb_spec 127 (device_u32 (address_device a))); [lia|].
  destruct (N.eqb_spec (device_u32 (address_device a)) (device_u32 device_id)) as [He|].
  - f_equal. rewrite <- (address_new_eta a) at 2. f_equal.
    destruct (device_u32_new device_id) as [Hi _]. rewrite He in Hd. congruence.
  - destruct (N.leb_spec (device_u32 (address_device a)) U8_MAX); [|ilia]. cbn. rewrite Hd. cbn.
    by rewrite address_new_eta.
Qed.

Lemma load_addr_entry {R} (de : bytes -> option R) a l r m :
  de l = Some r -> load_addr de m (addr_entry a l) = Ok (<[a := r]> m).
Proof. intros Hd. unfold load_addr. cbn. rewrite parse_address_parts. cbn. by rewrite Hd. Qed.

Lemma load_id_entry {R} (de : bytes -> option R) id l r m :
  id <= U32_MAX -> de l = Some r -> load_id de m (id_entry id l) = Ok (<[id := r]> m).
Proof. intros Hi Hd. unfold load_id. cbn. rewrite as_u32_small, Hd by done. done. Qed.

Lemma load_session_entry a l r m :
  session_deserialize l = Some r -> load_session_row m (addr_entry a l) = Ok (<[a := r]> m).
Proof. intros Hd. cbn. rewrite Hd. cbn. by rewrite parse_address_parts. Qed.

(** One key's rows append its list. *)
Lemma load_used_rows kid sid pks m :
  kid <= U32_MAX -> sid <= U32_MAX ->
  try_fold load_used m (used_rows ((kid, sid), pks))
  = Ok (match pks with [] => m | _ => <[(kid, sid) := default [] (m !! (kid, sid)) ++ pks]> m end).
Proof.
  intros Hk Hs. revert m. induction pks as [|pk pks IH]; intros m; cbn; [done|].
  rewrite ls_public_roundtrip. cbn. rewrite !as_u32_small by done.
  unfold used_rows in IH. cbn [fst snd] in IH. rewrite IH. destruct pks; [done|].
  rewrite lookup_insert_eq, insert_insert_eq. cbn. by rewrite <- app_assoc.
Qed.

Lemma try_fold_app {E A B} (f : B -> A -> result E B) b l k :
  try_fold f b (l ++ k) = (b' ← try_fold f b l; try_fold f b' k).
Proof. revert b. induction l as [|x l IH]; intros b; cbn; [done|]. destruct (f b x); cbn; [apply IH | done]. Qed.

Lemma load_used_sorted s :
  store_typed s ->
  let u := kyber_used (kyber_pre_key_store s) in
  try_fold load_used ∅ (concat (map used_rows (sorted_entries used_leb u))) = Ok u.
Proof.
  intros Ht u.
  assert (forall (es : list (N * N * list LsPublicKey)) m,
    (forall e, e ∈ es -> u !! e.1 = Some e.2) -> NoDup es.*1 -> (forall e, e ∈ es -> m !! e.1 = None) ->
    try_fold load_used m (concat (map used_rows es))
    = try_fold (fun acc e => @Ok CoreError _ (<[e.1 := e.2]> acc)) m es) as Hsame.
  { intros es. induction es as [|[[kid sid] pks] es IH]; intros m Hin Hnd Hm; cbn [map concat]; [done|].
    apply NoDup_cons in Hnd as [Hk Hnd].
    destruct (st_used _ Ht (kid, sid) pks) as (? & ? & Hne); [apply (Hin ((kid, sid), pks)); set_solver|].
    rewrite try_fold_app, load_used_rows by done. destruct pks as [|pk pks]; [done|]. cbn.
    pose proof (Hm ((kid, sid), pk :: pks) ltac:(set_solver)) as Hn. cbn in Hn. rewrite Hn. cbn.
    apply IH; [set_solver | done|].
    intros e He. rewrite lookup_insert_ne; [apply Hm; set_solver|].
    intros Heq. apply Hk. cbn. rewrite Heq. apply list_elem_of_fmap. eauto. }
  rewrite Hsame.
  - rewrite <- (map_id (sorted_entries used_leb u)). apply load_sorted. done.
  - intros [k v]. apply sorted_entries_lookup.
  - apply sorted_entries_nodup.
  - intros. apply lookup_empty.
Qed.

Lemma record_row_ok {K R} (ser : R -> option bytes) (entry : K -> bytes -> Value) kr v :
  record_row ser entry kr = Ok v -> exists l, ser kr.2 = Some l /\ v = entry kr.1 l.
Proof. unfold record_row. destruct (ser kr.2) as [l|]; cbn; intros; simplify_eq; eauto. Qed.

Lemma store_decode_encode s l :
  store_typed s -> store_encode s = Ok l -> (forall v, store_to_cbor s = Ok v -> wf_value v = true) ->
  store_decode l = Ok s.
Proof.
  intros Ht He Hwf. unfold store_encode in He. destruct (store_to_cbor s) as [v|] eqn:Hv; [|done].
  cbn in He. simplify_eq. unfold store_decode. rewrite decode_encode_wf by by apply Hwf. cbn. clear Hwf.
  unfold store_to_cbor in Hv. apply result_bind_ok in Hv as (prekeys & Hpre & Hv).
  apply result_bind_ok in Hv as (signed & Hsig & Hv). apply result_bind_ok in Hv as (kyber & Hky & Hv).
  apply result_bind_ok in Hv as (sessions & Hse & Hv). apply Ok_inj in Hv. subst v. unfold store_from_map, array_at.
  cbn -[try_fold]. rewrite key_pair_roundtrip. cbn -[try_fold].
  rewrite (load_sorted addr_leb (load_addr identity_key_decode)
    (fun e => addr_entry e.1 (identity_serialize e.2))) by (intros; apply load_addr_entry, identity_roundtrip).
  cbn -[try_fold]. rewrite (load_sorted_rows N.leb _ _ _ _ Hpre).
  2: { intros acc k r x Hk (b & Hb & ->)%record_row_ok. apply load_id_entry; [by eapply st_pre_keys | by apply pre_key_roundtrip]. }
  cbn -[try_fold]. rewrite (load_sorted_rows N.leb _ _ _ _ Hsig).
  2: { intros acc k r x Hk (b & Hb & ->)%record_row_ok. apply load_id_entry; [by eapply st_signed | by apply signed_roundtrip]. }
  cbn -[try_fold]. rewrite (load_sorted_rows N.leb _ _ _ _ Hky).
  2: { intros acc k r x Hk (b & Hb & ->)%record_row_ok. apply load_id_entry; [by eapply st_kyber | by apply kyber_roundtrip]. }
  cbn -[try_fold]. rewrite load_used_sorted by done.
  cbn -[try_fold]. rewrite (load_sorted_rows addr_leb _ _ _ _ Hse).
  2: { intros acc k r x Hk (b & Hb & ->)%record_row_ok. by apply load_session_entry, session_roundtrip. }
  cbn. rewrite as_u32_small by apply Ht. by destruct s as [? ? ? [] []].
Qed.
End Lemmas.
