(* ===== verification/Install.v ===== *)
(** * The installation

    [nemo-core/src/identity.rs] and [bundle.rs]: one identity with its signing
    key, prekey stock, sessions and counters; the cards, owner signatures and
    introductions it signs; and the snapshot that goes into the vault. The
    cryptography of [libsignal_protocol] and the word list of [bip39] are
    parameters; random bytes and clock readings are arguments. *)

From S2P Require Export SignalStore AppMsg Privacy Contacts Join.
From S2P Require Import Toy.

(** What the code calls of libsignal. Functions that take stores by reference
    get the stores they may change as their state. *)
Class SignalOps `{SignalTypes} := {
  LsKeyPair : Type;
  KemPublic : Type;
  PreKeyBundle : Type;
  PreKeySignalMessage : Type;
  SignalMessage : Type;
  identity_generate : key -> IdentityKeyPair;
  identity_key : IdentityKeyPair -> IdentityKey;
  ls_generate : key -> LsKeyPair;
  ls_public : LsKeyPair -> LsPublicKey;
  calculate_signature : IdentityKeyPair -> bytes -> key -> option bytes;
  pre_key_new : N -> LsKeyPair -> PreKeyRecord;
  signed_new : N -> N -> LsKeyPair -> bytes -> SignedPreKeyRecord;
  signed_id : SignedPreKeyRecord -> option N;
  signed_public : SignedPreKeyRecord -> option LsPublicKey;
  signed_signature : SignedPreKeyRecord -> option bytes;
  kyber_generate : N -> IdentityKeyPair -> key -> option KyberPreKeyRecord;
  kyber_id : KyberPreKeyRecord -> option N;
  kyber_public : KyberPreKeyRecord -> option KemPublic;
  kyber_signature : KyberPreKeyRecord -> option bytes;
  kem_serialize : KemPublic -> bytes;
  kem_deserialize : bytes -> option KemPublic;
  (* PreKeyBundle::new: registration, device, one-time prekey, signed prekey, kyber prekey, identity *)
  bundle_new : N -> DeviceId -> option (N * LsPublicKey) -> N -> LsPublicKey -> bytes -> N -> KemPublic -> bytes ->
               IdentityKey -> option PreKeyBundle;
  bundle_registration_id : PreKeyBundle -> option N;
  bundle_pre_key_id : PreKeyBundle -> option (option N);
  bundle_pre_key_public : PreKeyBundle -> option (option LsPublicKey);
  bundle_signed_id : PreKeyBundle -> option N;
  bundle_signed_public : PreKeyBundle -> option LsPublicKey;
  bundle_signed_signature : PreKeyBundle -> option bytes;
  bundle_kyber_id : PreKeyBundle -> option N;
  bundle_kyber_public : PreKeyBundle -> option KemPublic;
  bundle_kyber_signature : PreKeyBundle -> option bytes;
  bundle_identity_key : PreKeyBundle -> option IdentityKey;
  pksm_try_from : bytes -> option PreKeySignalMessage;
  pksm_identity_key : PreKeySignalMessage -> IdentityKey;
  signal_try_from : bytes -> option SignalMessage;
  process_prekey_bundle : ProtocolAddress -> ProtocolAddress -> PreKeyBundle -> N -> key ->
    stM (gmap ProtocolAddress SessionRecord * Identities) CoreError unit;
  message_encrypt : bytes -> ProtocolAddress -> ProtocolAddress -> N -> key ->
    stM (gmap ProtocolAddress SessionRecord * Identities) CoreError bytes;
  message_decrypt : PreKeySignalMessage + SignalMessage -> ProtocolAddress -> ProtocolAddress ->
    gmap N SignedPreKeyRecord -> key ->
    stM (gmap ProtocolAddress SessionRecord * Identities * gmap N PreKeyRecord * KyberPreKeys) CoreError bytes
}.

(** The accessors of a bundle return what [PreKeyBundle::new] was given. *)
Class SignalOpsLaws `{SignalOps} := {
  bundle_new_parts rid d otpk sid spk ssig kid kpk ksig ik b :
    bundle_new rid d otpk sid spk ssig kid kpk ksig ik = Some b ->
    bundle_registration_id b = Some rid /\ bundle_pre_key_id b = Some (fst <$> otpk)
    /\ bundle_pre_key_public b = Some (snd <$> otpk)
    /\ bundle_signed_id b = Some sid /\ bundle_signed_public b = Some spk
    /\ bundle_signed_signature b = Some ssig /\ bundle_kyber_id b = Some kid /\ bundle_kyber_public b = Some kpk
    /\ bundle_kyber_signature b = Some ksig /\ bundle_identity_key b = Some ik;
  kem_roundtrip k : kem_deserialize (kem_serialize k) = Some k
}.

(** [bip39::Mnemonic]. *)
Class Bip39 := {
  mnemonic_from_entropy : bytes -> option rstring;
  mnemonic_to_entropy : rstring -> option bytes
}.

Class Bip39Laws `{Bip39} := {
  mnemonic_roundtrip b m : mnemonic_from_entropy b = Some m -> mnemonic_to_entropy m = Some b
}.

(** The provider of OpenMLS, which an installation only carries. *)
Class OpenMls := {
  MlsProvider : Type;
  mls_default : MlsProvider;
  (* the key-value storage of the provider, read and replaced *)
  mls_values : MlsProvider -> gmap bytes bytes;
  mls_with_values : gmap bytes bytes -> MlsProvider -> MlsProvider
}.

Class OpenMlsLaws `{OpenMls} := { mls_values_set m p : mls_values (mls_with_values m p) = m }.

Definition PREKEY_STOCK_TARGET : N := 100.
Definition PREKEY_RESTOCK_BELOW : N := 25.
Definition SIGNED_PREKEY_ROTATE_SECS : N := 48 * 3600.

Definition u32_saturating_add (a b : N) : N := N.min (a + b) U32_MAX.

Definition signal {A} (o : option A) : cresult A := ok_or o Signal.

Section Install.
Context `{Crypto} `{SignalOps} `{Bip39} `{OpenMls}.

(** ** Prekey bundles *)

(** [bundle::encode]. *)
Definition prekey_bundle_encode (b : PreKeyBundle) : cresult bytes :=
  oid ← signal (bundle_pre_key_id b); otpk_id ← ok_or oid EmptyPrekeyStock;
  opk ← signal (bundle_pre_key_public b); otpk ← ok_or opk EmptyPrekeyStock;
  rid ← signal (bundle_registration_id b);
  sid ← signal (bundle_signed_id b);
  spk ← signal (bundle_signed_public b);
  ssig ← signal (bundle_signed_signature b);
  kid ← signal (bundle_kyber_id b);
  kpk ← signal (bundle_kyber_public b);
  ksig ← signal (bundle_kyber_signature b);
  ik ← signal (bundle_identity_key b);
  Ok (encode (Map [(0, Uint PROTOCOL_VERSION); (1, Uint rid); (2, Uint sid); (3, Bytes (ls_public_serialize spk));
    (4, Bytes ssig); (5, Uint otpk_id); (6, Bytes (ls_public_serialize otpk)); (7, Uint kid);
    (8, Bytes (kem_serialize kpk)); (9, Bytes ksig); (10, Bytes (identity_serialize ik))])).

(** [bundle::decode]. *)
Definition prekey_bundle_decode (l : bytes) : cresult PreKeyBundle :=
  m ← cwire (decode_map "prekey bundle must be a map" l);
  cwire (check_version m 0);;
  rid ← cwire (get_uint m 1);
  sid ← cwire (get_uint m 2);
  b3 ← cwire (get_bytes m 3); spk ← ok_or (ls_public_deserialize b3) BadKey;
  ssig ← cwire (get_bytes m 4);
  otpk_id ← cwire (get_uint m 5);
  b6 ← cwire (get_bytes m 6); otpk ← ok_or (ls_public_deserialize b6) BadKey;
  kid ← cwire (get_uint m 7);
  b8 ← cwire (get_bytes m 8); kpk ← signal (kem_deserialize b8);
  ksig ← cwire (get_bytes m 9);
  b10 ← cwire (get_bytes m 10); ik ← signal (identity_key_decode b10);
  signal (bundle_new (as_u32 rid) device_id (Some (as_u32 otpk_id, otpk)) (as_u32 sid) spk ssig (as_u32 kid) kpk ksig ik).

(** ** State *)

Record RevocationExport : Type := mk_export { mnemonic : rstring; export_public_key : key }.

Record Installation : Type := mk_install {
  identity : SigningKey;
  inst_revocation_public_key : key;
  inst_address : ProtocolAddress;
  store : SignalStore;
  next_pre_key_id : N;
  next_kyber_id : N;
  signed_pre_key_id : N;
  signed_pre_key_at : N;
  inst_binding_seq : N;
  mls_provider : MlsProvider
}.

Definition eta_install (i : Installation) : Installation :=
  mk_install (identity i) (inst_revocation_public_key i) (inst_address i) (store i) (next_pre_key_id i)
    (next_kyber_id i) (signed_pre_key_id i) (signed_pre_key_at i) (inst_binding_seq i) (mls_provider i).
#[global] Instance store_field : Field store.
Proof. derive_field eta_install store. Defined.
#[global] Instance next_pre_key_id_field : Field next_pre_key_id.
Proof. derive_field eta_install next_pre_key_id. Defined.
#[global] Instance next_kyber_id_field : Field next_kyber_id.
Proof. derive_field eta_install next_kyber_id. Defined.
#[global] Instance signed_pre_key_id_field : Field signed_pre_key_id.
Proof. derive_field eta_install signed_pre_key_id. Defined.
#[global] Instance signed_pre_key_at_field : Field signed_pre_key_at.
Proof. derive_field eta_install signed_pre_key_at. Defined.
#[global] Instance inst_binding_seq_field : Field inst_binding_seq.
Proof. derive_field eta_install inst_binding_seq. Defined.
#[global] Instance mls_provider_field : Field mls_provider.
Proof. derive_field eta_install mls_provider. Defined.

Notation method := (stM Installation CoreError).

Definition identity_public_key (i : Installation) : key := vk_to_bytes (verifying_key (identity i)).

(** [Installation::identity_id]. *)
Definition own_id (i : Installation) : key := identity_id (identity_public_key i).

(** [hex_bytes] and [address_for]. *)
Definition address_for (id : key) : ProtocolAddress := address_new (to_hex (to_vec id)) device_id.

Definition provisional_peer_id (ls : IdentityKey) : key := sha256 (identity_serialize ls).

(** [session_identity_key] and [peer_session_identity_key]. *)
Definition session_identity_key (i : Installation) : bytes :=
  identity_serialize (identity_key (key_pair (identity_store (store i)))).

Definition peer_session_identity_key (i : Installation) (peer : key) : option bytes :=
  identity_serialize <$> get_identity (address_for peer) (store i).

(** ** Prekeys *)

(** [rotate_signed_prekey]; [now] is the clock in milliseconds. *)
Definition rotate_signed_prekey (now : N) (seed rnd : key) : method unit :=
  i ← get;
  let idp := key_pair (identity_store (store i)) in
  let kp := ls_generate seed in
  signature ← lift (ok_or (calculate_signature idp (ls_public_serialize (ls_public kp)) rnd) BadKey);
  let record := signed_new (signed_pre_key_id i) now kp signature in
  modify (fun i => i <| store ::= save_signed_pre_key (signed_pre_key_id i) record |>);;
  modify (fun i => i <| signed_pre_key_at := now / 1000 |>).

(** [maybe_rotate_signed_prekey]. *)
Definition maybe_rotate_signed_prekey (now_unix now_ms : N) (seed rnd : key) : method bool :=
  i ← get;
  if saturating_sub now_unix (signed_pre_key_at i) <? SIGNED_PREKEY_ROTATE_SECS then mret false
  else
    modify (fun i => i <| signed_pre_key_id ::= fun n => u32_saturating_add n 1 |>);;
    rotate_signed_prekey now_ms seed rnd;;
    mret true.

Definition unused_one_time_prekeys (i : Installation) : N := lenN (all_pre_key_ids (store i)).

Definition needs_restock (i : Installation) : bool := unused_one_time_prekeys i <? PREKEY_RESTOCK_BELOW.

(** [mint_prekey]. *)
Definition mint_prekey (seed kyber_seed : key) : method SignedPrekey :=
  i ← get;
  let otpk_id := next_pre_key_id i in
  modify (fun i => i <| next_pre_key_id ::= fun n => u32_saturating_add n 1 |>);;
  let otpk := ls_generate seed in
  modify (fun i => i <| store ::= save_pre_key otpk_id (pre_key_new otpk_id otpk) |>);;
  let kid := next_kyber_id i in
  modify (fun i => i <| next_kyber_id ::= fun n => u32_saturating_add n 1 |>);;
  let idp := key_pair (identity_store (store i)) in
  kyber ← lift (signal (kyber_generate kid idp kyber_seed));
  modify (fun i => i <| store ::= save_kyber_pre_key kid kyber |>);;
  signed ← lift (get_signed_pre_key (signed_pre_key_id i) (store i));
  b ← lift (sid ← signal (signed_id signed);
            spk ← signal (signed_public signed);
            ssig ← signal (signed_signature signed);
            kid' ← signal (kyber_id kyber);
            kpk ← signal (kyber_public kyber);
            ksig ← signal (kyber_signature kyber);
            signal (bundle_new (registration_id (identity_store (store i))) device_id (Some (otpk_id, ls_public otpk))
                      sid spk ssig kid' kpk ksig (identity_key idp)));
  opaque ← lift (prekey_bundle_encode b);
  lift (cwire (prekey_sign (identity i) otpk_id opaque)).

(** The loop of [restock], with fuel for its rounds; [None] when it runs out. *)
Fixpoint restock_loop (fuel : nat) (draws : nat -> key * key) (out : list SignedPrekey)
    : Installation -> option (Installation * cresult (list SignedPrekey)) :=
  match fuel with
  | O => fun _ => None
  | S fuel => fun i =>
      if unused_one_time_prekeys i <? PREKEY_STOCK_TARGET then
        let '(s1, s2) := draws (length out) in
        match mint_prekey s1 s2 i with
        | (i', Ok p) => restock_loop fuel draws (out ++ [p]) i'
        | (i', Err e) => Some (i', Err e)
        end
      else Some (i, Ok out)
  end.

(** [restock]. *)
Definition restock (fuel : nat) (draws : nat -> key * key) (i : Installation)
    : option (Installation * cresult (list SignedPrekey)) :=
  restock_loop fuel draws [] i.

(** ** Creation *)

(** [create]: identity seed, revocation seed, libsignal seed, the registration
    bytes, and the draws of the first signed prekey. *)
Definition create (seed rev_seed ls_seed : key) (rid : arr 4) (now_ms : N) (spk_seed spk_rnd : key)
    : cresult (Installation * RevocationExport) :=
  let sk := sk_from_bytes seed in
  let revocation := sk_from_bytes rev_seed in
  words ← ok_or (mnemonic_from_entropy (to_vec (sk_to_bytes revocation))) Mnemonic;
  let export := mk_export words (vk_to_bytes (verifying_key revocation)) in
  let registration := N.max (from_be (rev (to_vec rid))) 1 in
  let id := identity_id (vk_to_bytes (verifying_key sk)) in
  let installation := mk_install sk (export_public_key export) (address_for id)
    (new_store (identity_generate ls_seed) registration) 1 1 1 0 0 mls_default in
  let '(i, r) := rotate_signed_prekey now_ms spk_seed spk_rnd installation in
  r;; Ok (i, export).

(** [revocation_from_mnemonic]. *)
Definition revocation_from_mnemonic (words : rstring) (id : key) (coarse : N) : cresult RevocationStatement :=
  entropy ← ok_or (mnemonic_to_entropy words) Mnemonic;
  if negb (lenN entropy =? KEY_LEN) then Err Mnemonic
  else
    seed ← ok_or (try_into KEY_LEN entropy) Mnemonic;
    cwire (revocation_sign (sk_from_bytes seed) id coarse).

(** ** Signatures *)

(** [sign_capability_intro]. *)
Definition sign_capability_intro (i : Installation) (rcpt contact_capability dest_hpke : key) : cresult CapabilityIntro :=
  let intro sg := mk_intro (own_id i) (identity_public_key i) (inst_revocation_public_key i) dest_hpke (inst_binding_seq i)
                    (session_identity_key i) rcpt sg in
  sg ← cwire (Sign.sign (identity i) Sign.CAPABILITY_INTRO
               (signed_payload (intro (arr_repeat 64 x00)) contact_capability));
  Ok (intro sg).

(** [verify_capability_intro]. *)
Definition verify_capability_intro (i : Installation) (session_peer contact_capability : key) (intro : CapabilityIntro)
    : cresult unit :=
  intro_verify intro contact_capability (own_id i);;
  match peer_session_identity_key i session_peer with
  | Some k => if bool_decide (k = session_key intro) then Ok tt else Err BadIntro
  | None => Err BadIntro
  end.

Definition sign_invitee_proof (i : Installation) (group_id pending_id : key) : cresult InviteeProof :=
  cwire (proof_sign (identity i) group_id pending_id).

(** [mailbox_owner_auth]; [nonce] is drawn by [MailboxOwnerAuth::sign]. *)
Definition mailbox_owner_auth (i : Installation) (cur lim t : N) (sc : AuthScope) (nonce : key) : cresult MailboxOwnerAuth :=
  cwire (auth_sign (identity i) (to_vec (own_id i)) cur lim t sc nonce).

(** [card_with_share]. *)
Definition card_with_share (i : Installation) (server_hpke : key) (h : rstring) (expires : N) (token : key)
    : cresult ContactCard :=
  b ← cwire (binding_sign (identity i)
        (mk_binding (server_id server_hpke) server_hpke h (inst_binding_seq i) expires (arr_repeat 64 x00)));
  Ok (mk_card (identity_public_key i) (inst_revocation_public_key i) token b).

(** [mint_card]. *)
Definition mint_card (server_hpke : key) (h : rstring) (expires : N) (token : key) : method ContactCard :=
  modify (fun i => i <| inst_binding_seq ::= fun n => u64_add n 1 |>);;
  i ← get;
  lift (card_with_share i server_hpke h expires token).

(** ** Sessions *)

(** Runs a libsignal function on the session and identity stores. *)
Definition on_sessions {A} (m : stM (gmap ProtocolAddress SessionRecord * Identities) CoreError A) : method A :=
  fun i =>
    let s := store i in
    let '((ss, ids), r) := m (session_store s, identity_store s) in
    (i <| store := s <| session_store := ss |> <| identity_store := ids |> |>, r).

Definition card_verifying_key (card : ContactCard) : cresult VerifyingKey :=
  ok_or (vk_from_bytes (card_identity_public_key card)) (CoreWire Signature).

(** [start_session]; [t] is the system time handed to libsignal. *)
Definition start_session (card : ContactCard) (prekey : SignedPrekey) (now_unix t : N) (rnd : key) : method unit :=
  lift (cwire (card_verify card now_unix));;
  pk ← lift (card_verifying_key card);
  lift (cwire (prekey_verify prekey pk));;
  if negb (bool_decide (prekey_identity_public_key prekey = card_identity_public_key card)) then throw IdentityMismatch
  else
    b ← lift (prekey_bundle_decode (libsignal_prekey prekey));
    oid ← lift (signal (bundle_pre_key_id b));
    no_public ← lift (match oid with
                      | None => Ok true
                      | Some _ => p ← signal (bundle_pre_key_public b); Ok (match p with None => true | Some _ => false end)
                      end);
    if (no_public : bool) then throw EmptyPrekeyStock
    else
      let remote := address_for (card_identity_id card) in
      their_ls ← lift (signal (bundle_identity_key b));
      i ← get;
      lift (match get_identity remote (store i) with
            | Some k => if bool_decide (k = their_ls) then Ok tt else Err IdentityMismatch
            | None => Ok tt
            end);;
      on_sessions (process_prekey_bundle remote (inst_address i) b t rnd).

Definition start_session_from_discovery (card : ContactCard) (d : Discovery) (prekey : SignedPrekey) (now_unix t : N)
    (rnd : key) : method unit :=
  lift (resolve_contact card d now_unix);;
  start_session card prekey now_unix t rnd.

(** [encrypt]. *)
Definition encrypt (peer : key) (plaintext : bytes) (t : N) (rnd : key) : method bytes :=
  i ← get;
  on_sessions (message_encrypt plaintext (address_for peer) (inst_address i) t rnd).

(** [encrypt_to_mailbox] and [encrypt_attachment_to_mailbox]. *)
Definition encrypt_wrapped (mt : MessageType) (peer dest_hpke cap : key) (ttl : TtlBucket) (plaintext : bytes)
    (t : N) (rnd token seal_rnd : key) : method OuterEnvelope :=
  l ← encrypt peer plaintext t rnd;
  lift (wrap dest_hpke cap ttl mt l token seal_rnd).

Definition encrypt_to_mailbox := encrypt_wrapped DoubleRatchet.
Definition encrypt_attachment_to_mailbox := encrypt_wrapped AttachmentDr.

(** [parse_ciphertext]. *)
Definition parse_ciphertext (l : bytes) : cresult (PreKeySignalMessage + SignalMessage) :=
  match pksm_try_from l with
  | Some m => Ok (inl m)
  | None => match signal_try_from l with Some m => Ok (inr m) | None => Err BadCiphertext end
  end.

(** Length of the body without its trailing zeros. *)
Fixpoint last_nonzero (l : bytes) : N :=
  match l with
  | [] => 0
  | b :: l => let n := last_nonzero l in
              if n =? 0 then (if Byte.eqb b x00 then 0 else 1) else n + 1
  end.

(** The loop [for end in last..=body.len()]: [k] more ends from [e] on. *)
Fixpoint first_parsing (k : nat) (e : N) (l : bytes) : cresult bytes :=
  match k with
  | O => Err BadCiphertext
  | S k => if is_ok (parse_ciphertext (takeN e l)) then Ok (takeN e l) else first_parsing k (e + 1) l
  end.

(** [parse_padded_dr]. *)
Definition parse_padded_dr (l : bytes) : cresult bytes :=
  if is_ok (parse_ciphertext l) then Ok l
  else
    let last := last_nonzero l in
    first_parsing (N.to_nat (lenN l - last + 1)) last l.

(** Runs [message_decrypt] on the stores; the signed prekeys are read only. *)
Definition decrypt_message (msg : PreKeySignalMessage + SignalMessage) (peer : key) (rnd : key) : method bytes :=
  fun i =>
    let s := store i in
    let '((ss, ids, pks, ky), r) :=
      message_decrypt msg (address_for peer) (inst_address i) (signed_pre_key_store s) rnd
        (session_store s, identity_store s, pre_key_store s, kyber_pre_key_store s) in
    (i <| store := mk_store ss pks (signed_pre_key_store s) ky ids |>, r).

(** [decrypt]. *)
Definition decrypt (peer : key) (ciphertext : bytes) (rnd : key) : method bytes :=
  msg ← lift (parse_ciphertext ciphertext);
  decrypt_message msg peer rnd.

Definition decrypt_from_mailbox (peer : key) (inner : InnerEnvelope) (rnd : key) : method bytes :=
  l ← lift (expect_ratchet inner);
  ctext ← lift (parse_padded_dr l);
  decrypt peer ctext rnd.

(** [identity_matches]. *)
Definition identity_matches (s : SignalStore) (peer : key) (ls : IdentityKey) : bool :=
  match get_identity (address_for peer) s with Some k => bool_decide (k = ls) | None => false end.

Definition key_leb (a b : key) : bool := bytes_leb (to_vec a) (to_vec b).

(** The candidate peers of a row: the given ones and those the store knows. *)
Definition candidate_peers (s : SignalStore) (extra : list key) : list key :=
  dedup (sort_by key_leb (extra ++ omap (fun n => ok (parse_identity_id n)) (peer_address_names s))).

(** Tries the peers in turn, keeping the last error; [rnd] gives each attempt its
    random bytes. *)
Fixpoint try_peers (peers : list key) (ctext : bytes) (rnd : nat -> key) (last : CoreError) : method (key * bytes) :=
  match peers with
  | [] => throw last
  | peer :: peers => fun i =>
      match decrypt peer ctext (rnd 0%nat) i with
      | (i', Ok pt) => (i', Ok (peer, pt))
      | (i', Err e) => try_peers peers ctext (fun n => rnd (S n)) e i'
      end
  end.

(** [decrypt_incoming]. *)
Definition decrypt_incoming (inner : InnerEnvelope) (extra : list key) (rnd : nat -> key) : method (key * bytes) :=
  l ← lift (expect_ratchet inner);
  ctext ← lift (parse_padded_dr l);
  i ← get;
  let peers := candidate_peers (store i) extra in
  match pksm_try_from ctext with
  | Some pksm =>
      let ls := pksm_identity_key pksm in
      let peer := default (provisional_peer_id ls) (List.find (fun p => identity_matches (store i) p ls) peers) in
      pt ← decrypt peer ctext (rnd 0%nat);
      mret (peer, pt)
  | None => try_peers peers ctext rnd UnknownContact
  end.

(** [rematerialize_peer]. *)
Definition rematerialize_peer (from to : key) (i : Installation) : Installation :=
  if bool_decide (from = to) then i
  else i <| store ::= store_rematerialize (address_for from) (address_for to) |>.

(** ** Snapshots *)

(** [encode_snapshot]. *)
Definition encode_snapshot (i : Installation) : cresult bytes :=
  st ← store_encode (store i);
  Ok (encode (Map [(0, Uint 1); (1, Bytes (to_vec (sk_to_bytes (identity i))));
    (2, Bytes (to_vec (inst_revocation_public_key i))); (3, Bytes st); (4, Uint (next_pre_key_id i));
    (5, Uint (next_kyber_id i)); (6, Uint (signed_pre_key_id i)); (7, Uint (inst_binding_seq i));
    (8, Uint (signed_pre_key_at i))])).

(** Field reads that turn every error into [VaultCorrupt]. *)
Definition vault_uint (m : list (N * Value)) (k : N) : cresult N := v ← corrupt (map_get m k); corrupt (expect_uint v).
Definition vault_bytes (m : list (N * Value)) (k : N) : cresult bytes := v ← corrupt (map_get m k); corrupt (expect_bytes v).

(** [decode_snapshot]. *)
Definition decode_snapshot (l : bytes) : cresult Installation :=
  v ← corrupt (decode l);
  match v with
  | Map m =>
      version ← vault_uint m 0;
      ensure (version =? 1) VaultCorrupt;;
      skb ← vault_bytes m 1;
      seed ← ok_or (try_into KEY_LEN skb) VaultCorrupt;
      let sk := sk_from_bytes seed in
      revb ← vault_bytes m 2;
      rk ← ok_or (try_into KEY_LEN revb) VaultCorrupt;
      stb ← vault_bytes m 3;
      st ← store_decode stb;
      npk ← vault_uint m 4;
      nky ← vault_uint m 5;
      spk ← vault_uint m 6;
      bsq ← vault_uint m 7;
      at_ ← match map_get_opt m 8 with Some v => corrupt (expect_uint v) | None => Ok 0 end;
      let id := identity_id (vk_to_bytes (verifying_key sk)) in
      Ok (mk_install sk rk (address_for id) st (as_u32 npk) (as_u32 nky) (as_u32 spk) at_ bsq mls_default)
  | _ => Err VaultCorrupt
  end.
End Install.
