(* ===== verification/ToySignal.v ===== *)
(** * A concrete instance of the libsignal interface

    Transparent stand-ins that satisfy the laws of [SignalTypes], [SignalOps] and
    [Bip39], for the witnesses. Nothing here is secure, and no theorem depends on
    it. *)

From S2P Require Export Install.
From S2P Require Import Toy.

Module ToySignal.
Definition device : Type := { n : N | ((1 <=? n) && (n <=? 127)) = true }.

Definition mk_device (n : N) : option device :=
  match decide (((1 <=? n) && (n <=? 127)) = true) with left p => Some (exist _ n p) | right _ => None end.

Definition device_one : device := exist _ 1 eq_refl.

#[local] Instance types : SignalTypes := {|
  ProtocolAddress := rstring * device;
  DeviceId := device;
  IdentityKey := key;
  IdentityKeyPair := key;
  PreKeyRecord := bytes;
  SignedPreKeyRecord := N * key * bytes;
  KyberPreKeyRecord := N * key;
  SessionRecord := bytes;
  LsPublicKey := key;
  device_new := mk_device;
  device_u32 d := `d;
  device_id := device_one;
  address_new n d := (n, d);
  address_name a := a.1;
  address_device a := a.2;
  key_pair_serialize k := to_vec k;
  key_pair_try_from l := try_into 32 l;
  identity_serialize k := to_vec k;
  identity_key_decode l := try_into 32 l;
  pre_key_serialize r := Some r;
  pre_key_deserialize l := Some l;
  signed_serialize r := if r.1.1 <=? U64_MAX then Some (be_bytes 8 r.1.1 ++ to_vec r.1.2 ++ r.2) else None;
  signed_deserialize l :=
    match try_into 32 (takeN 32 (dropN 8 l)) with
    | Some k => Some (from_be (takeN 8 l), k, dropN 32 (dropN 8 l))
    | None => None
    end;
  kyber_serialize r := if r.1 <=? U64_MAX then Some (be_bytes 8 r.1 ++ to_vec r.2) else None;
  kyber_deserialize l :=
    match try_into 32 (dropN 8 l) with Some k => Some (from_be (takeN 8 l), k) | None => None end;
  session_serialize r := Some r;
  session_deserialize l := Some l;
  ls_public_serialize k := to_vec k;
  ls_public_deserialize l := try_into 32 l
|}.

Lemma read_id n l : n <= U64_MAX -> takeN 8 (be_bytes 8 n ++ l) = be_bytes 8 n /\ from_be (be_bytes 8 n) = n
  /\ dropN 8 (be_bytes 8 n ++ l) = l.
Proof.
  intros Hn. pose proof (lenN_be_bytes 8 n) as Hl.
  rewrite takeN_app_exact, dropN_app_exact by exact Hl. split_and!; try done.
  apply from_be_bytes. unfold U64_MAX in Hn. cbn. lia.
Qed.

#[local] Instance types_laws : SignalTypesLaws.
Proof.
  split; cbn -[be_bytes].
  - vm_compute. reflexivity.
  - intros n d. unfold mk_device. case_decide; intros; by simplify_eq.
  - intros [n Hn]. cbn. split.
    + unfold mk_device. case_decide; [|done]. do 2 f_equal. apply proof_irrel.
    + apply andb_true_iff in Hn as [?%N.leb_le ?%N.leb_le]. lia.
  - done.
  - by intros [].
  - apply try_into_to_vec.
  - apply try_into_to_vec.
  - intros; by simplify_eq.
  - intros [[n k] r] b. cbn -[be_bytes]. destruct (N.leb_spec n U64_MAX) as [Hn|]; intros Hb; [apply (inj Some) in Hb; subst b | discriminate].
    destruct (read_id n (to_vec k ++ r) Hn) as (-> & -> & ->).
    rewrite takeN_app_exact, dropN_app_exact, try_into_to_vec by apply arr_len. done.
  - intros [n k] b. cbn -[be_bytes]. destruct (N.leb_spec n U64_MAX) as [Hn|]; intros Hb; [apply (inj Some) in Hb; subst b | discriminate].
    destruct (read_id n (to_vec k) Hn) as (-> & -> & ->). by rewrite try_into_to_vec.
  - intros; by simplify_eq.
  - apply try_into_to_vec.
Qed.

Record bundle : Type := mk_bundle {
  b_rid : N; b_dev : device; b_otpk : option (N * key); b_sid : N; b_spk : key; b_ssig : bytes;
  b_kid : N; b_kpk : key; b_ksig : bytes; b_ik : key
}.

(** A prekey message is [1], the sender's identity key, the plaintext and [255]; a
    session message is [2], the plaintext and [255]. *)
Definition unframe (l : bytes) : option bytes :=
  match rev l with xff :: r => Some (rev r) | _ => None end.

Definition pksm_of (l : bytes) : option (key * bytes) :=
  match l with
  | x01 :: l => r ← unframe l; k ← try_into 32 (takeN 32 r); Some (k, dropN 32 r)
  | _ => None
  end.

Definition signal_of (l : bytes) : option bytes :=
  match l with x02 :: l => unframe l | _ => None end.

Notation sessions := (gmap (rstring * device) bytes).

#[local] Instance ops : SignalOps := {|
  LsKeyPair := key;
  KemPublic := key;
  PreKeyBundle := bundle;
  PreKeySignalMessage := key * bytes;
  SignalMessage := bytes;
  identity_generate k := k;
  identity_key k := k;
  ls_generate k := k;
  ls_public k := k;
  calculate_signature k l _ := Some (to_vec k ++ l);
  pre_key_new _ k := to_vec k;
  signed_new id _ k sg := (id, k, sg);
  signed_id r := Some r.1.1;
  signed_public r := Some r.1.2;
  signed_signature r := Some r.2;
  kyber_generate id _ k := Some (id, k);
  kyber_id r := Some r.1;
  kyber_public r := Some r.2;
  kyber_signature r := Some [];
  kem_serialize k := to_vec k;
  kem_deserialize l := try_into 32 l;
  bundle_new rid d otpk sid spk ssig kid kpk ksig ik := Some (mk_bundle rid d otpk sid spk ssig kid kpk ksig ik);
  bundle_registration_id b := Some (b_rid b);
  bundle_pre_key_id b := Some (fst <$> b_otpk b);
  bundle_pre_key_public b := Some (snd <$> b_otpk b);
  bundle_signed_id b := Some (b_sid b);
  bundle_signed_public b := Some (b_spk b);
  bundle_signed_signature b := Some (b_ssig b);
  bundle_kyber_id b := Some (b_kid b);
  bundle_kyber_public b := Some (b_kpk b);
  bundle_kyber_signature b := Some (b_ksig b);
  bundle_identity_key b := Some (b_ik b);
  pksm_try_from := pksm_of;
  pksm_identity_key m := m.1;
  signal_try_from := signal_of;
  process_prekey_bundle remote _ b _ _ := fun s =>
    ((<[remote := []]> s.1, s.2 <| known ::= <[remote := b_ik b]> |>), Ok tt);
  message_encrypt pt remote _ _ _ := fun s =>
    match (s.1 : sessions) !! remote with
    | Some _ => (s, Ok (x02 :: pt ++ [xff]))
    | None => (s, Err Signal)
    end;
  message_decrypt msg remote _ _ _ := fun s =>
    let '(ss, ids, pks, ky) := s in
    match msg with
    | inl (k, pt) => ((<[remote := []]> ss, ids <| known ::= <[remote := k]> |>, pks, ky), Ok pt)
    | inr pt => match (ss : sessions) !! remote with Some _ => (s, Ok pt) | None => (s, Err Signal) end
    end
|}.

#[local] Instance ops_laws : SignalOpsLaws.
Proof.
  split; cbn; [|apply try_into_to_vec]. intros; simplify_eq; split_and!; reflexivity.
Qed.

#[local] Instance words : Bip39 := {| mnemonic_from_entropy l := Some (to_hex l); mnemonic_to_entropy s := ok (from_hex s) |}.

#[local] Instance words_laws : Bip39Laws.
Proof. split. cbn. intros b m [= <-]. by rewrite from_to_hex. Qed.

#[local] Instance mls : OpenMls := {|
  MlsProvider := gmap bytes bytes; mls_default := ∅; mls_values m := m; mls_with_values m _ := m
|}.
#[local] Instance mls_laws : OpenMlsLaws.
Proof. by split. Qed.
End ToySignal.
