(* ===== verification/InstallProps.v ===== *)
(** * Properties of the installation

    Snapshots restore the installation, restocking ends with a full stock of
    fresh prekeys, padding is removed from ratchet messages, introductions verify
    exactly on the session they were signed for, and the revocation words work. *)

From S2P Require Export Install.
From S2P Require Import Toy ToySignal.

Section Install.
Context `{CryptoLaws} `{SignalOpsLaws} `{!SignalTypesLaws} `{Bip39Laws} `{OpenMls}.
Implicit Types (i : Installation).

(** ** Snapshots *)

(** An installation of the Rust types whose address is that of its identity. *)
Record install_typed i : Prop := {
  it_store : store_typed (store i);
  it_pre_key : next_pre_key_id i <= U32_MAX;
  it_kyber : next_kyber_id i <= U32_MAX;
  it_signed : signed_pre_key_id i <= U32_MAX;
  it_signed_at : signed_pre_key_at i <= U64_MAX;
  it_binding : inst_binding_seq i <= U64_MAX;
  it_address : inst_address i = address_for (own_id i)
}.

(** The encoded store fits in memory. *)
Definition snapshot_fits i : Prop :=
  forall v, store_to_cbor (store i) = Ok v -> wf_value v = true /\ lenN (encode v) <= U64_MAX.

Lemma snapshot_decode_encode i l :
  install_typed i -> snapshot_fits i -> encode_snapshot i = Ok l ->
  decode_snapshot l = Ok (mk_install (identity i) (inst_revocation_public_key i) (inst_address i) (store i)
    (next_pre_key_id i) (next_kyber_id i) (signed_pre_key_id i) (signed_pre_key_at i) (inst_binding_seq i) mls_default).
Proof.
  intros [Hst Hp Hk Hs Hat Hb Ha] Hfit (st & Hse & Hl)%result_bind_ok. apply Ok_inj in Hl. subst l.
  assert (store_decode st = Ok (store i)) as Hd.
  { eapply store_decode_encode; [done.. |]. intros v Hv. by apply Hfit. }
  assert (lenN st <= U64_MAX) as Hlen.
  { unfold store_encode in Hse. destruct (store_to_cbor (store i)) as [v|] eqn:Hv; [|done].
    cbn in Hse. simplify_eq. by apply (Hfit v). }
  clear Hse Hfit. unfold decode_snapshot. rewrite decode_encode_wf.
  - unfold vault_uint, vault_bytes. cbn -[store_decode to_vec try_into]. rewrite !try_into_to_vec.
    cbn -[store_decode to_vec try_into]. rewrite Hd. cbn. rewrite sk_bytes_roundtrip, !as_u32_small by done.
    by rewrite Ha.
  - unfold U32_MAX in *. solve_wf.
Qed.

(** ** Prekeys *)

(** Identifiers of unused prekeys are below the next one. *)
Definition prekeys_fresh i : Prop := forall id r, pre_key_store (store i) !! id = Some r -> id < next_pre_key_id i.

Lemma unused_size i : unused_one_time_prekeys i = N.of_nat (size (pre_key_store (store i))).
Proof. unfold unused_one_time_prekeys, all_pre_key_ids, lenN. by rewrite length_fmap, length_map_to_list. Qed.

Lemma stM_bind_err {S E A B} (m : stM S E A) (k : A -> stM S E B) s s' e :
  m s = (s', Err e) -> (m ≫= k) s = (s', Err e).
Proof. unfold mbind, stM_bind. by intros ->. Qed.

(** Whether minting succeeds or fails, the stock has gained the next id. *)
Lemma mint_prekey_stock s1 s2 i :
  let i' := (mint_prekey s1 s2 i).1 in
  next_pre_key_id i' = u32_saturating_add (next_pre_key_id i) 1
  /\ pre_key_store (store i') = <[next_pre_key_id i := pre_key_new (next_pre_key_id i) (ls_generate s1)]> (pre_key_store (store i))
  /\ identity i' = identity i.
Proof.
  unfold mint_prekey, mbind, stM_bind, get, modify, lift.
  destruct (signal (kyber_generate _ _ _)) as [kyber|]; [|done].
  destruct (get_signed_pre_key _ _) as [signed|]; [|done].
  match goal with |- context [match ?m with Ok _ => _ | Err _ => _ end] => destruct m; [|done] end.
  by destruct (prekey_bundle_encode _).
Qed.

Lemma mint_prekey_ok s1 s2 i i' p :
  mint_prekey s1 s2 i = (i', Ok p) ->
  prekey_id p = next_pre_key_id i /\ prekey_verify p (verifying_key (identity i)) = Ok tt.
Proof.
  intros Hm. unfold mint_prekey in Hm.
  repeat (apply stM_bind_ok in Hm as (? & ? & ? & Hm)). unfold get, modify, lift in *. simplify_eq.
  match goal with H : cwire _ = Ok p |- _ => apply wire_ok in H; rename H into Hs end.
  unfold prekey_sign in Hs. apply result_bind_ok in Hs as (sg & Hsg & Hs). simplify_eq. split; [done|].
  unfold prekey_verify. cbn [prekey_identity_public_key]. rewrite bool_decide_eq_true_2 by done.
  exact (Sign.sign_verify _ _ _ _ Hsg).
Qed.

Lemma fresh_insert i i' r :
  prekeys_fresh i -> next_pre_key_id i < U32_MAX ->
  next_pre_key_id i' = u32_saturating_add (next_pre_key_id i) 1 ->
  pre_key_store (store i') = <[next_pre_key_id i := r]> (pre_key_store (store i)) ->
  prekeys_fresh i' /\ next_pre_key_id i' = next_pre_key_id i + 1
  /\ unused_one_time_prekeys i' = unused_one_time_prekeys i + 1.
Proof.
  intros Hf Hlt Hn Hs. unfold u32_saturating_add in Hn.
  assert (pre_key_store (store i) !! next_pre_key_id i = None) as Hnone.
  { destruct (pre_key_store (store i) !! next_pre_key_id i) eqn:He; [|done]. apply Hf in He. lia. }
  split_and!; [|lia|].
  - intros id x. rewrite Hs. intros [[<- _]|[_ Hx%Hf]]%lookup_insert_Some; lia.
  - rewrite !unused_size, Hs, map_size_insert_None by done. lia.
Qed.

(** The prekeys of a list are those with the ids [from], [from + 1], and so on,
    signed by the identity. *)
Fixpoint minted_from (pk : VerifyingKey) (from : N) (ps : list SignedPrekey) : Prop :=
  match ps with
  | [] => True
  | p :: ps => prekey_id p = from /\ prekey_verify p pk = Ok tt /\ minted_from pk (from + 1) ps
  end.

Lemma minted_from_app pk from ps p :
  minted_from pk from ps -> prekey_id p = from + lenN ps -> prekey_verify p pk = Ok tt -> minted_from pk from (ps ++ [p]).
Proof.
  revert from. induction ps as [|q ps IH]; intros from; cbn.
  - intros _ Hp Hv. rewrite N.add_0_r in Hp. done.
  - intros (? & ? & ?) Hp Hv. split_and!; try done. apply IH; try done. rewrite lenN_cons in Hp. lia.
Qed.

Lemma restock_loop_total fuel draws out i from :
  prekeys_fresh i -> from + 100 <= U32_MAX ->
  next_pre_key_id i = from + lenN out -> minted_from (verifying_key (identity i)) from out ->
  lenN out <= unused_one_time_prekeys i -> 100 <= unused_one_time_prekeys i + N.of_nat fuel ->
  exists i' r, restock_loop (S fuel) draws out i = Some (i', r) /\ prekeys_fresh i'
    /\ match r with
       | Ok ps => unused_one_time_prekeys i' = N.max 100 (unused_one_time_prekeys i)
                  /\ minted_from (verifying_key (identity i)) from ps
                  /\ lenN ps = lenN out + (100 - unused_one_time_prekeys i)
       | Err _ => True
       end.
Proof.
  revert out i. induction fuel as [|fuel IH]; intros out i Hf Hmax Hnext Hout Hle Hfuel;
    remember (S _) as f eqn:Ef; destruct f as [|f']; try done; cbn [restock_loop]; unfold PREKEY_STOCK_TARGET;
    (destruct (N.ltb_spec (unused_one_time_prekeys i) 100) as [Hlt|Hge];
     [|eexists _, _; split; [reflexivity|]; split_and!; try done; lia]); [lia|].
  injection Ef as ->.
  destruct (draws (length out)) as [s1 s2]. pose proof (mint_prekey_stock s1 s2 i) as Hm. cbv zeta in Hm.
  destruct (mint_prekey s1 s2 i) as [i1 [p|e]] eqn:Hmint; destruct Hm as (Hn & Hs & Hid); cbn [fst] in Hn, Hs, Hid;
    destruct (fresh_insert i i1 _ Hf ltac:(lia) Hn Hs) as (Hf1 & Hn1 & Hu1); [|eexists _, _; split; [reflexivity|]; done].
  destruct (mint_prekey_ok _ _ _ _ _ Hmint) as [Hp Hv].
  destruct (IH (out ++ [p]) i1) as (i' & r & Hr & Hf' & Hres); rewrite ?lenN_app, ?lenN_cons, ?lenN_nil; try lia; try done.
  { rewrite Hid. apply minted_from_app; [done | lia | done]. }
  exists i', r. split; [exact Hr|]. split; [done|]. destruct r as [ps|]; [|done].
  destruct Hres as (? & Hps & Hl). rewrite Hid in Hps. rewrite lenN_app, lenN_cons, lenN_nil in Hl.
  split_and!; try done; lia.
Qed.

(** At the last identifier the stock no longer grows, and the loop cannot end. *)
Lemma restock_stuck fuel draws out i r :
  unused_one_time_prekeys i < 100 -> next_pre_key_id i = U32_MAX -> is_Some (pre_key_store (store i) !! U32_MAX) ->
  restock_loop fuel draws out i = Some r -> exists e, r.2 = Err e.
Proof.
  revert out i. induction fuel as [|fuel IH]; intros out i Hu Hn Hs; cbn [restock_loop]; [done|].
  unfold PREKEY_STOCK_TARGET. destruct (N.ltb_spec (unused_one_time_prekeys i) 100); [|lia].
  destruct (draws (length out)) as [s1 s2]. pose proof (mint_prekey_stock s1 s2 i) as Hm. cbv zeta in Hm.
  destruct (mint_prekey s1 s2 i) as [i1 [p|e]]; [|intros [= <-]; eauto].
  destruct Hm as (Hn1 & Hs1 & _). cbn [fst] in *. rewrite Hn in *. apply IH.
  - rewrite unused_size, Hs1, map_size_insert_Some by done. by rewrite <- unused_size.
  - rewrite Hn1. reflexivity.
  - rewrite Hs1, lookup_insert_eq. eauto.
Qed.

(** ** Padding *)

Lemma last_nonzero_bound l : last_nonzero l <= lenN l.
Proof. induction l as [|b l IH]; cbn [last_nonzero]; [done|]. rewrite lenN_cons. repeat case_cond; lia. Qed.

Lemma last_nonzero_zeros l k : last_nonzero (l ++ replicate k x00) = last_nonzero l.
Proof.
  induction l as [|b l IH]; cbn [app last_nonzero]; [|by rewrite IH].
  induction k as [|k IHk]; cbn [replicate last_nonzero]; [done|]. by rewrite IHk.
Qed.

Lemma first_parsing_spec k e l n :
  e <= n -> n < e + N.of_nat k -> is_ok (parse_ciphertext (takeN n l)) = true ->
  exists m, e <= m <= n /\ first_parsing k e l = Ok (takeN m l) /\ is_ok (parse_ciphertext (takeN m l)) = true.
Proof.
  revert e. induction k as [|k IH]; intros e Hen Hnk Hp; [lia|]. cbn [first_parsing].
  destruct (is_ok (parse_ciphertext (takeN e l))) eqn:Ep; [exists e; split_and!; [lia..| done | done]|].
  assert (e <> n) by (intros ->; congruence).
  destruct (IH (e + 1)) as (m & ? & ? & ?); [lia | lia | done |]. exists m. split_and!; [lia..| done | done].
Qed.

(** A ratchet message followed by zero padding is found again: the result parses
    and differs from the message only in trailing zeros. *)
Lemma parse_padded_dr_spec ct k :
  is_ok (parse_ciphertext ct) = true ->
  exists r m, parse_padded_dr (ct ++ replicate k x00) = Ok r /\ is_ok (parse_ciphertext r) = true
    /\ r = takeN m (ct ++ replicate k x00) /\ last_nonzero ct <= m.
Proof.
  intros Hp. unfold parse_padded_dr.
  destruct (is_ok (parse_ciphertext (ct ++ replicate k x00))) eqn:Ep.
  { exists (ct ++ replicate k x00), (lenN (ct ++ replicate k x00)). split_and!; try done.
    - unfold takeN, lenN. rewrite Nat2N.id, firstn_all. done.
    - rewrite lenN_app. pose proof (last_nonzero_bound ct). lia. }
  rewrite last_nonzero_zeros. pose proof (last_nonzero_bound ct).
  destruct (first_parsing_spec (N.to_nat (lenN (ct ++ replicate k x00) - last_nonzero ct + 1)) (last_nonzero ct)
    (ct ++ replicate k x00) (lenN ct)) as (m & Hm & Hr & Hok); [done | rewrite lenN_app; lia | |].
  { by rewrite takeN_app_exact. }
  exists (takeN m (ct ++ replicate k x00)), m. split_and!; [done | done | done | lia].
Qed.

(** ** Introductions *)

Lemma sign_intro_ok a rcpt cap hpke intro :
  sign_capability_intro a rcpt cap hpke = Ok intro ->
  intro_verify intro cap rcpt = Ok tt /\ intro_identity_id intro = own_id a
  /\ session_key intro = session_identity_key a /\ intro_dest_hpke intro = hpke
  /\ intro_binding_seq intro = inst_binding_seq a /\ intro_revocation_public_key intro = inst_revocation_public_key a.
Proof.
  unfold sign_capability_intro. intros (sg & Hs%wire_ok & Hi)%result_bind_ok. apply Ok_inj in Hi. subst intro.
  split_and!; try done. unfold intro_verify. cbn [recipient intro_identity_public_key intro_identity_id].
  rewrite !bool_decide_eq_true_2 by done. cbn [negb]. unfold identity_public_key. rewrite vk_bytes_roundtrip.
  apply Sign.sign_verify in Hs. exact (f_equal (map_err (fun _ => BadIntro)) Hs).
Qed.
(** ** Incoming rows *)

(** A prekey message is handed to libsignal once, under the known peer with its
    identity key or under the provisional one. *)
Lemma decrypt_incoming_prekey inner extra rnd i l ct pksm :
  expect_ratchet inner = Ok l -> parse_padded_dr l = Ok ct -> pksm_try_from ct = Some pksm ->
  let ls := pksm_identity_key pksm in
  let peer := default (provisional_peer_id ls)
                (List.find (fun p => identity_matches (store i) p ls) (candidate_peers (store i) extra)) in
  decrypt_incoming inner extra rnd i
  = (let '(i', r) := decrypt peer ct (rnd 0%nat) i in (i', pair peer <$> r)).
Proof.
  intros He Hp Hk ls peer. unfold decrypt_incoming, mbind, stM_bind, lift, get. rewrite He, Hp, Hk. fold ls. fold peer.
  by destruct (decrypt peer ct (rnd 0%nat) i) as [i' [pt|e]].
Qed.

(** ** Revocation *)

Lemma create_ok seed rev_seed ls_seed rid now s1 s2 i export :
  create seed rev_seed ls_seed rid now s1 s2 = Ok (i, export) ->
  identity i = sk_from_bytes seed
  /\ inst_revocation_public_key i = vk_to_bytes (verifying_key (sk_from_bytes rev_seed))
  /\ mnemonic_from_entropy (to_vec (sk_to_bytes (sk_from_bytes rev_seed))) = Some (mnemonic export)
  /\ next_pre_key_id i = 1 /\ pre_key_store (store i) = ∅.
Proof.
  unfold create. destruct (mnemonic_from_entropy _) as [words|]; [|done]. cbn [mbind result_bind ok_or].
  unfold rotate_signed_prekey, mbind, stM_bind, get, lift, modify. cbn -[identity_id].
  destruct (calculate_signature _ _ _) as [sg|]; cbn; [|done]. intros [= <- <-]. done.
Qed.
End Install.

(** ** Properties *)

(** A snapshot restores the installation: what [encode_snapshot] writes,
    [decode_snapshot] reads back to the same identity, keys, sessions, prekeys of
    all three kinds, used base keys, counters and address, with a fresh MLS
    provider. *)
Theorem install_snapshot_roundtrip `{CryptoLaws} `{SignalOps} `{!SignalTypesLaws} `{OpenMls} (i : Installation) l :
  install_typed i -> snapshot_fits i -> encode_snapshot i = Ok l ->
  decode_snapshot l = Ok (mk_install (identity i) (inst_revocation_public_key i) (inst_address i) (store i)
    (next_pre_key_id i) (next_kyber_id i) (signed_pre_key_id i) (signed_pre_key_at i) (inst_binding_seq i) mls_default).
Proof. apply snapshot_decode_encode. Qed.

(** Restocking ends: from a stock whose identifiers are below the next one,
    101 rounds are enough for the loop to return. When no call of libsignal fails
    the stock is then at least 100, exactly the missing prekeys were minted, and
    they carry consecutive fresh identifiers and verify under the identity key. *)
Theorem restock_terminates `{CryptoLaws} `{SignalOps} `{OpenMls} (i : Installation) draws :
  prekeys_fresh i -> next_pre_key_id i + 100 <= U32_MAX ->
  exists i' r, restock 101 draws i = Some (i', r) /\ prekeys_fresh i'
    /\ match r with
       | Ok ps => unused_one_time_prekeys i' = N.max 100 (unused_one_time_prekeys i)
                  /\ minted_from (verifying_key (identity i)) (next_pre_key_id i) ps
                  /\ lenN ps = 100 - unused_one_time_prekeys i
       | Err _ => True
       end.
Proof.
  intros Hf Hmax. destruct (restock_loop_total 100 draws [] i (next_pre_key_id i)) as (i' & r & Hr & Hf' & Hres);
    rewrite ?lenN_nil; try done; try lia.
  exists i', r. split_and!; [exact Hr | done |]. by destruct r.
Qed.

(** The revocation words shown at creation are enough to revoke: they yield a
    statement for the identity that verifies under the revocation key of the
    installation's cards. *)
Theorem revocation_words_work `{CryptoLaws} `{SignalOps} `{Bip39Laws} `{OpenMls}
    seed rev_seed ls_seed rid now s1 s2 i export id ts stmt :
  create seed rev_seed ls_seed rid now s1 s2 = Ok (i, export) ->
  revocation_from_mnemonic (mnemonic export) id ts = Ok stmt ->
  exists rpk, vk_from_bytes (inst_revocation_public_key i) = Some rpk /\ revocation_verify stmt rpk = Ok tt
    /\ revoked_identity_id stmt = id /\ coarse_timestamp stmt = ts.
Proof.
  intros (_ & Hr & Hw & _)%create_ok Hs. unfold revocation_from_mnemonic in Hs.
  rewrite (mnemonic_roundtrip _ _ Hw) in Hs. cbn -[revocation_sign to_vec try_into lenN] in Hs.
  rewrite arr_len, try_into_to_vec in Hs. cbn -[revocation_sign] in Hs. rewrite sk_bytes_roundtrip in Hs.
  apply wire_ok, result_bind_ok in Hs as (sg & Hsg & Hs). apply Ok_inj in Hs. subst stmt.
  exists (verifying_key (sk_from_bytes rev_seed)). rewrite Hr. split_and!; [apply vk_bytes_roundtrip | | done | done].
  exact (Sign.sign_verify _ _ _ _ Hsg).
Qed.

(** An introduction binds an identity to the session it arrives on: the one
    that [a] signs for [b] is accepted by [b] exactly on the session whose pinned
    key is [a]'s; and whatever [b] accepts carries a signature, by the identity key
    whose hash is the claimed identity, over [b]'s own identity, that session
    key and the offered capability. *)
Theorem intro_binds_session `{CryptoLaws} `{SignalOps} `{OpenMls} (a b : Installation) cap hpke intro peer :
  sign_capability_intro a (own_id b) cap hpke = Ok intro ->
  (verify_capability_intro b peer cap intro = Ok tt
   <-> peer_session_identity_key b peer = Some (session_identity_key a))
  /\ forall cap' intro', verify_capability_intro b peer cap' intro' = Ok tt ->
       recipient intro' = own_id b
       /\ intro_identity_id intro' = identity_id (intro_identity_public_key intro')
       /\ peer_session_identity_key b peer = Some (session_key intro')
       /\ exists pk, vk_from_bytes (intro_identity_public_key intro') = Some pk
           /\ Sign.verify pk Sign.CAPABILITY_INTRO (signed_payload intro' cap') (intro_signature intro') = Ok tt.
Proof.
  intros Hi. split.
  - destruct (sign_intro_ok _ _ _ _ _ Hi) as (Hv & _ & Hk & _). unfold verify_capability_intro. rewrite Hv. cbn.
    destruct (peer_session_identity_key b peer) as [k|]; [|done]. rewrite Hk.
    case_bool_decide; split; intros; simplify_eq; done.
  - intros cap' intro'. unfold verify_capability_intro.
    intros ([] & (Hr & Hid & Hpk)%intro_verify_ok & Hk)%result_bind_ok. split_and!; try done.
    destruct (peer_session_identity_key b peer) as [k|]; [|done]. case_bool_decide; [|done]. by subst.
Qed.

Section Witnesses.
#[local] Existing Instances Toy.toy Toy.toy_laws ToySignal.types ToySignal.types_laws ToySignal.ops ToySignal.ops_laws
  ToySignal.words ToySignal.words_laws ToySignal.mls.

(** An installation with one signed prekey, and one that has also received a
    message from it under a provisional address. *)
Definition sample_install (b : byte) : Installation :=
  match create (arr_repeat 32 b) (arr_repeat 32 x77) (arr_repeat 32 b) (arr_repeat 4 x01) 1700000000000
          (arr_repeat 32 x55) (arr_repeat 32 x56) with
  | Ok (i, _) => i
  | Err _ => mk_install (arr_repeat 32 b) (arr_repeat 32 b) (address_for (arr_repeat 32 b))
               (new_store (arr_repeat 32 b) 1) 1 1 1 0 0 mls_default
  end.

Definition sample_sender : Installation := sample_install x0a.
Definition sample_provisional : key := provisional_peer_id (arr_repeat 32 x0a).
Definition sample_receiver : Installation :=
  (decrypt sample_provisional (x01 :: replicate 32 x0a ++ [x68; x69; xff]) (arr_repeat 32 x00) (sample_install x0b)).1.

Lemma sample_receiver_typed : install_typed sample_receiver.
Proof.
  split; [|vm_compute; discriminate..|vm_compute; reflexivity].
  split; [vm_compute; discriminate|..].
  - intros k v. replace (pre_key_store (store sample_receiver)) with (∅ : gmap N bytes) by (vm_compute; reflexivity).
    rewrite lookup_empty. discriminate.
  - intros k v Hk. assert (k = 1) as ->; [|vm_compute; discriminate].
    revert Hk. replace (signed_pre_key_store (store sample_receiver)) with
      ({[1 := (1, arr_repeat 32 x55, replicate 32 x0b ++ replicate 32 x55)]} : gmap N (N * key * bytes))
      by (vm_compute; reflexivity).
    intros [? _]%lookup_singleton_Some. congruence.
  - intros k v. replace (kyber_keys (kyber_pre_key_store (store sample_receiver))) with (∅ : gmap N (N * key)) by (vm_compute; reflexivity).
    rewrite lookup_empty. discriminate.
  - intros k v. replace (kyber_used (kyber_pre_key_store (store sample_receiver))) with (∅ : gmap (N * N) (list key)) by (vm_compute; reflexivity).
    rewrite lookup_empty. discriminate.
Qed.

Lemma sample_receiver_fits : snapshot_fits sample_receiver.
Proof.
  intros v Hv.
  assert (match store_to_cbor (store sample_receiver) with
          | Ok v => wf_value v && (lenN (encode v) <=? U64_MAX)
          | Err _ => true
          end = true) as Hc by (vm_compute; reflexivity).
  rewrite Hv in Hc. apply andb_true_iff in Hc as [? ?%N.leb_le]. by split.
Qed.

Example install_snapshot_roundtrip_witness :
  exists l i, encode_snapshot sample_receiver = Ok l /\ decode_snapshot l = Ok i
    /\ pre_key_store (store i) = pre_key_store (store sample_receiver)
    /\ session_store (store i) = session_store (store sample_receiver).
Proof.
  assert (is_ok (encode_snapshot sample_receiver) = true) as Hok by (vm_compute; reflexivity).
  destruct (encode_snapshot sample_receiver) as [l|] eqn:He; [|discriminate Hok].
  eexists l, _. exact (conj eq_refl (conj (install_snapshot_roundtrip sample_receiver l sample_receiver_typed sample_receiver_fits He)
    (conj eq_refl eq_refl))).
Defined.

Example restock_terminates_witness :
  exists i' r, restock 101 (fun n => (arr_repeat 32 x21, arr_repeat 32 x22)) sample_sender = Some (i', r)
    /\ match r with Ok ps => lenN ps = 100 | Err _ => True end.
Proof.
  destruct (restock_terminates sample_sender (fun n => (arr_repeat 32 x21, arr_repeat 32 x22))) as (i' & r & Hr & _ & Hres).
  - intros id v. replace (pre_key_store (store sample_sender)) with (∅ : gmap N bytes) by (vm_compute; reflexivity).
    rewrite lookup_empty. discriminate.
  - vm_compute. discriminate.
  - exists i', r. split; [exact Hr|]. destruct r as [ps|]; [|exact I]. destruct Hres as (_ & _ & ->). reflexivity.
Defined.

Example intro_binds_session_witness :
  exists intro, sign_capability_intro sample_sender (own_id sample_receiver) (arr_repeat 32 x31) (arr_repeat 32 x32) = Ok intro
    /\ verify_capability_intro sample_receiver sample_provisional (arr_repeat 32 x31) intro = Ok tt.
Proof.
  eexists. split; [vm_compute; reflexivity|].
  eapply (intro_binds_session sample_sender sample_receiver (arr_repeat 32 x31) (arr_repeat 32 x32) _ sample_provisional);
    vm_compute; reflexivity.
Defined.
End Witnesses.
