(* ===== verification/ClientState.v ===== *)
(** * What a client remembers of its home

    The data of [nemo-core/src/home.rs]: credentials at group hosts, pending
    joins, contacts, and the durable [HomeState] with its CBOR form in the vault. *)

From S2P Require Export Install.
From S2P Require Import Toy.

(** ** Group credentials *)

Record HostCred : Type := mk_hcred { hc_id : key; hc_secret : key }.

Record HostGroup : Type := mk_hgroup { hg_group_id : key; hg_cred : HostCred; host_base : rstring }.

Definition eta_hgroup (g : HostGroup) : HostGroup := mk_hgroup (hg_group_id g) (hg_cred g) (host_base g).
#[global] Instance host_base_field : Field host_base.
Proof. derive_field eta_hgroup host_base. Defined.

Record HostAccept : Type := mk_haccept {
  ha_pending_id : key;
  ha_cred : HostCred;
  ha_binding : option key;
  ha_salt : option key
}.

Record ClientPendingLookup : Type := mk_plookup {
  pl_credential_id : key;
  pl_binding : option key;
  pl_salt : option key
}.

Definition client_opt_pair (k : N) (o : option key) : list (N * Value) :=
  match o with Some b => [(k, Bytes (to_vec b))] | None => [] end.

(** [HostAccept::encode]. *)
Definition accept_encode (a : HostAccept) : bytes :=
  encode (Map ([(0, Bytes (to_vec (ha_pending_id a)));
                (1, Bytes (to_vec (hc_id (ha_cred a))));
                (2, Bytes (to_vec (hc_secret (ha_cred a))))]
               ++ client_opt_pair 3 (ha_binding a) ++ client_opt_pair 4 (ha_salt a))).

(** A key of the vault: a missing field is [VaultCorrupt], a wrong length the
    error of [copy_fixed]. *)
Definition vault_key (m : list (N * Value)) (k : N) : cresult key :=
  l ← vault_bytes m k; cwire (copy_fixed KEY_LEN l).

Definition vault_opt_key (m : list (N * Value)) (k : N) : cresult (option key) :=
  match map_get_opt m k with
  | Some v => l ← corrupt (expect_bytes v); b ← cwire (copy_fixed KEY_LEN l); Ok (Some b)
  | None => Ok None
  end.

(** [let Value::Map(m) = cbor::decode(bytes).map_err(..)? else { .. }]. *)
Definition vault_map (l : bytes) : cresult (list (N * Value)) :=
  v ← corrupt (decode l);
  match v with Map m => Ok m | _ => Err VaultCorrupt end.

(** [HostAccept::decode]. *)
Definition accept_decode (l : bytes) : cresult HostAccept :=
  m ← vault_map l;
  pid ← vault_key m 0;
  cid ← vault_key m 1;
  secret ← vault_key m 2;
  b ← vault_opt_key m 3;
  s ← vault_opt_key m 4;
  Ok (mk_haccept pid (mk_hcred cid secret) b s).

(** ** Contacts *)

Record StoredContact : Type := mk_contact {
  contact_pin : ContactPin;
  contact_capability : key;
  dest_hpke : key;
  last_discovery_unix : N;
  revoked : bool;
  home_origin : rstring
}.

Definition eta_contact (c : StoredContact) : StoredContact :=
  mk_contact (contact_pin c) (contact_capability c) (dest_hpke c) (last_discovery_unix c) (revoked c) (home_origin c).
#[global] Instance contact_pin_field : Field contact_pin.
Proof. derive_field eta_contact contact_pin. Defined.
#[global] Instance contact_capability_field : Field contact_capability.
Proof. derive_field eta_contact contact_capability. Defined.
#[global] Instance dest_hpke_field : Field dest_hpke.
Proof. derive_field eta_contact dest_hpke. Defined.
#[global] Instance last_discovery_unix_field : Field last_discovery_unix.
Proof. derive_field eta_contact last_discovery_unix. Defined.
#[global] Instance revoked_field : Field revoked.
Proof. derive_field eta_contact revoked. Defined.
#[global] Instance home_origin_field : Field home_origin.
Proof. derive_field eta_contact home_origin. Defined.

(** ** The durable state *)

Record ClientHome : Type := mk_client_home {
  ch_bundle : ServerBundle;
  ch_cursor : N;
  ch_contacts : gmap key StoredContact;
  ch_groups : list HostGroup;
  ch_home_base : rstring;
  ch_privacy : PrivacyMode
}.

Definition privacy_to_u64 (mode : PrivacyMode) : N :=
  match mode with Normal => 0 | Private => 1 | High => 2 | Maximum => 3 end.

Definition privacy_from_u64 (v : N) : cresult PrivacyMode :=
  match v with
  | 0 => Ok Normal
  | 1 => Ok Private
  | 2 => Ok High
  | 3 => Ok Maximum
  | _ => Err VaultCorrupt
  end.

Definition contact_row (e : key * StoredContact) : Value :=
  let c := e.2 in
  Map [(0, Bytes (to_vec e.1));
       (1, Bytes (to_vec (pin_identity_public_key (contact_pin c))));
       (2, Bytes (to_vec (pin_revocation_public_key (contact_pin c))));
       (3, Uint (pin_seq (contact_pin c)));
       (4, Bytes (to_vec (contact_capability c)));
       (5, Bytes (to_vec (dest_hpke c)));
       (6, Uint (last_discovery_unix c));
       (7, Uint (N.b2n (revoked c)));
       (8, Text (home_origin c))].

Definition group_row (g : HostGroup) : Value :=
  Array [Bytes (to_vec (hg_group_id g)); Bytes (to_vec (hc_id (hg_cred g)));
         Bytes (to_vec (hc_secret (hg_cred g))); Text (host_base g)].

Definition client_home_value (h : ClientHome) : Value :=
  Map [(0, Uint 1);
       (1, Bytes (bundle_encode (ch_bundle h)));
       (2, Uint (ch_cursor h));
       (3, Array (map contact_row (sorted_entries key_leb (ch_contacts h))));
       (4, Array (map group_row (ch_groups h)));
       (5, Text (ch_home_base h));
       (6, Uint (privacy_to_u64 (ch_privacy h)))].

(** [HomeState::encode]. *)
Definition client_home_encode (h : ClientHome) : cresult bytes := Ok (encode (client_home_value h)).

Definition vault_text_or_empty (m : list (N * Value)) (k : N) : cresult rstring :=
  match map_get_opt m k with Some v => corrupt (expect_text v) | None => Ok (lit "") end.

(** One contact of the loop in [HomeState::decode]. *)
Definition load_contact (acc : gmap key StoredContact) (item : Value) : cresult (gmap key StoredContact) :=
  match item with
  | Map cm =>
      id ← vault_key cm 0;
      pk ← vault_key cm 1;
      rpk ← vault_key cm 2;
      sq ← vault_uint cm 3;
      cap ← vault_key cm 4;
      hpke ← vault_key cm 5;
      last ← vault_uint cm 6;
      rev ← vault_uint cm 7;
      origin ← vault_text_or_empty cm 8;
      Ok (<[id := mk_contact (mk_pin id pk rpk sq) cap hpke last (negb (rev =? 0)) origin]> acc)
  | _ => Err VaultCorrupt
  end.

(** One group of the loop; the key fields report the error of the codec. *)
Definition load_group_row (item : Value) : cresult HostGroup :=
  let keys v0 v1 v2 :=
    l0 ← cwire (expect_bytes v0); gid ← cwire (copy_fixed KEY_LEN l0);
    l1 ← cwire (expect_bytes v1); cid ← cwire (copy_fixed KEY_LEN l1);
    l2 ← cwire (expect_bytes v2); secret ← cwire (copy_fixed KEY_LEN l2);
    Ok (mk_hgroup gid (mk_hcred cid secret) (lit "")) in
  match item with
  | Array [v0; v1; v2] => keys v0 v1 v2
  | Array [v0; v1; v2; v3] =>
      g ← keys v0 v1 v2; base ← corrupt (expect_text v3); Ok (g <| host_base := base |>)
  | _ => Err VaultCorrupt
  end.

(** [HomeState::decode]. *)
Definition client_home_decode (l : bytes) : cresult ClientHome :=
  m ← vault_map l;
  version ← vault_uint m 0;
  ensure (version =? 1) VaultCorrupt;;
  bb ← vault_bytes m 1;
  b ← cwire (bundle_decode bb);
  cur ← vault_uint m 2;
  crows ← array_at m 3;
  cs ← try_fold load_contact ∅ crows;
  grows ← array_at m 4;
  gs ← try_map load_group_row grows;
  base ← vault_text_or_empty m 5;
  mode ← match map_get_opt m 6 with
         | Some v => n ← corrupt (expect_uint v); privacy_from_u64 n
         | None => Ok Normal
         end;
  Ok (mk_client_home b cur cs gs base mode).

(** ** Lemmas *)

Lemma accept_decode_encode a : accept_decode (accept_encode a) = Ok a.
Proof.
  unfold accept_decode, accept_encode, vault_map.
  destruct a as [pid [cid secret] [b|] [s|]]; unfold client_opt_pair; cbn [app ha_pending_id ha_cred ha_binding ha_salt hc_id hc_secret];
    (rewrite decode_encode_wf by solve_wf); unfold vault_key, vault_opt_key, vault_bytes; cbn -[to_vec copy_fixed];
    rewrite ?copy_fixed_to_vec; cbn -[to_vec copy_fixed]; rewrite ?copy_fixed_to_vec; reflexivity.
Qed.

(** Every contact is stored under the identity its pin names. *)
Definition contacts_keyed (cs : gmap key StoredContact) : Prop :=
  forall id c, cs !! id = Some c -> pin_identity_id (contact_pin c) = id.

(** The state is one of the Rust types: integers fit [u64], lengths [usize]. *)
Definition client_home_fits (h : ClientHome) : Prop :=
  wf_value (client_home_value h) = true
  /\ s2s_port (ch_bundle h) <= U64_MAX /\ lenN (as_bytes (bundle_host (ch_bundle h))) <= U64_MAX.

Lemma load_contact_row cs id c acc :
  contacts_keyed cs -> cs !! id = Some c -> load_contact acc (contact_row (id, c)) = Ok (<[id := c]> acc).
Proof.
  intros Hk Hc. specialize (Hk _ _ Hc). destruct c as [[pid ik rk sq] cap hpke last rev origin]. cbn in Hk. subst pid.
  unfold load_contact, contact_row, vault_key, vault_bytes, vault_uint. cbn -[to_vec copy_fixed].
  rewrite !copy_fixed_to_vec. cbn -[to_vec copy_fixed]. by destruct rev.
Qed.

Lemma load_group_row_row g : load_group_row (group_row g) = Ok g.
Proof.
  destruct g as [gid [cid secret] base]. cbn -[to_vec copy_fixed]. by rewrite !copy_fixed_to_vec.
Qed.

Lemma try_map_map {E A B} (f : B -> result E A) (g : A -> B) l :
  (forall x, f (g x) = Ok x) -> try_map f (map g l) = Ok l.
Proof. intros Hf. induction l as [|x l IH]; cbn; [done|]. rewrite Hf. cbn. by rewrite IH. Qed.

Lemma privacy_u64_roundtrip mode : privacy_from_u64 (privacy_to_u64 mode) = Ok mode.
Proof. by destruct mode. Qed.

Lemma client_home_decode_encode h :
  client_home_fits h -> contacts_keyed (ch_contacts h) -> client_home_decode (encode (client_home_value h)) = Ok h.
Proof.
  intros (Hwf & Hp & Hh) Hk. unfold client_home_decode, vault_map. rewrite decode_encode_wf by done.
  unfold client_home_value, vault_uint, vault_bytes, array_at, vault_text_or_empty.
  cbn -[bundle_decode bundle_encode try_fold try_map sorted_entries]. rewrite bundle_decode_encode by done.
  cbn -[try_fold try_map sorted_entries].
  rewrite (load_sorted key_leb load_contact contact_row) by (intros; by apply (load_contact_row (ch_contacts h))).
  cbn -[try_fold try_map]. rewrite (try_map_map load_group_row group_row) by apply load_group_row_row.
  cbn. rewrite privacy_u64_roundtrip. by destruct h.
Qed.

(** ** Properties *)

(** What the vault keeps of a home survives reopening: the encoded state decodes
    to the same bundle, cursor, contacts with their pins and flags, groups in
    their order, base and privacy mode; and a pending join to the same
    credentials and binding. *)
Theorem client_state_roundtrip h a :
  client_home_fits h -> contacts_keyed (ch_contacts h) ->
  (exists l, client_home_encode h = Ok l /\ client_home_decode l = Ok h)
  /\ accept_decode (accept_encode a) = Ok a.
Proof.
  intros Hf Hk. split; [|apply accept_decode_encode]. eexists. split; [reflexivity | by apply client_home_decode_encode].
Qed.

Section Witness.
Definition sample_stored_contact (id : key) : StoredContact :=
  mk_contact (mk_pin id (arr_repeat 32 x02) (arr_repeat 32 x03) 4) (arr_repeat 32 x04) (arr_repeat 32 x05) 1000 true (lit "").

Definition sample_client_home : ClientHome :=
  mk_client_home
    (mk_bundle (arr_repeat 32 x01) (arr_repeat 32 x02) (arr_repeat 32 x03) (lit "home.example") 8444 (arr_repeat 64 x04))
    17 (<[arr_repeat 32 x08 := sample_stored_contact (arr_repeat 32 x08)]> ∅)
    [mk_hgroup (arr_repeat 32 x09) (mk_hcred (arr_repeat 32 x0a) (arr_repeat 32 x0b)) (lit "https://home.example")]
    (lit "https://home.example") High.

Example client_state_roundtrip_witness :
  exists l, client_home_encode sample_client_home = Ok l /\ client_home_decode l = Ok sample_client_home.
Proof.
  apply (client_state_roundtrip sample_client_home
    (mk_haccept (arr_repeat 32 x01) (mk_hcred (arr_repeat 32 x01) (arr_repeat 32 x01)) None None)).
  - refine (conj _ (conj _ _)); vm_compute; [reflexivity | discriminate | discriminate].
  - intros id c. unfold sample_client_home. cbn [ch_contacts].
    intros [[<- <-]|[_ Hc]]%lookup_insert_Some; [reflexivity|]. rewrite lookup_empty in Hc. discriminate.
Defined.
End Witness.
