(* ===== verification/Origin.v ===== *)
(** * Origins of home servers

    The string functions of [nemo-core/src/tor.rs] and [home.rs] on HTTP origins:
    which host an origin names, whether it is the loopback, which origin a
    contact's home has, the wake-up URL, and the HTTP/1.1 text that goes through a
    SOCKS proxy. Release build: [cfg!(debug_assertions)] is false. *)

From S2P Require Export CoreErr.

(** ** Strings *)

Definition SLASH : byte := x2f.
Definition COLON : byte := x3a.

(** [str::trim_end_matches] of an ASCII character, on the bytes. *)
Fixpoint trim_end_bytes (c : byte) (l : bytes) : bytes :=
  match l with
  | [] => []
  | b :: l => match trim_end_bytes c l with
              | [] => if Byte.eqb b c then [] else [b]
              | r => b :: r
              end
  end.

(** [str::split_once] with a non-empty pattern. *)
Fixpoint split_once (p l : bytes) : option (bytes * bytes) :=
  match strip_bytes p l with
  | Some r => Some ([], r)
  | None => match l with
            | [] => None
            | b :: l => match split_once p l with Some (a, r) => Some (b :: a, r) | None => None end
            end
  end.

(** [split([..]).next()]: up to the first of the characters. *)
Fixpoint until (stop : byte -> bool) (l : bytes) : bytes :=
  match l with [] => [] | b :: l => if stop b then [] else b :: until stop l end.

Definition starts_with (p l : bytes) : bool := match strip_bytes p l with Some _ => true | None => false end.

Lemma utf8_snoc_ascii c n l :
  (length l <= n)%nat -> byte_le c x7f = true -> utf8_valid (l ++ [c]) = true -> utf8_valid l = true.
Proof.
  intros Hn Hc. assert (cont_byte c = false /\ (forall b, utf8_second3 b c = false) /\ (forall b, utf8_second4 b c = false))
    as (Hcont & H3 & H4).
  { unfold cont_byte, utf8_second3, utf8_second4, cont_byte, in_range. unfold byte_le in *. apply N.leb_le in Hc.
    change (Byte.to_N x7f) with 127 in Hc. change (Byte.to_N x80) with 128. change (Byte.to_N xa0) with 160.
    change (Byte.to_N x90) with 144. split_and!; [|intros b; repeat case_cond..];
      apply andb_false_iff; left; apply N.leb_gt; lia. }
  revert l Hn. induction n as [|n IH]; intros l Hn; [destruct l; [done | cbn in Hn; lia]|].
  destruct l as [|b0 r0]; [done|]. cbn [app utf8_valid].
  destruct (byte_le b0 x7f) eqn:E0; [apply IH; cbn in Hn; lia|].
  destruct r0 as [|b1 r1]; cbn [app].
  { rewrite Hcont. destruct (in_range xc2 b0 xdf); done. }
  destruct (in_range xc2 b0 xdf).
  { intros [-> Hv]%andb_true_iff. apply IH; [cbn in Hn; lia | done]. }
  destruct r1 as [|b2 r2]; cbn [app].
  { rewrite Hcont, andb_false_r. destruct (in_range xe0 b0 xef); done. }
  destruct (in_range xe0 b0 xef).
  { rewrite !andb_true_iff. intros [[-> ->] Hv]. split; [done|]. apply IH; [cbn in Hn; lia | done]. }
  destruct r2 as [|b3 r3]; cbn [app].
  { by rewrite Hcont, andb_false_r. }
  rewrite !andb_true_iff. intros [[[[-> ->] ->] ->] Hv]. split; [done|]. apply IH; [cbn in Hn; lia | done].
Qed.

Lemma trim_end_app c l : exists k, l = trim_end_bytes c l ++ replicate k c.
Proof.
  induction l as [|b l [k IH]]; cbn; [by exists 0%nat|].
  destruct (trim_end_bytes c l) as [|x r] eqn:E.
  - destruct (Byte.eqb b c) eqn:Eb.
    + apply Byte.byte_dec_bl in Eb as ->. exists (S k). cbn. by rewrite IH at 1.
    + exists k. by rewrite IH at 1.
  - exists k. by rewrite IH at 1.
Qed.

Lemma trim_end_utf8 c l : byte_le c x7f = true -> utf8_valid l = true -> utf8_valid (trim_end_bytes c l) = true.
Proof.
  intros Hc Hl. destruct (trim_end_app c l) as [k Hk]. rewrite Hk in Hl. clear Hk. revert Hl.
  generalize (trim_end_bytes c l). intros t. induction k as [|k IH]; [by rewrite app_nil_r|].
  rewrite replicate_S_end, app_assoc. intros Hl. by apply IH, (utf8_snoc_ascii c (length (t ++ replicate k c))).
Qed.

(** [s.trim_end_matches('/').to_string()]. *)
Definition trim_slashes (s : rstring) : rstring :=
  exist _ (trim_end_bytes SLASH (as_bytes s)) (trim_end_utf8 SLASH (as_bytes s) eq_refl (proj2_sig s)).

(** ** Hosts *)

Definition SCHEME_SEP : bytes := String.list_byte_of_string "://".

(** What follows the scheme, without trailing slashes. *)
Definition after_scheme (base : bytes) : bytes :=
  trim_end_bytes SLASH (match split_once SCHEME_SEP base with Some (_, r) => r | None => base end).

Definition origin_host (base : bytes) : bytes :=
  until (fun b => Byte.eqb b SLASH || Byte.eqb b COLON) (after_scheme base).

Definition is_loopback_origin (base : bytes) : bool :=
  let h := origin_host base in
  bool_decide (h = String.list_byte_of_string "localhost") || bool_decide (h = String.list_byte_of_string "127.0.0.1")
  || bool_decide (h = String.list_byte_of_string "::1") || bool_decide (h = String.list_byte_of_string "[::1]").

(** [android] is [cfg!(target_os = "android")]. *)
Definition is_android_emulator_host (android : bool) (base : bytes) : bool :=
  android && bool_decide (origin_host base = String.list_byte_of_string "10.0.2.2").

Definition allow_cleartext_http (android : bool) (base : bytes) : bool :=
  is_loopback_origin base || is_android_emulator_host android base.

Definition HTTP_SCHEME : rstring := lit "http://".
Definition HTTPS_SCHEME : rstring := lit "https://".

(** The guard of [HttpHome::new] on the trimmed base. *)
Definition http_home_base (android : bool) (base : rstring) : cresult rstring :=
  let base := trim_slashes base in
  if starts_with (as_bytes HTTP_SCHEME) (as_bytes base) && negb (allow_cleartext_http android (as_bytes base))
  then Err (Transport "cleartext HTTP is only allowed on loopback")
  else Ok base.

(** [peer_http_origin]. *)
Definition peer_http_origin (peer_host : rstring) (peer_server own_server : key) (own_base : rstring) : rstring :=
  if bool_decide (peer_server = own_server) then trim_slashes own_base
  else
    let host := trim_slashes peer_host in
    let loopback := is_loopback_origin (as_bytes (str_cat HTTP_SCHEME host))
                    || is_loopback_origin (as_bytes (str_cat HTTPS_SCHEME host)) in
    if starts_with (as_bytes HTTP_SCHEME) (as_bytes own_base) && loopback then str_cat HTTP_SCHEME host
    else str_cat HTTPS_SCHEME host.

(** [wakeup_url]. *)
Definition wakeup_url (base : rstring) : rstring :=
  match strip_prefix HTTPS_SCHEME base with
  | Some rest => str_cat (str_cat (lit "wss://") rest) (lit "/v1/wakeup")
  | None => match strip_prefix HTTP_SCHEME base with
            | Some rest => str_cat (str_cat (lit "ws://") rest) (lit "/v1/wakeup")
            | None => str_cat base (lit "/v1/wakeup")
            end
  end.

(** ** Ports *)

Definition is_digit (b : byte) : bool := in_range x30 b x39.

(** [str::parse::<u16>]: an optional plus sign and at least one digit. *)
Fixpoint digits_value (acc : N) (l : bytes) : option N :=
  match l with
  | [] => Some acc
  | b :: l => if is_digit b then
                let acc := acc * 10 + (Byte.to_N b - 48) in
                if acc <=? U16_MAX then digits_value acc l else None
              else None
  end.

Definition parse_u16 (l : bytes) : option N :=
  match l with
  | [] => None
  | b :: r => if Byte.eqb b x2b then match r with [] => None | _ => digits_value 0 r end else digits_value 0 l
  end.

(** [parse_origin]: host, port and whether the scheme is https. *)
Definition parse_origin (base : bytes) : cresult (bytes * N * bool) :=
  let https := starts_with (as_bytes HTTPS_SCHEME) base in
  let default_port := if https then 443 else 80 in
  let host_port := match split_once [SLASH] (after_scheme base) with Some (a, _) => a | None => after_scheme base end in
  match strip_bytes [x5b] host_port with
  | Some stripped =>
      '(host, rest) ← ok_or (split_once [x5d] stripped) (Transport "bad home origin");
      let port := match strip_bytes [COLON] rest with
                  | Some p => default default_port (parse_u16 p)
                  | None => default_port
                  end in
      Ok ([x5b] ++ host ++ [x5d], port, https)
  | None =>
      match split_once [COLON] host_port with
      | Some (h, p) => port ← ok_or (parse_u16 p) (Transport "bad home port"); Ok (h, port, https)
      | None => Ok (host_port, default_port, https)
      end
  end.

(** ** Lemmas *)

Lemma until_stops stop l : forallb (fun b => negb (stop b)) (until stop l) = true.
Proof. induction l as [|b l IH]; cbn; [done|]. destruct (stop b) eqn:E; cbn; [done|]. by rewrite E. Qed.

(** ** Properties *)

(** The IPv6 loopback is never recognised: the host of an origin ends at the
    first colon, so the tests for [::1] and [[::1]] can not succeed, and an origin
    such as [http://[::1]:8787] is refused as cleartext. *)
Theorem ipv6_loopback_unreachable base :
  is_loopback_origin base = true <->
  origin_host base = String.list_byte_of_string "localhost" \/ origin_host base = String.list_byte_of_string "127.0.0.1".
Proof.
  unfold is_loopback_origin. pose proof (until_stops (fun b => Byte.eqb b SLASH || Byte.eqb b COLON) (after_scheme base)) as Hs.
  fold (origin_host base) in Hs. rewrite !orb_true_iff, !bool_decide_eq_true. split; [|tauto].
  intros [[[?|?]|He]|He]; [tauto | tauto | rewrite He in Hs; vm_compute in Hs; discriminate..].
Qed.

Example ipv6_loopback_refused :
  is_loopback_origin (as_bytes (lit "http://[::1]:8787")) = false
  /\ http_home_base false (lit "http://[::1]:8787") = Err (Transport "cleartext HTTP is only allowed on loopback")
  /\ parse_origin (as_bytes (lit "http://[::1]:8787")) = Ok (as_bytes (lit "[::1]"), 8787, false).
Proof. vm_compute. auto. Qed.
