(* ===== verification/Session.v ===== *)
(** * The client's session with its home server

    [HomeSession] of [nemo-core/src/home.rs]: registering and moving a mailbox,
    contacts, sending, fetching and acknowledging, prekeys, groups. A method runs
    on the session and on the world around it: the network behind
    [HomeTransport], the clock and the random source. Locks of the session's own
    fields do not fail. *)

From S2P Require Export ClientState Origin.

(** ** Requests and responses *)

Record ClientRequest : Type := mk_creq {
  cq_method : rstring;
  cq_path : rstring;
  cq_headers : list (rstring * rstring);
  cq_body : bytes
}.

Record ClientResponse : Type := mk_cres {
  cs_status : N;
  cs_body : bytes;
  cs_headers : list (rstring * rstring)
}.

Definition FETCH_LIMIT : N := 64.
Definition CARD_TTL_SECS : N := 30 * 24 * 3600.
Definition NONCE_HEADER : rstring := lit "nemo-nonce".
Definition SIG_HEADER : rstring := lit "nemo-server-sig".

(** [str::eq_ignore_ascii_case]. *)
Definition eq_ignore_case (a b : rstring) : bool :=
  bool_decide (map ascii_lower (as_bytes a) = map ascii_lower (as_bytes b)).

(** [HttpResponse::header]. *)
Definition response_header (res : ClientResponse) (name : rstring) : option rstring :=
  snd <$> List.find (fun kv => eq_ignore_case kv.1 name) (cs_headers res).

Inductive EnqueueResult : Type := EnqLocal (sq : N) | EnqQueued.

Record MailboxRow : Type := mk_mrow { mrow_seq : N; mrow_inner : InnerEnvelope }.

Record TurnConfig : Type := mk_turn_config { tc_url : rstring; tc_username : rstring; tc_credential : rstring; tc_bind : rstring }.

(** ** The world *)

(** The trait [HomeTransport] of a handle type [T] over a world [W]. *)
Class HomeTransport (T W : Type) := {
  t_call : T -> ClientRequest -> W -> W * cresult ClientResponse;
  t_redirect : T -> rstring -> W -> W * option T;
  t_set_anonymous : T -> bool -> W -> W
}.

(** Randomness, the clocks of [now_unix] and [now_ms], sleeping, the iteration
    order of a [HashMap] of contacts, and [TurnConfig::ice_bind]. *)
Class Platform (W : Type) := {
  random_key : W -> W * key;
  random_u64 : W -> W * arr 8;
  random_stream : W -> W * (nat -> key);
  clock_unix : W -> W * N;
  clock_ms : W -> W * N;
  sleep_ms : N -> W -> W;
  hash_order : W -> gmap key StoredContact -> list (key * StoredContact);
  ice_bind : W -> rstring
}.

Class PlatformLaws (W : Type) `{Platform W} := {
  hash_order_entries w m : hash_order w m ≡ₚ map_to_list m
}.

(** ** Checking responses *)

Definition check_status (res : ClientResponse) : cresult unit :=
  match cs_status res with
  | 200 | 204 => Ok tt
  | 401 | 403 => Err CoreDenied
  | 409 => Err CoreAlreadyRegistered
  | other => Err (HomeHttp other)
  end.

Definition check_empty (res : ClientResponse) : cresult unit := check_status res.

Definition check_body (res : ClientResponse) : cresult bytes := check_status res;; Ok (cs_body res).

(** [expect_map] and [read_key] of [home.rs]. *)
Definition client_map (l : bytes) : cresult (list (N * Value)) :=
  v ← cwire (decode l);
  match v with Map m => Ok m | _ => Err (CoreWire (Cbor "expected map")) end.

Definition client_key (m : list (N * Value)) (k : N) : cresult key := cwire (get_fixed KEY_LEN m k).

Definition client_opt_key (m : list (N * Value)) (k : N) : cresult (option key) := cwire (get_fixed_opt KEY_LEN m k).

Section Verify.
Context `{Crypto}.

(** [verify_signed_response]. *)
Definition verify_signed_response (b : ServerBundle) (nonce : key) (res : ClientResponse) : cresult unit :=
  sig_hex ← ok_or (response_header res SIG_HEADER) UnsignedResponse;
  l ← map_err (fun _ => UnsignedResponse) (from_hex sig_hex);
  sg ← map_err (fun _ => UnsignedResponse) (copy_fixed SIG_LEN l);
  pk ← ok_or (vk_from_bytes (bundle_sign_public_key b)) UnsignedResponse;
  map_err (fun _ => UnsignedResponse) (verify_response pk nonce (cs_status res) (cs_body res) sg).
End Verify.

(** ** The session *)

Record HomeSession `{Crypto} `{SignalOps} `{OpenMls} (T : Type) : Type := mk_hsession {
  ses_transport : T;
  install : Installation;
  ses_bundle : ServerBundle;
  ses_cursor : N;
  contacts : gmap key StoredContact;
  ses_groups : list HostGroup;
  home_base : rstring;
  privacy : PrivacyMode;
  pending_outers : list OuterEnvelope;
  cover_next_ms : N;
  last_real_ms : N
}.

Section Session.
Context `{Crypto} `{SignalOps} `{OpenMls}.
Context {T W : Type} `{HomeTransport T W} `{Platform W}.

#[global] Arguments mk_hsession {_ _ _ _ T} _ _ _ _ _ _ _ _ _ _ _.
#[global] Arguments ses_transport {_ _ _ _ T} _.
#[global] Arguments install {_ _ _ _ T} _.
#[global] Arguments ses_bundle {_ _ _ _ T} _.
#[global] Arguments ses_cursor {_ _ _ _ T} _.
#[global] Arguments contacts {_ _ _ _ T} _.
#[global] Arguments ses_groups {_ _ _ _ T} _.
#[global] Arguments home_base {_ _ _ _ T} _.
#[global] Arguments privacy {_ _ _ _ T} _.
#[global] Arguments pending_outers {_ _ _ _ T} _.
#[global] Arguments cover_next_ms {_ _ _ _ T} _.
#[global] Arguments last_real_ms {_ _ _ _ T} _.

Notation session := (HomeSession T).

Definition eta_session (s : session) : session :=
  mk_hsession (ses_transport s) (install s) (ses_bundle s) (ses_cursor s) (contacts s) (ses_groups s) (home_base s)
    (privacy s) (pending_outers s) (cover_next_ms s) (last_real_ms s).
#[global] Instance ses_transport_field : Field (@ses_transport _ _ _ _ T).
Proof. derive_field eta_session (@ses_transport _ _ _ _ T). Defined.
#[global] Instance install_field : Field (@install _ _ _ _ T).
Proof. derive_field eta_session (@install _ _ _ _ T). Defined.
#[global] Instance ses_bundle_field : Field (@ses_bundle _ _ _ _ T).
Proof. derive_field eta_session (@ses_bundle _ _ _ _ T). Defined.
#[global] Instance ses_cursor_field : Field (@ses_cursor _ _ _ _ T).
Proof. derive_field eta_session (@ses_cursor _ _ _ _ T). Defined.
#[global] Instance contacts_field : Field (@contacts _ _ _ _ T).
Proof. derive_field eta_session (@contacts _ _ _ _ T). Defined.
#[global] Instance ses_groups_field : Field (@ses_groups _ _ _ _ T).
Proof. derive_field eta_session (@ses_groups _ _ _ _ T). Defined.
#[global] Instance home_base_field : Field (@home_base _ _ _ _ T).
Proof. derive_field eta_session (@home_base _ _ _ _ T). Defined.
#[global] Instance privacy_field : Field (@privacy _ _ _ _ T).
Proof. derive_field eta_session (@privacy _ _ _ _ T). Defined.
#[global] Instance pending_outers_field : Field (@pending_outers _ _ _ _ T).
Proof. derive_field eta_session (@pending_outers _ _ _ _ T). Defined.
#[global] Instance cover_next_ms_field : Field (@cover_next_ms _ _ _ _ T).
Proof. derive_field eta_session (@cover_next_ms _ _ _ _ T). Defined.
#[global] Instance last_real_ms_field : Field (@last_real_ms _ _ _ _ T).
Proof. derive_field eta_session (@last_real_ms _ _ _ _ T). Defined.

(** Methods run on the session and the world. *)
Notation cm := (stM (session * W) CoreError).
Notation wm := (stM W CoreError).

Definition in_world {A} (m : wm A) : cm A :=
  fun x => let '(w', r) := m x.2 in ((x.1, w'), r).

Definition draw {A} (f : W -> W * A) : wm A := fun w => let '(w', a) := f w in (w', Ok a).

Definition on_install {A} (m : stM Installation CoreError A) : cm A :=
  fun x => let '(i', r) := m (install x.1) in ((x.1 <| install := i' |>, x.2), r).

Definition ses : cm session := gets fst.

Definition set_ses (f : session -> session) : cm unit := modify (fun x => (f x.1, x.2)).

(** [match call.await { Ok(..) => .., Err(..) => .. }]: the error as a value. *)
Definition attempt_call {A} (m : cm A) : cm (cresult A) := fun x => let '(x', r) := m x in (x', Ok r).

(** ** Calls *)

(** [HomeTransport::call]. *)
Definition transport_call (t : T) (req : ClientRequest) : wm ClientResponse := t_call t req.

(** [signed_call]. *)
Definition signed_call (t : T) (b : ServerBundle) (req : ClientRequest) : wm ClientResponse :=
  nonce ← draw random_key;
  res ← transport_call t (mk_creq (cq_method req) (cq_path req)
          (cq_headers req ++ [(NONCE_HEADER, to_hex (to_vec nonce))]) (cq_body req));
  lift (verify_signed_response b nonce res);;
  mret res.

(** [fetch_bundle]. *)
Definition fetch_bundle (t : T) : wm ServerBundle :=
  nonce ← draw random_key;
  res ← transport_call t (mk_creq (lit "GET") (lit "/v1/bundle") [(NONCE_HEADER, to_hex (to_vec nonce))] []);
  l ← lift (check_body res);
  b ← lift (cwire (bundle_decode l));
  lift (cwire (bundle_verify b));;
  lift (verify_signed_response b nonce res);;
  mret b.

(** A signed call on the session's own transport. *)
Definition home_call (req : ClientRequest) : cm ClientResponse :=
  s ← ses;
  in_world (signed_call (ses_transport s) (ses_bundle s) req).

(** [owner_header]. *)
Definition owner_header (meth path : rstring) (l : bytes) : cm rstring :=
  s ← ses;
  t ← in_world (draw clock_unix);
  nonce ← in_world (draw random_key);
  auth ← lift (mailbox_owner_auth (install s) 0 1 t (scope_header (bundle_server_id (ses_bundle s)) meth path l) nonce);
  mret (to_hex (auth_encode auth)).

(** [mailbox_body_auth]. *)
Definition mailbox_body_auth (path : rstring) (cur lim : N) : cm MailboxOwnerAuth :=
  s ← ses;
  t ← in_world (draw clock_unix);
  nonce ← in_world (draw random_key);
  lift (mailbox_owner_auth (install s) cur lim t (scope_body (bundle_server_id (ses_bundle s)) (lit "POST") path) nonce).

(** A [POST] with the owner header over its body. *)
Definition owner_post (path : rstring) (l : bytes) : cm ClientResponse :=
  auth ← owner_header (lit "POST") path l;
  home_call (mk_creq (lit "POST") path [(lit "nemo-owner", auth)] l).

(** [call_on]. *)
Definition call_on (origin : rstring) (req : ClientRequest) : cm ClientResponse :=
  s ← ses;
  let origin := trim_slashes origin in
  if bool_decide (as_bytes origin = []) || bool_decide (origin = home_base s) then home_call req
  else
    alt ← in_world (draw (t_redirect (ses_transport s) origin));
    match alt with
    | Some alt => in_world (transport_call alt req)
    | None => throw (Transport "no transport for origin")
    end.

(** ** Small methods *)

Definition set_home_base (base : rstring) (s : session) : session := s <| home_base := trim_slashes base |>.

(** [set_privacy]. *)
Definition set_privacy (mode : PrivacyMode) : cm unit :=
  set_ses (fun s => s <| privacy := mode |>);;
  b ← in_world (draw random_u64);
  match cover_interval_ms mode b with
  | Some wait =>
      now ← in_world (draw clock_ms);
      set_ses (fun s => s <| cover_next_ms := saturating_add now wait |>)
  | None => mret tt
  end;;
  s ← ses;
  let anonymous := match mode with High | Maximum => true | _ => false end
                   && negb (is_loopback_origin (as_bytes (home_base s))) in
  in_world (modify (t_set_anonymous (ses_transport s) anonymous)).

Definition session_calls_allowed (s : session) : bool := calls_allowed (privacy s).

Definition force_cover_now : cm unit := set_ses (fun s => s <| cover_next_ms := 0 |> <| last_real_ms := 0 |>).

(** [resume] and [snapshot]. *)
Definition resume (t : T) (i : Installation) (h : ClientHome) : session :=
  mk_hsession t i (ch_bundle h) (ch_cursor h) (ch_contacts h) (ch_groups h) (ch_home_base h) (ch_privacy h) [] 0 0.

Definition snapshot (s : session) : ClientHome :=
  mk_client_home (ses_bundle s) (ses_cursor s) (contacts s) (ses_groups s) (home_base s) (privacy s).

Definition origin_for_binding (s : session) (b : HomeServerBinding) : rstring :=
  peer_http_origin (host b) (binding_server_id b) (bundle_server_id (ses_bundle s)) (home_base s).

(** ** Discovery and prekeys *)

(** [discovery_at]. *)
Definition discovery_at (origin : rstring) (id : key) : cm Discovery :=
  res ← call_on origin (mk_creq (lit "GET") (str_cat (lit "/v1/discovery/") (to_hex (to_vec id))) [] []);
  l ← lift (check_body res);
  rec ← lift (cwire (discovery_decode l));
  mret (mk_disc (disc_identity_public_key rec) (disc_revocation_public_key rec) (disc_binding rec) (disc_revocation rec)).

Definition session_discovery (id : key) : cm Discovery := s ← ses; discovery_at (home_base s) id.

(** [fetch_prekey_at]. *)
Definition fetch_prekey_at (origin : rstring) (token : key) : cm SignedPrekey :=
  res ← call_on origin (mk_creq (lit "GET") (lit "/v1/prekeys") [(lit "nemo-token", to_hex (to_vec token))] []);
  l ← lift (check_body res);
  lift (cwire (prekey_decode l)).

Definition session_fetch_prekey (token : key) : cm SignedPrekey := s ← ses; fetch_prekey_at (home_base s) token.

(** [publish_prekey]. *)
Definition client_publish_prekey : cm unit :=
  s1 ← in_world (draw random_key);
  s2 ← in_world (draw random_key);
  blob ← on_install (mint_prekey s1 s2);
  res ← owner_post (lit "/v1/prekeys") (prekey_encode blob);
  lift (check_empty res).

(** The rotation at the start of both restock methods. *)
Definition rotate_if_due : cm bool :=
  now ← in_world (draw clock_unix);
  now_ms ← in_world (draw clock_ms);
  s1 ← in_world (draw random_key);
  s2 ← in_world (draw random_key);
  on_install (maybe_rotate_signed_prekey now now_ms s1 s2).

(** [while cond { publish_prekey().await?; n += 1 }] for at most [fuel] rounds. *)
Fixpoint publish_while (fuel : nat) (cond : Installation -> bool) (n : N) : cm N :=
  s ← ses;
  if cond (install s) then
    match fuel with
    | O => throw (Transport "out of fuel")
    | S fuel => client_publish_prekey;; publish_while fuel cond (n + 1)
    end
  else mret n.

(** [restock_publish]: the floor is 25, so that many rounds are enough. *)
Definition restock_publish : cm N :=
  rotate_if_due;;
  publish_while (N.to_nat PREKEY_RESTOCK_BELOW) needs_restock 0.

(** [restock_publish_upto]. *)
Definition restock_publish_upto (target : N) : cm N :=
  rotate_if_due;;
  publish_while (N.to_nat target) (fun i => unused_one_time_prekeys i <? target) 0.

(** ** Contacts *)

(** [add_contact]. *)
Definition add_contact (card : ContactCard) (cap : key) (now_unix : N) : cm unit :=
  s ← ses;
  let origin := origin_for_binding s (card_binding card) in
  disc ← discovery_at origin (card_identity_id card);
  b ← lift (resolve_contact card disc now_unix);
  let live_origin := origin_for_binding s b in
  prekey ← fetch_prekey_at live_origin (share_token card);
  t ← in_world (draw clock_ms);
  rnd ← in_world (draw random_key);
  on_install (start_session card prekey now_unix t rnd);;
  let p := (pin_from_card card) <| pin_seq := b_seq b |> in
  set_ses (fun s => s <| contacts ::= <[card_identity_id card :=
    mk_contact p cap (server_hpke_public_key b) now_unix false live_origin]> |>).

(** [self.contacts.entry(real).or_insert(prev)] after [remove(&session_peer)]. *)
Definition move_contact (from to : key) (cs : gmap key StoredContact) : gmap key StoredContact :=
  match cs !! from with
  | Some prev =>
      let cs' := delete from cs in
      match cs' !! to with Some _ => cs' | None => <[to := prev]> cs' end
  | None => cs
  end.

(** [apply_contact_capability]. *)
Definition apply_contact_capability (session_peer cap : key) (intro : option CapabilityIntro) (now_unix : N) : cm key :=
  match intro with
  | None =>
      s ← ses;
      match contacts s !! session_peer with
      | Some c =>
          set_ses (fun s => s <| contacts ::= <[session_peer := c <| contact_capability := cap |>]> |>);;
          mret session_peer
      | None => throw UnknownContact
      end
  | Some intro =>
      s ← ses;
      lift (verify_capability_intro (install s) session_peer cap intro);;
      let real := intro_identity_id intro in
      (if negb (bool_decide (session_peer = real)) then
         lift (match peer_session_identity_key (install s) real with
               | Some existing => ensure (bool_decide (existing = session_key intro)) IdentityMismatch
               | None => Ok tt
               end);;
         set_ses (fun s => s <| install ::= rematerialize_peer session_peer real |>
                             <| contacts ::= move_contact session_peer real |>)
       else mret tt);;
      s ← ses;
      '(origin, rpk, sq) ← lift (match contacts s !! real with
        | Some c =>
            if negb (bool_decide (pin_identity_public_key (contact_pin c) = intro_identity_public_key intro))
            then Err IdentityMismatch
            else Ok (home_origin c, pin_revocation_public_key (contact_pin c), N.max (pin_seq (contact_pin c)) (intro_binding_seq intro))
        | None => Ok (lit "", intro_revocation_public_key intro, intro_binding_seq intro)
        end);
      set_ses (fun s => s <| contacts ::= <[real :=
        mk_contact (mk_pin real (intro_identity_public_key intro) rpk sq) cap (intro_dest_hpke intro) now_unix false origin]> |>);;
      mret real
  end.

(** [refresh_contact]. *)
Definition refresh_contact (peer : key) (now_unix : N) : cm unit :=
  s ← ses;
  let origin := match contacts s !! peer with Some c => home_origin c | None => lit "" end in
  disc ← discovery_at origin peer;
  lift (disc_verify disc now_unix);;
  s ← ses;
  match contacts s !! peer with
  | None => throw UnknownContact
  | Some c =>
      match d_revocation disc with
      | Some _ =>
          set_ses (fun s => s <| contacts ::= <[peer := c <| revoked := true |>]> |>);;
          throw Revoked
      | None =>
          let '(p', r) := pin_refresh disc now_unix (contact_pin c) in
          b ← lift r;
          set_ses (fun s => s <| contacts ::= <[peer :=
            mk_contact p' (contact_capability c) (server_hpke_public_key b) now_unix (revoked c)
              (origin_for_binding s b)]> |>)
      end
  end.

(** [check_discovery_not_revoked]. *)
Definition check_discovery_not_revoked (id : key) (now_unix : N) : cm unit :=
  s ← ses;
  let origin := c ← contacts s !! id;
                if bool_decide (as_bytes (home_origin c) = []) then None else Some (home_origin c) in
  r ← attempt_call (discovery_at (default (lit "") origin) id);
  match r with
  | Ok disc => lift (disc_verify disc now_unix);; lift (check_not_revoked disc)
  | Err CoreDenied => match origin with None => mret tt | Some _ => throw CoreDenied end
  | Err e => throw e
  end.

(** Whether the pin of a contact is due for a refresh. *)
Definition stale (now_unix : N) (c : StoredContact) : bool :=
  DISCOVERY_REFRESH_SECS <=? saturating_sub now_unix (last_discovery_unix c).

(** [refresh_idle_discovery]; its loop collects the newly revoked. *)
Fixpoint refresh_idle_loop (own : key) (peers : list key) (now_unix : N) (newly : list key) : cm (list key) :=
  match peers with
  | [] => mret newly
  | id :: peers =>
      if bool_decide (id = own) then refresh_idle_loop own peers now_unix newly
      else
        s ← ses;
        match contacts s !! id with
        | None => refresh_idle_loop own peers now_unix newly
        | Some c =>
            if revoked c || negb (stale now_unix c) then refresh_idle_loop own peers now_unix newly
            else
              r ← attempt_call (refresh_contact id now_unix);
              refresh_idle_loop own peers now_unix (match r with Err Revoked => newly ++ [id] | _ => newly end)
        end
  end.

Definition refresh_idle_discovery (now_unix : N) : cm (list key) :=
  s ← ses;
  w ← in_world get;
  refresh_idle_loop (own_id (install s)) (hash_order w (contacts s)).*1 now_unix [].

Definition revoked_contact_ids (w : W) (s : session) : list key :=
  (List.filter (fun e => revoked e.2) (hash_order w (contacts s))).*1.

Definition identity_is_revoked (id : key) (now_unix : N) : cm bool :=
  r ← attempt_call (check_discovery_not_revoked id now_unix);
  mret (match r with Err Revoked => true | _ => false end).

(** [refresh_mls_identities]. *)
Fixpoint refresh_mls_identities (ids : list key) (now_unix : N) : cm unit :=
  match ids with
  | [] => mret tt
  | id :: ids =>
      s ← ses;
      (if bool_decide (id = own_id (install s)) then mret tt
       else
         match contacts s !! id with
         | Some c =>
             if revoked c then throw Revoked
             else if stale now_unix c then refresh_contact id now_unix else mret tt
         | None => check_discovery_not_revoked id now_unix
         end);;
      refresh_mls_identities ids now_unix
  end.
End Session.
