(* ===== verification/SessionOps.v ===== *)
(** * Mailbox and group operations of a session

    The rest of [HomeSession] in [nemo-core/src/home.rs]: registering, moving to
    another home, sending with and without batching, cover traffic, fetching and
    acknowledging, and the calls to group hosts. *)

From S2P Require Export Session.

Section SessionOps.
Context `{Crypto} `{SignalOps} `{OpenMls}.
Context {T W : Type} `{HomeTransport T W} `{Platform W}.

Notation session := (HomeSession T).
Notation cm := (stM (session * W) CoreError).
Notation wm := (stM W CoreError).

(** ** Tokens and revocation *)

(** [mint_token], [mint_contact] and [mint_share]. *)
Definition client_mint_token (path : rstring) : cm key :=
  res ← owner_post path [];
  l ← lift (check_body res);
  m ← lift (client_map l);
  lift (client_key m 0).

Definition client_mint_contact : cm key := client_mint_token (lit "/v1/tokens/contact").
Definition client_mint_share : cm key := client_mint_token (lit "/v1/tokens/share").

(** [mint_share_card]. *)
Definition mint_share_card (now_unix : N) : cm ContactCard :=
  token ← client_mint_share;
  s ← ses;
  lift (card_with_share (install s) (bundle_hpke_public_key (ses_bundle s)) (bundle_host (ses_bundle s))
          (saturating_add now_unix CARD_TTL_SECS) token).

(** [submit_revocation]. *)
Definition client_submit_revocation (stmt : RevocationStatement) : cm unit :=
  res ← home_call (mk_creq (lit "POST") (lit "/v1/revocation") [] (revocation_encode stmt));
  lift (check_empty res).

(** [issue_turn]. *)
Definition client_issue_turn : cm TurnConfig :=
  res ← owner_post (lit "/v1/turn") [];
  l ← lift (check_body res);
  m ← lift (client_map l);
  url ← lift (cwire (get_text m 0));
  username ← lift (cwire (get_text m 1));
  credential ← lift (cwire (get_text m 2));
  w ← in_world get;
  mret (mk_turn_config url username credential (ice_bind w)).

(** ** Registration *)

(** [register]. *)
Definition client_register (t : T) (i : Installation) (now_unix : N) : wm (session * ContactCard) :=
  b ← fetch_bundle t;
  token ← draw random_key;
  let '(i, minted) := mint_card (bundle_hpke_public_key b) (bundle_host b) (saturating_add now_unix CARD_TTL_SECS) token i in
  card ← lift minted;
  l ← lift (cwire (card_encode card));
  res ← signed_call t b (mk_creq (lit "POST") (lit "/v1/register") [] l);
  lift (check_empty res);;
  mret (mk_hsession t i b 0 ∅ [] (lit "") Normal [] 0 0, card).

(** [post_fanout] and [post_binding]: unsigned calls on the given transport. *)
Definition post_fanout (t : T) (gid : key) (cred : HostCred) (cap home_hpke : key) : wm unit :=
  let l := encode (Map [(0, Bytes (to_vec (hc_id cred))); (1, Bytes (to_vec (hc_secret cred)));
                        (2, Bytes (to_vec cap)); (3, Bytes (to_vec home_hpke))]) in
  res ← transport_call t (mk_creq (lit "POST")
          (str_cat (str_cat (lit "/v1/groups/") (to_hex (to_vec gid))) (lit "/fanout")) [] l);
  lift (check_empty res).

Definition post_binding (t : T) (card : ContactCard) : wm unit :=
  l ← lift (cwire (card_encode card));
  res ← transport_call t (mk_creq (lit "POST") (lit "/v1/binding") [] l);
  lift (check_empty res).

(** One group of the loop in [rehome]; both outcomes are ignored. *)
Definition rehome_group (old : T) (hpke : key) (g : HostGroup) : cm unit :=
  r ← attempt_call client_mint_contact;
  match r with
  | Ok cap => attempt_call (in_world (post_fanout old (hg_group_id g) (hg_cred g) cap hpke));; mret tt
  | Err _ => mret tt
  end.

(** [rehome]. *)
Definition rehome (new_transport : T) (new_base : rstring) (now_unix : N) : cm ContactCard :=
  b ← in_world (fetch_bundle new_transport);
  s ← ses;
  if bool_decide (bundle_server_id b = bundle_server_id (ses_bundle s)) then throw CoreAlreadyRegistered
  else
    token ← in_world (draw random_key);
    card ← on_install (mint_card (bundle_hpke_public_key b) (bundle_host b) (saturating_add now_unix CARD_TTL_SECS) token);
    l ← lift (cwire (card_encode card));
    res ← in_world (transport_call new_transport (mk_creq (lit "POST") (lit "/v1/register") [] l));
    lift (check_empty res);;
    let old_base := home_base s in
    let old := ses_transport s in
    set_ses (fun s => s <| ses_groups ::= map (fun g => if bool_decide (as_bytes (host_base g) = [])
                                                        then g <| host_base := old_base |> else g) |>);;
    set_ses (fun s => s <| ses_transport := new_transport |> <| ses_bundle := b |> <| ses_cursor := 0 |>);;
    set_ses (set_home_base new_base);;
    restock_publish;;
    s ← ses;
    let hpke := bundle_hpke_public_key (ses_bundle s) in
    for_each (ses_groups s) (rehome_group old hpke);;
    attempt_call (in_world (post_binding old card));;
    mret card.

(** ** Sending *)

(** [post_one_envelope]. *)
Definition post_one_envelope (outer : OuterEnvelope) (cover : bool) : cm EnqueueResult :=
  res ← owner_post (lit "/v1/envelopes") (encode_outer outer);
  (if cover then mret tt
   else now ← in_world (draw clock_ms); set_ses (fun s => s <| last_real_ms := now |>));;
  l ← lift (check_body res);
  m ← lift (client_map l);
  v ← lift (cwire (get_text m 0));
  if str_is v (lit "ok") then sq ← lift (cwire (get_uint m 1)); mret (EnqLocal sq)
  else if str_is v (lit "queued") then mret EnqQueued
  else throw (HomeHttp (cs_status res)).

(** The loop of [flush_private_outbox]. *)
Fixpoint post_batch (batch : list OuterEnvelope) (last : EnqueueResult) : cm EnqueueResult :=
  match batch with
  | [] => mret last
  | outer :: batch => r ← post_one_envelope outer false; post_batch batch r
  end.

(** [flush_private_outbox]: the batch is taken out of the session before the
    first envelope is posted. *)
Definition flush_private_outbox : cm EnqueueResult :=
  s ← ses;
  set_ses (fun s => s <| pending_outers := [] |>);;
  post_batch (pending_outers s) EnqQueued.

(** [post_envelope_maybe_batch]. *)
Definition post_envelope_maybe_batch (outer : OuterEnvelope) (batch : bool) : cm EnqueueResult :=
  s ← ses;
  if batch && delayed (privacy s) then
    set_ses (fun s => s <| pending_outers ::= fun os => os ++ [outer] |>);;
    e ← in_world (draw random_u64);
    j ← in_world (draw random_u64);
    in_world (modify (sleep_ms (private_send_delay_ms (mk_jitter e j))));;
    flush_private_outbox
  else post_one_envelope outer false.

Definition client_post_envelope (outer : OuterEnvelope) : cm EnqueueResult := post_envelope_maybe_batch outer true.
Definition post_envelope_now (outer : OuterEnvelope) : cm EnqueueResult := post_envelope_maybe_batch outer false.

(** The contact to send to: unknown and revoked ones are refused, a stale one is
    refreshed first. *)
Definition sendable_contact (peer : key) (now_unix : N) : cm StoredContact :=
  s ← ses;
  (match contacts s !! peer with
   | None => throw UnknownContact
   | Some c => if revoked c then throw Revoked
               else if stale now_unix c then refresh_contact peer now_unix else mret tt
   end);;
  s ← ses;
  match contacts s !! peer with
  | None => throw UnknownContact
  | Some c => if revoked c then throw Revoked else mret c
  end.

(** The common body of [send_to], [send_to_now] and [send_attachment]. *)
Definition send_with (mt : MessageType) (batch : bool) (peer : key) (ttl : TtlBucket) (plaintext : bytes) (now_unix : N)
    : cm EnqueueResult :=
  c ← sendable_contact peer now_unix;
  t ← in_world (draw clock_ms);
  rnd ← in_world (draw random_key);
  token ← in_world (draw random_key);
  seal_rnd ← in_world (draw random_key);
  outer ← on_install (encrypt_wrapped mt peer (dest_hpke c) (contact_capability c) ttl plaintext t rnd token seal_rnd);
  post_envelope_maybe_batch outer batch.

Definition send_to := send_with DoubleRatchet true.
Definition send_to_now := send_with DoubleRatchet false.
Definition send_attachment := send_with AttachmentDr true.

(** [pump_cover]. *)
Definition pump_cover : cm N :=
  s ← ses;
  b ← in_world (draw random_u64);
  match cover_interval_ms (privacy s) b with
  | None => mret 0
  | Some wait =>
      now ← in_world (draw clock_ms);
      s ← ses;
      if now <? cover_next_ms s then mret 0
      else
        set_ses (fun s => s <| cover_next_ms := saturating_add now wait |>);;
        if bool_decide (privacy s = Maximum) && (saturating_sub now (last_real_ms s) <? MAXIMUM_SLOT_MS) then mret 0
        else
          w ← in_world get;
          match List.find (fun e => negb (revoked e.2)) (hash_order w (contacts s)) with
          | None => mret 0
          | Some (_, c) =>
              token ← in_world (draw random_key);
              rnd ← in_world (draw random_key);
              dummy ← lift (dummy_outer (dest_hpke c) (contact_capability c) token rnd);
              post_one_envelope dummy true;;
              mret 1
          end
  end.

(** ** Receiving *)

(** One row of the response of a fetch. *)
Definition parse_row (item : Value) : cresult MailboxRow :=
  match item with
  | Map m =>
      sq ← cwire (get_uint m 0);
      l ← cwire (get_bytes m 1);
      inner ← cwire (decode_padded l);
      Ok (mk_mrow sq inner)
  | _ => Err (CoreWire (Cbor "fetch row"))
  end.

(** [fetch_mailbox]. *)
Definition fetch_mailbox : cm (list MailboxRow) :=
  s ← ses;
  auth ← mailbox_body_auth (lit "/v1/mailbox/fetch") (ses_cursor s) FETCH_LIMIT;
  res ← home_call (mk_creq (lit "POST") (lit "/v1/mailbox/fetch") [] (auth_encode auth));
  l ← lift (check_body res);
  items ← lift (v ← cwire (decode l);
                match v with Array items => Ok items | _ => Err (CoreWire (Cbor "fetch must be an array")) end);
  rows ← lift (try_map parse_row items);
  set_ses (fun s => match last rows with Some r => s <| ses_cursor := mrow_seq r |> | None => s end);;
  mret rows.

(** [ack]. *)
Definition client_ack : cm unit :=
  s ← ses;
  auth ← mailbox_body_auth (lit "/v1/mailbox/ack") (ses_cursor s) 1;
  res ← home_call (mk_creq (lit "POST") (lit "/v1/mailbox/ack") [] (auth_encode auth));
  lift (check_empty res).

(** The loop of [ingest_mailbox]: rows that do not decrypt are passed over. *)
Fixpoint open_rows (rows : list MailboxRow) (peers : list key) (opened : list (key * bytes)) : cm (list (key * bytes)) :=
  match rows with
  | [] => mret opened
  | row :: rows =>
      rnd ← in_world (draw random_stream);
      r ← attempt_call (on_install (decrypt_incoming (mrow_inner row) peers rnd));
      open_rows rows peers (match r with Ok item => opened ++ [item] | Err _ => opened end)
  end.

(** [ingest_mailbox]. *)
Definition ingest_mailbox : cm (list (key * bytes)) :=
  rows ← fetch_mailbox;
  match rows with
  | [] => mret []
  | _ =>
      s ← ses;
      w ← in_world get;
      opened ← open_rows rows (hash_order w (contacts s)).*1 [];
      client_ack;;
      mret opened
  end.

(** ** Groups *)

Definition remember_group (g : HostGroup) : cm unit := set_ses (fun s => s <| ses_groups ::= fun gs => gs ++ [g] |>).

Definition group_origin (s : session) (gid : key) : rstring :=
  match List.find (fun g => bool_decide (hg_group_id g = gid)) (ses_groups s) with Some g => host_base g | None => lit "" end.

(** [call_group]: the answer of another host is not checked for a signature. *)
Definition call_group (gid : key) (req : ClientRequest) : cm ClientResponse :=
  s ← ses;
  alt ← in_world (draw (t_redirect (ses_transport s) (group_origin s gid)));
  match alt with
  | Some alt => in_world (transport_call alt req)
  | None => home_call req
  end.

Definition client_group_path (gid : key) (what : rstring) : rstring :=
  str_cat (str_cat (lit "/v1/groups/") (to_hex (to_vec gid))) what.

Definition cred_pairs (cred : HostCred) : list (N * Value) :=
  [(0, Bytes (to_vec (hc_id cred))); (1, Bytes (to_vec (hc_secret cred)))].

(** [create_group]. *)
Definition client_create_group (signing_pk cap : key) : cm HostGroup :=
  s ← ses;
  let l := encode (Map [(0, Bytes (to_vec signing_pk)); (1, Bytes (to_vec cap));
                        (2, Bytes (to_vec (bundle_hpke_public_key (ses_bundle s))))]) in
  res ← owner_post (lit "/v1/groups") l;
  b ← lift (check_body res);
  m ← lift (client_map b);
  gid ← lift (client_key m 0);
  cid ← lift (client_key m 1);
  secret ← lift (client_key m 2);
  mret (mk_hgroup gid (mk_hcred cid secret) (home_base s)).

(** [client_group_append]. *)
Definition client_group_append (gid : key) (cred : HostCred) (t : MessageType) (l : bytes) : cm N :=
  let payload := encode (Map (cred_pairs cred ++ [(2, Uint (Byte.to_N (type_byte t))); (3, Bytes l)])) in
  res ← call_group gid (mk_creq (lit "POST") (client_group_path gid (lit "/append")) [] payload);
  b ← lift (check_body res);
  m ← lift (client_map b);
  lift (cwire (get_uint m 0)).

(** [store_invite]. *)
Definition client_store_invite (gid : key) (cred : HostCred) (invite : GroupInvite) : cm unit :=
  let l := encode (Map (cred_pairs cred ++ [(2, Bytes (invite_encode invite))])) in
  res ← call_group gid (mk_creq (lit "POST") (client_group_path gid (lit "/invites")) [] l);
  lift (check_empty res).

(** [accept_invite]. *)
Definition client_accept_invite (gid nonce : key) : cm HostAccept :=
  let l := encode (Map [(0, Bytes (to_vec nonce))]) in
  res ← home_call (mk_creq (lit "POST") (client_group_path gid (lit "/accept")) [] l);
  b ← lift (check_body res);
  m ← lift (client_map b);
  bind ← lift (client_opt_key m 3);
  salt ← lift (client_opt_key m 4);
  pid ← lift (client_key m 0);
  cid ← lift (client_key m 1);
  secret ← lift (client_key m 2);
  mret (mk_haccept pid (mk_hcred cid secret) bind salt).

(** [lookup_pending]. *)
Definition client_lookup_pending (gid : key) (cred : HostCred) (pending_id : key) : cm ClientPendingLookup :=
  let l := encode (Map (cred_pairs cred ++ [(2, Bytes (to_vec pending_id))])) in
  res ← call_group gid (mk_creq (lit "POST") (client_group_path gid (lit "/pending-lookup")) [] l);
  b ← lift (check_body res);
  m ← lift (client_map b);
  cid ← lift (client_key m 0);
  bind ← lift (client_opt_key m 1);
  salt ← lift (client_opt_key m 2);
  mret (mk_plookup cid bind salt).

(** [HomeSession::admit]. *)
Definition client_admit (gid : key) (admitter : HostCred) (a : GroupAdmit) (joiner_pk joiner_cap joiner_hpke : key) : cm key :=
  let l := encode (Map (cred_pairs admitter ++
             [(2, Bytes (admit_encode a)); (3, Bytes (to_vec joiner_pk)); (4, Bytes (to_vec joiner_cap));
              (5, Bytes (to_vec joiner_hpke))])) in
  res ← call_group gid (mk_creq (lit "POST") (client_group_path gid (lit "/admit")) [] l);
  b ← lift (check_body res);
  m ← lift (client_map b);
  lift (client_key m 0).

(** [refresh_fanout]. *)
Definition client_refresh_fanout (gid : key) (cred : HostCred) (cap home_hpke : key) : cm unit :=
  s ← ses;
  alt ← in_world (draw (t_redirect (ses_transport s) (group_origin s gid)));
  in_world (post_fanout (default (ses_transport s) alt) gid cred cap home_hpke).

Definition file_path (gid token : key) : rstring :=
  str_cat (client_group_path gid (lit "/files/")) (to_hex (to_vec token)).

Definition cred_headers (cred : HostCred) : list (rstring * rstring) :=
  [(lit "nemo-cred-id", to_hex (to_vec (hc_id cred))); (lit "nemo-cred-secret", to_hex (to_vec (hc_secret cred)))].

(** [upload_file] and [fetch_file]. *)
Definition client_upload_file (gid : key) (cred : HostCred) (token : key) (l : bytes) : cm unit :=
  res ← call_group gid (mk_creq (lit "POST") (file_path gid token) (cred_headers cred) l);
  lift (check_empty res).

Definition client_fetch_file (gid : key) (cred : HostCred) (token : key) : cm bytes :=
  res ← call_group gid (mk_creq (lit "GET") (file_path gid token) (cred_headers cred) []);
  lift (check_body res).
End SessionOps.
