(* ===== verification/SessionServer.v ===== *)
(** * A session against the server's own handlers

    The in-process transport of [nemo-core/tests/home.rs] ([RouterTransport] with
    one application): a client's call is served by the router of [nemo-server], so
    the client's methods and the handlers are run against each other. *)

From S2P Require Export SessionOps HttpProps.
From S2P Require Import HomeProps.

(** ** The world *)

Record World `{Crypto} : Type := mk_world {
  wd_app : AppState;
  wd_link : Link;
  wd_draws : Draws;
  wd_keys : nat -> key;
  wd_tick : nat;
  wd_clock : N
}.
Arguments mk_world {_} _ _ _ _ _ _.

(** The segments of a path that starts with a slash. *)
Fixpoint split_slash (cur l : bytes) : list bytes :=
  match l with
  | [] => [rev cur]
  | b :: l => if Byte.eqb b SLASH then rev cur :: split_slash [] l else split_slash (b :: cur) l
  end.

Definition path_segments (p : rstring) : list rstring :=
  omap from_utf8 (tail (split_slash [] (as_bytes p))).

Definition method_of (m : rstring) : option Method :=
  if str_is m (lit "GET") then Some GET else if str_is m (lit "POST") then Some POST else None.

Definition server_request (req : ClientRequest) : option HttpRequest :=
  m ← method_of (cq_method req);
  Some (mk_request m (path_segments (cq_path req)) (map (fun kv => (kv.1, as_bytes kv.2)) (cq_headers req))
          (cq_body req) (Err BAD_REQUEST)).

Definition client_response (res : HttpResponse) : ClientResponse :=
  mk_cres (res_status res) (res_body res)
    (match res_type res with Some t => [(lit "content-type", t)] | None => [] end
     ++ match res_sig res with Some sg => [(RESPONSE_SIG_HEADER, sg)] | None => [] end).

Section World.
Context `{Crypto} `{TurnLib} `{Axum}.

Definition with_app (a : AppState) (w : World) : World :=
  mk_world a (wd_link w) (wd_draws w) (wd_keys w) (wd_tick w) (wd_clock w).

Definition world_call (req : ClientRequest) (w : World) : World * cresult ClientResponse :=
  match server_request req with
  | None => (w, Err (HomeHttp 0))
  | Some q => let '(a, res) := serve (wd_link w) (wd_draws w) q (wd_app w) in (with_app a w, Ok (client_response res))
  end.

Definition next_tick (w : World) : World :=
  mk_world (wd_app w) (wd_link w) (wd_draws w) (wd_keys w) (S (wd_tick w)) (wd_clock w).

#[export] Instance world_transport : HomeTransport unit World := {|
  t_call _ := world_call;
  t_redirect _ _ w := (w, None);
  t_set_anonymous _ _ w := w
|}.

#[export] Instance world_platform : Platform World := {|
  random_key w := (next_tick w, wd_keys w (wd_tick w));
  random_u64 w := (next_tick w, arr_repeat 8 x00);
  random_stream w := (next_tick w, fun i => wd_keys w (wd_tick w + i)%nat);
  clock_unix w := (w, wd_clock w);
  clock_ms w := (w, wd_clock w * 1000);
  sleep_ms _ w := w;
  hash_order _ m := map_to_list m;
  ice_bind _ := lit "0.0.0.0:0"
|}.

#[export] Instance world_platform_laws : PlatformLaws World.
Proof. by split. Qed.
End World.

Section Served.
Context `{CryptoLaws} `{SignalOps} `{OpenMls} `{TurnLib} `{AxumLaws}.
Notation session := (HomeSession unit).

(** ** Signed calls *)

Lemma hexdigit_visible b :
  is_ascii_hexdigit b = true -> ((32 <=? Byte.to_N b) && (Byte.to_N b <? 127)) || (Byte.to_N b =? 9) = true.
Proof. destruct b; first [reflexivity | discriminate]. Qed.

Lemma to_str_hex l : to_str (as_bytes (to_hex l)) = Some (to_hex l).
Proof.
  rewrite to_str_visible. unfold visible_str. cbn [to_hex as_bytes proj1_sig].
  assert (forallb (fun b => ((32 <=? Byte.to_N b) && (Byte.to_N b <? 127)) || (Byte.to_N b =? 9)) (hex_encode l) = true) as ->.
  { apply forallb_forall. intros b Hb. apply hexdigit_visible.
    by apply (proj1 (forallb_forall _ _) (hex_encode_digits l)). }
  apply (from_utf8_as_bytes (to_hex l)).
Qed.

Lemma header_token_hex hs name (k : key) :
  Forall (fun kv => kv.1 <> name) hs ->
  header_token (map (fun kv => (kv.1, as_bytes kv.2)) (hs ++ [(name, to_hex (to_vec k))])) name = Some k.
Proof.
  intros Hf. unfold header_token, header_str.
  assert (List.find (fun kv => bool_decide (kv.1 = name))
    (map (fun kv : rstring * rstring => (kv.1, as_bytes kv.2)) (hs ++ [(name, to_hex (to_vec k))]))
    = Some (name, as_bytes (to_hex (to_vec k)))) as ->.
  { induction Hf as [|[n v] hs Hn Hf IH]; cbn [map app List.find fst]; [by rewrite bool_decide_eq_true_2|].
    by rewrite bool_decide_eq_false_2. }
  cbn [snd]. rewrite to_str_hex. cbn. unfold parse_key_hex. rewrite from_to_hex. cbn.
  by rewrite copy_fixed_to_vec.
Qed.

Lemma signed_response_accepted b nonce st l ty sk sg :
  bundle_sign_public_key b = vk_to_bytes (verifying_key sk) -> sign_response sk nonce st l = Ok sg ->
  verify_signed_response b nonce (client_response (mk_response st ty (Some (to_hex (to_vec sg))) l)) = Ok tt.
Proof.
  intros Hb Hs. unfold verify_signed_response.
  assert (response_header (client_response (mk_response st ty (Some (to_hex (to_vec sg))) l)) SIG_HEADER
    = Some (to_hex (to_vec sg))) as -> by by destruct ty.
  cbn [ok_or mbind result_bind]. rewrite from_to_hex. cbn [map_err mbind result_bind].
  rewrite copy_fixed_to_vec. cbn [map_err mbind result_bind]. rewrite Hb, vk_bytes_roundtrip. cbn [ok_or mbind result_bind].
  cbn [client_response cs_status cs_body res_status res_body].
  unfold verify_response. by rewrite (Sign.sign_verify _ _ _ _ Hs).
Qed.

(** What a signed call makes of the answer of the layers below the signature. *)
Lemma signed_call_served b req q (w : World) a1 res :
  server_request (mk_creq (cq_method req) (cq_path req)
    (cq_headers req ++ [(NONCE_HEADER, to_hex (to_vec (wd_keys w (wd_tick w))))]) (cq_body req)) = Some q ->
  Forall (fun kv => kv.1 <> NONCE_HEADER) (cq_headers req) ->
  run_prog (wd_link w) (persist_after q (respond (dispatch routes (wd_draws w) q))) (wd_app w) = (a1, res) ->
  lenN (res_body res) <= BODY_LIMIT ->
  bundle_sign_public_key b = vk_to_bytes (verifying_key (sign_key (app_home a1))) ->
  exists hs, signed_call tt b req w = (with_app a1 (next_tick w), Ok (mk_cres (res_status res) (res_body res) hs)).
Proof.
  intros Hq Hf Hrun Hlim Hb. unfold signed_call, draw, transport_call, mbind, stM_bind. cbn -[serve server_request to_hex].
  unfold world_call. rewrite Hq. rewrite serve_layers. cbn [wd_link wd_draws wd_app next_tick]. rewrite Hrun.
  assert (header_token (req_headers q) RESPONSE_NONCE_HEADER = Some (wd_keys w (wd_tick w))) as ->.
  { unfold server_request in Hq. destruct (method_of _); [|done]. cbn [mbind option_bind] in Hq. injection Hq as <-.
    by apply header_token_hex. }
  assert (BODY_LIMIT <? lenN (res_body res) = false) as -> by by apply N.ltb_ge.
  destruct (sign_response_total (sign_key (app_home a1)) (wd_keys w (wd_tick w)) (res_status res) (res_body res))
    as (sg & _ & Hsg & _).
  rewrite Hsg. unfold lift, throw, mret. rewrite (signed_response_accepted _ _ _ _ _ _ _ Hb Hsg). by eexists.
Qed.

(** ** Owner requests *)

(** What a mailbox request needs of the client and of the server it talks to. *)
Record owner_ready (s : session) (w : World) (box : Mailbox) : Prop := {
  rd_box : mailboxes (app_home (wd_app w)) !! own_id (install s) = Some box;
  rd_enabled : disabled box = false;
  rd_key : owner_pk box = identity_public_key (install s);
  rd_server : bundle_server_id (ses_bundle s) = home_server_id (app_home (wd_app w));
  rd_sign : bundle_sign_public_key (ses_bundle s) = vk_to_bytes (verifying_key (sign_key (app_home (wd_app w))));
  rd_late : t_owner (wd_draws w) <= wd_clock w + MAX_AGE_SECS;
  rd_early : wd_clock w <= u64_add (t_owner (wd_draws w)) MAX_AGE_SECS;
  rd_clock : wd_clock w <= U64_MAX;
  rd_cursor : ses_cursor s <= U64_MAX;
  rd_nonce : owner_nonces (app_home (wd_app w)) !! wd_keys w (wd_tick w) = None
}.


Lemma auth_sign_total sk hint cur lim t sc nonce :
  exists a, auth_sign sk hint cur lim t sc nonce = Ok a /\ mailbox_hint a = hint /\ cursor a = cur /\ limit a = lim.
Proof.
  unfold auth_sign, Sign.sign. destruct (Sign.message _ _) as [msg|e] eqn:E; [by eexists|].
  by destruct (Sign.context_spec _ Sign.owner_context) as [Hm _]; rewrite Hm in E.
Qed.

Lemma nonce_kept (m : gmap key N) (f : key * N -> Prop) `{forall x, Decision (f x)} k : m !! k = None -> filter f m !! k = None.
Proof. intros Hm. apply map_lookup_filter_None. by left. Qed.

Definition fresh_nonces (nw : N) (s : HomeServer) : gmap key N :=
  filter (fun kv => saturating_sub nw kv.2 <= MAX_AGE_SECS) (owner_nonces s).

Lemma check_owner_ok (s : HomeServer) owner auth nw ex box pk :
  mailboxes s !! owner = Some box -> disabled box = false -> mailbox_hint auth = to_vec owner ->
  vk_from_bytes (owner_pk box) = Some pk -> auth_verify auth pk nw ex = Ok tt ->
  owner_nonces s !! auth_nonce auth = None ->
  check_owner owner auth nw ex s = (s <| owner_nonces := <[auth_nonce auth := ts auth]> (fresh_nonces nw s) |>, Ok tt).
Proof.
  intros Hb Hd Hh Hk Hv Hn. pose proof (check_owner_spec s owner auth nw ex) as Hp. unfold post in Hp. cbn zeta in Hp.
  destruct (check_owner owner auth nw ex s) as [s1 [[]|e]] eqn:E; cbn in Hp.
  - by destruct Hp as (_ & _ & _ & _ & _ & _ & _ & _ & ->).
  - exfalso. revert E. unfold check_owner, mbind, stM_bind, get, gets. cbn -[auth_verify gc_owner_nonces]. rewrite Hb, Hd.
    rewrite bool_decide_eq_true_2 by done. cbn [negb]. unfold lift. rewrite Hk. cbn [ok_or]. unfold deny. rewrite Hv.
    cbn. rewrite nonce_kept by done. by intros.
Qed.

Lemma lenN_auth_encode a :
  lenN (auth_encode a) <= 400 + lenN (mailbox_hint a) + lenN (as_bytes (scope_method (scope a)))
                          + lenN (as_bytes (scope_path (scope a))).
Proof.
  unfold auth_encode, Cbor.encode, auth_value. cbn -[write_head to_vec lenN app as_bytes]. autorewrite with len.
  rewrite !lenN_write_head.
  repeat match goal with
  | |- context [head_size ?n] => pose proof (head_size_bound n); let z := fresh "z" in generalize dependent (head_size n); intros z
  end. ilia.
Qed.

(** The authorisation a ready client makes is accepted. *)
Lemma owner_auth_accepted s w box path cur lim :
  owner_ready s w box -> lenN (as_bytes path) <= 100 -> cur <= U64_MAX -> lim <= U64_MAX ->
  exists a, mailbox_body_auth path cur lim (s, w) = ((s, next_tick w), Ok a)
    /\ lenN (auth_encode a) <= BODY_LIMIT
    /\ auth_decode (auth_encode a) = Ok a /\ owner_id a = Some (own_id (install s)) /\ cursor a = cur /\ limit a = lim
    /\ auth_nonce a = wd_keys w (wd_tick w) /\ ts a = wd_clock w
    /\ forall h, mailboxes h = mailboxes (app_home (wd_app w)) -> owner_nonces h = owner_nonces (app_home (wd_app w)) ->
         home_server_id h = home_server_id (app_home (wd_app w)) ->
         check_owner (own_id (install s)) a (t_owner (wd_draws w)) (scope_body (home_server_id h) (lit "POST") path) h
         = (h <| owner_nonces := <[auth_nonce a := ts a]> (fresh_nonces (t_owner (wd_draws w)) h) |>, Ok tt).
Proof.
  intros [Hb Hd Hk Hsv Hsg Hl He Hc Hcu Hn] Hp Hcur Hlim.
  destruct (auth_sign_total (identity (install s)) (to_vec (own_id (install s))) cur lim (wd_clock w)
    (scope_body (bundle_server_id (ses_bundle s)) (lit "POST") path) (wd_keys w (wd_tick w))) as (a & Ha & Hh & Hca & Hla).
  destruct (auth_sign_fields _ _ _ _ _ _ _ _ Ha) as (Ht & Hsc & Hna & Hv). exists a. split_and!; try done.
  - change (mailbox_body_auth path cur lim (s, w)) with ((s, next_tick w), cwire (auth_sign (identity (install s))
      (to_vec (own_id (install s))) cur lim (wd_clock w) (scope_body (bundle_server_id (ses_bundle s)) (lit "POST") path)
      (wd_keys w (wd_tick w)))). by rewrite Ha.
  - pose proof (lenN_auth_encode a) as Hlen. rewrite Hh, Hsc in Hlen. cbn [scope_body scope_method scope_path] in Hlen.
    rewrite arr_len in Hlen. change (lenN (as_bytes (lit "POST"))) with 4 in Hlen. revert Hlen Hp. unfold BODY_LIMIT. lia.
  - apply auth_decode_encode. unfold auth_fits. rewrite Hh, Hca, Hla, Ht, Hsc. cbn [scope_body scope_method scope_path].
    rewrite arr_len. split; [by vm_compute|]. split; [exact Hcur|]. split; [exact Hlim|]. split; [exact Hc|].
    split; [by vm_compute|]. revert Hp. generalize (lenN (as_bytes path)). intros; unfold U64_MAX; lia.
  - unfold owner_id. by rewrite Hh, copy_fixed_to_vec.
  - intros h Hm Hon Hid. rewrite <- Hm in Hb.
    apply (check_owner_ok h _ a _ _ box (verifying_key (identity (install s)))); try done.
    + by rewrite Hk, <- vk_bytes_roundtrip.
    + apply auth_verify_ok. rewrite Ht, Hsc, Hid, <- Hsv. done.
    + by rewrite Hon, Hna.
Qed.

(** ** Fetching *)

Definition fetched (h : HomeServer) (t cur lim : N) (box : Mailbox) : list StoredEnvelope :=
  takeN lim (List.filter (fun r => (cur <? row_seq r) && (t <? row_expires_at r)) (bt_values (rows (gc_box t (limits h) box).1))).

Definition row_of (r : StoredEnvelope) : MailboxRow := mk_mrow (row_seq r) (row_inner r).

Lemma fetch_ok (h h1 : HomeServer) owner auth nw box :
  check_owner owner auth nw (scope_body (home_server_id h) (lit "POST") (lit "/v1/mailbox/fetch")) h = (h1, Ok tt) ->
  mailboxes h1 !! owner = Some box -> 1 <= limit auth <= FETCH_LIMIT_MAX ->
  exists D, fetch owner auth nw h = (h1 <| mailboxes := <[owner := (gc_box (now h1) (limits h1) box).1]> (mailboxes h1) |>
                                        <| dirty := D |>,
                                     Ok (fetched h1 (now h1) (cursor auth) (limit auth) box)).
Proof.
  intros Hc Hb Hl. unfold fetch, mbind, stM_bind, get, gets. cbn -[check_owner gc_mailbox String.list_byte_of_string]. rewrite Hc.
  assert ((limit auth =? 0) || (FETCH_LIMIT_MAX <? limit auth) = false) as ->.
  { apply orb_false_iff. rewrite N.eqb_neq, N.ltb_ge. lia. }
  pose proof (gc_mailbox_spec h1 owner) as Hg. unfold post in Hg. destruct (gc_mailbox owner h1) as [h2 r].
  cbn in Hg. destruct Hg as (-> & D & ->). exists D. cbn. rewrite Hb. by rewrite lookup_insert_eq.
Qed.

(** The rows of a response read back. *)
Definition sendable_row (r : StoredEnvelope) : Prop := row_seq r <= U64_MAX /\ wire_inner (row_inner r).

Lemma fetch_items_read l :
  Forall sendable_row l ->
  forallb wf_value (fetch_items l) = true /\ lenN (fetch_items l) = lenN l
  /\ try_map parse_row (fetch_items l) = Ok (map row_of l).
Proof.
  induction 1 as [|r l [Hs [b Hb]] _ (IHw & IHl & IHp)]; [done|].
  destruct (decode_padded_stable _ _ Hb) as (l' & He & Hd).
  assert (fetch_items (r :: l) = Map [(0, Uint (row_seq r)); (1, Bytes l')] :: fetch_items l) as ->.
  { unfold fetch_items. cbn -[encode_padded]. by rewrite He. }
  pose proof (encode_padded_len _ _ He) as Hlen. pose proof (Hpke.outer_len_bound (row_inner r)) as Hbd.
  split_and!.
  - cbn [forallb]. rewrite IHw, andb_true_r. assert (lenN l' <= U64_MAX) by (unfold A4_OUTER, U64_MAX in *; lia). solve_wf.
  - rewrite !lenN_cons. lia.
  - cbn [try_map]. assert (parse_row (Map [(0, Uint (row_seq r)); (1, Bytes l')]) = Ok (row_of r)) as ->.
    { unfold parse_row. read_fields. by rewrite Hd. }
    cbn [mbind result_bind]. by rewrite IHp.
Qed.

Lemma app_persist_home link (a : AppState) : exists D, app_home (app_persist link a) = (app_home a) <| dirty := D |>.
Proof.
  unfold app_persist. destruct (app_db a) as [db|]; [|exists (dirty (app_home a)); by destruct (app_home a)].
  unfold persist. case_cond; [exists (dirty (app_home a)); cbn; by destruct (app_home a)|].
  destruct (persist_inner _ _ _ _ _ _) as [db1 [[]|e]]; cbn; by eexists.
Qed.

(** A world after one mailbox request that left the boxes [bs] and the nonces [ns]. *)
Record after_request (w w' : World) (bs : gmap key Mailbox) (ns : gmap key N) : Prop := {
  aft_boxes : mailboxes (app_home (wd_app w')) = bs;
  aft_nonces : owner_nonces (app_home (wd_app w')) = ns;
  aft_server : home_server_id (app_home (wd_app w')) = home_server_id (app_home (wd_app w));
  aft_sign : sign_key (app_home (wd_app w')) = sign_key (app_home (wd_app w));
  aft_limits : limits (app_home (wd_app w')) = limits (app_home (wd_app w));
  aft_world : wd_draws w' = wd_draws w /\ wd_keys w' = wd_keys w /\ wd_clock w' = wd_clock w /\ wd_tick w' = S (S (wd_tick w))
}.

Definition server_post (segs : list rstring) (w : World) (l : bytes) : HttpRequest :=
  mk_request POST segs [(NONCE_HEADER, as_bytes (to_hex (to_vec (wd_keys w (wd_tick w)))))] l (Err BAD_REQUEST).

Lemma server_request_fetch (w : World) l :
  server_request (mk_creq (lit "POST") (lit "/v1/mailbox/fetch") ([] ++ [(NONCE_HEADER, to_hex (to_vec (wd_keys w (wd_tick w))))]) l)
  = Some (server_post [lit "v1"; lit "mailbox"; lit "fetch"] w l).
Proof. reflexivity. Qed.

Lemma after_persist (w : World) link bs ns h' gs db k D1 D2 :
  h' = (app_home (wd_app w)) <| now := D1 |> <| owner_nonces := ns |> <| mailboxes := bs |> <| dirty := D2 |> ->
  after_request w (with_app (app_persist link (mk_app h' gs db k)) (next_tick (next_tick w))) bs ns
  /\ sign_key (app_home (app_persist link (mk_app h' gs db k))) = sign_key (app_home (wd_app w)).
Proof.
  intros ->. destruct (app_persist_home link (mk_app ((app_home (wd_app w)) <| now := D1 |> <| owner_nonces := ns |>
    <| mailboxes := bs |> <| dirty := D2 |>) gs db k)) as [D E].
  unfold with_app. split; [|by rewrite E]. split; cbn -[app_persist]; rewrite ?E; done.
Qed.

(** What the server keeps of a box at time [t]. *)
Definition unexpired (h : HomeServer) (t : N) (box : Mailbox) : btree StoredEnvelope :=
  List.filter (fun kv => negb (row_expired t (mailbox_max_age_secs (limits h)) kv.2)) (rows box).

Definition pending_rows (h : HomeServer) (t cur : N) (box : Mailbox) : list StoredEnvelope :=
  takeN FETCH_LIMIT (List.filter (fun r => cur <? row_seq r) (bt_values (unexpired h t box))).

Lemma gc_box_unexpired h n t owner box :
  home_inv n h -> mailboxes h !! owner = Some box ->
  rows (gc_box t (limits h) box).1 = unexpired h t box /\ box_wf (gc_box t (limits h) box).1
  /\ next_seq (gc_box t (limits h) box).1 = next_seq box /\ disabled (gc_box t (limits h) box).1 = disabled box.
Proof.
  intros Hi Hb. destruct (inv_boxes _ _ Hi _ _ Hb) as (Hwf & _ & Hbytes).
  pose proof (gc_box_spec t (limits h) box Hwf) as Hgc. destruct (gc_box t (limits h) box) as [bx dr].
  destruct Hgc as (m & ? & _ & ? & ? & Hrows & Hm). rewrite (Hm Hbytes) in Hrows. done.
Qed.

Lemma fetched_pending h n t cur owner box :
  home_inv n h -> mailboxes h !! owner = Some box -> fetched h t cur FETCH_LIMIT box = pending_rows h t cur box.
Proof.
  intros Hi Hb. unfold fetched, pending_rows. destruct (gc_box_unexpired h n t owner box Hi Hb) as [-> _]. f_equal.
  unfold unexpired, bt_values. induction (rows box) as [|[k r] l IH]; [done|]. cbn [List.filter snd map].
  destruct (row_expired t (mailbox_max_age_secs (limits h)) r) eqn:E; cbn [negb]; [done|]. cbn [map List.filter snd].
  unfold row_expired in E. apply orb_false_iff in E as [E%N.leb_gt _]. apply N.ltb_lt in E. by rewrite E, andb_true_r, IH.
Qed.

Lemma pending_sendable h n t cur owner box :
  home_inv n h -> n < U64_MAX -> home_typed h -> mailboxes h !! owner = Some box ->
  Forall sendable_row (pending_rows h t cur box).
Proof.
  intros Hi Hn Ht Hb. destruct (inv_boxes _ _ Hi _ _ Hb) as (Hwf & Hnext & _).
  apply Forall_forall. intros r Hin. unfold pending_rows, takeN in Hin. apply list_elem_of_In in Hin.
  apply list_elem_of_In, elem_of_take in Hin as (i & Hi' & _). apply list_elem_of_lookup_2, list_elem_of_In, filter_In in Hi' as [Hin _].
  apply in_map_iff in Hin as ([k r'] & Hr & Hin). cbn in Hr. subst r'. apply filter_In in Hin as [Hin _].
  destruct (wf_rows _ Hwf _ _ Hin) as (Heq & Hk & _). unfold sendable_row. rewrite Heq. split; [lia|]. by apply (ty_inner _ (ty_rows _ Ht _ _ _ _ Hb Hin)).
Qed.

Definition cursor_after (rows : list StoredEnvelope) (cur : N) : N :=
  match last rows with Some r => row_seq r | None => cur end.

Lemma set_cursor_id (s : session) : s <| ses_cursor := ses_cursor s |> = s.
Proof. by destruct s. Qed.

Lemma home_call_of_signed (s : session) w req w' res :
  signed_call tt (ses_bundle s) req w = (w', Ok res) -> home_call req (s, w) = ((s, w'), Ok res).
Proof.
  intros Hc. unfold home_call, mbind, stM_bind, ses, gets, in_world. cbn -[signed_call]. by destruct (ses_transport s); rewrite Hc.
Qed.

Lemma pending_length h t cur box : lenN (pending_rows h t cur box) <= FETCH_LIMIT.
Proof. unfold pending_rows. rewrite lenN_takeN. lia. Qed.

Lemma last_map_row l : last (map row_of l) = row_of <$> last l.
Proof. apply fmap_last. Qed.

Lemma fetch_mailbox_served s w box n :
  owner_ready s w box -> home_inv n (app_home (wd_app w)) -> n < U64_MAX -> home_typed (app_home (wd_app w)) ->
  let h := app_home (wd_app w) in
  let t := t_home (wd_draws w) in
  let got := pending_rows h t (ses_cursor s) box in
  lenN (Cbor.encode (Array (fetch_items got))) <= BODY_LIMIT ->
  exists w', fetch_mailbox (s, w) = ((s <| ses_cursor := cursor_after got (ses_cursor s) |>, w'), Ok (map row_of got))
    /\ after_request w w' (<[own_id (install s) := (gc_box t (limits h) box).1]> (mailboxes h))
         (<[wd_keys w (wd_tick w) := wd_clock w]> (fresh_nonces (t_owner (wd_draws w)) h)).
Proof.
  intros Hr Hi Hn Hty h t got Hlim.
  destruct (owner_auth_accepted s w box (lit "/v1/mailbox/fetch") (ses_cursor s) FETCH_LIMIT Hr ltac:(by vm_compute)
    (rd_cursor _ _ _ Hr) ltac:(by vm_compute)) as (a & Ha & Hbl & Hdec & Hown & Hcur & Hl & Hnon & Hts & Hchk).
  specialize (Hchk (h <| now := t |>)). specialize (Hchk eq_refl eq_refl eq_refl).
  destruct (fetch_ok _ _ _ _ _ box Hchk (rd_box _ _ _ Hr) ltac:(rewrite Hl; vm_compute; split; discriminate)) as [D Hf].
  rewrite Hl, Hcur in Hf.
  match type of Hf with _ = (?h1, Ok ?l) => change l with (fetched h t (ses_cursor s) FETCH_LIMIT box) in Hf;
    destruct (after_persist w (wd_link w) _ _ h1 (app_groups (wd_app w)) (app_db (wd_app w)) (app_wakes (wd_app w) + 1) _ _ eq_refl)
      as [Haft Hsk] end.
  rewrite (fetched_pending h n t _ _ _ Hi (rd_box _ _ _ Hr)) in Hf. fold got in Hf.
  destruct (fetch_items_read got (pending_sendable h n t _ _ _ Hi Hn Hty (rd_box _ _ _ Hr))) as (Hw & Hlen & Hp).
  set (q := server_post [lit "v1"; lit "mailbox"; lit "fetch"] (next_tick w) (auth_encode a)).
  destruct (signed_call_served (ses_bundle s) (mk_creq (lit "POST") (lit "/v1/mailbox/fetch") [] (auth_encode a)) q (next_tick w)
    _ _ (server_request_fetch (next_tick w) (auth_encode a)) ltac:(constructor)
    (fetch_answer (wd_link w) (wd_draws w) q (wd_app w) a _ got _ eq_refl eq_refl Hbl Hdec Hown Hf)) as [hs Hc].
  { exact Hlim. }
  { rewrite Hsk. apply (rd_sign _ _ _ Hr). }
  eexists. split; [|rewrite <- Hnon, <- Hts; exact Haft].
  apply home_call_of_signed in Hc.
  assert (Cbor.decode (Cbor.encode (Array (fetch_items got))) = Ok (Array (fetch_items got))) as Hd.
  { apply decode_encode_wf. cbn [wf_value]. rewrite Hw, Hlen, andb_true_r. apply N.leb_le.
    pose proof (pending_length h t (ses_cursor s) box). unfold got, FETCH_LIMIT, U64_MAX in *. lia. }
  unfold fetch_mailbox, mbind, stM_bind, ses, gets, get. cbn [fst].
  rewrite Ha, Hc. unfold lift. cbn [check_body check_status cs_status cs_body res_status res_body cbor_ok mbind result_bind HTTP_OK].
  unfold cwire. rewrite Hd. cbn [map_err mbind result_bind]. rewrite Hp. unfold set_ses, modify, mret, stM_ret. cbn [fst snd].
  unfold cursor_after. rewrite last_map_row. destruct (last got) as [r|]; [done|]. by rewrite set_cursor_id.
Qed.

(** ** Acknowledging *)

Definition acked (cur : N) (box : Mailbox) : Mailbox :=
  foldl ack_row box (List.filter (fun k => k <=? cur) (bt_keys (rows box))).

Lemma ack_ok (h h1 : HomeServer) owner auth nw box :
  check_owner owner auth nw (scope_body (home_server_id h) (lit "POST") (lit "/v1/mailbox/ack")) h = (h1, Ok tt) ->
  mailboxes h1 !! owner = Some box ->
  exists D, ack owner auth nw h = (h1 <| mailboxes := <[owner := acked (cursor auth) box]> (mailboxes h1) |> <| dirty := D |>, Ok tt).
Proof.
  intros Hc Hb. unfold ack, acked, mbind, stM_bind, get, gets. cbn -[check_owner bt_keys String.list_byte_of_string]. rewrite Hc, Hb.
  case_bool_decide as Hd.
  - exists (dirty h1). rewrite Hd. cbn. rewrite insert_id by done. by destruct h1.
  - by eexists.
Qed.

Lemma dispatch_ack d req :
  req_method req = POST -> req_path req = [lit "v1"; lit "mailbox"; lit "ack"] ->
  dispatch routes d req = with_body req (mailbox_ack d).
Proof.
  destruct req as [m p hd l ws]. cbn [req_method req_path]. intros -> ->. unfold routes. cbn [dispatch req_path].
  by rewrite !match_path_fit.
Qed.

Lemma ack_answer link d req (a : AppState) auth owner s1 :
  req_method req = POST -> req_path req = [lit "v1"; lit "mailbox"; lit "ack"] -> lenN (req_body req) <= BODY_LIMIT ->
  auth_decode (req_body req) = Ok auth -> owner_id auth = Some owner ->
  ack owner auth (t_owner d) (app_home a) <| now := t_home d |> = (s1, Ok tt) ->
  run_prog link (persist_after req (respond (dispatch routes d req))) a =
  (app_persist link (mk_app s1 (app_groups a) (app_db a) (app_wakes a + 1)), status NO_CONTENT).
Proof.
  intros Hm Hp Hl Ha Ho Hf. unfold persist_after. rewrite run_prog_bind, dispatch_ack by done.
  unfold respond. rewrite run_prog_bind. unfold with_body, mailbox_ack, return_if, decoded, some_or.
  assert (BODY_LIMIT <? lenN (req_body req) = false) as -> by (apply N.ltb_ge; lia). rewrite Ha. cbn. rewrite Ho. cbn.
  unfold mbind, stM_bind, call. cbn. rewrite Hf. cbn.
  assert (mutating req = true) as ->; [|done]. unfold mutating. rewrite Hm, Hp. reflexivity.
Qed.

Lemma server_request_ack (w : World) l :
  server_request (mk_creq (lit "POST") (lit "/v1/mailbox/ack") ([] ++ [(NONCE_HEADER, to_hex (to_vec (wd_keys w (wd_tick w))))]) l)
  = Some (server_post [lit "v1"; lit "mailbox"; lit "ack"] w l).
Proof. reflexivity. Qed.

Lemma client_ack_served s w box :
  owner_ready s w box ->
  let h := app_home (wd_app w) in
  exists w', client_ack (s, w) = ((s, w'), Ok tt)
    /\ after_request w w' (<[own_id (install s) := acked (ses_cursor s) box]> (mailboxes h))
         (<[wd_keys w (wd_tick w) := wd_clock w]> (fresh_nonces (t_owner (wd_draws w)) h)).
Proof.
  intros Hr h.
  destruct (owner_auth_accepted s w box (lit "/v1/mailbox/ack") (ses_cursor s) 1 Hr ltac:(by vm_compute)
    (rd_cursor _ _ _ Hr) ltac:(by vm_compute)) as (a & Ha & Hbl & Hdec & Hown & Hcur & Hl & Hnon & Hts & Hchk).
  specialize (Hchk (h <| now := t_home (wd_draws w) |>)). specialize (Hchk eq_refl eq_refl eq_refl).
  destruct (ack_ok _ _ _ _ _ box Hchk (rd_box _ _ _ Hr)) as [D Hf]. rewrite Hcur in Hf.
  match type of Hf with _ = (?h1, Ok _) =>
    destruct (after_persist w (wd_link w) _ _ h1 (app_groups (wd_app w)) (app_db (wd_app w)) (app_wakes (wd_app w) + 1) _ _ eq_refl)
      as [Haft Hsk] end.
  set (q := server_post [lit "v1"; lit "mailbox"; lit "ack"] (next_tick w) (auth_encode a)).
  destruct (signed_call_served (ses_bundle s) (mk_creq (lit "POST") (lit "/v1/mailbox/ack") [] (auth_encode a)) q (next_tick w)
    _ _ (server_request_ack (next_tick w) (auth_encode a)) ltac:(constructor)
    (ack_answer (wd_link w) (wd_draws w) q (wd_app w) a _ _ eq_refl eq_refl Hbl Hdec Hown Hf)) as [hs Hc].
  { by vm_compute. }
  { rewrite Hsk. apply (rd_sign _ _ _ Hr). }
  eexists. split; [|rewrite <- Hnon, <- Hts; exact Haft]. apply home_call_of_signed in Hc.
  unfold client_ack, mbind, stM_bind, ses, gets, get. cbn [fst]. by rewrite Ha, Hc.
Qed.
End Served.
