(* ===== verification/SessionProps.v ===== *)
(** * What a session guarantees

    Polling a mailbox against the server's handlers, the contacts a session
    holds, and what is lost when a call fails. *)

From S2P Require Export SessionServer.
From S2P Require Import HomeProps PgGaps Toy ToySignal InstallProps.

Section Polling.
Context `{CryptoLaws} `{SignalOps} `{OpenMls} `{TurnLib} `{AxumLaws}.
Notation session := (HomeSession unit).

(** ** Decrypting the rows of a poll *)

(** The rows in order, each with its own random bytes; the installation is
    threaded through. *)
Fixpoint decrypt_all (rows : list MailboxRow) (peers : list key) (rnds : list (nat -> key)) (i : Installation)
    : Installation * list (cresult (key * bytes)) :=
  match rows, rnds with
  | row :: rows, rnd :: rnds =>
      let '(i, r) := decrypt_incoming (mrow_inner row) peers rnd i in
      let '(i, rs) := decrypt_all rows peers rnds i in
      (i, r :: rs)
  | _, _ => (i, [])
  end.

Lemma decrypt_identity peer l rnd k : preserves (fun i => identity i = k) (decrypt peer l rnd).
Proof.
  unfold decrypt. walk idtac. intros i Hi. unfold post, decrypt_message.
  destruct (message_decrypt _ _ _ _ _ _) as [[[[ss ids] pks] ky] r]. exact Hi.
Qed.

Lemma try_peers_identity peers l rnd e k : preserves (fun i => identity i = k) (try_peers peers l rnd e).
Proof.
  revert rnd e. induction peers as [|p peers IH]; intros rnd e i Hi; [exact Hi|].
  unfold post. cbn [try_peers]. pose proof (decrypt_identity p l (rnd 0%nat) k i Hi) as Hd. unfold post in Hd.
  destruct (decrypt p l (rnd 0%nat) i) as [i' [pt|e']]; [exact Hd|]. by apply IH.
Qed.

Lemma decrypt_incoming_identity inner extra rnd k : preserves (fun i => identity i = k) (decrypt_incoming inner extra rnd).
Proof. unfold decrypt_incoming. walk ltac:(first [apply decrypt_identity | apply try_peers_identity]). Qed.

Lemma decrypt_all_identity rows peers rnds i : identity (decrypt_all rows peers rnds i).1 = identity i.
Proof.
  revert rnds i. induction rows as [|row rows IH]; intros [|rnd rnds] i; try done. cbn [decrypt_all].
  pose proof (decrypt_incoming_identity (mrow_inner row) peers rnd (identity i) i eq_refl) as Hd. unfold post in Hd.
  destruct (decrypt_incoming _ _ _ i) as [i' r]. specialize (IH rnds i').
  destruct (decrypt_all rows peers rnds i') as [i2 rs]. cbn in *. congruence.
Qed.

Fixpoint later (n : nat) (w : World) : World := match n with O => w | S n => later n (next_tick w) end.

Lemma later_tick n w :
  later n w = mk_world (wd_app w) (wd_link w) (wd_draws w) (wd_keys w) (wd_tick w + n)%nat (wd_clock w).
Proof.
  revert w. induction n as [|n IH]; intros w; cbn [later]; [rewrite Nat.add_0_r; by destruct w|].
  rewrite IH. unfold next_tick. cbn. by rewrite Nat.add_succ_r.
Qed.

Lemma open_rows_spec rows peers opened (s : session) w :
  exists rnds, length rnds = length rows
    /\ open_rows rows peers opened (s, w)
       = ((s <| install := (decrypt_all rows peers rnds (install s)).1 |>, later (length rows) w),
          Ok (opened ++ omap ok (decrypt_all rows peers rnds (install s)).2)).
Proof.
  revert opened s w. induction rows as [|row rows IH]; intros opened s w.
  { exists []. split; [done|]. cbn. rewrite app_nil_r. by destruct s. }
  set (rnd := fun i => wd_keys w (wd_tick w + i)%nat).
  destruct (decrypt_incoming (mrow_inner row) peers rnd (install s)) as [i' r] eqn:E.
  destruct (IH (match r with Ok item => opened ++ [item] | Err _ => opened end) (s <| install := i' |>) (next_tick w))
    as (rnds & Hl & Ho).
  exists (rnd :: rnds). split; [cbn; congruence|]. cbn [open_rows decrypt_all length later]. rewrite E.
  unfold mbind at 1 2, stM_bind, in_world, draw, attempt_call, on_install. cbn [fst snd random_stream world_platform].
  fold rnd. rewrite E. cbn [fst snd].  rewrite Ho. cbn [install]. change (install (s <| install := i' |>)) with i'.
  destruct (decrypt_all rows peers rnds i') as [i2 rs]. f_equal. destruct r; cbn [ok omap fst snd list_omap]; [|done].
  by rewrite <- app_assoc.
Qed.

Lemma cursor_after_fits h n t cur owner box :
  home_inv n h -> n < U64_MAX -> home_typed h -> mailboxes h !! owner = Some box -> cur <= U64_MAX ->
  cursor_after (pending_rows h t cur box) cur <= U64_MAX.
Proof.
  intros Hi Hn Ht Hb Hc. unfold cursor_after. pose proof (pending_sendable h n t cur owner box Hi Hn Ht Hb) as Hf.
  destruct (last _) as [r|] eqn:El; [|done]. apply last_Some_elem_of in El.
  rewrite Forall_forall in Hf. by apply Hf.
Qed.

Lemma acked_rows cur box : box_wf box -> rows (acked cur box) = List.filter (fun kv => cur <? kv.1) (rows box).
Proof.
  intros Hwf. unfold acked. destruct (fold_ack_row (List.filter (fun k => k <=? cur) (bt_keys (rows box))) box Hwf) as (_ & -> & _).
  apply filter_ext_in. intros [k r] Hin. cbn [fst]. case_bool_decide as Hd; cbn [negb]; symmetry.
  - apply list_elem_of_In, filter_In in Hd as [_ Hd%N.leb_le]. by apply N.ltb_ge.
  - apply N.ltb_lt. destruct (N.lt_ge_cases cur k) as [|Hle]; [done|]. exfalso. apply Hd.
    apply list_elem_of_In, filter_In. split; [by apply (in_map fst) in Hin | by apply N.leb_le].
Qed.

(** The random keys of a poll: none was used as a nonce before, and the first is
    not drawn again. *)
Definition fresh_keys (w : World) : Prop :=
  forall i, (i <= 66)%nat ->
    owner_nonces (app_home (wd_app w)) !! wd_keys w (wd_tick w + i)%nat = None
    /\ (wd_keys w (wd_tick w + i)%nat = wd_keys w (wd_tick w) -> i = 0%nat).

(** A session that moved on and a world some draws later are still ready. *)
Lemma ready_after s w w1 box box1 (s2 : session) k ns :
  owner_ready s w box -> fresh_keys w ->
  after_request w w1 (<[own_id (install s) := box1]> (mailboxes (app_home (wd_app w))))
    (<[wd_keys w (wd_tick w) := wd_clock w]> ns) -> ns ⊆ owner_nonces (app_home (wd_app w)) ->
  owner_pk box1 = owner_pk box -> disabled box1 = disabled box ->
  identity (install s2) = identity (install s) -> ses_bundle s2 = ses_bundle s -> ses_cursor s2 <= U64_MAX ->
  (k <= 64)%nat -> owner_ready s2 (later k w1) box1.
Proof.
  intros [Hb Hd Hk Hsv Hsg Hl He Hc Hcu Hn] Hf [Ab An As Ask _ (Ad & Akeys & Aclk & Atick)] Hns Hpk Hdis Hid Hbun Hcur Hle.
  assert (own_id (install s2) = own_id (install s)) as Hown by (unfold own_id, identity_public_key; by rewrite Hid).
  rewrite later_tick. split; cbn [wd_app wd_draws wd_clock wd_keys wd_tick].
  - by rewrite Ab, Hown, lookup_insert_eq.
  - congruence.
  - unfold identity_public_key in *. congruence.
  - congruence.
  - congruence.
  - by rewrite Ad, Aclk.
  - by rewrite Ad, Aclk.
  - by rewrite Aclk.
  - done.
  - rewrite An, Akeys, Atick. replace (S (S (wd_tick w)) + k)%nat with (wd_tick w + S (S k))%nat by lia.
    destruct (Hf (S (S k)) ltac:(lia)) as [Hnone Hinj]. rewrite lookup_insert_ne.
    + destruct (ns !! _) as [v|] eqn:E; [|done]. by rewrite (lookup_weaken _ _ _ _ E Hns) in Hnone.
    + intros Heq. symmetry in Heq. by apply Hinj in Heq.
Qed.

(** C32. A poll against the server: the client gets exactly the rows above its
    cursor that have not expired, at most 64, oldest first; its cursor moves to
    the last of them; what decrypts is returned in order; and afterwards the
    server holds exactly the rows above the new cursor, so a row that did not
    decrypt is gone with the others. *)
Theorem ingest_mailbox_served (s : session) (w : World) box n :
  owner_ready s w box -> fresh_keys w ->
  home_inv n (app_home (wd_app w)) -> n < U64_MAX -> home_typed (app_home (wd_app w)) ->
  let h := app_home (wd_app w) in
  let t := t_home (wd_draws w) in
  let got := pending_rows h t (ses_cursor s) box in
  got <> [] -> lenN (Cbor.encode (Array (fetch_items got))) <= BODY_LIMIT ->
  exists s' w' rnds box',
    let opened := decrypt_all (map row_of got) (map_to_list (contacts s)).*1 rnds (install s) in
    ingest_mailbox (s, w) = ((s', w'), Ok (omap ok opened.2))
    /\ length rnds = length got /\ install s' = opened.1
    /\ ses_cursor s' = cursor_after got (ses_cursor s)
    /\ mailboxes (app_home (wd_app w')) = <[own_id (install s) := box']> (mailboxes h)
    /\ rows box' = List.filter (fun kv => cursor_after got (ses_cursor s) <? kv.1) (unexpired h t box).
Proof.
  intros Hr Hf Hi Hn Hty h t got Hne Hlim.
  destruct (fetch_mailbox_served s w box n Hr Hi Hn Hty Hlim) as (w1 & Hfetch & Haft).
  fold h t got in Hfetch, Haft. set (cur' := cursor_after got (ses_cursor s)) in *. set (s1 := s <| ses_cursor := cur' |>) in *.
  destruct (open_rows_spec (map row_of got) (map_to_list (contacts s)).*1 [] s1 w1) as (rnds & Hlen & Hopen).
  rewrite length_map in *. change (install s1) with (install s) in Hopen.
  set (opened := decrypt_all (map row_of got) (map_to_list (contacts s)).*1 rnds (install s)) in *.
  destruct (gc_box_unexpired h n t _ _ Hi (rd_box _ _ _ Hr)) as (Hrows & Hwf & _ & Hdis).
  destruct (client_ack_served (s1 <| install := opened.1 |>) (later (length got) w1) (gc_box t (limits h) box).1) as (w' & Hack & Haft').
  { eapply (ready_after s w w1 box); try done.
    - apply map_filter_subseteq.
    - apply owner_gc_box.
    - apply decrypt_all_identity.
    - by apply (cursor_after_fits h n t _ _ _ Hi Hn Hty (rd_box _ _ _ Hr)), (rd_cursor _ _ _ Hr).
    - pose proof (pending_length h t (ses_cursor s) box) as Hp. fold got in Hp. unfold lenN, FETCH_LIMIT in Hp. lia. }
  exists (s1 <| install := opened.1 |>), w', rnds, (acked cur' (gc_box t (limits h) box).1). cbn zeta.
  split_and!; try done.
  - assert (forall A (x y : A), match map row_of got with [] => x | _ => y end = y) as Hmatch.
    { intros A x y. clear -Hne. destruct (map row_of got) eqn:E; [by apply map_eq_nil in E | done]. }
    unfold ingest_mailbox, mbind, stM_bind. rewrite Hfetch, Hmatch.
    unfold ses, gets, in_world, get. cbn [fst snd hash_order world_platform].
    change (contacts s1) with (contacts s). by rewrite Hopen, Hack.
  - destruct Haft' as [-> _ _ _ _ _]. destruct Haft as [Ab _ _ _ _ _]. rewrite later_tick. cbn [wd_app]. rewrite Ab.
    change (install (s1 <| install := opened.1 |>)) with opened.1. change (ses_cursor (s1 <| install := opened.1 |>)) with cur'.
    assert (own_id opened.1 = own_id (install s)) as ->.
    { unfold own_id, identity_public_key, opened. by rewrite (decrypt_all_identity (map row_of got)). }
    apply insert_insert_eq.
  - rewrite (acked_rows cur' _ Hwf). by rewrite Hrows.
Qed.
End Polling.

(** ** Witnesses *)

Section Witnesses.
#[local] Existing Instances Toy.toy Toy.toy_laws ToySignal.types ToySignal.types_laws ToySignal.ops ToySignal.ops_laws ToySignal.mls.
#[local] Instance plain_axum : Axum := {| match_path := fit_path; to_str := visible_str |}.
#[local] Instance plain_axum_laws : AxumLaws.
Proof. by split. Qed.
#[local] Instance plain_turn : TurnLib := {| hmac_sha1 k l := k ++ l; b64_standard l := to_hex l |}.

(** A server where the sample installation has a mailbox with one envelope. *)
Definition polled_ops : list server_op :=
  [SHome (OpRegister (own_id sample_sender) (identity_public_key sample_sender));
   SHome (OpContact (own_id sample_sender) (arr_repeat 32 x44)); SHome (OpAppend gap_inner)].

Definition polled_home : HomeServer := foldl (fun s op => sexec op s) sample_home polled_ops.

Lemma polled_sound : sound 3 polled_home host_new.
Proof.
  apply (run_sound polled_ops 0 sample_home sample_sound); [vm_compute; reflexivity|].
  repeat constructor. apply gap_inner_wire.
Qed.

(** The key whose last byte counts. *)
Definition counted_key (n : nat) : key :=
  match copy_fixed 32 (replicate 31 x00 ++ be_bytes 1 (N.of_nat n)) with Ok k => k | Err _ => arr_repeat 32 x00 end.

Definition polled_world : World :=
  mk_world (from_parts polled_home host_new) LinkUp
    (mk_draws 1700000000 1700000000 1700000000 (fun _ => arr_repeat 32 x66) (fun _ _ => (arr_repeat 32 x67, arr_repeat 32 x68))
       (mk_turn_env 1700000000 (arr_repeat 16 x01) None None (arr_repeat 32 x69)))
    counted_key 0 1700000030.

Definition polled_session : HomeSession unit :=
  mk_hsession tt sample_sender (bundle polled_home) 0 ∅ [] (lit "") Normal [] 0 0.

Definition polled_box : Mailbox :=
  match mailboxes polled_home !! own_id sample_sender with Some b => b | None => mk_mailbox (arr_repeat 32 x00) 1 [] ∅ 0 true end.

Lemma polled_ready : owner_ready polled_session polled_world polled_box.
Proof.
  assert (is_Some (mailboxes polled_home !! own_id sample_sender)) as [b Hb].
  { apply (bool_decide_eq_true_1 _). vm_compute. reflexivity. }
  split.
  - change (mailboxes polled_home !! own_id sample_sender = Some polled_box). unfold polled_box. by rewrite Hb.
  - vm_compute. reflexivity.
  - vm_compute. reflexivity.
  - vm_compute. reflexivity.
  - vm_compute. reflexivity.
  - vm_compute. discriminate.
  - vm_compute. discriminate.
  - vm_compute. discriminate.
  - vm_compute. discriminate.
  - vm_compute. reflexivity.
Qed.

Lemma polled_fresh : fresh_keys polled_world.
Proof.
  intros i Hi.
  assert (forallb (fun i => bool_decide (owner_nonces polled_home !! counted_key i = None)
    && (bool_decide (i = 0%nat) || negb (bool_decide (counted_key i = counted_key 0)))) (seq 0 67) = true) as Hall
    by (vm_compute; reflexivity).
  rewrite forallb_forall in Hall. specialize (Hall i ltac:(apply in_seq; lia)). apply andb_true_iff in Hall as [H1 H2].
  split; [exact (bool_decide_eq_true_1 _ H1)|]. intros Heq. apply orb_true_iff in H2 as [H2|H2]; [exact (bool_decide_eq_true_1 _ H2)|].
  apply negb_true_iff, bool_decide_eq_false in H2. by destruct (H2 Heq).
Qed.

Example ingest_mailbox_served_witness :
  exists s' w' opened, ingest_mailbox (polled_session, polled_world) = ((s', w'), Ok opened) /\ ses_cursor s' = 1.
Proof.
  pose proof polled_sound as Hs.
  assert (lenN (pending_rows polled_home 1700000000 0 polled_box) = 1) as Hone by (vm_compute; reflexivity).
  destruct (ingest_mailbox_served polled_session polled_world polled_box 3 polled_ready polled_fresh (so_inv _ _ _ Hs)
    ltac:(vm_compute; reflexivity) (so_typed _ _ _ Hs)) as (s' & w' & rnds & box' & Hi & _ & _ & Hc & _).
  - change (pending_rows polled_home 1700000000 0 polled_box <> []). intros He. rewrite He in Hone. discriminate Hone.
  - vm_compute. discriminate.
  - eexists s', w', _. split; [exact Hi|]. rewrite Hc. vm_compute. reflexivity.
Defined.
End Witnesses.
