(* ===== verification/SessionContacts.v ===== *)
(** * The contacts of a session

    Every operation of a session as a step, and what all of them keep: a contact
    is filed under the hash of the key that is pinned for it, and a contact that
    was revoked is sent nothing. *)

From S2P Require Export SessionOps.
From S2P Require Import Toy ToySignal InstallProps SessionProps.

Section Steps.
Context `{Crypto} `{SignalOps} `{OpenMls}.
Context {T W : Type} `{HomeTransport T W} `{Platform W}.

Notation session := (HomeSession T).
Notation cm := (stM (session * W) CoreError).

(** ** Operations *)

(** The operations of a session; the last two learn a contact's address. *)
Inductive session_op : Type :=
  | SetPrivacy (mode : PrivacyMode)
  | SetBase (base : rstring)
  | ForceCover
  | PumpCover
  | RefreshContact (peer : key) (now_unix : N)
  | RefreshIdle (now_unix : N)
  | RefreshMls (ids : list key) (now_unix : N)
  | CheckRevoked (id : key) (now_unix : N)
  | SendWith (mt : MessageType) (batch : bool) (peer : key) (ttl : TtlBucket) (plaintext : bytes) (now_unix : N)
  | PostEnvelope (outer : OuterEnvelope) (batch : bool)
  | FlushOutbox
  | Ingest
  | FetchRows
  | AckRows
  | Restock (target : option N)
  | PublishPrekey
  | MintContact
  | MintShareCard (now_unix : N)
  | SubmitRevocation (stmt : RevocationStatement)
  | IssueTurn
  | Rehome (t : T) (base : rstring) (now_unix : N)
  | CreateGroup (signing_pk cap : key)
  | RememberGroup (g : HostGroup)
  | GroupAppend (gid : key) (cred : HostCred) (t : MessageType) (l : bytes)
  | StoreInvite (gid : key) (cred : HostCred) (invite : GroupInvite)
  | AcceptInvite (gid nonce : key)
  | LookupPending (gid : key) (cred : HostCred) (pending_id : key)
  | AdmitJoiner (gid : key) (cred : HostCred) (a : GroupAdmit) (joiner_pk joiner_cap joiner_hpke : key)
  | RefreshFanout (gid : key) (cred : HostCred) (cap home_hpke : key)
  | UploadFile (gid : key) (cred : HostCred) (token : key) (l : bytes)
  | FetchFile (gid : key) (cred : HostCred) (token : key)
  | AddContact (card : ContactCard) (cap : key) (now_unix : N)
  | ApplyCapability (session_peer cap : key) (intro : option CapabilityIntro) (now_unix : N).

Definition ignore {A} (m : cm A) : cm unit := m;; mret tt.

Definition session_exec (op : session_op) : cm unit :=
  match op with
  | SetPrivacy mode => set_privacy mode
  | SetBase base => set_ses (set_home_base base)
  | ForceCover => force_cover_now
  | PumpCover => ignore pump_cover
  | RefreshContact peer nw => refresh_contact peer nw
  | RefreshIdle nw => ignore (refresh_idle_discovery nw)
  | RefreshMls ids nw => refresh_mls_identities ids nw
  | CheckRevoked id nw => ignore (identity_is_revoked id nw)
  | SendWith mt batch peer ttl pt nw => ignore (send_with mt batch peer ttl pt nw)
  | PostEnvelope outer batch => ignore (post_envelope_maybe_batch outer batch)
  | FlushOutbox => ignore flush_private_outbox
  | Ingest => ignore ingest_mailbox
  | FetchRows => ignore fetch_mailbox
  | AckRows => client_ack
  | Restock None => ignore restock_publish
  | Restock (Some n) => ignore (restock_publish_upto n)
  | PublishPrekey => client_publish_prekey
  | MintContact => ignore client_mint_contact
  | MintShareCard nw => ignore (mint_share_card nw)
  | SubmitRevocation stmt => client_submit_revocation stmt
  | IssueTurn => ignore client_issue_turn
  | Rehome t base nw => ignore (rehome t base nw)
  | CreateGroup pk cap => ignore (client_create_group pk cap)
  | RememberGroup g => remember_group g
  | GroupAppend gid cred t l => ignore (client_group_append gid cred t l)
  | StoreInvite gid cred inv => client_store_invite gid cred inv
  | AcceptInvite gid nonce => ignore (client_accept_invite gid nonce)
  | LookupPending gid cred pid => ignore (client_lookup_pending gid cred pid)
  | AdmitJoiner gid cred a pk cap hpke => ignore (client_admit gid cred a pk cap hpke)
  | RefreshFanout gid cred cap hpke => client_refresh_fanout gid cred cap hpke
  | UploadFile gid cred token l => client_upload_file gid cred token l
  | FetchFile gid cred token => ignore (client_fetch_file gid cred token)
  | AddContact card cap nw => add_contact card cap nw
  | ApplyCapability peer cap intro nw => ignore (apply_contact_capability peer cap intro nw)
  end.

(** A run of operations, each whatever the one before returned. *)
Definition session_run (ops : list session_op) (x : session * W) : session * W :=
  foldl (fun x op => (session_exec op x).1) x ops.

(** ** Predicates on the contacts *)

(** What a refresh may do to a contact. *)
Definition refined (c c' : StoredContact) : Prop :=
  pin_identity_id (contact_pin c') = pin_identity_id (contact_pin c)
  /\ pin_identity_public_key (contact_pin c') = pin_identity_public_key (contact_pin c)
  /\ (revoked c = true -> revoked c' = true).

Section Predicate.
Variable P : gmap key StoredContact -> Prop.
Hypothesis P_refined : forall cs id c c', P cs -> cs !! id = Some c -> refined c c' -> P (<[id := c']> cs).

Definition on_contacts (x : session * W) : Prop := P (contacts x.1).

Lemma in_world_contacts {A} (m : stM W CoreError A) : preserves on_contacts (in_world m).
Proof. intros [s w] Hx. unfold post, in_world. cbn. destruct (m w) as [w' r]. exact Hx. Qed.

Lemma on_install_contacts {A} (m : stM Installation CoreError A) : preserves on_contacts (on_install m).
Proof. intros [s w] Hx. unfold post, on_install. cbn. destruct (m (install s)) as [i' r]. exact Hx. Qed.

Lemma ses_contacts : preserves on_contacts (ses : cm session).
Proof. intros x Hx. exact Hx. Qed.

Lemma attempt_contacts {A} (m : cm A) : preserves on_contacts m -> preserves on_contacts (attempt_call m).
Proof. intros Hm x Hx. specialize (Hm x Hx). unfold post, attempt_call in *. by destruct (m x) as [x' r]. Qed.

Lemma set_ses_contacts (f : session -> session) :
  (forall s, P (contacts s) -> P (contacts (f s))) -> preserves on_contacts (set_ses f : cm unit).
Proof. intros Hf [s w] Hx. unfold post, set_ses, modify. cbn. by apply Hf. Qed.

#[local] Hint Resolve in_world_contacts on_install_contacts ses_contacts : walk.

(** Walks through a method that touches no contact. *)
Local Ltac cwalk known :=
  repeat first
  [ progress walk ltac:(known)
  | match goal with
    | |- preserves _ (ignore _) => unfold ignore
    | |- preserves _ (attempt_call _) => apply attempt_contacts
    | |- preserves _ (set_ses _) => apply set_ses_contacts; let H := fresh in intros ? H; exact H
    | |- preserves _ (for_each _ _) => apply preserves_for_each; intros ?
    end ].

Notation kept := (preserves on_contacts).

Lemma home_call_contacts req : kept (home_call req : cm _).
Proof. unfold home_call. cwalk fail. Qed.

Lemma owner_post_contacts path l : kept (owner_post path l : cm _).
Proof. unfold owner_post, owner_header. cwalk ltac:(apply home_call_contacts). Qed.

Lemma call_on_contacts origin req : kept (call_on origin req : cm _).
Proof. unfold call_on. cwalk ltac:(apply home_call_contacts). Qed.

Lemma call_group_contacts gid req : kept (call_group gid req : cm _).
Proof. unfold call_group. cwalk ltac:(apply home_call_contacts). Qed.

Lemma discovery_at_contacts origin id : kept (discovery_at origin id : cm _).
Proof. unfold discovery_at. cwalk ltac:(apply call_on_contacts). Qed.

Lemma fetch_prekey_at_contacts origin tok : kept (fetch_prekey_at origin tok : cm _).
Proof. unfold fetch_prekey_at. cwalk ltac:(apply call_on_contacts). Qed.

Lemma publish_contacts : kept (client_publish_prekey : cm _).
Proof. unfold client_publish_prekey. cwalk ltac:(apply owner_post_contacts). Qed.

Lemma publish_while_contacts fuel cond n : kept (publish_while fuel cond n : cm _).
Proof.
  revert n. induction fuel as [|fuel IH]; intros n; cbn [publish_while]; cwalk ltac:(first [apply publish_contacts | apply IH]).
Qed.

Lemma restock_publish_contacts : kept (restock_publish : cm _).
Proof. unfold restock_publish, rotate_if_due. cwalk ltac:(apply publish_while_contacts). Qed.

Lemma restock_upto_contacts n : kept (restock_publish_upto n : cm _).
Proof. unfold restock_publish_upto, rotate_if_due. cwalk ltac:(apply publish_while_contacts). Qed.

Lemma mint_token_contacts path : kept (client_mint_token path : cm _).
Proof. unfold client_mint_token. cwalk ltac:(apply owner_post_contacts). Qed.

Lemma rehome_contacts t base nw : kept (rehome t base nw : cm _).
Proof.
  unfold rehome, rehome_group, client_mint_contact.
  cwalk ltac:(first [apply restock_publish_contacts | apply mint_token_contacts]).
Qed.

Lemma post_one_contacts o cover : kept (post_one_envelope o cover : cm _).
Proof. unfold post_one_envelope. cwalk ltac:(apply owner_post_contacts). Qed.

Lemma post_batch_contacts batch last : kept (post_batch batch last : cm _).
Proof. revert last. induction batch as [|o batch IH]; intros last; cbn [post_batch]; cwalk ltac:(first [apply post_one_contacts | apply IH]). Qed.

Lemma flush_contacts : kept (flush_private_outbox : cm _).
Proof. unfold flush_private_outbox. cwalk ltac:(apply post_batch_contacts). Qed.

Lemma post_envelope_contacts o batch : kept (post_envelope_maybe_batch o batch : cm _).
Proof. unfold post_envelope_maybe_batch. cwalk ltac:(first [apply flush_contacts | apply post_one_contacts]). Qed.

Lemma set_privacy_contacts mode : kept (set_privacy mode : cm _).
Proof. unfold set_privacy. cwalk fail. Qed.

Lemma pump_cover_contacts : kept (pump_cover : cm _).
Proof. unfold pump_cover. cwalk ltac:(apply post_one_contacts). Qed.

Lemma fetch_contacts : kept (fetch_mailbox : cm _).
Proof.
  unfold fetch_mailbox, mailbox_body_auth. cwalk ltac:(apply home_call_contacts).
  apply set_ses_contacts. intros s Hs. by destruct (last _).
Qed.

Lemma ack_contacts : kept (client_ack : cm _).
Proof. unfold client_ack, mailbox_body_auth. cwalk ltac:(apply home_call_contacts). Qed.

Lemma open_rows_contacts rows peers opened : kept (open_rows rows peers opened : cm _).
Proof. revert opened. induction rows as [|r rows IH]; intros opened; cbn [open_rows]; cwalk ltac:(apply IH). Qed.

Lemma ingest_contacts : kept (ingest_mailbox : cm _).
Proof. unfold ingest_mailbox. cwalk ltac:(first [apply fetch_contacts | apply open_rows_contacts | apply ack_contacts]). Qed.

Lemma pin_refresh_refines d nw c p' b cap hpke o :
  pin_refresh d nw (contact_pin c) = (p', Ok b) -> refined c (mk_contact p' cap hpke nw (revoked c) o).
Proof.
  unfold pin_refresh, mbind, stM_bind, lift, get. destruct (disc_verify d nw); [|done].
  case_bool_decide; cbn [negb]; [|done]. destruct (check_not_revoked d); [|done]. case_cond; [done|].
  unfold modify, mret, stM_ret. intros; simplify_eq. done.
Qed.

Lemma refresh_contacts peer nw : kept (refresh_contact peer nw : cm _).
Proof.
  unfold refresh_contact. do 3 (apply preserves_bind; [first [apply ses_contacts | apply discovery_at_contacts | auto with walk]|intros ?]).
  intros [s w] Hx. unfold post, mbind, stM_bind, ses, gets, get. cbn [fst]. destruct (contacts s !! peer) as [c|] eqn:Hc; [|exact Hx].
  destruct (d_revocation a0).
  - unfold set_ses, modify, throw. cbn. by apply (P_refined _ _ c).
  - destruct (pin_refresh a0 nw (contact_pin c)) as [p' [b|e]] eqn:Hp; unfold lift; [|exact Hx].
    unfold set_ses, modify. cbn. apply (P_refined _ _ c); [done | done | by eapply pin_refresh_refines].
Qed.

Lemma refresh_idle_contacts own peers nw newly : kept (refresh_idle_loop own peers nw newly : cm _).
Proof.
  revert newly. induction peers as [|id peers IH]; intros newly; cbn [refresh_idle_loop];
    cwalk ltac:(first [apply refresh_contacts | apply IH]).
Qed.

Lemma check_discovery_contacts id nw : kept (check_discovery_not_revoked id nw : cm _).
Proof. unfold check_discovery_not_revoked. cwalk ltac:(apply discovery_at_contacts). Qed.

Lemma refresh_mls_contacts ids nw : kept (refresh_mls_identities ids nw : cm _).
Proof.
  induction ids as [|id ids IH]; cbn [refresh_mls_identities];
    cwalk ltac:(first [apply refresh_contacts | apply check_discovery_contacts | apply IH]).
Qed.

Lemma send_contacts mt batch peer ttl pt nw : kept (send_with mt batch peer ttl pt nw : cm _).
Proof. unfold send_with, sendable_contact. cwalk ltac:(first [apply refresh_contacts | apply post_envelope_contacts]). Qed.

(** Every operation but the last two keeps such a predicate. *)
Definition learns_contact (op : session_op) : bool :=
  match op with AddContact _ _ _ | ApplyCapability _ _ _ _ => true | _ => false end.

Lemma exec_contacts op : learns_contact op = false -> kept (session_exec op : cm _).
Proof.
  intros Hl. destruct op as [| | | | | | | | | | | | | |[]| | | | | | | | | | | | | | | | | |]; try discriminate Hl; cbn [session_exec];
    unfold force_cover_now, refresh_idle_discovery, identity_is_revoked, client_mint_contact, mint_share_card, client_mint_share,
      client_submit_revocation, client_issue_turn, client_create_group, remember_group, client_group_append, client_store_invite,
      client_accept_invite, client_lookup_pending, client_admit, client_refresh_fanout, client_upload_file, client_fetch_file;
    cwalk ltac:(first [apply set_privacy_contacts | apply pump_cover_contacts | apply refresh_contacts | apply refresh_idle_contacts
      | apply refresh_mls_contacts | apply check_discovery_contacts | apply send_contacts | apply post_envelope_contacts
      | apply flush_contacts | apply ingest_contacts | apply fetch_contacts | apply ack_contacts | apply restock_publish_contacts
      | apply restock_upto_contacts | apply publish_contacts | apply mint_token_contacts | apply home_call_contacts
      | apply owner_post_contacts | apply rehome_contacts | apply call_group_contacts]).
Qed.
End Predicate.

#[local] Hint Resolve in_world_contacts on_install_contacts ses_contacts : walk.

(** ** Contacts filed under the pinned key *)

Definition certified (cs : gmap key StoredContact) : Prop :=
  forall id c, cs !! id = Some c ->
    pin_identity_id (contact_pin c) = id /\ identity_id (pin_identity_public_key (contact_pin c)) = id.

Lemma certified_insert cs id c :
  certified cs -> pin_identity_id (contact_pin c) = id -> identity_id (pin_identity_public_key (contact_pin c)) = id ->
  certified (<[id := c]> cs).
Proof. intros Hc Hp1 Hp2 id' c' [[<- <-]|[_ Hl]]%lookup_insert_Some; [done | by apply Hc]. Qed.

Lemma certified_delete cs id : certified cs -> certified (delete id cs).
Proof. intros Hc id' c' [_ Hl]%lookup_delete_Some. by apply Hc. Qed.

Lemma certified_refined cs id c c' : certified cs -> cs !! id = Some c -> refined c c' -> certified (<[id := c']> cs).
Proof. intros Hc Hl (Hr1 & Hr2 & _). destruct (Hc _ _ Hl). apply certified_insert; [done | congruence | congruence]. Qed.

Lemma add_contact_certified card cap nw : preserves (on_contacts certified) (add_contact card cap nw : cm _).
Proof.
  unfold add_contact.
  walk ltac:(first [apply discovery_at_contacts | apply fetch_prekey_at_contacts]).
  apply set_ses_contacts. intros s Hs. cbn. by apply certified_insert.
Qed.

(** A message under the session of [peer] that names another identity while
    [peer] is a contact and the named identity is not. *)
Definition misfiles (cs : gmap key StoredContact) (op : session_op) : Prop :=
  match op with
  | ApplyCapability peer _ (Some intro) _ =>
      peer <> intro_identity_id intro /\ is_Some (cs !! peer) /\ cs !! intro_identity_id intro = None
  | _ => False
  end.

Lemma intro_certified i peer cap intro :
  verify_capability_intro i peer cap intro = Ok tt ->
  identity_id (intro_identity_public_key intro) = intro_identity_id intro.
Proof.
  unfold verify_capability_intro, intro_verify. case_bool_decide; cbn [negb]; [|done]. by case_bool_decide.
Qed.

Lemma move_contact_certified cs peer real :
  certified cs -> (peer <> real -> is_Some (cs !! peer) -> is_Some (cs !! real)) ->
  peer <> real -> certified (move_contact peer real cs).
Proof.
  intros Hc Hok Hne. unfold move_contact. destruct (cs !! peer) as [prev|] eqn:Hp; [|done].
  rewrite lookup_delete_ne by done. destruct (Hok Hne) as [c Hr]; [done|]. rewrite Hr. by apply certified_delete.
Qed.

Lemma apply_capability_certified peer cap intro nw (x : session * W) :
  on_contacts certified x -> ~ misfiles (contacts x.1) (ApplyCapability peer cap intro nw) ->
  post (apply_contact_capability peer cap intro nw) x (fun _ => on_contacts certified).
Proof.
  destruct x as [s w]. unfold on_contacts. cbn [fst misfiles]. intros Hc Hm. unfold apply_contact_capability, post, mbind, stM_bind, ses, gets, get.
  destruct intro as [intro|]; cbn [fst].
  2: { destruct (contacts s !! peer) as [c|] eqn:Hl; [|exact Hc]. cbn. by apply (certified_refined _ _ c). }
  unfold lift. destruct (verify_capability_intro (install s) peer cap intro) as [[]|] eqn:Hv; [|exact Hc].
  apply intro_certified in Hv. set (real := intro_identity_id intro) in *.
  assert (forall s2 : session, certified (contacts s2) ->
    certified (contacts ((
      '(origin, rpk, sq) ← lift (match contacts s2 !! real with
        | Some c => if negb (bool_decide (pin_identity_public_key (contact_pin c) = intro_identity_public_key intro))
                    then Err IdentityMismatch
                    else Ok (home_origin c, pin_revocation_public_key (contact_pin c), N.max (pin_seq (contact_pin c)) (intro_binding_seq intro))
        | None => Ok (lit "", intro_revocation_public_key intro, intro_binding_seq intro)
        end);
      set_ses (fun s => s <| contacts ::= <[real :=
        mk_contact (mk_pin real (intro_identity_public_key intro) rpk sq) cap (intro_dest_hpke intro) nw false origin]> |>);;
      mret real) (s2, w)).1.1)) as Hend.
  { intros s2 Hs2. unfold mbind, stM_bind, lift. destruct (match contacts s2 !! real with Some _ => _ | None => _ end) as [[[o rpk] sq]|];
      [|exact Hs2]. cbn. by apply certified_insert. }
  case_bool_decide as Hpeer; cbn [negb].
  - apply (Hend s Hc).
  - destruct (match peer_session_identity_key (install s) real with Some _ => _ | None => _ end) as [[]|]; [|exact Hc].
    apply (Hend (s <| install ::= rematerialize_peer peer real |> <| contacts ::= move_contact peer real |>)).
    cbn. apply move_contact_certified; [done | | done]. intros _ Hp. destruct (contacts s !! real) eqn:Hr; [done|].
    exfalso. apply Hm. done.
Qed.

Lemma exec_certified op (x : session * W) :
  on_contacts certified x -> ~ misfiles (contacts x.1) op -> on_contacts certified (session_exec op x).1.
Proof.
  intros Hc Hm. destruct (learns_contact op) eqn:Hl.
  - destruct op; try discriminate Hl; cbn [session_exec].
    + exact (add_contact_certified card cap now_unix x Hc).
    + pose proof (apply_capability_certified session_peer cap intro now_unix x Hc Hm) as Hp. unfold post in Hp.
      unfold ignore, mbind, stM_bind. by destruct (apply_contact_capability _ _ _ _ x) as [x' []].
  - exact (exec_contacts certified certified_refined op Hl x Hc).
Qed.

(** Runs in which no step misfiles a contact. *)
Fixpoint well_filed (ops : list session_op) (x : session * W) : Prop :=
  match ops with
  | [] => True
  | op :: ops => ~ misfiles (contacts x.1) op /\ well_filed ops (session_exec op x).1
  end.

(** C33. Whatever a session does, each of its contacts is filed under the hash of
    the identity key pinned for it: refreshing, sending, receiving, moving to
    another home and learning addresses keep this, whatever servers and peers
    answer, as long as no peer that is a contact introduces itself as an identity
    that is not one. *)
Theorem contacts_stay_certified ops (s : session) (w : W) :
  certified (contacts s) -> well_filed ops (s, w) -> certified (contacts (session_run ops (s, w)).1).
Proof.
  change (certified (contacts s)) with (on_contacts certified (s, w)).
  change (on_contacts certified (s, w) -> well_filed ops (s, w) -> on_contacts certified (session_run ops (s, w))).
  generalize (s, w). clear s w. induction ops as [|op ops IH]; intros x Hc Hw; [done|].
  destruct Hw as [Hm Hw]. apply (IH _ (exec_certified op x Hc Hm) Hw).
Qed.

(** The remaining case: a contact whose session introduces itself as an
    identity that is not a contact. The call fails with [IdentityMismatch] after
    the session and the contact were moved, so the contact is left under the
    other identity with the pin of the old one. *)
Theorem introduction_misfiles_contact (s : session) (w : W) peer cap intro nw c :
  let real := intro_identity_id intro in
  certified (contacts s) -> contacts s !! peer = Some c -> contacts s !! real = None -> peer <> real ->
  verify_capability_intro (install s) peer cap intro = Ok tt ->
  (forall k, peer_session_identity_key (install s) real = Some k -> k = session_key intro) ->
  exists s', apply_contact_capability peer cap (Some intro) nw (s, w) = ((s', w), Err IdentityMismatch)
    /\ contacts s' = <[real := c]> (delete peer (contacts s)) /\ ~ certified (contacts s').
Proof.
  intros real Hc Hp Hr Hne Hv Hk. destruct (Hc _ _ Hp) as [Hpin Hid]. pose proof (intro_certified _ _ _ _ Hv) as Hi.
  exists (s <| install ::= rematerialize_peer peer real |> <| contacts ::= move_contact peer real |>).
  assert (move_contact peer real (contacts s) = <[real := c]> (delete peer (contacts s))) as Hm.
  { unfold move_contact. by rewrite Hp, lookup_delete_ne, Hr by done. }
  assert (contacts (s <| install ::= rematerialize_peer peer real |> <| contacts ::= move_contact peer real |>)
          = <[real := c]> (delete peer (contacts s))) as Hcs by exact Hm.
  split; [|split; [done|]].
  - unfold apply_contact_capability, mbind, stM_bind, ses, gets, get, lift. cbn [fst]. rewrite Hv. fold real.
    rewrite bool_decide_eq_false_2 by done. cbn [negb].
    assert (match peer_session_identity_key (install s) real with
            | Some existing => ensure (bool_decide (existing = session_key intro)) IdentityMismatch
            | None => Ok tt
            end = Ok tt) as ->.
    { destruct (peer_session_identity_key (install s) real) as [k|]; [|done]. rewrite (Hk k eq_refl). by rewrite bool_decide_eq_true_2. }
    unfold set_ses at 1, modify at 1. cbn [fst].
    rewrite Hcs, lookup_insert_eq, bool_decide_eq_false_2; [done|]. intros He. apply Hne. unfold real. congruence.
  - rewrite Hcs. intros Hbad. destruct (Hbad real c) as [Hb _]; [apply lookup_insert_eq|]. congruence.
Qed.

(** ** Revoked contacts *)

Definition is_revoked (peer : key) (cs : gmap key StoredContact) : Prop :=
  exists c, cs !! peer = Some c /\ revoked c = true.

Lemma revoked_refined peer cs id c c' : is_revoked peer cs -> cs !! id = Some c -> refined c c' -> is_revoked peer (<[id := c']> cs).
Proof.
  intros (c0 & Hl & Hr) Hid (_ & _ & Href). destruct (decide (id = peer)) as [->|Hne].
  - exists c'. rewrite lookup_insert_eq. split; [done|]. apply Href. congruence.
  - exists c0. by rewrite lookup_insert_ne.
Qed.

(** The operations that do not learn a new address of [peer]. *)
Definition spares (peer : key) (op : session_op) : Prop :=
  match op with
  | AddContact card _ _ => card_identity_id card <> peer
  | ApplyCapability session_peer _ (Some intro) _ => session_peer <> peer /\ intro_identity_id intro <> peer
  | _ => True
  end.

Lemma add_contact_revoked peer card cap nw :
  card_identity_id card <> peer -> preserves (on_contacts (is_revoked peer)) (add_contact card cap nw : cm _).
Proof.
  intros Hne. unfold add_contact. walk ltac:(first [apply discovery_at_contacts | apply fetch_prekey_at_contacts]).
  apply set_ses_contacts. intros s (c & Hl & Hr). exists c. cbn. by rewrite lookup_insert_ne.
Qed.

Lemma move_contact_other peer from to cs : from <> peer -> to <> peer -> move_contact from to cs !! peer = cs !! peer.
Proof.
  intros Hf Ht. unfold move_contact. destruct (cs !! from); [|done]. destruct (delete from cs !! to).
  - by rewrite lookup_delete_ne.
  - by rewrite lookup_insert_ne, lookup_delete_ne.
Qed.

Lemma apply_capability_revoked peer sp cap intro nw :
  spares peer (ApplyCapability sp cap intro nw) ->
  preserves (on_contacts (is_revoked peer)) (apply_contact_capability sp cap intro nw : cm _).
Proof.
  intros Hs. unfold apply_contact_capability. destruct intro as [intro|].
  - destruct Hs as [Hsp Hid].
    walk ltac:(apply set_ses_contacts; intros s (c & Hl & Hr); exists c; cbn;
      rewrite ?move_contact_other, ?lookup_insert_ne by done; done).
  - intros [s w] Hx. unfold post, mbind, stM_bind, ses, gets, get. cbn [fst].
    destruct (contacts s !! sp) as [c|] eqn:Hc; [|exact Hx]. cbn. by apply (revoked_refined _ _ _ c).
Qed.

Lemma exec_revoked peer op : spares peer op -> preserves (on_contacts (is_revoked peer)) (session_exec op : cm _).
Proof.
  intros Hs. destruct (learns_contact op) eqn:Hl; [|exact (exec_contacts _ (revoked_refined peer) op Hl)].
  destruct op; try discriminate Hl; cbn [session_exec]; [by apply add_contact_revoked|].
  unfold ignore. walk ltac:(by apply apply_capability_revoked).
Qed.

(** C34. A revoked contact is sent nothing: after any operations that do not learn
    a new address for it, a send in its name is refused before anything is
    encrypted, drawn or posted. *)
Theorem revoked_contact_gets_nothing ops (s : session) (w : W) peer c mt batch ttl pt nw :
  contacts s !! peer = Some c -> revoked c = true -> Forall (spares peer) ops ->
  let x := session_run ops (s, w) in
  send_with mt batch peer ttl pt nw x = (x, Err Revoked).
Proof.
  intros Hl Hr Hs. assert (on_contacts (is_revoked peer) (session_run ops (s, w))) as (c' & Hl' & Hr').
  { assert (on_contacts (is_revoked peer) (s, w)) as Hx by by exists c. revert Hx. generalize (s, w). clear s w Hl.
    induction Hs as [|op ops Hop _ IH]; intros x Hx; [done|]. apply IH. exact (exec_revoked peer op Hop x Hx). }
  cbv zeta. destruct (session_run ops (s, w)) as [s' w'].
  unfold send_with, sendable_contact, mbind, stM_bind, ses, gets, get. cbn [fst] in *. by rewrite Hl', Hr'.
Qed.

(** A revoked contact that introduces itself again over its session is no
    longer revoked: an accepted introduction stores the contact anew with
    [revoked] false and the present time as its last discovery. *)
Theorem introduction_clears_revocation (s s' : session) (w w' : W) peer cap intro nw real :
  apply_contact_capability peer cap (Some intro) nw (s, w) = ((s', w'), Ok real) ->
  real = intro_identity_id intro /\ exists c, contacts s' !! real = Some c /\ revoked c = false
    /\ last_discovery_unix c = nw /\ contact_capability c = cap.
Proof.
  unfold apply_contact_capability. intros Ha. apply stM_bind_ok in Ha as (? & ? & _ & Ha).
  apply stM_bind_ok in Ha as (? & ? & _ & Ha). apply stM_bind_ok in Ha as (? & ? & _ & Ha).
  apply stM_bind_ok in Ha as (? & ? & _ & Ha). apply stM_bind_ok in Ha as ([s4 w4] & [[o rpk] sq] & _ & Ha).
  apply stM_bind_ok in Ha as ([s5 w5] & ? & Hset & Ha). unfold set_ses, modify, mret, stM_ret in *.
  injection Ha as <- <- <-. injection Hset as <- <- _. split; [done|].
  eexists. split; [cbn; apply lookup_insert_eq | done].
Qed.
End Steps.

(** ** Witnesses *)

Section Witnesses.
#[local] Existing Instances Toy.toy Toy.toy_laws ToySignal.types ToySignal.types_laws ToySignal.ops ToySignal.ops_laws ToySignal.mls.
#[local] Existing Instances plain_axum plain_axum_laws plain_turn.

(** The installation that has heard from the sample sender, under its provisional
    address and under the address of a contact. *)
Definition met_key : key := arr_repeat 32 x0d.
Definition met_id : key := identity_id met_key.
Definition met_install : Installation :=
  (decrypt met_id (x01 :: replicate 32 x0a ++ [x68; x69; xff]) (arr_repeat 32 x00) sample_receiver).1.

Definition met_contact (r : bool) : StoredContact :=
  mk_contact (mk_pin met_id met_key (arr_repeat 32 x0e) 1) (arr_repeat 32 x01) (arr_repeat 32 x02) 1700000000 r (lit "").

Definition met_session (cs : gmap key StoredContact) : HomeSession unit :=
  mk_hsession tt met_install (bundle polled_home) 0 cs [] (lit "") Normal [] 0 0.

Definition met_intro : CapabilityIntro :=
  match sign_capability_intro sample_sender (own_id met_install) (arr_repeat 32 x31) (arr_repeat 32 x32) with
  | Ok i => i
  | Err _ => mk_intro met_id met_id met_id met_id 0 [] met_id (arr_repeat 64 x00)
  end.

Lemma met_certified r : certified {[met_id := met_contact r]}.
Proof. intros id c [<- <-]%lookup_singleton_Some. done. Qed.

Example contacts_stay_certified_witness :
  certified (contacts (session_run [ApplyCapability sample_provisional (arr_repeat 32 x31) (Some met_intro) 1700000100;
                                    SendWith DoubleRatchet true (own_id sample_sender) TTL_DAY [x68] 1700000100;
                                    RefreshIdle 1800000000; Ingest]
                                   (met_session {[met_id := met_contact false]}, polled_world)).1).
Proof.
  apply contacts_stay_certified; [exact (met_certified false)|].
  split; [|split; [intros []|split; [intros []|split; [intros []|exact I]]]].
  intros (_ & Hs & _). assert (bool_decide (is_Some (({[met_id := met_contact false]} : gmap key StoredContact) !! sample_provisional)) = false)
    as Hb by (vm_compute; reflexivity). exact (bool_decide_eq_false_1 _ Hb Hs).
Defined.

Example introduction_misfiles_contact_witness :
  exists s', apply_contact_capability met_id (arr_repeat 32 x31) (Some met_intro) 1700000100
      (met_session {[met_id := met_contact false]}, polled_world) = ((s', polled_world), Err IdentityMismatch)
    /\ ~ certified (contacts s').
Proof.
  destruct (introduction_misfiles_contact (met_session {[met_id := met_contact false]}) polled_world met_id (arr_repeat 32 x31)
    met_intro 1700000100 (met_contact false) (met_certified false)) as (s' & Ha & _ & Hc).
  - apply lookup_singleton_eq.
  - apply (bool_decide_eq_true_1 _). vm_compute. reflexivity.
  - apply (bool_decide_eq_true_1 _). vm_compute. reflexivity.
  - vm_compute. reflexivity.
  - change (forall k, peer_session_identity_key met_install (intro_identity_id met_intro) = Some k -> k = session_key met_intro).
    intros k. replace (peer_session_identity_key met_install (intro_identity_id met_intro)) with (Some (session_key met_intro))
      by (vm_compute; reflexivity). intros [= <-]. reflexivity.
  - exists s'. exact (conj Ha Hc).
Defined.

Example revoked_contact_gets_nothing_witness :
  let x := session_run [RefreshIdle 1800000000; AddContact sample_card (arr_repeat 32 x31) 1700000100; Ingest; Restock None]
             (met_session {[met_id := met_contact true]}, polled_world) in
  send_with DoubleRatchet true met_id TTL_DAY [x68] 1800000000 x = (x, Err Revoked).
Proof.
  apply (revoked_contact_gets_nothing [RefreshIdle 1800000000; AddContact sample_card (arr_repeat 32 x31) 1700000100; Ingest; Restock None]
    (met_session {[met_id := met_contact true]}) polled_world met_id (met_contact true));
    [apply lookup_singleton_eq | reflexivity |].
  constructor; [exact I|]. constructor; [apply (bool_decide_eq_true_1 (card_identity_id sample_card <> met_id)); vm_compute; reflexivity|].
  constructor; [exact I|]. constructor; [exact I|]. constructor.
Defined.

Definition sender_contact : StoredContact :=
  mk_contact (mk_pin (own_id sample_sender) (identity_public_key sample_sender) (arr_repeat 32 x0e) 1) (arr_repeat 32 x01)
    (arr_repeat 32 x02) 1700000000 true (lit "").

Example introduction_clears_revocation_witness :
  exists x' c, apply_contact_capability sample_provisional (arr_repeat 32 x31) (Some met_intro) 1700000100
      (met_session {[own_id sample_sender := sender_contact]}, polled_world) = (x', Ok (own_id sample_sender))
    /\ contacts x'.1 !! own_id sample_sender = Some c /\ revoked c = false.
Proof.
  destruct (apply_contact_capability sample_provisional (arr_repeat 32 x31) (Some met_intro) 1700000100
      (met_session {[own_id sample_sender := sender_contact]}, polled_world)) as [[s' w'] r] eqn:E.
  assert (is_ok r = true) as Hok.
  { change r with ((s', w', r).2). rewrite <- E. vm_compute. reflexivity. }
  destruct r as [real|]; [|discriminate Hok].
  destruct (introduction_clears_revocation _ _ _ _ _ _ _ _ _ E) as (Hr & c & Hc & Hrev & _).
  assert (real = own_id sample_sender) as Hreal by (rewrite Hr; vm_compute; reflexivity).
  exists (s', w'), c. rewrite <- Hreal. exact (conj eq_refl (conj Hc Hrev)).
Defined.
End Witnesses.
