(* ===== verification/SessionCalls.v ===== *)
(** * Calls of a session

    What an accepted answer proves, how publishing prekeys ends, and what is lost
    when a call fails or a server answers for somebody else. *)

From S2P Require Export SessionOps.
From S2P Require Import HomeProps HttpProps InstallProps Toy ToySignal SessionProps SessionContacts.

Section Calls.
Context `{CryptoLaws} `{SignalOps} `{OpenMls}.
Context {T W : Type} `{HomeTransport T W} `{Platform W}.

Notation session := (HomeSession T).
Notation cm := (stM (session * W) CoreError).

(** ** Signed answers *)

Lemma verify_signed_ok b nonce res :
  verify_signed_response b nonce res = Ok tt ->
  exists sg pk, vk_from_bytes (bundle_sign_public_key b) = Some pk
    /\ verify_response pk nonce (cs_status res) (cs_body res) sg = Ok tt.
Proof.
  unfold verify_signed_response. intros Hv. apply result_bind_ok in Hv as (hex & _ & Hv).
  apply result_bind_ok in Hv as (l & _ & Hv). apply result_bind_ok in Hv as (sg & _ & Hv).
  apply result_bind_ok in Hv as (pk & Hpk & Hv). destruct (vk_from_bytes _) as [pk'|]; [|done]. injection Hpk as <-.
  exists sg, pk'. split; [done|]. by destruct (verify_response _ _ _ _ _) as [[]|].
Qed.

(** C35. An answer that a signed call accepts carries a signature of the server
    whose bundle the client holds, over a message that fixes the nonce drawn for
    this very request, the status and the body: a recorded answer to another
    request, or with another status or body, is a different message. *)
Theorem signed_call_authentic t b req (w w' : W) res :
  signed_call t b req w = (w', Ok res) ->
  exists w1 nonce pk sg msg,
    random_key w = (w1, nonce)
    /\ t_call t (mk_creq (cq_method req) (cq_path req) (cq_headers req ++ [(NONCE_HEADER, to_hex (to_vec nonce))]) (cq_body req)) w1
       = (w', Ok res)
    /\ vk_from_bytes (bundle_sign_public_key b) = Some pk /\ ed_verify pk msg sg = true
    /\ Sign.message Sign.SERVER_RESPONSE (response_payload nonce (cs_status res) (cs_body res)) = Ok msg
    /\ forall ctx n2 st2 l2, ctx ∈ Sign.contexts -> cs_status res <= U64_MAX -> st2 <= U64_MAX ->
         Sign.message ctx (response_payload n2 st2 l2) = Ok msg ->
         ctx = Sign.SERVER_RESPONSE /\ n2 = nonce /\ st2 = cs_status res /\ (l2 = cs_body res \/ collision).
Proof.
  unfold signed_call, draw, transport_call, mbind, stM_bind, lift. destruct (random_key w) as [w1 nonce].
  destruct (t_call t _ w1) as [w2 [r|e]] eqn:Hc; [|done]. destruct (verify_signed_response b nonce r) as [[]|] eqn:Hv; [|done].
  unfold mret, stM_ret. intros [= -> ->]. destruct (verify_signed_ok _ _ _ Hv) as (sg & pk & Hpk & Hr).
  unfold verify_response, Sign.verify in Hr. destruct (Sign.message _ _) as [msg|] eqn:Hmsg; [|done]. cbn in Hr.
  destruct (ed_verify pk msg sg) eqn:He; [|done]. exists w1, nonce, pk, sg, msg. split_and!; try done.
  intros ctx n2 st2 l2 Hctx Hst Hst2 Hm2.
  destruct (Sign.message_contexts_inj _ _ _ _ _ Hctx response_context Hm2 Hmsg) as [-> Heq].
  apply response_payload_inj in Heq as (-> & -> & Hl); [|done|done]. done.
Qed.

(** ** Publishing prekeys *)

Definition at_session (s0 : session) (x : session * W) : Prop := x.1 = s0.

Lemma in_world_session {A} s0 (m : stM W CoreError A) : preserves (at_session s0) (in_world m).
Proof. intros [s w] Hx. unfold post, in_world. cbn. by destruct (m w). Qed.

Lemma ses_session s0 : preserves (at_session s0) (ses : cm session).
Proof. intros x Hx. exact Hx. Qed.

#[local] Hint Resolve in_world_session ses_session : walk.

Lemma owner_post_session s0 path l : preserves (at_session s0) (owner_post path l : cm _).
Proof. unfold owner_post, owner_header, home_call. walk fail. Qed.

Lemma draw_spec {A} (f : W -> W * A) (x x' : session * W) r :
  in_world (draw f) x = (x', r) -> x'.1 = x.1 /\ exists a, r = Ok a.
Proof. unfold in_world, draw. destruct (f x.2) as [w a]. intros; simplify_eq. eauto. Qed.

(** Whether it succeeds or fails, publishing leaves one more prekey in stock. *)
Lemma publish_mints (x x' : session * W) r :
  client_publish_prekey x = (x', r) -> exists s1 s2, install x'.1 = (mint_prekey s1 s2 (install x.1)).1.
Proof.
  unfold client_publish_prekey, mbind, stM_bind.
  destruct (in_world (draw random_key) x) as [x1 r1] eqn:E1. apply draw_spec in E1 as [Hx1 [s1 ->]].
  destruct (in_world (draw random_key) x1) as [x2 r2] eqn:E2. apply draw_spec in E2 as [Hx2 [s2 ->]].
  unfold on_install at 1. rewrite Hx2, Hx1. destruct (mint_prekey s1 s2 (install x.1)) as [i' [blob|e]] eqn:Em.
  - pose proof (owner_post_session (x.1 <| install := i' |>) (lit "/v1/prekeys") (prekey_encode blob) (x.1 <| install := i' |>, x2.2) eq_refl) as Hp.
    unfold post, at_session in Hp. intros Hr. exists s1, s2. rewrite Em. cbn [fst] in *.
    destruct (owner_post _ _ _) as [x3 [res|e]]; cbn [fst] in Hp; injection Hr as <- _; by rewrite Hp.
  - intros; simplify_eq. exists s1, s2. by rewrite Em.
Qed.

(** The loop with fuel for the missing prekeys behaves like one with more. *)
Lemma publish_while_fuel (target : N) fuel extra n (x : session * W) :
  prekeys_fresh (install x.1) -> next_pre_key_id (install x.1) + N.of_nat fuel <= U32_MAX ->
  target <= unused_one_time_prekeys (install x.1) + N.of_nat fuel ->
  let cond := fun i => unused_one_time_prekeys i <? target in
  publish_while (fuel + extra) cond n x = publish_while fuel cond n x
  /\ forall x' m, publish_while fuel cond n x = (x', Ok m) ->
       target <= unused_one_time_prekeys (install x'.1) /\ m = n + (target - unused_one_time_prekeys (install x.1)).
Proof.
  cbv zeta. revert n x. induction fuel as [|fuel IH]; intros n x Hf Hmax Ht.
  - assert (unused_one_time_prekeys (install x.1) <? target = false) as Hc by (apply N.ltb_ge; lia).
    split; [destruct extra|]; cbn [Nat.add publish_while]; unfold mbind, stM_bind, ses, gets, get; rewrite ?Hc; [done..|].
    unfold mret, stM_ret. intros x' m [= <- <-]. split; lia.
  - cbn [Nat.add publish_while]. unfold mbind, stM_bind, ses, gets, get.
    destruct (N.ltb_spec (unused_one_time_prekeys (install x.1)) target) as [Hlt|Hge].
    + destruct (client_publish_prekey x) as [x1 [[]|e]] eqn:Hp; [|done]. apply publish_mints in Hp as (s1 & s2 & Hi).
      destruct (mint_prekey_stock s1 s2 (install x.1)) as (Hn & Hs & _). rewrite <- Hi in Hn, Hs.
      destruct (fresh_insert _ _ _ Hf ltac:(lia) Hn Hs) as (Hf1 & Hn1 & Hu1).
      destruct (IH (n + 1) x1 Hf1 ltac:(lia) ltac:(lia)) as [-> Hok]. split; [done|].
      intros x' m Hr. apply Hok in Hr as [? ->]. split; [done | lia].
    + split; [done|]. unfold mret, stM_ret. intros x' m [= <- <-]. split; lia.
Qed.

Lemma rotate_keeps_stock nw ms s1 s2 i :
  let i' := (maybe_rotate_signed_prekey nw ms s1 s2 i).1 in
  pre_key_store (store i') = pre_key_store (store i) /\ next_pre_key_id i' = next_pre_key_id i.
Proof.
  unfold maybe_rotate_signed_prekey, rotate_signed_prekey, mbind, stM_bind, get, modify, lift. case_cond; [done|].
  by destruct (ok_or _ _).
Qed.

Lemma rotate_if_due_stock (x x' : session * W) r :
  rotate_if_due x = (x', r) ->
  pre_key_store (store (install x'.1)) = pre_key_store (store (install x.1))
  /\ next_pre_key_id (install x'.1) = next_pre_key_id (install x.1).
Proof.
  unfold rotate_if_due, mbind, stM_bind.
  destruct (in_world (draw clock_unix) x) as [x1 r1] eqn:E1. apply draw_spec in E1 as [Hx1 [nw ->]].
  destruct (in_world (draw clock_ms) x1) as [x2 r2] eqn:E2. apply draw_spec in E2 as [Hx2 [ms ->]].
  destruct (in_world (draw random_key) x2) as [x3 r3] eqn:E3. apply draw_spec in E3 as [Hx3 [s1 ->]].
  destruct (in_world (draw random_key) x3) as [x4 r4] eqn:E4. apply draw_spec in E4 as [Hx4 [s2 ->]].
  unfold on_install. rewrite Hx4, Hx3, Hx2, Hx1. pose proof (rotate_keeps_stock nw ms s1 s2 (install x.1)) as Hr.
  destruct (maybe_rotate_signed_prekey _ _ _ _ _) as [i' r']. cbn in Hr. intros; simplify_eq. exact Hr.
Qed.

(** Publishing prekeys ends: with fresh prekey numbers left, the loop needs at
    most as many rounds as prekeys are missing, whatever the server answers, so
    the bound on its rounds never acts; when every call succeeds it has published
    exactly the missing ones and the stock has reached the floor of 25. *)
Theorem restock_publish_stocks_up extra (x : session * W) :
  prekeys_fresh (install x.1) -> next_pre_key_id (install x.1) + PREKEY_RESTOCK_BELOW <= U32_MAX ->
  (rotate_if_due;; publish_while (N.to_nat PREKEY_RESTOCK_BELOW + extra) needs_restock 0) x = restock_publish x
  /\ forall x' m, restock_publish x = (x', Ok m) ->
       needs_restock (install x'.1) = false /\ m = PREKEY_RESTOCK_BELOW - unused_one_time_prekeys (install x.1).
Proof.
  intros Hf Hmax. unfold restock_publish, mbind, stM_bind. destruct (rotate_if_due x) as [x1 [b|e]] eqn:Er; [|done].
  apply rotate_if_due_stock in Er as [Hs Hn].
  destruct (publish_while_fuel PREKEY_RESTOCK_BELOW (N.to_nat PREKEY_RESTOCK_BELOW) extra 0 x1) as [He Hok].
  - intros id r. rewrite Hs, Hn. apply Hf.
  - rewrite Hn, N2Nat.id. exact Hmax.
  - rewrite N2Nat.id. lia.
  - split; [exact He|]. intros x' m Hr. apply Hok in Hr as [Hge ->]. split; [by apply N.ltb_ge|].
    by rewrite !unused_size, Hs.
Qed.

Lemma publish_while_done fuel cond n (x : session * W) : cond (install x.1) = false -> publish_while fuel cond n x = (x, Ok n).
Proof. intros Hc. destruct fuel; cbn [publish_while]; unfold mbind, stM_bind, ses, gets, get; by rewrite Hc. Qed.

(** A full stock is not published: after a move to another home the loop asks the
    local stock, so the new server, which has none of it, is sent nothing. *)
Theorem full_stock_publishes_nothing (x : session * W) :
  needs_restock (install x.1) = false ->
  (rotate_if_due;; publish_while (N.to_nat PREKEY_RESTOCK_BELOW) needs_restock 0) x
  = (let '(x', r) := rotate_if_due x in (x', r ≫= fun _ => Ok 0)).
Proof.
  intros Hn. unfold mbind at 1, stM_bind. destruct (rotate_if_due x) as [x1 [b|e]] eqn:Er; [|done].
  apply rotate_if_due_stock in Er as [Hs _]. apply publish_while_done.
  unfold needs_restock in *. by rewrite unused_size, Hs, <- unused_size.
Qed.

(** ** Batches *)

Lemma post_batch_stops pre outer rest last (x x1 x2 : session * W) r e :
  post_batch pre last x = (x1, Ok r) -> post_one_envelope outer false x1 = (x2, Err e) ->
  post_batch (pre ++ outer :: rest) last x = (x2, Err e).
Proof.
  revert last x. induction pre as [|o pre IH]; intros last x; cbn [post_batch app].
  - unfold mret, stM_ret. intros [= <- <-] Hp. by apply stM_bind_err.
  - unfold mbind, stM_bind. destruct (post_one_envelope o false x) as [x0 [r0|e0]]; [|done]. apply IH.
Qed.

Definition empty_outbox (x : session * W) : Prop := pending_outers x.1 = [].

Lemma in_world_outbox {A} (m : stM W CoreError A) : preserves empty_outbox (in_world m).
Proof. intros [s w] Hx. unfold post, in_world. cbn. by destruct (m w). Qed.

Lemma ses_outbox : preserves empty_outbox (ses : cm session).
Proof. intros x Hx. exact Hx. Qed.

#[local] Hint Resolve in_world_outbox ses_outbox : walk.

Lemma post_one_outbox o cover : preserves empty_outbox (post_one_envelope o cover : cm _).
Proof. unfold post_one_envelope, owner_post, owner_header, home_call. walk ltac:(intros [s w] Hx; exact Hx). Qed.

Lemma post_batch_outbox batch last : preserves empty_outbox (post_batch batch last : cm _).
Proof. revert last. induction batch as [|o batch IH]; intros last; cbn [post_batch]; walk ltac:(first [apply post_one_outbox | apply IH]). Qed.

(** When one envelope of a batch cannot be posted, the batch is lost from
    there on: the flush stops with that error, nothing after it is sent, and the
    envelopes that were not sent are no longer in the session either. *)
Theorem failed_post_drops_batch (s : session) (w : W) pre outer rest x1 x2 r e :
  pending_outers s = pre ++ outer :: rest ->
  post_batch pre EnqQueued (s <| pending_outers := [] |>, w) = (x1, Ok r) -> post_one_envelope outer false x1 = (x2, Err e) ->
  flush_private_outbox (s, w) = (x2, Err e) /\ pending_outers x2.1 = [].
Proof.
  intros Hs Hpre Hpost. unfold flush_private_outbox, mbind, stM_bind, ses, gets, get, set_ses, modify. cbn [fst snd].
  rewrite Hs, (post_batch_stops _ _ _ _ _ _ _ _ _ Hpre Hpost). split; [done|].
  pose proof (post_batch_outbox pre EnqQueued (s <| pending_outers := [] |>, w) eq_refl) as Hq1. unfold post in Hq1. rewrite Hpre in Hq1.
  pose proof (post_one_outbox outer false x1 Hq1) as Hq2. unfold post in Hq2. by rewrite Hpost in Hq2.
Qed.

(** ** Revocations of somebody else *)

(** A discovery row revokes whichever contact it was asked for: the contact is
    marked revoked when the row is valid in itself and carries a revocation, before
    the row's identity and revocation keys are compared with the pinned ones. *)
Theorem foreign_revocation_revokes (s s1 : session) (w w1 : W) peer nw d st c :
  contacts s !! peer = Some c -> discovery_at (home_origin c) peer (s, w) = ((s1, w1), Ok d) ->
  disc_verify d nw = Ok tt -> d_revocation d = Some st -> contacts s1 !! peer = Some c ->
  exists s2, refresh_contact peer nw (s, w) = ((s2, w1), Err Revoked)
    /\ contacts s2 = <[peer := c <| revoked := true |>]> (contacts s1).
Proof.
  intros Hc Hd Hv Hr Hc1. eexists. split.
  - unfold refresh_contact, mbind, stM_bind, ses, gets, get. cbn [fst]. rewrite Hc, Hd. unfold lift at 1. rewrite Hv.
    cbn [fst]. rewrite Hc1, Hr. unfold set_ses, modify, throw. reflexivity.
  - done.
Qed.
End Calls.

(** ** Witnesses *)

Section Witnesses.
#[local] Existing Instances Toy.toy Toy.toy_laws ToySignal.types ToySignal.types_laws ToySignal.ops ToySignal.ops_laws ToySignal.mls.
#[local] Existing Instances plain_axum plain_axum_laws plain_turn.

Example signed_call_authentic_witness :
  exists res w', signed_call tt (bundle polled_home) (mk_creq (lit "GET") (lit "/v1/bundle") [] []) polled_world = (w', Ok res)
    /\ exists pk sg msg, vk_from_bytes (bundle_sign_public_key (bundle polled_home)) = Some pk /\ ed_verify pk msg sg = true.
Proof.
  destruct (signed_call tt (bundle polled_home) (mk_creq (lit "GET") (lit "/v1/bundle") [] []) polled_world) as [w' r] eqn:E.
  assert (is_ok r = true) as Hok.
  { change r with ((w', r).2). rewrite <- E. vm_compute. reflexivity. }
  destruct r as [res|]; [|discriminate Hok].
  destruct (signed_call_authentic _ _ _ _ _ _ E) as (w1 & nonce & pk & sg & msg & _ & _ & Hpk & He & _).
  exists res, w'. split; [exact eq_refl|]. exists pk, sg, msg. exact (conj Hpk He).
Defined.

Example restock_publish_stocks_up_witness :
  (rotate_if_due;; publish_while 125 needs_restock 0) (polled_session, polled_world) = restock_publish (polled_session, polled_world).
Proof.
  destruct (restock_publish_stocks_up 100 (polled_session, polled_world)) as [He _].
  - intros id r. replace (pre_key_store (store (install (polled_session, polled_world).1))) with (∅ : gmap N bytes) by (vm_compute; reflexivity).
    rewrite lookup_empty. discriminate.
  - vm_compute. discriminate.
  - exact He.
Defined.

(** Two envelopes in a batch to a server where the sender has no mailbox. *)
Definition sample_outer : OuterEnvelope :=
  match dummy_outer (bundle_hpke_public_key (bundle polled_home)) (arr_repeat 32 x01) (arr_repeat 32 x02) (arr_repeat 32 x03) with
  | Ok o => o
  | Err _ => mk_outer (arr_repeat 32 x00) []
  end.

Definition stranger : HomeSession unit :=
  mk_hsession tt (sample_install x0b) (bundle polled_home) 0 ∅ [] (lit "") Private [sample_outer; sample_outer] 0 0.

Example failed_post_drops_batch_witness :
  exists x2 e, flush_private_outbox (stranger, polled_world) = (x2, Err e) /\ pending_outers x2.1 = [].
Proof.
  destruct (post_one_envelope sample_outer false (stranger <| pending_outers := [] |>, polled_world)) as [x2 r] eqn:E.
  assert (is_ok r = false) as Hok.
  { change r with ((x2, r).2). rewrite <- E. vm_compute. reflexivity. }
  destruct r as [|e]; [discriminate Hok|].
  exists x2, e. exact (failed_post_drops_batch stranger polled_world [] sample_outer [sample_outer] _ _ _ e eq_refl eq_refl E).
Defined.

(** Another server, asked for one contact, answers with the revoked row of
    somebody else. *)
Definition foreign_row : DiscoveryRecord :=
  mk_discovery (arr_repeat 32 x11) (arr_repeat 32 x33) (d_binding (sample_disc 9)) (Some sample_revocation).

#[local] Instance liar_transport : HomeTransport unit unit := {|
  t_call _ _ w := (w, Ok (mk_cres 200 (discovery_encode foreign_row) []));
  t_redirect _ _ w := (w, Some tt);
  t_set_anonymous _ _ w := w
|}.

#[local] Instance still_platform : Platform unit := {|
  random_key w := (w, arr_repeat 32 x00);
  random_u64 w := (w, arr_repeat 8 x00);
  random_stream w := (w, fun _ => arr_repeat 32 x00);
  clock_unix w := (w, 1000);
  clock_ms w := (w, 1000000);
  sleep_ms _ w := w;
  hash_order _ m := map_to_list m;
  ice_bind _ := lit "0.0.0.0:0"
|}.

Definition distant_contact : StoredContact :=
  mk_contact (mk_pin met_id met_key (arr_repeat 32 x0e) 1) (arr_repeat 32 x01) (arr_repeat 32 x02) 0 false (lit "https://peer.example").

Example foreign_revocation_revokes_witness :
  disc_identity_public_key foreign_row <> pin_identity_public_key (contact_pin distant_contact)
  /\ exists s2, refresh_contact met_id 1000 (met_session {[met_id := distant_contact]}, tt) = ((s2, tt), Err Revoked)
       /\ contacts s2 = <[met_id := distant_contact <| revoked := true |>]> {[met_id := distant_contact]}.
Proof.
  split; [apply (bool_decide_eq_true_1 (arr_repeat 32 x11 <> met_key)); vm_compute; reflexivity|].
  assert (discovery_at (home_origin distant_contact) met_id (met_session {[met_id := distant_contact]}, tt)
    = ((met_session {[met_id := distant_contact]}, tt), Ok (mk_disc (arr_repeat 32 x11) (arr_repeat 32 x33) (d_binding (sample_disc 9))
        (Some sample_revocation)))) as Hd.
  { unfold discovery_at, call_on, mbind, stM_bind, ses, gets, get. cbn [fst].
    replace (bool_decide (as_bytes (trim_slashes (home_origin distant_contact)) = [])
      || bool_decide (trim_slashes (home_origin distant_contact) = home_base (met_session {[met_id := distant_contact]}))) with false
      by (vm_compute; reflexivity).
    unfold in_world, draw, transport_call, lift. cbn [fst snd t_redirect t_call liar_transport check_body check_status cs_status cs_body mbind result_bind].
    replace (discovery_decode (discovery_encode foreign_row)) with (@Ok WireError _ foreign_row) by (vm_compute; reflexivity).
    reflexivity. }
  exact (foreign_revocation_revokes (met_session {[met_id := distant_contact]}) (met_session {[met_id := distant_contact]}) tt tt met_id 1000
    (mk_disc (arr_repeat 32 x11) (arr_repeat 32 x33) (d_binding (sample_disc 9)) (Some sample_revocation)) sample_revocation distant_contact
    (lookup_singleton_eq _ _) Hd ltac:(vm_compute; reflexivity) eq_refl (lookup_singleton_eq _ _)).
Defined.
End Witnesses.
