(* ===== verification/Vault.v ===== *)
(** * The vault

    [nemo-core/src/vault.rs] and [device_bind.rs]: the key file, the key that opens
    the SQLCipher database, the device secret, and what the client keeps in the
    database. The disk is a state: the two files of the vault's directory, the
    files of the device secret, the platform's key ring, and how many more writes
    succeed. A write that fails changes nothing. *)

From S2P Require Export ClientState.

#[global] Instance rstring_countable : Countable rstring := _.

(** ** Parameters *)

(** Argon2id with the parameters of the key file; [None] when it refuses them. *)
Class Argon := { argon2 : bytes -> bytes -> N -> N -> N -> option key }.

(** ** The disk *)

(** A database file: the key of its content and its table [kv]. A file that was
    only opened has neither. *)
Record VaultDb : Type := mk_vdb { vdb_key : option key; vdb_kv : option (gmap rstring bytes) }.

Record Disk : Type := mk_disk {
  kdf_file : option bytes;
  db_file : option VaultDb;
  bind_files : gmap rstring bytes;
  keyring : gmap rstring bytes;
  keyring_up : bool;
  writes_left : option nat
}.

Definition eta_disk (d : Disk) : Disk :=
  mk_disk (kdf_file d) (db_file d) (bind_files d) (keyring d) (keyring_up d) (writes_left d).
#[global] Instance kdf_file_field : Field kdf_file := ltac:(derive_field eta_disk kdf_file).
#[global] Instance db_file_field : Field db_file := ltac:(derive_field eta_disk db_file).
#[global] Instance bind_files_field : Field bind_files := ltac:(derive_field eta_disk bind_files).
#[global] Instance keyring_field : Field keyring := ltac:(derive_field eta_disk keyring).
#[global] Instance writes_left_field : Field writes_left := ltac:(derive_field eta_disk writes_left).

Notation vm := (stM Disk CoreError).

Definition has {A} (o : option A) : bool := match o with Some _ => true | None => false end.

(** A write to the disk, which fails once the budget is used up. *)
Definition disk_write (f : Disk -> Disk) : vm unit :=
  d ← get;
  match writes_left d with
  | None => modify f
  | Some O => throw (VaultIo "write failed")
  | Some (S n) => modify (fun d => (f d) <| writes_left := Some n |>)
  end.

(** ** The device secret *)

(** [device_bind::parse_secret]. *)
Definition parse_secret (l : bytes) : cresult key := ok_or (try_into KEY_LEN l) VaultCorrupt.

Definition account (salt : bytes) : rstring := str_cat (lit "device-") (to_hex salt).

Definition keyring_load (salt : bytes) (d : Disk) : cresult key :=
  if keyring_up d then
    l ← ok_or (keyring d !! account salt) (VaultIo "no entry"); parse_secret l
  else Err (VaultIo "no key ring").

(** [os_secret]; [android] is [cfg!(target_os = "android")], [rnd] the drawn secret. *)
Definition os_secret (android : bool) (salt : bytes) (create : bool) (rnd : key) : vm key :=
  if android then throw (VaultIo "Android vault requires a Keystore device secret")
  else
    d ← get;
    match bind_files d !! account salt with
    | Some l => lift (parse_secret l)
    | None =>
        match keyring_load salt d with
        | Ok secret => mret secret
        | Err _ =>
            if negb create then throw VaultLocked
            else
              (if keyring_up d then modify (fun d => d <| keyring ::= <[account salt := to_vec rnd]> |>) else mret tt);;
              disk_write (fun d => d <| bind_files ::= <[account salt := to_vec rnd]> |>);;
              mret rnd
        end
    end.

(** [device_bind::resolve]. *)
Definition device_resolve (android : bool) (injected : option bytes) (salt : bytes) (create : bool) (rnd : key) : vm key :=
  match injected with
  | Some l => lift (parse_secret l)
  | None => os_secret android salt create rnd
  end.

(** ** Opening *)

Definition KDF_VERSION : N := 2.
Definition KDF_VERSION_PASSPHRASE_ONLY : N := 1.
Definition M_COST_KIB : N := 64 * 1024.
Definition T_COST : N := 3.
Definition P_COST : N := 1.
Definition SALT_LEN : N := 16.
Definition MIN_PASSPHRASE_CHARS : N := 8.

(** [chars().count()]: the bytes that do not continue a character. *)
Definition char_count (s : rstring) : N := lenN (List.filter (fun b => negb (cont_byte b)) (as_bytes s)).

Definition check_passphrase (passphrase : rstring) : cresult unit :=
  if char_count passphrase <? MIN_PASSPHRASE_CHARS then Err WeakPassphrase else Ok tt.

Record Kdf : Type := mk_kdf { kdf_version : N; kdf_salt : bytes; m_cost : N; t_cost : N; p_cost : N }.

Definition kdf_encode (k : Kdf) : bytes :=
  encode (Map [(0, Uint (kdf_version k)); (1, Bytes (kdf_salt k)); (2, Uint (m_cost k)); (3, Uint (t_cost k)); (4, Uint (p_cost k))]).

Definition write_kdf (k : Kdf) : vm unit := disk_write (fun d => d <| kdf_file := Some (kdf_encode k) |>).

Definition kdf_decode (l : bytes) : cresult Kdf :=
  m ← vault_map l;
  version ← vault_uint m 0;
  ensure ((version =? KDF_VERSION) || (version =? KDF_VERSION_PASSPHRASE_ONLY)) VaultCorrupt;;
  salt ← vault_bytes m 1;
  ensure (negb (lenN salt <? 8)) VaultCorrupt;;
  mc ← vault_uint m 2;
  tc ← vault_uint m 3;
  pc ← vault_uint m 4;
  Ok (mk_kdf version salt (as_u32 mc) (as_u32 tc) (as_u32 pc)).

(** [read_kdf]. *)
Definition read_kdf : vm Kdf :=
  d ← get;
  l ← lift (ok_or (kdf_file d) (VaultIo "no such file"));
  lift (kdf_decode l).

(** [mix_device_key]. *)
Definition xor_byte (a b : byte) : byte := byte_of_N (N.lxor (Byte.to_N a) (Byte.to_N b)).

Lemma mix_length (a b : key) : length (zip_with xor_byte (to_vec a) (to_vec b)) = N.to_nat KEY_LEN.
Proof.
  rewrite length_zip_with. pose proof (arr_len a) as Ha. pose proof (arr_len b) as Hb. unfold lenN in *. lia.
Qed.

Definition mix_device_key (pass device : key) : key :=
  match try_into KEY_LEN (zip_with xor_byte (to_vec pass) (to_vec device)) with Some k => k | None => pass end.

(** An open vault: the connection, which holds the key. *)
Record Vault : Type := mk_vault { conn_key : key }.

(** [open_cipher]: opening creates a missing file, and the first read fails when
    the content is under another key. *)
Definition open_cipher (k : key) : vm Vault :=
  d ← get;
  match db_file d with
  | None => disk_write (fun d => d <| db_file := Some (mk_vdb None None) |>);; mret (mk_vault k)
  | Some db =>
      match vdb_key db with
      | None => mret (mk_vault k)
      | Some k' => if bool_decide (k' = k) then mret (mk_vault k) else throw VaultLocked
      end
  end.

Definition create_table (v : Vault) : vm unit :=
  d ← get;
  match db_file d ≫= vdb_kv with
  | Some _ => throw (VaultIo "table kv already exists")
  | None => disk_write (fun d => d <| db_file := Some (mk_vdb (Some (conn_key v)) (Some ∅)) |>)
  end.

Definition kv_of (d : Disk) : option (gmap rstring bytes) := db_file d ≫= vdb_kv.

Definition set_kv (f : gmap rstring bytes -> gmap rstring bytes) (d : Disk) : Disk :=
  d <| db_file ::= fmap (fun db => mk_vdb (vdb_key db) (f <$> vdb_kv db)) |>.

(** [put]: the statement inserts or updates exactly one row. *)
Definition vault_put (k : rstring) (l : bytes) : vm unit :=
  d ← get;
  match kv_of d with
  | None => throw (VaultIo "no such table: kv")
  | Some _ => disk_write (set_kv <[k := l]>)
  end.

(** [get_opt]. *)
Definition get_opt (k : rstring) : vm (option bytes) :=
  d ← get;
  match kv_of d with
  | None => throw (VaultIo "no such table: kv")
  | Some kv => mret (kv !! k)
  end.

Definition SNAPSHOT_KEY : rstring := lit "installation".
Definition MLS_KEY : rstring := lit "mls_storage".
Definition GROUPS_KEY : rstring := lit "groups".
Definition HOME_KEY : rstring := lit "home".
Definition DISPLAY_KEY : rstring := lit "display".
Definition INBOX_KEY : rstring := lit "inbox".
Definition PENDING_KEY : rstring := lit "pending_joins".
Definition INVITES_KEY : rstring := lit "minted_invites".

Section Vault.
Context `{Crypto} `{SignalOps} `{OpenMls} `{Argon}.

(** [derive]. *)
Definition derive (passphrase : rstring) (salt : bytes) (m t p : N) : cresult key :=
  ok_or (argon2 (as_bytes passphrase) salt m t p) VaultCorrupt.

(** ** The MLS storage *)

Definition mls_leb (a b : bytes) : bool := bytes_leb a b.

(** [Installation::encode_mls_storage]; the entries in the order of their keys. *)
Definition mls_row (e : bytes * bytes) : Value := Array [Bytes e.1; Bytes e.2].

Definition encode_mls_storage (i : Installation) : bytes :=
  encode (Array (map mls_row (sorted_entries mls_leb (mls_values (mls_provider i))))).

Definition load_mls_row (acc : gmap bytes bytes) (item : Value) : cresult (gmap bytes bytes) :=
  match item with
  | Array [k; v] => kb ← corrupt (expect_bytes k); vb ← corrupt (expect_bytes v); Ok (<[kb := vb]> acc)
  | _ => Err VaultCorrupt
  end.

(** [Installation::apply_mls_storage]. *)
Definition apply_mls_storage (l : bytes) (i : Installation) : cresult Installation :=
  if bool_decide (l = []) then Ok i
  else
    v ← corrupt (decode l);
    match v with
    | Array items =>
        values ← try_fold load_mls_row ∅ items;
        Ok (i <| mls_provider ::= mls_with_values values |>)
    | _ => Err VaultCorrupt
    end.

(** ** Methods *)

(** [save]. *)
Definition save (i : Installation) : vm unit :=
  snap ← lift (encode_snapshot i);
  vault_put SNAPSHOT_KEY snap;;
  vault_put MLS_KEY (encode_mls_storage i).

(** [load]. *)
Definition vault_load : vm Installation :=
  d ← get;
  kv ← lift (ok_or (kv_of d) (VaultIo "no such table: kv"));
  l ← lift (ok_or (kv !! SNAPSHOT_KEY) (VaultIo "Query returned no rows"));
  lift (decode_snapshot l).

(** [load_installation]. *)
Definition load_installation : vm Installation :=
  i ← vault_load;
  mls ← get_opt MLS_KEY;
  match mls with Some l => lift (apply_mls_storage l i) | None => mret i end.

(** [create_bound]. *)
Definition create_bound (android : bool) (passphrase : rstring) (i : Installation) (device_secret : option bytes)
    (salt : arr SALT_LEN) (rnd : key) : vm Vault :=
  lift (check_passphrase passphrase);;
  d ← get;
  if has (kdf_file d) || has (db_file d) then throw VaultExists
  else
    write_kdf (mk_kdf KDF_VERSION (to_vec salt) M_COST_KIB T_COST P_COST);;
    k ← lift (derive passphrase (to_vec salt) M_COST_KIB T_COST P_COST);
    device ← device_resolve android device_secret (to_vec salt) true rnd;
    v ← open_cipher (mix_device_key k device);
    create_table v;;
    save i;;
    mret v.

(** [open_bound]; nothing is drawn when the secret is not created. *)
Definition open_bound (android : bool) (passphrase : rstring) (device_secret : option bytes) : vm (Vault * Installation) :=
  lift (check_passphrase passphrase);;
  d ← get;
  if negb (has (kdf_file d)) || negb (has (db_file d)) then throw VaultMissing
  else
    kdf ← read_kdf;
    k ← lift (derive passphrase (kdf_salt kdf) (m_cost kdf) (t_cost kdf) (p_cost kdf));
    k ← (if KDF_VERSION <=? kdf_version kdf then
           device ← device_resolve android device_secret (kdf_salt kdf) false (arr_repeat KEY_LEN x00);
           mret (mix_device_key k device)
         else mret k);
    v ← open_cipher k;
    i ← load_installation;
    mret (v, i).

(** [save_home] and [load_home]. *)
Definition save_home (i : Installation) (h : ClientHome) : vm unit :=
  save i;;
  l ← lift (client_home_encode h);
  vault_put HOME_KEY l.

Definition vault_load_home : vm (option ClientHome) :=
  o ← get_opt HOME_KEY;
  match o with None => mret None | Some l => h ← lift (client_home_decode l); mret (Some h) end.
End Vault.

(** * Decrypted rows in the vault

    The rest of [nemo-core/src/vault.rs]: display names and timers, the inbox with
    its counters and read marks, and the invites this client has minted. *)

Record InboxRow : Type := mk_inbox_row {
  ib_conv_id : rstring;
  ib_conv_seq : N;
  ib_text : rstring;
  ib_sent_at : N;
  ib_file_name : rstring;
  ib_file_mime : rstring;
  ib_file_bytes : bytes;
  ib_fetch_token : rstring;
  ib_kind : rstring;
  ib_emoji : rstring;
  ib_target : N;
  ib_hidden : bool;
  ib_displayed_at : N;
  ib_outgoing : bool;
  ib_sender_id : rstring;
  ib_sender_name : rstring;
  ib_reply_to : N
}.

Definition bool_uint (b : bool) : Value := Uint (if b then 1 else 0).

(** [encode_inbox_row]. *)
Definition encode_inbox_row (r : InboxRow) : Value :=
  Map [(0, Text (ib_conv_id r)); (1, Uint (ib_conv_seq r)); (2, Text (ib_text r)); (3, Uint (ib_sent_at r));
       (4, Text (ib_file_name r)); (5, Text (ib_file_mime r)); (6, Bytes (ib_file_bytes r)); (7, Text (ib_fetch_token r));
       (8, Text (ib_kind r)); (9, Text (ib_emoji r)); (10, Uint (ib_target r)); (11, bool_uint (ib_hidden r));
       (12, Uint (ib_displayed_at r)); (13, bool_uint (ib_outgoing r)); (14, Text (ib_sender_id r));
       (15, Text (ib_sender_name r)); (16, Uint (ib_reply_to r))].

Definition vault_text (m : list (N * Value)) (k : N) : cresult rstring := v ← corrupt (map_get m k); corrupt (expect_text v).

Definition vault_uint_or_zero (m : list (N * Value)) (k : N) : cresult N :=
  match map_get m k with Ok v => corrupt (expect_uint v) | Err _ => Ok 0 end.

Definition vault_text_or_none (m : list (N * Value)) (k : N) : cresult rstring :=
  match map_get m k with Ok v => corrupt (expect_text v) | Err _ => Ok (lit "") end.

(** [decode_inbox_row]: the last four fields are missing in older vaults. *)
Definition decode_inbox_row (item : Value) : cresult InboxRow :=
  match item with
  | Map m =>
      conv ← vault_text m 0;
      sq ← vault_uint m 1;
      txt ← vault_text m 2;
      sent ← vault_uint m 3;
      fname ← vault_text m 4;
      fmime ← vault_text m 5;
      fbytes ← vault_bytes m 6;
      token ← vault_text m 7;
      kind ← vault_text m 8;
      emoji ← vault_text m 9;
      target ← vault_uint m 10;
      hidden ← vault_uint m 11;
      shown ← vault_uint m 12;
      outgoing ← vault_uint_or_zero m 13;
      sid ← vault_text_or_none m 14;
      sname ← vault_text_or_none m 15;
      reply ← vault_uint_or_zero m 16;
      Ok (mk_inbox_row conv sq txt sent fname fmime fbytes token kind emoji target (negb (hidden =? 0)) shown
            (negb (outgoing =? 0)) sid sname reply)
  | _ => Err VaultCorrupt
  end.

(** ** Maps of strings *)

Definition text_leb (a b : rstring) : bool := bytes_leb (as_bytes a) (as_bytes b).

Definition name_row (e : rstring * rstring) : Value := Array [Text e.1; Text e.2].
Definition mark_row (e : rstring * N) : Value := Array [Text e.1; Uint e.2].

Definition load_name (acc : gmap rstring rstring) (item : Value) : cresult (gmap rstring rstring) :=
  match item with
  | Array [k; v] => kt ← corrupt (expect_text k); vt ← corrupt (expect_text v); Ok (<[kt := vt]> acc)
  | _ => Err VaultCorrupt
  end.

Definition load_mark (acc : gmap rstring N) (item : Value) : cresult (gmap rstring N) :=
  match item with
  | Array [k; v] => kt ← corrupt (expect_text k); n ← corrupt (expect_uint v); Ok (<[kt := n]> acc)
  | _ => Err VaultCorrupt
  end.

(** The read marks of one group, and all of them, in the order of the keys. *)
Definition viewer_rows (e : rstring * gmap rstring N) : list Value :=
  map (fun v => Array [Text e.1; Text v.1; Uint v.2]) (sorted_entries text_leb e.2).

Definition group_rows (m : gmap rstring (gmap rstring N)) : list Value :=
  concat (map viewer_rows (sorted_entries text_leb m)).

Definition load_group_mark (acc : gmap rstring (gmap rstring N)) (item : Value) : cresult (gmap rstring (gmap rstring N)) :=
  match item with
  | Array [g; v; n] =>
      gt ← corrupt (expect_text g);
      vt ← corrupt (expect_text v);
      sq ← corrupt (expect_uint n);
      Ok (<[gt := <[vt := sq]> (default ∅ (acc !! gt))]> acc)
  | _ => Err VaultCorrupt
  end.

(** [array_at] for a field that older vaults lack. *)
Definition array_or_empty (m : list (N * Value)) (k : N) : cresult (list Value) :=
  match map_get_opt m k with Some v => corrupt (expect_array v) | None => Ok [] end.

(** ** Display *)

Record Display : Type := mk_display {
  nicknames : gmap rstring rstring;
  disappear : gmap rstring N;
  group_names : gmap rstring rstring
}.

Definition display_encode (x : Display) : bytes :=
  encode (Map [(0, Uint 1); (1, Array (map name_row (sorted_entries text_leb (nicknames x))));
               (2, Array (map mark_row (sorted_entries text_leb (disappear x))));
               (3, Array (map name_row (sorted_entries text_leb (group_names x))))]).

Definition display_decode (l : bytes) : cresult Display :=
  m ← vault_map l;
  version ← vault_uint m 0;
  ensure (version =? 1) VaultCorrupt;;
  a1 ← array_at m 1; nicks ← try_fold load_name ∅ a1;
  a2 ← array_at m 2; timers ← try_fold load_mark ∅ a2;
  a3 ← array_or_empty m 3; names ← try_fold load_name ∅ a3;
  Ok (mk_display nicks timers names).

Definition save_display (x : Display) : vm unit := vault_put DISPLAY_KEY (display_encode x).

Definition load_display : vm Display :=
  o ← get_opt DISPLAY_KEY;
  match o with None => mret (mk_display ∅ ∅ ∅) | Some l => lift (display_decode l) end.

(** ** Inbox *)

Record Inbox : Type := mk_inbox {
  inbox_rows : list InboxRow;
  inbox_next : gmap rstring N;
  inbox_acked : gmap rstring N;
  inbox_read : gmap rstring N;
  inbox_group_read : gmap rstring (gmap rstring N)
}.

Definition inbox_value (x : Inbox) : Value :=
  Map [(0, Uint 1); (1, Array (map encode_inbox_row (inbox_rows x)));
       (2, Array (map mark_row (sorted_entries text_leb (inbox_next x))));
       (3, Array (map mark_row (sorted_entries text_leb (inbox_acked x))));
       (4, Array (map mark_row (sorted_entries text_leb (inbox_read x))));
       (5, Array (group_rows (inbox_group_read x)))].

Definition inbox_decode (l : bytes) : cresult Inbox :=
  m ← vault_map l;
  version ← vault_uint m 0;
  ensure (version =? 1) VaultCorrupt;;
  a1 ← array_at m 1; rows ← try_map decode_inbox_row a1;
  a2 ← array_at m 2; next ← try_fold load_mark ∅ a2;
  a3 ← array_or_empty m 3; acked ← try_fold load_mark ∅ a3;
  a4 ← array_or_empty m 4; seen ← try_fold load_mark ∅ a4;
  a5 ← array_or_empty m 5; marks ← try_fold load_group_mark ∅ a5;
  Ok (mk_inbox rows next acked seen marks).

Definition save_inbox (x : Inbox) : vm unit := vault_put INBOX_KEY (encode (inbox_value x)).

Definition load_inbox : vm Inbox :=
  o ← get_opt INBOX_KEY;
  match o with None => mret (mk_inbox [] ∅ ∅ ∅ ∅) | Some l => lift (inbox_decode l) end.

(** ** Invites *)

Definition save_invites (invites : list GroupInvite) : vm unit :=
  vault_put INVITES_KEY (encode (Array (map (fun i => Bytes (invite_encode i)) invites))).

Definition load_invites : vm (list GroupInvite) :=
  o ← get_opt INVITES_KEY;
  match o with
  | None => mret []
  | Some l =>
      lift (v ← corrupt (decode l);
            match v with
            | Array items => try_map (fun item => raw ← corrupt (expect_bytes item); cwire (invite_decode raw)) items
            | _ => Err VaultCorrupt
            end)
  end.
