(* ===== verification/VaultProps.v ===== *)
(** * What the vault guarantees

    A vault gives back what was last saved, opens with its own key only, and the
    cases in which neither creating nor opening works any more. *)

From S2P Require Export Vault.
From S2P Require Import InstallProps.
From S2P Require Import Toy ToySignal.

(** ** Mixing keys *)

Lemma lxor_lt a b : a < 256 -> b < 256 -> N.lxor a b < 256.
Proof.
  intros Ha Hb. destruct (N.eq_0_gt_0_cases (N.lxor a b)) as [->|Hp]; [done|].
  apply (N.log2_lt_pow2 _ 8 Hp). eapply N.le_lt_trans; [apply N.log2_lxor|].
  assert (forall n, n < 256 -> N.log2 n < 8) as Hlog; [|by apply N.max_lub_lt; apply Hlog].
  intros n Hn. destruct (N.eq_0_gt_0_cases n) as [->|Hn0]; [done|]. by apply (N.log2_lt_pow2 _ 8 Hn0).
Qed.

Lemma xor_byte_cancel a b : xor_byte (xor_byte a b) b = a.
Proof.
  unfold xor_byte. rewrite to_N_byte_of_N, N.mod_small by (apply lxor_lt; apply to_N_lt).
  rewrite N.lxor_assoc, N.lxor_nilpotent, N.lxor_0_r. apply byte_of_N_to_N.
Qed.

Lemma xor_byte_comm a b : xor_byte a b = xor_byte b a.
Proof. unfold xor_byte. by rewrite N.lxor_comm. Qed.

Lemma mix_to_vec a b : to_vec (mix_device_key a b) = zip_with xor_byte (to_vec a) (to_vec b).
Proof.
  unfold mix_device_key. destruct (try_into _ _) as [k|] eqn:E; [by apply try_into_Some in E|].
  exfalso. destruct (proj2 (try_into_is_Some KEY_LEN (zip_with xor_byte (to_vec a) (to_vec b)))) as [k Hk]; [|congruence].
  unfold lenN. rewrite mix_length. apply N2Nat.id.
Qed.

Lemma zip_xor_inj (l1 l2 k : bytes) :
  length l1 = length k -> length l2 = length k -> zip_with xor_byte l1 k = zip_with xor_byte l2 k -> l1 = l2.
Proof.
  revert l1 l2. induction k as [|b k IH]; intros [|a1 l1] [|a2 l2]; try done. cbn. intros [= H1] [= H2] [= Hx Hl].
  f_equal; [|by apply IH]. by rewrite <- (xor_byte_cancel a1 b), <- (xor_byte_cancel a2 b), Hx.
Qed.

Lemma zip_xor_comm l k : zip_with xor_byte l k = zip_with xor_byte k l.
Proof. revert k. induction l as [|a l IH]; intros [|b k]; cbn; try done. by rewrite xor_byte_comm, IH. Qed.

Lemma key_length (a : key) : length (to_vec a) = 32%nat.
Proof. pose proof (arr_len a) as H. unfold lenN in H. lia. Qed.

Lemma mix_inj_l a b d : mix_device_key a d = mix_device_key b d -> a = b.
Proof.
  intros He%(f_equal to_vec). rewrite !mix_to_vec in He. apply arr_eq.
  apply (zip_xor_inj _ _ (to_vec d)); rewrite ?key_length; done.
Qed.

Lemma mix_inj_r a d e : mix_device_key a d = mix_device_key a e -> d = e.
Proof.
  intros He%(f_equal to_vec). rewrite !mix_to_vec, !(zip_xor_comm (to_vec a)) in He. apply arr_eq.
  apply (zip_xor_inj _ _ (to_vec a)); rewrite ?key_length; done.
Qed.

(** ** Codecs of the stored values *)

Lemma try_fold_concat {E A B C} (f : B -> A -> result E B) (row : C -> list A) b l :
  try_fold f b (concat (map row l)) = try_fold (fun b e => try_fold f b (row e)) b l.
Proof.
  revert b. induction l as [|x l IH]; intros b; cbn; [done|]. rewrite try_fold_app.
  destruct (try_fold f b (row x)); [apply IH | done].
Qed.

Lemma load_viewers (g : rstring) (acc : gmap rstring (gmap rstring N)) (inner : gmap rstring N) :
  acc !! g = None -> inner <> ∅ -> try_fold load_group_mark acc (viewer_rows (g, inner)) = Ok (<[g := inner]> acc).
Proof.
  intros Hg Hne. unfold viewer_rows. cbn [fst snd].
  assert (forall es m0, NoDup es.*1 -> (forall e, e ∈ es -> m0 !! e.1 = None) ->
    try_fold load_group_mark (<[g := m0]> acc) (map (fun v : rstring * N => Array [Text g; Text v.1; Uint v.2]) es)
    = Ok (<[g := list_to_map es ∪ m0]> acc)) as Hstep.
  { induction es as [|[v n] es IH]; intros m0 Hnd Hm0; cbn; [by rewrite (left_id_L ∅ (∪))|].
    cbn in Hnd. apply NoDup_cons in Hnd as [Hv Hnd]. rewrite lookup_insert_eq, insert_insert_eq. cbn. rewrite IH; [|done|].
    - f_equal. f_equal. rewrite <- insert_union_l. rewrite <- insert_union_r; [done|]. by apply not_elem_of_list_to_map_1.
    - intros e He. rewrite lookup_insert_ne; [apply Hm0; set_solver|]. intros ->. apply Hv. apply list_elem_of_fmap. eauto. }
  destruct (sorted_entries text_leb inner) as [|[v n] es] eqn:Es.
  { exfalso. apply Hne. apply map_to_list_empty_iff. apply Permutation_nil_r. rewrite <- (sorted_entries_perm text_leb), Es. done. }
  pose proof (sorted_entries_nodup text_leb inner) as Hnd. pose proof (sorted_entries_perm text_leb inner) as Hp. rewrite Es in Hnd, Hp.
  assert (load_group_mark acc (Array [Text g; Text v; Uint n]) = Ok (<[g := {[v := n]}]> acc)) as Hfirst by (cbn; by rewrite Hg).
  cbn [map try_fold fst snd]. rewrite Hfirst. cbn [mbind result_bind]. cbn in Hnd. apply NoDup_cons in Hnd as [Hv Hnd].
  rewrite Hstep; [|done|].
  - f_equal. f_equal. transitivity (list_to_map ((v, n) :: es) : gmap rstring N).
    + cbn. rewrite (insert_union_singleton_l _ v n). apply map_union_comm, map_disjoint_singleton_r_2.
      by apply not_elem_of_list_to_map_1.
    + rewrite <- (list_to_map_to_list inner). apply list_to_map_proper; [by apply NoDup_cons | done].
  - intros e He. rewrite lookup_singleton_ne; [done|]. intros ->. apply Hv. apply list_elem_of_fmap. eauto.
Qed.

Lemma load_group_rows (m : gmap rstring (gmap rstring N)) :
  (forall g inner, m !! g = Some inner -> inner <> ∅) -> try_fold load_group_mark ∅ (group_rows m) = Ok m.
Proof.
  intros Hne. unfold group_rows. rewrite try_fold_concat, <- (map_id (sorted_entries text_leb m)).
  apply load_sorted. intros acc g inner Hm Hacc. apply load_viewers; [done | by eapply Hne].
Qed.

Lemma load_names (m : gmap rstring rstring) : try_fold load_name ∅ (map name_row (sorted_entries text_leb m)) = Ok m.
Proof. by apply load_sorted. Qed.

Lemma load_marks (m : gmap rstring N) : try_fold load_mark ∅ (map mark_row (sorted_entries text_leb m)) = Ok m.
Proof. by apply load_sorted. Qed.

Lemma inbox_row_roundtrip r : decode_inbox_row (encode_inbox_row r) = Ok r.
Proof. destruct r as [? ? ? ? ? ? ? ? ? ? ? [] ? [] ? ? ?]; reflexivity. Qed.

(** The values fit memory, and no group is listed without a mark. *)
Definition inbox_fits (x : Inbox) : Prop :=
  wf_value (inbox_value x) = true /\ forall g inner, inbox_group_read x !! g = Some inner -> inner <> ∅.

Lemma inbox_decode_encode x : inbox_fits x -> inbox_decode (encode (inbox_value x)) = Ok x.
Proof.
  intros [Hwf Hne]. unfold inbox_decode, vault_map. rewrite decode_encode_wf by done.
  unfold inbox_value, vault_uint, array_at, array_or_empty. cbn -[try_fold try_map sorted_entries group_rows].
  rewrite (try_map_map decode_inbox_row encode_inbox_row) by apply inbox_row_roundtrip.
  cbn -[try_fold sorted_entries group_rows]. rewrite load_marks. cbn -[try_fold sorted_entries group_rows].
  rewrite load_marks. cbn -[try_fold sorted_entries group_rows]. rewrite load_marks. cbn -[try_fold sorted_entries group_rows].
  rewrite load_group_rows by done. by destruct x.
Qed.

Definition display_value (x : Display) : Value :=
  Map [(0, Uint 1); (1, Array (map name_row (sorted_entries text_leb (nicknames x))));
       (2, Array (map mark_row (sorted_entries text_leb (disappear x))));
       (3, Array (map name_row (sorted_entries text_leb (group_names x))))].

Lemma display_decode_encode x : wf_value (display_value x) = true -> display_decode (display_encode x) = Ok x.
Proof.
  intros Hwf. unfold display_decode, vault_map, display_encode. fold (display_value x). rewrite decode_encode_wf by done.
  unfold display_value, vault_uint, array_at, array_or_empty. cbn -[try_fold sorted_entries].
  rewrite load_names. cbn -[try_fold sorted_entries]. rewrite load_marks. cbn -[try_fold sorted_entries].
  rewrite load_names. by destruct x.
Qed.

(** ** Statements on the disk *)

Lemma disk_write_ok f d d' :
  disk_write f d = (d', Ok tt) -> exists w, d' = (f d) <| writes_left := w |>.
Proof.
  unfold disk_write, mbind, stM_bind, get, modify, throw. destruct (writes_left d) as [[|n]|]; intros; simplify_eq.
  - by eexists.
  - exists (writes_left (f d)). by destruct (f d).
Qed.

Lemma put_ok k l d d' :
  vault_put k l d = (d', Ok tt) ->
  exists w kv, kv_of d = Some kv /\ d' = (set_kv <[k := l]> d) <| writes_left := w |>.
Proof.
  unfold vault_put, mbind, stM_bind, get, throw. destruct (kv_of d) as [kv|]; [|done]. intros [w ->]%disk_write_ok. eauto.
Qed.

(** What a statement leaves alone. *)
Definition same_host (d d' : Disk) : Prop :=
  kdf_file d' = kdf_file d /\ bind_files d' = bind_files d /\ keyring d' = keyring d /\ keyring_up d' = keyring_up d.

(** The database of a vault with this content. *)
Definition vault_at (v : Vault) (kv : gmap rstring bytes) (d : Disk) : Prop :=
  db_file d = Some (mk_vdb (Some (conn_key v)) (Some kv)).

Lemma put_at v kv k l d d' :
  vault_at v kv d -> vault_put k l d = (d', Ok tt) -> vault_at v (<[k := l]> kv) d' /\ same_host d d'.
Proof.
  intros Hv (w & kv' & _ & ->)%put_ok. unfold vault_at, same_host, set_kv. cbn. unfold vault_at in Hv. by rewrite Hv.
Qed.

Lemma get_opt_at v kv k d : vault_at v kv d -> get_opt k d = (d, Ok (kv !! k)).
Proof. intros Hv. unfold get_opt, mbind, stM_bind, get, kv_of. by rewrite Hv. Qed.

Section Refinement.
Context `{CryptoLaws} `{SignalOps} `{!SignalTypesLaws} `{OpenMlsLaws} `{Argon}.

(** ** Saving an installation *)

(** The installation with the storage of its MLS provider in a new one. *)
Definition restored (i : Installation) : Installation :=
  mk_install (identity i) (inst_revocation_public_key i) (inst_address i) (store i) (next_pre_key_id i) (next_kyber_id i)
    (signed_pre_key_id i) (signed_pre_key_at i) (inst_binding_seq i) (mls_with_values (mls_values (mls_provider i)) mls_default).

Definition saveable (i : Installation) : Prop :=
  install_typed i /\ snapshot_fits i
  /\ wf_value (Array (map mls_row (sorted_entries mls_leb (mls_values (mls_provider i))))) = true.

Lemma mls_storage_roundtrip i j :
  saveable i -> apply_mls_storage (encode_mls_storage i) j = Ok (j <| mls_provider ::= mls_with_values (mls_values (mls_provider i)) |>).
Proof.
  intros (_ & _ & Hwf). unfold apply_mls_storage. case_bool_decide as He.
  - exfalso. pose proof (write_value_nonempty (Array (map mls_row (sorted_entries mls_leb (mls_values (mls_provider i)))))) as Hn.
    unfold encode_mls_storage, encode in He. rewrite He in Hn. cbn in Hn. lia.
  - unfold encode_mls_storage. rewrite decode_encode_wf by done. cbn -[try_fold sorted_entries].
    by rewrite (load_sorted mls_leb load_mls_row mls_row).
Qed.

(** The two rows of an installation in the table. *)
Definition inst_rows (i : Installation) (kv : gmap rstring bytes) : Prop :=
  exists snap, encode_snapshot i = Ok snap /\ kv !! SNAPSHOT_KEY = Some snap /\ kv !! MLS_KEY = Some (encode_mls_storage i).

Lemma load_installation_at v kv i d :
  vault_at v kv d -> saveable i -> inst_rows i kv -> load_installation d = (d, Ok (restored i)).
Proof.
  intros Hv Hs (snap & He & Hsnap & Hmls). unfold load_installation, vault_load, mbind, stM_bind, get, kv_of, lift. rewrite Hv. cbn.
  rewrite Hsnap. cbn. rewrite (snapshot_decode_encode i snap) by (done || apply Hs). rewrite (get_opt_at v kv) by done.
  rewrite Hmls. by rewrite mls_storage_roundtrip.
Qed.

Lemma save_at v kv i d d' :
  vault_at v kv d -> save i d = (d', Ok tt) ->
  exists snap, encode_snapshot i = Ok snap
    /\ vault_at v (<[MLS_KEY := encode_mls_storage i]> (<[SNAPSHOT_KEY := snap]> kv)) d' /\ same_host d d'.
Proof.
  intros Hv. unfold save, mbind, stM_bind, lift. destruct (encode_snapshot i) as [snap|]; [|done].
  destruct (vault_put SNAPSHOT_KEY snap d) as [d1 [[]|]] eqn:E1; [|done]. intros E2.
  apply (put_at v kv) in E1 as [Hv1 (K1 & B1 & R1 & U1)]; [|done]. apply (put_at v _ _ _ _ _ Hv1) in E2 as [Hv2 (K2 & B2 & R2 & U2)].
  exists snap. split; [done|]. split; [done|]. unfold same_host. split_and!; congruence.
Qed.

(** ** What a vault keeps *)

Inductive vault_op : Type :=
  | VSave (i : Installation)
  | VHome (i : Installation) (h : ClientHome)
  | VDisplay (x : Display)
  | VInbox (x : Inbox)
  | VInvites (l : list GroupInvite).

Definition vault_exec (op : vault_op) : vm unit :=
  match op with
  | VSave i => save i
  | VHome i h => save_home i h
  | VDisplay x => save_display x
  | VInbox x => save_inbox x
  | VInvites l => save_invites l
  end.

Fixpoint vault_run (ops : list vault_op) : vm unit :=
  match ops with [] => mret tt | op :: ops => vault_exec op;; vault_run ops end.

(** The abstract vault: the last value of each kind. *)
Record Kept : Type := mk_kept {
  kept_install : Installation;
  kept_home : option ClientHome;
  kept_display : option Display;
  kept_inbox : option Inbox;
  kept_invites : option (list GroupInvite)
}.

Definition keep (k : Kept) (op : vault_op) : Kept :=
  match op with
  | VSave i => mk_kept i (kept_home k) (kept_display k) (kept_inbox k) (kept_invites k)
  | VHome i h => mk_kept i (Some h) (kept_display k) (kept_inbox k) (kept_invites k)
  | VDisplay x => mk_kept (kept_install k) (kept_home k) (Some x) (kept_inbox k) (kept_invites k)
  | VInbox x => mk_kept (kept_install k) (kept_home k) (kept_display k) (Some x) (kept_invites k)
  | VInvites l => mk_kept (kept_install k) (kept_home k) (kept_display k) (kept_inbox k) (Some l)
  end.

Definition invites_value (l : list GroupInvite) : Value := Array (map (fun i => Bytes (invite_encode i)) l).

(** The table holds the encodings of what is kept. *)
Record holds (k : Kept) (kv : gmap rstring bytes) : Prop := {
  ho_install : inst_rows (kept_install k) kv;
  ho_home : kv !! HOME_KEY = (fun h => encode (client_home_value h)) <$> kept_home k;
  ho_display : kv !! DISPLAY_KEY = display_encode <$> kept_display k;
  ho_inbox : kv !! INBOX_KEY = (fun x => encode (inbox_value x)) <$> kept_inbox k;
  ho_invites : kv !! INVITES_KEY = (fun l => encode (invites_value l)) <$> kept_invites k
}.

Ltac keys := repeat (rewrite lookup_insert_ne by (let E := fresh in intros E; apply (f_equal as_bytes) in E; discriminate E)).

Lemma holds_save k kv i snap :
  holds k kv -> encode_snapshot i = Ok snap ->
  holds (mk_kept i (kept_home k) (kept_display k) (kept_inbox k) (kept_invites k))
    (<[MLS_KEY := encode_mls_storage i]> (<[SNAPSHOT_KEY := snap]> kv)).
Proof.
  intros [Hi Hh Hd Hx Hl] He. split; cbn [kept_install kept_home kept_display kept_inbox kept_invites]; [|keys; done..].
  exists snap. split; [done|]. split; [keys; apply lookup_insert_eq | apply lookup_insert_eq].
Qed.

Lemma inst_rows_other i kv k l : k <> SNAPSHOT_KEY -> k <> MLS_KEY -> inst_rows i kv -> inst_rows i (<[k := l]> kv).
Proof. intros Hs Hm (snap & He & H1' & H2'). exists snap. by rewrite !lookup_insert_ne. Qed.

Lemma key_ne (a b : rstring) : as_bytes a <> as_bytes b -> a <> b.
Proof. congruence. Qed.

Lemma vault_exec_holds v k kv op d d' :
  vault_at v kv d -> holds k kv -> vault_exec op d = (d', Ok tt) ->
  exists kv', vault_at v kv' d' /\ holds (keep k op) kv' /\ same_host d d'.
Proof.
  intros Hv Hk Hr. destruct op as [i|i h|x|x|l]; cbn [vault_exec keep] in *.
  - destruct (save_at v kv i d d' Hv Hr) as (snap & He & Hv' & Hh). eexists. split; [done|]. split; [by apply holds_save | done].
  - unfold save_home, mbind, stM_bind, lift in Hr. destruct (save i d) as [d1 [[]|]] eqn:E1; [|done]. cbn in Hr.
    destruct (save_at v kv i d d1 Hv E1) as (snap & He & Hv1 & (K1 & B1 & R1 & U1)).
    destruct (put_at v _ _ _ _ _ Hv1 Hr) as [Hv2 (K2 & B2 & R2 & U2)]. eexists. split; [done|]. split.
    + destruct (holds_save k kv i snap Hk He) as [Ji Jh Jd Jx Jl]. split; cbn [kept_install kept_home kept_display kept_inbox kept_invites] in *.
      * apply inst_rows_other; [by apply key_ne..|done].
      * apply lookup_insert_eq.
      * rewrite <- Jd. by keys.
      * rewrite <- Jx. by keys.
      * rewrite <- Jl. by keys.
    + unfold same_host. split_and!; congruence.
  - destruct (put_at v kv _ _ _ _ Hv Hr) as [Hv' Hh]. eexists. split; [done|]. split; [|done]. destruct Hk as [Ji Jh Jd Jx Jl].
    split; cbn [kept_install kept_home kept_display kept_inbox kept_invites] in *;
      [apply inst_rows_other; [by apply key_ne..|done] | by keys | apply lookup_insert_eq | by keys | by keys].
  - destruct (put_at v kv _ _ _ _ Hv Hr) as [Hv' Hh]. eexists. split; [done|]. split; [|done]. destruct Hk as [Ji Jh Jd Jx Jl].
    split; cbn [kept_install kept_home kept_display kept_inbox kept_invites] in *;
      [apply inst_rows_other; [by apply key_ne..|done] | by keys | by keys | apply lookup_insert_eq | by keys].
  - destruct (put_at v kv _ _ _ _ Hv Hr) as [Hv' Hh]. eexists. split; [done|]. split; [|done]. destruct Hk as [Ji Jh Jd Jx Jl].
    split; cbn [kept_install kept_home kept_display kept_inbox kept_invites] in *;
      [apply inst_rows_other; [by apply key_ne..|done] | by keys | by keys | by keys | apply lookup_insert_eq].
Qed.

Lemma vault_run_holds v ops k kv d d' :
  vault_at v kv d -> holds k kv -> vault_run ops d = (d', Ok tt) ->
  exists kv', vault_at v kv' d' /\ holds (foldl keep k ops) kv' /\ same_host d d'.
Proof.
  revert k kv d. induction ops as [|op ops IH]; intros k kv d Hv Hk; cbn [vault_run foldl].
  - unfold mret, stM_ret. intros; simplify_eq. exists kv. split_and!; done.
  - unfold mbind, stM_bind. destruct (vault_exec op d) as [d1 [[]|]] eqn:E; [|done]. intros Hr.
    destruct (vault_exec_holds v k kv op d d1 Hv Hk E) as (kv1 & Hv1 & Hk1 & (K1 & B1 & R1 & U1)).
    destruct (IH _ _ _ Hv1 Hk1 Hr) as (kv2 & Hv2 & Hk2 & (K2 & B2 & R2 & U2)). exists kv2. split_and!; try done.
    unfold same_host. split_and!; congruence.
Qed.

(** ** Creating and opening *)

Definition std_kdf (salt : arr SALT_LEN) : Kdf := mk_kdf KDF_VERSION (to_vec salt) M_COST_KIB T_COST P_COST.

Lemma kdf_roundtrip salt : kdf_decode (kdf_encode (std_kdf salt)) = Ok (std_kdf salt).
Proof.
  unfold kdf_decode, kdf_encode, vault_map, std_kdf. rewrite decode_encode_wf by solve_wf.
  unfold vault_uint, vault_bytes. cbn -[to_vec lenN]. rewrite arr_len. reflexivity.
Qed.

(** The secret that was resolved when the vault was created is resolved again. *)
Lemma device_resolve_again android inj salt rnd d d' dev :
  device_resolve android inj salt true rnd d = (d', Ok dev) ->
  kdf_file d' = kdf_file d /\ db_file d' = db_file d
  /\ forall d2 r, bind_files d2 = bind_files d' -> keyring d2 = keyring d' -> keyring_up d2 = keyring_up d' ->
       device_resolve android inj salt false r d2 = (d2, Ok dev).
Proof.
  unfold device_resolve. destruct inj as [l|].
  { unfold lift. destruct (parse_secret l); intros; simplify_eq. split_and!; done. }
  unfold os_secret. destruct android; [done|]. unfold mbind, stM_bind, get, lift, mret, stM_ret, throw.
  destruct (bind_files d !! account salt) as [l|] eqn:Hb.
  { destruct (parse_secret l) eqn:Hp; intros; simplify_eq. split_and!; try done. intros d2 r -> _ _. by rewrite Hb, Hp. }
  destruct (keyring_load salt d) as [sec|e] eqn:Hk.
  { intros; simplify_eq. split_and!; try done. intros d2 r -> Hr Hu. rewrite Hb. unfold keyring_load in *. by rewrite Hr, Hu, Hk. }
  cbn [negb]. intros Hw.
  assert (exists d1, kdf_file d1 = kdf_file d /\ db_file d1 = db_file d
    /\ disk_write (fun d => d <| bind_files ::= <[account salt := to_vec rnd]> |>) d1 = (d', Ok tt) /\ dev = rnd) as (d1 & K1 & D1 & Hw1 & ->).
  { destruct (keyring_up d); unfold modify in Hw; cbn beta iota in Hw;
      (destruct (disk_write _ _) as [d3 [[]|]] eqn:E; [|discriminate Hw]); injection Hw as <- <-; eexists; split_and!; try apply E; done. }
  apply disk_write_ok in Hw1 as [w ->]. cbn. split_and!; [done | done|]. intros d2 r Hb2 _ _. rewrite Hb2, lookup_insert_eq.
  unfold parse_secret. by rewrite try_into_to_vec.
Qed.

Lemma vault_created android p i ds salt rnd d0 d v :
  create_bound android p i ds salt rnd d0 = (d, Ok v) ->
  exists k dev kv, check_passphrase p = Ok tt /\ argon2 (as_bytes p) (to_vec salt) M_COST_KIB T_COST P_COST = Some k
    /\ conn_key v = mix_device_key k dev /\ kdf_file d = Some (kdf_encode (std_kdf salt)) /\ vault_at v kv d
    /\ holds (mk_kept i None None None None) kv
    /\ forall d2 r, bind_files d2 = bind_files d -> keyring d2 = keyring d -> keyring_up d2 = keyring_up d ->
         device_resolve android ds (to_vec salt) false r d2 = (d2, Ok dev).
Proof.
  unfold create_bound. intros Hc. apply stM_bind_ok in Hc as (d1 & [] & Hp & Hc). unfold lift in Hp.
  apply stM_bind_ok in Hc as (d2 & d2' & Hg & Hc). unfold get in Hg. simplify_eq.
  destruct (has (kdf_file d2')) eqn:Hk0; [done|]. destruct (has (db_file d2')) eqn:Hd0; [done|]. cbn [orb] in Hc.
  apply stM_bind_ok in Hc as (d3 & [] & Hw & Hc). apply disk_write_ok in Hw as [w ->].
  apply stM_bind_ok in Hc as (d4 & k' & Hd & Hc). unfold lift, derive in Hd.
  destruct (argon2 _ _ _ _ _) as [k|] eqn:Ha; [|done]. cbn [ok_or] in Hd. injection Hd as <- <-.
  apply stM_bind_ok in Hc as (d5 & dev & Hdev & Hc). destruct (device_resolve_again _ _ _ _ _ _ _ Hdev) as (K5 & D5 & Hagain).
  apply stM_bind_ok in Hc as (d6 & v6 & Hopen & Hc).
  assert (v6 = mk_vault (mix_device_key k dev) /\ kdf_file d6 = kdf_file d5 /\ bind_files d6 = bind_files d5 /\ keyring d6 = keyring d5
    /\ keyring_up d6 = keyring_up d5 /\ db_file d6 = Some (mk_vdb None None)) as (-> & K6 & B6 & R6 & U6 & D6).
  { unfold open_cipher in Hopen. apply stM_bind_ok in Hopen as (d5' & d5'' & Hg & Hopen). unfold get in Hg. simplify_eq.
    rewrite D5 in Hopen. cbn in Hopen. destruct (db_file d2') as [db|]; [done|].
    apply stM_bind_ok in Hopen as (d7 & [] & Hw & Hopen). apply disk_write_ok in Hw as [w6 ->].
    unfold mret, stM_ret in Hopen. simplify_eq. done. }
  apply stM_bind_ok in Hc as (d7 & [] & Hct & Hc). unfold create_table, mbind, stM_bind, get in Hct. rewrite D6 in Hct. cbn in Hct.
  apply disk_write_ok in Hct as [w7 ->]. apply stM_bind_ok in Hc as (d8 & [] & Hsave & Hc). unfold mret, stM_ret in Hc. simplify_eq.
  destruct ((fun Hv => save_at (mk_vault (mix_device_key k dev)) ∅ i _ _ Hv Hsave) eq_refl) as (snap & He & Hv & (K8 & B8 & R8 & U8)).
  cbn in K8, B8, R8, U8. exists k, dev, (<[MLS_KEY := encode_mls_storage i]> (<[SNAPSHOT_KEY := snap]> ∅)). split_and!; try done.
  - rewrite K8, K6, K5. done.
  - split; cbn [kept_install kept_home kept_display kept_inbox kept_invites fmap option_fmap option_map]; [|keys; apply lookup_empty..].
    exists snap. split; [done|]. split; [keys; apply lookup_insert_eq | apply lookup_insert_eq].
  - intros e r Hb Hr Hu. apply Hagain; congruence.
Qed.

Lemma open_at android p ds salt d v kv k dev :
  check_passphrase p = Ok tt -> kdf_file d = Some (kdf_encode (std_kdf salt)) ->
  argon2 (as_bytes p) (to_vec salt) M_COST_KIB T_COST P_COST = Some k ->
  device_resolve android ds (to_vec salt) false (arr_repeat KEY_LEN x00) d = (d, Ok dev) -> vault_at v kv d ->
  open_bound android p ds d =
  if bool_decide (conn_key v = mix_device_key k dev)
  then let '(d', r) := load_installation d in (d', r ≫= fun i => Ok (mk_vault (mix_device_key k dev), i))
  else (d, Err VaultLocked).
Proof.
  intros Hp Hk Ha Hdev Hv. unfold open_bound, mbind, stM_bind, lift, get, read_kdf. rewrite Hp, Hk. unfold vault_at in Hv. rewrite Hv. cbn [has negb orb].
  unfold mbind, stM_bind, get, lift. rewrite Hk. cbn [ok_or]. rewrite kdf_roundtrip. unfold derive. cbn [kdf_salt m_cost t_cost p_cost kdf_version std_kdf].
  rewrite Ha. cbn [ok_or]. change (KDF_VERSION <=? KDF_VERSION) with true. cbn beta iota. unfold std_kdf in *. cbn [kdf_salt]. rewrite Hdev.
  unfold mret, stM_ret, open_cipher, mbind, stM_bind, get. rewrite Hv. cbn [vdb_key].
  case_bool_decide; unfold mret, stM_ret, throw; [|done]. by destruct (load_installation d) as [d' [i|e]].
Qed.

(** What a vault can be asked to keep: values that fit memory. *)
Record keepable (k : Kept) : Prop := {
  kb_install : saveable (kept_install k);
  kb_home : forall h, kept_home k = Some h -> client_home_fits h /\ contacts_keyed (ch_contacts h);
  kb_display : forall x, kept_display k = Some x -> wf_value (display_value x) = true;
  kb_inbox : forall x, kept_inbox k = Some x -> inbox_fits x;
  kb_invites : forall l, kept_invites k = Some l ->
    wf_value (invites_value l) = true /\ Forall (fun i => invite_ttl_secs i <= U64_MAX) l
}.

Lemma load_home_at v kv k d : vault_at v kv d -> holds k kv -> keepable k -> vault_load_home d = (d, Ok (kept_home k)).
Proof.
  intros Hv Hk Hf. unfold vault_load_home, mbind, stM_bind. rewrite (get_opt_at v kv) by done. rewrite (ho_home _ _ Hk).
  destruct (kept_home k) as [h|] eqn:E; cbn; [|done]. destruct (kb_home k Hf h E). unfold lift. by rewrite client_home_decode_encode.
Qed.

Lemma load_display_at v kv k d :
  vault_at v kv d -> holds k kv -> keepable k -> load_display d = (d, Ok (default (mk_display ∅ ∅ ∅) (kept_display k))).
Proof.
  intros Hv Hk Hf. unfold load_display, mbind, stM_bind. rewrite (get_opt_at v kv) by done. rewrite (ho_display _ _ Hk).
  destruct (kept_display k) as [x|] eqn:E; cbn; [|done]. unfold lift. by rewrite display_decode_encode by by apply (kb_display k Hf).
Qed.

Lemma load_inbox_at v kv k d :
  vault_at v kv d -> holds k kv -> keepable k -> load_inbox d = (d, Ok (default (mk_inbox [] ∅ ∅ ∅ ∅) (kept_inbox k))).
Proof.
  intros Hv Hk Hf. unfold load_inbox, mbind, stM_bind. rewrite (get_opt_at v kv) by done. rewrite (ho_inbox _ _ Hk).
  destruct (kept_inbox k) as [x|] eqn:E; cbn; [|done]. unfold lift. by rewrite inbox_decode_encode by by apply (kb_inbox k Hf).
Qed.

Lemma load_invites_at v kv k d :
  vault_at v kv d -> holds k kv -> keepable k -> load_invites d = (d, Ok (default [] (kept_invites k))).
Proof.
  intros Hv Hk Hf. unfold load_invites, mbind, stM_bind. rewrite (get_opt_at v kv) by done. rewrite (ho_invites _ _ Hk).
  destruct (kept_invites k) as [l|] eqn:E; cbn; [|done]. destruct (kb_invites k Hf l E) as [Hwf Hl]. unfold lift.
  rewrite decode_encode_wf by done. unfold invites_value. cbn -[try_map]. clear -Hl.
  f_equal. induction Hl as [|i l Hi Hl IH]; [done|]. cbn -[try_map]. cbn [try_map]. cbn. rewrite invite_decode_encode by done. cbn.
  by rewrite IH.
Qed.
End Refinement.

(** ** Properties *)

Section Properties.
Context `{CryptoLaws} `{SignalOps} `{!SignalTypesLaws} `{OpenMlsLaws} `{Argon}.

(** C22. A vault is a store of last values: after it was created and any sequence of
    saves of installations, homes, display settings, inboxes and invites has
    succeeded, it opens with the passphrase and device secret it was created
    with, and gives back the installation, with the MLS storage, and the home,
    display settings, inbox and invites that were saved last, or the empty ones
    where none was; the installation saved together with a home counts. *)
Theorem vault_returns_last_saved android p i ds salt rnd ops d0 d1 d2 v :
  create_bound android p i ds salt rnd d0 = (d1, Ok v) -> vault_run ops d1 = (d2, Ok tt) ->
  let k := foldl keep (mk_kept i None None None None) ops in
  keepable k ->
  open_bound android p ds d2 = (d2, Ok (v, restored (kept_install k)))
  /\ vault_load_home d2 = (d2, Ok (kept_home k))
  /\ load_display d2 = (d2, Ok (default (mk_display ∅ ∅ ∅) (kept_display k)))
  /\ load_inbox d2 = (d2, Ok (default (mk_inbox [] ∅ ∅ ∅ ∅) (kept_inbox k)))
  /\ load_invites d2 = (d2, Ok (default [] (kept_invites k))).
Proof.
  intros Hc Hr k Hf. destruct (vault_created _ _ _ _ _ _ _ _ _ Hc) as (pk & dev & kv1 & Hp & Ha & Hck & Hk & Hv1 & Hh1 & Hdev).
  destruct (vault_run_holds v ops _ kv1 d1 d2 Hv1 Hh1 Hr) as (kv & Hv & Hh & (K2 & B2 & R2 & U2)).
  split_and!; [|by eapply load_home_at|by eapply load_display_at|by eapply load_inbox_at|by eapply load_invites_at].
  rewrite (open_at android p ds salt d2 v kv pk dev); [|done|congruence|done|by apply Hdev|done].
  rewrite bool_decide_eq_true_2 by done. rewrite (load_installation_at v kv (kept_install k)); [|done|apply Hf|apply Hh].
  cbn. destruct v; cbn in Hck. by rewrite Hck.
Qed.

(** C23. A vault opens with its own key only: with a passphrase that Argon2 takes to
    another key, with another device secret, and, for a secret that the machine
    keeps, on another machine to which the two files of the vault were copied,
    opening is refused as locked and the disk is left as it was. *)
Theorem vault_locked_without_its_key android p i ds salt rnd ops d0 d1 d2 v :
  create_bound android p i ds salt rnd d0 = (d1, Ok v) -> vault_run ops d1 = (d2, Ok tt) ->
  (forall p' pk', check_passphrase p' = Ok tt -> argon2 (as_bytes p') (to_vec salt) M_COST_KIB T_COST P_COST = Some pk' ->
     argon2 (as_bytes p) (to_vec salt) M_COST_KIB T_COST P_COST <> Some pk' ->
     open_bound android p' ds d2 = (d2, Err VaultLocked))
  /\ (forall dev ds' dev', device_resolve android ds (to_vec salt) false (arr_repeat KEY_LEN x00) d2 = (d2, Ok dev) ->
        device_resolve android ds' (to_vec salt) false (arr_repeat KEY_LEN x00) d2 = (d2, Ok dev') -> dev' <> dev ->
        open_bound android p ds' d2 = (d2, Err VaultLocked))
  /\ (forall d3, kdf_file d3 = kdf_file d2 -> db_file d3 = db_file d2 -> bind_files d3 !! account (to_vec salt) = None ->
        keyring d3 !! account (to_vec salt) = None -> open_bound false p None d3 = (d3, Err VaultLocked)).
Proof.
  intros Hc Hr. destruct (vault_created _ _ _ _ _ _ _ _ _ Hc) as (pk & dev & kv1 & Hp & Ha & Hck & Hk & Hv1 & Hh1 & Hdev).
  destruct (vault_run_holds v ops _ kv1 d1 d2 Hv1 Hh1 Hr) as (kv & Hv & Hh & (K2 & B2 & R2 & U2)). split_and!.
  - intros p' pk' Hp' Ha' Hne. rewrite (open_at android p' ds salt d2 v kv pk' dev); [|done|congruence|done|by apply Hdev|done].
    rewrite bool_decide_eq_false_2; [done|]. rewrite Hck. intros E%mix_inj_l. congruence.
  - intros dev0 ds' dev' Hr0 Hr' Hne. rewrite Hdev in Hr0 by done. injection Hr0 as <-.
    rewrite (open_at android p ds' salt d2 v kv pk dev'); [|done|congruence|done..].
    rewrite bool_decide_eq_false_2; [done|]. rewrite Hck. intros E%mix_inj_r. congruence.
  - intros d3 K3 D3 B3 R3. unfold open_bound, mbind, stM_bind, lift, get, read_kdf. rewrite Hp, K3, D3. unfold vault_at in Hv. rewrite Hv, K2, Hk.
    cbn [has negb orb]. unfold mbind, stM_bind, get, lift. rewrite K3, K2, Hk. cbn [ok_or]. rewrite kdf_roundtrip. unfold derive.
    cbn [kdf_salt m_cost t_cost p_cost kdf_version std_kdf]. rewrite Ha. cbn [ok_or]. change (KDF_VERSION <=? KDF_VERSION) with true. cbn beta iota.
    unfold device_resolve, os_secret, mbind, stM_bind, get, throw, keyring_load. cbn [kdf_salt]. rewrite B3, R3. by destruct (keyring_up d3).
Qed.

(** A full disk keeps the two files of the vault. *)
Lemma device_resolve_full android ds salt rnd d :
  writes_left d = Some O ->
  let '(d', _) := device_resolve android ds salt true rnd d in
  kdf_file d' = kdf_file d /\ db_file d' = db_file d /\ writes_left d' = Some O.
Proof.
  intros Hw. unfold device_resolve. destruct ds as [l|]; [by unfold lift|].
  unfold os_secret. destruct android; [done|]. unfold mbind, stM_bind, get, lift, throw, mret, stM_ret.
  destruct (_ !! _); [done|]. destruct (keyring_load _ _); [done|]. cbn [negb].
  unfold disk_write, mbind, stM_bind, get, modify, throw. destruct (keyring_up d); cbn; by rewrite Hw.
Qed.

(** A creation that stops after the key file blocks the directory: a device secret
    of the wrong length, an Android device without one, or a disk that takes no
    second write leaves the key file without a database, after which every
    creation is refused because a vault exists and every opening because none
    does. *)
Theorem interrupted_create_blocks_directory (android : bool) p i ds salt rnd d0 pk :
  check_passphrase p = Ok tt -> kdf_file d0 = None -> db_file d0 = None ->
  argon2 (as_bytes p) (to_vec salt) M_COST_KIB T_COST P_COST = Some pk ->
  (exists l, ds = Some l /\ lenN l <> KEY_LEN /\ writes_left d0 = None) \/ (android = true /\ ds = None /\ writes_left d0 = None)
    \/ writes_left d0 = Some 1%nat ->
  exists d1 e, create_bound android p i ds salt rnd d0 = (d1, Err e)
    /\ (forall p' i' ds' salt' rnd', check_passphrase p' = Ok tt -> create_bound android p' i' ds' salt' rnd' d1 = (d1, Err VaultExists))
    /\ (forall p' ds', check_passphrase p' = Ok tt -> open_bound android p' ds' d1 = (d1, Err VaultMissing)).
Proof.
  intros Hp Hk Hd Ha Hcase.
  assert (exists d1 e, create_bound android p i ds salt rnd d0 = (d1, Err e) /\ has (kdf_file d1) = true /\ db_file d1 = None)
    as (d1 & e & Hc & Hk1 & Hd1).
  { unfold create_bound, mbind, stM_bind, lift, get. rewrite Hp, Hk, Hd. cbn [has orb].
    unfold write_kdf, disk_write, mbind, stM_bind, get. unfold derive, modify. rewrite Ha. cbn [ok_or].
    destruct Hcase as [(l & -> & Hl & ->)|[(-> & -> & ->)|Hw]].
    - cbn beta iota. unfold device_resolve, lift, parse_secret. destruct (try_into KEY_LEN l) as [a|] eqn:E.
      { apply try_into_Some in E. exfalso. apply Hl. rewrite <- E. apply arr_len. }
      do 2 eexists. split; [reflexivity|]. by split.
    - do 2 eexists. split; [reflexivity|]. by split.
    - rewrite Hw. cbn beta iota. match goal with |- context [device_resolve _ _ _ _ _ ?D] => pose proof (device_resolve_full android ds (to_vec salt) rnd D eq_refl) as Hfull end.
      destruct (device_resolve _ _ _ _ _ _) as [d2 [dev|e]]; destruct Hfull as (K2 & D2 & W2); cbn in K2, D2; rewrite Hd in D2.
      + cbn beta iota. unfold open_cipher, mbind, stM_bind, get. rewrite D2. unfold disk_write, mbind, stM_bind, get. rewrite W2.
        do 2 eexists. split; [reflexivity|]. by rewrite K2.
      + do 2 eexists. split; [reflexivity|]. by rewrite K2. }
  exists d1, e. split; [done|]. split.
  - intros p' i' ds' salt' rnd' Hp'. unfold create_bound, mbind, stM_bind, lift, get. by rewrite Hp', Hk1.
  - intros p' ds' Hp'. unfold open_bound, mbind, stM_bind, lift, get. by rewrite Hp', Hd1, orb_true_r.
Qed.
End Properties.

Section VaultWitnesses.
#[local] Existing Instances Toy.toy Toy.toy_laws ToySignal.types ToySignal.types_laws ToySignal.ops ToySignal.ops_laws
  ToySignal.mls ToySignal.mls_laws.

(** A stand-in that takes the first bytes of the passphrase. *)
#[local] Instance plain_argon : Argon := {|
  argon2 p salt m t c := try_into KEY_LEN (takeN KEY_LEN (p ++ replicate 32 x00))
|}.

Definition blank_disk : Disk := mk_disk None None ∅ ∅ true None.
Definition sample_salt : arr SALT_LEN := arr_repeat SALT_LEN x0a.
Definition sample_words : rstring := lit "a long passphrase".

Definition sample_display : Display := mk_display {[lit "ab" := lit "Bob"]} {[lit "ab" := 3600]} ∅.
Definition sample_inbox : Inbox := mk_inbox [] {[lit "ab" := 4]} {[lit "ab" := 2]} ∅ {[lit "g" := {[lit "ab" := 3]}]}.

Definition sample_saves : list vault_op :=
  [VDisplay (mk_display ∅ ∅ ∅); VHome sample_receiver sample_client_home; VDisplay sample_display; VInbox sample_inbox].

Definition sample_created : Disk * cresult Vault :=
  create_bound false sample_words sample_sender None sample_salt (arr_repeat KEY_LEN x5a) blank_disk.

Example vault_returns_last_saved_witness :
  exists d v, open_bound false sample_words None d = (d, Ok (v, restored sample_receiver))
    /\ vault_load_home d = (d, Ok (Some sample_client_home)) /\ load_display d = (d, Ok sample_display)
    /\ load_inbox d = (d, Ok sample_inbox) /\ load_invites d = (d, Ok []).
Proof.
  assert (is_ok sample_created.2 = true) as Hok by (vm_compute; reflexivity).
  assert (is_ok (vault_run sample_saves sample_created.1).2 = true) as Hok2 by (vm_compute; reflexivity).
  destruct sample_created as [d1 [v|]] eqn:Hc; [|discriminate Hok]. cbn [fst] in Hok2.
  destruct (vault_run sample_saves d1) as [d2 [[]|]] eqn:Hr; [|discriminate Hok2].
  exists d2, v. apply (vault_returns_last_saved false sample_words sample_sender None sample_salt (arr_repeat KEY_LEN x5a) sample_saves
    blank_disk d1 d2 v Hc Hr). cbn [foldl keep sample_saves kept_home kept_display kept_inbox kept_invites kept_install].
  split; cbn [kept_home kept_display kept_inbox kept_invites kept_install].
  - refine (conj sample_receiver_typed (conj sample_receiver_fits _)). vm_compute. reflexivity.
  - intros h [= <-]. split.
    + refine (conj _ (conj _ _)); vm_compute; [reflexivity | discriminate | discriminate].
    + intros id c. unfold sample_client_home. cbn [ch_contacts].
      intros [[<- <-]|[_ Hcc]]%lookup_insert_Some; [reflexivity|]. rewrite lookup_empty in Hcc. discriminate.
  - intros x [= <-]. vm_compute. reflexivity.
  - intros x [= <-]. split; [vm_compute; reflexivity|]. intros g inner. cbn [inbox_group_read sample_inbox]. intros [_ <-]%lookup_singleton_Some.
    exact (map_non_empty_singleton (lit "ab") 3).
  - discriminate.
Defined.

Example vault_locked_without_its_key_witness :
  exists d, open_bound false (lit "another passphrase") None d = (d, Err VaultLocked)
    /\ open_bound false sample_words (Some (replicate 32 x00)) d = (d, Err VaultLocked)
    /\ forall d3, kdf_file d3 = kdf_file d -> db_file d3 = db_file d -> bind_files d3 = ∅ -> keyring d3 = ∅ ->
         open_bound false sample_words None d3 = (d3, Err VaultLocked).
Proof.
  assert (is_ok sample_created.2 = true) as Hok by (vm_compute; reflexivity).
  assert (is_ok (vault_run sample_saves sample_created.1).2 = true) as Hok2 by (vm_compute; reflexivity).
  assert (bind_files (vault_run sample_saves sample_created.1).1 !! account (to_vec sample_salt) = Some (replicate 32 x5a)) as Hb
    by (vm_compute; reflexivity).
  destruct sample_created as [d1 [v|]] eqn:Hc; [|discriminate Hok]. cbn [fst] in Hok2, Hb.
  destruct (vault_run sample_saves d1) as [d2 [[]|]] eqn:Hr; [|discriminate Hok2]. cbn [fst] in Hb.
  destruct (vault_locked_without_its_key false sample_words sample_sender None sample_salt (arr_repeat KEY_LEN x5a) sample_saves
    blank_disk d1 d2 v Hc Hr) as (Hpass & Hsecret & Hcopy).
  exists d2. refine (conj _ (conj _ _)).
  - apply (Hpass (lit "another passphrase") (default (arr_repeat KEY_LEN x00)
      (try_into KEY_LEN (as_bytes (lit "another passphrase") ++ replicate 14 x00)))); [vm_compute; reflexivity | vm_compute; reflexivity |].
    vm_compute. discriminate.
  - apply (Hsecret (arr_repeat 32 x5a) (Some (replicate 32 x00)) (arr_repeat 32 x00)).
    + unfold device_resolve, os_secret, mbind, stM_bind, get. rewrite Hb. unfold lift. f_equal.
    + unfold device_resolve, lift. f_equal.
    + vm_compute. discriminate.
  - intros d3 K3 D3 B3 R3. apply Hcopy; [exact K3 | exact D3 | rewrite B3 | rewrite R3]; apply lookup_empty.
Defined.

Example interrupted_create_blocks_directory_witness :
  exists d1 e, create_bound true sample_words sample_sender None sample_salt (arr_repeat KEY_LEN x5a) blank_disk = (d1, Err e)
    /\ create_bound true sample_words sample_sender (Some (replicate 32 x01)) sample_salt (arr_repeat KEY_LEN x5a) d1 = (d1, Err VaultExists)
    /\ open_bound true sample_words (Some (replicate 32 x01)) d1 = (d1, Err VaultMissing).
Proof.
  destruct (interrupted_create_blocks_directory true sample_words sample_sender None sample_salt (arr_repeat KEY_LEN x5a) blank_disk
    (default (arr_repeat KEY_LEN x00) (try_into KEY_LEN (as_bytes sample_words ++ replicate 15 x00)))) as (d1 & e & Hc & Hx & Ho); [vm_compute; reflexivity..| |].
  - right. left. exact (conj eq_refl (conj eq_refl eq_refl)).
  - exists d1, e. exact (conj Hc (conj (Hx sample_words sample_sender (Some (replicate 32 x01)) sample_salt (arr_repeat KEY_LEN x5a) eq_refl)
      (Ho sample_words (Some (replicate 32 x01)) eq_refl))).
Defined.
End VaultWitnesses.
