(* ===== verification/MlsLib.v ===== *)
(** * The interface of OpenMLS

    What [nemo-core/src/group.rs] uses of the [openmls] crate, as a class: a group,
    its tree and the commit it has staged, the messages, and the operations, which
    work on a group and the provider behind it. The laws are the documented
    behaviour of RFC 9420 and of the crate that the client's promises rest on. *)

From S2P Require Export Install HostFrame Privacy Join.

(** ** Data *)

(** [openmls::framing::Sender]. *)
Inductive Sender : Type :=
| SMember (index : N)
| SExternal (index : N)
| SNewMemberProposal
| SNewMemberCommit.

(** The kind of a proposal. *)
Inductive ProposalKind : Type :=
| KAdd | KUpdate | KRemove | KPreSharedKey | KReInit | KExternalInit | KGroupContextExtensions | KOther.

(** [ProcessedMessageContent]. *)
Inductive Content (Staged : Type) : Type :=
| ApplicationMessage (b : bytes)
| ProposalMessage (kind : ProposalKind)
| ExternalJoinProposalMessage
| StagedCommitMessage (c : Staged)
| OwnPendingCommit
| OwnPrivateMessage.
Arguments ApplicationMessage {Staged} b.
Arguments ProposalMessage {Staged} kind.
Arguments ExternalJoinProposalMessage {Staged}.
Arguments StagedCommitMessage {Staged} c.
Arguments OwnPendingCommit {Staged}.
Arguments OwnPrivateMessage {Staged}.

(** [ProcessMessageError], of which the client tells one apart. *)
Inductive ProcessFail : Type := WrongEpoch | ProcessError (msg : message_text).

(** The arguments of the builders. *)
Record Capabilities : Type := mk_caps { cap_suites : list N; cap_extensions : list N; cap_credentials : list N }.

Record Member (Credential : Type) : Type := mk_member { m_index : N; m_credential : Credential; m_signature_key : bytes }.
Arguments mk_member {Credential} _ _ _.
Arguments m_index {Credential} _.
Arguments m_credential {Credential} _.
Arguments m_signature_key {Credential} _.

Record Processed (Staged : Type) : Type := mk_processed { pm_sender : Sender; pm_content : Content Staged }.
Arguments mk_processed {Staged} _ _.
Arguments pm_sender {Staged} _.
Arguments pm_content {Staged} _.

Record GroupConfig (Exts : Type) : Type := mk_config {
  cfg_suite : N;
  cfg_tree_extension : bool;
  cfg_ratchet : N * N;
  cfg_capabilities : Capabilities;
  cfg_leaf : Exts
}.
Arguments mk_config {Exts} _ _ _ _ _.
Arguments cfg_suite {Exts} _.
Arguments cfg_leaf {Exts} _.

(** ** The crate *)

Class MlsLib `{OpenMls} := {
  MlsGroup : Type;
  Credential : Type;
  Extensions : Type;
  LeafNode : Type;
  KeyPackageIn : Type;
  KeyPackage : Type;
  StagedCommit : Type;
  SignatureKeyPair : Type;
  MlsMessageIn : Type;
  MlsMessageOut : Type;
  ProtocolMessage : Type;
  Welcome : Type;
  (* credentials, extensions and leaves *)
  basic_credential : bytes -> Credential;
  basic_identity : Credential -> option bytes;
  exts_from_vec : list (N * bytes) -> result message_text Extensions;
  exts_unknown : Extensions -> N -> option bytes;
  leaf_exts : LeafNode -> Extensions;
  leaf_signature_key : LeafNode -> bytes;
  leaf_credential : LeafNode -> Credential;
  (* key packages *)
  kp_deserialize_exact : bytes -> result message_text KeyPackageIn;
  kp_validate : KeyPackageIn -> result message_text KeyPackage;
  kp_leaf_node : KeyPackage -> LeafNode;
  kp_ciphersuite : KeyPackage -> N;
  kp_hash_ref : KeyPackage -> result message_text bytes;
  kp_serialize : KeyPackage -> result message_text bytes;
  kp_build : N -> Capabilities -> Extensions -> SignatureKeyPair -> Credential * bytes -> stM MlsProvider message_text KeyPackage;
  (* signers *)
  skp_from_raw : bytes -> bytes -> SignatureKeyPair;
  skp_public : SignatureKeyPair -> bytes;
  skp_serialize : SignatureKeyPair -> result message_text bytes;
  skp_deserialize_exact : bytes -> result message_text SignatureKeyPair;
  skp_store : SignatureKeyPair -> stM MlsProvider message_text unit;
  (* messages *)
  msg_deserialize_exact : bytes -> result message_text MlsMessageIn;
  msg_deserialize : bytes -> result message_text MlsMessageIn;
  msg_into_protocol : MlsMessageIn -> result message_text ProtocolMessage;
  msg_welcome : MlsMessageIn -> option Welcome;
  protocol_epoch : ProtocolMessage -> N;
  welcome_new_members : Welcome -> list bytes;
  msg_serialize : MlsMessageOut -> result message_text bytes;
  (* staged commits *)
  staged_updates : StagedCommit -> list (Sender * LeafNode);
  staged_path : StagedCommit -> option LeafNode;
  staged_adds : StagedCommit -> list KeyPackage;
  staged_removes : StagedCommit -> list N;
  staged_queued : StagedCommit -> list ProposalKind;
  (* groups, read *)
  mls_epoch : MlsGroup -> N;
  mls_gid : MlsGroup -> bytes;
  mls_suite : MlsGroup -> N;
  mls_members : MlsGroup -> list (Member Credential);
  mls_leaves : MlsGroup -> list LeafNode;
  mls_own_leaf : MlsGroup -> option LeafNode;
  mls_own_index : MlsGroup -> N;
  mls_is_active : MlsGroup -> bool;
  mls_pending_commit : MlsGroup -> option StagedCommit;
  (* groups, changed *)
  mls_load : bytes -> MlsProvider -> result message_text (option MlsGroup);
  mls_new : SignatureKeyPair -> GroupConfig Extensions -> Credential * bytes -> stM MlsProvider message_text MlsGroup;
  mls_from_welcome : GroupConfig Extensions -> Welcome -> stM MlsProvider message_text MlsGroup;
  mls_process_message : ProtocolMessage -> stM (MlsGroup * MlsProvider) ProcessFail (Processed StagedCommit);
  mls_create_message : SignatureKeyPair -> bytes -> stM (MlsGroup * MlsProvider) message_text MlsMessageOut;
  mls_self_update : SignatureKeyPair -> Capabilities -> Extensions -> stM (MlsGroup * MlsProvider) message_text MlsMessageOut;
  mls_self_update_with_new_signer : SignatureKeyPair -> SignatureKeyPair -> Credential * bytes -> Capabilities -> Extensions ->
    stM (MlsGroup * MlsProvider) message_text MlsMessageOut;
  mls_add_members : SignatureKeyPair -> list KeyPackage -> stM (MlsGroup * MlsProvider) message_text (MlsMessageOut * MlsMessageOut);
  mls_remove_members : SignatureKeyPair -> list N -> stM (MlsGroup * MlsProvider) message_text MlsMessageOut;
  mls_merge_pending_commit : stM (MlsGroup * MlsProvider) message_text unit;
  mls_merge_staged_commit : StagedCommit -> stM (MlsGroup * MlsProvider) message_text unit;
  mls_clear_pending_commit : stM (MlsGroup * MlsProvider) message_text unit
}.

(** ** What the crate promises *)

Section Laws.
Context `{MlsLib}.

(** The ratchet tree: the leaf at each occupied index. *)
Definition tree (m : MlsGroup) : gmap N LeafNode := list_to_map (zip (m_index <$> mls_members m) (mls_leaves m)).

(** The groups agree on all but the staged commit and the message secrets. *)
Record same_tree (m m' : MlsGroup) : Prop := {
  st_members : mls_members m' = mls_members m;
  st_leaves : mls_leaves m' = mls_leaves m;
  st_own_leaf : mls_own_leaf m' = mls_own_leaf m;
  st_own_index : mls_own_index m' = mls_own_index m;
  st_active : mls_is_active m' = mls_is_active m;
  st_gid : mls_gid m' = mls_gid m;
  st_suite : mls_suite m' = mls_suite m
}.

Definition same_group (m m' : MlsGroup) : Prop := same_tree m m' /\ mls_pending_commit m' = mls_pending_commit m.

(** [m'] is [m] after the commit [c] of the member at [s] (RFC 9420, section 12.4):
    its members are the ones that were not removed, with the leaves the commit
    gives them, and the added ones at indices that were free. *)
Record committed (m : MlsGroup) (s : N) (c : StagedCommit) (m' : MlsGroup) : Prop := {
  cm_pending : mls_pending_commit m' = None;
  cm_own_index : mls_own_index m' = mls_own_index m;
  cm_gid : mls_gid m' = mls_gid m;
  cm_suite : mls_suite m' = mls_suite m;
  cm_active : mls_is_active m' = mls_is_active m && negb (bool_decide (mls_own_index m ∈ staged_removes c));
  cm_kept i l : tree m !! i = Some l -> i ∉ staged_removes c -> exists l', tree m' !! i = Some l'
    /\ (l' = l \/ (i = s /\ staged_path c = Some l') \/ (SMember i, l') ∈ staged_updates c);
  cm_path l : staged_path c = Some l -> tree m' !! s = Some l;
  cm_fresh i l : tree m' !! i = Some l -> tree m !! i = None \/ i ∈ staged_removes c -> l ∈ kp_leaf_node <$> staged_adds c;
  cm_added k : k ∈ staged_adds c -> exists i, tree m' !! i = Some (kp_leaf_node k)
}.

(** The commit a group stages for itself: the leaf of its path has the credential,
    signature key and extensions given. *)
Record own_commit (e : Extensions) (cwk : Credential * bytes) (adds : list KeyPackage) (removes : list N)
    (c : StagedCommit) : Prop := {
  oc_updates : staged_updates c = [];
  oc_adds : staged_adds c = adds;
  oc_removes : staged_removes c = removes;
  oc_path l : staged_path c = Some l -> leaf_exts l = e /\ leaf_credential l = cwk.1 /\ leaf_signature_key l = cwk.2
}.

(** A call that stages a commit, or fails and stages none; a member that was removed
    stages none. *)
Definition stages {A} (m m' : MlsGroup) (r : result message_text A) (Q : StagedCommit -> Prop) : Prop :=
  match r with
  | Ok _ => mls_is_active m = true /\ same_tree m m' /\ exists c, mls_pending_commit m' = Some c /\ Q c
  | Err _ => same_group m m'
  end.

End Laws.

Class MlsLibLaws `{MlsLib} : Prop := {
  skp_public_raw sk pk : skp_public (skp_from_raw sk pk) = pk;
  basic_identity_of b : basic_identity (basic_credential b) = Some b;
  exts_vec l e ty : exts_from_vec l = Ok e -> exts_unknown e ty = (list_to_map l : gmap N bytes) !! ty;
  (* a tree: the members are its leaves, at different indices, with different signature keys *)
  members_are_leaves m :
    Forall2 (fun mb l => m_signature_key mb = leaf_signature_key l /\ m_credential mb = leaf_credential l)
      (mls_members m) (mls_leaves m);
  members_indices m : NoDup (m_index <$> mls_members m);
  members_keys m : NoDup (m_signature_key <$> mls_members m);
  own_leaf_at m : mls_is_active m = true -> mls_own_leaf m = tree m !! mls_own_index m /\ is_Some (mls_own_leaf m);
  (* processing a message changes the message secrets only *)
  process_same pm m p m' p' r : mls_process_message pm (m, p) = ((m', p'), r) -> same_group m m';
  (* a commit is of a member other than the group's own, or an external commit; it
     carries no Update of the own leaf, which only the group itself could propose *)
  process_commit pm m p m' p' s c :
    mls_process_message pm (m, p) = ((m', p'), Ok (mk_processed s (StagedCommitMessage c))) ->
    KExternalInit ∈ staged_queued c
    \/ exists i, s = SMember i /\ is_Some (tree m !! i) /\ i <> mls_own_index m /\ i ∉ staged_removes c
        /\ (forall l, (SMember (mls_own_index m), l) ∉ staged_updates c)
        /\ forall m2 p2, mls_merge_staged_commit c (m', p') = ((m2, p2), Ok tt) -> committed m' i c m2;
  merge_staged_fails c m p m' p' e : mls_merge_staged_commit c (m, p) = ((m', p'), Err e) -> same_group m m';
  create_same sk b m p m' p' r : mls_create_message sk b (m, p) = ((m', p'), r) -> same_group m m';
  (* the group's own commits *)
  self_update_stages sk ca e m p m' p' r : mls_self_update sk ca e (m, p) = ((m', p'), r) ->
    stages m m' r (fun c => is_Some (staged_path c) /\ exists l, mls_own_leaf m = Some l
      /\ own_commit e (leaf_credential l, leaf_signature_key l) [] [] c);
  new_signer_stages sk sk' cwk ca e m p m' p' r : mls_self_update_with_new_signer sk sk' cwk ca e (m, p) = ((m', p'), r) ->
    stages m m' r (fun c => is_Some (staged_path c) /\ own_commit e cwk [] [] c);
  add_stages sk kps m p m' p' r : mls_add_members sk kps (m, p) = ((m', p'), r) ->
    stages m m' r (fun c => exists l, mls_own_leaf m = Some l
      /\ own_commit (leaf_exts l) (leaf_credential l, leaf_signature_key l) kps [] c);
  remove_stages sk idxs m p m' p' r : mls_remove_members sk idxs (m, p) = ((m', p'), r) ->
    stages m m' r (fun c => mls_own_index m ∉ idxs /\ exists l, mls_own_leaf m = Some l
      /\ own_commit (leaf_exts l) (leaf_credential l, leaf_signature_key l) [] idxs c);
  merge_pending_commits m p m' p' r : mls_merge_pending_commit (m, p) = ((m', p'), r) ->
    match r with
    | Ok _ => match mls_pending_commit m with Some c => committed m (mls_own_index m) c m' | None => same_group m m' end
    | Err _ => same_group m m'
    end;
  clear_pending_clears m p m' p' r : mls_clear_pending_commit (m, p) = ((m', p'), r) ->
    match r with Ok _ => same_tree m m' /\ mls_pending_commit m' = None | Err _ => same_group m m' end;
  (* new groups *)
  new_group sk cfg cwk p p' m : mls_new sk cfg cwk p = (p', Ok m) ->
    mls_pending_commit m = None /\ mls_is_active m = true /\ mls_suite m = cfg_suite cfg
    /\ exists l, tree m = {[mls_own_index m := l]} /\ leaf_exts l = cfg_leaf cfg /\ leaf_credential l = cwk.1
       /\ leaf_signature_key l = cwk.2;
  welcome_group cfg w p p' m : mls_from_welcome cfg w p = (p', Ok m) -> mls_pending_commit m = None /\ mls_is_active m = true
}.
