(* ===== verification/ToyMls.v ===== *)
(** * A concrete instance of the OpenMLS interface

    A group is its tree, its own index and its staged commit; a message says in
    clear what it does. It satisfies the laws of [MlsLib], for the witnesses. *)

From S2P Require Export MlsLib.
From S2P Require Import Toy ToySignal.

Module ToyMls.
Record leaf : Type := mk_leaf { l_exts : list (N * bytes); l_cred : bytes; l_sig : bytes }.

#[local] Instance leaf_eq : EqDecision leaf.
Proof. solve_decision. Defined.

(** A commit and the index of the member that makes it. *)
Record commit : Type := mk_commit { c_from : N; c_path : option leaf; c_adds : list leaf; c_removes : list N }.

Record raw : Type := mk_raw { r_gid : bytes; r_own : N; r_tree : list (N * leaf); r_pend : option commit; r_active : bool }.

Definition raw_ok (g : raw) : bool :=
  bool_decide (NoDup (r_tree g).*1) && bool_decide (NoDup (l_sig <$> (r_tree g).*2))
  && (negb (r_active g) || bool_decide (r_own g ∈ (r_tree g).*1)).

Definition group : Type := { g : raw | raw_ok g = true }.

Definition mk (g : raw) : option group :=
  match decide (raw_ok g = true) with left p => Some (exist _ g p) | right _ => None end.

Definition empty : group := exist (fun g => raw_ok g = true) (mk_raw [] 0 [] None false) eq_refl.

Definition ltree (g : raw) : gmap N leaf := list_to_map (r_tree g).

Definition top (l : list (N * leaf)) : N := foldr (fun e n => N.max (N.succ e.1) n) 0 l.

Fixpoint number (n : N) (l : list leaf) : list (N * leaf) :=
  match l with [] => [] | x :: l => (n, x) :: number (N.succ n) l end.

(** The tree after a commit. *)
Definition kept_leaf (c : commit) (e : N * leaf) : N * leaf :=
  (e.1, if bool_decide (e.1 = c_from c) then default e.2 (c_path c) else e.2).

Definition next_tree (t : list (N * leaf)) (c : commit) : list (N * leaf) :=
  (kept_leaf c <$> filter (fun e => e.1 ∉ c_removes c) t) ++ number (top t) (c_adds c).

Definition apply_commit (g : raw) (c : commit) : option group :=
  if bool_decide (c_from c ∈ (r_tree g).*1 /\ c_from c ∉ c_removes c)
  then mk (mk_raw (r_gid g) (r_own g) (next_tree (r_tree g) c) None (r_active g && negb (bool_decide (r_own g ∈ c_removes c))))
  else None.

Definition with_pend (g : group) (p : option commit) : group :=
  exist _ (mk_raw (r_gid (`g)) (r_own (`g)) (r_tree (`g)) p (r_active (`g))) (proj2_sig g).

(** The storage holds the own leaf of a group under the group's id. *)
Definition own_leaf (g : raw) : option leaf := ltree g !! r_own g.

Definition leaf_bytes (l : leaf) : bytes := concat (snd <$> l_exts l) ++ l_cred l ++ l_sig l.

Definition leaf_of (l : bytes) : leaf :=
  mk_leaf [(61441, takeN 32 l); (61442, takeN 32 (dropN 32 l))] (takeN 32 (dropN 64 l)) (dropN 96 l).

Notation storage := (gmap bytes bytes).

Definition write (g : group) (p : storage) : storage :=
  match own_leaf (`g) with Some l => <[r_gid (`g) := leaf_bytes l]> p | None => p end.

Definition read_group (gid : bytes) (p : storage) : option group :=
  match p !! gid with Some l => mk (mk_raw gid 0 [(0, leaf_of l)] None true) | None => None end.

(** A call that stages [c], if the group is active and has none. *)
Definition stage {A} (a : A) (c : N -> leaf -> option commit) : stM (group * storage) message_text A := fun s =>
  let g := s.1 in
  match r_pend (`g), own_leaf (`g) with
  | None, Some l =>
      match (if r_active (`g) then c (r_own (`g)) l else None) with
      | Some c => ((with_pend g (Some c), s.2), Ok a)
      | None => (s, Err "inactive")
      end
  | _, _ => (s, Err "pending commit")
  end.

Definition merge_pending : stM (group * storage) message_text unit := fun s =>
  match r_pend (`s.1) with
  | None => (s, Ok tt)
  | Some c =>
      match (if bool_decide (c_from c = r_own (`s.1)) then apply_commit (`s.1) c else None) with
      | Some g => ((g, write g s.2), Ok tt)
      | None => (s, Err "invalid commit")
      end
  end.

Definition merge_staged (c : commit) : stM (group * storage) message_text unit := fun s =>
  match apply_commit (`s.1) c with
  | Some g => ((g, write g s.2), Ok tt)
  | None => (s, Err "invalid commit")
  end.

(** [1] is the own commit, [2 i j] removes [j], [3 i k] rotates the key of [i] to 32
    times [k], and [4 i a k1 k2] adds two leaves with the credential id of 32 times [a]. *)
Definition fresh_leaf (a k : byte) : leaf := mk_leaf [(61441, replicate 32 a); (61442, replicate 32 k)] (replicate 32 k) (replicate 32 k).

Definition rekey (k : byte) (l : leaf) : leaf :=
  mk_leaf (match l_exts l with [e; _] => [e; (61442, replicate 32 k)] | x => x end) (l_cred l) (replicate 32 k).

Definition parse (g : raw) (m : bytes) : option commit :=
  match m with
  | [x02; i; j] => Some (mk_commit (Byte.to_N i) None [] [Byte.to_N j])
  | [x03; i; k] => Some (mk_commit (Byte.to_N i) (rekey k <$> ltree g !! Byte.to_N i) [] [])
  | [x04; i; a; k1; k2] => Some (mk_commit (Byte.to_N i) None [fresh_leaf a k1; fresh_leaf a k2] [])
  | _ => None
  end.

Definition read_message (m : bytes) : stM (group * storage) ProcessFail (Processed commit) := fun s =>
  let g := `s.1 in
  match parse g m with
  | Some c =>
      if bool_decide (c_from c ∈ (r_tree g).*1 /\ c_from c <> r_own g /\ c_from c ∉ c_removes c)
      then (s, Ok (mk_processed (SMember (c_from c)) (StagedCommitMessage c)))
      else (s, Err WrongEpoch)
  | None =>
      match m with
      | [x01] => (s, Ok (mk_processed (SMember (r_own g)) OwnPendingCommit))
      | _ => (s, Ok (mk_processed (SMember (r_own g)) (ApplicationMessage m)))
      end
  end.

#[local] Existing Instances ToySignal.mls.

#[local] Instance lib : MlsLib := {|
  MlsGroup := group;
  Credential := bytes;
  Extensions := list (N * bytes);
  LeafNode := leaf;
  KeyPackageIn := leaf;
  KeyPackage := leaf;
  StagedCommit := commit;
  SignatureKeyPair := bytes * bytes;
  MlsMessageIn := bytes;
  MlsMessageOut := bytes;
  ProtocolMessage := bytes;
  Welcome := bytes;
  basic_credential b := b;
  basic_identity b := Some b;
  exts_from_vec l := Ok l;
  exts_unknown e ty := (list_to_map e : gmap N bytes) !! ty;
  leaf_exts := l_exts;
  leaf_signature_key := l_sig;
  leaf_credential := l_cred;
  kp_deserialize_exact l := Ok (leaf_of l);
  kp_validate l := Ok l;
  kp_leaf_node l := l;
  kp_ciphersuite _ := 3;
  kp_hash_ref l := Ok (leaf_bytes l);
  kp_serialize l := Ok (leaf_bytes l);
  kp_build _ _ e _ cwk := fun p => (p, Ok (mk_leaf e cwk.1 cwk.2));
  skp_from_raw a b := (a, b);
  skp_public := snd;
  skp_serialize s := Ok (s.1 ++ s.2);
  skp_deserialize_exact l := Ok (takeN 32 l, dropN 32 l);
  skp_store _ := fun p => (p, Ok tt);
  msg_deserialize_exact l := Ok l;
  msg_deserialize l := Ok l;
  msg_into_protocol l := Ok l;
  msg_welcome _ := None;
  protocol_epoch _ := 0;
  welcome_new_members _ := [];
  msg_serialize l := Ok l;
  staged_updates _ := [];
  staged_path := c_path;
  staged_adds := c_adds;
  staged_removes := c_removes;
  staged_queued c := (const KAdd <$> c_adds c) ++ (const KRemove <$> c_removes c);
  mls_epoch _ := 0;
  mls_gid g := r_gid (`g);
  mls_suite _ := 3;
  mls_members g := (fun e => mk_member e.1 (l_cred e.2) (l_sig e.2)) <$> r_tree (`g);
  mls_leaves g := (r_tree (`g)).*2;
  mls_own_leaf g := own_leaf (`g);
  mls_own_index g := r_own (`g);
  mls_is_active g := r_active (`g);
  mls_pending_commit g := r_pend (`g);
  mls_load gid p := Ok (read_group gid p);
  mls_new _ cfg cwk := fun p =>
    match mk (mk_raw [x67] 0 [(0, mk_leaf (cfg_leaf cfg) cwk.1 cwk.2)] None true) with
    | Some g => if cfg_suite cfg =? 3 then (write g p, Ok g) else (p, Err "unsupported ciphersuite")
    | None => (p, Err "invalid")
    end;
  mls_from_welcome _ _ := fun p => (p, Err "no welcome");
  mls_process_message := read_message;
  mls_create_message _ l := fun s => (s, Ok l);
  mls_self_update _ _ e := stage [x01] (fun o l => Some (mk_commit o (Some (mk_leaf e (l_cred l) (l_sig l))) [] []));
  mls_self_update_with_new_signer _ _ cwk _ e := stage [x01] (fun o l => Some (mk_commit o (Some (mk_leaf e cwk.1 cwk.2)) [] []));
  mls_add_members _ kps := stage ([x01], [x77]) (fun o l => Some (mk_commit o (Some l) kps []));
  mls_remove_members _ idxs := stage [x01] (fun o l => if bool_decide (o ∉ idxs) then Some (mk_commit o (Some l) [] idxs) else None);
  mls_merge_pending_commit := merge_pending;
  mls_merge_staged_commit := merge_staged;
  mls_clear_pending_commit := fun s => ((with_pend s.1 None, s.2), Ok tt)
|}.

(** ** The laws *)

Lemma tree_eq (g : group) : tree g = ltree (`g).
Proof.
  unfold tree, ltree. cbn. f_equal. induction (r_tree (`g)) as [|[i l] t IH]; cbn; [done|]. by rewrite IH.
Qed.

Lemma ok_facts (g : group) :
  NoDup (r_tree (`g)).*1 /\ NoDup (l_sig <$> (r_tree (`g)).*2) /\ (r_active (`g) = true -> r_own (`g) ∈ (r_tree (`g)).*1).
Proof.
  destruct g as [g Hg]. cbn. unfold raw_ok in Hg. rewrite !andb_true_iff in Hg. destruct Hg as [[H1%bool_decide_eq_true H2%bool_decide_eq_true] H3].
  split_and!; try done. intros Ha. rewrite Ha in H3. cbn in H3. by apply bool_decide_eq_true in H3.
Qed.

Lemma mk_ok r g : mk r = Some g -> `g = r.
Proof. unfold mk. case_decide; intros; by simplify_eq. Qed.

Lemma ltree_lookup (g : group) i l : ltree (`g) !! i = Some l <-> (i, l) ∈ r_tree (`g).
Proof. unfold ltree. symmetry. apply elem_of_list_to_map. apply ok_facts. Qed.

Lemma ltree_dom (g : group) i : i ∈ (r_tree (`g)).*1 <-> is_Some (ltree (`g) !! i).
Proof.
  rewrite list_elem_of_fmap. split.
  - intros ([j l] & -> & Hin). exists l. by apply ltree_lookup.
  - intros [l Hl%ltree_lookup]. by exists (i, l).
Qed.

Lemma number_lookup n ls i l : (i, l) ∈ number n ls -> n <= i /\ l ∈ ls.
Proof.
  revert n. induction ls as [|x ls IH]; intros n Hin; cbn in Hin; [by apply not_elem_of_nil in Hin|].
  apply elem_of_cons in Hin as [[= -> ->]|Hin]; [split; [lia | by left]|]. destruct (IH _ Hin) as [? ?]. split; [lia | by right].
Qed.

Lemma number_has n ls l : l ∈ ls -> exists i, (i, l) ∈ number n ls.
Proof.
  revert n. induction ls as [|x ls IH]; intros n Hin; [by apply not_elem_of_nil in Hin|]. cbn.
  apply elem_of_cons in Hin as [->|Hin]; [exists n; by left|]. destruct (IH (N.succ n) Hin) as [i Hi]. exists i. by right.
Qed.

Lemma top_above t i l : (i, l) ∈ t -> i < top t.
Proof.
  induction t as [|[j k] t IH]; intros Hin; [by apply not_elem_of_nil in Hin|]. cbn.
  apply elem_of_cons in Hin as [[= -> ->]|Hin]; [lia|]. specialize (IH Hin). unfold top in *. lia.
Qed.

Lemma next_tree_elem t c i l :
  (i, l) ∈ next_tree t c <-> (exists l0, (i, l0) ∈ t /\ i ∉ c_removes c /\ l = (kept_leaf c (i, l0)).2) \/ (i, l) ∈ number (top t) (c_adds c).
Proof.
  unfold next_tree. rewrite elem_of_app, list_elem_of_fmap. split.
  - intros [([j l0] & E & [Hr Hin]%list_elem_of_filter)|Hn]; [left | by right]. cbn in Hr. unfold kept_leaf in *. cbn in E. injection E as -> ->. eauto.
  - intros [(l0 & Hin & Hr & ->)|Hn]; [left | by right]. exists (i, l0). split; [done|]. by apply list_elem_of_filter.
Qed.

Lemma apply_committed (m m' : group) c : apply_commit (`m) c = Some m' -> committed m (c_from c) c m'.
Proof.
  unfold apply_commit. case_bool_decide as Hc; [|done]. destruct Hc as [Hf Hr]. intros Hm%mk_ok.
  assert (forall i l, tree m' !! i = Some l <-> (i, l) ∈ next_tree (r_tree (`m)) c) as Ht.
  { intros i l. rewrite tree_eq, ltree_lookup. by rewrite Hm. }
  assert (forall i l, tree m !! i = Some l <-> (i, l) ∈ r_tree (`m)) as Ht0 by (intros; by rewrite tree_eq, ltree_lookup).
  split; cbn -[tree]; try (by rewrite Hm); try reflexivity.
  - intros i l Hl%Ht0 Hn. exists (kept_leaf c (i, l)).2. split; [apply Ht, next_tree_elem; left; eauto|].
    unfold kept_leaf. cbn [fst snd]. destruct (decide (i = c_from c)) as [->|Hne]; [rewrite bool_decide_eq_true_2 by done | rewrite bool_decide_eq_false_2 by done; by left]. destruct (c_path c); [right; left; done | by left].
  - intros l Hp. apply Ht, next_tree_elem. left. apply ltree_dom in Hf as [l0 Hl0%ltree_lookup]. exists l0. split_and!; try done.
    unfold kept_leaf. cbn [fst snd]. by rewrite bool_decide_eq_true_2, Hp.
  - intros i l [(l0 & Hin & Hn & ->)|Hn]%Ht%next_tree_elem [Hnone|Hrem].
    + exfalso. apply Ht0 in Hin. discriminate (eq_trans (eq_sym Hnone) Hin).
    + done.
    + rewrite list_fmap_id. by apply number_lookup in Hn as [_ ?].
    + rewrite list_fmap_id. by apply number_lookup in Hn as [_ ?].
  - intros k Hk. destruct (number_has (top (r_tree (`m))) (c_adds c) k Hk) as [i Hi]. exists i. apply Ht, next_tree_elem. by right.
Qed.

Lemma same_refl (m : group) : same_group m m.
Proof. by split; [split|]. Qed.

Lemma with_pend_same (m : group) c : same_tree m (with_pend m c).
Proof. by split. Qed.

(** A staging call. *)
Lemma stage_stages {A} (a : A) f m p m' p' r (Q : commit -> Prop) :
  stage a f (m, p) = ((m', p'), r) -> (forall c l, own_leaf (`m) = Some l -> f (r_own (`m)) l = Some c -> Q c) -> stages m m' r Q.
Proof.
  unfold stage. cbn. intros Hs HQ. destruct (r_pend (`m)); [injection Hs as <- _ <-; apply same_refl|].
  destruct (own_leaf (`m)) as [l|] eqn:Hl; [|injection Hs as <- _ <-; apply same_refl].
  destruct (r_active (`m)) eqn:Ha; [|injection Hs as <- _ <-; apply same_refl].
  destruct (f (r_own (`m)) l) as [c|] eqn:Hf; [|injection Hs as <- _ <-; apply same_refl].
  injection Hs as <- _ <-. cbn. split; [done|]. split; [apply with_pend_same|]. exists c. split; [done|]. by eapply HQ.
Qed.

Lemma own_leaf_some (m : group) : r_active (`m) = true -> is_Some (own_leaf (`m)).
Proof. intros Ha. apply ltree_dom. by apply ok_facts. Qed.

Lemma process_inv pm m p m' p' r :
  read_message pm (m, p) = ((m', p'), r) -> m' = m /\ forall s c, r = Ok (mk_processed s (StagedCommitMessage c)) ->
    s = SMember (c_from c) /\ c_from c ∈ (r_tree (`m)).*1 /\ c_from c <> r_own (`m) /\ c_from c ∉ c_removes c.
Proof.
  unfold read_message. cbn. destruct (parse (`m) pm) as [c|].
  - case_bool_decide as Hc; intros [= <- <- <-]; (split; [done|]); intros s c' E; [|done]. by injection E as <- <-.
  - intros Hs. assert (m' = m /\ (r = Ok (mk_processed (SMember (r_own (`m))) OwnPendingCommit)
      \/ r = Ok (mk_processed (SMember (r_own (`m))) (ApplicationMessage pm)))) as [-> [-> | ->]]; [|done..].
    destruct pm as [|[] []]; injection Hs as <- _ <-; (split; [done | tauto]).
Qed.

#[local] Instance laws : MlsLibLaws.
Proof.
  split.
  - done.
  - done.
  - intros l e ty [= ->]. done.
  - intros m. cbn. induction (r_tree (`m)) as [|[i l] t IH]; cbn; by constructor.
  - intros m. cbn. rewrite <- list_fmap_compose. apply ok_facts.
  - intros m. cbn. rewrite <- list_fmap_compose. destruct (ok_facts m) as (_ & Hs & _). rewrite <- list_fmap_compose in Hs. exact Hs.
  - intros m Ha. rewrite tree_eq. split; [done | by apply own_leaf_some].
  - intros pm m p m' p' r [-> _]%process_inv. apply same_refl.
  - intros pm m p m' p' s c Hp. right. destruct (process_inv _ _ _ _ _ _ Hp) as [-> Hs]. destruct (Hs s c eq_refl) as (-> & Hi & Ho & Hr).
    exists (c_from c). split_and!; try done.
    + rewrite tree_eq. by apply ltree_dom.
    + intros l. apply not_elem_of_nil.
    + cbn. unfold merge_staged. cbn. intros m2 p2. destruct (apply_commit (`m) c) as [m3|] eqn:E; [|done]. intros [= <- <-]. by apply apply_committed.
  - intros c m p m' p' e. cbn. unfold merge_staged. cbn. destruct (apply_commit (`m) c); [done|]. intros [= <- _ _]. apply same_refl.
  - intros sk b m p m' p' r. cbn. intros [= <- _ _]. apply same_refl.
  - intros sk ca e m p m' p' r Hs. eapply stage_stages; [exact Hs|]. intros c l Hl [= <-]. split; [by eexists|]. exists l. split; [done|].
    split; cbn; try done. by intros l' [= <-].
  - intros sk sk' cwk ca e m p m' p' r Hs. eapply stage_stages; [exact Hs|]. intros c l Hl [= <-]. split; [by eexists|].
    split; cbn; try done. by intros l' [= <-].
  - intros sk kps m p m' p' r Hs. eapply stage_stages; [exact Hs|]. intros c l Hl [= <-]. exists l. split; [done|].
    split; cbn; try done. by intros l' [= <-].
  - intros sk idxs m p m' p' r Hs. eapply stage_stages; [exact Hs|]. intros c l Hl. cbn beta. case_bool_decide as Ho; [|done]. intros [= <-].
    split; [exact Ho|]. exists l. split; [done|]. split; cbn; try done. by intros l' [= <-].
  - intros m p m' p' r. cbn. unfold merge_pending. cbn. destruct (r_pend (`m)) as [c|] eqn:Hp; [|intros [= <- _ <-]; apply same_refl].
    destruct (decide (c_from c = r_own (`m))) as [E|E]; [rewrite bool_decide_eq_true_2 by done | rewrite bool_decide_eq_false_2 by done; intros [= <- _ <-]; apply same_refl].
    destruct (apply_commit (`m) c) as [m3|] eqn:Ea; intros [= <- _ <-]; [|apply same_refl]. rewrite <- E. by apply apply_committed.
  - intros m p m' p' r. cbn. intros [= <- _ <-]. split; [apply with_pend_same | done].
  - intros sk cfg cwk p p' m. cbn -[N.eqb mk tree]. destruct (mk _) as [g|] eqn:Hg; [|done]. apply mk_ok in Hg. destruct (_ =? 3) eqn:Hs; [|done]. apply N.eqb_eq in Hs.
    intros [= _ <-]. rewrite Hg. split_and!; try done. exists (mk_leaf (cfg_leaf cfg) cwk.1 cwk.2). split_and!; try done.
    rewrite tree_eq, Hg. done.
  - intros cfg w p p' m. cbn. discriminate.
Qed.
End ToyMls.
