(* ===== verification/ClientGroup.v ===== *)
(** * The client's view of a group

    [nemo-core/src/group.rs]: a group is an OpenMLS group with the client's own
    signing key, the host's credential ids read off the tree, the own commit that
    waits for the host's echo, and the signing keys other members have announced.
    A method works on the group and the OpenMLS provider. Clock readings are
    nanoseconds since the epoch and arguments of the methods that take them, as are
    random bytes. A [HashMap] is iterated in the order of [map_to_list]. *)

From S2P Require Export MlsLib ClientState.

Definition CIPHERSUITE : N := 3.
Definition CREDENTIAL_ID_EXT : N := 61441.
Definition GROUP_SIGNING_EXT : N := 61442.
Definition CREDENTIAL_BASIC : N := 1.

Definition from_secs (n : N) : N := n * 1000000000.
Definition from_millis (n : N) : N := n * 1000000.
Definition as_millis (ns : N) : N := ns / 1000000.

Definition UPDATE_BEFORE_SEND : N := from_secs (72 * 3600).
Definition UPDATE_INTERVAL : N := from_secs (7 * 24 * 3600).
Definition UPDATE_ON_ONLINE : N := from_secs (24 * 3600).

(** [as u64] of a [u128]. *)
Definition trunc_u64 (n : N) : N := n mod 2 ^ 64.

(** [now.duration_since(then)]. *)
Definition duration_since (now before : N) : option N := if before <=? now then Some (now - before) else None.

Inductive PendingKind : Type := PkUpdate | PkAdd | PkRemove | PkSigningKeyRotate.

Inductive HandshakeOutcome : Type := Applied | OwnCommitMerged | OwnCommitSuperseded.

#[global] Instance pending_kind_eq_decision : EqDecision PendingKind.
Proof. solve_decision. Defined.
#[global] Instance outcome_eq_decision : EqDecision HandshakeOutcome.
Proof. solve_decision. Defined.

Definition pending_kind_code (kind : option PendingKind) : N :=
  match kind with None => 0 | Some PkUpdate => 1 | Some PkAdd => 2 | Some PkRemove => 3 | Some PkSigningKeyRotate => 4 end.

Definition pending_kind_from_code (code : N) : option PendingKind :=
  match code with 1 => Some PkUpdate | 2 => Some PkAdd | 3 => Some PkRemove | 4 => Some PkSigningKeyRotate | _ => None end.

(** [nemo_capabilities]. *)
Definition nemo_capabilities : Capabilities :=
  mk_caps [CIPHERSUITE] [CREDENTIAL_ID_EXT; GROUP_SIGNING_EXT] [CREDENTIAL_BASIC].

(** [.map_err(f)] on a call. *)
Definition stM_map_err {S E F A} (f : E -> F) (m : stM S E A) : stM S F A := fun s => let '(s', r) := m s in (s', map_err f r).

Section Group.
Context `{Crypto} `{MlsLib}.

(** ** Leaves *)

(** [extension_bytes]. *)
Definition extension_bytes (exts : Extensions) (ty : N) : option bytes := exts_unknown exts ty.

(** [identity_pk_from_credential]. *)
Definition identity_pk_from_credential (cred : Credential) : cresult key :=
  l ← ok_or (basic_identity cred) (Mls "basic credential");
  map_err (fun _ => Mls "identity must be 32 bytes") (copy_fixed KEY_LEN l).

(** [leaf_extensions]. *)
Definition leaf_extensions (credential_id group_signing_pk : key) : cresult Extensions :=
  map_err Mls (exts_from_vec [(CREDENTIAL_ID_EXT, to_vec credential_id); (GROUP_SIGNING_EXT, to_vec group_signing_pk)]).

(** [check_new_leaf]. *)
Definition check_new_leaf (leaf : LeafNode) : cresult key :=
  l ← ok_or (extension_bytes (leaf_exts leaf) CREDENTIAL_ID_EXT) LeafExtensionViolation;
  cid ← map_err (fun _ => LeafExtensionViolation) (copy_fixed KEY_LEN l);
  gsk ← ok_or (extension_bytes (leaf_exts leaf) GROUP_SIGNING_EXT) LeafExtensionViolation;
  if negb (bool_decide (gsk = leaf_signature_key leaf)) then Err LeafExtensionViolation
  else
    identity_pk_from_credential (leaf_credential leaf);;
    Ok cid.

(** [validate_key_package]. *)
Definition validate_key_package (l : bytes) : cresult KeyPackage :=
  map_err Mls (kp_deserialize_exact l ≫= kp_validate).

(** [credential_with_key]. *)
Definition credential_with_key (identity_pk : key) (signer : SignatureKeyPair) : Credential * bytes :=
  (basic_credential (to_vec identity_pk), skp_public signer).

(** [SignatureKeyPair::from_raw] of a group signing key. *)
Definition signer_of (sk : SigningKey) : SignatureKeyPair :=
  skp_from_raw (to_vec (sk_to_bytes sk)) (to_vec (vk_to_bytes (verifying_key sk))).

(** [new_group_keys]; [seed] is the drawn key. *)
Definition new_group_keys (seed : key) : stM MlsProvider CoreError (SignatureKeyPair * SigningKey) :=
  let sk := sk_from_bytes seed in
  stM_map_err Mls (skp_store (signer_of sk));;
  mret (signer_of sk, sk).

(** [group_create_config]. *)
Definition group_create_config (leaf : Extensions) : GroupConfig Extensions :=
  mk_config CIPHERSUITE true (1000, 2000) nemo_capabilities leaf.

Definition serialize_msg (m : MlsMessageOut) : cresult bytes := map_err Mls (msg_serialize m).

(** [decode_mls]. *)
Definition decode_mls (l : bytes) : cresult MlsMessageIn :=
  match msg_deserialize_exact l with
  | Ok m => Ok m
  | Err _ => map_err Mls (msg_deserialize l)
  end.

Definition is_reinit (kind : ProposalKind) : bool := match kind with KReInit => true | _ => false end.

Definition is_external_commit (c : StagedCommit) : bool :=
  existsb (fun k => match k with KExternalInit | KReInit => true | _ => false end) (staged_queued c).

Definition staged_remove_count (c : StagedCommit) : N := lenN (staged_removes c).

(** ** The group *)

Record PendingOwn : Type := mk_pending_own { pending_kind_of : PendingKind; new_signer : option SigningKey }.

Record Group : Type := mk_group {
  mls : MlsGroup;
  mls_signer : SignatureKeyPair;
  group_signing : SigningKey;
  g_credential_id : key;
  credential_ids : gmap N key;
  last_own_update : N;
  pending : option PendingOwn;
  announced_keys : gmap bytes key
}.

Definition eta_group (g : Group) : Group :=
  mk_group (mls g) (mls_signer g) (group_signing g) (g_credential_id g) (credential_ids g) (last_own_update g) (pending g) (announced_keys g).
#[global] Instance mls_field : Field mls.
Proof. derive_field eta_group mls. Defined.
#[global] Instance mls_signer_field : Field mls_signer.
Proof. derive_field eta_group mls_signer. Defined.
#[global] Instance group_signing_field : Field group_signing.
Proof. derive_field eta_group group_signing. Defined.
#[global] Instance credential_ids_field : Field credential_ids.
Proof. derive_field eta_group credential_ids. Defined.
#[global] Instance last_own_update_field : Field last_own_update.
Proof. derive_field eta_group last_own_update. Defined.
#[global] Instance pending_field : Field pending.
Proof. derive_field eta_group pending. Defined.
#[global] Instance announced_keys_field : Field announced_keys.
Proof. derive_field eta_group announced_keys. Defined.

Notation gm := (stM (Group * MlsProvider) CoreError).

Definition this : gm Group := fun s => (s, Ok s.1).
Definition update (f : Group -> Group) : gm unit := fun s => ((f s.1, s.2), Ok tt).

(** A call on [self.mls] with the provider; [err] converts its error. *)
Definition on_mls {E A} (err : E -> CoreError) (f : stM (MlsGroup * MlsProvider) E A) : gm A :=
  fun s => let '((m, p), r) := f (mls s.1, s.2) in ((s.1 <| mls := m |>, p), map_err err r).

(** ** Reading *)

Definition group_signing_public (g : Group) : key := vk_to_bytes (verifying_key (group_signing g)).
Definition group_epoch (g : Group) : N := mls_epoch (mls g).
Definition member_count (g : Group) : N := lenN (mls_members (mls g)).
Definition has_pending_commit (g : Group) : bool := bool_decide (is_Some (pending g)).
Definition pending_kind (g : Group) : option PendingKind := pending_kind_of <$> pending g.

Definition key_leb (a b : key) : bool := bytes_leb (to_vec a) (to_vec b).

Definition member_credential_ids (g : Group) : list key :=
  dedup (sort_by key_leb (map_to_list (credential_ids g)).*2).

Definition member_identity_ids (g : Group) : list key :=
  dedup (sort_by key_leb (omap (fun m => identity_id <$> ok (identity_pk_from_credential (m_credential m))) (mls_members (mls g)))).

Definition key_package_identity_pk (l : bytes) : cresult key :=
  kp ← validate_key_package l; identity_pk_from_credential (leaf_credential (kp_leaf_node kp)).

Definition key_package_credential_id (l : bytes) : cresult key :=
  kp ← validate_key_package l; check_new_leaf (kp_leaf_node kp).

Definition key_package_signing_pk (l : bytes) : cresult key :=
  kp ← validate_key_package l;
  map_err (fun _ => LeafExtensionViolation) (copy_fixed KEY_LEN (leaf_signature_key (kp_leaf_node kp))).

(** [credential_id_for_identity]: [find_map] over the members. *)
Definition credential_id_for_identity (ident : key) (g : Group) : option key :=
  head (omap (fun m => pk ← ok (identity_pk_from_credential (m_credential m));
                       if bool_decide (identity_id pk = ident) then credential_ids g !! m_index m else None) (mls_members (mls g))).

Definition needs_scheduled_update (now : N) (g : Group) : bool :=
  match duration_since now (last_own_update g) with Some d => UPDATE_INTERVAL <=? d | None => true end.

Definition needs_online_update (now : N) (g : Group) : bool :=
  match duration_since now (last_own_update g) with Some d => UPDATE_ON_ONLINE <=? d | None => true end.

Definition ensure_fresh_update (now : N) (g : Group) : cresult unit :=
  let age := default 0 (duration_since now (last_own_update g)) in
  if UPDATE_BEFORE_SEND <? age then Err StaleMlsUpdate else Ok tt.

Definition ensure_no_pending (g : Group) : cresult unit :=
  match pending g with Some _ => Err PendingCommit | None => Ok tt end.

Definition member_at (index : N) (g : Group) : option (Member Credential) :=
  snd <$> list_find (fun m => m_index m = index) (mls_members (mls g)).

Definition leaf_index_for (credential_id : key) (g : Group) : option N :=
  (fst ∘ snd) <$> list_find (fun e => e.2 = credential_id) (map_to_list (credential_ids g)).

Definition credential_id_at (index : N) (g : Group) : option key := credential_ids g !! index.

Definition group_signing_at (index : N) (g : Group) : option VerifyingKey :=
  m ← member_at index g; arr ← try_into KEY_LEN (m_signature_key m); vk_from_bytes arr.

Definition own_identity_pk (g : Group) : cresult key :=
  own ← ok_or (mls_own_leaf (mls g)) (Mls "own leaf missing");
  identity_pk_from_credential (leaf_credential own).

Definition own_leaf_extensions (g : Group) : cresult Extensions :=
  leaf_extensions (g_credential_id g) (group_signing_public g).

(** [sign_invite]; [bind] carries the invitee's key and the drawn salt. *)
Definition group_sign_invite (host_group_id nonce : key) (ttl_secs : N) (bind : option (key * key)) (g : Group) : cresult GroupInvite :=
  cwire (invite_sign (group_signing g) host_group_id nonce ttl_secs ((fun b => (invitee_binding b.1 b.2, b.2)) <$> bind)).

Definition group_sign_admit (host_group_id pending_id : key) (g : Group) : cresult GroupAdmit :=
  cwire (admit_sign (group_signing g) host_group_id pending_id).

Definition default_invite_ttl : N := INTRO_TTL_30_MIN.

(** ** The tree *)

(** [sync_credential_ids]. *)
Definition leaf_cid (l : LeafNode) : option key :=
  b ← extension_bytes (leaf_exts l) CREDENTIAL_ID_EXT; ok (copy_fixed KEY_LEN b).

Definition cids_by_signature (m : MlsGroup) : gmap bytes key :=
  foldl (fun acc l => match leaf_cid l with Some c => <[leaf_signature_key l := c]> acc | None => acc end) ∅ (mls_leaves m).

Definition cids_by_index (m : MlsGroup) : gmap N key :=
  foldl (fun acc mb => match cids_by_signature m !! m_signature_key mb with Some c => <[m_index mb := c]> acc | None => acc end)
    ∅ (mls_members m).

Definition sync_credential_ids (g : Group) : Group :=
  let live := m_signature_key <$> mls_members (mls g) in
  g <| credential_ids := cids_by_index (mls g) |>
    <| announced_keys ::= filter (fun e => e.1 ∈ live) |>.

(** [check_leaf_update]. *)
Definition check_leaf_update (index : N) (leaf : LeafNode) (g : Group) : cresult unit :=
  cid ← check_new_leaf leaf;
  ensure (match credential_ids g !! index with Some prev => bool_decide (prev = cid) | None => true end) LeafExtensionViolation;;
  m ← ok_or (member_at index g) LeafExtensionViolation;
  if negb (bool_decide (m_signature_key m = leaf_signature_key leaf)) then
    new ← map_err (fun _ => LeafExtensionViolation) (copy_fixed KEY_LEN (leaf_signature_key leaf));
    ensure (bool_decide (announced_keys g !! m_signature_key m = Some new)) UnannouncedSignerChange
  else Ok tt.

(** [validate_commit]. *)
Definition check_sender_update (g : Group) (sender : Sender) (leaf : LeafNode) : cresult unit :=
  match sender with SMember i => check_leaf_update i leaf g | _ => Err ExternalMlsJoin end.

Definition check_add (g : Group) (add : KeyPackage) : cresult unit :=
  cid ← check_new_leaf (kp_leaf_node add);
  ensure (negb (bool_decide (cid ∈ (map_to_list (credential_ids g)).*2))) LeafExtensionViolation.

Definition validate_commit (c : StagedCommit) (sender : Sender) (g : Group) : cresult unit :=
  try_fold (fun _ up => check_sender_update g up.1 up.2) tt (staged_updates c);;
  match staged_path c with Some leaf => check_sender_update g sender leaf | None => Ok tt end;;
  try_fold (fun _ add => check_add g add) tt (staged_adds c).

(** [staged_remove_matches]. *)
Definition staged_remove_matches (c : StagedCommit) (credential_id : key) (g : Group) : bool :=
  forallb (fun i => bool_decide (credential_id_at i g = Some credential_id)) (staged_removes c) && (lenN (staged_removes c) =? 1).

(** ** Merging *)

(** [process]. *)
Definition process_err (e : ProcessFail) : CoreError := match e with WrongEpoch => MlsWrongEpoch | ProcessError m => Mls m end.

Definition process (l : bytes) : gm (Processed StagedCommit) :=
  msg ← lift (decode_mls l);
  protocol ← lift (map_err Mls (msg_into_protocol msg));
  on_mls process_err (mls_process_message protocol).

(** [finish_own_commit]. *)
Definition finish_own_commit (now : N) : gm HandshakeOutcome :=
  on_mls Mls mls_merge_pending_commit;;
  g ← this;
  update (fun g => g <| pending := None |>);;
  (match pending g ≫= new_signer with
   | Some sk => update (fun g => g <| mls_signer := signer_of sk |> <| group_signing := sk |>)
   | None => mret tt
   end);;
  update (fun g => g <| last_own_update := now |>);;
  update sync_credential_ids;;
  mret OwnCommitMerged.

(** [merge_foreign]. *)
Definition merge_foreign (c : StagedCommit) : gm HandshakeOutcome :=
  g ← this;
  on_mls Mls (mls_merge_staged_commit c);;
  update (fun g => g <| pending := None |>);;
  update sync_credential_ids;;
  mret (if has_pending_commit g then OwnCommitSuperseded else Applied).

(** [discard_pending]. *)
Definition discard_pending : gm unit :=
  on_mls Mls mls_clear_pending_commit;;
  update (fun g => g <| pending := None |>).

(** [apply_handshake]. *)
Definition apply_handshake (message : bytes) (now : N) : gm HandshakeOutcome :=
  processed ← process message;
  g ← this;
  match pm_content processed with
  | OwnPendingCommit => finish_own_commit now
  | OwnPrivateMessage =>
      if has_pending_commit g then finish_own_commit now else throw (Mls "own private message in handshake path")
  | StagedCommitMessage c =>
      if is_external_commit c then throw ExternalMlsJoin
      else if 0 <? staged_remove_count c then throw UnframedRemove
      else lift (validate_commit c (pm_sender processed) g);; merge_foreign c
  | ExternalJoinProposalMessage => throw ExternalMlsJoin
  | ProposalMessage k => if is_reinit k then throw MlsReinit else throw (Mls "standalone proposal is not used in v1")
  | ApplicationMessage _ => throw (Mls "handshake path got an application message")
  end.

(** [apply_remove_bundle]. *)
Definition is_own (c : Content StagedCommit) : bool := match c with OwnPendingCommit | OwnPrivateMessage => true | _ => false end.

Definition apply_remove_bundle (host_group_id : key) (bundle : RemoveBundle) (now : N) : gm HandshakeOutcome :=
  processed ← process (mls_commit bundle);
  g ← this;
  if is_own (pm_content processed) && has_pending_commit g then finish_own_commit now
  else
    sender_pk ← lift (match pm_sender processed with
                      | SMember i => ok_or (group_signing_at i g) BadRemoveBundle
                      | _ => Err ExternalMlsJoin
                      end);
    lift (cwire (verify_sidecar bundle sender_pk host_group_id));;
    match pm_content processed with
    | StagedCommitMessage c =>
        if is_external_commit c then throw ExternalMlsJoin
        else if negb (staged_remove_count c =? 1) then throw BadRemoveBundle
        else if negb (staged_remove_matches c (remove_credential_id bundle) g) then throw BadRemoveBundle
        else lift (validate_commit c (pm_sender processed) g);; merge_foreign c
    | _ => throw (Mls "RemoveBundle body is not a Commit")
    end.

(** [apply_signing_key_replace]. *)
Definition replace_signer (r : SigningKeyReplace) (m : Member Credential) : bool :=
  match try_into KEY_LEN (m_signature_key m) ≫= vk_from_bytes with
  | Some pk => is_ok (replace_verify r pk)
  | None => false
  end.

Definition apply_signing_key_replace (body : bytes) : gm unit :=
  r ← lift (cwire (replace_decode body));
  g ← this;
  match list_find (fun m => replace_signer r m = true) (mls_members (mls g)) with
  | Some (_, m) => update (fun g => g <| announced_keys ::= <[m_signature_key m := replace_new_public_key r]> |>)
  | None => throw UnannouncedSignerChange
  end.

(** ** Own commits *)

(** [self_update]. *)
Definition self_update (now : N) : gm bytes :=
  g ← this;
  lift (ensure_no_pending g);;
  exts ← lift (own_leaf_extensions g);
  out ← on_mls Mls (mls_self_update (mls_signer g) nemo_capabilities exts);
  update (fun g => g <| pending := Some (mk_pending_own PkUpdate None) |>);;
  update (fun g => g <| last_own_update := now |>);;
  lift (serialize_msg out).

(** [maybe_self_update]; [now] is its argument, [clock] what [self_update] reads. *)
Definition maybe_self_update (now clock : N) : gm (option bytes) :=
  g ← this;
  if has_pending_commit g then mret None
  else if needs_scheduled_update now g || needs_online_update now g then l ← self_update clock; mret (Some l)
  else mret None.

Definition on_provider {A} (f : stM MlsProvider CoreError A) : gm A :=
  fun s => let '(p, r) := f s.2 in ((s.1, p), r).

(** [rotate_signing_key]; [seed] is the drawn key. *)
Definition rotate_signing_key (seed : key) : gm (SigningKeyReplace * bytes) :=
  g ← this;
  lift (ensure_no_pending g);;
  '(new_mls, new_signing) ← on_provider (new_group_keys seed);
  let new_pk := vk_to_bytes (verifying_key new_signing) in
  replace ← lift (cwire (replace_sign (group_signing g) new_pk));
  exts ← lift (leaf_extensions (g_credential_id g) new_pk);
  pk ← lift (own_identity_pk g);
  out ← on_mls Mls (mls_self_update_with_new_signer (mls_signer g) new_mls (credential_with_key pk new_mls) nemo_capabilities exts);
  update (fun g => g <| pending := Some (mk_pending_own PkSigningKeyRotate (Some new_signing)) |>);;
  l ← lift (serialize_msg out);
  mret (replace, l).

(** [admit]. *)
Definition mls_admit (key_package_bytes : bytes) (expected_credential_id : key) : gm (bytes * bytes) :=
  g ← this;
  lift (ensure_no_pending g);;
  kp ← lift (validate_key_package key_package_bytes);
  if negb (kp_ciphersuite kp =? CIPHERSUITE) then throw WrongCiphersuite
  else
    cid ← lift (check_new_leaf (kp_leaf_node kp));
    if negb (bool_decide (cid = expected_credential_id)) then throw CredentialIdMismatch
    else if bool_decide (cid ∈ (map_to_list (credential_ids g)).*2) then throw CredentialIdMismatch
    else
      '(commit, welcome) ← on_mls Mls (mls_add_members (mls_signer g) [kp]);
      update (fun g => g <| pending := Some (mk_pending_own PkAdd None) |>);;
      c ← lift (serialize_msg commit);
      w ← lift (serialize_msg welcome);
      mret (c, w).

(** [remove]. *)
Definition group_remove (host_group_id credential_id : key) : gm RemoveBundle :=
  g ← this;
  lift (ensure_no_pending g);;
  index ← lift (ok_or (leaf_index_for credential_id g) BadRemoveBundle);
  commit ← on_mls Mls (mls_remove_members (mls_signer g) [index]);
  update (fun g => g <| pending := Some (mk_pending_own PkRemove None) |>);;
  l ← lift (serialize_msg commit);
  lift (cwire (remove_sign (group_signing g) host_group_id credential_id l)).

(** ** Application messages *)

(** [encrypt]. *)
Definition group_encrypt (plaintext : bytes) (now : N) : gm bytes :=
  g ← this;
  lift (ensure_fresh_update now g);;
  out ← on_mls Mls (mls_create_message (mls_signer g) plaintext);
  lift (serialize_msg out).

(** [decrypt_with_sender]. *)
Definition decrypt_with_sender (ciphertext : bytes) : gm (bytes * key) :=
  processed ← process ciphertext;
  g ← this;
  sender ← lift (match pm_sender processed with
                 | SMember i => m ← ok_or (member_at i g) (Mls "unknown message sender");
                                pk ← identity_pk_from_credential (m_credential m); Ok (identity_id pk)
                 | _ => Err ExternalMlsJoin
                 end);
  match pm_content processed with
  | ApplicationMessage b => mret (b, sender)
  | _ => throw (Mls "expected application message")
  end.

Definition group_decrypt (ciphertext : bytes) : gm bytes := '(b, _) ← decrypt_with_sender ciphertext; mret b.

(** [encrypt_to_mailbox]. *)
Definition group_encrypt_to_mailbox (dest_hpke_public delivery_capability : key) (ttl : TtlBucket) (plaintext : bytes) (now : N)
    (token rnd : key) : gm OuterEnvelope :=
  l ← group_encrypt plaintext now;
  lift (wrap dest_hpke_public delivery_capability ttl MlsApp l token rnd).

Definition decrypt_from_mailbox_with_sender (inner : InnerEnvelope) : gm (bytes * key) :=
  l ← lift (expect_type inner MlsApp); decrypt_with_sender l.

Definition group_decrypt_from_mailbox (inner : InnerEnvelope) : gm bytes :=
  '(b, _) ← decrypt_from_mailbox_with_sender inner; mret b.

Definition wrap_handshake (dest_hpke_public delivery_capability : key) (ttl : TtlBucket) (handshake : bytes) (token rnd : key)
    : cresult OuterEnvelope :=
  wrap dest_hpke_public delivery_capability ttl MlsHandshake handshake token rnd.

Definition apply_handshake_from_mailbox (inner : InnerEnvelope) (now : N) : gm HandshakeOutcome :=
  l ← lift (expect_type inner MlsHandshake); apply_handshake l now.

Definition handshake_message_epoch (inner : InnerEnvelope) : cresult N :=
  l ← expect_type inner MlsHandshake;
  msg ← decode_mls l;
  protocol ← map_err Mls (msg_into_protocol msg);
  Ok (protocol_epoch protocol).

Definition wrap_remove (dest_hpke_public delivery_capability : key) (ttl : TtlBucket) (bundle : RemoveBundle) (token rnd : key)
    : cresult OuterEnvelope :=
  l ← cwire (remove_encode bundle);
  wrap dest_hpke_public delivery_capability ttl RemoveBundleType l token rnd.

Definition apply_remove_from_mailbox (host_group_id : key) (inner : InnerEnvelope) (now : N) : gm HandshakeOutcome :=
  l ← lift (expect_type inner RemoveBundleType);
  bundle ← lift (cwire (remove_decode l));
  apply_remove_bundle host_group_id bundle now.
End Group.

Notation gm := (stM (Group * MlsProvider) CoreError).
