(* ===== verification/ClientGroupStore.v ===== *)
(** * Creating, joining and keeping groups

    The rest of [nemo-core/src/group.rs]: new groups, the join by a key package and
    a Welcome, the sidecar that is kept beside the storage of OpenMLS; and the part
    of [vault.rs] that saves and loads groups and pending joins. *)

From S2P Require Export ClientGroup Vault.

Section Store.
Context `{Crypto} `{SignalOps} `{MlsLib} `{Argon}.

Notation pm := (stM MlsProvider CoreError).

(** ** New groups *)

(** [Installation::create_group]; [cid] and [seed] are drawn. *)
Definition mls_create_group (i : Installation) (cid seed : key) (now : N) : pm Group :=
  '(signer, sk) ← new_group_keys seed;
  leaf ← lift (leaf_extensions cid (vk_to_bytes (verifying_key sk)));
  m ← stM_map_err Mls (mls_new signer (group_create_config leaf) (credential_with_key (identity_public_key i) signer));
  if negb (mls_suite m =? CIPHERSUITE) then throw WrongCiphersuite
  else mret (sync_credential_ids (mk_group m signer sk cid ∅ now None ∅)).

(** [group::PendingJoin]. *)
Record ClientPendingJoin : Type := mk_cpending {
  pj_credential_id : key;
  pj_signer : SignatureKeyPair;
  pj_signing : SigningKey;
  pj_key_package : bytes
}.

(** [Installation::prepare_join]. *)
Definition prepare_join (i : Installation) (cid seed : key) : pm ClientPendingJoin :=
  '(signer, sk) ← new_group_keys seed;
  leaf ← lift (leaf_extensions cid (vk_to_bytes (verifying_key sk)));
  kp ← stM_map_err Mls (kp_build CIPHERSUITE nemo_capabilities leaf signer (credential_with_key (identity_public_key i) signer));
  l ← lift (map_err Mls (kp_serialize kp));
  mret (mk_cpending cid signer sk l).

Definition pj_group_signing_public (j : ClientPendingJoin) : key := vk_to_bytes (verifying_key (pj_signing j)).

(** [PendingJoin::is_welcome]. *)
Definition welcome_of (l : bytes) : cresult (option Welcome) := msg ← decode_mls l; Ok (msg_welcome msg).

Definition is_welcome (l : bytes) : bool := match welcome_of l with Ok (Some _) => true | _ => false end.

(** [PendingJoin::welcome_matches]. *)
Definition welcome_matches (j : ClientPendingJoin) (l : bytes) : bool :=
  match kp_deserialize_exact (pj_key_package j) with
  | Err _ => false
  | Ok kp =>
      match kp_validate kp with
      | Err _ => false
      | Ok kp =>
          match kp_hash_ref kp with
          | Err _ => false
          | Ok r => match welcome_of l with Ok (Some w) => bool_decide (r ∈ welcome_new_members w) | _ => false end
          end
      end
  end.

(** [PendingJoin::join]. *)
Definition pj_join (j : ClientPendingJoin) (l : bytes) (now : N) : pm Group :=
  w ← lift (welcome_of l);
  w ← lift (ok_or w (Mls "expected Welcome"));
  leaf ← lift (leaf_extensions (pj_credential_id j) (pj_group_signing_public j));
  m ← stM_map_err Mls (mls_from_welcome (group_create_config leaf) w);
  if negb (mls_suite m =? CIPHERSUITE) then throw WrongCiphersuite
  else
    let g := sync_credential_ids (mk_group m (pj_signer j) (pj_signing j) (pj_credential_id j) ∅ now None ∅) in
    let own_ok := match mls_own_leaf (mls g) with
                  | Some own => bool_decide (ok (check_new_leaf own) = Some (g_credential_id g))
                  | None => false
                  end in
    if negb own_ok then throw CredentialIdMismatch
    else
      lift (try_fold (fun _ leaf => check_new_leaf leaf;; Ok tt) tt (mls_leaves (mls g)));;
      mret g.

(** ** The sidecar *)

Definition announced_row (e : bytes * key) : Value := Array [Bytes e.1; Bytes (to_vec e.2)].

Definition sidecar_pairs (g : Group) : list (N * Value) :=
  [(0, Uint 1); (1, Bytes (mls_gid (mls g))); (2, Bytes (to_vec (sk_to_bytes (group_signing g))));
   (3, Bytes (to_vec (g_credential_id g))); (4, Array []); (5, Uint (trunc_u64 (as_millis (last_own_update g))));
   (6, Uint (pending_kind_code (pending_kind g)))]
  ++ match pending g ≫= new_signer with Some sk => [(7, Bytes (to_vec (sk_to_bytes sk)))] | None => [] end
  ++ [(8, Array (map announced_row (sorted_entries bytes_leb (announced_keys g))))].

(** [encode_sidecar]. *)
Definition encode_sidecar (g : Group) : bytes := encode (Map (sidecar_pairs g)).

Definition vault_fixed (m : list (N * Value)) (k : N) : cresult key :=
  l ← vault_bytes m k; corrupt (copy_fixed KEY_LEN l).

Definition load_announced (acc : gmap bytes key) (item : Value) : cresult (gmap bytes key) :=
  match item with
  | Array [o; n] =>
      old ← corrupt (expect_bytes o);
      l ← corrupt (expect_bytes n);
      new ← corrupt (copy_fixed KEY_LEN l);
      Ok (<[old := new]> acc)
  | _ => Err VaultCorrupt
  end.

(** The fields of a sidecar: group id, key, credential id, time of the last update
    in milliseconds, code of the pending commit, new signer, announced keys. *)
Record Sidecar : Type := mk_sidecar {
  sc_gid : bytes; sc_seed : key; sc_cid : key; sc_updated : N; sc_pending : N; sc_new_signer : option key; sc_announced : gmap bytes key
}.

Definition decode_sidecar (l : bytes) : cresult Sidecar :=
  m ← vault_map l;
  version ← vault_uint m 0;
  ensure (version =? 1) VaultCorrupt;;
  gid ← vault_bytes m 1;
  seed ← vault_fixed m 2;
  cid ← vault_fixed m 3;
  updated ← vault_uint m 5;
  code ← match map_get_opt m 6 with Some v => corrupt (expect_uint v) | None => Ok 0 end;
  ns ← match map_get_opt m 7 with
       | Some v => b ← corrupt (expect_bytes v); s ← corrupt (copy_fixed KEY_LEN b); Ok (Some s)
       | None => Ok None
       end;
  announced ← match map_get_opt m 8 with
              | Some v => items ← corrupt (expect_array v); try_fold load_announced ∅ items
              | None => Ok ∅
              end;
  Ok (mk_sidecar gid seed cid updated code ns announced).

(** A staged commit whose metadata is lost is cleared. *)
Definition drop_lost_commit (g : Group) : pm Group :=
  if negb (has_pending_commit g) && has (mls_pending_commit (mls g))
  then fun p => let '((m', p'), r) := mls_clear_pending_commit (mls g, p) in (p', map_err Mls r ≫= fun _ => Ok (g <| mls := m' |>))
  else mret g.

(** [load_sidecar]. *)
Definition load_sidecar (l : bytes) : pm Group :=
  sc ← lift (decode_sidecar l);
  let sk := sk_from_bytes (sc_seed sc) in
  p ← get;
  o ← lift (map_err Mls (mls_load (sc_gid sc) p));
  m ← lift (ok_or o VaultCorrupt);
  if negb (mls_suite m =? CIPHERSUITE) then throw WrongCiphersuite
  else
    let pend := match pending_kind_from_code (sc_pending sc), mls_pending_commit m with
                | Some kind, Some _ => Some (mk_pending_own kind (sk_from_bytes <$> sc_new_signer sc))
                | _, _ => None
                end in
    let g := mk_group m (signer_of sk) sk (sc_cid sc) ∅ (from_millis (sc_updated sc)) pend (sc_announced sc) in
    g ← drop_lost_commit g;
    mret (sync_credential_ids g).

(** ** Pending joins *)

(** [PendingJoin::encode]. *)
Definition pj_encode (j : ClientPendingJoin) : cresult bytes :=
  s ← map_err Mls (skp_serialize (pj_signer j));
  Ok (encode (Map [(0, Uint 1); (1, Bytes (to_vec (pj_credential_id j))); (2, Bytes (to_vec (sk_to_bytes (pj_signing j))));
                   (3, Bytes (pj_key_package j)); (4, Bytes s)])).

(** [PendingJoin::decode]. *)
Definition pj_decode (l : bytes) : pm ClientPendingJoin :=
  m ← lift (vault_map l);
  version ← lift (vault_uint m 0);
  lift (ensure (version =? 1) VaultCorrupt);;
  cid ← lift (vault_fixed m 1);
  seed ← lift (vault_fixed m 2);
  kp ← lift (vault_bytes m 3);
  sb ← lift (vault_bytes m 4);
  signer ← lift (map_err Mls (skp_deserialize_exact sb));
  stM_map_err Mls (skp_store signer);;
  mret (mk_cpending cid signer (sk_from_bytes seed) kp).

(** ** In the vault *)

(** An open vault and the installation it belongs to. *)
Notation vim := (stM (Disk * Installation) CoreError).

Definition on_vault {A} (f : vm A) : vim A := fun s => let '(d, r) := f s.1 in ((d, s.2), r).
Definition on_install_provider {A} (f : pm A) : vim A :=
  fun s => let '(p, r) := f (mls_provider s.2) in ((s.1, s.2 <| mls_provider := p |>), r).

Fixpoint try_mapM {S E A B} (f : A -> stM S E B) (l : list A) : stM S E (list B) :=
  match l with [] => mret [] | x :: l => y ← f x; ys ← try_mapM f l; mret (y :: ys) end.

(** [Vault::save_groups]. *)
Definition save_groups (i : Installation) (groups : list Group) : vm unit :=
  save i;;
  vault_put GROUPS_KEY (encode (Array (map (fun g => Bytes (encode_sidecar g)) groups))).

(** [Vault::load_groups]. *)
Definition load_groups : vim (list Group) :=
  o ← on_vault (get_opt GROUPS_KEY);
  match o with
  | None => mret []
  | Some l =>
      v ← lift (corrupt (decode l));
      match v with
      | Array items => try_mapM (fun item => sidecar ← lift (corrupt (expect_bytes item)); on_install_provider (load_sidecar sidecar)) items
      | _ => throw VaultCorrupt
      end
  end.

(** [Vault::save_pending]. *)
Definition pending_row (e : key * ClientPendingJoin * HostAccept) : cresult Value :=
  l ← pj_encode e.1.2;
  Ok (Array [Bytes (to_vec e.1.1); Bytes l; Bytes (accept_encode e.2)]).

Definition save_pending (entries : list (key * ClientPendingJoin * HostAccept)) : vm unit :=
  items ← lift (try_map pending_row entries);
  vault_put PENDING_KEY (encode (Array items)).

Definition load_pending_row (item : Value) : vim (key * ClientPendingJoin * HostAccept) :=
  match item with
  | Array [v0; v1; v2] =>
      b0 ← lift (corrupt (expect_bytes v0));
      gid ← lift (corrupt (copy_fixed KEY_LEN b0));
      b1 ← lift (corrupt (expect_bytes v1));
      j ← on_install_provider (pj_decode b1);
      b2 ← lift (corrupt (expect_bytes v2));
      host ← lift (accept_decode b2);
      mret (gid, j, host)
  | _ => throw VaultCorrupt
  end.

(** [Vault::load_pending]. *)
Definition vault_load_pending : vim (list (key * ClientPendingJoin * HostAccept)) :=
  o ← on_vault (get_opt PENDING_KEY);
  match o with
  | None => mret []
  | Some l =>
      v ← lift (corrupt (decode l));
      match v with
      | Array items => try_mapM load_pending_row items
      | _ => throw VaultCorrupt
      end
  end.
End Store.

Notation pm := (stM MlsProvider CoreError).
Notation vim := (stM (Disk * Installation) CoreError).
