(* ===== verification/ClientGroupInv.v ===== *)
(** * The invariant of a client's group

    The tree as the client reads it, and what holds of a group at all times: the
    credential ids are those of the tree's leaves, every leaf is well formed, the
    group's signing key is the key of its own leaf, and the pending own commit is
    the one OpenMLS has staged. *)

From S2P Require Export ClientGroupStore.

(** ** Folding entries into a map *)

Section Fold.
Context {A V : Type} `{Countable K} (at_key : A -> K) (value : A -> option V).

Definition put_entry (acc : gmap K V) (a : A) : gmap K V :=
  match value a with Some v => <[at_key a := v]> acc | None => acc end.

Lemma put_entry_other l acc k : k ∉ at_key <$> l -> foldl put_entry acc l !! k = acc !! k.
Proof.
  revert acc. induction l as [|a l IH]; intros acc Hk; cbn; [done|]. cbn in Hk. rewrite IH by set_solver.
  unfold put_entry. destruct (value a); [|done]. rewrite lookup_insert_ne; [done | set_solver].
Qed.

Lemma foldl_put_in l a : NoDup (at_key <$> l) -> a ∈ l -> foldl put_entry ∅ l !! at_key a = value a.
Proof.
  assert (forall acc, NoDup (at_key <$> l) -> a ∈ l -> acc !! at_key a = None -> foldl put_entry acc l !! at_key a = value a) as Hg.
  { induction l as [|b l IH]; intros acc Hn Ha Hacc; [by apply not_elem_of_nil in Ha|]. cbn in Hn. apply NoDup_cons in Hn as [Hb Hn].
    apply elem_of_cons in Ha as [->|Ha]; cbn.
    - rewrite put_entry_other by done. unfold put_entry. destruct (value b); [apply lookup_insert_eq | done].
    - apply IH; [done..|]. unfold put_entry. destruct (value b); [|done]. rewrite lookup_insert_ne; [done|].
      intros E. apply Hb. rewrite E. apply list_elem_of_fmap. eauto. }
  intros. by apply Hg.
Qed.
End Fold.

Section Inv.
Context `{CryptoLaws} `{MlsLibLaws}.

(** ** The tree *)

Lemma tree_lookup m i l :
  tree m !! i = Some l <->
  exists mb, mb ∈ mls_members m /\ l ∈ mls_leaves m /\ m_index mb = i
    /\ m_signature_key mb = leaf_signature_key l /\ m_credential mb = leaf_credential l.
Proof.
  unfold tree. pose proof (members_indices m) as Hi. pose proof (members_keys m) as Hk. pose proof (members_are_leaves m) as Hf.
  assert (NoDup (zip (m_index <$> mls_members m) (mls_leaves m)).*1) as Hnd.
  { rewrite fst_zip; [done|]. rewrite length_fmap. by rewrite (Forall2_length _ _ _ Hf). }
  rewrite <- elem_of_list_to_map by done. clear Hi Hnd. induction Hf as [|mb l' ms ls [Hs Hc] Hf IH]; cbn.
  - split; [intros Hin; by apply not_elem_of_nil in Hin | intros (mb & Hin & _); by apply not_elem_of_nil in Hin].
  - cbn in Hk. apply NoDup_cons in Hk as [Hnk Hk]. specialize (IH Hk). rewrite elem_of_cons, IH. split.
    + intros [[= -> ->]|(mb' & H1' & H2' & H3')]; [exists mb; split_and!; try done; by left|].
      exists mb'. split_and!; try (by right); apply H3'.
    + intros (mb' & [->|H1']%elem_of_cons & [->|H2']%elem_of_cons & H3' & H4' & H5').
      * left. by rewrite H3'.
      * exfalso. apply Hnk. rewrite H4'. apply list_elem_of_lookup in H2' as [n Hn]. destruct (Forall2_lookup_r _ _ _ _ _ Hf Hn) as (mb' & Hm & E & _).
        apply list_elem_of_fmap. exists mb'. split; [by rewrite E | by eapply list_elem_of_lookup_2].
      * exfalso. apply Hnk. rewrite Hs, <- H4'. apply list_elem_of_fmap. eauto.
      * right. exists mb'. done.
Qed.

Lemma tree_member m i l :
  tree m !! i = Some l -> exists mb, mb ∈ mls_members m /\ m_index mb = i /\ m_signature_key mb = leaf_signature_key l.
Proof. intros (mb & ? & ? & ? & ? & ?)%tree_lookup. eauto. Qed.

Lemma member_leaf m mb : mb ∈ mls_members m ->
  exists l, l ∈ mls_leaves m /\ tree m !! m_index mb = Some l /\ leaf_signature_key l = m_signature_key mb.
Proof.
  intros Hm. pose proof (members_are_leaves m) as Hf. apply list_elem_of_lookup in Hm as [n Hn].
  destruct (Forall2_lookup_l _ _ _ _ _ Hf Hn) as (l & Hl & E1 & E2). exists l. split; [by eapply list_elem_of_lookup_2|]. split; [|done].
  apply tree_lookup. exists mb. split_and!; try done; by eapply list_elem_of_lookup_2.
Qed.

Lemma leaf_keys_nodup m : NoDup (leaf_signature_key <$> mls_leaves m).
Proof.
  pose proof (members_keys m) as Hk. replace (leaf_signature_key <$> mls_leaves m) with (m_signature_key <$> mls_members m); [done|].
  pose proof (members_are_leaves m) as Hf. clear Hk. induction Hf as [|mb l ms ls [Hs _] Hf IH]; cbn; [done|]. by rewrite Hs, IH.
Qed.

(** The ids the client derives are those of the leaves. *)
Lemma cids_lookup m i : cids_by_index m !! i = tree m !! i ≫= leaf_cid.
Proof.
  unfold cids_by_index. set (value := fun mb : Member Credential => cids_by_signature m !! m_signature_key mb).
  change (foldl (put_entry m_index value) ∅ (mls_members m) !! i = tree m !! i ≫= leaf_cid).
  destruct (tree m !! i) as [l|] eqn:Ht; cbn.
  - apply tree_lookup in Ht as (mb & Hm & Hl & <- & Hs & _). rewrite foldl_put_in by (apply members_indices || done).
    unfold value, cids_by_signature. rewrite Hs. by apply (foldl_put_in leaf_signature_key leaf_cid); [apply leaf_keys_nodup|].
  - rewrite put_entry_other; [apply lookup_empty|]. intros (mb & -> & Hm)%list_elem_of_fmap.
    destruct (member_leaf m mb Hm) as (l & _ & Hl & _). congruence.
Qed.

Lemma member_at_leaf i g l : tree (mls g) !! i = Some l -> exists mb, member_at i g = Some mb /\ m_signature_key mb = leaf_signature_key l.
Proof.
  intros Ht. destruct (tree_member _ _ _ Ht) as (mb & Hm & Hi & Hs). unfold member_at.
  destruct (list_find (fun m => m_index m = i) (mls_members (mls g))) as [[n mb']|] eqn:Hf; cbn.
  - exists mb'. split; [done|]. apply list_find_Some in Hf as (Hn & Hi' & _). apply list_elem_of_lookup_2 in Hn.
    destruct (member_leaf _ _ Hn) as (l' & _ & Hl' & E'). rewrite Hi', Ht in Hl'. injection Hl' as <-. done.
  - apply list_find_None in Hf. rewrite Forall_forall in Hf. by destruct (Hf mb Hm).
Qed.

Lemma same_tree_tree m m' : same_tree m m' -> tree m' = tree m.
Proof. intros Hs. unfold tree. by rewrite (st_members _ _ Hs), (st_leaves _ _ Hs). Qed.

Lemma same_tree_cids m m' : same_tree m m' -> cids_by_index m' = cids_by_index m.
Proof. intros Hs. apply map_eq. intros i. by rewrite !cids_lookup, (same_tree_tree m m'). Qed.

(** ** Leaves *)

Lemma check_new_leaf_ok l c :
  check_new_leaf l = Ok c -> leaf_cid l = Some c /\ extension_bytes (leaf_exts l) GROUP_SIGNING_EXT = Some (leaf_signature_key l).
Proof.
  unfold check_new_leaf, leaf_cid. destruct (extension_bytes (leaf_exts l) CREDENTIAL_ID_EXT) as [b|]; [|done]. cbn.
  destruct (copy_fixed KEY_LEN b); [|done]. cbn. destruct (extension_bytes _ GROUP_SIGNING_EXT) as [gsk|]; [|done]. cbn.
  case_bool_decide as Hk; [|done]. cbn. destruct (identity_pk_from_credential _); [|done]. cbn. intros [= ->]. by rewrite Hk.
Qed.

Lemma check_new_leaf_same l l' :
  leaf_exts l' = leaf_exts l -> leaf_credential l' = leaf_credential l -> leaf_signature_key l' = leaf_signature_key l ->
  check_new_leaf l' = check_new_leaf l.
Proof. intros E1 E2 E3. unfold check_new_leaf. by rewrite E1, E2, E3. Qed.

Lemma leaf_extensions_check cid pk e l :
  leaf_extensions cid pk = Ok e -> leaf_exts l = e -> leaf_signature_key l = to_vec pk ->
  is_ok (identity_pk_from_credential (leaf_credential l)) = true -> check_new_leaf l = Ok cid.
Proof.
  unfold leaf_extensions, check_new_leaf, extension_bytes. intros He -> Hs Hc.
  destruct (exts_from_vec _) as [e'|] eqn:Hv; [|done]. cbn in He. injection He as ->.
  rewrite !(exts_vec _ _ _ Hv), Hs. cbn [list_to_map foldr curry fst snd]. rewrite lookup_insert_eq. cbn [ok_or mbind result_bind].
  rewrite copy_fixed_to_vec. cbn [mbind result_bind map_err].
  rewrite lookup_insert_ne by done. rewrite lookup_insert_eq. cbn [ok_or mbind result_bind].
  rewrite bool_decide_eq_true_2 by done. cbn. destruct (identity_pk_from_credential _); done.
Qed.

Lemma basic_identity_pk (k : key) : identity_pk_from_credential (basic_credential (to_vec k)) = Ok k.
Proof. unfold identity_pk_from_credential. rewrite basic_identity_of. cbn. by rewrite copy_fixed_to_vec. Qed.

Lemma check_new_leaf_identity l c : check_new_leaf l = Ok c -> is_ok (identity_pk_from_credential (leaf_credential l)) = true.
Proof.
  unfold check_new_leaf. intros Hc. apply result_bind_ok in Hc as (b & _ & Hc). apply result_bind_ok in Hc as (cid & _ & Hc).
  apply result_bind_ok in Hc as (gsk & _ & Hc). case_bool_decide; [|done]. cbn in Hc. apply result_bind_ok in Hc as (k & -> & _). done.
Qed.

(** ** The invariant *)

(** The staged own commit is what the pending record says: of an active group,
    without Updates and without removing itself; the leaf of its path keeps the
    credential id and carries the key that becomes the group's once it is merged. *)
Record own_ok (g : Group) (po : PendingOwn) (c : StagedCommit) : Prop := {
  ow_active : mls_is_active (mls g) = true;
  ow_updates : staged_updates c = [];
  ow_removes : mls_own_index (mls g) ∉ staged_removes c;
  ow_kind : staged_removes c <> [] -> pending_kind_of po = PkRemove;
  ow_path l : staged_path c = Some l ->
    check_new_leaf l = Ok (g_credential_id g)
    /\ leaf_signature_key l = to_vec (vk_to_bytes (verifying_key (default (group_signing g) (new_signer po))));
  ow_signer : is_Some (new_signer po) -> is_Some (staged_path c);
  ow_adds k : k ∈ staged_adds c -> exists cid, check_new_leaf (kp_leaf_node k) = Ok cid /\ cid ∉ (map_to_list (credential_ids g)).*2
}.

(** A key is announced by a replacement that the old key has signed. *)
Definition announced_ok (ks : gmap bytes key) : Prop :=
  forall old new, ks !! old = Some new -> exists arr pk r,
    to_vec arr = old /\ vk_from_bytes arr = Some pk /\ replace_verify r pk = Ok tt /\ replace_new_public_key r = new.

Record gok (g : Group) : Prop := {
  go_pending : match pending g with
               | None => mls_pending_commit (mls g) = None
               | Some po => exists c, mls_pending_commit (mls g) = Some c /\ own_ok g po c
               end;
  go_signer : mls_signer g = signer_of (group_signing g);
  go_suite : mls_suite (mls g) = CIPHERSUITE;
  go_leaves i l : tree (mls g) !! i = Some l -> is_ok (check_new_leaf l) = true;
  go_cids : credential_ids g = cids_by_index (mls g);
  go_own : mls_is_active (mls g) = true -> exists l, mls_own_leaf (mls g) = Some l
    /\ check_new_leaf l = Ok (g_credential_id g) /\ leaf_signature_key l = to_vec (group_signing_public g);
  go_announced : announced_ok (announced_keys g);
  go_live old : is_Some (announced_keys g !! old) -> old ∈ m_signature_key <$> mls_members (mls g)
}.

Lemma gok_cid g i l : gok g -> tree (mls g) !! i = Some l -> exists c, check_new_leaf l = Ok c /\ credential_ids g !! i = Some c.
Proof.
  intros Hg Ht. pose proof (go_leaves g Hg i l Ht) as Hl. destruct (check_new_leaf l) as [c|] eqn:Hc; [|done].
  exists c. split; [done|]. rewrite (go_cids g Hg), cids_lookup, Ht. by apply check_new_leaf_ok.
Qed.

Lemma cid_leaf g i c : gok g -> credential_ids g !! i = Some c -> exists l, tree (mls g) !! i = Some l /\ check_new_leaf l = Ok c.
Proof.
  intros Hg. rewrite (go_cids g Hg), cids_lookup. destruct (tree (mls g) !! i) as [l|] eqn:Ht; [|done]. cbn. intros Hc.
  exists l. split; [done|]. destruct (gok_cid g i l Hg Ht) as (c' & Hl & Hc'). destruct (check_new_leaf_ok l c' Hl). congruence.
Qed.

(** A call that leaves the tree and the staged commit leaves the group in order. *)
Lemma gok_same g m : gok g -> same_group (mls g) m -> gok (g <| mls := m |>).
Proof.
  intros Hg [Ht Hp]. pose proof (same_tree_tree _ _ Ht) as E. destruct Hg as [G1 G2 G3 G4 G5 G6 G7 G8]. split; cbn.
  - rewrite Hp. destruct (pending g) as [po|]; [|done]. destruct G1 as (c & Hc & [O1 O2 O3 O4 O5 O6 O7]). exists c. split; [done|].
    split; cbn; try done; [by rewrite (st_active _ _ Ht) | by rewrite (st_own_index _ _ Ht)].
  - done.
  - by rewrite (st_suite _ _ Ht).
  - rewrite E. apply G4.
  - by rewrite (same_tree_cids _ _ Ht).
  - rewrite (st_active _ _ Ht), (st_own_leaf _ _ Ht). apply G6.
  - done.
  - by rewrite (st_members _ _ Ht).
Qed.

(** The same for one that stages a commit. *)
Lemma gok_staged g m c po :
  gok g -> same_tree (mls g) m -> mls_pending_commit m = Some c -> own_ok g po c ->
  gok (g <| mls := m |> <| pending := Some po |>).
Proof.
  intros Hg Ht Hp [O1 O2 O3 O4 O5 O6 O7]. pose proof (same_tree_tree _ _ Ht) as E. destruct Hg as [G1 G2 G3 G4 G5 G6 G7 G8]. split; cbn.
  - exists c. split; [done|]. split; cbn; try done; [by rewrite (st_active _ _ Ht) | by rewrite (st_own_index _ _ Ht)].
  - done.
  - by rewrite (st_suite _ _ Ht).
  - rewrite E. apply G4.
  - by rewrite (same_tree_cids _ _ Ht).
  - rewrite (st_active _ _ Ht), (st_own_leaf _ _ Ht). apply G6.
  - done.
  - by rewrite (st_members _ _ Ht).
Qed.

Lemma gok_cleared g m :
  gok g -> same_tree (mls g) m -> mls_pending_commit m = None -> gok (g <| mls := m |> <| pending := None |>).
Proof.
  intros Hg Ht Hp. pose proof (same_tree_tree _ _ Ht) as E. destruct Hg as [G1 G2 G3 G4 G5 G6 G7 G8]. split; cbn; try done.
  - by rewrite (st_suite _ _ Ht).
  - rewrite E. apply G4.
  - by rewrite (same_tree_cids _ _ Ht).
  - rewrite (st_active _ _ Ht), (st_own_leaf _ _ Ht). apply G6.
  - by rewrite (st_members _ _ Ht).
Qed.

(** ** Merging a commit *)

(** What the client has checked of a commit of the member at [s]: every leaf that
    it gives a member keeps the member's credential id, and every added leaf is
    well formed and has a new one. *)
Record commit_ok (g : Group) (s : N) (c : StagedCommit) : Prop := {
  ck_leaf i l : (i = s /\ staged_path c = Some l) \/ (SMember i, l) ∈ staged_updates c ->
    exists cid, check_new_leaf l = Ok cid /\ (credential_ids g !! i = None \/ credential_ids g !! i = Some cid);
  ck_adds k : k ∈ staged_adds c -> exists cid, check_new_leaf (kp_leaf_node k) = Ok cid /\ cid ∉ (map_to_list (credential_ids g)).*2
}.

Lemma committed_leaves g s c m :
  gok g -> committed (mls g) s c m -> commit_ok g s c -> forall i l, tree m !! i = Some l -> is_ok (check_new_leaf l) = true.
Proof.
  intros Hg Hm Hc i l Ht. assert (forall cid, check_new_leaf l = Ok cid -> is_ok (check_new_leaf l) = true) as Hok by (by intros ? ->).
  destruct (decide (tree (mls g) !! i = None \/ i ∈ staged_removes c)) as [Hn|Hn].
  { pose proof (cm_fresh _ _ _ _ Hm i l Ht Hn) as (k & -> & Hk)%list_elem_of_fmap. destruct (ck_adds _ _ _ Hc k Hk) as (cid & E & _). by apply (Hok cid). }
  destruct (tree (mls g) !! i) as [l0|] eqn:Hl0; [|exfalso; tauto].
  destruct (cm_kept _ _ _ _ Hm i l0 Hl0) as (l' & Hl' & Hcase); [tauto|]. rewrite Ht in Hl'. injection Hl' as <-.
  destruct Hcase as [->|Hcase]; [by apply (go_leaves g Hg i)|]. destruct (ck_leaf _ _ _ Hc i l) as (cid & E & _); [tauto|]. by apply (Hok cid).
Qed.

(** Who is not removed keeps its credential id. *)
Lemma committed_cid g s c m i cid :
  gok g -> committed (mls g) s c m -> commit_ok g s c -> credential_ids g !! i = Some cid -> i ∉ staged_removes c ->
  cids_by_index m !! i = Some cid.
Proof.
  intros Hg Hm Hc Hi Hr. destruct (cid_leaf g i cid Hg Hi) as (l & Hl & Hlc). destruct (cm_kept _ _ _ _ Hm i l Hl Hr) as (l' & Hl' & Hcase).
  rewrite cids_lookup, Hl'. cbn. destruct Hcase as [->|Hcase]; [by apply check_new_leaf_ok|].
  destruct (ck_leaf _ _ _ Hc i l' Hcase) as (cid' & E & [En|En]); [congruence|]. rewrite Hi in En. injection En as ->. by apply check_new_leaf_ok.
Qed.

(** Who is new has a credential id that was not in the group. *)
Lemma committed_fresh g s c m i cid :
  gok g -> committed (mls g) s c m -> commit_ok g s c -> cids_by_index m !! i = Some cid ->
  credential_ids g !! i = None \/ i ∈ staged_removes c -> cid ∉ (map_to_list (credential_ids g)).*2.
Proof.
  intros Hg Hm Hc Hi Hn. rewrite cids_lookup in Hi. destruct (tree m !! i) as [l|] eqn:Ht; [|done]. cbn in Hi.
  assert (tree (mls g) !! i = None \/ i ∈ staged_removes c) as Hn'.
  { destruct Hn as [Hn|Hn]; [|by right]. left. destruct (tree (mls g) !! i) as [l0|] eqn:E; [|done].
    destruct (gok_cid g i l0 Hg E) as (c0 & _ & E0). congruence. }
  pose proof (cm_fresh _ _ _ _ Hm i l Ht Hn') as (k & -> & Hk)%list_elem_of_fmap.
  destruct (ck_adds _ _ _ Hc k Hk) as (cid' & E & Hf). destruct (check_new_leaf_ok _ _ E) as [E' _]. congruence.
Qed.

Lemma announced_filter (P : bytes * key -> Prop) `{!forall e, Decision (P e)} ks : announced_ok ks -> announced_ok (filter P ks).
Proof. intros Ha old new. rewrite map_lookup_filter_Some. intros [Hl _]. by apply Ha. Qed.

Lemma filter_live (ks : gmap bytes key) (live : list bytes) old :
  is_Some (filter (fun e => e.1 ∈ live) ks !! old) -> old ∈ live.
Proof. intros [new Hn]. by apply map_lookup_filter_Some in Hn as [_ Hl]. Qed.

(** The group after a commit, with the signing key [sk]. *)
Definition merged (g : Group) (m : MlsGroup) (sk : SigningKey) (t : N) : Group :=
  sync_credential_ids (mk_group m (signer_of sk) sk (g_credential_id g) (credential_ids g) t None (announced_keys g)).

Lemma gok_merged g s c m sk t :
  gok g -> committed (mls g) s c m -> commit_ok g s c ->
  (mls_is_active m = true -> exists l, tree m !! mls_own_index m = Some l /\ check_new_leaf l = Ok (g_credential_id g)
     /\ leaf_signature_key l = to_vec (vk_to_bytes (verifying_key sk))) ->
  gok (merged g m sk t).
Proof.
  intros Hg Hm Hc Hown. split; cbn; try done.
  - apply (cm_pending _ _ _ _ Hm).
  - rewrite (cm_suite _ _ _ _ Hm). apply (go_suite g Hg).
  - by apply (committed_leaves g s c).
  - intros Ha. destruct (Hown Ha) as (l & Hl & Hk & Hs). destruct (own_leaf_at m Ha) as [E _]. exists l. by rewrite E.
  - apply announced_filter. apply (go_announced g Hg).
  - intros old. by apply filter_live.
Qed.

(** The own commit, merged. *)
Lemma gok_own_merged g po c m t :
  gok g -> own_ok g po c -> committed (mls g) (mls_own_index (mls g)) c m ->
  gok (merged g m (default (group_signing g) (new_signer po)) t) /\ commit_ok g (mls_own_index (mls g)) c.
Proof.
  intros Hg Ho Hm. destruct (own_leaf_at (mls g) (ow_active _ _ _ Ho)) as [Hown [l Hl]].
  destruct (go_own g Hg (ow_active _ _ _ Ho)) as (l' & E & Hlc & Hls). rewrite Hl in E. injection E as <-. rewrite Hl in Hown. symmetry in Hown.
  assert (commit_ok g (mls_own_index (mls g)) c) as Hc.
  { split; [|apply (ow_adds _ _ _ Ho)]. intros i k [[-> Hp]|Hu]; [|rewrite (ow_updates _ _ _ Ho) in Hu; by apply not_elem_of_nil in Hu].
    exists (g_credential_id g). split; [by apply (ow_path _ _ _ Ho)|]. right. destruct (gok_cid g _ _ Hg Hown) as (cid & E1 & E2). congruence. }
  split; [|done]. apply (gok_merged g (mls_own_index (mls g)) c); try done. intros _. rewrite (cm_own_index _ _ _ _ Hm).
  destruct (staged_path c) as [k|] eqn:Hp.
  { exists k. split; [by apply (cm_path _ _ _ _ Hm)|]. by apply (ow_path _ _ _ Ho). }
  destruct (cm_kept _ _ _ _ Hm _ _ Hown (ow_removes _ _ _ Ho)) as (l' & Hl' & [->|[[_ Hp']|Hu]]); [|congruence|].
  - exists l. split_and!; try done. destruct (new_signer po) eqn:Hn; [|done].
    destruct (ow_signer _ _ _ Ho) as [k Hk]; [by rewrite Hn|]. congruence.
  - rewrite (ow_updates _ _ _ Ho) in Hu. by apply not_elem_of_nil in Hu.
Qed.

(** A commit of another member, merged. *)
Lemma gok_foreign_merged g s c m :
  gok g -> s <> mls_own_index (mls g) -> (forall l, (SMember (mls_own_index (mls g)), l) ∉ staged_updates c) ->
  committed (mls g) s c m -> commit_ok g s c -> gok (merged g m (group_signing g) (last_own_update g)).
Proof.
  intros Hg Hs Hu Hm Hc. apply (gok_merged g s c); try done. intros Ha.
  pose proof (cm_active _ _ _ _ Hm) as Eact. rewrite Ha in Eact. symmetry in Eact. apply andb_true_iff in Eact as [Ha0 Hr].
  apply negb_true_iff, bool_decide_eq_false in Hr. destruct (own_leaf_at (mls g) Ha0) as [Hown [l Hl]].
  destruct (go_own g Hg Ha0) as (l' & E & Hlc & Hls). rewrite Hl in E. injection E as <-. rewrite Hl in Hown. symmetry in Hown.
  rewrite (cm_own_index _ _ _ _ Hm). destruct (cm_kept _ _ _ _ Hm _ _ Hown Hr) as (l' & Hl' & [->|[[E _]|Hu']]); [|congruence|by apply Hu in Hu'].
  exists l. by split_and!.
Qed.

(** ** What the checks mean *)

Lemma try_fold_unit {A} (f : A -> cresult unit) l :
  try_fold (fun _ x => f x) tt l = Ok tt -> Forall (fun x => f x = Ok tt) l.
Proof.
  induction l as [|x l IH]; cbn; [constructor|]. destruct (f x) as [[]|] eqn:E; cbn; [|done]. intros Hr. constructor; [done | by apply IH].
Qed.

Lemma check_leaf_update_ok i l g :
  check_leaf_update i l g = Ok tt ->
  exists cid mb, check_new_leaf l = Ok cid /\ (credential_ids g !! i = None \/ credential_ids g !! i = Some cid) /\ member_at i g = Some mb
    /\ (m_signature_key mb = leaf_signature_key l
        \/ exists new, to_vec new = leaf_signature_key l /\ announced_keys g !! m_signature_key mb = Some new).
Proof.
  unfold check_leaf_update. intros (cid & Hc & Hr)%result_bind_ok. apply result_bind_ok in Hr as ([] & He & Hr).
  apply result_bind_ok in Hr as (mb & Hmb & Hr). exists cid, mb. split; [done|]. split_and!.
  - unfold ensure in He. destruct (credential_ids g !! i) as [prev|]; [|by left]. destruct (decide (prev = cid)) as [->|Hne]; [by right|]. by rewrite bool_decide_eq_false_2 in He.
  - by destruct (member_at i g); cbn in Hmb; simplify_eq.
  - case_bool_decide as Hk; [by left|]. cbn in Hr. right. destruct (copy_fixed KEY_LEN (leaf_signature_key l)) as [new|] eqn:Ec; [|done].
    cbn in Hr. unfold ensure in Hr. case_bool_decide; [|done]. exists new. split; [|done]. by apply copy_fixed_ok in Ec.
Qed.

(** A signature key only changes as announced. *)
Definition key_change_announced (g : Group) (i : N) (l : LeafNode) : Prop :=
  exists mb, member_at i g = Some mb
    /\ (m_signature_key mb = leaf_signature_key l
        \/ exists new, to_vec new = leaf_signature_key l /\ announced_keys g !! m_signature_key mb = Some new).

Lemma validate_commit_ok g s c :
  validate_commit c (SMember s) g = Ok tt ->
  commit_ok g s c /\ forall i l, (i = s /\ staged_path c = Some l) \/ (SMember i, l) ∈ staged_updates c -> key_change_announced g i l.
Proof.
  unfold validate_commit. intros ([] & Hu & Hr)%result_bind_ok. apply result_bind_ok in Hr as ([] & Hp & Ha).
  apply (try_fold_unit (fun up => check_sender_update g up.1 up.2)) in Hu. apply (try_fold_unit (check_add g)) in Ha.
  rewrite Forall_forall in Hu. rewrite Forall_forall in Ha.
  assert (forall i l, (i = s /\ staged_path c = Some l) \/ (SMember i, l) ∈ staged_updates c -> check_leaf_update i l g = Ok tt) as Hall.
  { intros i l [[-> E]|Hin]; [by rewrite E in Hp | by apply (Hu (SMember i, l))]. }
  split; [split|].
  - intros i l Hc. destruct (check_leaf_update_ok i l g (Hall i l Hc)) as (cid & mb & E & Hi & _). eauto.
  - intros k Hk. specialize (Ha k Hk). apply result_bind_ok in Ha as (cid & E & Hn). exists cid. split; [done|].
    unfold ensure in Hn. case_bool_decide; [done|]. done.
  - intros i l Hc. destruct (check_leaf_update_ok i l g (Hall i l Hc)) as (cid & mb & E & Hi & Hmb & Hk). by exists mb.
Qed.
End Inv.
