(* ===== verification/ClientGroupRun.v ===== *)
(** * What the methods of a group do to it

    Every method leaves the members and keys of the group alone, merges the own
    commit that was pending, or merges a commit of another member that passed the
    client's checks; and keeps the invariant. *)

From S2P Require Export ClientGroupInv.

Section Run.
Context `{CryptoLaws} `{MlsLibLaws}.

(** ** Postconditions *)

Lemma post_this (s : Group * MlsProvider) Q : post this s Q = Q (Ok s.1) s.
Proof. done. Qed.

Lemma post_update f (s : Group * MlsProvider) Q : post (update f) s Q = Q (Ok tt) (f s.1, s.2).
Proof. done. Qed.

Lemma post_on_mls {E A} err (f : stM (MlsGroup * MlsProvider) E A) g p Q :
  (forall m' p' r, f (mls g, p) = ((m', p'), r) -> Q (map_err err r) (g <| mls := m' |>, p')) -> post (on_mls err f) (g, p) Q.
Proof. unfold post, on_mls. cbn. destruct (f (mls g, p)) as [[m' p'] r]. cbn. eauto. Qed.

Lemma set_mls_self (g : Group) : g <| mls := mls g |> = g.
Proof. by destruct g. Qed.

Lemma same_group_refl m : same_group m m.
Proof. by split; [split|]. Qed.

Lemma committed_same m m1 s c m2 : same_tree m m1 -> committed m1 s c m2 -> committed m s c m2.
Proof.
  intros Hs [C1 C2 C3 C4 C5 C6 C7 C8 C9]. pose proof (same_tree_tree _ _ Hs) as E.
  split; try done; rewrite <- ?E; try done.
  - by rewrite <- (st_own_index _ _ Hs).
  - by rewrite <- (st_gid _ _ Hs).
  - by rewrite <- (st_suite _ _ Hs).
  - by rewrite <- (st_own_index _ _ Hs), <- (st_active _ _ Hs).
Qed.

(** What processing a commit tells of it. *)
Record foreign (m m1 : MlsGroup) (p1 : MlsProvider) (s : Sender) (c : StagedCommit) (i : N) : Prop := {
  fo_sender : s = SMember i;
  fo_member : is_Some (tree m !! i);
  fo_other : i <> mls_own_index m;
  fo_removes : i ∉ staged_removes c;
  fo_updates l : (SMember (mls_own_index m), l) ∉ staged_updates c;
  fo_merge m2 p2 : mls_merge_staged_commit c (m1, p1) = ((m2, p2), Ok tt) -> committed m i c m2
}.

Lemma post_process l g p Q :
  (forall m1 p1 r, same_group (mls g) m1 ->
     (forall s c, r = Ok (mk_processed s (StagedCommitMessage c)) -> is_external_commit c = false -> exists i, foreign (mls g) m1 p1 s c i) ->
     Q r (g <| mls := m1 |>, p1)) ->
  post (process l) (g, p) Q.
Proof.
  intros HQ. assert (forall e, Q (Err e) (g, p)) as Herr.
  { intros e. specialize (HQ (mls g) p (Err e) (same_group_refl _)). rewrite set_mls_self in HQ. by apply HQ. }
  unfold process. wp. destruct (decode_mls l) as [msg|]; [|apply Herr]. wp. destruct (msg_into_protocol msg) as [pm|]; [|apply Herr]. cbn [map_err].
  apply post_on_mls. intros m1 p1 r Hr. pose proof (process_same _ _ _ _ _ _ Hr) as Hs. apply HQ; [done|]. intros s c Hrc Hx.
  destruct r as [x|e]; [|by destruct e]. cbn in Hrc. injection Hrc as ->.
  destruct (process_commit _ _ _ _ _ _ _ Hr) as [Hext|(i & -> & Hi & Ho & Hrm & Hu & Hm)].
  - exfalso. unfold is_external_commit in Hx. rewrite <- not_true_iff_false, existsb_exists in Hx. apply Hx. exists KExternalInit. split; [|done].
    by apply list_elem_of_In.
  - exists i. split; try done. intros m2 p2 Hm2. eapply committed_same; [apply Hs | by eapply Hm].
Qed.

(** ** Moves *)

(** [R] is what the method knows of a commit of another member that it merges. *)
Inductive moved (R : N -> StagedCommit -> Prop) (g : Group) : Group -> Prop :=
| Stays g' :
    same_tree (mls g) (mls g') -> credential_ids g' = credential_ids g -> group_signing g' = group_signing g ->
    g_credential_id g' = g_credential_id g -> moved R g g'
| OwnMerged po c m t :
    pending g = Some po -> mls_pending_commit (mls g) = Some c -> own_ok g po c ->
    committed (mls g) (mls_own_index (mls g)) c m -> commit_ok g (mls_own_index (mls g)) c ->
    moved R g (merged g m (default (group_signing g) (new_signer po)) t)
| ForeignMerged s c m :
    s <> mls_own_index (mls g) -> is_Some (tree (mls g) !! s) -> s ∉ staged_removes c -> committed (mls g) s c m -> commit_ok g s c ->
    (forall i l, (i = s /\ staged_path c = Some l) \/ (SMember i, l) ∈ staged_updates c -> key_change_announced g i l) ->
    R s c -> moved R g (merged g m (group_signing g) (last_own_update g)).

Lemma stays_set_mls R g m : same_group (mls g) m -> moved R g (g <| mls := m |>).
Proof. intros [Hs _]. by apply Stays. Qed.

Lemma same_tree_trans m1 m2 m3 : same_tree m1 m2 -> same_tree m2 m3 -> same_tree m1 m3.
Proof. intros A B. split; (etransitivity; [apply B | apply A]). Qed.

Lemma same_group_trans m1 m2 m3 : same_group m1 m2 -> same_group m2 m3 -> same_group m1 m3.
Proof. intros [S1 P1] [S2 P2]. split; [by eapply same_tree_trans | congruence]. Qed.

Definition good (R : N -> StagedCommit -> Prop) (g : Group) {A} (r : cresult A) (s : Group * MlsProvider) : Prop := gok s.1 /\ moved R g s.1.

Lemma good_same R g m p {A} (r : cresult A) : gok g -> same_group (mls g) m -> good R g r (g <| mls := m |>, p).
Proof. intros Hg Hs. split; cbn; [by apply gok_same | by apply stays_set_mls]. Qed.

(** Merging the own commit after a message was processed. *)
Lemma finish_good R g m1 p1 now :
  gok g -> same_group (mls g) m1 -> post (finish_own_commit now) (g <| mls := m1 |>, p1) (good R g).
Proof.
  intros Hg Hs. unfold finish_own_commit. rewrite post_bind. apply post_on_mls. cbn [mls]. intros m2 p2 r Hr.
  pose proof (merge_pending_commits _ _ _ _ _ Hr) as Hm. cbn in Hm. destruct r as [[]|e]; cbn [map_err].
  2:{ change (g <| mls := m1 |> <| mls := m2 |>) with (g <| mls := m2 |>). apply good_same; [done | by eapply same_group_trans]. }
  wp. rewrite post_this. cbn. destruct Hs as [Hs Hp]. rewrite Hp in Hm.
  assert (mls_pending_commit (mls g) = None /\ pending g = None \/ exists po c, pending g = Some po /\ mls_pending_commit (mls g) = Some c /\ own_ok g po c)
    as [[E1 E2]|(po & c & E1 & E2 & Ho)].
  { pose proof (go_pending g Hg) as Hgp. destruct (pending g) as [po|]; [right | by left]. destruct Hgp as (c & ? & ?). eauto. }
  - rewrite E1 in Hm. destruct Hm as [Hs2 Hp2]. rewrite E2. cbn. wp. rewrite !post_update. cbn.
    assert (same_tree (mls g) m2) as Hs3 by (by eapply same_tree_trans). assert (mls_pending_commit m2 = None) as Hn by congruence.
    pose proof (gok_cleared g m2 Hg Hs3 Hn) as [G1 G2 G3 G4 G5 G6 G7 G8]. split; cbn.
    + split; cbn; try done; [by apply announced_filter | intros old; by apply filter_live].
    + by apply Stays.
  - rewrite E2 in Hm. rewrite (st_own_index _ _ Hs) in Hm. pose proof (committed_same _ _ _ _ _ Hs Hm) as Hc.
    destruct (gok_own_merged g po c m2 now Hg Ho Hc) as [Hgm Hck]. rewrite E1. cbn.
    assert (moved R g (merged g m2 (default (group_signing g) (new_signer po)) now)) as Hmv by (by apply (OwnMerged R g po c)).
    destruct (new_signer po) as [sk|] eqn:En; cbn [default] in *; wp; rewrite !post_update; cbn.
    + exact (conj Hgm Hmv).
    + unfold merged in Hgm, Hmv. rewrite <- (go_signer g Hg) in Hgm, Hmv. exact (conj Hgm Hmv).
Qed.

(** Merging a commit of another member that was checked. *)
Lemma merge_foreign_good (R : N -> StagedCommit -> Prop) g m1 p1 c i :
  gok g -> same_group (mls g) m1 -> foreign (mls g) m1 p1 (SMember i) c i ->
  validate_commit c (SMember i) (g <| mls := m1 |>) = Ok tt -> R i c ->
  post (merge_foreign c) (g <| mls := m1 |>, p1) (good R g).
Proof.
  intros Hg Hs [_ Fm Fo Frm Fu Fc] Hv HR. destruct (validate_commit_ok _ _ _ Hv) as [Hck Hkeys].
  unfold merge_foreign. rewrite post_bind, post_this. cbn. rewrite post_bind. apply post_on_mls. cbn [mls]. intros m2 p2 r Hr.
  destruct r as [[]|e]; cbn [map_err].
  2:{ change (g <| mls := m1 |> <| mls := m2 |>) with (g <| mls := m2 |>). apply good_same; [done|].
      eapply same_group_trans; [done|]. by eapply merge_staged_fails. }
  wp. rewrite !post_update. wp. rewrite post_update. cbn. wp. pose proof (Fc _ _ Hr) as Hc. destruct Hs as [Hs Hp].
  assert (commit_ok g i c) as Hck' by (by destruct Hck as [K1 K2]; split).
  assert (forall j l, (j = i /\ staged_path c = Some l) \/ (SMember j, l) ∈ staged_updates c -> key_change_announced g j l) as Hkeys'.
  { intros j l Hj. destruct (Hkeys j l Hj) as (mb & Hmb & Hk). exists mb. split; [|done]. unfold member_at in *. cbn in Hmb.
    by rewrite (st_members _ _ Hs) in Hmb. }
  pose proof (gok_foreign_merged g i c m2 Hg Fo Fu Hc Hck') as Hgm. pose proof (ForeignMerged R g i c m2 Fo Fm Frm Hc Hck' Hkeys' HR) as Hmv.
  unfold merged in Hgm, Hmv. rewrite <- (go_signer g Hg) in Hgm, Hmv. exact (conj Hgm Hmv).
Qed.

(** ** Commits from the stream *)

(** A handshake never removes anybody. *)
Definition handshake_rule (_ : N) (c : StagedCommit) : Prop := staged_removes c = [].

(** A bundle removes the one member it names, and the member that commits has
    signed it for this group. *)
Definition bundle_rule (g : Group) (host_group_id : key) (b : RemoveBundle) (s : N) (c : StagedCommit) : Prop :=
  exists j pk, staged_removes c = [j] /\ credential_ids g !! j = Some (remove_credential_id b)
    /\ group_signing_at s g = Some pk /\ verify_sidecar b pk host_group_id = Ok tt.

Lemma apply_handshake_good msg now g p :
  gok g -> post (apply_handshake msg now) (g, p) (good handshake_rule g).
Proof.
  intros Hg. unfold apply_handshake. rewrite post_bind. apply post_process. intros m1 p1 r Hs Hc.
  destruct r as [[s content]|e]; [|by apply good_same]. rewrite post_bind, post_this. cbn [fst pm_content pm_sender].
  destruct content as [b|k| |c| |]; try (by apply good_same).
  - destruct (is_reinit k); by apply good_same.
  - destruct (is_external_commit c) eqn:Hx; [by apply good_same|]. destruct (0 <? staged_remove_count c) eqn:Hn; [by apply good_same|].
    wp. destruct (validate_commit c s (g <| mls := m1 |>)) as [[]|e] eqn:Hv; [|by apply good_same].
    destruct (Hc s c eq_refl Hx) as (i & Hf). pose proof (fo_sender _ _ _ _ _ _ Hf) as ->. apply (merge_foreign_good _ g m1 p1 c i); try done.
    unfold handshake_rule. unfold staged_remove_count, lenN in Hn. destruct (staged_removes c); [done|]. cbn in Hn. lia.
  - by apply finish_good.
  - unfold has_pending_commit. cbn. case_bool_decide; [by apply finish_good | by apply good_same].
Qed.

Lemma group_signing_at_same i g m : same_tree (mls g) m -> group_signing_at i (g <| mls := m |>) = group_signing_at i g.
Proof. intros Hs. unfold group_signing_at, member_at. cbn. by rewrite (st_members _ _ Hs). Qed.

Lemma staged_remove_matches_ok c cid g :
  staged_remove_matches c cid g = true -> exists j, staged_removes c = [j] /\ credential_ids g !! j = Some cid.
Proof.
  unfold staged_remove_matches. rewrite andb_true_iff. intros [Hf Hn]. unfold lenN in Hn. destruct (staged_removes c) as [|j [|]]; try done; [|cbn in Hn; lia].
  exists j. split; [done|]. cbn in Hf. rewrite andb_true_r in Hf. by apply bool_decide_eq_true in Hf.
Qed.

Lemma apply_remove_bundle_good hg b now g p :
  gok g -> post (apply_remove_bundle hg b now) (g, p) (good (bundle_rule g hg b) g).
Proof.
  intros Hg. unfold apply_remove_bundle. rewrite post_bind. apply post_process. intros m1 p1 r Hs Hc.
  destruct r as [[s content]|e]; [|by apply good_same]. rewrite post_bind, post_this. cbn [fst pm_content pm_sender].
  destruct (is_own content && has_pending_commit (g <| mls := m1 |>)); [by apply finish_good|]. wp.
  destruct (match s with SMember i => _ | _ => _ end) as [pk|e] eqn:Hpk; [|by apply good_same]. wp.
  destruct (verify_sidecar b pk hg) as [[]|e] eqn:Hv; [|by apply good_same]. cbn [cwire map_err]. cbv beta iota.
  destruct content as [bb|k| |c| |]; try (by apply good_same).
  destruct (is_external_commit c) eqn:Hx; [by apply good_same|]. destruct (staged_remove_count c =? 1); [|by apply good_same]. cbn [negb].
  destruct (staged_remove_matches c _ _) eqn:Hm; [|by apply good_same]. cbn [negb]. wp.
  destruct (validate_commit c s (g <| mls := m1 |>)) as [[]|e] eqn:Hval; [|by apply good_same].
  destruct (Hc s c eq_refl Hx) as (i & Hf). pose proof (fo_sender _ _ _ _ _ _ Hf) as ->. apply (merge_foreign_good _ g m1 p1 c i); try done.
  destruct (staged_remove_matches_ok _ _ _ Hm) as (j & Hj & Hcid). exists j, pk. split_and!; try done.
  rewrite group_signing_at_same in Hpk by apply Hs. by destruct (group_signing_at i g); cbn in Hpk; simplify_eq.
Qed.

(** ** Own commits *)

Lemma own_ok_intro g po e cwk adds removes c :
  mls_is_active (mls g) = true -> own_commit e cwk adds removes c ->
  (forall l, leaf_exts l = e -> leaf_credential l = cwk.1 -> leaf_signature_key l = cwk.2 -> check_new_leaf l = Ok (g_credential_id g)) ->
  cwk.2 = to_vec (vk_to_bytes (verifying_key (default (group_signing g) (new_signer po)))) ->
  mls_own_index (mls g) ∉ removes -> (removes <> [] -> pending_kind_of po = PkRemove) -> (is_Some (new_signer po) -> is_Some (staged_path c)) ->
  (forall k, k ∈ adds -> exists cid, check_new_leaf (kp_leaf_node k) = Ok cid /\ cid ∉ (map_to_list (credential_ids g)).*2) ->
  own_ok g po c.
Proof.
  intros Ha [Cu Cadd Crm Cp] Hl Hk Hrm Hkind Hsg Hadd. split; try done; rewrite ?Crm, ?Cadd; try done.
  intros l Hp. destruct (Cp l Hp) as (E1 & E2 & E3). split; [by apply Hl | congruence].
Qed.

(** The group after a call that staged a commit. *)
Lemma good_staged R g m p po c {A} (r : cresult A) t :
  gok g -> same_tree (mls g) m -> mls_pending_commit m = Some c -> own_ok g po c ->
  good R g r ((g <| mls := m |> <| pending := Some po |>) <| last_own_update := t |>, p).
Proof.
  intros Hg Hs Hp Ho. destruct (gok_staged g m c po Hg Hs Hp Ho) as [G1 G2 G3 G4 G5 G6 G7 G8]. split; cbn; [|by apply Stays].
  split; cbn; try done. cbn in G1. destruct G1 as (c' & Hc' & [O1 O2 O3 O4 O5 O6 O7]). exists c'. by split.
Qed.

Definition no_rule (_ : N) (_ : StagedCommit) : Prop := False.

Lemma good_refl R g p {A} (r : cresult A) : gok g -> good R g r (g, p).
Proof. intros Hg. split; [done|]. by apply Stays. Qed.

Lemma self_update_good now g p : gok g -> post (self_update now) (g, p) (good no_rule g).
Proof.
  intros Hg. unfold self_update. rewrite post_bind, post_this. cbn [fst]. wp.
  destruct (ensure_no_pending g); [|by apply good_refl]. destruct (own_leaf_extensions g) as [e|] eqn:He; [|by apply good_refl].
  rewrite post_bind. apply post_on_mls. intros m p' r Hr. pose proof (self_update_stages _ _ _ _ _ _ _ _ Hr) as Hst.
  destruct r as [out|]; cbn [map_err]; [|by apply good_same]. destruct Hst as (Ha & Hs & c & Hp & _ & l & Hl & Hoc).
  wp. rewrite !post_update. wp. rewrite !post_update. cbn. wp.
  apply (good_staged no_rule g m p' (mk_pending_own PkUpdate None) c); try done.
  destruct (go_own g Hg Ha) as (l' & E & Hlc & Hls). rewrite Hl in E. injection E as <-.
  eapply own_ok_intro; cbn; try done; [|by apply not_elem_of_nil..|by intros k Hk; apply not_elem_of_nil in Hk].
  intros l' E1 E2 E3. eapply leaf_extensions_check; [exact He | done | by rewrite E3 |]. rewrite E2. by eapply check_new_leaf_identity.
Qed.

Lemma maybe_self_update_good now clock g p : gok g -> post (maybe_self_update now clock) (g, p) (good no_rule g).
Proof.
  intros Hg. unfold maybe_self_update. rewrite post_bind, post_this. cbn [fst]. destruct (has_pending_commit g); [by apply good_refl|].
  destruct (_ || _); [|by apply good_refl]. rewrite post_bind. eapply post_conseq; [by apply self_update_good|]. by intros [].
Qed.

Lemma post_new_keys seed g p Q :
  (forall p1 (o : option CoreError),
     Q (match o with Some e => Err e | None => Ok (signer_of (sk_from_bytes seed), sk_from_bytes seed) end) (g, p1)) ->
  post (on_provider (new_group_keys seed)) (g, p) Q.
Proof.
  intros HQ. unfold post, on_provider, new_group_keys, stM_map_err, mbind, stM_bind. cbn [fst snd].
  destruct (skp_store _ p) as [p1 [[]|e]]; cbn; [apply (HQ p1 None) | apply (HQ p1 (Some (Mls e)))].
Qed.

Lemma rotate_good seed g p : gok g -> post (rotate_signing_key seed) (g, p) (good no_rule g).
Proof.
  intros Hg. unfold rotate_signing_key. rewrite post_bind, post_this. cbn [fst]. wp.
  destruct (ensure_no_pending g); [|by apply good_refl]. apply post_new_keys. intros p1 [e|]; [by apply good_refl|]. cbv beta iota. wp.
  set (sk := sk_from_bytes seed). destruct (replace_sign _ _) as [rp|]; [|by apply good_refl]. cbn [cwire map_err]. wp.
  destruct (leaf_extensions _ _) as [e|] eqn:He; [|by apply good_refl]. wp. destruct (own_identity_pk g) as [pk|] eqn:Hpk; [|by apply good_refl].
  wp. apply post_on_mls. intros m p' r Hr. pose proof (new_signer_stages _ _ _ _ _ _ _ _ _ _ Hr) as Hst.
  destruct r as [out|]; cbn [map_err]; [|by apply good_same]. destruct Hst as (Ha & Hs & c & Hp & Hpath & Hoc).
  wp. rewrite !post_update. wp. cbn.
  assert (good no_rule g (serialize_msg out ≫= fun l => Ok (rp, l))
    (g <| mls := m |> <| pending := Some (mk_pending_own PkSigningKeyRotate (Some sk)) |>, p')) as Hgood.
  { change (last_own_update g) with (last_own_update (g <| mls := m |> <| pending := Some (mk_pending_own PkSigningKeyRotate (Some sk)) |>)).
    apply (good_staged no_rule g m p' (mk_pending_own PkSigningKeyRotate (Some sk)) c _ (last_own_update g)); try done.
    eapply own_ok_intro; cbn; try done; [|apply skp_public_raw|by apply not_elem_of_nil|by intros k Hk; apply not_elem_of_nil in Hk].
    intros l' E1 E2 E3. eapply leaf_extensions_check; [exact He | done | rewrite E3; apply skp_public_raw |]. rewrite E2. unfold credential_with_key. cbn [fst]. by rewrite basic_identity_pk. }
  destruct (serialize_msg out); exact Hgood.
Qed.

Lemma admit_good l cid g p : gok g -> post (mls_admit l cid) (g, p) (good no_rule g).
Proof.
  intros Hg. unfold mls_admit. rewrite post_bind, post_this. cbn [fst]. wp.
  destruct (ensure_no_pending g); [|by apply good_refl]. destruct (validate_key_package l) as [kp|]; [|by apply good_refl].
  destruct (_ =? _); [|by apply good_refl]. cbn [negb]. wp. destruct (check_new_leaf (kp_leaf_node kp)) as [c0|] eqn:Hkp; [|by apply good_refl].
  case_bool_decide; [|by apply good_refl]. cbn [negb]. case_bool_decide as Hin; [by apply good_refl|].
  rewrite post_bind. apply post_on_mls. intros m p' r Hr. pose proof (add_stages _ _ _ _ _ _ _ Hr) as Hst.
  destruct r as [[cm wm]|]; cbn [map_err]; [|by apply good_same]. destruct Hst as (Ha & Hs & c & Hp & l0 & Hl & Hoc).
  wp. rewrite !post_update. cbn. wp.
  assert (forall A (r : cresult A), good no_rule g r (g <| mls := m |> <| pending := Some (mk_pending_own PkAdd None) |>, p')) as Hgood.
  { intros A r. apply (good_staged no_rule g m p' (mk_pending_own PkAdd None) c r (last_own_update g)); try done.
    destruct (go_own g Hg Ha) as (l' & E & Hlc & Hls). rewrite Hl in E. injection E as <-.
    eapply own_ok_intro; cbn; try done; [|by apply not_elem_of_nil|].
    - intros l' E1 E2 E3. by rewrite (check_new_leaf_same l0).
    - intros k ->%list_elem_of_singleton. eauto. }
  destruct (serialize_msg cm); [|apply Hgood]. wp. destruct (serialize_msg wm); apply Hgood.
Qed.

Lemma remove_good hg cid g p : gok g -> post (group_remove hg cid) (g, p) (good no_rule g).
Proof.
  intros Hg. unfold group_remove. rewrite post_bind, post_this. cbn [fst]. wp.
  destruct (ensure_no_pending g); [|by apply good_refl]. destruct (leaf_index_for cid g) as [j|]; [|by apply good_refl]. cbn [ok_or].
  rewrite post_bind. apply post_on_mls. intros m p' r Hr. pose proof (remove_stages _ _ _ _ _ _ _ Hr) as Hst.
  destruct r as [cm|]; cbn [map_err]; [|by apply good_same]. destruct Hst as (Ha & Hs & c & Hp & Hown & l0 & Hl & Hoc).
  wp. rewrite !post_update. cbn. wp.
  assert (forall A (r : cresult A), good no_rule g r (g <| mls := m |> <| pending := Some (mk_pending_own PkRemove None) |>, p')) as Hgood.
  { intros A r. apply (good_staged no_rule g m p' (mk_pending_own PkRemove None) c r (last_own_update g)); try done.
    destruct (go_own g Hg Ha) as (l' & E & Hlc & Hls). rewrite Hl in E. injection E as <-.
    eapply own_ok_intro; cbn; try done; [|by intros k Hk; apply not_elem_of_nil in Hk].
    intros l' E1 E2 E3. by rewrite (check_new_leaf_same l0). }
  destruct (serialize_msg cm); [|apply Hgood]. wp. apply Hgood.
Qed.

(** ** The rest *)

Lemma discard_good g p : gok g -> post discard_pending (g, p) (good no_rule g).
Proof.
  intros Hg. unfold discard_pending. rewrite post_bind. apply post_on_mls. intros m p' r Hr. pose proof (clear_pending_clears _ _ _ _ _ Hr) as Hc.
  destruct r as [[]|]; cbn [map_err]; [|by apply good_same]. destruct Hc as [Hs Hp]. rewrite post_update. cbn.
  split; cbn; [by apply gok_cleared | by apply Stays].
Qed.

Lemma encrypt_good l now g p : gok g -> post (group_encrypt l now) (g, p) (good no_rule g).
Proof.
  intros Hg. unfold group_encrypt. rewrite post_bind, post_this. cbn [fst]. wp. destruct (ensure_fresh_update now g); [|by apply good_refl].
  wp. apply post_on_mls. intros m p' r Hr. pose proof (create_same _ _ _ _ _ _ _ Hr) as Hs. destruct r; cbn [map_err]; [wp|]; by apply good_same.
Qed.

Lemma decrypt_good l g p : gok g -> post (decrypt_with_sender l) (g, p) (good no_rule g).
Proof.
  intros Hg. unfold decrypt_with_sender. rewrite post_bind. apply post_process. intros m1 p1 r Hs _. destruct r as [[s content]|]; [|by apply good_same].
  rewrite post_bind, post_this. cbn [fst pm_content pm_sender]. wp. destruct (match s with SMember i => _ | _ => _ end); [|by apply good_same].
  destruct content; by apply good_same.
Qed.

Lemma replace_good l g p : gok g -> post (apply_signing_key_replace l) (g, p) (good no_rule g).
Proof.
  intros Hg. unfold apply_signing_key_replace. wp. destruct (replace_decode l) as [r|]; [|by apply good_refl]. cbn [cwire map_err]. wp.
  rewrite post_this. cbn [fst]. destruct (list_find _ _) as [[n m]|] eqn:Hf; [|by apply good_refl]. rewrite post_update. cbn.
  split; cbn; [|by apply Stays]. destruct Hg as [G1 G2 G3 G4 G5 G6 G7 G8]. apply list_find_Some in Hf as (Hn & Hr & _).
  split; cbn; try done.
  - destruct (pending g); [|done]. destruct G1 as (c & Hc & [O1 O2 O3 O4 O5 O6 O7]). exists c. by split.
  - intros old new [[<- <-]|[_ Ho]]%lookup_insert_Some; [|by apply G7].
    unfold replace_signer in Hr. destruct (try_into KEY_LEN (m_signature_key m)) as [arr|] eqn:Ha; [|done]. cbn in Hr.
    destruct (vk_from_bytes arr) as [pk|] eqn:Hpk; [|done]. exists arr, pk, r. split; [by apply try_into_Some in Ha|].
    split_and!; try done. by destruct (replace_verify r pk) as [[]|].
  - intros old. destruct (decide (old = m_signature_key m)) as [->|Hne]; [|rewrite lookup_insert_ne by done; apply G8].
    intros _. apply list_elem_of_fmap. exists m. split; [done | by eapply list_elem_of_lookup_2].
Qed.

(** ** Runs *)

(** The calls of the public methods. *)
Inductive group_op : Type :=
| GDiscard
| GSelfUpdate (now : N)
| GMaybeUpdate (now clock : N)
| GRotate (seed : key)
| GAdmit (kp : bytes) (cid : key)
| GRemove (host_group_id cid : key)
| GHandshake (msg : bytes) (now : N)
| GRemoveBundle (host_group_id : key) (b : RemoveBundle) (now : N)
| GReplace (body : bytes)
| GEncrypt (l : bytes) (now : N)
| GDecrypt (l : bytes).

(** The state after a call, whether it succeeds or fails. *)
Definition group_exec (op : group_op) (s : Group * MlsProvider) : Group * MlsProvider :=
  match op with
  | GDiscard => (discard_pending s).1
  | GSelfUpdate now => (self_update now s).1
  | GMaybeUpdate now clock => (maybe_self_update now clock s).1
  | GRotate seed => (rotate_signing_key seed s).1
  | GAdmit kp cid => (mls_admit kp cid s).1
  | GRemove hg cid => (group_remove hg cid s).1
  | GHandshake msg now => (apply_handshake msg now s).1
  | GRemoveBundle hg b now => (apply_remove_bundle hg b now s).1
  | GReplace l => (apply_signing_key_replace l s).1
  | GEncrypt l now => (group_encrypt l now s).1
  | GDecrypt l => (decrypt_with_sender l s).1
  end.

Definition group_run (ops : list group_op) (s : Group * MlsProvider) : Group * MlsProvider := foldl (fun s op => group_exec op s) s ops.

(** What a call knows of the commits of others that it merges. *)
Definition op_rule (op : group_op) (g : Group) : N -> StagedCommit -> Prop :=
  match op with
  | GHandshake _ _ => handshake_rule
  | GRemoveBundle hg b _ => bundle_rule g hg b
  | _ => no_rule
  end.

Lemma group_exec_good op g p : gok g -> gok (group_exec op (g, p)).1 /\ moved (op_rule op g) g (group_exec op (g, p)).1.
Proof.
  intros Hg. destruct op as [|now|now clock|seed|kp cid|hg cid|msg now|hg b now|l|l now|l]; cbn [op_rule group_exec];
    [apply discard_good | apply self_update_good | apply maybe_self_update_good | apply rotate_good | apply admit_good | apply remove_good
    | apply apply_handshake_good | apply apply_remove_bundle_good | apply replace_good | apply encrypt_good | apply decrypt_good]; exact Hg.
Qed.

Lemma group_run_gok ops g p : gok g -> gok (group_run ops (g, p)).1.
Proof.
  revert g p. induction ops as [|op ops IH]; intros g p Hg; [done|]. cbn. destruct (group_exec op (g, p)) as [g1 p1] eqn:E.
  apply IH. pose proof (group_exec_good op g p Hg) as [H1' _]. by rewrite E in H1'.
Qed.
End Run.
