(* ===== verification/ClientGroupProps.v ===== *)
(** * What the client guarantees of its groups

    The invariant of every group from its creation or its join on, what a commit
    of another member can change, and what survives in the vault. *)

From S2P Require Export ClientGroupRun.
From S2P Require Import InstallProps VaultProps Toy ToySignal ToyMls.

Section Start.
Context `{CryptoLaws} `{SignalOps} `{MlsLibLaws}.

(** ** New groups *)

Lemma new_group_keys_ok seed p p' r :
  new_group_keys seed p = (p', Ok r) -> r = (signer_of (sk_from_bytes seed), sk_from_bytes seed).
Proof.
  unfold new_group_keys, stM_map_err, mbind, stM_bind. destruct (skp_store _ p) as [p1 [[]|e]]; cbn; [|done].
  unfold mret, stM_ret. intros; by simplify_eq.
Qed.

Lemma stM_map_err_ok {S E F A} (f : E -> F) (m : stM S E A) s s' a : stM_map_err f m s = (s', Ok a) -> m s = (s', Ok a).
Proof. unfold stM_map_err. destruct (m s) as [s1 [b|e]]; cbn; intros; by simplify_eq. Qed.

(** A group without pending commit and announcements, whose leaves are checked. *)
Lemma gok_start m sk cid now :
  mls_pending_commit m = None -> mls_suite m = CIPHERSUITE -> (forall i l, tree m !! i = Some l -> is_ok (check_new_leaf l) = true) ->
  (mls_is_active m = true -> exists l, mls_own_leaf m = Some l /\ check_new_leaf l = Ok cid
     /\ leaf_signature_key l = to_vec (vk_to_bytes (verifying_key sk))) ->
  gok (sync_credential_ids (mk_group m (signer_of sk) sk cid ∅ now None ∅)).
Proof.
  intros Hp Hsu Hl Ho. split; cbn; try done. intros old. by apply filter_live.
Qed.

Lemma create_group_gok i cid seed now p p' g : mls_create_group i cid seed now p = (p', Ok g) -> gok g /\ g_credential_id g = cid.
Proof.
  unfold mls_create_group. intros Hc. apply stM_bind_ok in Hc as (p1 & ks & Hk & Hc). apply new_group_keys_ok in Hk as ->.
  apply stM_bind_ok in Hc as (p2 & e & He & Hc). unfold lift in He.
  destruct (leaf_extensions cid _) as [e'|] eqn:Hle; [|done]. injection He as <- <-.
  apply stM_bind_ok in Hc as (p3 & m & Hm & Hc). apply stM_map_err_ok in Hm.
  destruct (new_group _ _ _ _ _ _ Hm) as (Hp & Ha & Hsu & l & Ht & Hx & Hcr & Hsk).
  destruct (mls_suite m =? CIPHERSUITE) eqn:Hs; [|done]. cbn in Hc. unfold mret, stM_ret in Hc. injection Hc as <- <-. split; [|done].
  assert (check_new_leaf l = Ok cid) as Hl.
  { eapply leaf_extensions_check; [exact Hle | exact Hx | rewrite Hsk; apply skp_public_raw | rewrite Hcr; cbn; by rewrite basic_identity_pk]. }
  apply gok_start; [done | by apply N.eqb_eq | |].
  - intros j l'. rewrite Ht. intros [_ <-]%lookup_singleton_Some. by rewrite Hl.
  - intros _. destruct (own_leaf_at m Ha) as [Ho _]. exists l. split_and!; [|done|rewrite Hsk; apply skp_public_raw].
    rewrite Ho, Ht. apply lookup_singleton_eq.
Qed.

Lemma sync_mls g : mls (sync_credential_ids g) = mls g.
Proof. done. Qed.

Lemma join_gok j l now p p' g :
  pj_join j l now p = (p', Ok g) -> pj_signer j = signer_of (pj_signing j) ->
  (forall own, mls_own_leaf (mls g) = Some own -> leaf_signature_key own = to_vec (pj_group_signing_public j)) ->
  gok g /\ g_credential_id g = pj_credential_id j.
Proof.
  unfold pj_join. intros Hj Hsig Hown. apply stM_bind_ok in Hj as (p1 & w & _ & Hj). apply stM_bind_ok in Hj as (p2 & w' & _ & Hj).
  apply stM_bind_ok in Hj as (p3 & e & _ & Hj). apply stM_bind_ok in Hj as (p4 & m & Hm & Hj). apply stM_map_err_ok in Hm.
  destruct (welcome_group _ _ _ _ _ Hm) as [Hp Ha]. destruct (mls_suite m =? CIPHERSUITE) eqn:Hsu; [|done]. cbn [negb] in Hj.
  cbv zeta in Hj. rewrite sync_mls in Hj. cbn [mls] in Hj. destruct (mls_own_leaf m) as [own|] eqn:Ho; [|done]. case_bool_decide as Hc; [|done]. cbn [negb] in Hj.
  apply stM_bind_ok in Hj as (p5 & [] & Hf & Hj). unfold lift in Hf.
  assert (g = sync_credential_ids (mk_group m (pj_signer j) (pj_signing j) (pj_credential_id j) ∅ now None ∅)) as ->.
  { unfold mret, stM_ret in Hj. by injection Hj as _ <-. }
  rewrite Hsig in *. split; [|done]. apply gok_start; [done | by apply N.eqb_eq | |].
  - intros i lf (mb & _ & Hin & _)%tree_lookup. injection Hf as _ Hf. apply (try_fold_unit (fun leaf => check_new_leaf leaf;; Ok tt)) in Hf.
    rewrite Forall_forall in Hf. specialize (Hf lf Hin). by destruct (check_new_leaf lf).
  - intros _. exists own. split; [done|]. split; [|by apply Hown]. destruct (check_new_leaf own) as [k|]; [|done].
    cbn in Hc. by injection Hc as ->.
Qed.
End Start.

(** ** Properties *)

Section Claims.
Context `{CryptoLaws} `{SignalOps} `{MlsLibLaws}.

(** A group as the client gets one: created, or joined with the key package of its
    own pending join. *)
Inductive started (cid : key) : Group -> Prop :=
| Created i seed now p p' g : mls_create_group i cid seed now p = (p', Ok g) -> started cid g
| Joined j l now p p' g :
    pj_join j l now p = (p', Ok g) -> pj_credential_id j = cid -> pj_signer j = signer_of (pj_signing j) ->
    (forall own, mls_own_leaf (mls g) = Some own -> leaf_signature_key own = to_vec (pj_group_signing_public j)) -> started cid g.

Lemma started_gok cid g : started cid g -> gok g /\ g_credential_id g = cid.
Proof. intros [i seed now p p' g' Hc|j l now p p' g' Hj <- Hs Ho]; [by eapply create_group_gok | by eapply join_gok]. Qed.

Lemma moved_cid R g g' : moved R g g' -> g_credential_id g' = g_credential_id g.
Proof. by intros []. Qed.

Lemma group_run_cid ops g p : gok g -> g_credential_id (group_run ops (g, p)).1 = g_credential_id g.
Proof.
  revert g p. induction ops as [|op ops IH]; intros g p Hg; [done|]. cbn. destruct (group_exec_good op g p Hg) as [Hg' Hm].
  destruct (group_exec op (g, p)) as [g1 p1]. cbn in Hg', Hm. etransitivity; [by apply IH|]. by eapply moved_cid.
Qed.

(** C20. A group stays consistent through any sequence of calls, whatever messages
    arrive and whichever calls fail: it has a pending commit exactly if OpenMLS has
    one staged; the credential ids it knows are those of the leaves of the tree,
    each of which is well formed; as long as the client is a member, its own leaf
    carries the credential id it was created or admitted with and the key the
    client signs invites, admissions and bundles with, also across a rotation of
    that key; and an announced key is one its old key has signed. *)
Theorem group_stays_consistent cid g p ops g' p' :
  started cid g -> group_run ops (g, p) = (g', p') ->
  (is_Some (pending g') <-> is_Some (mls_pending_commit (mls g')))
  /\ (forall i, credential_ids g' !! i = tree (mls g') !! i ≫= leaf_cid)
  /\ (forall i l, tree (mls g') !! i = Some l -> is_ok (check_new_leaf l) = true)
  /\ (mls_is_active (mls g') = true -> exists l, mls_own_leaf (mls g') = Some l
        /\ leaf_cid l = Some cid /\ leaf_signature_key l = to_vec (group_signing_public g'))
  /\ announced_ok (announced_keys g').
Proof.
  intros Hs Hr. destruct (started_gok cid g Hs) as [Hg <-]. pose proof (group_run_gok ops g p Hg) as Hg'. pose proof (group_run_cid ops g p Hg) as Hc.
  rewrite Hr in Hg', Hc. cbn in Hg', Hc. destruct Hg' as [G1 G2 G3 G4 G5 G6 G7 G8]. split_and!; try done.
  - destruct (pending g'); [destruct G1 as (c & -> & _); by split; eauto|]. rewrite G1. split; intros [? Hx]; discriminate Hx.
  - intros i. by rewrite G5, cids_lookup.
  - intros Ha. destruct (G6 Ha) as (l & Hl & Hk & Hsg). exists l. split; [done|]. split; [|done]. rewrite <- Hc. by apply check_new_leaf_ok.
Qed.

Lemma removed_by_own g po c i cid :
  own_ok g po c -> pending g = Some po -> credential_ids g !! i = Some cid -> i ∈ staged_removes c -> pending_kind g = Some PkRemove.
Proof.
  intros Ho Hp Hi Hr. unfold pending_kind. rewrite Hp. cbn. f_equal. apply (ow_kind _ _ _ Ho). intros E. rewrite E in Hr. by apply not_elem_of_nil in Hr.
Qed.

(** The leaf of a member that keeps its credential id is the old one or one that the
    commit gives it. *)
Lemma committed_key g s c m i l l' :
  gok g -> committed (mls g) s c m -> commit_ok g s c -> tree (mls g) !! i = Some l -> tree m !! i = Some l' ->
  cids_by_index m !! i = credential_ids g !! i -> l' = l \/ (i = s /\ staged_path c = Some l') \/ (SMember i, l') ∈ staged_updates c.
Proof.
  intros Hg Hc Hck Hl Hl' Hsame. destruct (decide (i ∈ staged_removes c)) as [Hr|Hr].
  - exfalso. destruct (gok_cid g i l Hg Hl) as (cid & _ & Hcid). rewrite Hcid in Hsame.
    apply (committed_fresh g s c m i cid Hg Hc Hck Hsame (or_intror Hr)). apply list_elem_of_fmap. exists (i, cid). split; [done|]. by apply elem_of_map_to_list.
  - destruct (cm_kept _ _ _ _ Hc i l Hl Hr) as (l2 & Hl2 & Hcase). rewrite Hl' in Hl2. by injection Hl2 as <-.
Qed.

(** C21. What any call can do to the members of a group: a member keeps its credential
    id, unless a bundle that names this id, signed for this group by the member
    whose commit it carries, removes it, or the client's own pending removal is
    merged; a member that is new has a credential id that no one in the group
    had; and the signature key of another member only changes to the key its old
    key has announced. *)
Theorem members_change_by_the_rules cid g0 p0 ops g p op :
  started cid g0 -> group_run ops (g0, p0) = (g, p) ->
  let g' := (group_exec op (g, p)).1 in
  (forall i c, credential_ids g !! i = Some c ->
     credential_ids g' !! i = Some c
     \/ (exists hg b now s pk, op = GRemoveBundle hg b now /\ remove_credential_id b = c /\ s <> i
           /\ group_signing_at s g = Some pk /\ verify_sidecar b pk hg = Ok tt)
     \/ pending_kind g = Some PkRemove)
  /\ (forall i c, credential_ids g' !! i = Some c -> credential_ids g !! i = None -> c ∉ (map_to_list (credential_ids g)).*2)
  /\ (forall i l l', tree (mls g) !! i = Some l -> tree (mls g') !! i = Some l' -> i <> mls_own_index (mls g) ->
        credential_ids g' !! i = credential_ids g !! i ->
        leaf_signature_key l' = leaf_signature_key l
        \/ exists new arr pk r, announced_keys g !! leaf_signature_key l = Some new /\ leaf_signature_key l' = to_vec new
             /\ to_vec arr = leaf_signature_key l /\ vk_from_bytes arr = Some pk /\ replace_verify r pk = Ok tt /\ replace_new_public_key r = new).
Proof.
  intros Hs Hr g'. destruct (started_gok cid g0 Hs) as [Hg0 _]. pose proof (group_run_gok ops g0 p0 Hg0) as Hg. rewrite Hr in Hg. cbn in Hg.
  destruct (group_exec_good op g p Hg) as [Hg' Hm]. fold g' in Hg', Hm. clearbody g'. destruct Hm as [g' Ht Hci _ _|po c m t Hp Hpc Ho Hc Hck|s c m Hso Hsm Hsr Hc Hck Hk HR].
  - split_and!.
    + intros i c Hi. left. by rewrite Hci.
    + intros i c Hi Hn. rewrite Hci in Hi. congruence.
    + intros i l l' Hl Hl' _ _. left. rewrite (same_tree_tree _ _ Ht) in Hl'. congruence.
  - split_and!.
    + intros i c' Hi. destruct (decide (i ∈ staged_removes c)) as [Hrm|Hrm]; [right; right; by eapply removed_by_own|].
      left. by eapply (committed_cid g _ c).
    + intros i c' Hi Hn. eapply (committed_fresh g _ c); try done. by left.
    + intros i l l' Hl Hl' Hne Hsame. left. destruct (committed_key g _ c m i l l' Hg Hc Hck Hl Hl' Hsame) as [->|[[-> _]|Hu]]; [done..|].
      rewrite (ow_updates _ _ _ Ho) in Hu. by apply not_elem_of_nil in Hu.
  - split_and!.
    + intros i c' Hi. destruct (decide (i ∈ staged_removes c)) as [Hrm|Hrm]; [|left; by eapply (committed_cid g _ c)].
      right. left. destruct op; cbn [op_rule] in HR; try (by destruct HR); [unfold handshake_rule in HR; rewrite HR in Hrm; by apply not_elem_of_nil in Hrm|].
      destruct HR as (j & pk & Hj & Hcj & Hpk & Hv). rewrite Hj in Hrm, Hsr. apply list_elem_of_singleton in Hrm as ->.
      do 5 eexists. split_and!; try done; [congruence | set_solver].
    + intros i c' Hi Hn. eapply (committed_fresh g _ c); try done. by left.
    + intros i l l' Hl Hl' Hne Hsame. destruct (committed_key g _ c m i l l' Hg Hc Hck Hl Hl' Hsame) as [->|Hcase]; [by left|].
      destruct (Hk i l' Hcase) as (mb & Hmb & Hkey). destruct (member_at_leaf i g l Hl) as (mb' & Hmb' & Hs').
      rewrite Hmb in Hmb'. injection Hmb' as <-. rewrite Hs' in Hkey. destruct Hkey as [Hkey|(new & Hnew & Hann)]; [by left|].
      right. destruct (go_announced g Hg _ _ Hann) as (arr & pk & r & E1 & E2 & E3 & E4). exists new, arr, pk, r. by split_and!.
Qed.

(** ** The sidecar *)

(** The values fit memory. *)
Definition sidecar_fits (g : Group) : Prop := wf_value (Map (sidecar_pairs g)) = true /\ as_millis (last_own_update g) <= U64_MAX.

Definition rounded (g : Group) : Group := g <| last_own_update := from_millis (as_millis (last_own_update g)) |>.

Lemma load_announced_row (m : gmap bytes key) : try_fold load_announced ∅ (map announced_row (sorted_entries bytes_leb m)) = Ok m.
Proof. apply load_sorted. intros acc k v _ _. cbn -[copy_fixed to_vec]. by rewrite copy_fixed_to_vec. Qed.

Lemma sidecar_decode_encode g :
  sidecar_fits g ->
  decode_sidecar (encode_sidecar g) =
  Ok (mk_sidecar (mls_gid (mls g)) (sk_to_bytes (group_signing g)) (g_credential_id g) (as_millis (last_own_update g))
        (pending_kind_code (pending_kind g)) (sk_to_bytes <$> (pending g ≫= new_signer)) (announced_keys g)).
Proof.
  intros [Hwf Ht]. unfold decode_sidecar, vault_map, encode_sidecar. rewrite decode_encode_wf by done.
  assert (trunc_u64 (as_millis (last_own_update g)) = as_millis (last_own_update g)) as Et.
  { apply N.mod_small. unfold U64_MAX in Ht. lia. }
  unfold sidecar_pairs, vault_uint, vault_fixed, vault_bytes. rewrite Et.
  destruct (pending g ≫= new_signer) as [sk|] eqn:Hn; cbn -[copy_fixed to_vec try_fold sorted_entries];
    rewrite !copy_fixed_to_vec; cbn -[copy_fixed to_vec try_fold sorted_entries]; by rewrite load_announced_row.
Qed.

Lemma kind_code_roundtrip k : pending_kind_from_code (pending_kind_code (Some k)) = Some k.
Proof. by destruct k. Qed.

(** The group that loading puts together from the storage's [m]. *)
Definition reloaded (g : Group) (m : MlsGroup) : Group :=
  mk_group m (signer_of (group_signing g)) (group_signing g) (g_credential_id g) ∅ (from_millis (as_millis (last_own_update g)))
    (match pending g, mls_pending_commit m with Some po, Some _ => Some po | _, _ => None end) (announced_keys g).

Lemma load_sidecar_encode g m p :
  sidecar_fits g -> mls_load (mls_gid (mls g)) p = Ok (Some m) -> mls_suite m = CIPHERSUITE ->
  load_sidecar (encode_sidecar g) p = (g' ← drop_lost_commit (reloaded g m); mret (sync_credential_ids g')) p.
Proof.
  intros Hf Hl Hs. unfold load_sidecar. unfold mbind at 1, stM_bind at 1, lift. rewrite sidecar_decode_encode by done.
  cbn [sc_seed sc_gid sc_pending sc_new_signer sc_cid sc_updated sc_announced]. unfold mbind at 1, stM_bind at 1, get.
  unfold mbind at 1, stM_bind at 1. rewrite Hl. cbn [map_err]. unfold mbind at 1, stM_bind at 1. cbn [ok_or]. rewrite Hs, N.eqb_refl. cbn [negb].
  rewrite sk_bytes_roundtrip. unfold reloaded. do 3 f_equal. unfold pending_kind. destruct (pending g) as [[k sk]|];
    cbn [pending_kind_of new_signer fmap option_fmap option_map mbind option_bind]; [rewrite kind_code_roundtrip | done].
  destruct (mls_pending_commit m); [|done]. do 2 f_equal. destruct sk; cbn; [|done]. by rewrite sk_bytes_roundtrip.
Qed.

Lemma filter_all_live (ks : gmap bytes key) (live : list bytes) :
  (forall old, is_Some (ks !! old) -> old ∈ live) -> filter (fun e => e.1 ∈ live) ks = ks.
Proof. intros Hl. apply map_filter_id. intros k v Hk. cbn. apply Hl. by rewrite Hk. Qed.

Lemma load_sidecar_same g p :
  gok g -> sidecar_fits g -> mls_load (mls_gid (mls g)) p = Ok (Some (mls g)) -> load_sidecar (encode_sidecar g) p = (p, Ok (rounded g)).
Proof.
  intros Hg Hf Hl. rewrite (load_sidecar_encode g (mls g)) by (done || apply Hg). destruct Hg as [G1 G2 G3 G4 G5 G6 G7 G8].
  assert (drop_lost_commit (reloaded g (mls g)) = mret (reloaded g (mls g))) as ->.
  { unfold drop_lost_commit, has_pending_commit, reloaded. cbn. destruct (pending g) as [po|]; [destruct G1 as (c & -> & _) | rewrite G1]; done. }
  unfold mbind, stM_bind, mret, stM_ret. do 2 f_equal. unfold sync_credential_ids, reloaded, rounded, upd, credential_ids_field, announced_keys_field, last_own_update_field. cbn.
  rewrite (filter_all_live (announced_keys g)) by done. destruct g as [m sg gs cid cids lu pd ann]. cbn in *. subst. f_equal.
  destruct pd as [po|]; [destruct G1 as (c & -> & _)|]; done.
Qed.

Lemma try_mapM_map {S E A B C} (f : A -> stM S E B) (row : C -> A) (h : C -> B) l s :
  Forall (fun x => f (row x) s = (s, Ok (h x))) l -> try_mapM f (map row l) s = (s, Ok (map h l)).
Proof.
  induction 1 as [|x l Hx Hl IH]; [done|]. cbn. unfold mbind, stM_bind. rewrite Hx. by rewrite IH.
Qed.

Lemma set_provider_self (i : Installation) : i <| mls_provider := mls_provider i |> = i.
Proof. by destruct i. Qed.


(** ** What a save that stops early loses *)

(** When the own rotation has been merged and the MLS storage saved, but not yet the
    sidecar, the group is loaded with its old key, while its leaf carries the new
    one; the new key is gone, because the pending commit it was kept with is. *)
Theorem torn_save_loses_new_signer g po sk c m p :
  gok g -> sidecar_fits g -> pending g = Some po -> new_signer po = Some sk -> mls_pending_commit (mls g) = Some c ->
  committed (mls g) (mls_own_index (mls g)) c m -> mls_load (mls_gid (mls g)) p = Ok (Some m) ->
  exists g' l, load_sidecar (encode_sidecar g) p = (p, Ok g') /\ pending g' = None /\ group_signing g' = group_signing g
    /\ mls_own_leaf (mls g') = Some l /\ leaf_signature_key l = to_vec (vk_to_bytes (verifying_key sk)).
Proof.
  intros Hg Hf Hp Hn Hc Hm Hl. rewrite (load_sidecar_encode g m); [|done..|rewrite (cm_suite _ _ _ _ Hm); apply (go_suite g Hg)].
  assert (drop_lost_commit (reloaded g m) = mret (reloaded g m)) as ->.
  { unfold drop_lost_commit, reloaded. cbn. by rewrite (cm_pending _ _ _ _ Hm), andb_false_r. }
  pose proof (go_pending g Hg) as Hgp. rewrite Hp in Hgp. destruct Hgp as (c' & Hc' & Ho). rewrite Hc in Hc'. injection Hc' as <-.
  destruct (gok_own_merged g po c m 0 Hg Ho Hm) as [Hgm _]. rewrite Hn in Hgm. cbn [default] in Hgm.
  destruct (go_own _ Hgm) as (l & Hol & _ & Hk).
  { cbn. rewrite (cm_active _ _ _ _ Hm), (ow_active _ _ _ Ho). cbn. rewrite bool_decide_eq_false_2; [done | apply (ow_removes _ _ _ Ho)]. }
  exists (sync_credential_ids (reloaded g m)), l. split; [done|]. split_and!; try done. cbn. by rewrite (cm_pending _ _ _ _ Hm), Hp.
Qed.

(** The ids of the members added by one commit are compared with those in the
    group, not with each other: a commit that adds two members under one new
    credential id passes, and both are then members under this id. *)
Theorem one_commit_adds_two_under_one_id g s c m k1 k2 cid :
  staged_updates c = [] -> staged_path c = None -> staged_adds c = [k1; k2] ->
  check_new_leaf (kp_leaf_node k1) = Ok cid -> check_new_leaf (kp_leaf_node k2) = Ok cid -> kp_leaf_node k1 <> kp_leaf_node k2 ->
  cid ∉ (map_to_list (credential_ids g)).*2 -> committed (mls g) s c m ->
  validate_commit c (SMember s) g = Ok tt
  /\ exists i j, i <> j /\ cids_by_index m !! i = Some cid /\ cids_by_index m !! j = Some cid.
Proof.
  intros Hu Hp Ha H1' H2' Hne Hf Hm. split.
  - unfold validate_commit. rewrite Hu, Hp, Ha. cbn [try_fold mbind result_bind]. unfold check_add. rewrite H1', H2'. cbn [mbind result_bind].
    by rewrite bool_decide_eq_false_2.
  - destruct (cm_added _ _ _ _ Hm k1) as [i Hi]; [rewrite Ha; by left|]. destruct (cm_added _ _ _ _ Hm k2) as [j Hj]; [rewrite Ha; right; by left|].
    exists i, j. rewrite !cids_lookup, Hi, Hj. cbn. split_and!; [congruence | by apply check_new_leaf_ok..].
Qed.
End Claims.

Section GroupWitnesses.
#[local] Existing Instances Toy.toy Toy.toy_laws ToySignal.types ToySignal.types_laws ToySignal.ops ToySignal.ops_laws
  ToySignal.mls ToySignal.mls_laws ToyMls.lib ToyMls.laws plain_argon.

Definition toy_cid : key := arr_repeat 32 xc1.
Definition toy_member : key := arr_repeat 32 xc2.

Definition toy_start : MlsProvider * cresult Group :=
  mls_create_group sample_sender toy_cid (arr_repeat 32 x41) 1700000000000000000 mls_default.

(** Admits a member, rotates the own key, and sees the member try to change its key
    without an announcement. *)
Definition toy_ops : list group_op :=
  [GAdmit (replicate 32 xc2 ++ replicate 32 x51 ++ replicate 32 x52 ++ replicate 32 x51) toy_member; GHandshake [x01] 1700000001000000000;
   GRotate (arr_repeat 32 x42); GHandshake [x01] 1700000002000000000; GHandshake [x03; x01; x61] 1700000003000000000].

Lemma toy_created : exists p g, toy_start = (p, Ok g).
Proof.
  assert (is_ok toy_start.2 = true) as Hok by (vm_compute; reflexivity). destruct toy_start as [p [g|]]; [eauto | discriminate Hok].
Qed.

Definition toy_group : Group * MlsProvider :=
  match toy_start with
  | (p, Ok g) => (g, p)
  | _ => (mk_group (ToyMls.empty : MlsGroup) (([], []) : SignatureKeyPair) (arr_repeat 32 x00) toy_cid ∅ 0 None ∅, mls_default)
  end.

Lemma toy_group_started : started toy_cid toy_group.1.
Proof.
  unfold toy_group. destruct toy_created as (p & g & E). rewrite E. unfold toy_start in E. exact (Created toy_cid _ _ _ _ _ _ E).
Qed.

Example group_stays_consistent_witness :
  let g := (group_run toy_ops toy_group).1 in
  (is_Some (pending g) <-> is_Some (mls_pending_commit (mls g)))
  /\ credential_ids g !! 1 = Some toy_member /\ group_signing g = arr_repeat 32 x42
  /\ (mls_is_active (mls g) = true -> exists l, mls_own_leaf (mls g) = Some l
       /\ leaf_cid l = Some toy_cid /\ leaf_signature_key l = to_vec (group_signing_public g)).
Proof.
  pose proof (group_stays_consistent toy_cid toy_group.1 toy_group.2 toy_ops (group_run toy_ops toy_group).1 (group_run toy_ops toy_group).2
    toy_group_started) as Hw.
  assert (group_run toy_ops (toy_group.1, toy_group.2) = ((group_run toy_ops toy_group).1, (group_run toy_ops toy_group).2)) as Hr.
  { rewrite <- surjective_pairing, <- surjective_pairing. reflexivity. }
  destruct (Hw Hr) as (Hpend & _ & _ & Hown & _). refine (conj Hpend (conj _ (conj _ Hown))); vm_compute; reflexivity.
Defined.

(** The bundle with which the other member removes the client. *)
Definition toy_bundle : RemoveBundle :=
  match remove_sign (arr_repeat 32 x51) (arr_repeat 32 x70) toy_cid [x02; x01; x00] with
  | Ok b => b
  | Err _ => mk_remove toy_cid (arr_repeat 64 x00) []
  end.

Definition toy_removal : group_op := GRemoveBundle (arr_repeat 32 x70) toy_bundle 1700000004000000000.

Example members_change_by_the_rules_witness :
  let g := (group_run toy_ops toy_group).1 in
  let g' := (group_exec toy_removal (group_run toy_ops toy_group)).1 in
  credential_ids g' !! 0 = None /\ credential_ids g' !! 1 = Some toy_member
  /\ (credential_ids g' !! 0 = Some toy_cid
      \/ (exists hg b now s pk, toy_removal = GRemoveBundle hg b now /\ remove_credential_id b = toy_cid /\ s <> 0
            /\ group_signing_at s g = Some pk /\ verify_sidecar b pk hg = Ok tt)
      \/ pending_kind g = Some PkRemove).
Proof.
  assert (group_run toy_ops (toy_group.1, toy_group.2) = ((group_run toy_ops toy_group).1, (group_run toy_ops toy_group).2)) as Hr.
  { rewrite <- surjective_pairing, <- surjective_pairing. reflexivity. }
  destruct (members_change_by_the_rules toy_cid toy_group.1 toy_group.2 toy_ops (group_run toy_ops toy_group).1 (group_run toy_ops toy_group).2
    toy_removal toy_group_started Hr) as (Hids & _ & _).
  rewrite <- surjective_pairing in Hids. refine (conj _ (conj _ (Hids 0 toy_cid _))); vm_compute; reflexivity.
Defined.

Definition toy_install : Installation := sample_sender <| mls_provider := toy_group.2 |>.


(** The group with its own rotation pending, and the MLS group after the echo. *)
Definition toy_rotating : Group * MlsProvider := group_run [GRotate (arr_repeat 32 x42)] toy_group.
Definition toy_merged : (MlsGroup * MlsProvider) * result message_text unit := mls_merge_pending_commit (mls toy_rotating.1, toy_rotating.2).

Example torn_save_loses_new_signer_witness :
  exists g' l, load_sidecar (encode_sidecar toy_rotating.1) toy_merged.1.2 = (toy_merged.1.2, Ok g') /\ pending g' = None
    /\ group_signing g' = arr_repeat 32 x41 /\ mls_own_leaf (mls g') = Some l /\ leaf_signature_key l = replicate 32 x42.
Proof.
  assert (gok toy_rotating.1) as Hg.
  { pose proof (group_run_gok [GRotate (arr_repeat 32 x42)] toy_group.1 toy_group.2 (proj1 (started_gok _ _ toy_group_started))) as Hg.
    rewrite <- surjective_pairing in Hg. exact Hg. }
  assert (is_ok toy_merged.2 = true) as Hok by (vm_compute; reflexivity).
  assert (new_signer <$> pending toy_rotating.1 = Some (Some (sk_from_bytes (arr_repeat 32 x42)))) as Hns by (vm_compute; reflexivity).
  assert (sidecar_fits toy_rotating.1) as Hf by (refine (conj _ _); vm_compute; [reflexivity | discriminate]).
  assert (mls_load (mls_gid (mls toy_rotating.1)) toy_merged.1.2 = Ok (Some toy_merged.1.1)) as Hl by (vm_compute; reflexivity).
  assert (group_signing toy_rotating.1 = sk_from_bytes (arr_repeat 32 x41)) as Hold by (vm_compute; reflexivity).
  destruct toy_merged as [[m p] [[]|]] eqn:Hm; [|discriminate Hok]. cbn [fst snd] in *.
  pose proof (merge_pending_commits _ _ _ _ _ Hm) as Hc. cbv beta iota in Hc.
  destruct (mls_pending_commit (mls toy_rotating.1)) as [c|] eqn:Hp; [|exfalso; revert Hp; vm_compute; discriminate].
  destruct (pending toy_rotating.1) as [po|] eqn:Hpo; [|discriminate Hns]. injection Hns as Hns.
  destruct (torn_save_loses_new_signer _ _ _ c m p Hg Hf Hpo Hns Hp Hc Hl) as (g' & l & H1 & H2 & H3 & H4 & H5).
  exists g', l. exact (conj H1 (conj H2 (conj (eq_trans H3 Hold) (conj H4 H5)))).
Defined.
End GroupWitnesses.
