(* ===== verification/Audio.v ===== *)
(** * Audio of a call

    [nemo-core/src/audio.rs]: the capture and playback queues of a call, the
    conversions between mono and stereo and between sample rates, and the frames
    that go to and come from the Opus codec. Samples are [i16] as integers; the
    [f64] of the resampler and the [f32] of the audio-processing module are the
    IEEE formats of [SpecFloat] with their rounding. The codec
    ([libopus_sys]) and the processing module ([webrtc_audio_processing]) are
    parameters. A lock is only poisoned by a panic of its holder, and the code
    does not panic while it holds one, so taking a lock always succeeds. *)

From Stdlib Require Import ZArith.
From Stdlib Require Import Floats.SpecFloat.
From S2P Require Import CoreErr.

Definition SAMPLE_RATE : N := 48000.
Definition CHANNELS : N := 2.
Definition FRAME_MONO : N := 960.
Definition APM_CHUNK : N := 480.
Definition CAPTURE_CAP : N := SAMPLE_RATE.

(** ** Numbers *)

Definition I16_MIN : Z := -32768.
Definition I16_MAX : Z := 32767.

Definition is_i16 (z : Z) : bool := (I16_MIN <=? z)%Z && (z <=? I16_MAX)%Z.

(** [as i16] and the wrapping [i32] addition of the release build. *)
Definition wrap_i16 (z : Z) : Z := ((z + 32768) mod 65536 - 32768)%Z.
Definition wrap_i32 (z : Z) : Z := ((z + 2 ^ 31) mod 2 ^ 32 - 2 ^ 31)%Z.

(** Saturation of a number to [i16]: [clamp] followed by [as i16] on floats. *)
Definition sat_i16 (z : Z) : Z := Z.max I16_MIN (Z.min z I16_MAX).

(** A floating-point format: [f64] and [f32]. *)
Record float_format : Type := mk_fmt { fmt_prec : Z; fmt_emax : Z }.
Definition F64 : float_format := mk_fmt 53 1024.
Definition F32 : float_format := mk_fmt 24 128.

Section Floats.
Context (fmt : float_format).
Definition f_of_Z (z : Z) : spec_float := binary_normalize (fmt_prec fmt) (fmt_emax fmt) z 0 false.
Definition f_add : spec_float -> spec_float -> spec_float := SFadd (fmt_prec fmt) (fmt_emax fmt).
Definition f_sub : spec_float -> spec_float -> spec_float := SFsub (fmt_prec fmt) (fmt_emax fmt).
Definition f_mul : spec_float -> spec_float -> spec_float := SFmul (fmt_prec fmt) (fmt_emax fmt).
Definition f_div : spec_float -> spec_float -> spec_float := SFdiv (fmt_prec fmt) (fmt_emax fmt).
End Floats.

(** The magnitude of [m * 2 ^ e] rounded down, and to the nearest integer with
    ties away from zero. *)
Definition magnitude_floor (m : positive) (e : Z) : Z := Z.shiftl (Zpos m) e.
Definition magnitude_round (m : positive) (e : Z) : Z :=
  if (0 <=? e)%Z then Z.shiftl (Zpos m) e else Z.shiftr (Zpos m + Z.shiftl 1 (- e - 1)) (- e).

(** [x.floor() as usize]: negative numbers and NaN become 0. *)
Definition floor_usize (x : spec_float) : N :=
  match x with
  | S754_finite false m e => N.min (Z.to_N (magnitude_floor m e)) U64_MAX
  | S754_infinity false => U64_MAX
  | _ => 0
  end.

Definition signed (s : bool) (z : Z) : Z := if s then (- z)%Z else z.

(** [x.round().clamp(i16::MIN, i16::MAX) as i16]. *)
Definition round_i16 (x : spec_float) : Z :=
  match x with
  | S754_finite s m e => sat_i16 (signed s (magnitude_round m e))
  | S754_infinity s => if s then I16_MIN else I16_MAX
  | S754_zero _ | S754_nan => 0%Z
  end.

(** [x as i16]: towards zero, saturating, NaN to 0. *)
Definition trunc_i16 (x : spec_float) : Z :=
  match x with
  | S754_finite s m e => sat_i16 (signed s (magnitude_floor m e))
  | S754_infinity s => if s then I16_MIN else I16_MAX
  | S754_zero _ | S754_nan => 0%Z
  end.

(** [x.clamp(-1.0, 1.0)], which keeps NaN. *)
Definition clamp_unit (x : spec_float) : spec_float :=
  if SFltb x (f_of_Z F32 (-1)) then f_of_Z F32 (-1)
  else if SFltb (f_of_Z F32 1) x then f_of_Z F32 1 else x.

(** ** Conversions *)

(** [slice::chunks(n)] for a positive [n]. *)
Fixpoint chunks_from {A} (fuel : nat) (n : N) (l : list A) : list (list A) :=
  match fuel, l with
  | S fuel, _ :: _ => takeN n l :: chunks_from fuel n (dropN n l)
  | _, _ => []
  end.

Definition chunks {A} (n : N) (l : list A) : list (list A) := chunks_from (length l) n l.

(** [iter().sum::<i32>()]. *)
Definition sum_i32 (l : list Z) : Z := fold_left (fun a s => wrap_i32 (a + s)) l 0%Z.

Definition to_mono (samples : list Z) (channels : N) : list Z :=
  if channels <=? 1 then samples
  else map (fun frame => wrap_i16 (Z.quot (sum_i32 frame) (wrap_i32 (Z.of_N channels)))) (chunks channels samples).

Fixpoint upmix_stereo (mono : list Z) : list Z :=
  match mono with [] => [] | s :: mono => s :: s :: upmix_stereo mono end.

Definition downmix_pair (c : list Z) : Z :=
  match c with
  | [a; b] => wrap_i16 (Z.quot (a + b) 2)
  | a :: _ => a
  | [] => 0%Z
  end.

Definition downmix_stereo (interleaved : list Z) : list Z := map downmix_pair (chunks 2 interleaved).

(** One output sample of [resample]. *)
Definition resample_at (input : list Z) (from to i : N) : Z :=
  let src := f_div F64 (f_mul F64 (f_of_Z F64 (Z.of_N i)) (f_of_Z F64 (Z.of_N from))) (f_of_Z F64 (Z.of_N to)) in
  let i0 := N.min (floor_usize src) (lenN input - 1) in
  let i1 := N.min (i0 + 1) (lenN input - 1) in
  let frac := f_sub F64 src (f_of_Z F64 (Z.of_N i0)) in
  let at_ j := f_of_Z F64 (nth (N.to_nat j) input 0%Z) in
  round_i16 (f_add F64 (f_mul F64 (at_ i0) (f_sub F64 (f_of_Z F64 1) frac)) (f_mul F64 (at_ i1) frac)).

Definition resample (input : list Z) (from to : N) : list Z :=
  if (from =? 0) || (to =? 0) || (lenN input =? 0) then []
  else if from =? to then input
  else
    let out_len := N.max ((lenN input * to) mod 2 ^ 64 / from) 1 in
    map (resample_at input from to) (map N.of_nat (seq 0 (N.to_nat out_len))).

(** ** The codec and the processing module *)

Inductive opus_ctl : Type := SetBitrate (bps : N) | SetInbandFec (on : N) | SetVbr (on : N) | SetDtx (on : N).

(** [libopus_sys] with encoders [Enc] and decoders [Dec]. The create functions
    return the pointer and the error code; [opus_encode] gets the size of the
    output buffer and returns the code and the buffer, [opus_decode] the code
    and the interleaved samples it wrote. *)
Class Opus (Enc Dec : Type) := {
  opus_encoder_create : N -> N -> option Enc * Z;
  opus_decoder_create : N -> N -> option Dec * Z;
  opus_encoder_ctl : Enc -> opus_ctl -> Enc;
  opus_encode : Enc -> list Z -> N -> N -> Enc * (Z * bytes);
  opus_decode : Dec -> bytes -> N -> Dec * (Z * list Z)
}.

(** What libopus documents of its results: a decoder writes at most
    [frame_size] samples per channel, an encoder at most the buffer. *)
Class OpusLaws (Enc Dec : Type) `{Opus Enc Dec} := {
  opus_decode_fits d p n : let out := (opus_decode d p n).2 in
    (out.1 <= Z.of_N n)%Z /\ lenN out.2 = n * CHANNELS /\ Forall (fun z => is_i16 z = true) out.2;
  opus_encode_fits e pcm n cap : let out := (opus_encode e pcm n cap).2 in
    (out.1 <= Z.of_N cap)%Z /\ lenN out.2 = cap
}.

(** [webrtc_audio_processing::Processor]: the frame is changed in place, also
    when the call fails. *)
Class AudioProcessor (Apm : Type) := {
  apm_new : N -> option Apm;
  apm_set_config : Apm -> Apm;
  process_capture_frame : Apm -> list spec_float -> Apm * (bool * list spec_float);
  process_render_frame : Apm -> list spec_float -> Apm * (bool * list spec_float)
}.

Section Engine.
Context {Enc Dec Apm : Type} `{Opus Enc Dec} `{AudioProcessor Apm}.

Record OpusPair : Type := mk_opus { enc : Enc; dec : Dec }.

Definition opus_ok : Z := 0.

(** [OpusPair::new]. *)
Definition opus_pair_new (cbr : bool) : cresult OpusPair :=
  match opus_encoder_create SAMPLE_RATE CHANNELS with
  | (Some e, 0%Z) =>
      match opus_decoder_create SAMPLE_RATE CHANNELS with
      | (Some d, 0%Z) =>
          let e := opus_encoder_ctl (opus_encoder_ctl e (SetBitrate 32000)) (SetInbandFec 1) in
          let e := if cbr then opus_encoder_ctl (opus_encoder_ctl e (SetVbr 0)) (SetDtx 0) else e in
          Ok (mk_opus e d)
      | _ => Err (CallError "opus decoder")
      end
  | _ => Err (CallError "opus encoder")
  end.

(** [OpusPair::encode_stereo] into a buffer of [cap] bytes. *)
Definition encode_stereo (interleaved : list Z) (cap : N) (o : OpusPair) : OpusPair * cresult (N * bytes) :=
  if negb (lenN interleaved =? FRAME_MONO * CHANNELS) then (o, Err (CallError "opus frame size"))
  else
    let '(e, (n, buf)) := opus_encode (enc o) interleaved FRAME_MONO cap in
    (mk_opus e (dec o), if (n <? 0)%Z then Err (CallError "opus encode") else Ok (Z.to_N n, buf)).

(** [OpusPair::decode_stereo]. *)
Definition decode_stereo (packet : bytes) (o : OpusPair) : OpusPair * cresult (N * list Z) :=
  let '(d, (n, pcm)) := opus_decode (dec o) packet FRAME_MONO in
  (mk_opus (enc o) d, if (n <? 0)%Z then Err (CallError "opus decode") else Ok (Z.to_N n, pcm)).

(** On Android there is no processing module: [apm] is [None]. *)
Record AudioEngine : Type := mk_audio {
  capture : list Z;
  playback : list Z;
  opus : OpusPair;
  apm : option Apm
}.

(** [make_apm]. *)
Definition make_apm : option Apm := apm_set_config <$> apm_new SAMPLE_RATE.

(** [AudioEngine::new]. *)
Definition audio_new (cbr : bool) : cresult AudioEngine :=
  o ← opus_pair_new cbr; Ok (mk_audio [] [] o make_apm).

(** [AudioEngine::stop]. *)
Definition audio_stop (a : AudioEngine) : AudioEngine := mk_audio [] [] (opus a) (apm a).

Definition start_local_io (a : AudioEngine) : bool := false.

(** [while q.len() > CAPTURE_CAP { q.pop_front(); }]. *)
Fixpoint pop_excess (q : list Z) : list Z :=
  match q with
  | [] => []
  | _ :: r => if CAPTURE_CAP <? lenN q then pop_excess r else q
  end.

Definition push_capture (samples : list Z) (sample_rate channels : N) (a : AudioEngine) : AudioEngine :=
  let mono := to_mono samples (N.max channels 1) in
  let pcm := resample mono (N.max sample_rate 1) SAMPLE_RATE in
  mk_audio (pop_excess (capture a ++ pcm)) (playback a) (opus a) (apm a).

(** [for _ in 0..n] over [pop_front], stopping at the end of the queue. *)
Fixpoint pop_n (n : nat) (q : list Z) : list Z * list Z :=
  match n, q with
  | S n, s :: q => let '(out, q) := pop_n n q in (s :: out, q)
  | _, _ => ([], q)
  end.

Definition pull_playback (max_samples : N) (a : AudioEngine) : AudioEngine * list Z :=
  let '(out, q) := pop_n (N.to_nat max_samples) (playback a) in
  (mk_audio (capture a) q (opus a) (apm a), out).

(** [for slot in frame { *slot = q.pop_front().unwrap_or(0) }]. *)
Fixpoint fill_frame (n : nat) (q : list Z) : list Z * list Z :=
  match n with
  | O => ([], q)
  | S n =>
      match q with
      | s :: q => let '(out, q) := fill_frame n q in (s :: out, q)
      | [] => let '(out, q) := fill_frame n [] in (0%Z :: out, q)
      end
  end.

Definition to_unit (s : Z) : spec_float := f_div F32 (f_of_Z F32 s) (f_of_Z F32 32768).
Definition from_unit (x : spec_float) : Z := trunc_i16 (f_mul F32 (clamp_unit x) (f_of_Z F32 32767)).

(** [for (dst, src) in chunk.zip(frame) { *dst = ... }]. *)
Fixpoint write_back (chunk : list Z) (frame : list spec_float) : list Z :=
  match chunk, frame with
  | _ :: chunk, x :: frame => from_unit x :: write_back chunk frame
  | _, _ => chunk
  end.

(** The loop over the chunks; [always] is set in [process_render], which writes
    the frame back also when the module reported an error. *)
Fixpoint process_chunks (always : bool) (run : Apm -> list spec_float -> Apm * (bool * list spec_float))
    (p : Apm) (cs : list (list Z)) : Apm * list Z :=
  match cs with
  | [] => (p, [])
  | chunk :: cs =>
      if negb (lenN chunk =? APM_CHUNK) then (p, chunk ++ concat cs)
      else
        let '(p, (good, frame)) := run p (map to_unit chunk) in
        let chunk := if always || good then write_back chunk frame else chunk in
        let '(p, rest) := process_chunks always run p cs in
        (p, chunk ++ rest)
  end.

Definition process_capture (mono : list Z) (a : AudioEngine) : AudioEngine * list Z :=
  match apm a with
  | Some p =>
      let '(p, out) := process_chunks false process_capture_frame p (chunks APM_CHUNK mono) in
      (mk_audio (capture a) (playback a) (opus a) (Some p), out)
  | None => (a, mono)
  end.

Definition process_render (mono : list Z) (a : AudioEngine) : AudioEngine * list Z :=
  match apm a with
  | Some p =>
      let '(p, out) := process_chunks true process_render_frame p (chunks APM_CHUNK mono) in
      (mk_audio (capture a) (playback a) (opus a) (Some p), out)
  | None => (a, mono)
  end.

Definition take_capture_frame (a : AudioEngine) : AudioEngine * list Z :=
  let '(frame, q) := fill_frame (N.to_nat FRAME_MONO) (capture a) in
  process_capture frame (mk_audio q (playback a) (opus a) (apm a)).

Definition encode_frame (mono : list Z) (a : AudioEngine) : AudioEngine * cresult bytes :=
  let '(o, r) := encode_stereo (upmix_stereo mono) 4000 (opus a) in
  (mk_audio (capture a) (playback a) o (apm a), '(n, buf) ← r; Ok (takeN n buf)).

(** [decode_rtp]; [None] is the panic of a slice past the buffer. *)
Definition decode_rtp (payload : bytes) (a : AudioEngine) : option AudioEngine :=
  if lenN payload =? 0 then Some a
  else
    let '(o, r) := decode_stereo payload (opus a) in
    let a := mk_audio (capture a) (playback a) o (apm a) in
    match r with
    | Err _ => Some a
    | Ok (n, stereo) =>
        if lenN stereo <? n * CHANNELS then None
        else
          let mono := downmix_stereo (takeN (n * CHANNELS) stereo) in
          let mono := resize FRAME_MONO 0%Z mono in
          let '(a, mono) := process_render mono a in
          Some (mk_audio (capture a) (pop_excess (playback a ++ mono)) (opus a) (apm a))
    end.
End Engine.

Arguments OpusPair : clear implicits.
Arguments AudioEngine : clear implicits.

(** ** Numbers stay in their range *)

Notation i16s := (Forall (fun z => is_i16 z = true)).

Lemma is_i16_spec z : is_i16 z = true <-> (I16_MIN <= z <= I16_MAX)%Z.
Proof. unfold is_i16. lia. Qed.

Lemma sat_i16_range z : is_i16 (sat_i16 z) = true.
Proof. apply is_i16_spec. unfold sat_i16, I16_MIN, I16_MAX. lia. Qed.

Lemma wrap_i16_range z : is_i16 (wrap_i16 z) = true.
Proof.
  apply is_i16_spec. unfold wrap_i16, I16_MIN, I16_MAX.
  pose proof (Z.mod_pos_bound (z + 32768) 65536). lia.
Qed.

Lemma wrap_i16_id z : is_i16 z = true -> wrap_i16 z = z.
Proof.
  rewrite is_i16_spec. unfold wrap_i16, I16_MIN, I16_MAX. intros. rewrite Z.mod_small; lia.
Qed.

Lemma round_i16_range x : is_i16 (round_i16 x) = true.
Proof. destruct x as [|[]| |]; try done. apply sat_i16_range. Qed.

Lemma trunc_i16_range x : is_i16 (trunc_i16 x) = true.
Proof. destruct x as [|[]| |]; try done. apply sat_i16_range. Qed.

#[export] Hint Resolve sat_i16_range wrap_i16_range round_i16_range trunc_i16_range : i16.

Lemma i16s_map {A} (f : A -> Z) l : (forall x, is_i16 (f x) = true) -> i16s (map f l).
Proof. intros Hf. apply Forall_fmap, Forall_true. intros x. apply Hf. Qed.

Lemma i16s_zeros n : i16s (replicate n 0%Z).
Proof. by apply Forall_replicate. Qed.

(** ** Chunks *)

Lemma chunks_from_app {A} fuel n (l k : list A) :
  0 < n -> lenN l = n -> chunks_from (S fuel) n (l ++ k) = l :: chunks_from fuel n k.
Proof.
  intros Hn Hl. destruct l as [|x l]; [unfold lenN in Hl; cbn in Hl; lia|].
  cbn [app chunks_from]. rewrite app_comm_cons. by rewrite takeN_app_exact, dropN_app_exact.
Qed.

Lemma concat_chunks_from {A} fuel n (l : list A) :
  0 < n -> (length l <= fuel)%nat -> concat (chunks_from fuel n l) = l.
Proof.
  intros Hn. revert l. induction fuel as [|fuel IH]; intros [|x l] Hl; cbn [chunks_from concat length] in *; try done; [lia|].
  rewrite IH; [apply takeN_dropN|].
  assert (lenN (dropN n (x :: l)) < lenN (x :: l)) as Hd by len_lia.
  unfold lenN in Hd. cbn [length] in Hd. lia.
Qed.

Lemma audio_chunks_concat {A} n (l : list A) : 0 < n -> concat (chunks n l) = l.
Proof. intros. by apply concat_chunks_from. Qed.

Lemma chunks_from_lens {A} fuel n (l : list A) :
  0 < n -> Forall (fun c => 1 <= lenN c <= n) (chunks_from fuel n l).
Proof.
  intros Hn. revert l. induction fuel as [|fuel IH]; intros [|x l]; cbn [chunks_from]; try constructor; auto.
  len_lia.
Qed.

(** ** Conversions *)

Lemma chunks_upmix mono fuel :
  (length (upmix_stereo mono) <= fuel)%nat -> chunks_from fuel 2 (upmix_stereo mono) = map (fun s => [s; s]) mono.
Proof.
  revert fuel. induction mono as [|s mono IH]; intros fuel Hf; cbn [upmix_stereo length] in *; [by destruct fuel|].
  destruct fuel as [|fuel]; [lia|].
  change (s :: s :: upmix_stereo mono) with ([s; s] ++ upmix_stereo mono).
  rewrite chunks_from_app by done. cbn [map]. rewrite IH by lia. done.
Qed.

Lemma upmix_len mono : lenN (upmix_stereo mono) = lenN mono * CHANNELS.
Proof. unfold CHANNELS. induction mono; cbn [upmix_stereo]; len_lia. Qed.

(** A mono signal survives the stereo the codec carries. *)
Theorem downmix_upmix mono : i16s mono -> downmix_stereo (upmix_stereo mono) = mono.
Proof.
  intros Hm. unfold downmix_stereo, chunks. rewrite chunks_upmix, map_map by done.
  induction Hm as [|s mono Hs _ IH]; cbn [map]; [done|]. f_equal; [|exact IH].
  unfold downmix_pair. replace (Z.quot (s + s) 2) with s; [by apply wrap_i16_id|].
  replace (s + s)%Z with (s * 2)%Z by lia. by rewrite Z.quot_mul.
Qed.

Lemma downmix_i16 l : i16s l -> i16s (downmix_stereo l).
Proof.
  intros Hl. unfold downmix_stereo. apply Forall_fmap.
  assert (Forall (Forall (fun z => is_i16 z = true)) (chunks 2 l)) as Hc.
  { apply Forall_concat. by rewrite audio_chunks_concat. }
  eapply Forall_impl; [exact Hc|]. intros c Hi. unfold compose, downmix_pair.
  destruct Hi as [|a ? Ha [|b ? Hb [|]]]; auto with i16.
Qed.

Lemma to_mono_i16 l n : i16s l -> i16s (to_mono l n).
Proof. intros Hl. unfold to_mono. case_match; [done|]. apply i16s_map. auto with i16. Qed.

Lemma resample_i16 l from to : i16s l -> i16s (resample l from to).
Proof.
  intros Hl. unfold resample. repeat case_match; auto. apply i16s_map. intros i. unfold resample_at. auto with i16.
Qed.

(** [resample] keeps the signal at equal rates, and otherwise scales its length
    by the ratio of the rates, with at least one sample. *)
Lemma resample_len l from to :
  0 < from -> 0 < to -> l <> [] -> lenN l * to < 2 ^ 64 ->
  lenN (resample l from to) = N.max (lenN l * to / from) 1.
Proof.
  intros Hf Ht Hl Hw. unfold resample.
  assert (lenN l =? 0 = false) as -> by (destruct l; [done|]; len_lia).
  replace (from =? 0) with false by lia. replace (to =? 0) with false by lia. cbn [orb].
  destruct (from =? to) eqn:E.
  - apply N.eqb_eq in E as ->. rewrite N.div_mul by lia. destruct l; [done|]. len_lia.
  - rewrite N.mod_small by done. unfold lenN. rewrite !length_map, length_seq. lia.
Qed.

(** ** Queues *)

Lemma pop_excess_drop q : pop_excess q = dropN (lenN q - CAPTURE_CAP) q.
Proof.
  induction q as [|x q IH]; [done|]. cbn [pop_excess]. case_match eqn:G.
  - rewrite IH, lenN_cons.
    replace (1 + lenN q - CAPTURE_CAP) with (1 + (lenN q - CAPTURE_CAP)) by len_lia. by rewrite dropN_cons.
  - by replace (lenN (x :: q) - CAPTURE_CAP) with 0 by lia.
Qed.

Lemma pop_excess_bound q : lenN (pop_excess q) <= CAPTURE_CAP.
Proof. rewrite pop_excess_drop, lenN_dropN. lia. Qed.

Lemma pop_n_spec n q : pop_n n q = (take n q, drop n q).
Proof. revert q. induction n as [|n IH]; intros [|x q]; cbn [pop_n take drop]; try done. by rewrite IH. Qed.

Lemma fill_frame_spec n q : fill_frame n q = (take n q ++ replicate (n - length q) 0%Z, drop n q).
Proof.
  revert q. induction n as [|n IH]; intros [|x q]; cbn [fill_frame take drop length app]; try done; rewrite IH.
  - rewrite take_nil, drop_nil. cbn [length app]. by rewrite !Nat.sub_0_r.
  - done.
Qed.

Lemma fill_frame_resize q : (fill_frame (N.to_nat FRAME_MONO) q).1 = resize FRAME_MONO 0%Z q.
Proof. rewrite fill_frame_spec. unfold resize, takeN, lenN. cbn [fst]. do 2 f_equal. lia. Qed.

Lemma fill_frame_rest q : (fill_frame (N.to_nat FRAME_MONO) q).2 = dropN FRAME_MONO q.
Proof. by rewrite fill_frame_spec. Qed.

Lemma resize_i16 n l : i16s l -> i16s (resize n 0%Z l).
Proof. intros Hl. unfold resize. apply Forall_app; split; [by apply Forall_take | apply i16s_zeros]. Qed.

(** ** The processing module *)

Lemma write_back_len chunk frame : lenN (write_back chunk frame) = lenN chunk.
Proof. revert frame. induction chunk as [|c chunk IH]; intros [|x frame]; cbn [write_back]; rewrite ?lenN_cons, ?IH; done. Qed.

Lemma write_back_i16 chunk frame : i16s chunk -> i16s (write_back chunk frame).
Proof.
  intros Hc. revert frame. induction Hc as [|c chunk Hs Hc IH]; intros [|x frame]; cbn [write_back]; auto.
  constructor; [unfold from_unit; auto with i16 | apply IH].
Qed.

Section EngineLemmas.
Context {Enc Dec Apm : Type} `{Opus Enc Dec} `{AudioProcessor Apm}.
Implicit Types a : AudioEngine Enc Dec Apm.

Lemma process_chunks_len always (run : Apm -> list spec_float -> Apm * (bool * list spec_float)) p cs :
  lenN (process_chunks always run p cs).2 = lenN (concat cs).
Proof.
  revert p. induction cs as [|c cs IH]; intros p; cbn [process_chunks concat]; [done|].
  case_match; [done|]. destruct (run _ _) as [p1 [good frame]]. specialize (IH p1).
  destruct (process_chunks _ _ p1 cs). cbn [snd] in *. rewrite !lenN_app, IH.
  case_match; [by rewrite write_back_len | done].
Qed.

Lemma process_chunks_i16 always (run : Apm -> list spec_float -> Apm * (bool * list spec_float)) p cs :
  Forall (Forall (fun z => is_i16 z = true)) cs -> i16s (process_chunks always run p cs).2.
Proof.
  intros Hcs. revert p. induction Hcs as [|c cs Hc Hcs IH]; intros p; cbn [process_chunks]; [done|].
  case_match; [by apply Forall_app; split; [|apply Forall_concat]|].
  destruct (run _ _) as [p1 [good frame]]. specialize (IH p1).
  destruct (process_chunks _ _ p1 cs). cbn [snd] in *. apply Forall_app; split; [|done].
  case_match; [by apply write_back_i16 | done].
Qed.

(** Both passes keep the queues, the length of the frame and its range. *)
Definition processed (mono : list Z) a (out : AudioEngine Enc Dec Apm * list Z) : Prop :=
  capture out.1 = capture a /\ playback out.1 = playback a /\ opus out.1 = opus a /\
  lenN out.2 = lenN mono /\ (i16s mono -> i16s out.2).

Lemma i16s_chunks n l : 0 < n -> i16s l -> Forall (Forall (fun z => is_i16 z = true)) (chunks n l).
Proof. intros. apply Forall_concat. by rewrite audio_chunks_concat. Qed.

Lemma process_capture_spec mono a : processed mono a (process_capture mono a).
Proof.
  unfold processed, process_capture. destruct (apm a) as [p|]; [|done].
  pose proof (process_chunks_len false process_capture_frame p (chunks APM_CHUNK mono)) as Hl.
  pose proof (process_chunks_i16 false process_capture_frame p (chunks APM_CHUNK mono)) as Hi.
  destruct (process_chunks _ _ _ _) as [p' out]. rewrite audio_chunks_concat in Hl by done. cbn in *.
  repeat split; try done. intros. by apply Hi, i16s_chunks.
Qed.

Lemma process_render_spec mono a : processed mono a (process_render mono a).
Proof.
  unfold processed, process_render. destruct (apm a) as [p|]; [|done].
  pose proof (process_chunks_len true process_render_frame p (chunks APM_CHUNK mono)) as Hl.
  pose proof (process_chunks_i16 true process_render_frame p (chunks APM_CHUNK mono)) as Hi.
  destruct (process_chunks _ _ _ _) as [p' out]. rewrite audio_chunks_concat in Hl by done. cbn in *.
  repeat split; try done. intros. by apply Hi, i16s_chunks.
Qed.

(** ** The engine *)

Definition queue_ok (q : list Z) : Prop := i16s q /\ lenN q <= CAPTURE_CAP.
Definition audio_ok a : Prop := queue_ok (capture a) /\ queue_ok (playback a).

Lemma pop_excess_ok q : i16s q -> queue_ok (pop_excess q).
Proof. split; [rewrite pop_excess_drop; by apply Forall_drop | apply pop_excess_bound]. Qed.

Lemma dropN_ok n q : queue_ok q -> queue_ok (dropN n q).
Proof. intros [Hi Hl]. split; [by apply Forall_drop | rewrite lenN_dropN; lia]. Qed.

Lemma push_capture_ok samples rate ch a : i16s samples -> audio_ok a -> audio_ok (push_capture samples rate ch a).
Proof.
  intros Hs [Hc Hp]. split; [|done]. cbn. apply pop_excess_ok, Forall_app.
  split; [apply Hc | by apply resample_i16, to_mono_i16].
Qed.

Lemma pull_playback_ok n a : audio_ok a -> audio_ok (pull_playback n a).1.
Proof.
  intros [Hc Hp]. unfold pull_playback. rewrite pop_n_spec. split; [done|]. cbn. by apply (dropN_ok n).
Qed.

(** A captured frame has the size the codec asks for, and leaves the rest of the
    queue for the next one. *)
Lemma take_capture_frame_spec a :
  lenN (take_capture_frame a).2 = FRAME_MONO /\
  capture (take_capture_frame a).1 = dropN FRAME_MONO (capture a) /\
  playback (take_capture_frame a).1 = playback a /\
  (apm a = None -> (take_capture_frame a).2 = resize FRAME_MONO 0%Z (capture a)).
Proof.
  unfold take_capture_frame.
  pose proof (fill_frame_resize (capture a)) as Hf. pose proof (fill_frame_rest (capture a)) as Hr.
  destruct (fill_frame _ _) as [frame q]. cbn [fst snd] in *. subst frame q.
  set (a' := mk_audio _ _ _ _). destruct (process_capture_spec (resize FRAME_MONO 0%Z (capture a)) a') as (Hc & Hp & _ & Hl & _).
  rewrite Hc, Hp, Hl, lenN_resize. repeat split. intros Hn. unfold process_capture. subst a'. cbn. by rewrite Hn.
Qed.

Lemma take_capture_frame_ok a : audio_ok a -> audio_ok (take_capture_frame a).1.
Proof.
  intros [Hc Hp]. destruct (take_capture_frame_spec a) as (_ & Hq & Hb & _).
  unfold audio_ok. rewrite Hq, Hb. split; [by apply dropN_ok | done].
Qed.

Lemma encode_frame_queues mono a :
  capture (encode_frame mono a).1 = capture a /\ playback (encode_frame mono a).1 = playback a.
Proof. unfold encode_frame. by destruct (encode_stereo _ _ _). Qed.

Lemma encode_frame_sized mono a :
  lenN mono = FRAME_MONO -> (encode_frame mono a).2 <> Err (CallError "opus frame size").
Proof.
  intros Hm. unfold encode_frame, encode_stereo. rewrite upmix_len, Hm, N.eqb_refl. cbn [negb].
  destruct (opus_encode _ _ _ _) as [e [n buf]]. by destruct (n <? 0)%Z.
Qed.

Context `{!OpusLaws Enc Dec}.

(** A received packet never panics, and the queue stays bounded. *)
Lemma decode_rtp_ok payload a : audio_ok a -> exists a', decode_rtp payload a = Some a' /\ audio_ok a'.
Proof.
  intros [Hc Hp]. unfold decode_rtp. case_match; [by exists a|].
  unfold decode_stereo. pose proof (opus_decode_fits (dec (opus a)) payload FRAME_MONO) as Hfit.
  destruct (opus_decode _ _ _) as [d [n pcm]]. cbn [fst snd] in Hfit. destruct Hfit as (Hn & Hl & Hi).
  destruct (n <? 0)%Z; [by eexists|].
  assert (lenN pcm <? Z.to_N n * CHANNELS = false) as -> by (unfold CHANNELS in *; lia).
  set (a1 := mk_audio _ _ _ _). set (mono := resize _ _ _).
  destruct (process_render_spec mono a1) as (Hc1 & Hp1 & _ & _ & Hi1).
  destruct (process_render mono a1) as [a2 out]. cbn [fst snd] in *.
  eexists; split; [done|]. split; cbn; rewrite ?Hc1, ?Hp1; [done|].
  apply pop_excess_ok, Forall_app. split; [apply Hp|].
  apply Hi1, resize_i16, downmix_i16. by apply Forall_take.
Qed.
End EngineLemmas.

(** ** Runs of the engine *)

(** What the shell and the call do to the engine: the shell pushes captured and
    pulls played samples, the sender takes and encodes a frame, the track
    handler decodes a packet, [Call::close] stops. *)
Inductive audio_op : Type :=
| PushCapture (samples : list Z) (sample_rate channels : N)
| PullPlayback (max_samples : N)
| SendFrame
| ReceivePacket (payload : bytes)
| StopAudio.

Definition audio_op_typed (op : audio_op) : Prop :=
  match op with PushCapture samples _ _ => i16s samples | _ => True end.

Section Runs.
Context {Enc Dec Apm : Type} `{Opus Enc Dec} `{AudioProcessor Apm}.
Implicit Types a : AudioEngine Enc Dec Apm.

Definition send_frame a : AudioEngine Enc Dec Apm * cresult bytes :=
  let '(a, pcm) := take_capture_frame a in encode_frame pcm a.

Definition audio_exec (op : audio_op) a : option (AudioEngine Enc Dec Apm) :=
  match op with
  | PushCapture samples rate ch => Some (push_capture samples rate ch a)
  | PullPlayback n => Some (pull_playback n a).1
  | SendFrame => Some (send_frame a).1
  | ReceivePacket payload => decode_rtp payload a
  | StopAudio => Some (audio_stop a)
  end.

Fixpoint audio_run (ops : list audio_op) a : option (AudioEngine Enc Dec Apm) :=
  match ops with
  | [] => Some a
  | op :: ops => a1 ← audio_exec op a; audio_run ops a1
  end.

Lemma audio_new_ok cbr a : audio_new cbr = Ok a -> audio_ok a.
Proof.
  intros Hn. apply result_bind_ok in Hn as (o & _ & [= <-]). split; split; try done; cbn; lia.
Qed.

Lemma send_frame_ok a :
  audio_ok a -> audio_ok (send_frame a).1 /\ (send_frame a).2 <> Err (CallError "opus frame size").
Proof.
  intros Ha. unfold send_frame. pose proof (take_capture_frame_ok a Ha) as Ha1.
  destruct (take_capture_frame_spec a) as (Hl & _). destruct (take_capture_frame a) as [a1 pcm]. cbn [fst snd] in *.
  split; [|by apply encode_frame_sized].
  destruct (encode_frame_queues pcm a1) as [Hc Hp]. unfold audio_ok. by rewrite Hc, Hp.
Qed.

Lemma audio_exec_ok `{!OpusLaws Enc Dec} op a :
  audio_op_typed op -> audio_ok a -> exists a', audio_exec op a = Some a' /\ audio_ok a'.
Proof.
  intros Ht Ha. destruct op; cbn [audio_exec]; try (eexists; split; [done|]).
  - by apply push_capture_ok.
  - by apply pull_playback_ok.
  - by apply send_frame_ok.
  - by apply decode_rtp_ok.
  - split; split; try done; cbn; lia.
Qed.


(** Frames taken one after the other. *)
Fixpoint take_frames (k : nat) a : list Z :=
  match k with
  | O => []
  | S k => let '(a, pcm) := take_capture_frame a in pcm ++ take_frames k a
  end.

Lemma take_capture_frame_apm a : apm a = None -> apm (take_capture_frame a).1 = None.
Proof.
  intros Hn. unfold take_capture_frame. destruct (fill_frame _ _) as [frame q].
  unfold process_capture. cbn. by rewrite Hn.
Qed.

(** Without a processing module the frames carry the queue in order, each
    sample once, followed by silence. *)
Theorem frames_carry_the_queue k a :
  apm a = None -> take_frames k a = resize (N.of_nat k * FRAME_MONO) 0%Z (capture a).
Proof.
  revert a. induction k as [|k IH]; intros a Hn; cbn [take_frames]; [done|].
  pose proof (take_capture_frame_apm a Hn) as Hn1.
  destruct (take_capture_frame_spec a) as (_ & Hq & _ & Hf). specialize (Hf Hn).
  destruct (take_capture_frame a) as [a1 pcm]. cbn [fst snd] in *. rewrite (IH a1 Hn1), Hq. subst pcm.
  unfold resize at 1 2 3. rewrite lenN_dropN.
  replace (N.of_nat (S k) * FRAME_MONO) with (FRAME_MONO + N.of_nat k * FRAME_MONO) by lia.
  destruct (decide (lenN (capture a) <= FRAME_MONO)) as [Hle|Hgt].
  - rewrite !takeN_ge, dropN_ge by (rewrite ?lenN_dropN; lia). rewrite app_nil_l, <- app_assoc, <- replicate_add.
    do 2 f_equal. lia.
  - replace (FRAME_MONO - lenN (capture a)) with 0 by lia. cbn [N.to_nat replicate]. rewrite app_nil_r, app_assoc.
    unfold takeN, dropN. rewrite take_take_drop. do 3 f_equal; lia.
Qed.
End Runs.

(** ** A witness *)

Module ToyAudio.
(** A codec that carries the low byte of every second sample. *)
#[global] Instance codec : Opus unit unit := {
  opus_encoder_create _ _ := (Some tt, 0%Z);
  opus_decoder_create _ _ := (Some tt, 0%Z);
  opus_encoder_ctl e _ := e;
  opus_encode _ pcm n cap := (tt, (Z.of_N (N.min n cap), resize cap x00 (map (fun z => byte_of_N (Z.to_N z)) pcm)));
  opus_decode _ p n := (tt, (Z.of_N (N.min (lenN p) n), resize (n * CHANNELS) 0%Z (map (fun b => Z.of_N (Byte.to_N b)) p)))
}.

Lemma byte_is_i16 b : is_i16 (Z.of_N (Byte.to_N b)) = true.
Proof. by destruct b. Qed.

#[global] Instance codec_laws : OpusLaws unit unit.
Proof.
  split; intros; cbn.
  - split_and!; [lia | by rewrite lenN_resize | apply resize_i16, i16s_map, byte_is_i16].
  - split; [lia | by rewrite lenN_resize].
Qed.

#[global] Instance processor : AudioProcessor unit := {
  apm_new _ := Some tt;
  apm_set_config p := p;
  process_capture_frame p f := (p, (true, f));
  process_render_frame p f := (p, (false, f))
}.
End ToyAudio.


Example resample_halves : resample [100; 200; 300; 400]%Z 96000 48000 = [100; 300]%Z.
Proof. vm_compute. reflexivity. Qed.

Example resample_doubles : resample [0; 101]%Z 24000 48000 = [0; 51; 101; 101]%Z.
Proof. vm_compute. reflexivity. Qed.
