(* ===== verification/Call.v ===== *)
(** * Calls

    [nemo-core/src/call.rs]: one voice call between two contacts. The media
    library calls the handler ([CallEvents]) from its own tasks, so the shared
    flags may change between any two accesses of the call's code: before each
    atomic load, and during each await, an arbitrary batch of events is
    delivered ([tick]). The peer connection, the clock and the random source
    are parameters. *)

From S2P Require Import CoreErr AppMsg Session Audio.

(** ** Text *)

(** [str::trim] over the UTF-8 bytes, from the start and, on the reversed
    bytes, from the end. *)
Fixpoint trim_start_ws (l : bytes) : bytes :=
  match l with
  | a :: r =>
      if ws1 a then trim_start_ws r
      else match r with
           | b :: r1 =>
               if ws2 a b then trim_start_ws r1
               else match r1 with
                    | c :: r2 => if ws3 a b c then trim_start_ws r2 else l
                    | [] => l
                    end
           | [] => l
           end
  | [] => []
  end.

Fixpoint trim_rev_ws (l : bytes) : bytes :=
  match l with
  | a :: r =>
      if ws1 a then trim_rev_ws r
      else match r with
           | b :: r1 =>
               if ws2 b a then trim_rev_ws r1
               else match r1 with
                    | c :: r2 => if ws3 c b a then trim_rev_ws r2 else l
                    | [] => l
                    end
           | [] => l
           end
  | [] => []
  end.

Definition trim (l : bytes) : bytes := rev (trim_rev_ws (rev (trim_start_ws l))).

(** [str::lines]: lines end at a line feed or a carriage return and a line feed;
    the rest after the last line feed is a line unless it is empty. *)
Definition strip_cr (l : bytes) : bytes :=
  match rev l with x0d :: r => rev r | _ => l end.

Fixpoint lines_from (cur l : bytes) : list bytes :=
  match l with
  | [] => token cur []
  | b :: l => if Byte.eqb b x0a then strip_cr cur :: lines_from [] l else lines_from (cur ++ [b]) l
  end.

Definition lines (l : bytes) : list bytes := lines_from [] l.

(** ** Fingerprints *)

Definition FINGERPRINT_ATTR : bytes := String.list_byte_of_string "a=fingerprint:".

(** The fingerprint on one line. *)
Definition line_fingerprint (line : bytes) : option bytes :=
  match strip_bytes FINGERPRINT_ATTR (trim line) with
  | Some rest => let fp := trim rest in if lenN fp =? 0 then None else Some fp
  | None => None
  end.

(** The loop of [fingerprint_from_sdp]; a trimmed piece of a string is a string,
    so [from_utf8] only rebuilds the type. *)
Fixpoint first_fingerprint (ls : list bytes) : option rstring :=
  match ls with
  | [] => None
  | line :: ls =>
      match line_fingerprint line with
      | Some fp => from_utf8 fp
      | None => first_fingerprint ls
      end
  end.

Definition fingerprint_from_sdp (sdp : rstring) : cresult rstring :=
  ok_or (first_fingerprint (lines (as_bytes sdp))) (CallError "SDP has no a=fingerprint").

Definition normalize_fp (s : rstring) : bytes := map ascii_lower (List.filter is_ascii_hexdigit (as_bytes s)).

Definition fingerprints_match (a b : rstring) : bool := bool_decide (normalize_fp a = normalize_fp b).

Definition verify_fingerprint (sdp claimed : rstring) : cresult unit :=
  got ← fingerprint_from_sdp sdp; ensure (fingerprints_match got claimed) DtlsFingerprintMismatch.

(** ** Data *)

Record LocalSignal : Type := mk_signal {
  ls_call_id : CallId;
  ls_sdp : rstring;
  ls_dtls_fp : rstring;
  ls_ice : list rstring
}.

Inductive RTCIceCandidateType : Type := CandUnspecified | CandHost | CandSrflx | CandPrflx | CandRelay.
Inductive RTCIceGatheringState : Type := GatherUnspecified | GatherNew | Gathering | GatherComplete.
Inductive RTCIceConnectionState : Type :=
  IceUnspecified | IceNew | IceChecking | IceConnected | IceCompleted | IceDisconnected | IceFailed | IceClosed.
Inductive RTCPeerConnectionState : Type :=
  PcUnspecified | PcNew | PcConnecting | PcConnected | PcDisconnected | PcFailed | PcClosed.

(** What the media library calls the handler with; the JSON text of a candidate
    is [None] where [to_json] fails. *)
Inductive call_event : Type :=
| OnIceCandidate (typ : RTCIceCandidateType) (json : option rstring)
| OnIceGatheringState (st : RTCIceGatheringState)
| OnIceConnectionState (st : RTCIceConnectionState)
| OnConnectionState (st : RTCPeerConnectionState)
| OnRtpPacket (payload : bytes).

Inductive RTCIceTransportPolicy : Type := PolicyAll | PolicyRelay.
Record RTCIceServer : Type := mk_ice_server { urls : list rstring; is_username : rstring; is_credential : rstring }.
Record RTCConfiguration : Type := mk_rtc_config { ice_servers : list RTCIceServer; ice_transport_policy : RTCIceTransportPolicy }.
Inductive SdpKind : Type := SdpOffer | SdpAnswer.

Definition OPUS_PT : N := 111.
Definition OPUS_SILENCE : bytes := [xf8; xff; xfe].

(** The media library over a world [W], with connections [P]. *)
Class MediaLib (W P : Type) := {
  background : W -> W * list call_event;
  media_setup : W -> W * result message_text unit;
  pc_build : RTCConfiguration -> list rstring -> W -> W * result message_text P;
  track_new : N -> W -> W * result message_text unit;
  pc_add_track : P -> N -> W -> W * result message_text unit;
  session_description : SdpKind -> rstring -> result message_text rstring;
  pc_set_remote : P -> SdpKind -> rstring -> W -> W * result message_text unit;
  pc_add_ice : P -> rstring -> W -> W * result message_text unit;
  pc_create_offer : P -> W -> W * result message_text rstring;
  pc_create_answer : P -> W -> W * result message_text rstring;
  pc_set_local : P -> rstring -> W -> W * result message_text unit;
  pc_local_description : P -> W -> W * option rstring;
  pc_close : P -> W -> W * result message_text unit;
  write_sample : P -> N -> N -> bytes -> W -> W * result message_text unit;
  rng_call_id : W -> W * CallId;
  rng_ssrc : W -> W * N;
  instant_ms : W -> N;
  pause_ms : N -> W -> W
}.

(** The clock does not go back, and a pause takes its time. *)
Class MediaClock (W P : Type) `{MediaLib W P} := {
  background_time w : instant_ms w <= instant_ms (background w).1;
  pause_time n w : instant_ms w + n <= instant_ms (pause_ms n w)
}.

(** An error of the call's code, or a loop that was cut short by the model. *)
Inductive fault : Type := Fail (e : CoreError) | OutOfFuel.

Section Calls.
Context {W P Enc Dec Apm : Type} `{MediaLib W P} `{Opus Enc Dec} `{AudioProcessor Apm}.

Record CallEvents : Type := mk_call_events {
  ev_ice : list rstring;
  forbidden : bool;
  gathering_done : bool;
  connected_done : bool;
  received : N;
  ev_closed : bool;
  ev_audio : AudioEngine Enc Dec Apm
}.

(** The handler of one event. *)
Definition handle_event (ev : call_event) (e : CallEvents) : CallEvents :=
  let '(mk_call_events ice fb gd cd rc cl au) := e in
  match ev with
  | OnIceCandidate (CandHost | CandSrflx) _ => mk_call_events ice true gd cd rc cl au
  | OnIceCandidate CandRelay (Some init) => mk_call_events (ice ++ [init]) fb gd cd rc cl au
  | OnIceCandidate _ _ => e
  | OnIceGatheringState GatherComplete => mk_call_events ice fb true cd rc cl au
  | OnIceGatheringState _ => e
  | OnIceConnectionState (IceConnected | IceCompleted) => mk_call_events ice fb gd true rc cl au
  | OnIceConnectionState _ => e
  | OnConnectionState PcConnected => mk_call_events ice fb gd true rc cl au
  | OnConnectionState (PcFailed | PcClosed | PcDisconnected) => mk_call_events ice fb gd cd rc true au
  | OnConnectionState _ => e
  | OnRtpPacket payload => mk_call_events ice fb gd cd (u64_add rc 1) cl (default au (decode_rtp payload au))
  end.

(** [Call]; [ice_sent] is part of the shared state. *)
Record Call : Type := mk_call { pc : P; ssrc : N; call_id : CallId; local : LocalSignal }.

Record call_state : Type := mk_cst { media : W; events : CallEvents; ice_sent : N }.

Notation callM := (stM call_state fault).

(** The events the library delivered since the last step. *)
Definition tick : callM unit := fun s =>
  let '(w, evs) := background (media s) in
  (mk_cst w (fold_left (fun e ev => handle_event ev e) evs (events s)) (ice_sent s), Ok tt).

(** An atomic load of the shared flags. *)
Definition load {A} (f : CallEvents -> A) : callM A := tick ;; gets (fun s => f (events s)).

(** An await of the library. *)
Definition await {A} (op : W -> W * A) : callM A :=
  a ← (fun s => let '(w, a) := op (media s) in (mk_cst w (events s) (ice_sent s), Ok a)); tick ;; mret a.

(** [op.await.map_err(call_err)?]. *)
Definition call_err {A} (r : result message_text A) : result fault A := map_err (fun msg => Fail (CallError msg)) r.
Definition await_call {A} (op : W -> W * result message_text A) : callM A := r ← await op; lift (call_err r).

Definition core {A} (r : cresult A) : callM A := lift (map_err Fail r).
Definition fail {A} (e : CoreError) : callM A := throw (Fail e).

Definition set_events (f : CallEvents -> CallEvents) : callM unit :=
  modify (fun s => mk_cst (media s) (f (events s)) (ice_sent s)).

(** ** Waiting *)

Fixpoint wait_first_relay_loop (fuel : nat) (deadline : N) : callM unit :=
  match fuel with
  | O => throw OutOfFuel
  | S fuel =>
      fb ← load forbidden;
      if (fb : bool) then fail DirectIceForbidden
      else
        n ← load (fun e => lenN (ev_ice e));
        if 0 <? n then mret tt
        else
          gd ← load gathering_done;
          if (gd : bool) then fail (CallError "no relay ICE candidates")
          else
            now ← gets (fun s => instant_ms (media s));
            if deadline <=? now then fail (CallError "ICE gathering timed out")
            else await (fun w => (pause_ms 50 w, tt)) ;; wait_first_relay_loop fuel deadline
  end.

(** One turn takes 50 ms. *)
Definition wait_fuel (timeout : N) : nat := N.to_nat (timeout / 50 + 2).

Definition wait_first_relay (timeout : N) : callM unit :=
  now ← gets (fun s => instant_ms (media s));
  wait_first_relay_loop (wait_fuel timeout) (now + timeout).

Fixpoint wait_flag_loop (fuel : nat) (flag : CallEvents -> bool) (deadline : N) (what : message_text) : callM unit :=
  match fuel with
  | O => throw OutOfFuel
  | S fuel =>
      up ← load flag;
      if (up : bool) then mret tt
      else
        now ← gets (fun s => instant_ms (media s));
        if deadline <=? now then fail (CallError (String.append what " timed out"))
        else await (fun w => (pause_ms 50 w, tt)) ;; wait_flag_loop fuel flag deadline what
  end.

Definition wait_flag (flag : CallEvents -> bool) (timeout : N) (what : message_text) : callM unit :=
  now ← gets (fun s => instant_ms (media s));
  wait_flag_loop (wait_fuel timeout) flag (now + timeout) what.

(** ** The call *)

Definition add_ice (p : P) (ice : list rstring) : callM unit :=
  core (reject_direct_ice ice) ;;
  for_each ice (fun candidate => await_call (pc_add_ice p candidate)).

Definition relay_config (turn : TurnConfig) : RTCConfiguration :=
  mk_rtc_config [mk_ice_server [tc_url turn] (tc_username turn) (tc_credential turn)] PolicyRelay.

(** The part of [Call::create] that negotiates: the remote offer, checked
    against the signed fingerprint, and the answer, or an own offer. *)
Definition negotiate (p : P) (remote : option LocalSignal) : callM unit :=
  match remote with
  | Some remote =>
      core (verify_fingerprint (ls_sdp remote) (ls_dtls_fp remote)) ;;
      desc ← lift (call_err (session_description SdpOffer (ls_sdp remote)));
      await_call (pc_set_remote p SdpOffer desc) ;;
      add_ice p (ls_ice remote) ;;
      answer ← await_call (pc_create_answer p);
      await_call (pc_set_local p answer)
  | None =>
      offer ← await_call (pc_create_offer p);
      await_call (pc_set_local p offer)
  end.

(** The part of [Call::create] that takes the snapshot of the candidates. *)
Definition snapshot (p : P) (sr : N) (cid : CallId) : callM Call :=
  wait_first_relay 15000 ;;
  fb ← load forbidden;
  if (fb : bool) then await (pc_close p) ;; fail DirectIceForbidden
  else
    ice ← load ev_ice;
    core (reject_direct_ice ice) ;;
    if lenN ice =? 0 then await (pc_close p) ;; fail (CallError "no relay ICE candidates")
    else
      desc ← await (pc_local_description p);
      sdp ← core (ok_or desc (CallError "missing local SDP"));
      dtls_fp ← core (fingerprint_from_sdp sdp);
      modify (fun s => mk_cst (media s) (events s) (lenN ice)) ;;
      mret (mk_call p sr cid (mk_signal cid sdp dtls_fp ice)).

(** [Call::create]. *)
Definition create (turn : TurnConfig) (cid : CallId) (remote : option LocalSignal) (cbr : bool) : callM Call :=
  await_call media_setup ;;
  audio ← core (audio_new cbr);
  modify (fun s => mk_cst (media s) (mk_call_events [] false false false 0 false audio) 0) ;;
  p ← await_call (pc_build (relay_config turn) [tc_bind turn]);
  sr ← await rng_ssrc;
  await_call (track_new sr) ;;
  await_call (pc_add_track p sr) ;;
  negotiate p remote ;;
  snapshot p sr cid.

Definition offer_with (turn : TurnConfig) (cbr : bool) : callM Call :=
  cid ← await rng_call_id; create turn cid None cbr.
Definition offer (turn : TurnConfig) : callM Call := offer_with turn false.
Definition answer_with (turn : TurnConfig) (remote : LocalSignal) (cbr : bool) : callM Call :=
  create turn (ls_call_id remote) (Some remote) cbr.
Definition answer (turn : TurnConfig) (remote : LocalSignal) : callM Call := answer_with turn remote false.

(** [Call::apply_answer]. *)
Definition apply_answer (c : Call) (remote : LocalSignal) : callM unit :=
  if negb (bool_decide (ls_call_id remote = call_id c)) then fail (CallError "call_id mismatch")
  else
    core (verify_fingerprint (ls_sdp remote) (ls_dtls_fp remote)) ;;
    desc ← lift (call_err (session_description SdpAnswer (ls_sdp remote)));
    await_call (pc_set_remote (pc c) SdpAnswer desc) ;;
    add_ice (pc c) (ls_ice remote).

Definition add_remote_ice (c : Call) (ice : list rstring) : callM unit := add_ice (pc c) ice.

(** [Call::take_unsent_ice]; the lock is held from the read of the candidates to
    the store of their number. *)
Definition take_unsent_ice : callM (list rstring) :=
  fb ← load forbidden;
  if (fb : bool) then fail DirectIceForbidden
  else
    ice ← load ev_ice;
    sent ← gets ice_sent;
    if lenN ice <=? sent then mret []
    else
      let extra := dropN sent ice in
      modify (fun s => mk_cst (media s) (events s) (lenN ice)) ;;
      core (reject_direct_ice extra) ;;
      mret extra.

Definition ice_gathering_done : callM bool := load gathering_done.
Definition is_closed : callM bool := load ev_closed.

Definition wait_connected : callM unit :=
  cl ← load ev_closed;
  if (cl : bool) then fail (CallError "closed")
  else wait_flag connected_done 20000 "ICE connected".

Definition received_rtp : callM N := load received.

(** The loop of [send_silence_frames] and [send_capture_frames], with the
    payload of one frame. *)
Fixpoint send_frames (n : nat) (c : Call) (payload : callM bytes) : callM unit :=
  match n with
  | O => mret tt
  | S n =>
      cl ← load ev_closed;
      if (cl : bool) then mret tt
      else
        data ← payload;
        await_call (write_sample (pc c) (ssrc c) OPUS_PT data) ;;
        await (fun w => (pause_ms 20 w, tt)) ;;
        send_frames n c payload
  end.

Definition send_silence_frames (n : nat) (c : Call) : callM unit := send_frames n c (mret OPUS_SILENCE).

(** Runs a method of the engine the call shares with its handler. *)
Definition with_audio {A} (f : AudioEngine Enc Dec Apm -> AudioEngine Enc Dec Apm * A) : callM A :=
  tick ;;
  ((fun s =>
    let '(mk_call_events ice fb gd cd rc cl au) := events s in
    let '(au, a) := f au in
    (mk_cst (media s) (mk_call_events ice fb gd cd rc cl au) (ice_sent s), Ok a)) : callM A).

(** The payload of a captured frame, or silence. *)
Definition capture_payload : callM bytes :=
  pcm ← with_audio take_capture_frame;
  r ← with_audio (encode_frame pcm);
  mret (match r with Ok (b :: bs) => b :: bs | _ => OPUS_SILENCE end).

Definition send_capture_frames (n : nat) (c : Call) : callM unit := send_frames n c capture_payload.

Definition start_audio_io : callM bool := with_audio (fun a => (a, start_local_io a)).
Definition push_capture_pcm (samples : list Z) (sample_rate channels : N) : callM unit :=
  with_audio (fun a => (push_capture samples sample_rate channels a, tt)).
Definition pull_playback_pcm (max_samples : N) : callM (list Z) := with_audio (pull_playback max_samples).

(** [Call::close]. *)
Definition close (c : Call) : callM unit :=
  set_events (fun e => mk_call_events (ev_ice e) (forbidden e) (gathering_done e) (connected_done e) (received e) true (ev_audio e)) ;;
  with_audio (fun a => (audio_stop a, tt)) ;;
  await_call (pc_close (pc c)).
End Calls.
Arguments CallEvents : clear implicits.
Arguments Call : clear implicits.
Arguments call_state : clear implicits.

(** ** Text lemmas *)

Lemma second_cont b c :
  cont_byte c = false -> utf8_second3 b c = false /\ utf8_second4 b c = false.
Proof.
  unfold utf8_second3, utf8_second4, cont_byte, in_range, byte_le. intros Hc.
  change (Byte.to_N x80) with 128 in *. change (Byte.to_N xbf) with 191 in *. change (Byte.to_N xa0) with 160.
  change (Byte.to_N x9f) with 159. change (Byte.to_N x90) with 144. change (Byte.to_N x8f) with 143.
  split; repeat case_match; lia.
Qed.

(** A string cut before a character is a string. *)
Lemma utf8_prefix_len n l c k :
  (length l <= n)%nat -> cont_byte c = false -> utf8_valid (l ++ c :: k) = true -> utf8_valid l = true.
Proof.
  intros Hn Hc. revert l Hn. induction n as [|n IH]; intros l Hn; [by destruct l; [|cbn in Hn; lia]|].
  destruct l as [|b0 r0]; [done|]. cbn [app utf8_valid]. cbn in Hn.
  case_match; [intros; apply IH; [lia | done]|].
  destruct r0 as [|b1 r1]; cbn [app].
  { rewrite Hc. destruct (second_cont b0 c Hc) as [-> ->]. rewrite andb_false_r.
    repeat case_match; rewrite ?andb_false_r; done. }
  cbn in Hn. case_match; [rewrite !andb_true_iff; intros [-> ?]; split; [done|]; apply IH; [lia | done]|].
  destruct r1 as [|b2 r2]; cbn [app].
  { rewrite Hc. rewrite !andb_false_r. cbn. destruct k; rewrite ?andb_false_r; by repeat case_match. }
  cbn in Hn. case_match; [rewrite !andb_true_iff; intros [[-> ->] ?]; split; [done|]; apply IH; [lia | done]|].
  destruct r2 as [|b3 r3]; cbn [app]; [by rewrite Hc, andb_false_r|].
  cbn in Hn. rewrite !andb_true_iff. intros [[[[-> ->] ->] ->] ?]. split; [done|]. apply IH; [lia | done].
Qed.

Lemma utf8_prefix l c k : cont_byte c = false -> utf8_valid (l ++ c :: k) = true -> utf8_valid l = true.
Proof. by apply (utf8_prefix_len (length l)). Qed.

Lemma ws1_ascii a : ws1 a = true -> byte_le a x7f = true /\ cont_byte a = false.
Proof. destruct a; cbn; intros [=]; done. Qed.

Lemma ws2_lead a b : ws2 a b = true -> a = xc2 /\ cont_byte b = true.
Proof.
  unfold ws2. intros [Ha Hb]%andb_true_iff. apply Byte.byte_dec_bl in Ha as ->. split; [done|].
  apply orb_true_iff in Hb as [Hb|Hb]; apply Byte.byte_dec_bl in Hb as ->; done.
Qed.

Lemma ws3_lead a b c : ws3 a b c = true -> byte_le a x7f = false /\ in_range xc2 a xdf = false /\ in_range xe0 a xef = true /\ cont_byte a = false.
Proof. unfold ws3. destruct a; rewrite ?andb_false_l; cbn; intros [=]; done. Qed.

Lemma trim_start_utf8 n l : (length l <= n)%nat -> utf8_valid l = true -> utf8_valid (trim_start_ws l) = true.
Proof.
  revert l. induction n as [|n IH]; intros l Hn Hv; [by destruct l; [|cbn in Hn; lia]|].
  destruct l as [|a r]; [done|]. cbn in Hn. cbn [trim_start_ws].
  destruct (ws1 a) eqn:E1; [apply ws1_ascii in E1 as [E1 _]; cbn in Hv; rewrite E1 in Hv; apply IH; [lia | done]|].
  destruct r as [|b r1]; [done|]. cbn in Hn.
  destruct (ws2 a b) eqn:E2; [apply ws2_lead in E2 as [-> Hb]; cbn in Hv; rewrite Hb in Hv; apply IH; [lia | done]|].
  destruct r1 as [|c r2]; [done|]. cbn in Hn.
  destruct (ws3 a b c) eqn:E3; [|done]. apply ws3_lead in E3 as (E3 & E4 & E5 & _). cbn in Hv.
  rewrite E3, E4, E5 in Hv. apply andb_true_iff in Hv as [_ Hv]. apply IH; [lia | done].
Qed.

Lemma trim_rev_utf8 n l : (length l <= n)%nat -> utf8_valid (rev l) = true -> utf8_valid (rev (trim_rev_ws l)) = true.
Proof.
  revert l. induction n as [|n IH]; intros l Hn Hv; [by destruct l; [|cbn in Hn; lia]|].
  destruct l as [|a r]; [done|]. cbn in Hn. cbn [trim_rev_ws].
  destruct (ws1 a) eqn:E1.
  { apply ws1_ascii in E1 as [_ E1]. cbn in Hv. apply utf8_prefix in Hv; [|done]. apply IH; [lia | done]. }
  destruct r as [|b r1]; [done|]. cbn in Hn.
  destruct (ws2 b a) eqn:E2.
  { apply ws2_lead in E2 as [-> _]. cbn in Hv. rewrite <- app_assoc in Hv. cbn in Hv. apply utf8_prefix in Hv; [|done].
    apply IH; [lia | done]. }
  destruct r1 as [|c r2]; [done|]. cbn in Hn.
  destruct (ws3 c b a) eqn:E3; [|done]. apply ws3_lead in E3 as (_ & _ & _ & E3). cbn in Hv.
  rewrite <- !app_assoc in Hv. cbn in Hv. apply utf8_prefix in Hv; [|done]. apply IH; [lia | done].
Qed.

Lemma trim_utf8 l : utf8_valid l = true -> utf8_valid (trim l) = true.
Proof.
  intros Hv. unfold trim. eapply trim_rev_utf8; [done|]. rewrite rev_involutive. by eapply trim_start_utf8.
Qed.

Lemma strip_cr_utf8 l : utf8_valid l = true -> utf8_valid (strip_cr l) = true.
Proof.
  intros Hv. unfold strip_cr. destruct (rev l) as [|b r] eqn:E; [done|].
  apply (f_equal (@rev byte)) in E. rewrite rev_involutive in E. cbn in E. subst l.
  destruct b; try done. by apply utf8_prefix in Hv.
Qed.

Lemma lines_utf8 cur l : utf8_valid (cur ++ l) = true -> Forall (fun line => utf8_valid line = true) (lines_from cur l).
Proof.
  revert cur. induction l as [|b l IH]; intros cur Hv; cbn [lines_from].
  - rewrite app_nil_r in Hv. destruct cur; cbn; auto.
  - destruct (Byte.eqb b x0a) eqn:E; [|apply IH; by rewrite <- app_assoc].
    apply Byte.byte_dec_bl in E as ->. pose proof (utf8_prefix cur x0a l eq_refl Hv) as Hc.
    rewrite (utf8_valid_app cur) in Hv by done. constructor; [by apply strip_cr_utf8 | by apply IH].
Qed.

Lemma line_fingerprint_utf8 line fp : utf8_valid line = true -> line_fingerprint line = Some fp -> utf8_valid fp = true.
Proof.
  intros Hv%trim_utf8. unfold line_fingerprint. destruct (strip_bytes _ _) as [rest|] eqn:E; [|done].
  case_match; [done|]. intros [= <-]. apply trim_utf8.
  destruct (strip_prefix_spec (lit "a=fingerprint:") (exist _ _ Hv) rest E) as [s Hs].
  apply from_utf8_Some in Hs as <-. apply (proj2_sig s).
Qed.

(** [fingerprint_from_sdp] returns the fingerprint of the first line that has
    one, and fails when no line has. *)
Lemma fingerprint_from_sdp_spec sdp :
  as_bytes <$> ok (fingerprint_from_sdp sdp) = head (omap line_fingerprint (lines (as_bytes sdp))).
Proof.
  unfold fingerprint_from_sdp. pose proof (lines_utf8 [] (as_bytes sdp) (proj2_sig sdp)) as Hl.
  fold (lines (as_bytes sdp)) in Hl. induction Hl as [|line ls Hv _ IH]; [done|]. cbn [first_fingerprint omap list_omap].
  destruct (line_fingerprint line) as [fp|] eqn:E; [|exact IH].
  pose proof (line_fingerprint_utf8 line fp Hv E) as Hf. unfold from_utf8. by destruct (bool_dec _ _).
Qed.

(** ** The shared flags only grow *)

Notation nondirect := (fun c => ~ has_typ "host" c /\ ~ has_typ "srflx" c).

Section CallLemmas.
Context {W P Enc Dec Apm : Type} `{MediaLib W P} `{Opus Enc Dec} `{AudioProcessor Apm}.
Implicit Types (s : call_state W Enc Dec Apm) (e : CallEvents Enc Dec Apm) (c : Call P).
Notation callM := (stM (call_state W Enc Dec Apm) fault).

(** Candidates are only appended and flags only raised. *)
Record grows e e' : Prop := mk_grows {
  grows_ice : ev_ice e `prefix_of` ev_ice e';
  grows_forbidden : forbidden e = true -> forbidden e' = true;
  grows_connected : connected_done e = true -> connected_done e' = true;
  grows_closed : ev_closed e = true -> ev_closed e' = true
}.

#[global] Instance grows_preorder : PreOrder grows.
Proof. split; [by intros e|]. intros e1 e2 e3 [] []. split; auto; etrans; eauto. Qed.

Lemma handle_event_grows ev e : grows e (handle_event ev e).
Proof.
  destruct e, ev as [[] []| []| []| []|]; split; cbn; auto; apply prefix_app_r; done.
Qed.

Lemma events_grow evs e : grows e (fold_left (fun e ev => handle_event ev e) evs e).
Proof. revert e. induction evs as [|ev evs IH]; intros e; cbn; [done|]. etrans; [apply handle_event_grows | apply IH]. Qed.

(** A step of the call's code that leaves [ice_sent] alone. *)
Definition moves s s' : Prop := grows (events s) (events s') /\ ice_sent s' = ice_sent s.

#[global] Instance moves_preorder : PreOrder moves.
Proof. split; [by intros s|]. intros s1 s2 s3 [? ?] [? ?]. split; [by etrans | congruence]. Qed.

Definition quiet {A} (m : callM A) : Prop := forall s, post m s (fun _ => moves s).

Lemma quiet_bind {A B} (m : callM A) (k : A -> callM B) : quiet m -> (forall a, quiet (k a)) -> quiet (m ≫= k).
Proof.
  intros Hm Hk s. rewrite post_bind. eapply post_conseq; [apply Hm|]. intros [a|err] s1 Hs1; [|done].
  eapply post_conseq; [apply Hk|]. intros r s2 Hs2. by etrans.
Qed.

Lemma quiet_ret {A} (a : A) : quiet (mret a). Proof. by intros s. Qed.
Lemma quiet_lift {A} (r : result fault A) : quiet (lift r). Proof. by intros s. Qed.
Lemma quiet_core {A} (r : cresult A) : quiet (core r). Proof. by intros s. Qed.
Lemma quiet_fail {A} err : quiet (fail err : callM A). Proof. by intros s. Qed.
Lemma quiet_gets {A} (f : call_state W Enc Dec Apm -> A) : quiet (gets f). Proof. by intros s. Qed.

Lemma quiet_tick : quiet (tick : callM unit).
Proof. intros s. unfold tick, post. destruct (background _) as [w evs]. split; [apply events_grow | done]. Qed.

Lemma quiet_await {A} (op : W -> W * A) : quiet (await op : callM A).
Proof.
  apply quiet_bind; [intros s; unfold post; by destruct (op _)|]. intros a.
  apply quiet_bind; [apply quiet_tick | intros []; apply quiet_ret].
Qed.

Lemma quiet_load {A} (f : CallEvents Enc Dec Apm -> A) : quiet (load f : callM A).
Proof. apply quiet_bind; [apply quiet_tick | intros []; apply quiet_gets]. Qed.

Lemma quiet_await_call {A} (op : W -> W * result message_text A) : quiet (await_call op : callM A).
Proof. apply quiet_bind; [apply quiet_await | intros; apply quiet_lift]. Qed.

Lemma quiet_with_audio {A} (f : AudioEngine Enc Dec Apm -> AudioEngine Enc Dec Apm * A) : quiet (with_audio f : callM A).
Proof.
  apply quiet_bind; [apply quiet_tick|]. intros [] s. unfold post. destruct (events s) eqn:E.
  destruct (f _). split; [|done]. rewrite E. by split.
Qed.

Lemma quiet_for_each {A} (xs : list A) (body : A -> callM unit) : (forall x, quiet (body x)) -> quiet (for_each xs body).
Proof.
  intros Hb. induction xs as [|x xs IH]; cbn; [apply quiet_ret|]. apply quiet_bind; [apply Hb | intros; apply IH].
Qed.

Lemma quiet_if {A} (b : bool) (m n : callM A) : quiet m -> quiet n -> quiet (if b then m else n).
Proof. by destruct b. Qed.

Create HintDb quiet discriminated.
#[local] Hint Resolve quiet_bind quiet_ret quiet_lift quiet_core quiet_fail quiet_gets quiet_tick quiet_await quiet_load
  quiet_await_call quiet_with_audio quiet_for_each quiet_if : quiet.

Lemma quiet_add_ice p ice : quiet (add_ice p ice).
Proof. unfold add_ice. auto 8 with quiet. Qed.

Lemma quiet_apply_answer c remote : quiet (apply_answer c remote).
Proof. unfold apply_answer. pose proof quiet_add_ice. auto 10 with quiet. Qed.

Lemma quiet_wait_flag_loop fuel (flag : CallEvents Enc Dec Apm -> bool) deadline what :
  quiet (wait_flag_loop fuel flag deadline what : callM unit).
Proof. induction fuel; cbn [wait_flag_loop]; [by intros s | auto 12 with quiet]. Qed.

Lemma quiet_wait_first_relay_loop fuel deadline : quiet (wait_first_relay_loop fuel deadline : callM unit).
Proof. induction fuel; cbn [wait_first_relay_loop]; [by intros s | auto 20 with quiet]. Qed.

Lemma quiet_wait_connected : quiet (wait_connected : callM unit).
Proof. unfold wait_connected, wait_flag. pose proof quiet_wait_flag_loop. auto 10 with quiet. Qed.

Lemma quiet_send_frames n c payload : quiet payload -> quiet (send_frames n c payload).
Proof. intros Hp. induction n; cbn [send_frames]; auto 12 with quiet. Qed.

Lemma quiet_capture_payload : quiet (capture_payload : callM bytes).
Proof. unfold capture_payload. auto 10 with quiet. Qed.

Lemma quiet_close c : quiet (close c).
Proof.
  unfold close. apply quiet_bind; [|auto 10 with quiet].
  intros s. split; [|done]. by split.
Qed.

(** What a load sees. *)
Lemma post_load {A} (f : CallEvents Enc Dec Apm -> A) s (Q : result fault A -> call_state W Enc Dec Apm -> Prop) :
  (forall s', moves s s' -> Q (Ok (f (events s'))) s') -> post (load f) s Q.
Proof.
  intros HQ. pose proof (quiet_tick s) as Ht. unfold post, load, tick, mbind, stM_bind, gets in *.
  destruct (background _) as [w evs]. by apply HQ.
Qed.

(** ** Which candidates are signalled *)

Definition candidates s : list rstring := ev_ice (events s).

(** [sent] are the candidates the peer was told of: nothing but gathered
    candidates, in their order and each at most once, none of them direct; and,
    unless a direct candidate was gathered, all of those before [ice_sent]. *)
Record signalled (sent : list rstring) s : Prop := mk_signalled {
  sent_gathered : sent `sublist_of` takeN (ice_sent s) (candidates s);
  sent_bound : ice_sent s <= lenN (candidates s);
  sent_relay : Forall nondirect sent;
  sent_all : Forall nondirect (candidates s) -> sent = takeN (ice_sent s) (candidates s)
}.

Lemma signalled_moves sent s s' : signalled sent s -> moves s s' -> signalled sent s'.
Proof.
  intros [Hg Hb Hr Ha] [[[k Hk] _ _ _] Hi]. unfold candidates in *.
  assert (takeN (ice_sent s') (ev_ice (events s')) = takeN (ice_sent s) (ev_ice (events s))) as Ht.
  { rewrite Hi, Hk. by apply takeN_app_le. }
  split; unfold candidates; rewrite ?Ht, ?Hi; auto.
  - rewrite Hk, lenN_app. lia.
  - rewrite Hk, Forall_app. intros [? _]. by apply Ha.
Qed.

Lemma nondirect_dec ice : Forall nondirect ice \/ ~ Forall nondirect ice.
Proof.
  rewrite <- reject_direct_ice_spec. destruct (reject_direct_ice_cases ice) as [->| ->]; [by left | right; done].
Qed.

Lemma take_unsent_signalled sent s :
  signalled sent s ->
  post take_unsent_ice s (fun r s' =>
    signalled (sent ++ default [] (ok r)) s' /\
    (is_ok r = true -> forbidden (events s) = false /\ ice_sent s' = lenN (candidates s'))).
Proof.
  intros Hs. unfold take_unsent_ice. rewrite post_bind. apply post_load. intros s1 Hm1. cbv beta iota.
  pose proof (signalled_moves _ _ _ Hs Hm1) as Hs1. destruct (forbidden (events s1)) eqn:Ef.
  { unfold fail. rewrite post_throw. cbn. by rewrite app_nil_r. }
  assert (forbidden (events s) = false) as Ef0.
  { destruct Hm1 as [[_ Hf _ _] _]. destruct (forbidden (events s)); [|done]. by rewrite Hf in Ef. }
  rewrite post_bind. apply post_load. intros s2 Hm2. cbv beta iota. wp.
  pose proof (signalled_moves _ _ _ Hs1 Hm2) as [Hg Hb Hr Ha]. fold (candidates s2).
  destruct (lenN (candidates s2) <=? ice_sent s2) eqn:El; wp.
  { cbn. rewrite app_nil_r. split; [by split|]. intros _. split; [done | lia]. }
  set (extra := dropN (ice_sent s2) (candidates s2)).
  pose proof (takeN_dropN (ice_sent s2) (candidates s2)) as Hsplit. fold extra in Hsplit.
  unfold core. wp. destruct (reject_direct_ice extra) as [[]|] eqn:Er; wp; cbn [map_err ok is_ok default].
  - apply reject_direct_ice_spec in Er. split; [|done].
    split; unfold candidates; cbn; fold (candidates s2); rewrite ?takeN_ge by done; [|done| |].
    + rewrite <- Hsplit at 1. by apply sublist_app.
    + by apply Forall_app.
    + intros Hall. rewrite (Ha Hall). apply Hsplit.
  - rewrite app_nil_r. split; [|done]. split; unfold candidates; cbn; fold (candidates s2); rewrite ?takeN_ge by done; [|done|done|].
    + etrans; [exact Hg|]. apply sublist_take.
    + rewrite <- Hsplit. intros [_ Hx]%Forall_app. apply reject_direct_ice_spec in Hx. congruence.
Qed.

(** ** Runs of a call *)

Inductive call_op : Type :=
| OpBackground
| OpTakeUnsent
| OpApplyAnswer (remote : LocalSignal)
| OpAddRemoteIce (ice : list rstring)
| OpWaitConnected
| OpSendSilence (n : nat)
| OpSendCapture (n : nat)
| OpPushCapture (samples : list Z) (sample_rate channels : N)
| OpPullPlayback (max_samples : N)
| OpClose.

(** The state after the operation, and the candidates it hands to the client to
    send. *)
Definition quiet_op c (op : call_op) : callM unit :=
  match op with
  | OpBackground | OpTakeUnsent => tick
  | OpApplyAnswer remote => apply_answer c remote
  | OpAddRemoteIce ice => add_remote_ice c ice
  | OpWaitConnected => wait_connected
  | OpSendSilence n => send_silence_frames n c
  | OpSendCapture n => send_capture_frames n c
  | OpPushCapture samples rate ch => push_capture_pcm samples rate ch
  | OpPullPlayback n => pull_playback_pcm n ;; mret tt
  | OpClose => close c
  end.

Definition call_exec c (op : call_op) s : call_state W Enc Dec Apm * list rstring :=
  match op with
  | OpTakeUnsent => let '(s', r) := take_unsent_ice s in (s', default [] (ok r))
  | _ => ((quiet_op c op s).1, [])
  end.

Fixpoint call_run c (ops : list call_op) s : call_state W Enc Dec Apm * list rstring :=
  match ops with
  | [] => (s, [])
  | op :: ops =>
      let '(s1, out) := call_exec c op s in
      let '(s2, outs) := call_run c ops s1 in (s2, out ++ outs)
  end.

Lemma quiet_op_moves c op : quiet (quiet_op c op).
Proof.
  destruct op; cbn; auto using quiet_tick, quiet_apply_answer, quiet_add_ice, quiet_wait_connected, quiet_close.
  - apply quiet_add_ice.
  - apply quiet_send_frames, quiet_ret.
  - apply quiet_send_frames, quiet_capture_payload.
  - apply quiet_with_audio.
  - apply quiet_bind; [apply quiet_with_audio | intros; apply quiet_ret].
Qed.

Lemma call_exec_signalled c op sent s :
  signalled sent s -> signalled (sent ++ (call_exec c op s).2) (call_exec c op s).1.
Proof.
  intros Hs. destruct op; cbn [call_exec];
    try (cbn [fst snd]; rewrite app_nil_r; eapply signalled_moves; [exact Hs | apply quiet_op_moves]).
  pose proof (take_unsent_signalled sent s Hs) as Ht. unfold post in Ht.
  destruct (take_unsent_ice s) as [s' r]. apply Ht.
Qed.

Lemma call_run_signalled c ops sent s :
  signalled sent s -> signalled (sent ++ (call_run c ops s).2) (call_run c ops s).1.
Proof.
  revert sent s. induction ops as [|op ops IH]; intros sent s Hs; cbn [call_run]; [by rewrite app_nil_r|].
  pose proof (call_exec_signalled c op sent s Hs) as H1'. destruct (call_exec c op s) as [s1 out]. cbn [fst snd] in *.
  specialize (IH _ _ H1'). destruct (call_run c ops s1) as [s2 outs]. cbn [fst snd] in *. by rewrite app_assoc.
Qed.

(** ** Setting a call up *)

Lemma post_weaken {A} (m : callM A) s (Q : result fault A -> call_state W Enc Dec Apm -> Prop) :
  (forall r s', Q r s') -> post m s Q.
Proof. unfold post. auto. Qed.

(** What a call that could be set up holds: its own description carries its
    fingerprint, and the snapshot of its candidates is what [ice_sent] counts. *)
Definition set_up (cid : CallId) c s : Prop :=
  call_id c = cid /\ ls_call_id (local c) = cid /\
  fingerprint_from_sdp (ls_sdp (local c)) = Ok (ls_dtls_fp (local c)) /\
  ls_ice (local c) <> [] /\ signalled (ls_ice (local c)) s /\ ice_sent s = lenN (ls_ice (local c)).

Lemma snapshot_set_up p sr cid s s' c : snapshot p sr cid s = (s', Ok c) -> set_up cid c s'.
Proof.
  intros Hr. apply stM_bind_ok in Hr as (s1 & [] & _ & Hr). apply stM_bind_ok in Hr as (s2 & fb & _ & Hr).
  destruct fb; [apply stM_bind_ok in Hr as (? & ? & _ & [=])|].
  apply stM_bind_ok in Hr as (s3 & ice & Hl & Hr).
  assert (ice = candidates s3) as ->.
  { apply stM_bind_ok in Hl as (s4 & [] & _ & Hl). unfold gets in Hl. by simplify_eq. }
  clear Hl. apply stM_bind_ok in Hr as (s4 & [] & Hd & Hr). unfold core, lift in Hd. injection Hd as <- Hd.
  destruct (reject_direct_ice_cases (candidates s3)) as [Hn|Hn]; rewrite Hn in Hd; [|done]. clear Hd.
  apply reject_direct_ice_spec in Hn.
  destruct (lenN (candidates s3) =? 0) eqn:E; [apply stM_bind_ok in Hr as (? & ? & _ & [=])|].
  apply stM_bind_ok in Hr as (s5 & desc & Hw & Hr).
  pose proof (quiet_await (pc_local_description p) s3) as [[[k Hk] _ _ _] _]. rewrite Hw in Hk. cbn [fst] in Hk.
  apply stM_bind_ok in Hr as (s6 & sdp & Hsdp & Hr). unfold core, lift in Hsdp. injection Hsdp as <- _.
  apply stM_bind_ok in Hr as (s7 & fp & Hfp & Hr). unfold core, lift in Hfp. injection Hfp as <- Hfp.
  apply stM_bind_ok in Hr as (s8 & [] & Hm & Hr). unfold modify in Hm. injection Hm as <-.
  injection Hr as <- <-. unfold set_up. cbn -[candidates].
  assert (fingerprint_from_sdp sdp = Ok fp) as Hfp' by (destruct (fingerprint_from_sdp sdp); cbn in Hfp; congruence).
  split_and!; try done; [intros Hnil; rewrite Hnil in E; done|].
  split; unfold candidates in *; cbn; rewrite ?Hk, ?takeN_app_le, ?takeN_ge by done; try done.
  rewrite lenN_app. lia.
Qed.

Lemma call_create_ok turn cid remote cbr s s' c :
  create turn cid remote cbr s = (s', Ok c) ->
  set_up cid c s' /\ (forall r, remote = Some r -> verify_fingerprint (ls_sdp r) (ls_dtls_fp r) = Ok tt).
Proof.
  intros Hr. do 7 apply stM_bind_ok in Hr as (? & ? & _ & Hr).
  apply stM_bind_ok in Hr as (s1 & [] & Hn & Hr). split; [by eapply snapshot_set_up|].
  intros r ->. apply stM_bind_ok in Hn as (? & [] & Hv & _). unfold core, lift in Hv.
  destruct (verify_fingerprint _ _) as [[]|]; [done | discriminate].
Qed.

(** C29. A call that could be set up carries its own identifier and
    fingerprint and at least one candidate; one that answers has checked the
    offer against the fingerprint the peer signed for. From then on, whatever
    happens to the call, the candidates handed out for sending are gathered
    ones in their order, each at most once and none of them a direct one; when
    no direct candidate was gathered, nothing before [ice_sent] is left out. *)
Theorem candidates_signalled_once turn cid remote cbr s0 s1 c ops :
  create turn cid remote cbr s0 = (s1, Ok c) ->
  call_id c = cid /\ fingerprint_from_sdp (ls_sdp (local c)) = Ok (ls_dtls_fp (local c)) /\
  ls_ice (local c) <> [] /\
  (forall r, remote = Some r -> verify_fingerprint (ls_sdp r) (ls_dtls_fp r) = Ok tt) /\
  signalled (ls_ice (local c) ++ (call_run c ops s1).2) (call_run c ops s1).1.
Proof.
  intros Hc. destruct (call_create_ok _ _ _ _ _ _ _ Hc) as ((Hid & _ & Hfp & Hne & Hs & _) & Hr).
  split_and!; try done. by apply call_run_signalled.
Qed.

(** An answer for another call, or one whose description does not carry the
    signed fingerprint, does not reach the connection. *)
Theorem wrong_answer_changes_nothing c remote s :
  ls_call_id remote <> call_id c \/ verify_fingerprint (ls_sdp remote) (ls_dtls_fp remote) <> Ok tt ->
  (apply_answer c remote s).1 = s /\ is_ok (apply_answer c remote s).2 = false.
Proof.
  intros Hw. unfold apply_answer. case_bool_decide as Hid; cbn [negb]; [|done].
  destruct Hw as [Hw|Hw]; [done|]. unfold mbind at 1 4, stM_bind at 1 4, core, lift.
  destruct (verify_fingerprint _ _) as [[]|]; done.
Qed.

(** After the call is closed no sample is written: the loop sees the flag before
    its first frame. *)
Theorem closed_call_sends_nothing n c payload s :
  ev_closed (events s) = true ->
  (send_frames n c payload s).2 = Ok tt /\
  ((send_frames n c payload s).1 = s \/ (send_frames n c payload s).1 = (tick s).1).
Proof.
  intros Hc. destruct n as [|n]; cbn [send_frames]; [by auto|].
  pose proof (quiet_tick s) as [[_ _ _ Hq] _]. specialize (Hq Hc).
  unfold load, mbind, stM_bind, gets. unfold post in Hq. destruct (tick s) as [s' [[]|]] eqn:E.
  - cbn [fst] in *. rewrite Hq. auto.
  - unfold tick in E. by destruct (background _).
Qed.

(** ** The loops end *)

Context `{!MediaClock W P}.

Definition now s : N := instant_ms (media s).

Lemma post_load_time {A} (f : CallEvents Enc Dec Apm -> A) s (Q : result fault A -> call_state W Enc Dec Apm -> Prop) :
  (forall a s', now s <= now s' -> Q (Ok a) s') -> post (load f) s Q.
Proof.
  intros HQ. unfold post, load, tick, mbind, stM_bind, gets. pose proof (background_time (media s)) as Ht.
  destruct (background _) as [w evs]. by apply HQ.
Qed.

Lemma post_pause n s (Q : result fault unit -> call_state W Enc Dec Apm -> Prop) :
  (forall s', now s + n <= now s' -> Q (Ok tt) s') -> post (await (fun w => (pause_ms n w, tt))) s Q.
Proof.
  intros HQ. unfold post, await, tick, mbind, stM_bind, mret, stM_ret. cbn.
  pose proof (background_time (pause_ms n (media s))) as Ht. pose proof (pause_time n (media s)) as Hp.
  destruct (background _) as [w evs]. apply HQ. unfold now. cbn in *. lia.
Qed.

Notation not_stuck := (fun r (_ : call_state W Enc Dec Apm) => r <> @Err fault unit OutOfFuel).

(** The turns left cover the time left. *)
Definition covers (fuel : nat) (deadline : N) s : Prop :=
  (0 < fuel)%nat /\ deadline + 50 <= now s + 50 * N.of_nat fuel.

Lemma wait_fuel_covers timeout s : covers (wait_fuel timeout) (now s + timeout) s.
Proof.
  unfold covers, wait_fuel. pose proof (N.mod_upper_bound timeout 50). pose proof (N.div_mod timeout 50). lia.
Qed.

Lemma covers_next fuel deadline s s' :
  covers (S fuel) deadline s -> now s < deadline -> now s + 50 <= now s' -> covers fuel deadline s'.
Proof. unfold covers. lia. Qed.

Lemma covers_later fuel deadline s s' : covers fuel deadline s -> now s <= now s' -> covers fuel deadline s'.
Proof. unfold covers. lia. Qed.

Lemma wait_flag_loop_ends fuel (flag : CallEvents Enc Dec Apm -> bool) deadline what s :
  covers fuel deadline s -> post (wait_flag_loop fuel flag deadline what) s not_stuck.
Proof.
  revert s. induction fuel as [|fuel IH]; intros s Hc; [destruct Hc; lia|]. cbn [wait_flag_loop].
  rewrite post_bind. apply post_load_time. intros up s1 Hs1. destruct up; wp; [done|].
  change (instant_ms (media s1)) with (now s1). case_match eqn:G; [done|].
  wp. apply post_pause. intros s2 Hs2. apply IH.
  eapply (covers_next fuel deadline s1); [by eapply covers_later | lia | done].
Qed.

Lemma wait_first_relay_loop_ends fuel deadline s :
  covers fuel deadline s -> post (wait_first_relay_loop fuel deadline) s not_stuck.
Proof.
  revert s. induction fuel as [|fuel IH]; intros s Hc; [destruct Hc; lia|]. cbn [wait_first_relay_loop].
  rewrite post_bind. apply post_load_time. intros fb s1 Hs1. destruct fb; [done|].
  rewrite post_bind. apply post_load_time. intros n s2 Hs2. cbv beta iota. case_match; [done|].
  rewrite post_bind. apply post_load_time. intros gd s3 Hs3. destruct gd; wp; [done|].
  change (instant_ms (media s3)) with (now s3). case_match eqn:G; [done|].
  wp. apply post_pause. intros s4 Hs4. apply IH.
  eapply (covers_next fuel deadline s3); [eapply covers_later; [exact Hc | lia] | lia | done].
Qed.

(** Calls without a loop of their own do not run out of fuel. *)
Definition ends {A} (m : callM A) : Prop := forall s, (m s).2 <> Err OutOfFuel.

Lemma ends_bind {A B} (m : callM A) (k : A -> callM B) : ends m -> (forall a, ends (k a)) -> ends (m ≫= k).
Proof.
  intros Hm Hk s. unfold mbind, stM_bind. specialize (Hm s). destruct (m s) as [s1 [a|]]; [apply Hk|].
  cbn in *. congruence.
Qed.

Lemma ends_ret {A} (a : A) : ends (mret a). Proof. by intros s. Qed.
Lemma ends_fail {A} err : ends (fail err : callM A). Proof. by intros s. Qed.
Lemma ends_modify f : ends (modify f). Proof. by intros s. Qed.
Lemma ends_core {A} (r : cresult A) : ends (core r). Proof. intros s. destruct r; cbn; congruence. Qed.
Lemma ends_lift_call {A} (r : result message_text A) : ends (lift (call_err r)). Proof. intros s. destruct r; cbn; congruence. Qed.

Lemma ends_await {A} (op : W -> W * A) : ends (await op : callM A).
Proof.
  intros s. unfold await, tick, mbind, stM_bind. destruct (op _). cbn. by destruct (background _).
Qed.

Lemma ends_await_call {A} (op : W -> W * result message_text A) : ends (await_call op : callM A).
Proof. apply ends_bind; [apply ends_await | intros; apply ends_lift_call]. Qed.

Lemma ends_load {A} (f : CallEvents Enc Dec Apm -> A) : ends (load f : callM A).
Proof. intros s. unfold load, tick, mbind, stM_bind. by destruct (background _). Qed.

Lemma ends_if {A} (b : bool) (m n : callM A) : ends m -> ends n -> ends (if b then m else n).
Proof. by destruct b. Qed.

Lemma ends_for_each {A} (xs : list A) (body : A -> callM unit) : (forall x, ends (body x)) -> ends (for_each xs body).
Proof. intros Hb. induction xs; cbn; [apply ends_ret | apply ends_bind; auto]. Qed.

Lemma ends_wait_first_relay timeout : ends (wait_first_relay timeout : callM unit).
Proof. intros s. unfold wait_first_relay. apply (wait_first_relay_loop_ends _ _ s), wait_fuel_covers. Qed.

Lemma ends_wait_flag (flag : CallEvents Enc Dec Apm -> bool) timeout what : ends (wait_flag flag timeout what : callM unit).
Proof. intros s. unfold wait_flag. apply (wait_flag_loop_ends _ _ _ _ s), wait_fuel_covers. Qed.

Create HintDb ends discriminated.
#[local] Hint Resolve ends_bind ends_ret ends_fail ends_modify ends_core ends_lift_call ends_await ends_await_call ends_load
  ends_if ends_for_each ends_wait_first_relay ends_wait_flag : ends.

Lemma ends_add_ice p ice : ends (add_ice p ice).
Proof. unfold add_ice. auto with ends. Qed.
#[local] Hint Resolve ends_add_ice : ends.

Lemma ends_negotiate p remote : ends (negotiate p remote).
Proof. destruct remote; cbn; auto 15 with ends. Qed.

Lemma ends_snapshot p sr cid : ends (snapshot p sr cid).
Proof. unfold snapshot. auto 20 with ends. Qed.
#[local] Hint Resolve ends_negotiate ends_snapshot : ends.

End CallLemmas.

(** ** Witnesses *)

Module ToyMedia.
(** A library that, once a connection exists, reports one batch of events at
    each step. *)
Record world : Type := mk_world { clock : N; built : bool; pending : list (list call_event) }.

Definition deliver (w : world) : world * list call_event :=
  if built w then
    match pending w with
    | evs :: rest => (mk_world (clock w) true rest, evs)
    | [] => (w, [])
    end
  else (w, []).

Definition toy_sdp : rstring :=
  exist _ (String.list_byte_of_string "v=0" ++ [x0d; x0a] ++
           String.list_byte_of_string "a=fingerprint:sha-256 AA:BB" ++ [x0d; x0a]) eq_refl.

#[global] Instance lib : MediaLib world unit := {
  background := deliver;
  media_setup w := (w, Ok tt);
  pc_build _ _ w := (mk_world (clock w) true (pending w), Ok tt);
  track_new _ w := (w, Ok tt);
  pc_add_track _ _ w := (w, Ok tt);
  session_description _ sdp := Ok sdp;
  pc_set_remote _ _ _ w := (w, Ok tt);
  pc_add_ice _ _ w := (w, Ok tt);
  pc_create_offer _ w := (w, Ok toy_sdp);
  pc_create_answer _ w := (w, Ok toy_sdp);
  pc_set_local _ _ w := (w, Ok tt);
  pc_local_description _ w := (w, Some toy_sdp);
  pc_close _ w := (w, Ok tt);
  write_sample _ _ _ _ w := (w, Ok tt);
  rng_call_id w := (w, arr_repeat 16 x07);
  rng_ssrc w := (w, 5);
  instant_ms := clock;
  pause_ms n w := mk_world (clock w + n) (built w) (pending w)
}.

#[global] Instance lib_clock : MediaClock world unit.
Proof. split; [intros [? [] []] | intros n w]; cbn; lia. Qed.

Definition relay (n : message_text) : call_event := OnIceCandidate CandRelay (from_utf8 (String.list_byte_of_string n)).
Definition relay1 : call_event := relay "candidate:1 1 udp 1 192.0.2.1 9 typ relay".
Definition relay2 : call_event := relay "candidate:2 1 udp 1 192.0.2.2 9 typ relay".

Definition toy_audio : AudioEngine unit unit unit := mk_audio [] [] (mk_opus tt tt) (Some tt).

Definition start (evs : list (list call_event)) : call_state world unit unit unit :=
  mk_cst (mk_world 0 false evs) (mk_call_events [] false false false 0 false toy_audio) 0.

Definition turn : TurnConfig := mk_turn_config (lit "turn:192.0.2.9") (lit "u") (lit "p") (lit "0.0.0.0:0").
Definition peer : LocalSignal := mk_signal (arr_repeat 16 x07) toy_sdp (lit "sha-256 aa:bb") [].

(** The first candidate arrives while the call waits, the second one while it is
    in use. *)
Definition late : list (list call_event) := replicate 16 [] ++ [[relay1]] ++ replicate 4 [] ++ [[relay2]].
End ToyMedia.

Import ToyMedia.

(** How many candidates the set-up and the next steps signal. *)
Definition toy_counts (r : call_state world unit unit unit * result fault (Call unit)) : option (N * N) :=
  match r.2 with
  | Ok c => Some (lenN (ls_ice (local c)), lenN (call_run c [OpBackground; OpTakeUnsent; OpTakeUnsent] r.1).2)
  | Err _ => None
  end.

Lemma candidates_signalled_once_witness :
  exists s1 c, create turn (arr_repeat 16 x07) (Some peer) true (start late) = (s1, Ok c) /\
    lenN (ls_ice (local c)) = 1 /\ lenN (call_run c [OpBackground; OpTakeUnsent; OpTakeUnsent] s1).2 = 1 /\
    signalled (ls_ice (local c) ++ (call_run c [OpBackground; OpTakeUnsent; OpTakeUnsent] s1).2)
      (call_run c [OpBackground; OpTakeUnsent; OpTakeUnsent] s1).1.
Proof.
  assert (toy_counts (create turn (arr_repeat 16 x07) (Some peer) true (start late)) = Some (1, 1)) as Hn
    by (vm_compute; reflexivity).
  destruct (create turn (arr_repeat 16 x07) (Some peer) true (start late)) as [s1 [c|]] eqn:E; [|discriminate Hn].
  exists s1, c. unfold toy_counts in Hn. cbn [fst snd] in Hn. injection Hn as Hn1 Hn2.
  split_and!; [done | exact Hn1 | exact Hn2|].
  apply (candidates_signalled_once _ _ _ _ _ _ _ [OpBackground; OpTakeUnsent; OpTakeUnsent] E).
Defined.


(** Without an event the set-up times out. *)
Example no_candidate_times_out :
  (create turn (arr_repeat 16 x07) None true (start [])).2 = Err (Fail (CallError "ICE gathering timed out")).
Proof. vm_compute. reflexivity. Qed.

(** A host candidate among the events makes the set-up fail. *)
Example host_candidate_forbidden :
  (create turn (arr_repeat 16 x07) None true (start (replicate 12 [] ++ [[relay1; OnIceCandidate CandHost None]]))).2 =
  Err (Fail DirectIceForbidden).
Proof. vm_compute. reflexivity. Qed.

(** The comparison drops everything but hexadecimal digits, those of the
    algorithm's name included: a fingerprint is not bound to where the name
    ends, and only the first fingerprint of the description is compared. *)
Example fingerprint_name_not_separated :
  fingerprints_match (lit "sha-256 AA:BB") (lit "a2:56:aa:bb") = true /\
  verify_fingerprint
    (exist _ (String.list_byte_of_string "a=fingerprint:sha-256 AA" ++ [x0a] ++
              String.list_byte_of_string "a=fingerprint:sha-256 CC") eq_refl) (lit "sha-256 aa") = Ok tt.
Proof. split; vm_compute; reflexivity. Qed.
