(* ===== verification/FfiInbox.v ===== *)
(** * The inbox of the application

    The parts of [nemo-ffi/src/lib.rs] that keep what the shell displays: the
    rows of all conversations, the sequence numbers, the delivery and read marks,
    nicknames and timers, and the changes that an application message makes to
    them. In the code these are fields of [Inner]; here they are the record
    [Shelf], which [FfiClient] embeds. *)

From S2P Require Import CoreErr AppMsg Origin Turn Vault.

(** ** Rows *)

Record DisplayRow : Type := mk_row {
  conv_id : rstring;
  row_conv_seq : N;
  text : rstring;
  row_sent_at : N;
  file_name : rstring;
  file_mime : rstring;
  file_bytes : bytes;
  fetch_token : rstring;
  kind : rstring;
  emoji : rstring;
  target : N;
  hidden : bool;
  displayed_at : N;
  outgoing : bool;
  sender_id : rstring;
  sender_name : rstring;
  row_reply_to : N
}.

#[global] Instance DisplayRow_eq_decision : EqDecision DisplayRow.
Proof. solve_decision. Defined.

Definition eta_row (r : DisplayRow) : DisplayRow :=
  mk_row (conv_id r) (row_conv_seq r) (text r) (row_sent_at r) (file_name r) (file_mime r) (file_bytes r) (fetch_token r)
    (kind r) (emoji r) (target r) (hidden r) (displayed_at r) (outgoing r) (sender_id r) (sender_name r) (row_reply_to r).
#[global] Instance conv_id_field : Field conv_id := ltac:(derive_field eta_row conv_id).
#[global] Instance text_field : Field text := ltac:(derive_field eta_row text).
#[global] Instance file_bytes_field : Field file_bytes := ltac:(derive_field eta_row file_bytes).
#[global] Instance kind_field : Field kind := ltac:(derive_field eta_row kind).
#[global] Instance hidden_field : Field hidden := ltac:(derive_field eta_row hidden).
#[global] Instance sender_id_field : Field sender_id := ltac:(derive_field eta_row sender_id).
#[global] Instance sender_name_field : Field sender_name := ltac:(derive_field eta_row sender_name).
#[global] Instance row_reply_to_field : Field row_reply_to := ltac:(derive_field eta_row row_reply_to).

Definition to_inbox_row (r : DisplayRow) : InboxRow :=
  mk_inbox_row (conv_id r) (row_conv_seq r) (text r) (row_sent_at r) (file_name r) (file_mime r) (file_bytes r)
    (fetch_token r) (kind r) (emoji r) (target r) (hidden r) (displayed_at r) (outgoing r) (sender_id r) (sender_name r)
    (row_reply_to r).

Definition from_inbox_row (r : InboxRow) : DisplayRow :=
  mk_row (ib_conv_id r) (ib_conv_seq r) (ib_text r) (ib_sent_at r) (ib_file_name r) (ib_file_mime r) (ib_file_bytes r)
    (ib_fetch_token r) (ib_kind r) (ib_emoji r) (ib_target r) (ib_hidden r) (ib_displayed_at r) (ib_outgoing r)
    (ib_sender_id r) (ib_sender_name r) (ib_reply_to r).

Definition REACTION : rstring := lit "reaction".
Definition DELETED : rstring := lit "deleted".
Definition EXPIRED : rstring := lit "expired".

(** ** The shelf *)

Record Shelf : Type := mk_shelf {
  inbox : list DisplayRow;
  next_seq : gmap rstring N;
  acked : gmap rstring N;
  read : gmap rstring N;
  group_read : gmap rstring (gmap rstring N);
  names : gmap rstring rstring;
  timers : gmap rstring N
}.

Definition eta_shelf (s : Shelf) : Shelf :=
  mk_shelf (inbox s) (next_seq s) (acked s) (read s) (group_read s) (names s) (timers s).
#[global] Instance inbox_field : Field inbox := ltac:(derive_field eta_shelf inbox).
#[global] Instance next_seq_field : Field next_seq := ltac:(derive_field eta_shelf next_seq).
#[global] Instance acked_field : Field acked := ltac:(derive_field eta_shelf acked).
#[global] Instance read_field : Field read := ltac:(derive_field eta_shelf read).
#[global] Instance group_read_field : Field group_read := ltac:(derive_field eta_shelf group_read).
#[global] Instance names_field : Field names := ltac:(derive_field eta_shelf names).
#[global] Instance timers_field : Field timers := ltac:(derive_field eta_shelf timers).

Definition empty_shelf : Shelf := mk_shelf [] ∅ ∅ ∅ ∅ ∅ ∅.

Definition seq_of (conv : rstring) (s : Shelf) : N := default 0 (next_seq s !! conv).

(** [bump_seq]; the addition of the release build wraps. *)
Definition bump_seq (conv : rstring) (s : Shelf) : N * Shelf :=
  let n := u64_add (seq_of conv s) 1 in (n, s <| next_seq ::= <[conv := n]> |>).

(** [if conv_seq > seq { next_seq.insert(conv, conv_seq) }]. *)
Definition raise_seq (conv : rstring) (sq : N) (s : Shelf) : Shelf :=
  if seq_of conv s <? sq then s <| next_seq ::= <[conv := sq]> |> else s.

Definition push_row (r : DisplayRow) (s : Shelf) : Shelf * DisplayRow :=
  (s <| inbox ::= fun rows => rows ++ [r] |>, r).

(** [push_text]. *)
Definition push_text (conv : rstring) (sq : N) (txt : rstring) (at_ reply : N) (out : bool) (s : Shelf) : Shelf * DisplayRow :=
  push_row (mk_row conv sq txt at_ (lit "") (lit "") [] (lit "") (lit "") (lit "") 0 false at_ out (lit "") (lit "") reply)
    (raise_seq conv sq s).

(** [push_file]. *)
Definition push_file (conv : rstring) (sq at_ : N) (meta : FileMeta) (data : bytes) (token : rstring) (reply : N) (out : bool)
    (s : Shelf) : Shelf * DisplayRow :=
  push_row (mk_row conv sq (meta_name meta) at_ (meta_name meta) (meta_mime meta) data token (lit "file") (lit "") 0 false at_
              out (lit "") (lit "") reply)
    (raise_seq conv sq s).

(** [push_control]. *)
Definition control_row (conv : rstring) (sq at_ : N) (k : rstring) (em : rstring) (tgt : N) (out : bool) : DisplayRow :=
  let shown := str_is k (lit "disappear") || starts_with (as_bytes (lit "call_")) (as_bytes k) || str_is k (lit "binding_conflict") in
  mk_row conv sq (if shown then em else lit "") at_ (lit "") (lit "") [] (lit "") k em tgt false at_ out (lit "") (lit "") 0.

Definition push_control (conv : rstring) (sq at_ : N) (k em : rstring) (tgt : N) (out : bool) (s : Shelf) : Shelf * DisplayRow :=
  push_row (control_row conv sq at_ k em tgt out) (raise_seq conv sq s).

(** ** Deleting, reacting, expiring *)

(** What [remove_target] keeps; the clause on expired rows of the code is
    constantly false. *)
Definition kept (conv : rstring) (tgt : N) (r : DisplayRow) : bool :=
  if negb (str_is (conv_id r) conv) then true
  else if (row_conv_seq r =? tgt) && negb (str_is (kind r) REACTION) then false
  else if str_is (kind r) REACTION && (target r =? tgt) then false
  else if str_is (kind r) DELETED && (target r =? tgt) then false
  else true.

Definition quotes (conv : rstring) (tgt : N) (r : DisplayRow) : bool :=
  str_is (conv_id r) conv && (row_reply_to r =? tgt) && negb (tgt =? 0).

Definition clear_quote (conv : rstring) (tgt : N) (r : DisplayRow) : DisplayRow :=
  if quotes conv tgt r then r <| row_reply_to := 0 |> else r.

Definition remove_target (conv : rstring) (tgt : N) (rows : list DisplayRow) : list DisplayRow * bool :=
  let left := List.filter (kept conv tgt) rows in
  (map (clear_quote conv tgt) left, negb (lenN left =? lenN rows) || existsb (quotes conv tgt) left).

(** [drop_legacy_tombstones]. *)
Definition drop_legacy_tombstones (rows : list DisplayRow) : list DisplayRow :=
  let left := List.filter (fun r => negb (str_is (kind r) DELETED)) rows in
  let present r := existsb (fun q => str_is (conv_id q) (conv_id r) && (row_conv_seq q =? row_reply_to r)) left in
  map (fun r => if negb (row_reply_to r =? 0) && negb (present r) then r <| row_reply_to := 0 |> else r) left.

(** The rows [take_matching_reaction] looks for. *)
Definition matching_reaction (conv : rstring) (tgt : N) (em : rstring) (out : bool) (sender : rstring) (r : DisplayRow) : bool :=
  str_is (conv_id r) conv && str_is (kind r) REACTION && (target r =? tgt) && str_is (emoji r) em
  && (if out then outgoing r else negb (outgoing r) && str_is (sender_id r) sender).

(** [Vec::remove] at the first position that satisfies [f]. *)
Fixpoint remove_first (f : DisplayRow -> bool) (rows : list DisplayRow) : option (list DisplayRow) :=
  match rows with
  | [] => None
  | r :: rows => if f r then Some rows else cons r <$> remove_first f rows
  end.

Definition take_matching_reaction (conv : rstring) (tgt : N) (em : rstring) (out : bool) (sender : rstring) (s : Shelf) : Shelf * bool :=
  match remove_first (matching_reaction conv tgt em out sender) (inbox s) with
  | Some rows => (s <| inbox := rows |>, true)
  | None => (s, false)
  end.

Definition removed_marker (conv : rstring) (tgt at_ : N) (out : bool) : DisplayRow :=
  mk_row conv tgt (lit "") at_ (lit "") (lit "") [] (lit "") (lit "removed") (lit "") tgt false at_ out (lit "") (lit "") 0.

Definition reaction_removed_marker (conv : rstring) (tgt : N) (em : rstring) (at_ : N) (out : bool) : DisplayRow :=
  mk_row conv 0 (lit "") at_ (lit "") (lit "") [] (lit "") (lit "reaction_removed") em tgt false at_ out (lit "") (lit "") 0.

(** One row of [apply_expire_inbox] and [expire_now]. *)
Definition expires (timers : gmap rstring N) (now : N) (r : DisplayRow) : bool :=
  let secs := default 0 (timers !! conv_id r) in
  negb (hidden r) && (0 <? secs) && (secs <=? saturating_sub now (displayed_at r)).

Definition expire_row (r : DisplayRow) : DisplayRow :=
  r <| hidden := true |> <| kind := EXPIRED |> <| text := lit "" |> <| file_bytes := [] |>.

Definition apply_expire_inbox (now : N) (s : Shelf) : Shelf * bool :=
  (s <| inbox := map (fun r => if expires (timers s) now r then expire_row r else r) (inbox s) |>,
   existsb (expires (timers s) now) (inbox s)).

(** The rows [expire_now] returns. *)
Definition expired_rows (now : N) (s : Shelf) : list DisplayRow :=
  map expire_row (List.filter (expires (timers s) now) (inbox s)).

(** [ttl_for]. *)
Definition ttl_for (conv : rstring) (s : Shelf) : TtlBucket :=
  let secs := default 0 (timers s !! conv) in
  if secs =? 0 then TTL_DEFAULT else if secs <=? 60 then TTL_SECONDS_60 else TTL_HOUR.

(** [remap_conv_id]. *)
Definition move_entry {A} (from to : rstring) (merge : option A -> A -> A) (m : gmap rstring A) : gmap rstring A :=
  match m !! from with
  | Some a => let m := delete from m in <[to := merge (m !! to) a]> m
  | None => m
  end.

Definition rename_row (from to : rstring) (r : DisplayRow) : DisplayRow :=
  if str_is (conv_id r) from then r <| conv_id := to |> else r.

Definition remap_conv_id (from to : rstring) (s : Shelf) : Shelf :=
  if str_is from to then s
  else
    s <| inbox ::= map (rename_row from to) |>
      <| next_seq ::= move_entry from to (fun e sq => N.max (default 0 e) sq) |>
      <| names ::= move_entry from to (fun e nick => default nick e) |>
      <| timers ::= move_entry from to (fun e secs => default secs e) |>.

(** ** Messages received *)

(** [entry(conv).and_modify(max).or_insert(mark)] with the mark clamped to the
    known sequence number. *)
Definition raise_mark (conv : rstring) (mark : N) (m : gmap rstring N) : gmap rstring N :=
  <[conv := match m !! conv with Some u => N.max u mark | None => mark end]> m.

Definition recv_ack (conv : rstring) (upto : N) (s : Shelf) : Shelf :=
  s <| acked ::= raise_mark conv (N.min upto (seq_of conv s)) |>.

Definition recv_read (conv : rstring) (upto : N) (s : Shelf) : Shelf :=
  s <| read ::= raise_mark conv (N.min upto (seq_of conv s)) |>.

(** The [Read] arm of a group; [sender] is not this client. *)
Definition recv_group_read (conv sender : rstring) (upto : N) (s : Shelf) : Shelf :=
  let mark := N.min upto (seq_of conv s) in
  if 0 <? mark then s <| group_read ::= fun m => <[conv := raise_mark sender mark (default ∅ (m !! conv))]> m |> else s.

(** [inbox.iter_mut().find(..)] of the reaction arms and the patch of the row
    it finds. *)
Fixpoint patch_first (f : DisplayRow -> bool) (g : DisplayRow -> DisplayRow) (rows : list DisplayRow) : list DisplayRow :=
  match rows with
  | [] => []
  | r :: rows => if f r then g r :: rows else r :: patch_first f g rows
  end.

Definition same_reaction (out : DisplayRow) (r : DisplayRow) : bool :=
  str_is (conv_id r) (conv_id out) && (row_conv_seq r =? row_conv_seq out) && str_is (kind r) REACTION.

(** The [Reaction] arms of [fetch_now] and [apply_group_mailbox_row]. *)
Definition recv_reaction (conv sender name : rstring) (h : AppHeader) (tgt : N) (em : rstring) (s : Shelf) : Shelf * DisplayRow :=
  let '(s, off) := take_matching_reaction conv tgt em false sender s in
  if (off : bool) then (raise_seq conv (conv_seq h) s, reaction_removed_marker conv tgt em (sent_at h) false)
  else
    let '(s, out) := push_control conv (conv_seq h) (sent_at h) REACTION em tgt false s in
    let out := out <| sender_id := sender |> <| sender_name := name |> in
    (s <| inbox ::= patch_first (same_reaction out) (fun r => r <| sender_id := sender |> <| sender_name := name |>) |>, out).

(** The [Delete] arms. *)
Definition recv_delete (conv : rstring) (h : AppHeader) (tgt : N) (s : Shelf) : Shelf * DisplayRow :=
  (raise_seq conv (conv_seq h) (s <| inbox ::= fun rows => (remove_target conv tgt rows).1 |>),
   removed_marker conv tgt (sent_at h) false).

(** The [Disappear] arms. *)
Definition recv_disappear (conv : rstring) (h : AppHeader) (seconds : N) (s : Shelf) : Shelf * DisplayRow :=
  push_control conv (conv_seq h) (sent_at h) (lit "disappear") (dec_string seconds) 0 false (s <| timers ::= <[conv := seconds]> |>).

(** ** Own actions *)

(** The local part of [react]: whether an own reaction was taken back, and the
    number of the message to send. *)
Definition react_local (conv : rstring) (tgt : N) (em : rstring) (s : Shelf) : Shelf * (bool * N) :=
  let '(s, off) := take_matching_reaction conv tgt em true (lit "") s in
  let '(n, s) := bump_seq conv s in (s, (off, n)).

Definition own_reaction (conv : rstring) (n now : N) (em : rstring) (tgt : N) : DisplayRow :=
  mk_row conv n (lit "") now (lit "") (lit "") [] (lit "") REACTION em tgt false now true (lit "") (lit "") 0.

Definition own_text (conv : rstring) (n now : N) (txt : rstring) (reply : N) : DisplayRow :=
  mk_row conv n txt now (lit "") (lit "") [] (lit "") (lit "") (lit "") 0 false now true (lit "") (lit "") reply.

(** The rows of one conversation. *)
Definition rows_of (conv : rstring) (rows : list DisplayRow) : list DisplayRow :=
  List.filter (fun r => str_is (conv_id r) conv) rows.

(** ** Deleting is complete and local *)

Lemma str_is_spec a b : str_is a b = true <-> a = b.
Proof. unfold str_is. apply bool_decide_eq_true. Qed.

Lemma str_is_false a b : str_is a b = false <-> a <> b.
Proof. unfold str_is. apply bool_decide_eq_false. Qed.

Lemma clear_quote_frame conv tgt r :
  conv_id (clear_quote conv tgt r) = conv_id r /\ row_conv_seq (clear_quote conv tgt r) = row_conv_seq r /\
  kind (clear_quote conv tgt r) = kind r /\ target (clear_quote conv tgt r) = target r.
Proof. unfold clear_quote. by case_match. Qed.

Lemma clear_quote_other conv tgt r : conv_id r <> conv -> clear_quote conv tgt r = r.
Proof. intros Hc. unfold clear_quote, quotes. by rewrite (proj2 (str_is_false _ _) Hc). Qed.

Lemma clear_quote_clears conv tgt r : conv_id r = conv -> tgt <> 0 -> row_reply_to (clear_quote conv tgt r) <> tgt.
Proof.
  intros Hc Ht. unfold clear_quote, quotes. rewrite (proj2 (str_is_spec _ _) Hc).
  destruct (row_reply_to r =? tgt) eqn:E; cbn [andb].
  - replace (tgt =? 0) with false by lia. cbn. congruence.
  - lia.
Qed.

Lemma kept_other conv tgt r : conv_id r <> conv -> kept conv tgt r = true.
Proof. intros Hc. unfold kept. by rewrite (proj2 (str_is_false _ _) Hc). Qed.

Lemma kept_spec conv tgt r :
  conv_id r = conv -> kept conv tgt r = true ->
  (kind r = REACTION \/ row_conv_seq r <> tgt) /\ (kind r = REACTION -> target r <> tgt).
Proof.
  intros Hc. unfold kept. rewrite (proj2 (str_is_spec _ _) Hc). cbn [negb].
  destruct (str_is (kind r) REACTION) eqn:Ek; cbn [andb negb].
  - apply str_is_spec in Ek. rewrite andb_false_r. destruct (target r =? tgt) eqn:Et; [done|]. intros _. split; [by left | lia].
  - apply str_is_false in Ek. rewrite andb_true_r. destruct (row_conv_seq r =? tgt) eqn:Es; [done|]. intros _.
    split; [right; lia | done].
Qed.

Lemma rows_of_removed conv tgt c rows :
  c <> conv -> rows_of c (remove_target conv tgt rows).1 = rows_of c rows.
Proof.
  intros Hc. unfold remove_target, rows_of. cbn [fst].
  induction rows as [|r rows IH]; [done|]. cbn [List.filter].
  destruct (str_is (conv_id r) c) eqn:E.
  - apply str_is_spec in E. assert (conv_id r <> conv) as Hr by congruence.
    rewrite kept_other by done. cbn [map List.filter]. rewrite clear_quote_other, (proj2 (str_is_spec _ _) E) by done.
    by rewrite IH.
  - destruct (kept conv tgt r); [|exact IH]. cbn [map List.filter].
    destruct (clear_quote_frame conv tgt r) as (-> & _). by rewrite E.
Qed.

Lemma map_id_iff {A} (f : A -> A) l : map f l = l <-> Forall (fun x => f x = x) l.
Proof.
  induction l as [|x l IH]; cbn; [done|]. rewrite Forall_cons. split.
  - intros [= -> Hl]. by apply IH in Hl.
  - intros [-> Hl]. f_equal. by apply IH.
Qed.

Lemma clear_quote_id conv tgt r : clear_quote conv tgt r = r <-> quotes conv tgt r = false.
Proof.
  unfold clear_quote. destruct (quotes conv tgt r) eqn:E; [|done]. split; [|done]. intros Hr.
  apply (f_equal row_reply_to) in Hr. cbn in Hr. unfold quotes in E. lia.
Qed.

Lemma filter_same_len {A} (f : A -> bool) l : lenN (List.filter f l) = lenN l -> List.filter f l = l.
Proof.
  unfold lenN. induction l as [|x l IH]; [done|]. cbn [List.filter].
  pose proof (filter_length_le f l) as Hle. destruct (f x); cbn [length]; intros Hl; [|lia].
  rewrite IH; [done | lia].
Qed.

Lemma remove_target_changed conv tgt rows :
  (remove_target conv tgt rows).2 = false <-> (remove_target conv tgt rows).1 = rows.
Proof.
  unfold remove_target. cbn [fst snd]. rewrite orb_false_iff, negb_false_iff, N.eqb_eq. split.
  - intros [->%filter_same_len Hq]. apply map_id_iff, Forall_forall. intros r Hr. apply clear_quote_id.
    rewrite <- not_true_iff_false in Hq |- *. intros Ht. apply Hq, existsb_exists. exists r.
    split; [by apply list_elem_of_In | done].
  - intros Hm. assert (lenN (List.filter (kept conv tgt) rows) = lenN rows) as Hl.
    { apply (f_equal lenN) in Hm. unfold lenN in *. by rewrite length_map in Hm. }
    split; [done|]. apply filter_same_len in Hl. rewrite Hl in Hm |- *. apply map_id_iff in Hm.
    rewrite <- not_true_iff_false. intros (r & Hr & Hq)%existsb_exists. apply list_elem_of_In in Hr.
    rewrite Forall_forall in Hm. apply Hm, clear_quote_id in Hr. congruence.
Qed.

(** Deleting a message removes it and the reactions to it from its
    conversation and leaves no quote of it, keeps the other rows of the
    conversation in order with at most their quote cleared, does not touch any
    other conversation, and reports a change exactly when there was one. *)
Theorem delete_is_complete_and_local conv tgt rows :
  let out := (remove_target conv tgt rows).1 in
  (forall r, r ∈ out -> conv_id r = conv ->
     (kind r = REACTION \/ row_conv_seq r <> tgt) /\ (kind r = REACTION -> target r <> tgt) /\
     (tgt <> 0 -> row_reply_to r <> tgt)) /\
  (forall c, c <> conv -> rows_of c out = rows_of c rows) /\
  (exists left, left `sublist_of` rows /\ out = map (clear_quote conv tgt) left /\
     forall r, r ∈ rows -> r ∉ left -> conv_id r = conv /\ (row_conv_seq r = tgt \/ target r = tgt)) /\
  ((remove_target conv tgt rows).2 = false <-> out = rows).
Proof.
  cbv zeta. split_and!; [|intros; by apply rows_of_removed | |apply remove_target_changed].
  - intros r (q & -> & Hq)%list_elem_of_fmap. apply list_elem_of_In, List.filter_In in Hq as [_ Hk].
    destruct (clear_quote_frame conv tgt q) as (-> & -> & -> & ->). intros Hc.
    destruct (kept_spec conv tgt q Hc Hk). split_and!; [done | done | intros; by apply clear_quote_clears].
  - exists (List.filter (kept conv tgt) rows). split_and!; [|done|].
    + induction rows as [|r rows IH]; cbn; [done|]. case_match; by constructor.
    + intros r Hr Hn. destruct (kept conv tgt r) eqn:Hk.
      { exfalso. apply Hn, list_elem_of_In, List.filter_In. split; [by apply list_elem_of_In | done]. }
      revert Hk. unfold kept. destruct (str_is (conv_id r) conv) eqn:Ec; cbn [negb]; [|done].
      apply str_is_spec in Ec. intros Hk. split; [done|]. repeat case_match; lia.
Qed.

(** Vaults of older versions keep no tombstone, and every quote that is left
    points at a row of its conversation. *)
Theorem no_dangling_quote rows r :
  r ∈ drop_legacy_tombstones rows ->
  kind r <> DELETED /\
  (row_reply_to r = 0 \/ exists q, q ∈ drop_legacy_tombstones rows /\ conv_id q = conv_id r /\ row_conv_seq q = row_reply_to r).
Proof.
  unfold drop_legacy_tombstones. set (left := List.filter _ rows). set (fix_quote := fun r => if _ && _ then _ else r).
  assert (forall q, conv_id (fix_quote q) = conv_id q /\ row_conv_seq (fix_quote q) = row_conv_seq q /\ kind (fix_quote q) = kind q) as Hfr.
  { intros q. unfold fix_quote. by case_match. }
  intros (q & -> & Hq)%list_elem_of_fmap. destruct (Hfr q) as (-> & _ & ->). split.
  - apply list_elem_of_In, List.filter_In in Hq as [_ Hk]. apply negb_true_iff in Hk. by apply str_is_false.
  - unfold fix_quote at 1 3. case_match eqn:G; [by left|]. apply andb_false_iff in G as [G|G]; [left; lia|]. right.
    apply negb_false_iff, existsb_exists in G as (p & Hp & Hm). apply andb_true_iff in Hm as [Hm1 Hm2].
    exists (fix_quote p). destruct (Hfr p) as (-> & -> & _).
    split_and!; [|by apply str_is_spec | lia]. apply list_elem_of_fmap. exists p. split; [done | by apply list_elem_of_In].
Qed.

(** ** Reactions toggle *)

Lemma remove_first_none f rows : Forall (fun r => f r = false) rows -> remove_first f rows = None.
Proof. induction 1 as [|r rows Hr _ IH]; cbn; [done|]. by rewrite Hr, IH. Qed.

Lemma remove_first_snoc f rows r :
  Forall (fun r => f r = false) rows -> f r = true -> remove_first f (rows ++ [r]) = Some rows.
Proof. intros Hf Hr. induction Hf as [|q rows Hq _ IH]; cbn; [by rewrite Hr|]. by rewrite Hq, IH. Qed.

Lemma patch_first_snoc f g rows r :
  Forall (fun r => f r = false) rows -> f r = true -> patch_first f g (rows ++ [r]) = rows ++ [g r].
Proof. intros Hf Hr. induction Hf as [|q rows Hq _ IH]; cbn; [by rewrite Hr|]. by rewrite Hq, IH. Qed.

Lemma inbox_raise_seq conv sq s : inbox (raise_seq conv sq s) = inbox s.
Proof. unfold raise_seq. by case_match. Qed.

(** The row of a received reaction, with its author. *)
Definition reaction_of (conv sender name : rstring) (h : AppHeader) (tgt : N) (em : rstring) : DisplayRow :=
  (control_row conv (conv_seq h) (sent_at h) REACTION em tgt false) <| sender_id := sender |> <| sender_name := name |>.

(** Neither the author's reaction nor a reaction with the number of the message
    is in the inbox. *)
Definition fresh_reaction (conv sender : rstring) (h : AppHeader) (tgt : N) (em : rstring) (s : Shelf) : Prop :=
  Forall (fun r => matching_reaction conv tgt em false sender r = false) (inbox s) /\
  Forall (fun r => same_reaction (control_row conv (conv_seq h) 0 REACTION em tgt false) r = false) (inbox s).

Lemma recv_reaction_on conv sender name h tgt em s :
  fresh_reaction conv sender h tgt em s ->
  let '(s', out) := recv_reaction conv sender name h tgt em s in
  out = reaction_of conv sender name h tgt em /\ inbox s' = inbox s ++ [out].
Proof.
  intros [Hm Hs]. unfold recv_reaction, take_matching_reaction. rewrite remove_first_none by done.
  unfold push_control, push_row. cbv zeta beta iota. split; [done|].
  cbn [inbox upd inbox_field]. rewrite inbox_raise_seq. rewrite patch_first_snoc; [done | |].
  - eapply Forall_impl; [exact Hs|]. intros r Hr. exact Hr.
  - unfold same_reaction. cbn. by rewrite str_is_refl, N.eqb_refl.
Qed.

Lemma recv_reaction_off conv sender name h tgt em s rows name' h0 :
  Forall (fun r => matching_reaction conv tgt em false sender r = false) rows ->
  inbox s = rows ++ [reaction_of conv sender name' h0 tgt em] ->
  let '(s', out) := recv_reaction conv sender name h tgt em s in
  out = reaction_removed_marker conv tgt em (sent_at h) false /\ inbox s' = rows.
Proof.
  intros Hm Hi. unfold recv_reaction, take_matching_reaction. rewrite Hi, (remove_first_snoc _ rows); [|done|].
  - split; [done|]. by rewrite inbox_raise_seq.
  - unfold matching_reaction, reaction_of, control_row. cbn. by rewrite !str_is_refl, N.eqb_refl.
Qed.

(** A reaction is shown with its author, and the same reaction of the same
    author takes it back: the inbox is as before. *)
Theorem reaction_toggles conv sender name h1 h2 tgt em s :
  fresh_reaction conv sender h1 tgt em s ->
  let '(s1, r1) := recv_reaction conv sender name h1 tgt em s in
  let '(s2, r2) := recv_reaction conv sender name h2 tgt em s1 in
  inbox s1 = inbox s ++ [r1] /\ sender_id r1 = sender /\ kind r2 = lit "reaction_removed" /\ inbox s2 = inbox s.
Proof.
  intros Hf. pose proof (recv_reaction_on conv sender name h1 tgt em s Hf) as H1.
  destruct (recv_reaction conv sender name h1 tgt em s) as [s1 r1]. destruct H1 as [-> Hi].
  pose proof (recv_reaction_off conv sender name h2 tgt em s1 (inbox s) name h1 (proj1 Hf) Hi) as H2.
  destruct (recv_reaction conv sender name h2 tgt em s1) as [s2 r2]. destruct H2 as [-> Hi2]. done.
Qed.

(** The two sides of a conversation count separately, so an own reaction can
    carry the number of a received one. The author of the received reaction is
    then written to the own row; the received row stays without an author, and
    the peer cannot take it back. *)
Definition collide_conv : rstring := lit "peer".
Definition own_first : Shelf := empty_shelf <| inbox := [own_reaction collide_conv 5 10 (lit "a") 1] |>.
Definition peer_header (n : N) : AppHeader := mk_app_header n 11 None.

Theorem colliding_reaction_misattributed :
  let '(s1, _) := recv_reaction collide_conv collide_conv (lit "") (peer_header 5) 2 (lit "b") own_first in
  let '(s2, r2) := recv_reaction collide_conv collide_conv (lit "") (peer_header 6) 2 (lit "b") s1 in
  sender_id <$> inbox s1 = [collide_conv; lit ""] /\ outgoing <$> inbox s1 = [true; false] /\
  kind r2 = REACTION /\ length (inbox s2) = 3%nat.
Proof. vm_compute. done. Qed.

(** ** Numbers and marks *)

(** Every row of a conversation carries a number that was counted, and no mark
    is ahead of the count. *)
Record shelf_ok (s : Shelf) : Prop := mk_shelf_ok {
  rows_counted : Forall (fun r => row_conv_seq r <= seq_of (conv_id r) s) (inbox s);
  acked_counted : map_Forall (fun conv u => u <= seq_of conv s) (acked s);
  read_counted : map_Forall (fun conv u => u <= seq_of conv s) (read s);
  group_read_counted : map_Forall (fun conv m => map_Forall (fun _ u => u <= seq_of conv s) m) (group_read s)
}.

(** What the code does to the shelf between two restarts; [RecvControl] covers
    the rows of calls, losses, revocations and binding conflicts. [OwnRow] stores
    an own row whose number was counted before. *)
Inductive shelf_op : Type :=
| RecvText (conv : rstring) (h : AppHeader) (txt : rstring)
| RecvFile (conv : rstring) (h : AppHeader) (meta : FileMeta) (data : bytes) (token : rstring)
| RecvReaction (conv sender name : rstring) (h : AppHeader) (tgt : N) (em : rstring)
| RecvDelete (conv : rstring) (h : AppHeader) (tgt : N)
| RecvDisappear (conv : rstring) (h : AppHeader) (seconds : N)
| RecvControl (conv : rstring) (h : AppHeader) (k em : rstring) (tgt : N)
| RecvAck (conv : rstring) (upto : N)
| RecvRead (conv : rstring) (upto : N)
| RecvGroupRead (conv sender : rstring) (upto : N)
| OwnText (conv txt : rstring) (reply now : N)
| OwnReact (conv : rstring) (tgt : N) (em : rstring) (now : N)
| OwnCount (conv : rstring)
| OwnRow (r : DisplayRow)
| SetTimer (conv : rstring) (seconds : N)
| DeleteLocal (conv : rstring) (tgt : N)
| Expire (now : N).

Definition received_seq (op : shelf_op) : N :=
  match op with
  | RecvText _ h _ | RecvFile _ h _ _ _ | RecvReaction _ _ _ h _ _ | RecvDelete _ h _ | RecvDisappear _ h _
  | RecvControl _ h _ _ _ => conv_seq h
  | _ => 0
  end.

Definition shelf_exec (op : shelf_op) (s : Shelf) : Shelf :=
  match op with
  | RecvText conv h txt => (push_text conv (conv_seq h) txt (sent_at h) (default 0 (reply_to h)) false s).1
  | RecvFile conv h meta data token => (push_file conv (conv_seq h) (sent_at h) meta data token (default 0 (reply_to h)) false s).1
  | RecvReaction conv sender name h tgt em => (recv_reaction conv sender name h tgt em s).1
  | RecvDelete conv h tgt => (recv_delete conv h tgt s).1
  | RecvDisappear conv h seconds => (recv_disappear conv h seconds s).1
  | RecvControl conv h k em tgt => (push_control conv (conv_seq h) (sent_at h) k em tgt false s).1
  | RecvAck conv upto => recv_ack conv upto s
  | RecvRead conv upto => recv_read conv upto s
  | RecvGroupRead conv sender upto => recv_group_read conv sender upto s
  | OwnText conv txt reply now => let '(n, s) := bump_seq conv s in (push_row (own_text conv n now txt reply) s).1
  | OwnReact conv tgt em now =>
      let '(s, (off, n)) := react_local conv tgt em s in
      if (off : bool) then s else (push_row (own_reaction conv n now em tgt) s).1
  | OwnCount conv => (bump_seq conv s).2
  | OwnRow r => if row_conv_seq r <=? seq_of (conv_id r) s then (push_row r s).1 else s
  | SetTimer conv seconds => s <| timers ::= <[conv := seconds]> |>
  | DeleteLocal conv tgt => s <| inbox ::= fun rows => (remove_target conv tgt rows).1 |>
  | Expire now => (apply_expire_inbox now s).1
  end.

Definition shelf_run (ops : list shelf_op) (s : Shelf) : Shelf := fold_left (fun s op => shelf_exec op s) ops s.

(** No conversation has counted past [b]. *)
Definition counted_to (b : N) (s : Shelf) : Prop := forall conv, seq_of conv s <= b.

Lemma seq_of_insert conv n s c :
  seq_of c (s <| next_seq ::= <[conv := n]> |>) = if decide (conv = c) then n else seq_of c s.
Proof.
  unfold seq_of. cbn. destruct (decide (conv = c)) as [->|Hn]; [by rewrite lookup_insert_eq | by rewrite lookup_insert_ne].
Qed.

(** A larger count keeps the invariant; the rows may change as long as each one
    stays counted. *)
Lemma shelf_ok_grow s s' :
  shelf_ok s -> (forall c, seq_of c s <= seq_of c s') ->
  Forall (fun r => row_conv_seq r <= seq_of (conv_id r) s') (inbox s') ->
  acked s' = acked s -> read s' = read s -> group_read s' = group_read s -> shelf_ok s'.
Proof.
  intros [_ Ha Hr Hg] Hc Hi Ea Er Eg. split; [done|rewrite Ea|rewrite Er|rewrite Eg].
  - intros c u Hu. etrans; [by apply Ha | apply Hc].
  - intros c u Hu. etrans; [by apply Hr | apply Hc].
  - intros c m Hm v u Hu. etrans; [by eapply Hg | apply Hc].
Qed.

Lemma rows_grow s s' rows :
  (forall c, seq_of c s <= seq_of c s') ->
  Forall (fun r => row_conv_seq r <= seq_of (conv_id r) s) rows ->
  Forall (fun r => row_conv_seq r <= seq_of (conv_id r) s') rows.
Proof. intros Hc Hr. eapply Forall_impl; [exact Hr|]. intros r Hle. etrans; [exact Hle | apply Hc]. Qed.

Lemma raise_seq_le conv sq s c : seq_of c s <= seq_of c (raise_seq conv sq s).
Proof. unfold raise_seq. case_match eqn:E; [|done]. rewrite seq_of_insert. case_decide; [subst; lia | done]. Qed.

Lemma raise_seq_self conv sq s : sq <= seq_of conv (raise_seq conv sq s).
Proof. unfold raise_seq. case_match eqn:E; [|lia]. rewrite seq_of_insert. by rewrite decide_True. Qed.

Lemma raise_seq_marks conv sq s :
  acked (raise_seq conv sq s) = acked s /\ read (raise_seq conv sq s) = read s /\ group_read (raise_seq conv sq s) = group_read s.
Proof. unfold raise_seq. by case_match. Qed.

Lemma raise_seq_ok conv sq s : shelf_ok s -> shelf_ok (raise_seq conv sq s).
Proof.
  intros Hs. destruct (raise_seq_marks conv sq s) as (Ha & Hr & Hg).
  eapply shelf_ok_grow; eauto using raise_seq_le. rewrite inbox_raise_seq.
  eapply rows_grow; [apply raise_seq_le | apply Hs].
Qed.

Lemma push_row_ok r s : shelf_ok s -> row_conv_seq r <= seq_of (conv_id r) s -> shelf_ok (push_row r s).1.
Proof.
  intros Hs Hr. eapply shelf_ok_grow; [exact Hs | done | | done | done | done].
  cbn. apply Forall_app. split; [apply Hs | by apply Forall_singleton].
Qed.

(** Rows that are a part of the rows, or rows with the same numbers. *)
Lemma shelf_ok_rows s rows :
  shelf_ok s -> Forall (fun r => row_conv_seq r <= seq_of (conv_id r) s) rows -> shelf_ok (s <| inbox := rows |>).
Proof. intros Hs Hr. eapply shelf_ok_grow; [exact Hs | done | exact Hr | done | done | done]. Qed.

Definition numbered (r r' : DisplayRow) : Prop := conv_id r' = conv_id r /\ row_conv_seq r' = row_conv_seq r.

Lemma rows_map s f rows :
  (forall r, numbered r (f r)) -> Forall (fun r => row_conv_seq r <= seq_of (conv_id r) s) rows ->
  Forall (fun r => row_conv_seq r <= seq_of (conv_id r) s) (map f rows).
Proof.
  intros Hf Hr. apply Forall_fmap. eapply Forall_impl; [exact Hr|]. intros r Hle. unfold compose. by destruct (Hf r) as [-> ->].
Qed.

Lemma rows_patch s f g rows :
  (forall r, numbered r (g r)) -> Forall (fun r => row_conv_seq r <= seq_of (conv_id r) s) rows ->
  Forall (fun r => row_conv_seq r <= seq_of (conv_id r) s) (patch_first f g rows).
Proof.
  intros Hg. induction 1 as [|r rows Hr Hrs IH]; cbn; [constructor|].
  case_match; constructor; auto. by destruct (Hg r) as [-> ->].
Qed.

Lemma rows_removed s conv tgt rows :
  Forall (fun r => row_conv_seq r <= seq_of (conv_id r) s) rows ->
  Forall (fun r => row_conv_seq r <= seq_of (conv_id r) s) (remove_target conv tgt rows).1.
Proof.
  intros Hr. apply rows_map; [intros r; destruct (clear_quote_frame conv tgt r) as (? & ? & _); done|].
  apply Forall_forall. intros r Hin. apply list_elem_of_In, List.filter_In in Hin as [Hin _].
  rewrite Forall_forall in Hr. by apply Hr, list_elem_of_In.
Qed.

Lemma take_matching_ok conv tgt em out sender s :
  shelf_ok s -> shelf_ok (take_matching_reaction conv tgt em out sender s).1.
Proof.
  intros Hs. unfold take_matching_reaction. destruct (remove_first _ _) as [rows|] eqn:E; [|done].
  apply shelf_ok_rows; [done|]. destruct Hs as [Hr _ _ _]. revert rows E. cbn [fst].
  induction Hr as [|r l Hr Hl IH]; intros rows; cbn; [done|]. case_match; [by intros [= <-]|].
  destruct (remove_first _ l) as [rest|]; [|done]. intros [= <-]. constructor; auto.
Qed.

Lemma take_matching_seq conv tgt em out sender s c : seq_of c (take_matching_reaction conv tgt em out sender s).1 = seq_of c s.
Proof. unfold take_matching_reaction. by destruct (remove_first _ _). Qed.

Lemma bump_seq_value conv s : seq_of conv s < U64_MAX -> (bump_seq conv s).1 = seq_of conv s + 1.
Proof. intros Hs. cbn. rewrite u64_add_small; ilia. Qed.

Lemma bump_seq_seq conv s c :
  seq_of conv s < U64_MAX ->
  seq_of c (bump_seq conv s).2 = if decide (conv = c) then seq_of conv s + 1 else seq_of c s.
Proof. intros Hs. unfold bump_seq. cbn [snd]. rewrite seq_of_insert, u64_add_small by ilia. done. Qed.

Lemma bump_seq_ok conv s : seq_of conv s < U64_MAX -> shelf_ok s -> shelf_ok (bump_seq conv s).2.
Proof.
  intros Hb Hs. assert (forall c, seq_of c s <= seq_of c (bump_seq conv s).2) as Hle.
  { intros c. rewrite bump_seq_seq by done. case_decide; [subst; lia | done]. }
  eapply shelf_ok_grow; [exact Hs | exact Hle | | done | done | done].
  eapply rows_grow; [exact Hle | apply Hs].
Qed.

Lemma raise_mark_ok (P : rstring -> N -> Prop) conv mark m :
  (forall u v, P conv u -> P conv v -> P conv (N.max u v)) ->
  P conv mark -> map_Forall P m -> map_Forall P (raise_mark conv mark m).
Proof.
  intros Hmax Hp Hm. unfold raise_mark. apply map_Forall_insert_2; [|done].
  destruct (m !! conv) as [u|] eqn:E; [|done]. apply Hmax; [by apply Hm | done].
Qed.

Lemma recv_ack_ok conv upto s : shelf_ok s -> shelf_ok (recv_ack conv upto s).
Proof.
  intros [Hi Ha Hr Hg]. split; try done. cbn -[raise_mark seq_of].
  apply (raise_mark_ok (fun conv u => u <= seq_of conv s)); [intros; lia | lia | done].
Qed.

Lemma recv_read_ok conv upto s : shelf_ok s -> shelf_ok (recv_read conv upto s).
Proof.
  intros [Hi Ha Hr Hg]. split; try done. cbn -[raise_mark seq_of].
  apply (raise_mark_ok (fun conv u => u <= seq_of conv s)); [intros; lia | lia | done].
Qed.

Lemma recv_group_read_ok conv sender upto s : shelf_ok s -> shelf_ok (recv_group_read conv sender upto s).
Proof.
  intros [Hi Ha Hr Hg]. unfold recv_group_read. cbv zeta. case_match; [|by split]. split; try done.
  cbn -[raise_mark seq_of]. apply map_Forall_insert_2; [|done].
  apply (raise_mark_ok (fun _ u => u <= seq_of conv s)); [intros; lia | lia|].
  destruct (group_read s !! conv) as [m|] eqn:E; cbn; [by eapply Hg | apply map_Forall_empty].
Qed.

Lemma push_control_ok conv sq at_ k em tgt out s : shelf_ok s -> shelf_ok (push_control conv sq at_ k em tgt out s).1.
Proof. intros Hs. apply push_row_ok; [by apply raise_seq_ok | apply raise_seq_self]. Qed.

Lemma recv_reaction_ok conv sender name h tgt em s : shelf_ok s -> shelf_ok (recv_reaction conv sender name h tgt em s).1.
Proof.
  intros Hs. unfold recv_reaction. pose proof (take_matching_ok conv tgt em false sender s Hs) as Ht.
  destruct (take_matching_reaction _ _ _ _ _ s) as [s1 off]. cbn [fst] in Ht. destruct off; [by apply raise_seq_ok|].
  pose proof (push_control_ok conv (conv_seq h) (sent_at h) REACTION em tgt false s1 Ht) as Hp.
  destruct (push_control _ _ _ _ _ _ _ s1) as [s2 out]. cbn [fst] in *.
  apply (shelf_ok_rows s2); [done|]. apply rows_patch; [by intros r | apply Hp].
Qed.

Lemma expire_numbered ts now r : numbered r (if expires ts now r then expire_row r else r).
Proof. by case_match. Qed.

Lemma shelf_exec_ok op s b :
  counted_to b s -> b < U64_MAX -> shelf_ok s -> shelf_ok (shelf_exec op s).
Proof.
  intros Hb Hm Hs. destruct op; cbn [shelf_exec].
  - apply push_row_ok; [by apply raise_seq_ok | apply raise_seq_self].
  - apply push_row_ok; [by apply raise_seq_ok | apply raise_seq_self].
  - by apply recv_reaction_ok.
  - apply raise_seq_ok, (shelf_ok_rows s); [done | apply rows_removed, Hs].
  - by apply push_control_ok; destruct Hs.
  - by apply push_control_ok.
  - by apply recv_ack_ok.
  - by apply recv_read_ok.
  - by apply recv_group_read_ok.
  - assert (seq_of conv s < U64_MAX) as Hc by (specialize (Hb conv); lia).
    pose proof (bump_seq_ok conv s Hc Hs). pose proof (bump_seq_seq conv s conv Hc). pose proof (bump_seq_value conv s Hc).
    destruct (bump_seq conv s) as [n s1]. cbn [fst snd] in *. apply push_row_ok; [done|]. rewrite decide_True in * by done. cbn. lia.
  - unfold react_local. pose proof (take_matching_ok conv tgt em true (lit "") s Hs) as Ht.
    pose proof (take_matching_seq conv tgt em true (lit "") s conv) as Hq.
    destruct (take_matching_reaction _ _ _ _ _ s) as [s1 off]. cbn [fst] in *.
    assert (seq_of conv s1 < U64_MAX) as Hc by (specialize (Hb conv); lia).
    pose proof (bump_seq_ok conv s1 Hc Ht). pose proof (bump_seq_seq conv s1 conv Hc). pose proof (bump_seq_value conv s1 Hc).
    destruct (bump_seq conv s1) as [n s2]. cbn [fst snd] in *. destruct off; [done|].
    apply push_row_ok; [done|]. rewrite decide_True in * by done. cbn. lia.
  - apply bump_seq_ok; [specialize (Hb conv); lia | done].
  - case_match; [apply push_row_ok; [done | lia] | done].
  - by destruct Hs.
  - apply shelf_ok_rows; [done | apply rows_removed, Hs].
  - apply shelf_ok_rows; [done | apply rows_map; [intros; apply expire_numbered | apply Hs]].
Qed.

Lemma raise_seq_counted conv sq s b : counted_to b s -> sq <= b -> counted_to b (raise_seq conv sq s).
Proof. intros Hb Hs c. unfold raise_seq. case_match; [|done]. rewrite seq_of_insert. by case_decide. Qed.

Lemma counted_weaken b b' s : counted_to b s -> b <= b' -> counted_to b' s.
Proof. intros Hb Hle c. specialize (Hb c). lia. Qed.

Lemma bump_seq_counted conv s b : counted_to b s -> b < U64_MAX -> counted_to (b + 1) (bump_seq conv s).2.
Proof.
  intros Hb Hm c. rewrite bump_seq_seq by (specialize (Hb conv); lia). pose proof (Hb conv). pose proof (Hb c). case_decide; lia.
Qed.

Lemma recv_reaction_counted conv sender name h tgt em s b :
  counted_to b s -> conv_seq h <= b -> counted_to b (recv_reaction conv sender name h tgt em s).1.
Proof.
  intros Hb Hh. unfold recv_reaction. pose proof (take_matching_seq conv tgt em false sender s) as Hq.
  destruct (take_matching_reaction _ _ _ _ _ s) as [s1 off]. cbn [fst] in *.
  assert (counted_to b s1) as Hb1 by (intros c; rewrite Hq; apply Hb).
  destruct off; [by apply raise_seq_counted|]. exact (raise_seq_counted conv (conv_seq h) s1 b Hb1 Hh).
Qed.

Lemma shelf_exec_counted op s b :
  counted_to b s -> b < U64_MAX -> received_seq op <= b -> counted_to (b + 1) (shelf_exec op s).
Proof.
  intros Hb Hm Hr. destruct op; cbn [shelf_exec received_seq] in *;
    try (apply (counted_weaken b); [|lia]; by apply raise_seq_counted);
    try (apply (counted_weaken b); [|lia]; exact Hb).
  - apply (counted_weaken b); [|lia]. by apply recv_reaction_counted.
  - apply (counted_weaken b); [|lia]. unfold recv_group_read. cbv zeta. case_match; exact Hb.
  - exact (bump_seq_counted conv s b Hb Hm).
  - unfold react_local. pose proof (take_matching_seq conv tgt em true (lit "") s) as Hq.
    destruct (take_matching_reaction _ _ _ _ _ s) as [s1 off]. cbn [fst] in *.
    assert (counted_to b s1) as Hb1 by (intros c; rewrite Hq; apply Hb).
    pose proof (bump_seq_counted conv s1 b Hb1 Hm) as Hc. destruct (bump_seq conv s1) as [n s2]. cbn [snd] in *.
    by destruct off.
  - by apply bump_seq_counted.
  - apply (counted_weaken b); [|lia]. case_match; exact Hb.
Qed.

Lemma shelf_run_ok ops b s :
  counted_to b s -> shelf_ok s -> Forall (fun op => received_seq op <= b) ops -> b + lenN ops < U64_MAX ->
  shelf_ok (shelf_run ops s) /\ counted_to (b + lenN ops) (shelf_run ops s).
Proof.
  unfold shelf_run. revert b s. induction ops as [|op ops IH]; intros b s Hb Hs Hops Hm; cbn [fold_left].
  - rewrite lenN_nil, N.add_0_r. done.
  - rewrite lenN_cons in *. apply Forall_cons in Hops as [Hop Hops].
    replace (b + (1 + lenN ops)) with (b + 1 + lenN ops) in * by lia. apply IH; [|by apply (shelf_exec_ok op s b); [|lia|]| |done].
    + apply shelf_exec_counted; [done | lia | done].
    + eapply Forall_impl; [exact Hops|]. cbn. lia.
Qed.

Lemma empty_shelf_ok : shelf_ok empty_shelf.
Proof. split; [constructor | apply map_Forall_empty ..]. Qed.


Definition sample_ops : list shelf_op :=
  [OwnText collide_conv (lit "hi") 0 3; RecvText collide_conv (peer_header 7) (lit "yo"); RecvAck collide_conv 90;
   RecvReaction collide_conv collide_conv (lit "") (peer_header 8) 1 (lit "a"); RecvRead collide_conv 8;
   OwnReact collide_conv 7 (lit "b") 4; RecvDelete collide_conv (peer_header 9) 7; Expire 50].


(** At the end of [u64] this fails: a peer that numbers a message with the
    largest value makes the count wrap, so that later own messages restart below
    the mark and are shown as delivered as soon as they are written. *)
Theorem wrapped_count_marks_unsent :
  let s := shelf_run [RecvText collide_conv (peer_header U64_MAX) (lit "x"); RecvAck collide_conv U64_MAX] empty_shelf in
  acked s !! collide_conv = Some U64_MAX /\ (bump_seq collide_conv s).1 = 0.
Proof. vm_compute. done. Qed.

(** A conversation that moves to the peer's real identity takes its rows, its
    count, its name and its timer along, but not its delivery and read marks. *)
Theorem remap_leaves_marks from to s :
  from <> to ->
  acked (remap_conv_id from to s) = acked s /\ read (remap_conv_id from to s) = read s /\
  seq_of from (remap_conv_id from to s) = 0 /\
  seq_of to (remap_conv_id from to s) = N.max (seq_of to s) (seq_of from s) /\
  rows_of from (inbox (remap_conv_id from to s)) = [] /\
  Forall2 (fun r r' => r' = r \/ (conv_id r = from /\ r' = r <| conv_id := to |>)) (inbox s) (inbox (remap_conv_id from to s)).
Proof.
  intros Hne. unfold remap_conv_id. rewrite (proj2 (str_is_false _ _) Hne). cbn -[move_entry seq_of rows_of].
  split_and!; try done.
  - unfold seq_of, move_entry. cbn. destruct (next_seq s !! from) eqn:E; [|by rewrite E].
    rewrite lookup_insert_ne, lookup_delete_eq by done. done.
  - unfold seq_of, move_entry. cbn. destruct (next_seq s !! from) as [a|] eqn:E; [|cbn; lia].
    rewrite lookup_insert_eq, lookup_delete_ne by done. done.
  - unfold rows_of. induction (inbox s) as [|r rows IH]; cbn [map List.filter]; [done|].
    unfold rename_row at 1. destruct (str_is (conv_id r) from) eqn:E; cbn [conv_id upd conv_id_field]; [|by rewrite E].
    change (str_is to from) with (str_is to from). rewrite (proj2 (str_is_false to from)) by done. exact IH.
  - induction (inbox s) as [|r rows IH]; cbn [map]; constructor; [|exact IH]. unfold rename_row.
    destruct (str_is (conv_id r) from) eqn:E; [right; split; [by apply str_is_spec | done] | by left].
Qed.
