(* ===== verification/FfiClient.v ===== *)
(** * The client behind the application

    [nemo-ffi/src/lib.rs]: the object the shell holds. Every exported method
    takes the lock of [Inner] for its whole run, except that starting and
    answering a call release it while the call is set up; a method is therefore
    one function on the state. The state joins the models of the parts: the
    session with its home server ([SessionOps]), the vault on the disk ([Vault],
    [ClientGroupStore]), the MLS groups ([ClientGroup]), the media of a call
    ([Call]) and what is displayed ([FfiInbox]). The loops of the background
    threads appear as the step they repeat. *)

From S2P Require Import CoreErr AppMsg Privacy Contacts Install Origin Turn SessionOps Vault ClientGroupStore Audio Call.
From S2P Require Export FfiInbox.

(** ** Parameters *)

(** What the client uses of the platform beyond [Platform]: the system clock in
    nanoseconds, two more widths of random bytes, the iteration order of a [HashMap], and the environment. *)
Class FfiPlatform (W : Type) := {
  clock_ns : W -> W * N;
  random_registration : W -> W * arr 4;
  random_salt : W -> W * arr SALT_LEN;
  map_order : forall {A}, W -> list A -> list A;
  env_var : rstring -> W -> option rstring
}.

(** [HttpHome::new] after its guard on cleartext addresses: the TLS settings and
    the HTTP client of the crate [reqwest]. *)
Class HttpBuild (T : Type) := { http_build : rstring -> cresult T }.

(** [FfiError], with the source of the text; [FfiStuck] is the model's mark for
    a loop of [Call] that was cut short. *)
Inductive FfiError : Type :=
| FfiCore (e : CoreError)
| FfiWire (e : WireError)
| FfiText (msg : message_text)
| FfiStuck.

Definition GROUP_INVITE_PREFIX : rstring := lit "nemo-g:1:".
Definition JOIN_REQUEST_PREFIX : rstring := lit "nemo-j:1:".
Definition SYNC_PREKEY_STOCK : N := 5.
Definition MAILBOX_MLS_RETRIES : N := 8.
Definition SYSTEM : rstring := lit "system".

Record PendingInvite : Type := mk_pinvite { pi_peer : rstring; pi_signal : LocalSignal; pi_expires_at : N }.

Definition core_err {A} (r : cresult A) : result FfiError A := map_err FfiCore r.
Definition wire_err {A} (r : wresult A) : result FfiError A := map_err FfiWire r.

(** ** Addresses *)

(** [parse_card]. *)
Definition before_hash (s : rstring) : rstring :=
  match split_once [x23] (as_bytes s) with Some (u, _) => default s (from_utf8 u) | None => s end.

Section Cards.
Context `{Crypto}.

Definition parse_card (card_or_uri : rstring) : result FfiError ContactCard :=
  let uri := before_hash card_or_uri in
  if starts_with (as_bytes URI_PREFIX) (as_bytes uri) then wire_err (card_from_uri uri)
  else
    match card_from_uri uri with
    | Ok card => Ok card
    | Err _ => l ← wire_err (from_hex uri); wire_err (card_decode l)
    end.

(** [parse_delivery_cap]. *)
Definition parse_delivery_cap (card_or_uri : rstring) (card : ContactCard) : result FfiError key :=
  match split_once [x23] (as_bytes card_or_uri) with
  | Some (_, b :: hex) =>
      s ← ok_or (from_utf8 (b :: hex)) (FfiText "utf8");
      l ← wire_err (from_hex s); wire_err (copy_fixed KEY_LEN l)
  | _ => Ok (share_token card)
  end.

(** ** Join requests *)

Record JoinRequest : Type := mk_join_request {
  jr_group_id : key;
  jr_pending_id : key;
  jr_key_package : bytes;
  jr_signing_pk : key;
  jr_cap : key;
  jr_hpke : key;
  jr_credential_id : key;
  jr_nonce : key;
  jr_proof : option InviteeProof;
  jr_binding : option key
}.

(** [join_request_uri]. *)
Definition join_request_pairs (r : JoinRequest) : list (N * Value) :=
  [(0, Bytes (to_vec (jr_group_id r))); (1, Bytes (to_vec (jr_pending_id r))); (2, Bytes (jr_key_package r));
   (3, Bytes (to_vec (jr_signing_pk r))); (4, Bytes (to_vec (jr_cap r))); (5, Bytes (to_vec (jr_hpke r)));
   (6, Bytes (to_vec (jr_credential_id r))); (7, Bytes (to_vec (jr_nonce r)))]
  ++ match jr_proof r with Some p => [(8, Bytes (proof_encode p))] | None => [] end
  ++ match jr_binding r with Some b => [(9, Bytes (to_vec b))] | None => [] end.

Definition join_request_uri (r : JoinRequest) : rstring :=
  str_cat JOIN_REQUEST_PREFIX (to_hex (Cbor.encode (Map (join_request_pairs r)))).

(** [parse_join_request]. *)
Definition parse_join_request (uri : rstring) : result FfiError JoinRequest :=
  hex ← ok_or (strip_prefix JOIN_REQUEST_PREFIX uri) (FfiText "join request must start with nemo-j:1:");
  l ← wire_err (from_hex hex);
  v ← wire_err (Cbor.decode l);
  match v with
  | Map m =>
      let fixed v := b ← wire_err (expect_bytes v); wire_err (copy_fixed KEY_LEN b) in
      let read k := v ← wire_err (map_get m k); fixed v in
      nonce ← match map_get_opt m 7 with Some v => fixed v | None => Ok (arr_repeat KEY_LEN x00) end;
      proof ← match map_get_opt m 8 with
              | Some v => b ← wire_err (expect_bytes v); p ← wire_err (proof_decode b); Ok (Some p)
              | None => Ok None
              end;
      bind ← match map_get_opt m 9 with Some v => b ← fixed v; Ok (Some b) | None => Ok None end;
      gid ← read 0; pid ← read 1;
      kv ← wire_err (map_get m 2); kp ← wire_err (expect_bytes kv);
      spk ← read 3; cap ← read 4; hp ← read 5; cid ← read 6;
      Ok (mk_join_request gid pid kp spk cap hp cid nonce proof bind)
  | _ => Err (FfiText "join request")
  end.

(** [parse_group_invite]. *)
Definition parse_group_invite (uri : rstring) : result FfiError GroupInvite :=
  hex ← ok_or (strip_prefix GROUP_INVITE_PREFIX uri) (FfiText "group invite must start with nemo-g:1:");
  l ← wire_err (from_hex hex); wire_err (invite_decode l).
End Cards.

(** ** The state *)

Section Client.
Context `{Crypto} `{SignalOps} `{MlsLib} `{Argon} `{Bip39}.
Context {T W : Type} `{HomeTransport T W} `{Platform W} `{FfiPlatform W} `{HttpBuild T}.
Context {V P Enc Dec Apm : Type} `{MediaLib V P} `{Opus Enc Dec} `{AudioProcessor Apm}.

Notation session := (HomeSession T).
Notation calls := (call_state V Enc Dec Apm).

Record LiveGroup : Type := mk_live { lg_host : HostGroup; lg_mls : Group; lg_nickname : rstring }.

Record PendingEntry : Type := mk_pentry { pe_pending : ClientPendingJoin; pe_host : HostAccept }.

Inductive ClientState : Type := Local (i : Installation) | Registered (s : session).

Record Inner : Type := mk_inner {
  cl_state : option ClientState;
  vault : option Vault;
  revocation_mnemonic : option rstring;
  shelf : Shelf;
  live_groups : list LiveGroup;
  joins : gmap key PendingEntry;
  minted : gmap key GroupInvite;
  pending_names : gmap key rstring;
  pending_invites : gmap rstring PendingInvite;
  live_call : option (Call P);
  call_peer : option rstring;
  call_connected : bool;
  group_discovery_at : gmap key N;
  intro_sent : gset key;
  gossip_sent : gmap key (N * key);
  mailbox_retries : gmap N N
}.

Definition eta_inner (i : Inner) : Inner :=
  mk_inner (cl_state i) (vault i) (revocation_mnemonic i) (shelf i) (live_groups i) (joins i) (minted i) (pending_names i)
    (pending_invites i) (live_call i) (call_peer i) (call_connected i) (group_discovery_at i) (intro_sent i) (gossip_sent i)
    (mailbox_retries i).
#[global] Instance cl_state_field : Field cl_state. Proof. derive_field eta_inner cl_state. Defined.
#[global] Instance revocation_mnemonic_field : Field revocation_mnemonic. Proof. derive_field eta_inner revocation_mnemonic. Defined.
#[global] Instance shelf_field : Field shelf. Proof. derive_field eta_inner shelf. Defined.
#[global] Instance live_groups_field : Field live_groups. Proof. derive_field eta_inner live_groups. Defined.
#[global] Instance joins_field : Field joins. Proof. derive_field eta_inner joins. Defined.
#[global] Instance minted_field : Field minted. Proof. derive_field eta_inner minted. Defined.
#[global] Instance pending_names_field : Field pending_names. Proof. derive_field eta_inner pending_names. Defined.
#[global] Instance pending_invites_field : Field pending_invites. Proof. derive_field eta_inner pending_invites. Defined.
#[global] Instance live_call_field : Field live_call. Proof. derive_field eta_inner live_call. Defined.
#[global] Instance call_peer_field : Field call_peer. Proof. derive_field eta_inner call_peer. Defined.
#[global] Instance call_connected_field : Field call_connected. Proof. derive_field eta_inner call_connected. Defined.
#[global] Instance group_discovery_at_field : Field group_discovery_at. Proof. derive_field eta_inner group_discovery_at. Defined.
#[global] Instance intro_sent_field : Field intro_sent. Proof. derive_field eta_inner intro_sent. Defined.
#[global] Instance gossip_sent_field : Field gossip_sent. Proof. derive_field eta_inner gossip_sent. Defined.
#[global] Instance mailbox_retries_field : Field mailbox_retries. Proof. derive_field eta_inner mailbox_retries. Defined.

(** The client and the worlds it acts on. *)
Record app : Type := mk_app { inner : Inner; net : W; disk : Disk; media_st : calls }.

Definition eta_app (a : app) : app := mk_app (inner a) (net a) (disk a) (media_st a).
#[global] Instance inner_field : Field inner. Proof. derive_field eta_app inner. Defined.
#[global] Instance net_field : Field net. Proof. derive_field eta_app net. Defined.
#[global] Instance disk_field : Field disk. Proof. derive_field eta_app disk. Defined.
#[global] Instance media_st_field : Field media_st. Proof. derive_field eta_app media_st. Defined.

Notation am := (stM app FfiError).

Definition empty_inner (st : option ClientState) (v : option Vault) (words : option rstring) : Inner :=
  mk_inner st v words empty_shelf [] ∅ ∅ ∅ ∅ None None false ∅ ∅ ∅ ∅.

(** ** Running the parts *)

Definition me : am Inner := gets inner.
Definition set_inner (f : Inner -> Inner) : am unit := modify (fun a => a <| inner ::= f |>).
Definition my_shelf : am Shelf := gets (fun a => shelf (inner a)).
Definition set_shelf (f : Shelf -> Shelf) : am unit := set_inner (fun i => i <| shelf ::= f |>).

(** A change of the shelf with its value. *)
Definition on_shelf {A} (f : Shelf -> Shelf * A) : am A := fun a =>
  let '(s, r) := f (shelf (inner a)) in (a <| inner ::= fun i => i <| shelf := s |> |>, Ok r).

Definition ffi {A} (r : cresult A) : am A := lift (core_err r).
Definition ffi_wire {A} (r : wresult A) : am A := lift (wire_err r).

(** [let _ = call;]: the error is dropped, the changes stay. *)
Definition quietly {A} (m : am A) : am (option A) := fun a => let '(a', r) := m a in (a', Ok (ok r)).

Definition world {A} (f : W -> W * A) : am A := fun a => let '(w, r) := f (net a) in (a <| net := w |>, Ok r).

Definition now_unix : am N := world clock_unix.
Definition system_now : am N := world clock_ns.

(** The match on [state] that every method starts with. *)
Definition the_session (i : Inner) : result FfiError session :=
  match cl_state i with
  | Some (Registered s) => Ok s
  | Some (Local _) => Err (FfiCore NotRegistered)
  | None => Err (FfiText "busy")
  end.

Definition registered : am session := i ← me; lift (the_session i).

(** A method of the session, awaited. *)
Definition on_session {A} (m : stM (session * W) CoreError A) : am A := fun a =>
  match the_session (inner a) with
  | Ok s =>
      let '((s', w'), r) := m (s, net a) in
      (a <| inner ::= fun i => i <| cl_state := Some (Registered s') |> |> <| net := w' |>, core_err r)
  | Err e => (a, Err e)
  end.

(** [Inner::install]. *)
Definition the_install (i : Inner) : result FfiError Installation :=
  match cl_state i with
  | Some (Local inst) => Ok inst
  | Some (Registered s) => Ok (install s)
  | None => Err (FfiText "busy")
  end.

Definition on_disk {A} (m : stM Disk CoreError A) : am A := fun a =>
  let '(d, r) := m (disk a) in (a <| disk := d |>, core_err r).

Definition call_result {A} (r : result fault A) : result FfiError A :=
  match r with Ok x => Ok x | Err (Fail e) => Err (FfiCore e) | Err OutOfFuel => Err FfiStuck end.

Definition on_call {A} (m : stM calls fault A) : am A := fun a =>
  let '(c, r) := m (media_st a) in (a <| media_st := c |>, call_result r).

(** A method of a group, which also uses the provider of the installation; [n]
    is the place of the group in the list. *)
Definition on_group {A} (n : nat) (m : gm A) : am A := fun a =>
  match the_session (inner a), live_groups (inner a) !! n with
  | Ok s, Some g =>
      let '((mls, p), r) := m (lg_mls g, mls_provider (install s)) in
      (a <| inner ::= fun i => i
           <| cl_state := Some (Registered (s <| install ::= fun i => i <| mls_provider := p |> |>)) |>
           <| live_groups ::= <[n := mk_live (lg_host g) mls (lg_nickname g)]> |> |>, core_err r)
  | Ok _, None => (a, Err (FfiText "unknown group"))
  | Err e, _ => (a, Err e)
  end.

(** A call that only uses the provider. *)
Definition on_mls_provider {A} (m : stM MlsProvider CoreError A) : am A :=
  on_session (fun x => let '(p, r) := m (mls_provider (install x.1)) in
                       ((x.1 <| install ::= fun i => i <| mls_provider := p |> |>, x.2), r)).

(** [find_group_mut]: the place of the group. *)
Definition group_index (gid : key) (gs : list LiveGroup) : option nat :=
  fst <$> list_find (fun g => hg_group_id (lg_host g) = gid) gs.

Definition find_group_mut (group_id_hex : rstring) : am (nat * LiveGroup) :=
  gid ← ffi_wire (parse_identity_id group_id_hex);
  i ← me;
  match list_find (fun g => hg_group_id (lg_host g) = gid) (live_groups i) with
  | Some (n, g) => mret (n, g)
  | None => throw (FfiText "unknown group")
  end.

(** ** Saving *)

(** [group_names]. *)
Definition live_names (gs : list LiveGroup) : gmap rstring rstring :=
  list_to_map (rev (map (fun g => (to_hex (to_vec (hg_group_id (lg_host g))), lg_nickname g))
                (List.filter (fun g => negb (bool_decide (as_bytes (lg_nickname g) = []))) gs))).

Definition stored_inbox (s : Shelf) : Inbox :=
  mk_inbox (map to_inbox_row (inbox s)) (next_seq s) (acked s) (read s) (group_read s).

(** [persist]. *)
Definition persist : am unit :=
  i ← me;
  match vault i with
  | None => mret tt
  | Some _ =>
      match cl_state i with
      | Some (Registered s) =>
          on_disk (save_home (install s) (Session.snapshot s));;
          on_disk (save_groups (install s) (map lg_mls (live_groups i)));;
          on_disk (save_display (mk_display (names (shelf i)) (timers (shelf i)) (live_names (live_groups i))));;
          on_disk (save_inbox (stored_inbox (shelf i)));;
          w ← gets net;
          on_disk (save_pending (map_order w (map (fun e => (e.1, pe_pending e.2, pe_host e.2)) (map_to_list (joins i)))));;
          on_disk (save_invites (map_order w (map snd (map_to_list (minted i)))))
      | Some (Local inst) =>
          on_disk (save inst);;
          on_disk (save_display (mk_display (names (shelf i)) (timers (shelf i)) ∅));;
          on_disk (save_inbox (stored_inbox (shelf i)))
      | None => throw (FfiText "busy")
      end
  end.

(** ** Introductions and gossip *)

Definition attempt {A} (m : am A) : am (result FfiError A) := fun a => let '(a', r) := m a in (a', Ok r).

Definition header (sq now : N) (reply : option N) : AppHeader := mk_app_header sq now reply.

Definition own_hpke (s : session) : key := bundle_hpke_public_key (ses_bundle s).

Definition send_own_contact_capability (peer : key) (now : N) : am unit :=
  cap ← on_session client_mint_contact;
  s ← registered;
  intro ← ffi (sign_capability_intro (install s) peer cap (own_hpke s));
  ptext ← ffi (app_encode (mk_app_msg (header 0 now None) (AppCapability cap (Some intro))));
  on_session (send_to peer TTL_DEFAULT ptext now);; mret tt.

Definition ensure_intro_sent (peer : key) (now : N) : am unit :=
  i ← me;
  if decide (peer ∈ intro_sent i) then mret tt
  else
    send_own_contact_capability peer now;;
    set_inner (fun i => i <| intro_sent ::= union {[peer]} |>).

Definition send_own_binding_gossip (peer : key) (now : N) : am unit :=
  s ← registered;
  ptext ← ffi (app_encode (mk_app_msg (header 0 now None)
            (AppBindingGossip (own_id (install s)) (inst_binding_seq (install s)) (bundle_server_id (ses_bundle s)))));
  on_session (send_to peer TTL_DEFAULT ptext now);; mret tt.

Definition send_cached_binding_gossip (peer : key) (now : N) : am bool :=
  s ← registered;
  let binding := (inst_binding_seq (install s), bundle_server_id (ses_bundle s)) in
  i ← me;
  if bool_decide (gossip_sent i !! peer = Some binding) then mret false
  else
    send_own_binding_gossip peer now;;
    set_inner (fun i => i <| gossip_sent ::= <[peer := binding]> |>);;
    mret true.

(** [apply_binding_gossip]. *)
Definition apply_binding_gossip (from_peer identity_id : key) (sq : N) (server : key) (h : AppHeader) : am (option DisplayRow) :=
  s ← registered;
  match contacts s !! identity_id with
  | None => mret None
  | Some c =>
      conflict ← match classify_binding_gossip (pin_seq (contact_pin c)) (server_id (dest_hpke c)) sq server with
                 | Match => mret false
                 | Ahead =>
                     now ← now_unix;
                     quietly (on_session (refresh_contact identity_id now));;
                     s ← registered;
                     mret (match contacts s !! identity_id with
                           | Some c =>
                               match classify_binding_gossip (pin_seq (contact_pin c)) (server_id (dest_hpke c)) sq server with
                               | Match => false
                               | _ => true
                               end
                           | None => true
                           end)
                 | Conflict => mret true
                 end;
      if (conflict : bool) then
        row ← on_shelf (push_control (to_hex (to_vec from_peer)) (conv_seq h) (sent_at h) (lit "binding_conflict")
                          (to_hex (to_vec identity_id)) 0 false);
        mret (Some row)
      else mret None
  end.

(** ** Sending to a contact *)

Definition count (conv : rstring) : am N := on_shelf (fun s => let '(n, s) := bump_seq conv s in (s, n)).

Definition reply_opt (reply : N) : option N := if reply =? 0 then None else Some reply.

(** [send_text_with_reply]. *)
Definition send_text_with_reply (peer_id_hex txt : rstring) (reply : N) : am DisplayRow :=
  peer ← ffi_wire (parse_identity_id peer_id_hex);
  now ← now_unix;
  n ← count peer_id_hex;
  ptext ← ffi (app_encode (mk_app_msg (header n now (reply_opt reply)) (AppText txt)));
  s ← my_shelf;
  on_session (send_to peer (ttl_for peer_id_hex s) ptext now);;
  quietly (ensure_intro_sent peer now);;
  quietly (send_cached_binding_gossip peer now);;
  row ← on_shelf (push_row (own_text peer_id_hex n now txt reply));
  persist;;
  mret row.

(** [send_file_with_reply]. *)
Definition send_file_with_reply (peer_id_hex name mime : rstring) (data : bytes) (reply : N) : am DisplayRow :=
  peer ← ffi_wire (parse_identity_id peer_id_hex);
  now ← now_unix;
  n ← count peer_id_hex;
  let meta := mk_file_meta name mime (lenN data) in
  ptext ← ffi (app_encode (mk_app_msg (header n now (reply_opt reply)) (AppAttachment data meta None)));
  on_session (send_attachment peer TTL_DEFAULT ptext now);;
  quietly (ensure_intro_sent peer now);;
  quietly (send_cached_binding_gossip peer now);;
  row ← on_shelf (push_file peer_id_hex n now meta data (lit "") reply true);
  persist;;
  mret row.

(** ** Groups *)

Definition group_at (n : nat) : am LiveGroup :=
  i ← me; lift (ok_or (live_groups i !! n) (FfiText "unknown group")).

Definition append (n : nat) (t : MessageType) (l : bytes) : am unit :=
  g ← group_at n;
  on_session (client_group_append (hg_group_id (lg_host g)) (hg_cred (lg_host g)) t l);; mret tt.

(** [flush_mls_update]. *)
Definition flush_mls_update (n : nat) : am unit :=
  g ← group_at n;
  if has_pending_commit (lg_mls g) then mret tt
  else
    now ← system_now;
    clock ← system_now;
    hs ← on_group n (maybe_self_update now clock);
    match hs with
    | None => mret tt
    | Some hs =>
        append n MlsHandshake hs;;
        now ← system_now;
        on_group n (apply_handshake hs now);; mret tt
    end.

(** [refresh_group_members]. *)
Definition refresh_group_members (g : Group) : am unit :=
  now ← now_unix; on_session (refresh_mls_identities (member_identity_ids g) now).

(** The encryption of a message and its append to the stream. *)
Definition append_app (n : nat) (ptext : bytes) : am unit :=
  now ← system_now;
  body ← on_group n (group_encrypt ptext now);
  append n MlsApp body.

(** [send_group_text_with_reply]. *)
Definition send_group_text_with_reply (group_id_hex txt : rstring) (reply : N) : am DisplayRow :=
  now ← now_unix;
  n ← count group_id_hex;
  ptext ← ffi (app_encode (mk_app_msg (header n now (reply_opt reply)) (AppText txt)));
  registered;;
  '(k, g) ← find_group_mut group_id_hex;
  refresh_group_members (lg_mls g);;
  flush_mls_update k;;
  append_app k ptext;;
  row ← on_shelf (push_row (own_text group_id_hex n now txt reply));
  persist;;
  mret row.

(** [send_group_file_with_reply]. *)
Definition own_file (conv : rstring) (n now : N) (name mime : rstring) (data : bytes) (token : rstring) (reply : N) : DisplayRow :=
  mk_row conv n name now name mime data token (lit "file") (lit "") 0 false now true (lit "") (lit "") reply.

Definition send_group_file_with_reply (group_id_hex name mime : rstring) (data : bytes) (reply : N) : am DisplayRow :=
  now ← now_unix;
  token ← world random_key;
  seed ← world random_key;
  rnd ← world random_key;
  '(k_bytes, bucket, blob) ← ffi (seal_group_file data seed rnd);
  n ← count group_id_hex;
  registered;;
  '(k, g) ← find_group_mut group_id_hex;
  refresh_group_members (lg_mls g);;
  flush_mls_update k;;
  append k AttachmentReserveType (reserve_encode (mk_reserve token bucket TTL_DEFAULT));;
  g ← group_at k;
  on_session (client_upload_file (hg_group_id (lg_host g)) (hg_cred (lg_host g)) token blob);;
  ptext ← ffi (app_encode (mk_app_msg (header n now (reply_opt reply))
            (AppAttachment k_bytes (mk_file_meta name mime (lenN data)) (Some token))));
  append_app k ptext;;
  row ← on_shelf (push_row (own_file group_id_hex n now name mime data (to_hex (to_vec token)) reply));
  persist;;
  mret row.

(** [fetch_group_file]. *)
Definition fetch_group_file (group_id_hex token_hex : rstring) : am bytes :=
  gid ← ffi_wire (parse_identity_id group_id_hex);
  l ← ffi_wire (from_hex token_hex);
  token ← ffi_wire (copy_fixed KEY_LEN l);
  registered;;
  i ← me;
  match list_find (fun g => hg_group_id (lg_host g) = gid) (live_groups i) with
  | Some (_, g) => on_session (client_fetch_file gid (hg_cred (lg_host g)) token)
  | None => throw (FfiText "unknown group")
  end.

(** [transmit_app]. *)
Definition transmit_app (conv : rstring) (body : AppBody) (now n : N) : am unit :=
  ptext ← ffi (app_encode (mk_app_msg (header n now None) body));
  s ← my_shelf;
  registered;;
  id ← ffi_wire (parse_identity_id conv);
  i ← me;
  match group_index id (live_groups i) with
  | Some k => append_app k ptext
  | None => on_session (send_to id (ttl_for conv s) ptext now);; mret tt
  end.

(** [send_app]. *)
Definition send_app (conv : rstring) (body : AppBody) (now : N) : am DisplayRow :=
  n ← count conv;
  '(k, em, tgt) ← match body with
                  | AppReaction tgt em => mret (REACTION, em, tgt)
                  | AppDelete _ => throw (FfiText "use hard delete path")
                  | AppDisappear seconds => mret (lit "disappear", dec_string seconds, 0)
                  | _ => throw (FfiText "unsupported app body")
                  end;
  transmit_app conv body now n;;
  on_shelf (push_control conv n now k em tgt true).

(** [react]. *)
Definition react (conv : rstring) (tgt : N) (em : rstring) : am DisplayRow :=
  now ← now_unix;
  '(off, n) ← on_shelf (react_local conv tgt em);
  transmit_app conv (AppReaction tgt em) now n;;
  if (off : bool) then persist;; mret (reaction_removed_marker conv tgt em now true)
  else
    row ← on_shelf (push_row (own_reaction conv n now em tgt));
    persist;;
    mret row.

Definition delete_rows (conv : rstring) (tgt : N) : am unit :=
  set_shelf (fun s => s <| inbox ::= fun rows => (remove_target conv tgt rows).1 |>).

(** [delete_message]: the rows are gone also when the broadcast fails. *)
Definition delete_message (conv : rstring) (tgt : N) : am DisplayRow :=
  now ← now_unix;
  delete_rows conv tgt;;
  n ← count conv;
  res ← attempt (transmit_app conv (AppDelete tgt) now n);
  persist;;
  lift res;;
  mret (removed_marker conv tgt now true).

Definition delete_message_for_me (conv : rstring) (tgt : N) : am DisplayRow :=
  now ← now_unix;
  delete_rows conv tgt;;
  persist;;
  mret (removed_marker conv tgt now true).

Definition set_disappear (conv : rstring) (seconds : N) : am DisplayRow :=
  set_shelf (fun s => s <| timers ::= <[conv := seconds]> |>);;
  now ← now_unix;
  row ← send_app conv (AppDisappear seconds) now;
  persist;;
  mret row.

Definition disappear_secs (conv : rstring) (i : Inner) : N := default 0 (timers (shelf i) !! conv).

(** [mark_read]. *)
Definition mark_read (conv : rstring) (upto : N) : am unit :=
  peer ← ffi_wire (parse_identity_id conv);
  now ← now_unix;
  i ← me;
  match group_index peer (live_groups i) with
  | Some _ =>
      let upto := N.min upto (seq_of conv (shelf i)) in
      if upto =? 0 then mret tt
      else
        registered;;
        '(k, g) ← find_group_mut conv;
        if member_count (lg_mls g) <=? 1 then mret tt
        else
          refresh_group_members (lg_mls g);;
          flush_mls_update k;;
          ptext ← ffi (app_encode (mk_app_msg (header 0 now None) (AppRead upto)));
          append_app k ptext;;
          persist
  | None =>
      s ← registered;
      c ← ffi (match contacts s !! peer with
               | Some c => if revoked c then Err Revoked else Ok c
               | None => Err UnknownContact
               end);
      ptext ← ffi (app_encode (mk_app_msg (header 0 now None) (AppRead upto)));
      t ← world clock_ms;
      rnd ← world random_key;
      token ← world random_key;
      seal_rnd ← world random_key;
      outer ← on_session (on_install (encrypt_to_mailbox peer (dest_hpke c) (contact_capability c) TTL_DEFAULT ptext t rnd token seal_rnd));
      on_session (client_post_envelope outer);; mret tt
  end.

(** ** Group life cycle *)

(** [create_group]. *)
Definition create_group (nickname : rstring) : am rstring :=
  s ← registered;
  cid ← world random_key;
  seed ← world random_key;
  now ← system_now;
  g ← on_mls_provider (mls_create_group (install s) cid seed now);
  cap ← on_session client_mint_contact;
  host ← on_session (client_create_group (group_signing_public g) cap);
  on_session (remember_group host);;
  set_inner (fun i => i <| live_groups ::= fun gs => gs ++ [mk_live host g nickname] |>);;
  persist;;
  mret (to_hex (to_vec (hg_group_id host))).

(** [mint_invite]. *)
Definition mint_invite (group_id_hex : rstring) (bind_identity : option key) : am rstring :=
  s ← registered;
  bind_pk ← match bind_identity with
            | Some id => c ← ffi (ok_or (contacts s !! id) UnknownContact); mret (Some (pin_identity_public_key (contact_pin c)))
            | None => mret None
            end;
  '(_, g) ← find_group_mut group_id_hex;
  nonce ← world random_key;
  salt ← world random_key;
  let gid := hg_group_id (lg_host g) in
  invite ← ffi (group_sign_invite gid nonce default_invite_ttl ((fun pk => (pk, salt)) <$> bind_pk) (lg_mls g));
  on_session (client_store_invite gid (hg_cred (lg_host g)) invite);;
  (if bool_decide (is_Some (invite_binding invite))
   then set_inner (fun i => i <| minted ::= <[invite_nonce invite := invite]> |>) else mret tt);;
  mret (str_cat GROUP_INVITE_PREFIX (to_hex (invite_encode invite))).

Definition mint_group_invite (group_id_hex : rstring) : am rstring :=
  uri ← mint_invite group_id_hex None; persist;; mret uri.

Definition mint_bound_group_invite (group_id_hex identity_id_hex : rstring) : am rstring :=
  id ← ffi_wire (parse_identity_id identity_id_hex);
  uri ← mint_invite group_id_hex (Some id); persist;; mret uri.

(** [accept_group_invite]. *)
Definition accept_group_invite (invite_uri : rstring) : am rstring :=
  invite ← lift (parse_group_invite invite_uri);
  let gid := invite_group_id invite in
  acc ← on_session (client_accept_invite gid (invite_nonce invite));
  s ← registered;
  seed ← world random_key;
  j ← on_mls_provider (prepare_join (install s) (hc_id (ha_cred acc)) seed);
  cap ← on_session client_mint_contact;
  s ← registered;
  proof ← (if bool_decide (is_Some (invite_binding invite))
           then p ← ffi (sign_invitee_proof (install s) gid (ha_pending_id acc)); mret (Some p)
           else mret None);
  let uri := join_request_uri (mk_join_request gid (ha_pending_id acc) (pj_key_package j) (pj_group_signing_public j) cap
               (own_hpke s) (hc_id (ha_cred acc)) (invite_nonce invite) proof (ha_binding acc)) in
  set_inner (fun i => i <| joins ::= <[gid := mk_pentry j acc]> |>);;
  persist;;
  mret uri.

(** The check of a bound invite in [admit_join]. *)
Definition check_bound (looked : ClientPendingLookup) (req : JoinRequest) (invitee_pk : key) : result FfiError unit :=
  match pl_binding looked with
  | None => Ok tt
  | Some want =>
      proof ← core_err (ok_or (jr_proof req) BoundInvite);
      if negb (bool_decide (proof_pending_id proof = jr_pending_id req)) then Err (FfiCore BoundInvite)
      else
        salt ← core_err (ok_or (pl_salt looked) BoundInvite);
        if negb (bool_decide (invitee_binding invitee_pk salt = want)) then Err (FfiCore BoundInvite)
        else
          vk ← ok_or (vk_from_bytes invitee_pk) (FfiText "invitee key");
          wire_err (proof_verify proof vk)
  end.

(** The name of the group for the new member, sent without effect on failure. *)
Definition sync_group_name (k : nat) (gid invitee : key) : am unit :=
  g ← group_at k;
  if bool_decide (as_bytes (lg_nickname g) = []) then mret tt
  else
    let peer_hex := to_hex (to_vec invitee) in
    n ← count peer_hex;
    s ← my_shelf;
    now ← now_unix;
    match app_encode (mk_app_msg (header n now None) (AppGroupName gid (lg_nickname g))) with
    | Ok ptext => now ← now_unix; quietly (on_session (send_to invitee (ttl_for peer_hex s) ptext now));; mret tt
    | Err _ => mret tt
    end.

(** [admit_join]. *)
Definition admit_join (uri : rstring) : am rstring :=
  req ← lift (parse_join_request uri);
  registered;;
  invitee_pk ← ffi (key_package_identity_pk (jr_key_package req));
  let invitee := identity_id invitee_pk in
  now ← now_unix;
  on_session (check_discovery_not_revoked invitee now);;
  i ← me;
  k ← lift (ok_or (group_index (jr_group_id req) (live_groups i)) (FfiText "unknown group"));
  g ← group_at k;
  let cred := hg_cred (lg_host g) in
  looked ← on_session (client_lookup_pending (jr_group_id req) cred (jr_pending_id req));
  ffi (ensure (bool_decide (pl_credential_id looked = jr_credential_id req)) CredentialIdMismatch);;
  lift (check_bound looked req invitee_pk);;
  flush_mls_update k;;
  g ← group_at k;
  admitted ← ffi (group_sign_admit (jr_group_id req) (jr_pending_id req) (lg_mls g));
  '(commit, welcome) ← on_group k (mls_admit (jr_key_package req) (pl_credential_id looked));
  on_session (client_admit (jr_group_id req) cred admitted (jr_signing_pk req) (jr_cap req) (jr_hpke req));;
  append k MlsHandshake commit;;
  now ← system_now;
  on_group k (apply_handshake commit now);;
  token ← world random_key;
  rnd ← world random_key;
  outer ← ffi (wrap_handshake (jr_hpke req) (jr_cap req) TTL_DEFAULT welcome token rnd);
  on_session (client_post_envelope outer);;
  sync_group_name k (jr_group_id req) invitee;;
  persist;;
  mret (to_hex (to_vec (jr_credential_id req))).

(** [remove_group_member]. *)
Definition remove_group_member (group_id_hex credential_id_hex : rstring) : am unit :=
  cred ← ffi_wire (parse_identity_id credential_id_hex);
  registered;;
  '(k, g) ← find_group_mut group_id_hex;
  let gid := hg_group_id (lg_host g) in
  bundle ← on_group k (group_remove gid cred);
  l ← ffi_wire (remove_encode bundle);
  append k RemoveBundleType l;;
  now ← system_now;
  on_group k (apply_remove_bundle gid bundle now);;
  persist.

(** ** Group rows of the mailbox *)

Inductive MlsRowFate : Type := RowDone | RowRetry.

Definition fate (retry : bool) : MlsRowFate := if retry then RowRetry else RowDone.

Definition indices (i : Inner) : list nat := seq 0 (length (live_groups i)).

(** The loop over the groups of a handshake; an own commit that was merged
    before its echo is of a past epoch and is not retried. *)
Fixpoint handshake_groups (ns : list nat) (env : InnerEnvelope) (ep : option N) (retry : bool) : am MlsRowFate :=
  match ns with
  | [] => mret (fate retry)
  | n :: ns =>
      now ← system_now;
      r ← attempt (on_group n (apply_handshake_from_mailbox env now));
      match r with
      | Ok _ => mret RowDone
      | Err (FfiCore e) =>
          g ← group_at n;
          let past := match e, ep with MlsWrongEpoch, Some ep => ep <? group_epoch (lg_mls g) | _, _ => false end in
          handshake_groups ns env ep (if past then retry else retry || mls_retryable e)
      | Err _ => handshake_groups ns env ep retry
      end
  end.

(** The loop over the pending joins of a Welcome. *)
Fixpoint welcome_joins (gids : list key) (body : bytes) : am MlsRowFate :=
  match gids with
  | [] => mret RowDone
  | gid :: gids =>
      i ← me;
      match joins i !! gid with
      | None => welcome_joins gids body
      | Some entry =>
          if negb (welcome_matches (pe_pending entry) body) then welcome_joins gids body
          else
            set_inner (fun i => i <| joins ::= delete gid |>);;
            let backup := ok (pj_encode (pe_pending entry)) in
            now ← system_now;
            r ← attempt (on_mls_provider (pj_join (pe_pending entry) body now));
            match r with
            | Ok g =>
                s ← registered;
                let host := mk_hgroup gid (ha_cred (pe_host entry)) (home_base s) in
                on_session (remember_group host);;
                i ← me;
                set_inner (fun i => i <| pending_names ::= delete gid |>
                  <| live_groups ::= fun gs => gs ++ [mk_live host g (default (lit "") (pending_names i !! gid))] |>);;
                mret RowDone
            | Err _ =>
                match backup with
                | Some l =>
                    restored ← quietly (on_mls_provider (pj_decode l));
                    match restored with
                    | Some j => set_inner (fun i => i <| joins ::= <[gid := mk_pentry j (pe_host entry)]> |>)
                    | None => mret tt
                    end
                | None => mret tt
                end;;
                mret RowRetry
            end
      end
  end.

(** The first group that decrypts a message. *)
Fixpoint open_app (ns : list nat) (env : InnerEnvelope) (retry : bool) : am (MlsRowFate + (HostGroup * bytes * key)) :=
  match ns with
  | [] => mret (inl (fate retry))
  | n :: ns =>
      g ← group_at n;
      r ← attempt (on_group n (decrypt_from_mailbox_with_sender env));
      match r with
      | Ok (ptext, sender) => mret (inr (lg_host g, ptext, sender))
      | Err (FfiCore e) => open_app ns env (retry || mls_retryable e)
      | Err _ => open_app ns env retry
      end
  end.

Definition named (sender name : rstring) (r : DisplayRow) : DisplayRow := r <| sender_id := sender |> <| sender_name := name |>.

(** The rows that a decrypted group message adds. *)
Definition group_message (host : HostGroup) (msg : AppMessage) (sender_hex name self_id : rstring) : am (list DisplayRow) :=
  let conv := to_hex (to_vec (hg_group_id host)) in
  let h := app_header msg in
  let reply := default 0 (reply_to h) in
  match app_body msg with
  | AppText txt =>
      out ← on_shelf (push_text conv (conv_seq h) txt (sent_at h) reply false);
      mret [named sender_hex name out]
  | AppAttachment enc_file meta (Some token) =>
      blob ← quietly (on_session (client_fetch_file (hg_group_id host) (hg_cred host) token));
      match blob ≫= fun b => ok (open_group_file enc_file b) with
      | Some data =>
          out ← on_shelf (push_file conv (conv_seq h) (sent_at h) meta data (to_hex (to_vec token)) reply false);
          mret [named sender_hex name out]
      | None => mret []
      end
  | AppReaction tgt em => out ← on_shelf (recv_reaction conv sender_hex name h tgt em); mret [out]
  | AppDelete tgt => out ← on_shelf (recv_delete conv h tgt); mret [out]
  | AppDisappear seconds => out ← on_shelf (recv_disappear conv h seconds); mret [out]
  | AppRead upto =>
      (if str_is sender_hex self_id then mret tt else set_shelf (recv_group_read conv sender_hex upto));; mret []
  | AppBindingGossip id sq server =>
      out ← apply_binding_gossip (hg_group_id host) id sq server h;
      mret (option_list out)
  | _ => mret []
  end.

Fixpoint replace_keys (ns : list nat) (body : bytes) : am unit :=
  match ns with
  | [] => mret tt
  | n :: ns => quietly (on_group n (apply_signing_key_replace body));; replace_keys ns body
  end.

Fixpoint remove_groups (ns : list nat) (env : InnerEnvelope) (retry : bool) : am MlsRowFate :=
  match ns with
  | [] => mret (fate retry)
  | n :: ns =>
      g ← group_at n;
      now ← system_now;
      r ← attempt (on_group n (apply_remove_from_mailbox (hg_group_id (lg_host g)) env now));
      match r with
      | Ok _ => mret RowDone
      | Err (FfiCore e) => remove_groups ns env (retry || mls_retryable e)
      | Err _ => remove_groups ns env retry
      end
  end.

(** [apply_group_mailbox_row]. *)
Definition apply_group_mailbox_row (self_id : rstring) (env : InnerEnvelope) : am (MlsRowFate * list DisplayRow) :=
  i ← me;
  let body := body (padded_message env) in
  match type_ (padded_message env) with
  | MlsHandshake =>
      if is_welcome body then
        w ← gets net;
        f ← welcome_joins (map_order w (map fst (map_to_list (joins i)))) body; mret (f, [])
      else
        f ← handshake_groups (indices i) env (ok (handshake_message_epoch env)) false; mret (f, [])
  | SigningKeyReplaceType => replace_keys (indices i) body;; mret (RowDone, [])
  | MlsApp =>
      opened ← open_app (indices i) env false;
      match opened with
      | inl f => mret (f, [])
      | inr (host, ptext, sender) =>
          let sender_hex := to_hex (to_vec sender) in
          s ← my_shelf;
          let name := default (lit "") (names s !! sender_hex) in
          match app_decode ptext with
          | Ok msg => rows ← group_message host msg sender_hex name self_id; mret (RowDone, rows)
          | Err _ => mret (RowDone, [])
          end
      end
  | RemoveBundleType => f ← remove_groups (indices i) env false; mret (f, [])
  | _ => mret (RowDone, [])
  end.

(** ** Calls *)

Definition body_call_id (body : AppBody) : rstring :=
  match body with
  | AppCallRinging cid | AppCallReject cid | AppCallCancel cid | AppCallEnd cid | AppCallIce cid _ => to_hex (to_vec cid)
  | _ => lit ""
  end.

(** [emit_call]. *)
Definition emit_call (peer_hex : rstring) (body : AppBody) (k : rstring) (now : N) (echo : bool) : am DisplayRow :=
  n ← count peer_hex;
  ptext ← ffi (app_encode (mk_app_msg (header n now None) body));
  peer ← ffi_wire (parse_identity_id peer_hex);
  on_session (send_to_now peer invite_ttl_bucket ptext now);;
  let id := body_call_id body in
  if echo then on_shelf (push_control peer_hex n now k id 0 true)
  else mret (mk_row peer_hex n id now (lit "") (lit "") [] (lit "") k (lit "") 0 false now true (lit "") (lit "") 0).

(** [send_call_body]. *)
Definition send_call_body (peer_hex : rstring) (body : AppBody) (k : rstring) (now : N) : am DisplayRow :=
  registered;; emit_call peer_hex body k now true.

(** [hangup_live]. *)
Definition hangup_live : am unit :=
  i ← me;
  match live_call i with
  | Some c => set_inner (fun i => i <| live_call := None |>);; quietly (on_call (close c));; mret tt
  | None => mret tt
  end;;
  set_inner (fun i => i <| call_peer := None |> <| call_connected := false |>).

(** [TurnConfig::from_env]. *)
Definition turn_from_env (w : W) : TurnConfig :=
  let var name dflt := default dflt (env_var name w) in
  mk_turn_config (var (lit "NEMO_TURN_URL") (lit "turn:127.0.0.1:3478")) (var (lit "NEMO_TURN_USER") (lit "nemo"))
    (var (lit "NEMO_TURN_PASS") (lit "nemo")) (ice_bind w).

(** [turn_config]. *)
Definition turn_config : am TurnConfig :=
  t ← quietly (on_session client_issue_turn);
  w ← gets net;
  mret (default (turn_from_env w) t).

(** [call_cbr]. *)
Definition call_cbr (i : Inner) : bool :=
  match cl_state i with
  | Some (Registered s) => match privacy s with Private | High => true | _ => false end
  | _ => false
  end.

Definition calls_permitted : am unit :=
  i ← me;
  match cl_state i with
  | Some (Registered s) => if session_calls_allowed s then mret tt else throw (FfiCore CallsUnavailable)
  | _ => mret tt
  end.

(** The common end of [start_call] and [answer_call]: the signal is sent, the
    call becomes the live one. *)
Definition go_live (c : Call P) (peer_hex : rstring) (body : AppBody) (connected : bool) (k : rstring) (now : N) : am DisplayRow :=
  n ← count peer_hex;
  ptext ← ffi (app_encode (mk_app_msg (header n now None) body));
  peer ← ffi_wire (parse_identity_id peer_hex);
  on_session (send_to_now peer invite_ttl_bucket ptext now);;
  set_inner (fun i => i <| live_call := Some c |> <| call_peer := Some peer_hex |> <| call_connected := connected |>);;
  on_shelf (push_control peer_hex n now k (to_hex (to_vec (call_id c))) 0 true).

(** [start_call]. *)
Definition start_call (peer_id_hex : rstring) : am DisplayRow :=
  i ← me;
  if bool_decide (is_Some (live_call i)) then throw (FfiText "call already live")
  else
    calls_permitted;;
    turn ← turn_config;
    i ← me;
    c ← on_call (offer_with turn (call_cbr i));
    now ← now_unix;
    let l := local c in
    go_live c peer_id_hex (AppCallInvite (ls_call_id l) (ls_sdp l) (ls_dtls_fp l) (ls_ice l) (u64_add now 60)) false
      (lit "call_invite") now.

(** [answer_call]: the invite is taken before the call is set up. *)
Definition answer_call (call_id_hex : rstring) : am DisplayRow :=
  i ← me;
  p ← lift (ok_or (pending_invites i !! call_id_hex) (FfiText "unknown call"));
  set_inner (fun i => i <| pending_invites ::= delete call_id_hex |>);;
  turn ← turn_config;
  calls_permitted;;
  i ← me;
  c ← on_call (answer_with turn (pi_signal p) (call_cbr i));
  now ← now_unix;
  let l := local c in
  go_live c (pi_peer p) (AppCallAnswer (ls_call_id l) (ls_sdp l) (ls_dtls_fp l) (ls_ice l)) true (lit "call_answer") now.

(** [reject_call]. *)
Definition reject_call (call_id_hex : rstring) : am DisplayRow :=
  i ← me;
  p ← lift (ok_or (pending_invites i !! call_id_hex) (FfiText "unknown call"));
  set_inner (fun i => i <| pending_invites ::= delete call_id_hex |>);;
  now ← now_unix;
  send_call_body (pi_peer p) (AppCallReject (ls_call_id (pi_signal p))) (lit "call_reject") now.

(** [end_call]. *)
Definition end_call : am DisplayRow :=
  now ← now_unix;
  i ← me;
  match live_call i with
  | Some c =>
      set_inner (fun i => i <| live_call := None |>);;
      quietly (on_call (close c));;
      set_inner (fun i => i <| call_peer := None |> <| call_connected := false |>);;
      let peer_hex := default (lit "") (call_peer i) in
      if bool_decide (as_bytes peer_hex = []) then throw (FfiText "no live call")
      else if call_connected i then send_call_body peer_hex (AppCallEnd (call_id c)) (lit "call_end") now
      else send_call_body peer_hex (AppCallCancel (call_id c)) (lit "call_cancel") now
  | None =>
      w ← gets net;
      match head (map_order w (map_to_list (pending_invites i))) with
      | None => throw (FfiText "no live call")
      | Some (hex, p) =>
          set_inner (fun i => i <| pending_invites ::= delete hex |>);;
          send_call_body (pi_peer p) (AppCallReject (ls_call_id (pi_signal p))) (lit "call_reject") now
      end
  end.

(** [call_state]. *)
Definition call_status (i : Inner) : rstring :=
  match live_call i with
  | Some _ => if call_connected i then lit "live" else lit "calling"
  | None => if bool_decide (pending_invites i = ∅) then lit "idle" else lit "ringing"
  end.

(** What one turn of the thread [pump_trickle] did: sent candidates, waited, or
    ended. *)
Inductive trickle : Type := TrickleSent | TrickleWait | TrickleEnd.

(** One turn of [pump_trickle]; the shared flags it reads are those of [c]. *)
Definition pump_trickle (c : Call P) (peer_hex : rstring) : am trickle :=
  cl ← on_call is_closed;
  if (cl : bool) then mret TrickleEnd
  else
    r ← attempt (on_call take_unsent_ice);
    match r with
    | Err _ => mret TrickleEnd
    | Ok [] => gd ← on_call ice_gathering_done; if (gd : bool) then mret TrickleEnd else mret TrickleWait
    | Ok extra =>
        now ← now_unix;
        i ← me;
        if negb (bool_decide (call_id <$> live_call i = Some (call_id c))) then mret TrickleEnd
        else
          match the_session i with
          | Err _ => mret TrickleEnd
          | Ok _ => quietly (emit_call peer_hex (AppCallIce (call_id c) extra) (lit "call_ice") now false);; mret TrickleSent
          end
    end.

(** ** Fetching *)

Record fetched : Type := mk_fetched { f_rows : list DisplayRow; f_gossip : list key; f_acks : gmap key N }.

Definition add_row (r : DisplayRow) (f : fetched) : fetched := mk_fetched (f_rows f ++ [r]) (f_gossip f) (f_acks f).

(** A row of a call that is only shown. *)
Definition call_row (peer : key) (h : AppHeader) (k : rstring) (cid : CallId) (f : fetched) : am fetched :=
  r ← on_shelf (push_control (to_hex (to_vec peer)) (conv_seq h) (sent_at h) k (to_hex (to_vec cid)) 0 false);
  mret (add_row r f).

(** The arms of a contact's message that belong to calls. *)
Definition call_message (peer : key) (h : AppHeader) (body : AppBody) (f : fetched) : am fetched :=
  let conv := to_hex (to_vec peer) in
  match body with
  | AppCallInvite cid sdp fp ice ex =>
      now ← now_unix;
      (if now <? ex then
         set_inner (fun i => i <| pending_invites ::= <[to_hex (to_vec cid) := mk_pinvite conv (mk_signal cid sdp fp ice) ex]> |>);;
         now ← now_unix;
         quietly (emit_call conv (AppCallRinging cid) (lit "call_ringing") now false);; mret tt
       else mret tt);;
      call_row peer h (lit "call_invite") cid f
  | AppCallAnswer cid sdp fp ice =>
      i ← me;
      match live_call i with
      | Some c =>
          r ← quietly (on_call (apply_answer c (mk_signal cid sdp fp ice)));
          match r with Some _ => set_inner (fun i => i <| call_connected := true |>) | None => mret tt end
      | None => mret tt
      end;;
      call_row peer h (lit "call_answer") cid f
  | AppCallIce cid ice =>
      i ← me;
      match live_call i with
      | Some c => if bool_decide (call_id c = cid) then quietly (on_call (add_remote_ice c ice));; mret tt else mret tt
      | None => mret tt
      end;;
      mret f
  | AppCallRinging cid => call_row peer h (lit "call_ringing") cid f
  | AppCallEnd cid => hangup_live;; call_row peer h (lit "call_end") cid f
  | AppCallReject cid =>
      hangup_live;; set_inner (fun i => i <| pending_invites ::= delete (to_hex (to_vec cid)) |>);;
      call_row peer h (lit "call_reject") cid f
  | AppCallCancel cid =>
      hangup_live;; set_inner (fun i => i <| pending_invites ::= delete (to_hex (to_vec cid)) |>);;
      call_row peer h (lit "call_cancel") cid f
  | _ => mret f
  end.

(** The arms of [fetch_now] for a message of a contact. *)
Definition direct_message (peer : key) (msg : AppMessage) (f : fetched) : am fetched :=
  let h := app_header msg in
  let conv := to_hex (to_vec peer) in
  let reply := default 0 (reply_to h) in
  match app_body msg with
  | AppText txt =>
      r ← on_shelf (push_text conv (conv_seq h) txt (sent_at h) reply false);
      let upto := match f_acks f !! peer with Some u => N.max u (conv_seq h) | None => conv_seq h end in
      mret (mk_fetched (f_rows f ++ [r]) (f_gossip f ++ [peer]) (<[peer := upto]> (f_acks f)))
  | AppAttachment enc_file meta None =>
      r ← on_shelf (push_file conv (conv_seq h) (sent_at h) meta enc_file (lit "") reply false);
      mret (add_row r f)
  | AppCapability cap intro =>
      now ← now_unix;
      r ← quietly (on_session (apply_contact_capability peer cap intro now));
      match r with
      | Some real =>
          let to := to_hex (to_vec real) in
          set_shelf (remap_conv_id conv to);;
          mret (mk_fetched (map (rename_row conv to) (f_rows f)) (f_gossip f) (f_acks f))
      | None => mret f
      end
  | AppReaction tgt em =>
      s ← my_shelf;
      r ← on_shelf (recv_reaction conv conv (default (lit "") (names s !! conv)) h tgt em);
      mret (add_row r f)
  | AppDelete tgt => r ← on_shelf (recv_delete conv h tgt); mret (add_row r f)
  | AppDisappear seconds => r ← on_shelf (recv_disappear conv h seconds); mret (add_row r f)
  | AppGroupName gid name =>
      (if bool_decide (as_bytes name = []) then mret tt
       else set_inner (fun i =>
              match list_find (fun g => hg_group_id (lg_host g) = gid) (live_groups i) with
              | Some (n, g) => i <| live_groups ::= <[n := mk_live (lg_host g) (lg_mls g) name]> |>
              | None => i <| pending_names ::= <[gid := name]> |>
              end));;
      mret f
  | AppProtocolAck upto => set_shelf (recv_ack conv upto);; mret f
  | AppRead upto => set_shelf (recv_read conv upto);; mret f
  | AppCallInvite _ _ _ _ _ | AppCallAnswer _ _ _ _ | AppCallIce _ _ | AppCallRinging _ | AppCallEnd _ | AppCallReject _
  | AppCallCancel _ => call_message peer h (app_body msg) f
  | AppBindingGossip id sq server =>
      r ← apply_binding_gossip peer id sq server h;
      mret (match r with Some r => add_row r f | None => f end)
  | _ => mret f
  end.

(** The rows of contacts up to [ack_upto]. *)
Fixpoint direct_pass (rows : list MailboxRow) (ack_upto : N) (peers : list key) (f : fetched) : am fetched :=
  match rows with
  | [] => mret f
  | row :: rows =>
      if ack_upto <? mrow_seq row then direct_pass rows ack_upto peers f
      else
        rnd ← world random_stream;
        r ← quietly (on_session (on_install (decrypt_incoming (mrow_inner row) peers rnd)));
        f ← match r with
            | Some (peer, ptext) =>
                match app_decode ptext with Ok msg => direct_message peer msg f | Err _ => mret f end
            | None => mret f
            end;
        direct_pass rows ack_upto peers f
  end.

Definition lost_row : am DisplayRow :=
  now ← now_unix; on_shelf (push_control SYSTEM 0 now (lit "lost") (lit "") 0 false).

(** The pass over the rows of groups, which stops at a row that is to be tried
    again; the value is the last row that is done. *)
Fixpoint group_pass (self_id : rstring) (rows : list MailboxRow) (ack_upto : N) (out : list DisplayRow) : am (N * list DisplayRow) :=
  match rows with
  | [] => mret (ack_upto, out)
  | row :: rows =>
      '(f, new) ← apply_group_mailbox_row self_id (mrow_inner row);
      let sq := mrow_seq row in
      match f with
      | RowDone =>
          set_inner (fun i => i <| mailbox_retries ::= delete sq |>);;
          group_pass self_id rows sq (out ++ new)
      | RowRetry =>
          i ← me;
          let n := N.min (default 0 (mailbox_retries i !! sq) + 1) U8_MAX in
          set_inner (fun i => i <| mailbox_retries ::= <[sq := n]> |>);;
          if MAILBOX_MLS_RETRIES <=? n then
            set_inner (fun i => i <| mailbox_retries ::= delete sq |>);;
            r ← lost_row;
            group_pass self_id rows sq (out ++ new ++ [r])
          else mret (ack_upto, out ++ new)
      end
  end.

Fixpoint send_acks (acks : list (key * N)) (now : N) : am unit :=
  match acks with
  | [] => mret tt
  | (peer, upto) :: acks =>
      s ← registered;
      (if bool_decide (is_Some (contacts s !! peer)) then
         match app_encode (mk_app_msg (header 0 now None) (AppProtocolAck upto)) with
         | Ok l => quietly (on_session (send_to peer TTL_DEFAULT l now));; mret tt
         | Err _ => mret tt
         end
       else mret tt);;
      send_acks acks now
  end.

Fixpoint send_gossip (peers : list key) (now : N) : am unit :=
  match peers with
  | [] => mret tt
  | peer :: peers =>
      s ← registered;
      (if bool_decide (is_Some (contacts s !! peer)) then
         quietly (send_own_contact_capability peer now);;
         quietly (send_cached_binding_gossip peer now);; mret tt
       else mret tt);;
      send_gossip peers now
  end.

(** ** Idle maintenance *)

(** The members of groups that are no contacts, checked for revocation. *)
Fixpoint check_extras (ids : list key) (now : N) (newly : list key) : am (list key) :=
  match ids with
  | [] => mret newly
  | id :: ids =>
      i ← me;
      let due := match group_discovery_at i !! id with
                 | Some t => DISCOVERY_REFRESH_SECS <=? saturating_sub now t
                 | None => true
                 end in
      if negb due then check_extras ids now newly
      else
        gone ← on_session (identity_is_revoked id now);
        set_inner (fun i => i <| group_discovery_at ::= <[id := now]> |>);;
        check_extras ids now (if (gone : bool) then newly ++ [id] else newly)
  end.

(** A revoked identity is removed from every group. *)
Fixpoint remove_revoked (ns : list nat) (id : key) : am unit :=
  match ns with
  | [] => mret tt
  | n :: ns =>
      g ← group_at n;
      let gid := hg_group_id (lg_host g) in
      match credential_id_for_identity id (lg_mls g) with
      | None => mret tt
      | Some cred =>
          if bool_decide (cred = g_credential_id (lg_mls g)) then mret tt
          else
            r ← quietly (on_group n (group_remove gid cred));
            match r with
            | None => mret tt
            | Some bundle =>
                l ← ffi_wire (remove_encode bundle);
                sent ← quietly (append n RemoveBundleType l);
                match sent with
                | Some _ => now ← system_now; quietly (on_group n (apply_remove_bundle gid bundle now));; mret tt
                | None => quietly (on_group n discard_pending);; mret tt
                end
            end
      end;;
      remove_revoked ns id
  end.

Fixpoint remove_all_revoked (ids seen : list key) : am unit :=
  match ids with
  | [] => mret tt
  | id :: ids =>
      if bool_decide (id ∈ seen) then remove_all_revoked ids seen
      else i ← me; remove_revoked (indices i) id;; remove_all_revoked ids (id :: seen)
  end.

Fixpoint revoked_rows (ids : list key) (now : N) : am (list DisplayRow) :=
  match ids with
  | [] => mret []
  | id :: ids =>
      r ← on_shelf (push_control (to_hex (to_vec id)) 0 now (lit "revoked") (lit "") 0 false);
      rs ← revoked_rows ids now;
      mret (r :: rs)
  end.

Fixpoint flush_all (ns : list nat) : am unit :=
  match ns with [] => mret tt | n :: ns => quietly (flush_mls_update n);; flush_all ns end.

(** [idle_maintenance]. *)
Definition idle_maintenance : am (list DisplayRow) :=
  now ← now_unix;
  s ← registered;
  let own := own_id (install s) in
  newly ← on_session (refresh_idle_discovery now);
  s ← registered;
  w ← gets net;
  i ← me;
  let to_remove := newly ++ revoked_contact_ids w s in
  let extras := List.filter (fun id => negb (bool_decide (id = own)) && negb (bool_decide (is_Some (contacts s !! id))))
                  (concat (map (fun g => member_identity_ids (lg_mls g)) (live_groups i))) in
  gone ← check_extras extras now [];
  remove_all_revoked (to_remove ++ gone) [];;
  rows ← revoked_rows (newly ++ gone) now;
  i ← me;
  flush_all (indices i);;
  mret rows.

(** [fetch_now]. *)
Definition fetch_rows (rows : list MailboxRow) (last_acked : N) (self_id : rstring) : am (list DisplayRow) :=
  match rows with
  | [] => mret []
  | first :: _ =>
      s ← registered;
      w ← gets net;
      let peers := (hash_order w (contacts s)).*1 in
      lost ← (if messages_lost last_acked (mrow_seq first) then r ← lost_row; mret [r] else mret []);
      '(ack_upto, out) ← group_pass self_id rows last_acked lost;
      on_session (set_ses (fun s => s <| ses_cursor := ack_upto |>));;
      f ← direct_pass rows ack_upto peers (mk_fetched out [] ∅);
      (if last_acked <? ack_upto then on_session client_ack else mret tt);;
      now ← now_unix;
      w ← gets net;
      send_acks (map_order w (map_to_list (f_acks f))) now;;
      send_gossip (f_gossip f) now;;
      mret (f_rows f)
  end.

Definition fetch_now : am (list DisplayRow) :=
  s ← registered;
  quietly (on_session pump_cover);;
  rows ← on_session fetch_mailbox;
  new ← fetch_rows rows (ses_cursor s) (to_hex (to_vec (own_id (install s))));
  extra ← idle_maintenance;
  persist;;
  mret (new ++ extra).

(** [expire_now]. *)
Definition expire_now : am (list DisplayRow) :=
  now ← now_unix;
  s ← my_shelf;
  let expired := expired_rows now s in
  on_shelf (apply_expire_inbox now);;
  set_inner (fun i => i <| pending_invites ::= filter (fun e => now < pi_expires_at e.2) |>);;
  i ← me;
  extra ← match cl_state i with Some (Registered _) => idle_maintenance | _ => mret [] end;
  persist;;
  mret (expired ++ extra).

(** ** Opening and registering *)

(** [HttpHome::new]. *)
Definition http_home_new (android : bool) (base : rstring) : cresult T :=
  base ← http_home_base android base; http_build base.

Definition injected (device_secret : bytes) : option bytes :=
  match device_secret with [] => None | _ => Some device_secret end.

(** The draws of [Installation::create]. *)
Definition new_installation : am (Installation * RevocationExport) :=
  seed ← world random_key;
  rev_seed ← world random_key;
  ls_seed ← world random_key;
  rid ← world random_registration;
  now ← world clock_ms;
  spk_seed ← world random_key;
  spk_rnd ← world random_key;
  ffi (Install.create seed rev_seed ls_seed rid now spk_seed spk_rnd).

(** [NemoClient::create]. *)
Definition client_create : am unit :=
  '(i, export) ← new_installation;
  set_inner (fun _ => empty_inner (Some (Local i)) None (Some (mnemonic export))).

(** [NemoClient::create_at]. *)
Definition create_at (android : bool) (passphrase : rstring) (device_secret : bytes) : am unit :=
  '(i, export) ← new_installation;
  salt ← world random_salt;
  rnd ← world random_key;
  v ← on_disk (create_bound android passphrase i (injected device_secret) salt rnd);
  set_inner (fun _ => empty_inner (Some (Local i)) (Some v) (Some (mnemonic export))).

(** Runs a load that may change the provider of the installation and falls back
    to a default on error. *)
Definition load_or {A} (dflt : A) (m : stM (Disk * Installation) CoreError A) (i : Installation) (d : Disk) : Installation * A :=
  let '((_, i'), r) := m (d, i) in (i', default dflt (ok r)).

(** [load_live_groups]. *)
Definition load_live_groups (i : Installation) (d : Disk) (hosts : list HostGroup) : Installation * list LiveGroup :=
  let '(i, gs) := load_or [] load_groups i d in
  (i, zip_with (fun h g => mk_live h g (lit "")) hosts gs).

(** What [open_at] reads besides the installation. *)
Definition with_display (d : Disk) (i : Inner) : Inner :=
  match (load_display d).2 with
  | Ok x =>
      let name g := default (lg_nickname g) (group_names x !! to_hex (to_vec (hg_group_id (lg_host g)))) in
      i <| shelf ::= fun s => s <| names := nicknames x |> <| timers := disappear x |> |>
        <| live_groups ::= map (fun g => mk_live (lg_host g) (lg_mls g) (name g)) |>
  | Err _ => i
  end.

Definition with_inbox (d : Disk) (i : Inner) : Inner :=
  match (load_inbox d).2 with
  | Ok x => i <| shelf ::= fun s => mk_shelf (drop_legacy_tombstones (map from_inbox_row (inbox_rows x))) (inbox_next x)
                 (inbox_acked x) (inbox_read x) (inbox_group_read x) (names s) (timers s) |>
  | Err _ => i
  end.

Definition with_invites (d : Disk) (i : Inner) : Inner :=
  i <| minted ::= fun m => foldl (fun m inv => <[invite_nonce inv := inv]> m) m (default [] (ok (load_invites d).2)) |>.

Definition set_install (inst : Installation) (st : ClientState) : ClientState :=
  match st with Local _ => Local inst | Registered s => Registered (s <| install := inst |>) end.

Definition with_joins (d : Disk) (i : Inner) : Inner :=
  match cl_state i, the_install i with
  | Some st, Ok inst =>
      let '(inst, rows) := load_or [] vault_load_pending inst d in
      i <| cl_state := Some (set_install inst st) |>
        <| joins ::= fun m => foldl (fun m e => <[e.1.1 := mk_pentry e.1.2 e.2]> m) m rows |>
  | _, _ => i
  end.

(** [NemoClient::open_at]. *)
Definition open_at (android : bool) (passphrase : rstring) (device_secret : bytes) : am unit :=
  '(v, inst) ← on_disk (open_bound android passphrase (injected device_secret));
  home ← on_disk vault_load_home;
  d ← gets disk;
  '(st, gs) ← match home with
              | Some h =>
                  if bool_decide (as_bytes (ch_home_base h) = []) then mret (Local inst, [])
                  else
                    let '(inst, gs) := load_live_groups inst d (ch_groups h) in
                    t ← ffi (http_home_new android (ch_home_base h));
                    mret (Registered (resume t inst h), gs)
              | None => mret (Local inst, [])
              end;
  set_inner (fun _ => with_joins d (with_invites d (with_inbox d (with_display d
    ((empty_inner (Some st) (Some v) None) <| live_groups := gs |>)))));;
  now ← now_unix;
  changed ← on_shelf (apply_expire_inbox now);
  (if (changed : bool) then persist else mret tt);;
  quietly (on_session (restock_publish_upto SYNC_PREKEY_STOCK));;
  mret tt.

(** The thread [spawn_restock]. *)
Definition spawn_restock : am unit :=
  n ← quietly (on_session restock_publish);
  match n with Some n => if 0 <? n then quietly persist;; mret tt else mret tt | None => mret tt end.

(** [register]: the state is taken out before the transport is built, and every
    early return leaves it out. *)
Definition take_state : am (option ClientState) :=
  i ← me; set_inner (fun i => i <| cl_state := None |>);; mret (cl_state i).

Definition put_state (st : option ClientState) : am unit := set_inner (fun i => i <| cl_state := st |>).

(** The future of a first registration: its result carries the session. *)
Definition register_first (t : T) (inst : Installation) (base : rstring) (now : N) : stM W CoreError session := fun w =>
  match client_register t inst now w with
  | (w, Ok (s, _)) =>
      let '((s, w), r) := restock_publish_upto SYNC_PREKEY_STOCK (set_home_base base s, w) in (w, r;; Ok s)
  | (w, Err e) => (w, Err e)
  end.

(** [v.load_installation().ok().map(ClientState::Local)]. *)
Definition reload_local (i : Inner) (d : Disk) : option ClientState :=
  match vault i with Some _ => Local <$> ok (load_installation d).2 | None => None end.

Fixpoint announce_move (peers : list key) (now : N) : am unit :=
  match peers with
  | [] => mret tt
  | peer :: peers =>
      quietly (send_own_contact_capability peer now);;
      quietly (send_cached_binding_gossip peer now);;
      announce_move peers now
  end.

Definition rehost (s : session) (g : LiveGroup) : LiveGroup :=
  match List.find (fun h => bool_decide (hg_group_id h = hg_group_id (lg_host g))) (ses_groups s) with
  | Some h => mk_live h (lg_mls g) (lg_nickname g)
  | None => g
  end.

Definition register (android : bool) (base : rstring) : am unit :=
  now ← now_unix;
  st ← take_state;
  match st with
  | Some (Local inst) =>
      t ← ffi (http_home_new android base);
      r ← world (register_first t inst base now);
      match r with
      | Ok s => put_state (Some (Registered s));; persist
      | Err e =>
          i ← me;
          d ← gets disk;
          put_state (reload_local i d);;
          throw (FfiCore e)
      end
  | Some (Registered s) =>
      if negb (bool_decide (as_bytes (home_base s) = []))
         && bool_decide (trim_slashes (home_base s) = trim_slashes base)
      then put_state (Some (Registered s));; throw (FfiCore CoreAlreadyRegistered)
      else
        t ← ffi (http_home_new android base);
        put_state (Some (Registered s));;
        r ← attempt (on_session (rehome t base now));
        match r with
        | Ok _ =>
            s ← registered;
            w ← gets net;
            set_inner (fun i => i <| live_groups ::= map (rehost s) |>);;
            announce_move (hash_order w (contacts s)).*1 now;;
            persist
        | Err e => throw e
        end
  | None => throw (FfiText "busy")
  end.

(** ** Contacts and settings *)

(** [mint_share_uri]. *)
Definition mint_share_uri : am rstring :=
  registered;;
  now ← now_unix;
  card ← on_session (mint_share_card now);
  cap ← on_session client_mint_contact;
  persist;;
  uri ← ffi_wire (card_to_uri card);
  mret (str_cat (str_cat uri (lit "#")) (to_hex (to_vec cap))).

(** [add_contact]. *)
Definition client_add_contact (card_or_uri nickname : rstring) : am rstring :=
  card ← lift (parse_card card_or_uri);
  cap ← lift (parse_delivery_cap card_or_uri card);
  let peer_id := card_identity_id card in
  let peer := to_hex (to_vec peer_id) in
  now ← now_unix;
  on_session (Session.add_contact card cap now);;
  quietly (ensure_intro_sent peer_id now);;
  (if bool_decide (as_bytes nickname = []) then mret tt
   else set_shelf (fun s => s <| names ::= <[peer := nickname]> |>));;
  persist;;
  mret peer.

(** [set_nickname]. *)
Definition set_nickname (identity_id_hex nickname : rstring) : am unit :=
  ffi_wire (parse_identity_id identity_id_hex);;
  (if bool_decide (as_bytes nickname = []) then set_shelf (fun s => s <| names ::= delete identity_id_hex |>)
   else set_shelf (fun s => s <| names ::= <[identity_id_hex := nickname]> |>));;
  persist.

(** [set_privacy_mode]. *)
Definition parse_mode (mode : rstring) : option PrivacyMode :=
  let low := map ascii_lower (as_bytes mode) in
  let is_ s := bool_decide (low = String.list_byte_of_string s) in
  if is_ "normal"%string then Some Normal else if is_ "private"%string then Some Private
  else if is_ "high"%string then Some High else if is_ "maximum"%string then Some Maximum else None.

Definition set_privacy_mode (mode : rstring) : am unit :=
  m ← lift (ok_or (parse_mode mode) (FfiText "privacy mode"));
  on_session (set_privacy m);;
  persist.

(** [privacy_mode]. *)
Definition mode_name (m : PrivacyMode) : rstring :=
  match m with Normal => lit "normal" | Private => lit "private" | High => lit "high" | Maximum => lit "maximum" end.

Definition privacy_mode : am rstring := s ← registered; mret (mode_name (privacy s)).

Definition take_revocation_mnemonic : am (option rstring) :=
  i ← me; set_inner (fun i => i <| revocation_mnemonic := None |>);; mret (revocation_mnemonic i).

(** [save]. *)
Definition client_save : am unit :=
  i ← me;
  match vault i with None => throw (FfiCore VaultDetached) | Some _ => persist end.

(** ** Views *)

Record GroupViewer : Type := mk_viewer { vw_identity_id : rstring; vw_name : rstring; vw_upto : N }.
Record GroupView : Type := mk_view { others : N; viewers : list GroupViewer }.

(** [group_view_of]. *)
Definition viewer_of (i : Inner) (marks : gmap rstring N) (id : rstring) : option GroupViewer :=
  match marks !! id with
  | Some upto => if upto =? 0 then None else Some (mk_viewer id (default (lit "") (names (shelf i) !! id)) upto)
  | None => None
  end.

Definition group_view_of (i : Inner) (group_id_hex : rstring) : result FfiError GroupView :=
  gid ← wire_err (parse_identity_id group_id_hex);
  n ← ok_or (group_index gid (live_groups i)) (FfiText "unknown group");
  g ← ok_or (live_groups i !! n) (FfiText "unknown group");
  inst ← the_install i;
  let self := to_hex (to_vec (own_id inst)) in
  let members := List.filter (fun id => negb (str_is id self))
                   (map (fun id => to_hex (to_vec id)) (member_identity_ids (lg_mls g))) in
  let marks := default ∅ (group_read (shelf i) !! group_id_hex) in
  Ok (mk_view (lenN members)
        (sort_by (fun a b => bytes_leb (as_bytes (vw_identity_id a)) (as_bytes (vw_identity_id b))) (omap (viewer_of i marks) members))).

(** Lists and marks for the screens; the getters do not change the client. *)
Record GroupRow : Type := mk_group_row { gr_group_id : rstring; gr_nickname : rstring; gr_member_count : N }.
Record ContactRow : Type := mk_contact_row { cr_identity_id : rstring; cr_nickname : rstring }.
Record ContactPreview : Type := mk_preview { pv_identity_id_hex : rstring; pv_fingerprint : bytes }.

Definition identity_id_hex (i : Inner) : result FfiError rstring :=
  inst ← the_install i; Ok (to_hex (to_vec (own_id inst))).

Definition client_fingerprint (i : Inner) : result FfiError bytes :=
  inst ← the_install i; Ok (fingerprint (own_id inst)).

Definition preview_contact (card_or_uri : rstring) : result FfiError ContactPreview :=
  card ← parse_card card_or_uri;
  Ok (mk_preview (to_hex (to_vec (card_identity_id card))) (fingerprint (card_identity_id card))).

Definition list_contacts (w : W) (i : Inner) : list ContactRow :=
  map (fun e => mk_contact_row e.1 e.2) (map_order w (map_to_list (names (shelf i)))).

Definition list_groups (i : Inner) : list GroupRow :=
  map (fun g => mk_group_row (to_hex (to_vec (hg_group_id (lg_host g)))) (lg_nickname g) (member_count (lg_mls g))) (live_groups i).

Definition group_member_ids (i : Inner) (group_id_hex : rstring) : result FfiError (list rstring) :=
  gid ← wire_err (parse_identity_id group_id_hex);
  n ← ok_or (group_index gid (live_groups i)) (FfiText "unknown group");
  g ← ok_or (live_groups i !! n) (FfiText "unknown group");
  Ok (map (fun c => to_hex (to_vec c)) (member_credential_ids (lg_mls g))).

Definition acked_upto (i : Inner) (conv : rstring) : N := default 0 (acked (shelf i) !! conv).
Definition read_upto (i : Inner) (conv : rstring) : N := default 0 (read (shelf i) !! conv).

(** [try_acked_upto] and [try_read_upto]; [free] tells whether the lock could be
    taken. *)
Definition try_acked_upto (free : bool) (i : Inner) (conv : rstring) : option N :=
  if free then acked (shelf i) !! conv else None.
Definition try_read_upto (free : bool) (i : Inner) (conv : rstring) : option N :=
  if free then read (shelf i) !! conv else None.

(** The sound of the live call. *)
Definition client_received_rtp : am N :=
  i ← me; match live_call i with Some _ => on_call Call.received_rtp | None => mret 0 end.

Definition client_push_pcm (samples : list Z) (sample_rate channels : N) : am unit :=
  i ← me; match live_call i with Some _ => on_call (Call.push_capture_pcm samples sample_rate channels) | None => mret tt end.

Definition client_pull_pcm (max_samples : N) : am (list Z) :=
  i ← me; match live_call i with Some _ => on_call (Call.pull_playback_pcm max_samples) | None => mret [] end.

(** One turn of the loop of [pump_call], and its start. *)
Definition pump_call_start : am bool :=
  r ← attempt (on_call wait_connected);
  match r with Ok _ => on_call start_audio_io;; mret true | Err _ => mret false end.

Definition pump_call_turn (c : Call P) : am bool :=
  r ← attempt (on_call (send_capture_frames 5 c)); mret (is_ok r).
End Client.
