(* ===== verification/FfiProps.v ===== *)
(** * What the client behind the application promises

    Theorems on [FfiClient]: which rows of the mailbox a fetch passes and which
    it tries again, how messages change what is displayed, what a deletion and a
    save guarantee, and which messages end a call. *)

From S2P Require Import Toy ToySignal ToyMls.
From S2P Require Import CoreErr AppMsg Privacy Contacts Install Origin Turn SessionOps Vault VaultProps ClientGroupStore Audio Call.
From S2P Require Import FfiClient.
From S2P Require SessionProps InstallProps HomeProps SessionCalls.

(** A join request reads back as it was written. *)
Theorem join_request_roundtrip `{Crypto} r :
  wf_value (Map (join_request_pairs r)) = true -> parse_join_request (join_request_uri r) = Ok r.
Proof.
  intros Hwf. unfold parse_join_request, join_request_uri. rewrite strip_prefix_cat. cbn [ok_or mbind result_bind].
  rewrite from_to_hex. cbn [wire_err map_err mbind result_bind]. rewrite decode_encode_wf by done.
  destruct r as [gid pid kp spk cap hp cid nonce [pr|] [bind|]]; cbn -[to_vec copy_fixed proof_decode proof_encode].
  all: rewrite ?copy_fixed_to_vec, ?proof_decode_encode; cbn -[to_vec copy_fixed];
    rewrite ?copy_fixed_to_vec; cbn -[to_vec copy_fixed]; repeat (rewrite copy_fixed_to_vec; cbn -[to_vec copy_fixed]); reflexivity.
Qed.

Section Props.
Context `{Crypto} `{SignalOps} `{MlsLib} `{Argon} `{Bip39}.
Context {T W : Type} `{HomeTransport T W} `{Platform W} `{FfiPlatform W} `{HttpBuild T}.
Context {V P Enc Dec Apm : Type} `{MediaLib V P} `{Opus Enc Dec} `{AudioProcessor Apm}.

Notation session := (HomeSession T).
Notation client := (@app _ _ _ _ _ T W V P Enc Dec Apm).
Notation am := (stM client FfiError).
Implicit Types (a : client) (I : client -> Prop).

(** ** Frames *)

Lemma preserves_on_session {A} I (m : stM (session * W) CoreError A) :
  (forall a s w, I a -> I (a <| inner ::= fun i => i <| cl_state := Some (Registered s) |> |> <| net := w |>)) ->
  preserves I (on_session m).
Proof.
  intros Hf a Ha. unfold post, on_session. destruct (the_session _) as [s|]; [|done]. destruct (m _) as [[s' w'] r]. by apply Hf.
Qed.

Lemma preserves_on_group {A} I n (m : gm A) :
  (forall a s gs, I a -> length gs = length (live_groups (inner a)) ->
     I (a <| inner ::= fun i => i <| cl_state := Some (Registered s) |> <| live_groups := gs |> |>)) ->
  preserves I (on_group n m).
Proof.
  intros Hf a Ha. unfold post, on_group. destruct (the_session _) as [s|]; [|done].
  destruct (live_groups (inner a) !! n) as [g|]; [|done]. destruct (m _) as [[g' p'] r].
  apply (Hf a); [done | by rewrite length_insert].
Qed.

Lemma preserves_on_disk {A} I (m : stM Disk CoreError A) :
  (forall a d, I a -> I (a <| disk := d |>)) -> preserves I (on_disk m).
Proof. intros Hf a Ha. unfold post, on_disk. destruct (m _). by apply Hf. Qed.

Lemma preserves_on_call {A} I (m : stM (call_state V Enc Dec Apm) fault A) :
  (forall a c, I a -> I (a <| media_st := c |>)) -> preserves I (on_call m).
Proof. intros Hf a Ha. unfold post, on_call. destruct (m _). by apply Hf. Qed.

Lemma preserves_world {A} I (f : W -> W * A) : (forall a w, I a -> I (a <| net := w |>)) -> preserves I (world f).
Proof. intros Hf a Ha. unfold post, world. destruct (f _). by apply Hf. Qed.

Lemma preserves_on_shelf {A} I (f : Shelf -> Shelf * A) :
  (forall a, I a -> I (a <| inner ::= fun i => i <| shelf := (f (shelf (inner a))).1 |> |>)) -> preserves I (on_shelf f).
Proof. intros Hf a Ha. unfold post, on_shelf. specialize (Hf a Ha). destruct (f _). exact Hf. Qed.

Lemma preserves_set_inner I f : (forall a, I a -> I (a <| inner ::= f |>)) -> preserves I (set_inner f).
Proof. intros Hf. apply preserves_modify, Hf. Qed.

Lemma preserves_attempt {A} I (m : am A) : preserves I m -> preserves I (attempt m).
Proof. intros Hm a Ha. unfold post, attempt. specialize (Hm a Ha). unfold post in Hm. by destruct (m a). Qed.

Lemma preserves_quietly {A} I (m : am A) : preserves I m -> preserves I (quietly m).
Proof. intros Hm a Ha. unfold post, quietly. specialize (Hm a Ha). unfold post in Hm. by destruct (m a). Qed.

Lemma preserves_gets {A} I (f : client -> A) : preserves I (gets f : am A). Proof. by intros a Ha. Qed.
Lemma preserves_ffi {A} I (r : cresult A) : preserves I (ffi r). Proof. by intros a Ha. Qed.
Lemma preserves_ffi_wire {A} I (r : wresult A) : preserves I (ffi_wire r). Proof. by intros a Ha. Qed.

Lemma preserves_registered I : preserves I registered. Proof. by intros a Ha. Qed.
Lemma preserves_me I : preserves I me. Proof. by intros a Ha. Qed.
Lemma preserves_my_shelf I : preserves I my_shelf. Proof. by intros a Ha. Qed.

#[local] Hint Resolve preserves_gets preserves_ffi preserves_ffi_wire preserves_registered preserves_me preserves_my_shelf : walk.

Create HintDb keep discriminated.

(** Solves a side condition of a frame by computation from the last hypothesis. *)
Ltac same := intros; lazymatch goal with Hlast : _ |- _ => first [exact Hlast | assumption] end.

Ltac frame_step :=
  first
    [ apply preserves_on_session; solve [same] | apply preserves_on_group; solve [same] | apply preserves_on_disk; solve [same]
    | apply preserves_on_call; solve [same] | apply preserves_world; solve [same] | apply preserves_on_shelf; solve [same]
    | apply preserves_set_inner; solve [same] | solve [eauto with keep] ].

(** Walks a body that does not touch what the invariant reads. *)
Ltac keep :=
  repeat first
    [ progress walk ltac:(frame_step)
    | apply preserves_attempt | apply preserves_quietly | progress cbv zeta
    | match goal with |- preserves _ (let '(_, _) := ?p in _) => destruct p end ].

(** ** The pass over group rows *)

Notation retries a := (mailbox_retries (inner a)).

Section Retries.
Context (R : gmap N N).
Notation I := (fun a : client => retries a = R).

Lemma keeps_group_at n : preserves I (group_at n). Proof. unfold group_at. keep. Qed.
Lemma keeps_lost_row : preserves I lost_row. Proof. unfold lost_row, now_unix. keep. Qed.
#[local] Hint Resolve keeps_group_at keeps_lost_row : keep.

Lemma keeps_handshake ns env ep retry : preserves I (handshake_groups ns env ep retry).
Proof. revert retry. induction ns; intros retry; cbn [handshake_groups]; unfold system_now; keep. Qed.

Lemma keeps_welcome gids body : preserves I (welcome_joins gids body).
Proof. induction gids; cbn [welcome_joins]; unfold system_now, on_mls_provider; keep. Qed.

Lemma keeps_open_app ns env retry : preserves I (open_app ns env retry).
Proof. revert retry. induction ns; intros retry; cbn [open_app]; keep. Qed.

Lemma keeps_replace ns body : preserves I (replace_keys ns body).
Proof. induction ns; cbn [replace_keys]; keep. Qed.

Lemma keeps_remove ns env retry : preserves I (remove_groups ns env retry).
Proof. revert retry. induction ns; intros retry; cbn [remove_groups]; unfold system_now; keep. Qed.

Lemma keeps_gossip p id sq sv h : preserves I (apply_binding_gossip p id sq sv h).
Proof. unfold apply_binding_gossip, now_unix. keep. Qed.
#[local] Hint Resolve keeps_gossip : keep.

Lemma keeps_group_message host msg sender name self : preserves I (group_message host msg sender name self).
Proof. unfold group_message, set_shelf. keep. Qed.
#[local] Hint Resolve keeps_handshake keeps_welcome keeps_open_app keeps_replace keeps_remove keeps_group_message : keep.

Lemma keeps_group_row self env : preserves I (apply_group_mailbox_row self env).
Proof. unfold apply_group_mailbox_row. keep. Qed.
End Retries.

(** ** No row aborts the fetch *)

(** A registered client with at least [n] groups. *)
Definition ready (n : nat) a : Prop :=
  (exists s, cl_state (inner a) = Some (Registered s)) /\ (n <= length (live_groups (inner a)))%nat.

(** A call that returns a value and leaves the client ready. *)
Definition runs {A} (n : nat) (m : am A) : Prop :=
  forall a, ready n a -> post m a (fun r a' => ready n a' /\ is_ok r = true).

Lemma runs_bind {A B} n (m : am A) (k : A -> am B) : runs n m -> (forall x, runs n (k x)) -> runs n (m ≫= k).
Proof.
  intros Hm Hk a Ha. rewrite post_bind. eapply post_conseq; [by apply Hm|].
  intros [x|e] a' [Ha' Hok]; [by apply Hk | done].
Qed.

Lemma runs_pure {A} n (m : am A) : (forall a, exists x, m a = (a, Ok x)) -> runs n m.
Proof. intros Hm a Ha. unfold post. destruct (Hm a) as [x ->]. done. Qed.

Lemma runs_ret {A} n (x : A) : runs n (mret x). Proof. apply runs_pure. by eexists. Qed.
Lemma runs_me n : runs n me. Proof. apply runs_pure. by eexists. Qed.
Lemma runs_my_shelf n : runs n my_shelf. Proof. apply runs_pure. by eexists. Qed.
Lemma runs_gets {A} n (f : client -> A) : runs n (gets f : am A). Proof. apply runs_pure. by eexists. Qed.

Lemma runs_registered n : runs n registered.
Proof. intros a [[s Hs] Hl]. unfold registered, me. wp. unfold the_session. rewrite Hs. split; [by split; [eexists|] | done]. Qed.

Lemma runs_group_at n k : (k < n)%nat -> runs n (group_at k).
Proof.
  intros Hk a [Hr Hl]. unfold group_at, me. wp. destruct (lookup_lt_is_Some_2 (live_groups (inner a)) k) as [g Hg]; [lia|].
  rewrite Hg. done.
Qed.

Lemma runs_world {A} n (f : W -> W * A) : runs n (world f).
Proof. intros a Ha. unfold post, world. destruct (f _). done. Qed.

Lemma runs_on_shelf {A} n (f : Shelf -> Shelf * A) : runs n (on_shelf f).
Proof. intros a Ha. unfold post, on_shelf. destruct (f _). done. Qed.

Lemma runs_set_inner n f :
  (forall i, cl_state (f i) = cl_state i) -> (forall i, (length (live_groups i) <= length (live_groups (f i)))%nat) -> runs n (set_inner f).
Proof.
  intros Hs Hl a [Hr Ha]. unfold post. cbn. split; [|done]. split; cbn; [by rewrite Hs | etrans; [exact Ha | apply Hl]].
Qed.

Lemma runs_attempt {A} n (m : am A) : preserves (ready n) m -> runs n (attempt m).
Proof. intros Hm a Ha. specialize (Hm a Ha). unfold post, attempt in *. by destruct (m a). Qed.

Lemma runs_quietly {A} n (m : am A) : preserves (ready n) m -> runs n (quietly m).
Proof. intros Hm a Ha. specialize (Hm a Ha). unfold post, quietly in *. by destruct (m a). Qed.

Lemma ready_on_session {A} n (m : stM (session * W) CoreError A) : preserves (ready n) (on_session m).
Proof. apply preserves_on_session. intros a s w [_ Hl]. split; [by eexists | exact Hl]. Qed.

Lemma ready_on_group {A} n k (m : gm A) : preserves (ready n) (on_group k m).
Proof. apply preserves_on_group. intros a s gs [_ Hl] He. split; [by eexists | cbn; by rewrite He]. Qed.

(** An infallible method of the session. *)
Lemma runs_on_session {A} n (m : stM (session * W) CoreError A) :
  (forall x, is_ok (m x).2 = true) -> runs n (on_session m).
Proof.
  intros Hm a Ha. pose proof (ready_on_session n m a Ha) as Hr. destruct Ha as [[s Hs] _].
  unfold post, on_session, the_session in *. rewrite Hs in *. specialize (Hm (s, net a)).
  destruct (m (s, net a)) as [[s' w'] [x|e]]; done.
Qed.

Create HintDb runs discriminated.
#[local] Hint Resolve runs_bind runs_ret runs_me runs_my_shelf runs_gets runs_registered runs_world runs_on_shelf runs_attempt
  runs_quietly ready_on_session ready_on_group : runs.

(** Walks a body of calls that return values. *)
Ltac run :=
  repeat match goal with
  | |- runs _ (_ ≫= _) => apply runs_bind; [|intros ?]
  | |- runs _ (let _ := _ in _) => cbv zeta
  | |- runs _ (if ?c then _ else _) => destruct c
  | |- runs _ (match ?o with _ => _ end) => destruct o
  | |- runs _ (set_inner _) => apply runs_set_inner; cbn; solve [done | intros; rewrite ?length_app; cbn; lia]
  | |- runs _ _ => solve [eauto with runs | apply runs_group_at; assumption]
  end.

Notation below n := (Forall (fun k => (k < n)%nat)).

Lemma runs_handshake n ns env ep retry : below n ns -> runs n (handshake_groups ns env ep retry).
Proof. intros Hns. revert retry. induction Hns; intros retry; cbn [handshake_groups]; unfold system_now; run. Qed.

Lemma runs_welcome n gids body : runs n (welcome_joins gids body).
Proof.
  induction gids; cbn [welcome_joins]; unfold system_now, on_mls_provider; run.
  apply runs_on_session. by intros [].
Qed.

Lemma runs_open_app n ns env retry : below n ns -> runs n (open_app ns env retry).
Proof. intros Hns. revert retry. induction Hns; intros retry; cbn [open_app]; run. Qed.

Lemma runs_replace n ns body : runs n (replace_keys ns body).
Proof. induction ns; cbn [replace_keys]; run. Qed.

Lemma runs_remove n ns env retry : below n ns -> runs n (remove_groups ns env retry).
Proof. intros Hns. revert retry. induction Hns; intros retry; cbn [remove_groups]; unfold system_now; run. Qed.

Lemma runs_gossip n p id sq sv h : runs n (apply_binding_gossip p id sq sv h).
Proof. unfold apply_binding_gossip, now_unix. run. Qed.
#[local] Hint Resolve runs_gossip : runs.

Lemma runs_group_message n host msg sender name self : runs n (group_message host msg sender name self).
Proof. unfold group_message, set_shelf. run. Qed.

#[local] Hint Resolve runs_handshake runs_welcome runs_open_app runs_replace runs_remove runs_group_message : runs.

(** Whatever a row contains, it is either done or to be tried again. *)
Lemma runs_group_row n self env a :
  ready n a -> post (apply_group_mailbox_row self env) a (fun r a' => ready n a' /\ is_ok r = true).
Proof.
  intros Ha. set (k := length (live_groups (inner a))).
  assert (ready k a) as Hk by (split; [apply Ha | done]).
  assert (below k (indices (inner a))) as Hb by (apply Forall_seq; unfold k; lia).
  assert (n <= k)%nat as Hle by apply Ha.
  enough (post (apply_group_mailbox_row self env) a (fun r a' => ready k a' /\ is_ok r = true)) as Hp.
  { eapply post_conseq; [exact Hp|]. intros r a' [[Hr Hl] Hok]. split; [|done]. split; [done | lia]. }
  unfold apply_group_mailbox_row, me. rewrite post_bind, post_gets. cbv beta iota zeta.
  match goal with |- post ?m a _ => enough (runs k m) as Hm by (apply Hm; exact Hk) end. run.
Qed.

(** ** What a fetch passes *)

(** The number of the last row of a list. *)
Definition last_seq (dflt : N) (rows : list MailboxRow) : N := foldl (fun _ r => mrow_seq r) dflt rows.

(** Rows whose attempts have been counted less than the budget. *)
Definition in_budget a : Prop := map_Forall (fun _ n => n < MAILBOX_MLS_RETRIES) (retries a).

(** The pass ended after all rows, or before a row whose attempts it counted
    once more and which still has some left. *)
Definition passed (rows : list MailboxRow) (before : gmap N N) (ack0 ack : N) a' : Prop :=
  ack = last_seq ack0 rows \/
  exists pre row rest, rows = pre ++ row :: rest /\ ack = last_seq ack0 pre /\
    retries a' !! mrow_seq row = Some (default 0 (before !! mrow_seq row) + 1) /\
    default 0 (before !! mrow_seq row) + 1 < MAILBOX_MLS_RETRIES.

Lemma runs_lost_row n : runs n lost_row.
Proof. unfold lost_row, now_unix. run. Qed.

Lemma budget_delete (m : gmap N N) k : map_Forall (fun _ n => n < MAILBOX_MLS_RETRIES) m ->
  map_Forall (fun _ n => n < MAILBOX_MLS_RETRIES) (delete k m).
Proof. intros Hm. by apply map_Forall_delete. Qed.

Lemma group_pass_spec n self rows ack0 out a :
  ready n a -> in_budget a -> NoDup (mrow_seq <$> rows) ->
  post (group_pass self rows ack0 out) a (fun r a' =>
    ready n a' /\ in_budget a' /\ exists ack out', r = Ok (ack, out') /\ passed rows (retries a) ack0 ack a').
Proof.
  revert ack0 out a. induction rows as [|row rows IH]; intros ack0 out a Ha Hb Hnd; cbn [group_pass].
  { rewrite post_ret. split_and!; [done | done|]. exists ack0, out. split; [done | by left]. }
  apply NoDup_cons in Hnd as [Hni Hnd]. rewrite post_bind.
  eapply post_conseq; [apply post_and; [by apply (runs_group_row n) | by apply (keeps_group_row (retries a))]|].
  intros [[f new]|e] a1 [[Ha1 Hok] Hr1]; [|done]. cbv beta iota zeta.
  assert (in_budget a1) as Hb1 by (unfold in_budget; by rewrite Hr1).
  assert (forall sq (b : gmap N N) ack a', passed rows (delete sq b) (mrow_seq row) ack a' -> sq = mrow_seq row -> b = retries a ->
            passed (row :: rows) (retries a) ack0 ack a') as Hcons.
  { intros sq b ack a' Hp -> ->. destruct Hp as [->|(pre & r & rest & -> & -> & Hl & Hlt)]; [by left|].
    right. exists (row :: pre), r, rest. split_and!; [done | done | |].
    all: rewrite lookup_delete_ne in * by (intros Heq; apply Hni; rewrite Heq; apply list_elem_of_fmap_2, elem_of_app; right; left); done. }
  destruct f.
  - unfold set_inner at 1. rewrite post_bind, post_modify. cbv beta iota.
    eapply post_conseq; [apply IH; [done | by apply budget_delete | done]|].
    intros r a2 (Ha2 & Hb2 & ack & out' & -> & Hp). split_and!; [done | done|]. exists ack, out'. split; [done|].
    eapply Hcons; [exact Hp | done | exact Hr1].
  - unfold me, set_inner at 1 2. rewrite post_bind, post_gets. cbv beta iota zeta. rewrite post_bind, post_modify. cbv beta iota.
    rewrite Hr1. set (tries := default 0 (retries a !! mrow_seq row)).
    assert (tries < MAILBOX_MLS_RETRIES) as Ht.
    { unfold tries. destruct (retries a !! mrow_seq row) as [t|] eqn:E; cbn; [by apply (Hb (mrow_seq row))|]. unfold MAILBOX_MLS_RETRIES. lia. }
    replace (N.min (tries + 1) U8_MAX) with (tries + 1) by (unfold MAILBOX_MLS_RETRIES, U8_MAX in *; lia).
    destruct (MAILBOX_MLS_RETRIES <=? tries + 1) eqn:G.
    + rewrite post_bind, post_modify. cbv beta iota. rewrite post_bind.
      eapply post_conseq; [apply post_and; [apply (runs_lost_row n); done | apply keeps_lost_row; reflexivity]|].
      intros [r|e] a2 [[Ha2 Hok2] Hr2]; [|done]. cbv beta iota. cbn in Hr2. rewrite Hr1, delete_insert_eq in Hr2.
      eapply post_conseq; [apply IH; [done | unfold in_budget; rewrite Hr2; by apply budget_delete | done]|].
      intros r' a3 (Ha3 & Hb3 & ack & out' & -> & Hp). split_and!; [done | done|]. exists ack, out'. split; [done|].
      rewrite Hr2 in Hp. by eapply Hcons.
    + rewrite post_ret. split_and!; [done | |].
      * unfold in_budget. cbn. rewrite Hr1. apply map_Forall_insert_2; [lia | done].
      * exists ack0, (out ++ new). split; [done|]. right. exists [], row, rows. split_and!; [done | done | | lia].
        cbn. by rewrite lookup_insert_eq.
Qed.

(** ** No row holds the mailbox up for long *)

Notation seqs rows := (mrow_seq <$> rows).

Lemma last_seq_sorted ack0 rows :
  StronglySorted N.lt (ack0 :: seqs rows) -> ack0 <= last_seq ack0 rows /\ Forall (fun r => mrow_seq r <= last_seq ack0 rows) rows.
Proof.
  revert ack0. induction rows as [|r rows IH]; intros ack0 Hs; cbn; [split; [done | constructor]|].
  apply StronglySorted_inv in Hs as [Hs Hf]. apply Forall_cons in Hf as [Hlt _].
  destruct (IH (mrow_seq r) Hs) as [Hle Hall]. fold (last_seq (mrow_seq r) rows) in *. split; [lia|]. by constructor.
Qed.

Lemma sorted_app_l ack0 (pre rest : list MailboxRow) :
  StronglySorted N.lt (ack0 :: seqs (pre ++ rest)) -> StronglySorted N.lt (ack0 :: seqs pre).
Proof.
  revert ack0. induction pre as [|r pre IH]; intros ack0 Hs; cbn in *; [repeat constructor|].
  apply StronglySorted_inv in Hs as [Hs Hf]. constructor; [by apply IH|].
  apply Forall_cons in Hf as [Hlt Hf]. constructor; [done|]. rewrite fmap_app, Forall_app in Hf. apply Hf.
Qed.

Lemma sorted_nodup ack0 (rows : list MailboxRow) : StronglySorted N.lt (ack0 :: seqs rows) -> NoDup (seqs rows).
Proof.
  intros [Hs _]%StronglySorted_inv. induction Hs as [|x l _ IH Hf]; constructor; [|done].
  intros Hin. rewrite Forall_forall in Hf. specialize (Hf x Hin). lia.
Qed.

(** The row [sq] is the first one that a pass left behind. *)
Definition holds_up (sq : N) (rows : list MailboxRow) (ack : N) : Prop :=
  exists pre row rest, rows = pre ++ row :: rest /\ mrow_seq row = sq /\ Forall (fun r => mrow_seq r <= ack) pre /\ ack < sq.

Lemma passed_holds_up sq rows before ack0 ack a' :
  StronglySorted N.lt (ack0 :: seqs rows) -> passed rows before ack0 ack a' -> holds_up sq rows ack ->
  retries a' !! sq = Some (default 0 (before !! sq) + 1) /\ default 0 (before !! sq) + 1 < MAILBOX_MLS_RETRIES.
Proof.
  intros Hs Hp (pre & row & rest & -> & <- & Hpre & Hlt). destruct Hp as [->|(pre2 & row2 & rest2 & He & -> & Hr & Hb)].
  - destruct (last_seq_sorted _ _ Hs) as [_ Hall]. rewrite Forall_app, Forall_cons in Hall. lia.
  - assert (row2 = row) as ->; [|done]. rewrite He in Hs.
    pose proof (last_seq_sorted _ _ (sorted_app_l _ _ _ Hs)) as [_ Hall].
    apply app_eq_app in He as (l & [[-> He]|[-> He]]).
    + destruct l as [|x l]; cbn in He; [congruence|]. injection He as <- _.
      rewrite Forall_app, Forall_cons in Hpre. destruct Hpre as (_ & Hx & _).
      exfalso. clear -Hs Hx. induction pre2 as [|r pre2 IH] in ack0, Hs, Hx |- *; cbn in *.
      * apply StronglySorted_inv in Hs as [_ Hf]. apply Forall_cons in Hf as [Hf _]. lia.
      * apply StronglySorted_inv in Hs as [Hs _]. by apply (IH (mrow_seq r)).
    + destruct l as [|x l]; cbn in He; [congruence|]. injection He as <- _.
      rewrite Forall_app, Forall_cons in Hall. lia.
Qed.

(** [blocked sq k a]: since the client was started, [k] fetches were held up by
    the row [sq], one after the other, and [a] is the state after the last. What
    happens between two fetches does not touch the counts. *)
Inductive blocked (sq : N) : nat -> client -> Prop :=
| blocked_start a : retries a = ∅ -> blocked sq 0 a
| blocked_again k a b a' self rows ack0 out ack out' :
    blocked sq k a -> ready 0 b -> retries b = retries a ->
    StronglySorted N.lt (ack0 :: seqs rows) ->
    group_pass self rows ack0 out b = (a', Ok (ack, out')) -> holds_up sq rows ack ->
    blocked sq (S k) a'.

Lemma blocked_count sq k a :
  blocked sq k a -> in_budget a /\ N.of_nat k < MAILBOX_MLS_RETRIES /\ default 0 (retries a !! sq) = N.of_nat k.
Proof.
  induction 1 as [a Hr|k a b a' self rows ack0 out ack out' _ [Hb [_ Hk]] Hrd Hr Hs Hrun Hh].
  - unfold in_budget. rewrite Hr, lookup_empty. split_and!; [apply map_Forall_empty | done | done].
  - assert (in_budget b) as Hbb by (unfold in_budget; by rewrite Hr).
    pose proof (group_pass_spec 0 self rows ack0 out b Hrd Hbb (sorted_nodup _ _ Hs)) as Hp. unfold post in Hp.
    rewrite Hrun in Hp. cbn [fst snd] in Hp. destruct Hp as (_ & Hb' & ack' & out2 & [= <- <-] & Hp).
    destruct (passed_holds_up sq _ _ _ _ _ Hs Hp Hh) as [Hl Hlt]. rewrite Hr, Hk in *. rewrite Hl. cbn. split_and!; [done | lia | lia].
Qed.


(** ** The display follows the abstract shelf *)

Notation shelf_at s := (fun a : client => shelf (inner a) = s).

Section ShelfFrames.
Context (s : Shelf).
Notation I := (shelf_at s).

Lemma still_group_at n : preserves I (group_at n). Proof. unfold group_at. keep. Qed.
#[local] Hint Resolve still_group_at : keep.
Lemma still_capability p t : preserves I (send_own_contact_capability p t). Proof. unfold send_own_contact_capability. keep. Qed.
Lemma still_own_gossip p t : preserves I (send_own_binding_gossip p t). Proof. unfold send_own_binding_gossip. keep. Qed.
#[local] Hint Resolve still_capability still_own_gossip : keep.
Lemma still_intro p t : preserves I (ensure_intro_sent p t). Proof. unfold ensure_intro_sent. keep. Qed.
Lemma still_gossip p t : preserves I (send_cached_binding_gossip p t). Proof. unfold send_cached_binding_gossip. keep. Qed.
Lemma still_append n t l : preserves I (append n t l). Proof. unfold append. keep. Qed.
#[local] Hint Resolve still_append : keep.
Lemma still_append_app n l : preserves I (append_app n l). Proof. unfold append_app, system_now. keep. Qed.
Lemma still_flush n : preserves I (flush_mls_update n). Proof. unfold flush_mls_update, system_now. keep. Qed.
Lemma still_refresh g : preserves I (refresh_group_members g). Proof. unfold refresh_group_members, now_unix. keep. Qed.
Lemma still_find hex : preserves I (find_group_mut hex). Proof. unfold find_group_mut. keep. Qed.
#[local] Hint Resolve still_append_app : keep.
Lemma still_transmit conv body t n : preserves I (transmit_app conv body t n). Proof. unfold transmit_app. keep. Qed.
Lemma still_persist : preserves I persist. Proof. unfold persist. keep. Qed.
Lemma still_hangup : preserves I hangup_live. Proof. unfold hangup_live. keep. Qed.
Lemma still_turn : preserves I turn_config. Proof. unfold turn_config. keep. Qed.
Lemma still_permitted : preserves I calls_permitted. Proof. unfold calls_permitted. keep. Qed.
Lemma still_handshake ns env ep retry : preserves I (handshake_groups ns env ep retry).
Proof. revert retry. induction ns; intros retry; cbn [handshake_groups]; unfold system_now; keep. Qed.
Lemma still_welcome gids body : preserves I (welcome_joins gids body).
Proof. induction gids; cbn [welcome_joins]; unfold system_now, on_mls_provider; keep. Qed.
Lemma still_open_app ns env retry : preserves I (open_app ns env retry).
Proof. revert retry. induction ns; intros retry; cbn [open_app]; keep. Qed.
Lemma still_replace ns body : preserves I (replace_keys ns body).
Proof. induction ns; cbn [replace_keys]; keep. Qed.
Lemma still_remove ns env retry : preserves I (remove_groups ns env retry).
Proof. revert retry. induction ns; intros retry; cbn [remove_groups]; unfold system_now; keep. Qed.
Lemma still_extras ids t newly : preserves I (check_extras ids t newly).
Proof. revert newly. induction ids; intros newly; cbn [check_extras]; keep. Qed.
Lemma still_remove_revoked ns id : preserves I (remove_revoked ns id).
Proof. induction ns; cbn [remove_revoked]; unfold system_now; keep. Qed.
#[local] Hint Resolve still_remove_revoked still_flush : keep.
Lemma still_remove_all ids seen : preserves I (remove_all_revoked ids seen).
Proof. revert seen. induction ids; intros seen; cbn [remove_all_revoked]; keep. Qed.
Lemma still_flush_all ns : preserves I (flush_all ns).
Proof. induction ns; cbn [flush_all]; keep. Qed.
End ShelfFrames.

#[local] Hint Resolve still_group_at still_intro still_gossip still_append still_append_app still_flush still_refresh still_find
  still_transmit still_persist still_hangup still_turn still_permitted still_handshake still_welcome still_open_app
  still_replace still_remove still_extras still_remove_all still_flush_all : keep.

(** [s'] is what abstract steps with received numbers up to [b] make of [s]. *)
Definition reach (b : N) (s s' : Shelf) : Prop :=
  exists ops, Forall (fun op => received_seq op <= b) ops /\ s' = shelf_run ops s.

#[local] Instance reach_preorder b : PreOrder (reach b).
Proof.
  split; [intros s; by exists []|]. intros s1 s2 s3 (o1 & H1' & ->) (o2 & H2' & ->). exists (o1 ++ o2).
  split; [by apply Forall_app|]. unfold shelf_run. by rewrite fold_left_app.
Qed.

Lemma reach_step b op s : received_seq op <= b -> reach b s (shelf_exec op s).
Proof. intros Hop. exists [op]. split; [by constructor | done]. Qed.

(** A call started with the shelf [s]; and one started with any shelf. *)
Definition acts_from {A} (R : relation Shelf) (s : Shelf) (m : am A) : Prop :=
  forall a, shelf (inner a) = s -> post m a (fun _ a' => R s (shelf (inner a'))).
Definition acts {A} (R : relation Shelf) (m : am A) : Prop := forall s, acts_from R s m.

Section Acts.
Context (R : relation Shelf) `{!PreOrder R}.

Lemma acts_still {A} s (m : am A) : preserves (shelf_at s) m -> acts_from R s m.
Proof. intros Hm a Ha. eapply post_conseq; [by apply Hm|]. intros r a' ->. done. Qed.

Lemma acts_then {A B} s (m : am A) (k : A -> am B) :
  preserves (shelf_at s) m -> (forall x, acts_from R s (k x)) -> acts_from R s (m ≫= k).
Proof.
  intros Hm Hk a Ha. rewrite post_bind. eapply post_conseq; [by apply Hm|]. intros [x|e] a' Ha'; [by apply Hk | by rewrite Ha'].
Qed.

Lemma acts_bind {A B} s (m : am A) (k : A -> am B) : acts_from R s m -> (forall x, acts R (k x)) -> acts_from R s (m ≫= k).
Proof.
  intros Hm Hk a Ha. rewrite post_bind. eapply post_conseq; [by apply Hm|]. intros [x|e] a' Ha'; [|done].
  eapply post_conseq; [by apply (Hk x (shelf (inner a')))|]. intros r a'' Hr. by etrans.
Qed.

Lemma acts_quietly {A} s (m : am A) : acts_from R s m -> acts_from R s (quietly m).
Proof. intros Hm a Ha. specialize (Hm a Ha). unfold post, quietly in *. by destruct (m a). Qed.

Lemma acts_set_shelf s f : R s (f s) -> acts_from R s (set_shelf f).
Proof. intros Hf a Ha. unfold post, set_shelf, set_inner. cbn. by rewrite Ha. Qed.
End Acts.

Lemma acts_weaken {A} (R R' : relation Shelf) (m : am A) : subrelation R R' -> acts R m -> acts R' m.
Proof. intros Hr Hm s a Ha. eapply post_conseq; [by apply Hm|]. intros r a'. apply Hr. Qed.

(** The value of a read does not matter. *)
Lemma acts_shelf {A} b s (f : Shelf -> Shelf * A) : reach b s (f s).1 -> acts_from (reach b) s (on_shelf f).
Proof. intros Hf a Ha. unfold post, on_shelf. rewrite Ha. destruct (f s). done. Qed.

(** After a number was counted it is the count of the conversation. *)
Lemma acts_count {A} b s conv (k : N -> am A) :
  (forall s', (bump_seq conv s).2 = s' -> acts_from (reach b) s' (k (seq_of conv s'))) -> acts_from (reach b) s (count conv ≫= k).
Proof.
  intros Hk a Ha. set (s' := (bump_seq conv s).2). specialize (Hk s' eq_refl).
  assert (seq_of conv s' = u64_add (seq_of conv s) 1) as Hn.
  { unfold s', bump_seq. cbn [snd]. rewrite seq_of_insert. by rewrite decide_True. }
  assert (count conv a = (a <| inner ::= fun i => i <| shelf := s' |> |>, Ok (seq_of conv s'))) as Hc.
  { rewrite Hn. unfold count, on_shelf. by rewrite Ha. }
  rewrite post_bind. unfold post at 1. rewrite Hc. cbn [fst snd].
  eapply post_conseq; [by apply Hk|]. intros r a' Hr. etrans; [|exact Hr].
  apply (reach_step b (OwnCount conv)). cbn. lia.
Qed.

Lemma acts_push b s r : row_conv_seq r <= seq_of (conv_id r) s -> acts_from (reach b) s (on_shelf (push_row r)).
Proof.
  intros Hr. apply acts_shelf. replace (push_row r s).1 with (shelf_exec (OwnRow r) s) by (cbn; by rewrite (proj2 (N.leb_le _ _) Hr)).
  apply reach_step. cbn. lia.
Qed.

Lemma raise_seq_same conv n s : n = seq_of conv s -> raise_seq conv n s = s.
Proof. intros ->. unfold raise_seq. by rewrite N.ltb_irrefl. Qed.

Create HintDb acts discriminated.
#[local] Hint Extern 1 (acts_from _ _ _) => apply acts_still; [exact _ | solve [keep]] : acts.

(** Walks a body: frames first, then the steps that [known] handles. *)
Ltac act :=
  repeat first
    [ progress cbv zeta
    | apply acts_then; [exact _ | solve [keep] | intros ?]
    | match goal with
      | |- acts _ _ => intros ?
      | |- acts_from _ _ (if ?c then _ else _) => destruct c
      | |- acts_from _ _ (let '(_, _) := ?p in _) => destruct p
      | |- acts_from _ _ (match ?o with _ => _ end) => destruct o
      end
    | solve [auto with acts] ].

(** Received rows and marks are abstract steps. *)
Ltac step op := apply acts_shelf; exact (reach_step _ op _ ltac:(cbn; lia)).
Ltac stepset op := apply acts_set_shelf; exact (reach_step _ op _ ltac:(cbn; lia)).

Lemma acts_control b s conv sq at_ k em tgt : sq <= b -> acts_from (reach b) s (on_shelf (push_control conv sq at_ k em tgt false)).
Proof. intros Hs. apply acts_shelf. exact (reach_step b (RecvControl conv (mk_app_header sq at_ None) k em tgt) s Hs). Qed.

Lemma acts_own_control b s conv at_ k em tgt :
  acts_from (reach b) s (on_shelf (push_control conv (seq_of conv s) at_ k em tgt true)).
Proof.
  apply acts_shelf. unfold push_control. rewrite raise_seq_same by done.
  set (r := control_row _ _ _ _ _ _ _).
  replace (push_row r s).1 with (shelf_exec (OwnRow r) s) by (cbn; by rewrite N.leb_refl).
  apply reach_step. cbn. lia.
Qed.

Lemma acts_own_file b s conv at_ meta data token reply :
  acts_from (reach b) s (on_shelf (push_file conv (seq_of conv s) at_ meta data token reply true)).
Proof.
  apply acts_shelf. unfold push_file. rewrite raise_seq_same by done. set (r := mk_row _ _ _ _ _ _ _ _ _ _ _ _ _ _ _ _ _).
  replace (push_row r s).1 with (shelf_exec (OwnRow r) s) by (cbn; by rewrite N.leb_refl).
  apply reach_step. cbn. lia.
Qed.

Lemma acts_send_text b hex txt reply : acts (reach b) (send_text_with_reply hex txt reply).
Proof.
  unfold send_text_with_reply, now_unix. act. apply acts_count. intros s' _. act.
  apply acts_bind; [exact _ | apply acts_push; cbn; lia | intros; act].
Qed.

Lemma acts_send_file b hex name mime data reply : acts (reach b) (send_file_with_reply hex name mime data reply).
Proof.
  unfold send_file_with_reply, now_unix. act. apply acts_count. intros s' _. act.
  apply acts_bind; [exact _ | apply acts_own_file | intros; act].
Qed.

Lemma acts_send_group_text b hex txt reply : acts (reach b) (send_group_text_with_reply hex txt reply).
Proof.
  unfold send_group_text_with_reply, now_unix. act. apply acts_count. intros s' _. act.
  apply acts_bind; [exact _ | apply acts_push; cbn; lia | intros; act].
Qed.

Lemma acts_send_group_file b hex name mime data reply : acts (reach b) (send_group_file_with_reply hex name mime data reply).
Proof.
  unfold send_group_file_with_reply, now_unix. act. apply acts_count. intros s' _. act.
  apply acts_bind; [exact _ | apply acts_push; cbn; lia | intros; act].
Qed.

Lemma acts_react b conv tgt em : acts (reach b) (react conv tgt em).
Proof.
  unfold react, now_unix. act. intros a Ha. rewrite post_bind. unfold post at 1, on_shelf. rewrite Ha.
  unfold react_local. destruct (take_matching_reaction conv tgt em true (lit "") s) as [s1 off] eqn:E.
  set (s2 := (bump_seq conv s1).2).
  assert (seq_of conv s2 = (bump_seq conv s1).1) as Hn by (unfold s2; cbn; rewrite seq_of_insert; by rewrite decide_True).
  change (bump_seq conv s1) with ((bump_seq conv s1).1, s2). rewrite <- Hn. cbv beta iota. cbn [fst snd].
  assert (reach b s s2) as Hs2.
  { destruct off.
    - replace s2 with (shelf_exec (OwnReact conv tgt em 0) s) by (cbn; unfold react_local; by rewrite E).
      apply reach_step. cbn. lia.
    - assert (s1 = s) as -> by (unfold take_matching_reaction in E; destruct (remove_first _ _); congruence).
      apply (reach_step b (OwnCount conv)). cbn. lia. }
  match goal with |- post ?m ?a' _ => enough (acts_from (reach b) s2 m) as Hm by
    (eapply post_conseq; [by apply Hm|]; intros ? ? ?; by etrans) end.
  act. apply acts_bind; [exact _ | apply acts_push; cbn; lia | intros; act].
Qed.

Lemma acts_delete_rows b s conv tgt : acts_from (reach b) s (delete_rows conv tgt).
Proof. stepset (DeleteLocal conv tgt). Qed.

Lemma acts_delete b conv tgt : acts (reach b) (delete_message conv tgt).
Proof.
  unfold delete_message, now_unix. act. apply acts_bind; [exact _ | apply acts_delete_rows|]. intros _ s1. apply acts_count. intros s' _. act.
Qed.

Lemma acts_delete_for_me b conv tgt : acts (reach b) (delete_message_for_me conv tgt).
Proof. unfold delete_message_for_me, now_unix. act. apply acts_bind; [exact _ | apply acts_delete_rows | intros; act]. Qed.

Lemma acts_send_app b conv body t : acts (reach b) (send_app conv body t).
Proof.
  intros s. unfold send_app. apply acts_count. intros s' _. destruct body; act. all: apply acts_own_control.
Qed.

Lemma acts_set_disappear b conv seconds : acts (reach b) (set_disappear conv seconds).
Proof.
  unfold set_disappear, now_unix. intros s. apply acts_bind; [exact _ | stepset (SetTimer conv seconds)|]. intros _ s1. act.
  apply acts_bind; [exact _ | apply acts_send_app | intros; act].
Qed.

Lemma acts_mark_read b conv upto : acts (reach b) (mark_read conv upto).
Proof. unfold mark_read, now_unix. act. Qed.

Lemma acts_revoked_rows b ids t : acts (reach b) (revoked_rows ids t).
Proof.
  induction ids as [|id ids IH]; cbn [revoked_rows]; [act|]. intros s.
  apply acts_bind; [exact _ | apply acts_control; lia|]. intros r s1. apply acts_bind; [exact _ | apply IH | intros; act].
Qed.

Lemma acts_idle b : acts (reach b) idle_maintenance.
Proof.
  unfold idle_maintenance, now_unix. act. apply acts_bind; [exact _ | apply acts_revoked_rows | intros; act].
Qed.

Lemma acts_expire b : acts (reach b) expire_now.
Proof.
  unfold expire_now, now_unix. act. apply acts_bind; [exact _ | step (Expire x)|]. intros _ s1. act.
  apply acts_bind; [exact _ | |intros; act]. destruct (cl_state x2) as [[]|]; [act | apply acts_idle | act].
Qed.

Lemma acts_binding_gossip b p id sq sv h : conv_seq h <= b -> acts (reach b) (apply_binding_gossip p id sq sv h).
Proof.
  intros Hh. unfold apply_binding_gossip, now_unix. act. all: apply acts_bind; [exact _ | by apply acts_control | intros; act].
Qed.

Lemma acts_emit_silent b hex body k t : acts (reach b) (emit_call hex body k t false).
Proof. intros s. unfold emit_call. apply acts_count. intros s' _. act. Qed.

Lemma acts_emit b hex body k t : acts (reach b) (emit_call hex body k t true).
Proof. intros s. unfold emit_call. apply acts_count. intros s' _. act. apply acts_own_control. Qed.

Lemma acts_go_live b c hex body conn k t : acts (reach b) (go_live c hex body conn k t).
Proof. intros s. unfold go_live. apply acts_count. intros s' _. act. apply acts_own_control. Qed.

#[local] Hint Extern 1 (acts_from _ _ (emit_call _ _ _ _ _)) => apply acts_emit : acts.
#[local] Hint Extern 1 (acts_from _ _ (go_live _ _ _ _ _ _)) => apply acts_go_live : acts.

Lemma acts_name b s (f : Inner -> Inner) : (forall i, shelf (f i) = shelf i) -> acts_from (reach b) s (set_inner f).
Proof. intros Hf a Ha. unfold post, set_inner. cbn. by rewrite Hf, Ha. Qed.

Lemma acts_call_row b s peer h k cid f : conv_seq h <= b -> acts_from (reach b) s (call_row peer h k cid f).
Proof. intros Hh. unfold call_row. apply acts_bind; [exact _ | by apply acts_control | intros; act]. Qed.

(** A message of a contact, other than an introduction, which may move a
    conversation to another name. *)
Lemma acts_direct b peer msg f :
  (forall cap intro, app_body msg <> AppCapability cap intro) -> conv_seq (app_header msg) <= b -> acts (reach b) (direct_message peer msg f).
Proof.
  intros Hc Hh s. destruct msg as [h body]. cbn [app_header app_body] in *. unfold direct_message, call_message. cbn [app_header app_body].
  destruct body; cbv zeta beta iota; try solve [act].
  - apply acts_bind; [exact _ | |intros; act]. apply acts_shelf. exact (reach_step b (RecvText (to_hex (to_vec peer)) h text) s Hh).
  - destruct fetch_token; [act|]. apply acts_bind; [exact _ | |intros; act].
    apply acts_shelf. exact (reach_step b (RecvFile (to_hex (to_vec peer)) h meta enc_file (lit "")) s Hh).
  - act. apply acts_bind; [exact _ | |intros; act].
    apply acts_shelf. exact (reach_step b (RecvReaction (to_hex (to_vec peer)) (to_hex (to_vec peer)) _ h target emoji) s Hh).
  - apply acts_bind; [exact _ | |intros; act]. apply acts_shelf. exact (reach_step b (RecvDelete (to_hex (to_vec peer)) h target) s Hh).
  - apply acts_bind; [exact _ | stepset (RecvAck (to_hex (to_vec peer)) upto) | intros; act].
  - apply acts_bind; [exact _ | stepset (RecvRead (to_hex (to_vec peer)) upto) | intros; act].
  - by destruct (Hc contact_capability intro).
  - apply acts_bind; [exact _ | by apply acts_binding_gossip | intros; act].
  - apply acts_bind; [exact _ | |intros; act]. apply acts_shelf. exact (reach_step b (RecvDisappear (to_hex (to_vec peer)) h seconds) s Hh).
  - apply acts_bind; [exact _ | |intros; act]. case_match; [act|]. apply acts_name. intros i. by destruct (list_find _ _) as [[]|].
  - act. apply acts_bind; [exact _ | |intros _ s1; by apply acts_call_row]. case_match; [|act].
    unfold now_unix. act. apply acts_bind; [exact _ | apply acts_quietly, acts_emit_silent | intros; act].
  - by apply acts_call_row.
  - act. by apply acts_call_row.
  - act. by apply acts_call_row.
  - act. by apply acts_call_row.
  - act. by apply acts_call_row.
Qed.

(** A message of a group. *)
Lemma acts_group_message b host msg sender name self :
  conv_seq (app_header msg) <= b -> acts (reach b) (group_message host msg sender name self).
Proof.
  intros Hh s. destruct msg as [h body]. cbn [app_header app_body] in *. unfold group_message. cbn [app_header app_body].
  set (conv := to_hex (to_vec (hg_group_id host))).
  destruct body; cbv zeta beta iota; try solve [act].
  - apply acts_bind; [exact _ | |intros; act]. apply acts_shelf. exact (reach_step b (RecvText conv h text) s Hh).
  - destruct fetch_token; [|act]. act. apply acts_bind; [exact _ | |intros; act]. apply acts_shelf.
    match goal with |- context [push_file _ _ _ _ ?d ?t _ _] => exact (reach_step b (RecvFile conv h meta d t) s Hh) end.
  - apply acts_bind; [exact _ | |intros; act]. apply acts_shelf. exact (reach_step b (RecvReaction conv sender name h target emoji) s Hh).
  - apply acts_bind; [exact _ | |intros; act]. apply acts_shelf. exact (reach_step b (RecvDelete conv h target) s Hh).
  - apply acts_bind; [exact _ | |intros; act]. destruct (str_is sender self); [act | stepset (RecvGroupRead conv sender upto)].
  - apply acts_bind; [exact _ | by apply acts_binding_gossip | intros; act].
  - apply acts_bind; [exact _ | |intros; act]. apply acts_shelf. exact (reach_step b (RecvDisappear conv h seconds) s Hh).
Qed.

(** Calls. *)
Lemma acts_send_call b hex body k t : acts (reach b) (send_call_body hex body k t).
Proof. unfold send_call_body. act. Qed.
#[local] Hint Extern 1 (acts_from _ _ (send_call_body _ _ _ _)) => apply acts_send_call : acts.

Lemma acts_start_call b hex : acts (reach b) (start_call hex).
Proof. unfold start_call, now_unix. act. Qed.
Lemma acts_answer_call b hex : acts (reach b) (answer_call hex).
Proof. unfold answer_call, now_unix. act. Qed.
Lemma acts_reject_call b hex : acts (reach b) (reject_call hex).
Proof. unfold reject_call, now_unix. act. Qed.
Lemma acts_end_call b : acts (reach b) end_call.
Proof. unfold end_call, now_unix. act. Qed.
(** ** Every operation of the application as steps of the shelf *)

(** A fetch may also move a conversation to another name. *)
Definition shelf_change (s s' : Shelf) : Prop :=
  (exists op, s' = shelf_exec op s) \/ (exists from to, s' = remap_conv_id from to s).

Lemma reach_changes b : subrelation (reach b) (rtc shelf_change).
Proof.
  intros s s' (ops & _ & ->). unfold shelf_run. induction ops as [|op ops IH] in s |- *; cbn [fold_left]; [done|].
  eapply rtc_l; [left; by eexists | apply IH].
Qed.

Lemma changes_direct peer msg f : acts (rtc shelf_change) (direct_message peer msg f).
Proof.
  destruct (app_body msg) eqn:E.
  all: try (eapply acts_weaken; [apply reach_changes | apply (acts_direct (conv_seq (app_header msg))); [congruence | done]]).
  unfold direct_message, now_unix. rewrite E. act. apply acts_bind; [exact _ | | intros; act].
  apply acts_set_shelf. apply rtc_once. right. by eexists _, _.
Qed.

Lemma changes_direct_pass rows ack peers f : acts (rtc shelf_change) (direct_pass rows ack peers f).
Proof.
  induction rows as [|row rows IH] in f |- *; cbn [direct_pass]; [act|]. intros s. case_match; [apply IH|]. act.
  apply acts_bind; [exact _ | | intros; apply IH]. act. apply changes_direct.
Qed.

Lemma changes_group_row self env : acts (rtc shelf_change) (apply_group_mailbox_row self env).
Proof.
  unfold apply_group_mailbox_row. act. apply acts_bind; [exact _ | | intros; act].
  match goal with |- acts_from _ _ (group_message _ ?m _ _ _) =>
    eapply acts_weaken; [apply reach_changes | by apply (acts_group_message (conv_seq (app_header m)))] end.
Qed.

Lemma changes_lost : acts (rtc shelf_change) lost_row.
Proof. eapply acts_weaken; [apply (reach_changes 0)|]. unfold lost_row, now_unix. act. by apply acts_control. Qed.

Lemma changes_group_pass self rows ack out : acts (rtc shelf_change) (group_pass self rows ack out).
Proof.
  induction rows as [|row rows IH] in ack, out |- *; cbn [group_pass]; [act|]. intros s.
  apply acts_bind; [exact _ | apply changes_group_row|]. intros [[] new]; act; try apply IH.
  apply acts_bind; [exact _ | apply changes_lost | intros; apply IH].
Qed.

Lemma still_acks s acks t : preserves (shelf_at s) (send_acks acks t).
Proof. induction acks as [|[] acks IH]; cbn [send_acks]; keep. Qed.
Lemma still_send_gossip s peers t : preserves (shelf_at s) (send_gossip peers t).
Proof. pose proof (still_capability s). induction peers; cbn [send_gossip]; keep. Qed.
#[local] Hint Resolve still_acks still_send_gossip : keep.

Lemma changes_fetch_rows rows last self : acts (rtc shelf_change) (fetch_rows rows last self).
Proof.
  unfold fetch_rows. act. apply acts_bind; [exact _ | case_match; [|act] |].
  { apply acts_bind; [exact _ | apply changes_lost | intros; act]. }
  intros lost s1. apply acts_bind; [exact _ | apply changes_group_pass|]. intros [ack out]. act.
  apply acts_bind; [exact _ | apply changes_direct_pass|]. intros f2. unfold now_unix. act.
Qed.

Lemma changes_fetch : acts (rtc shelf_change) fetch_now.
Proof.
  unfold fetch_now. act. apply acts_bind; [exact _ | apply changes_fetch_rows|]. intros new s1.
  apply acts_bind; [exact _ | eapply acts_weaken; [apply (reach_changes 0) | apply acts_idle] | intros; act].
Qed.

(** Operations that leave the shelf alone. *)
Lemma still_bare_capability s p t : preserves (shelf_at s) (send_own_contact_capability p t). Proof. apply still_capability. Qed.
#[local] Hint Resolve still_bare_capability : keep.
Lemma still_create_group s name : preserves (shelf_at s) (create_group name). Proof. unfold create_group, now_unix, system_now, on_mls_provider. keep. Qed.
Lemma still_mint_invite s g b : preserves (shelf_at s) (mint_invite g b). Proof. unfold mint_invite, now_unix. keep. Qed.
#[local] Hint Resolve still_mint_invite : keep.
Lemma still_mint_group s g : preserves (shelf_at s) (mint_group_invite g). Proof. unfold mint_group_invite. keep. Qed.
Lemma still_mint_bound s g id : preserves (shelf_at s) (mint_bound_group_invite g id). Proof. unfold mint_bound_group_invite. keep. Qed.
Lemma still_accept s uri : preserves (shelf_at s) (accept_group_invite uri).
Proof. unfold accept_group_invite, now_unix, system_now, on_mls_provider. keep. Qed.
Lemma acts_sync b k g id : acts (reach b) (sync_group_name k g id).
Proof. unfold sync_group_name, now_unix. act. apply acts_count. intros s' _. act. Qed.
Lemma acts_join b uri : acts (reach b) (admit_join uri).
Proof. unfold admit_join, now_unix, system_now. act. apply acts_bind; [exact _ | apply acts_sync | intros; act]. Qed.
Lemma still_remove_member s g c : preserves (shelf_at s) (remove_group_member g c).
Proof. unfold remove_group_member, now_unix, system_now. keep. Qed.
Lemma still_fetch_file s g tok : preserves (shelf_at s) (fetch_group_file g tok).
Proof. unfold fetch_group_file. keep. Qed.
Lemma still_share s : preserves (shelf_at s) mint_share_uri. Proof. unfold mint_share_uri, now_unix. keep. Qed.
Lemma still_privacy s m : preserves (shelf_at s) (set_privacy_mode m). Proof. unfold set_privacy_mode. keep. Qed.
Lemma still_restock s : preserves (shelf_at s) spawn_restock. Proof. unfold spawn_restock. keep. Qed.
#[local] Hint Resolve still_create_group still_mint_group still_mint_bound still_accept still_remove_member still_fetch_file
  still_share still_privacy still_restock : keep.

(** What the application calls. *)
Inductive client_op : Type :=
| SendText (peer txt : rstring) (reply : N)
| SendFile (peer name mime : rstring) (data : bytes) (reply : N)
| SendGroupText (group txt : rstring) (reply : N)
| SendGroupFile (group name mime : rstring) (data : bytes) (reply : N)
| React (conv : rstring) (tgt : N) (em : rstring)
| Delete (conv : rstring) (tgt : N)
| DeleteForMe (conv : rstring) (tgt : N)
| SetDisappear (conv : rstring) (seconds : N)
| MarkRead (conv : rstring) (upto : N)
| CreateGroup (name : rstring)
| MintInvite (group : rstring)
| MintBoundInvite (group id : rstring)
| AcceptInvite (uri : rstring)
| AdmitJoin (uri : rstring)
| RemoveMember (group cred : rstring)
| FetchFile (group token : rstring)
| MintShare
| SetPrivacy (mode : rstring)
| StartCall (peer : rstring)
| AnswerCall (call : rstring)
| RejectCall (call : rstring)
| EndCall
| Restock
| ExpireNow
| FetchNow.

Definition after {A} (m : am A) (a : client) : client := (m a).1.

Definition client_exec (op : client_op) : client -> client :=
  match op with
  | SendText peer txt reply => after (send_text_with_reply peer txt reply)
  | SendFile peer name mime data reply => after (send_file_with_reply peer name mime data reply)
  | SendGroupText group txt reply => after (send_group_text_with_reply group txt reply)
  | SendGroupFile group name mime data reply => after (send_group_file_with_reply group name mime data reply)
  | React conv tgt em => after (react conv tgt em)
  | Delete conv tgt => after (delete_message conv tgt)
  | DeleteForMe conv tgt => after (delete_message_for_me conv tgt)
  | SetDisappear conv seconds => after (set_disappear conv seconds)
  | MarkRead conv upto => after (mark_read conv upto)
  | CreateGroup name => after (create_group name)
  | MintInvite group => after (mint_group_invite group)
  | MintBoundInvite group id => after (mint_bound_group_invite group id)
  | AcceptInvite uri => after (accept_group_invite uri)
  | AdmitJoin uri => after (admit_join uri)
  | RemoveMember group cred => after (remove_group_member group cred)
  | FetchFile group token => after (fetch_group_file group token)
  | MintShare => after mint_share_uri
  | SetPrivacy mode => after (set_privacy_mode mode)
  | StartCall peer => after (start_call peer)
  | AnswerCall call => after (answer_call call)
  | RejectCall call => after (reject_call call)
  | EndCall => after end_call
  | Restock => after spawn_restock
  | ExpireNow => after expire_now
  | FetchNow => after fetch_now
  end.

#[local] Instance client_op_fetch op : Decision (op = FetchNow).
Proof. destruct op; solve [left; reflexivity | right; discriminate]. Defined.

Definition client_run (ops : list client_op) a : client := fold_left (fun a op => client_exec op a) ops a.

Lemma acts_after {A} R (m : am A) a : acts R m -> R (shelf (inner a)) (shelf (inner (after m a))).
Proof. intros Hm. exact (Hm _ a eq_refl). Qed.

Lemma own_step_reach op a : op <> FetchNow -> reach 0 (shelf (inner a)) (shelf (inner (client_exec op a))).
Proof.
  intros Hop. destruct op; cbn [client_exec]; try done; apply acts_after.
  all: lazymatch goal with
  | |- acts _ (send_text_with_reply _ _ _) => apply acts_send_text
  | |- acts _ (send_file_with_reply _ _ _ _ _) => apply acts_send_file
  | |- acts _ (send_group_text_with_reply _ _ _) => apply acts_send_group_text
  | |- acts _ (send_group_file_with_reply _ _ _ _ _) => apply acts_send_group_file
  | |- acts _ (react _ _ _) => apply acts_react
  | |- acts _ (delete_message _ _) => apply acts_delete
  | |- acts _ (delete_message_for_me _ _) => apply acts_delete_for_me
  | |- acts _ (set_disappear _ _) => apply acts_set_disappear
  | |- acts _ (mark_read _ _) => apply acts_mark_read
  | |- acts _ (admit_join _) => apply acts_join
  | |- acts _ (start_call _) => apply acts_start_call
  | |- acts _ (answer_call _) => apply acts_answer_call
  | |- acts _ (reject_call _) => apply acts_reject_call
  | |- acts _ end_call => apply acts_end_call
  | |- acts _ expire_now => apply acts_expire
  | |- acts _ _ => intros s; apply acts_still; [exact _ | solve [eauto with keep]]
  end.
Qed.


(** ** What ends a call *)

Lemma idle_hangup a : (hangup_live a).2 = Ok tt /\ live_call (inner (hangup_live a).1) = None.
Proof.
  unfold hangup_live, me, set_inner, gets, modify, mbind, stM_bind. cbn. destruct (live_call (inner a)) as [c|] eqn:E; cbn; [|done].
  unfold quietly. by destruct (on_call _ _) as [a' r] eqn:Ec; unfold on_call in Ec; destruct (close c _); injection Ec as <- _.
Qed.

Lemma no_call_row peer h k cid f : preserves (fun a => live_call (inner a) = None) (call_row peer h k cid f).
Proof. unfold call_row. keep. Qed.

(** A message that ends, refuses or withdraws a call ends the call that is
    going on, whoever sent it and whichever call it names. *)
Theorem any_contact_ends_call peer h cid body f a :
  body = AppCallEnd cid \/ body = AppCallReject cid \/ body = AppCallCancel cid ->
  live_call (inner (direct_message peer (mk_app_msg h body) f a).1) = None.
Proof.
  intros Hb. destruct (idle_hangup a) as [Hok Hn].
  assert (forall k : am fetched, preserves (fun a => live_call (inner a) = None) k ->
            live_call (inner ((hangup_live ≫= fun _ => k) a).1) = None) as Hk.
  { intros k Hk. unfold mbind, stM_bind. destruct (hangup_live a) as [a' r]. cbn [fst snd] in *. subst r. exact (Hk a' Hn). }
  unfold direct_message, call_message. cbn [app_header app_body].
  destruct Hb as [->|[->| ->]]; cbv zeta beta iota; apply Hk; pose proof no_call_row; keep.
Qed.

(** ** What a failed call leaves *)

(** A first registration or a move to an address that the transport refuses
    leaves the client without an identity until it is opened again. *)
Theorem refused_address_unusable android base e a :
  http_home_new android base = Err e ->
  (forall s, cl_state (inner a) = Some (Registered s) -> trim_slashes (home_base s) <> trim_slashes base) ->
  cl_state (inner a) <> None ->
  let a' := (register android base a).1 in
  (register android base a).2 = Err (FfiCore e) /\ cl_state (inner a') = None /\
  the_session (inner a') = Err (FfiText "busy") /\ (register android base a').2 = Err (FfiText "busy") /\
  (vault (inner a) <> None -> (persist a').2 = Err (FfiText "busy")).
Proof.
  intros He Hs Hn. cbv zeta. unfold register, now_unix, take_state, put_state, world, me, set_inner.
  unfold mbind, stM_bind, gets, modify, mret, stM_ret. cbn. destruct (clock_unix (net a)) as [w now] eqn:Ew. cbn.
  destruct (cl_state (inner a)) as [[inst|s]|] eqn:Ec; [| |done]; cbn.
  - unfold ffi, lift. rewrite He. cbn. destruct (clock_unix w). cbn. split_and!; try done.
    unfold persist, me, gets, mbind, stM_bind. cbn. by destruct (vault (inner a)).
  - rewrite (bool_decide_eq_false_2 (trim_slashes _ = _)) by by apply Hs. rewrite andb_false_r.
    unfold ffi, lift. rewrite He. cbn. destruct (clock_unix w). cbn. split_and!; try done.
    unfold persist, me, gets, mbind, stM_bind. cbn. by destruct (vault (inner a)).
Qed.

(** A deletion stands on this device even if it could not be broadcast or saved:
    whatever the result, exactly the deleted rows are gone. *)
Theorem delete_stands conv tgt a :
  inbox (shelf (inner (delete_message conv tgt a).1)) = (remove_target conv tgt (inbox (shelf (inner a)))).1.
Proof.
  set (s2 := (bump_seq conv ((shelf (inner a)) <| inbox ::= fun rows => (remove_target conv tgt rows).1 |>)).2).
  enough (post (delete_message conv tgt) a (fun _ a' => shelf (inner a') = s2)) as Hp by (unfold post in Hp; by rewrite Hp).
  unfold delete_message, now_unix, world. unfold mbind at 1, stM_bind at 1, post at 1. destruct (clock_unix (net a)) as [w now].
  match goal with |- context [?m (a <| net := w |>)] => change (post m (a <| net := w |>) (fun _ a' => shelf (inner a') = s2)) end.
  unfold delete_rows, set_shelf, set_inner. rewrite post_bind, post_modify. cbv beta iota. rewrite post_bind.
  match goal with |- post (count conv) ?x _ =>
    assert (exists n, count conv x = (x <| inner ::= fun i => i <| shelf := s2 |> |>, Ok n)) as [n Hc] by (eexists; reflexivity) end.
  unfold post at 1. rewrite Hc. cbn [fst snd].
  match goal with |- post ?m _ _ => enough (preserves (shelf_at s2) m) as Hm by by apply Hm end. keep.
Qed.

(** Placing or taking a call saves nothing: what the ratchet of the peer's
    session advanced by is lost if the process ends before the next save. *)
Section Unsaved.
Context (d : Disk).
Notation I := (fun a : client => disk a = d).
Lemma unsaved_turn : preserves I turn_config. Proof. unfold turn_config. keep. Qed.
Lemma unsaved_permitted : preserves I calls_permitted. Proof. unfold calls_permitted. keep. Qed.
Lemma unsaved_live c hex body conn k t : preserves I (go_live c hex body conn k t). Proof. unfold go_live, count. keep. Qed.
#[local] Hint Resolve unsaved_turn unsaved_permitted unsaved_live : keep.
Lemma unsaved_start hex : preserves I (start_call hex). Proof. unfold start_call, now_unix. keep. Qed.
Lemma unsaved_answer hex : preserves I (answer_call hex). Proof. unfold answer_call, now_unix. keep. Qed.
End Unsaved.

Theorem calls_save_nothing hex a : disk (start_call hex a).1 = disk a /\ disk (answer_call hex a).1 = disk a.
Proof. split; [exact (unsaved_start (disk a) hex a eq_refl) | exact (unsaved_answer (disk a) hex a eq_refl)]. Qed.

(** ** A restart *)

(** A statement that succeeds changes only the rows [ks] of the table. *)
Definition writes_only {A} (ks : list rstring) (m : stM Disk CoreError A) : Prop :=
  forall v kv d d' x, vault_at v kv d -> m d = (d', Ok x) ->
    exists kv', vault_at v kv' d' /\ forall k, k ∉ ks -> kv' !! k = kv !! k.

Lemma writes_put k l : writes_only [k] (vault_put k l).
Proof.
  intros v kv d d' [] Hv Hm. destruct (put_at v kv k l d d' Hv Hm) as [Hv' _]. eexists. split; [done|].
  intros k' Hk'. rewrite lookup_insert_ne; [done|]. intros ->. apply Hk'. by left.
Qed.

Lemma writes_bind {A B} ks ks' (m : stM Disk CoreError A) (f : A -> stM Disk CoreError B) :
  writes_only ks m -> (forall x, writes_only ks' (f x)) -> writes_only (ks ++ ks') (m ≫= f).
Proof.
  intros Hm Hf v kv d d' y Hv Hr. apply stM_bind_ok in Hr as (d1 & x & H1' & H2').
  destruct (Hm v kv d d1 x Hv H1') as (kv1 & Hv1 & Hk1). destruct (Hf x v kv1 d1 d' y Hv1 H2') as (kv2 & Hv2 & Hk2).
  exists kv2. split; [done|]. intros k Hk. rewrite not_elem_of_app in Hk. rewrite Hk2, Hk1; tauto.
Qed.

Lemma writes_lift {A} (r : cresult A) : writes_only [] (lift r).
Proof. intros v kv d d' x Hv Hr. injection Hr as <- _. by exists kv. Qed.

Lemma writes_save i : writes_only [SNAPSHOT_KEY; MLS_KEY] (save i).
Proof.
  intros v kv d d' [] Hv Hm. destruct (save_at v kv i d d' Hv Hm) as (snap & _ & Hv' & _). eexists. split; [done|].
  intros k Hk. rewrite !lookup_insert_ne; [done | intros <- ..]; apply Hk; set_solver.
Qed.

Lemma writes_home i h : writes_only [SNAPSHOT_KEY; MLS_KEY; HOME_KEY] (save_home i h).
Proof. apply (writes_bind [_; _] [_]); [apply writes_save|]. intros _. apply (writes_bind [] [_]); [apply writes_lift | intros; apply writes_put]. Qed.
Lemma writes_groups i gs : writes_only [SNAPSHOT_KEY; MLS_KEY; GROUPS_KEY] (save_groups i gs).
Proof. apply (writes_bind [_; _] [_]); [apply writes_save | intros; apply writes_put]. Qed.
Lemma writes_pending es : writes_only [PENDING_KEY] (save_pending es).
Proof. apply (writes_bind [] [_]); [apply writes_lift | intros; apply writes_put]. Qed.

Lemma on_disk_ok {A} (m : stM Disk CoreError A) a a' x :
  on_disk m a = (a', Ok x) -> exists d, m (disk a) = (d, Ok x) /\ a' = a <| disk := d |>.
Proof. unfold on_disk. destruct (m (disk a)) as [d [y|e]]; cbn; intros; simplify_eq. by exists d. Qed.

(** The rows that [persist] stores for the shelf and its names. *)
Definition shown (i : Inner (T := T) (P := P)) : Display :=
  mk_display (names (shelf i)) (timers (shelf i)) (match cl_state i with Some (Registered _) => live_names (live_groups i) | _ => ∅ end).

Definition storable (i : Inner (T := T) (P := P)) : Prop := inbox_fits (stored_inbox (shelf i)) /\ wf_value (display_value (shown i)) = true.

Ltac peel Hr := let d := fresh "d" in let Hd := fresh "Hd" in
  apply stM_bind_ok in Hr as (? & [] & (d & Hd & ->)%on_disk_ok & Hr); cbn [disk] in Hd.

Lemma key_fresh k ks : forallb (fun k' => negb (bool_decide (as_bytes k = as_bytes k'))) ks = true -> k ∉ ks.
Proof. intros Hf Hin%list_elem_of_In. rewrite forallb_forall in Hf. specialize (Hf k Hin). by rewrite bool_decide_eq_true_2 in Hf. Qed.

Lemma stored_last v kv d d1 d2 (x : Display) (y : Inbox) :
  vault_at v kv d -> save_display x d = (d1, Ok tt) -> save_inbox y d1 = (d2, Ok tt) ->
  exists kv', vault_at v kv' d2 /\ kv' !! DISPLAY_KEY = Some (display_encode x) /\ kv' !! INBOX_KEY = Some (encode (inbox_value y)).
Proof.
  intros Hv Hd Hi. destruct (put_at v kv _ _ _ _ Hv Hd) as [Hv1 _]. destruct (put_at v _ _ _ _ _ Hv1 Hi) as [Hv2 _].
  eexists. split; [done|]. rewrite lookup_insert_eq. split; [|done].
  rewrite lookup_insert_ne by (apply key_ne; discriminate). apply lookup_insert_eq.
Qed.

Lemma persisted v kv a a' :
  vault_at v kv (disk a) -> vault (inner a) = Some v -> persist a = (a', Ok tt) ->
  exists kv', vault_at v kv' (disk a') /\ kv' !! DISPLAY_KEY = Some (display_encode (shown (inner a))) /\
    kv' !! INBOX_KEY = Some (encode (inbox_value (stored_inbox (shelf (inner a))))).
Proof.
  intros Hv Hva Hr. unfold persist in Hr. apply stM_bind_ok in Hr as (a0 & i & Hg & Hr). injection Hg as <- <-.
  rewrite Hva in Hr. unfold shown. destruct (cl_state (inner a)) as [[inst|s]|]; [| |discriminate].
  - peel Hr. peel Hr. apply on_disk_ok in Hr as (d3 & Hd3 & ->). cbn [disk] in *.
    destruct (writes_save inst v kv _ _ _ Hv Hd) as (kv1 & Hv1 & _). by eapply stored_last.
  - peel Hr. peel Hr. peel Hr. peel Hr. apply stM_bind_ok in Hr as (a5 & w & Hg & Hr). injection Hg as <- <-. peel Hr.
    apply on_disk_ok in Hr as (d7 & Hd7 & ->). cbn [disk] in *.
    destruct (writes_home _ _ v kv _ _ _ Hv Hd) as (kv1 & Hv1 & _).
    destruct (writes_groups _ _ v kv1 _ _ _ Hv1 Hd0) as (kv2 & Hv2 & _).
    destruct (stored_last v kv2 _ _ _ _ _ Hv2 Hd1 Hd2) as (kv4 & Hv4 & H1' & H2').
    destruct (writes_pending _ v kv4 _ _ _ Hv4 Hd3) as (kv5 & Hv5 & Hk5).
    destruct (writes_put _ _ v kv5 _ _ _ Hv5 Hd7) as (kv6 & Hv6 & Hk6).
    exists kv6. rewrite !Hk6, !Hk5 by (apply key_fresh; reflexivity). done.
Qed.

Lemma from_to_inbox_row r : from_inbox_row (to_inbox_row r) = r. Proof. by destruct r. Qed.

End Props.

(** ** Witnesses *)

Section Witnesses.
#[local] Existing Instances Toy.toy ToySignal.types ToySignal.ops ToySignal.mls ToySignal.words ToyMls.lib plain_argon
  SessionCalls.liar_transport SessionCalls.still_platform.

#[local] Instance still_ffi : FfiPlatform unit := {|
  clock_ns w := (w, 1000000000);
  random_registration w := (w, arr_repeat 4 x01);
  random_salt w := (w, sample_salt);
  map_order _ _ l := l;
  env_var _ _ := None
|}.

#[local] Instance plain_build : HttpBuild unit := {| http_build _ := Ok tt |}.

Notation client := (app (T := unit) (W := unit) (V := ToyMedia.world) (P := unit) (Enc := unit) (Dec := unit) (Apm := unit)).

Definition toy_client (st : ClientState (T := unit)) (v : option Vault) (d : Disk) : client :=
  mk_app (empty_inner (Some st) v None) tt d (ToyMedia.start []).

Definition toy_registered : client := toy_client (Registered SessionProps.polled_session) None blank_disk.

(** Two rows that belong to no group. *)
Definition toy_rows : list MailboxRow := [mk_mrow 4 HomeProps.sample_inner; mk_mrow 6 HomeProps.sample_inner].


Definition toy_vault : Vault := mk_vault (arr_repeat 32 x44).

Definition toy_shelf : Shelf :=
  mk_shelf [own_text (lit "ab") 4 1000 (lit "hello") 2] {[lit "ab" := 4]} {[lit "ab" := 3]} {[lit "ab" := 2]}
    {[lit "g" := {[lit "ab" := 3]}]} {[lit "ab" := lit "Bob"]} {[lit "ab" := 3600]}.

Definition toy_local : client :=
  (toy_client (Local InstallProps.sample_sender) (Some toy_vault)
    (blank_disk <| db_file := Some (mk_vdb (Some (conn_key toy_vault)) (Some ∅)) |>))
  <| inner ::= fun i => i <| shelf := toy_shelf |> |>.

End Witnesses.
